(* ===== verification/_CoqProject ===== *)
-Q . S2P
Prelude.v
Memory.v
WcString.v
Utf8Spec.v
Utf8.v
JitSpans.v
Jit.v
JitArena.v
JitSafety.v
JitRun.v
JitConsole.v
JitProps.v
JitLock.v
CxaGuard.v
AtExit.v
Backtrace.v
Report.v
WcConv.v
UmtxTime.v
Umtx.v
Endian.v
WidthTables.v
WcCtype.v
Effects.v
Mmap.v
MmapBlocks.v
MmapRun.v
MmapLock.v
MmapTable.v
MmapRace.v
Env.v
Printf.v
PrintfProps.v
Paths.v
PathsRun.v
PathsStat.v
Sigev.v
SigevRun.v
SigevProps.v
Thread.v
ThreadProps.v
ThreadProbe.v
Clock.v
Shims.v
Headers.v
Words.v
WcsStr.v
WcConvN.v
WcFtime.v
MemPools.v
MemLogic.v
MemRun.v
MemProps.v
App.v
Boot.v
Crt.v
TimerProbe.v
ClockProbe.v
