(* ===== verification/Prelude.v ===== *)
(** * orbis-compat: a verification development

    orbis-compat corrects what the PlayStation 4 tool chain gets wrong and adds
    a small runtime library: 32-bit wide characters, executable memory, a heap
    in direct memory, guards of function-local statics, a futex, destructors
    of thread-locals, timers that notify on a thread, thread stacks, anchored
    paths, clocks, an environment file, the pools' census, backtraces, death
    reports, an application log and the start-up objects.  This library models
    the code of these parts, the files [src/*.c] and [src/*.cpp], [optional/],
    the C files of [crt/], and the headers that hold code, and proves what
    each part promises.

    ** How the code is modelled

    A C or C++ function is a Rocq function with the source's name.  Where it
    can fail in the language's sense it returns an [outcome] (this file): [Ok]
    of its results, [Fault] for an access the language leaves undefined (an
    unmapped cell, an index outside a table, a signed overflow), or
    [OutOfFuel].  Loops are [loop] and [while] (this
    file) over the loop's variables, with fuel as first argument; every
    theorem about a function with a loop says that fuel above the length of
    the strings involved is enough and gives [Ok], so termination and the
    absence of undefined behaviour are part of functional correctness.
    Integers are [Z] reduced by [u8], [u16], [u32], [u64] and [s32] where the
    source's type does.  Memory ([Memory]) is a finite map from addresses to
    cells; an object of bytes and an object of wide characters are two
    memories when a function takes both.  State that calls share is a record
    that operations take and return; threads are step relations ([step]) with
    one step per access to shared state, and their theorems hold after
    [rtc step initial w], for any interleaving.

    Code outside the repository is a parameter: the kernel and environment of
    the executable memory ([Jit.kernel]) and of the heap ([Mmap.kernel]),
    libkernel's files, threads and timers ([Paths.host], [Thread.host], the
    answers in [Sigev.act]), [malloc] and the pthread calls, the unwinder's
    frames, the clocks, the narrow [strto*] and [snprintf], [towlower].  A
    kernel that has a state of its own answers from the history of the calls
    made to it.  What is
    assumed of a parameter is a named hypothesis or a class ([QueryLaws],
    [MapLaws], [MapFresh], [serves], [steady]) with a concrete instance in the
    witnesses.

    ** The files

    - [Prelude]: outcomes, loops and their rules, machine integers, fields
      packed with shifts, pairwise disjointness.
    - [Memory]: cells, arrays, strings, [write], [mapped], and the executable
      checks of them that witnesses use.

    Wide characters, [src/orbis_wchar32.c]:
    - [WcString]: the wmem and wcs functions, [wcstok], [wcsxfrm].  Each is
      proved equal to its effect on the strings in memory.
    - [Utf8Spec]: UTF-8 as the Unicode standard has it, as an encoder and an
      automaton; no code.
    - [Utf8]: the state table and the one-character conversions.  The word
      the code keeps between calls is the automaton's state ([rep]); from this
      come exact acceptance, restartability, the round trip, the agreement of
      [mbtowc] and [mbrtowc], and the surrogate pairs of [c16rtomb] and
      [mbrtoc16].
    - [WcConv]: [mbsrtowcs], [wcsrtombs] and what calls them: both loops of
      each against the decomposition of a byte string into characters and a
      rest that no character starts at, and their round trip.
    - [Printf]: [vswprintf] and [swprintf], one definition per step of a
      directive.  [PrintfProps]: formats as a syntax of text and conversions,
      what each is to produce, and that the code produces it for every
      format of the syntax, every buffer length and every argument list.
    - [WidthTables], [WcCtype]: [wcwidth] with its tables
      ([src/orbis_wchar32_width.h]), [wcswidth], [iswspace], and the wcsto
      parsers.
    - [Words]: words over an alphabet, periods and maximal suffixes, no code.
      [WcsStr]: [wcsstr], the two-way search with its bitmaps and shifts,
      equal to the first occurrence ([wcsstr_correct]); it returns for every
      pair of strings.
    - [WcConvN]: [mbsnrtowcs] and [wcsnrtombs], the conversions bounded on both
      sides, which work in pieces through the buffer of the caller or one of
      their own.
    - [WcFtime]: [wcsftime] over the C library's [strftime].

    Executable memory, [src/orbis_jit.c]:
    - [JitSpans]: the free list of an arena ([orbis_jit_take],
      [orbis_jit_give]) as a set of free bytes that stays ascending, aligned
      and coalesced.
    - [Jit]: the arena table, the search for addresses, mapping with its
      failure paths, allocation, release, promotion, and the verdict.
    - [JitArena]: arenas, reach and the address search.
    - [JitSafety]: the invariant of the table against the blocks clients hold
      and against the ledger of kernel calls, kept by every operation.
    - [JitRun]: clients that call and store in any order; promotion.
    - [JitConsole]: a small console that satisfies the laws assumed of the
      kernel, for the witnesses.
    - [JitProps]: the properties of the entry points and of whole runs.
    - [JitLock]: the spin lock; calls under it are atomic, which is why the
      files above may take them one after the other.

    The heap in direct memory, [src/orbis_mmap.cpp]:
    - [Mmap]: the carve-outs, their block lists, the interposed [mmap],
      [munmap] and [madvise], zeroing, counters and the description a crash
      report prints.
    - [MmapBlocks]: a block list tiles its carve-out and has no two free
      neighbours, before and after every split and every merge.
    - [MmapRun]: runs of mappings and unmappings refine an allocator of fresh
      zeroed regions ([spec_run]); the ledger of direct memory; what each call
      answers.
    - [MmapLock]: threads that map, unmap and store in any interleaving: the
      spin lock with its weak compare-exchange, the counters before it, the
      byte-wise zeroing after it.  Who holds which mapping is an invariant;
      every call can always be finished.
    - [MmapTable]: the same sections over the words of the table, a step per
      load and store, [memmove] storing in any order; each ends with the lists
      of [Mmap].  [MmapRace]: threads of [MmapLock] and crash handlers that
      look at the words without the lock.  Threads still do what [MmapLock]
      says; a handler's report is right about the carve-out, exact when its
      block list rests, and comes after 4,664 loads at most.

    The pools, [src/orbis_mem.cpp]:
    - [Effects]: programs whose effects are atomic, threads that run them in
      any interleaving, and rely-guarantee rules with their soundness; no code.
      [MmapTable] and [MmapRace] use it too.
    - [MemPools]: [operator new] in its eight forms, the announcement of refused
      requests, the census, the probe of libkernel's memory.  The atomics are
      relaxed: a location keeps all values stored to it, a load answers with
      any of them that the thread has not passed, a read-modify-write with the
      last.  An execution starts with one thread that is alone and may record
      baselines ([memCensusBaseline]); the threads that run at once then may
      not.  [MemLogic] has the rules for these effects, [MemRun] what each
      program does by them, with the numbers it prints, [MemProps] the
      properties of whole executions.

    Process support:
    - [CxaGuard]: [src/orbis_cxa_guard.c], the guards of function-local
      statics: exactly-once initialization, exact detection of recursion, no
      lost wakeup.
    - [AtExit]: [src/orbis_thread_atexit.c], destructors of thread-locals.
    - [Backtrace]: [src/orbis_backtrace.c].
    - [Report]: [src/orbis_log.c] and [src/orbis_abort_report.c].
    - [UmtxTime], [Umtx]: [include/sys/umtx.h], the futex made of mutexes and
      condition variables: deadlines across clocks, the clock probe, the
      register of waiters, and [_umtx_op] with no lost wakeup.
    - [Endian]: [include/sys/endian.h].
    - [Env]: [src/orbis_env.cpp], the files of knobs: the table's bounds, and
      that what a file says in the format is what [orbis_env_get] answers.
    - [Paths]: [src/orbis_paths.cpp] and [src/orbis_stat.cpp].  [PathsRun]: any
      run of calls uses one root, made once, and each call gives the caller
      what the kernel answered to exactly the calls it makes; consoles have
      title ids of the shape the source says ([titles_agree]).  [PathsStat]: the
      kernel's struct
      and its error codes come through [stat], [unlink], [rename] and
      [remove].
    - [Sigev]: [src/orbis_sigev.cpp], the table of timers, the five timer calls
      and the threads behind them as acts that interleave, with the condition
      variables' signals and the threads a failed join leaves behind.
      [SigevRun]: the invariant that ties every slot to the history of its
      timer, and that no wakeup is lost.  [SigevProps]: nothing early, lost or
      repeated, nothing after a disarming but what had run out, nothing after
      a deletion; delivery and deletion within a bounded number of acts none
      of which is a spurious wakeup ([soon]).
    - [Thread]: [src/orbis_thread.cpp], [pthread_create] with its floor under
      the stack, the trampoline and the alternate signal stack.
      [ThreadProps]: ownership of payloads and attribute objects over any run,
      and the stack that is asked for.
    - [ThreadProbe]: its probe, through [pthread_create] and back.
    - [Clock]: [src/orbis_clock.cpp], [clock_gettime].  [ClockProbe]: its probe,
      with ratios in [SpecFloat]'s doubles.
    - [TimerProbe]: [src/orbis_timer.cpp]; it ends and leaves no timer.
    - [Shims]: [include/sys/sysctl.h] and [src/orbis_sysconf.cpp] (one positive
      number of processors on every path, over [Env]), [include/signal.h] (the
      two layouts of [stack_t]), [include/sys/ioccom.h] and
      [src/orbis_cv_fix.cpp] (the deadline of a timed wait is exact).
    - [Headers]: [include/sys/cpuset.h], sets of processors, and
      [include/sys/ioctl.h], the request numbers again.
    - [Boot]: [src/orbis_boot.cpp], the terminate and signal handlers: frames,
      the search for the machine context, what an address belongs to, the code
      around it; signals that arrive while a handler runs; the probes at boot.
    - [App]: [optional/ps4_app.cpp] and [optional/orbis_netlog.cpp], the run
      configuration, the application's lines and the channels that carry them,
      where the header and the code agree on them.
    - [Crt]: [crt/orbis_crt1.c], [crt/orbis_crtlib.c] with
      [crt/orbis_sce_params.h]: the parameter blocks byte by byte, the entry
      points, and the constants of [optional/orbis_bigheap.c].

    ** How the parts interact

    The conversions ([WcConv]) call the one-character conversions ([Utf8]);
    [WcCtype] calls [wcschr] of [WcString]; [Printf] calls [wcsnlen] of
    [WcString] and [mbtowc] and [btowc] of [Utf8], through their theorems.
    [WcConvN] converts its pieces with [WcConv] and its rest with [Utf8], and
    [WcFtime] its format and its result with [WcConv].
    [Sigev], [Clock] and [Paths] share the times of [UmtxTime].  The signal
    handler ([Boot]) asks [Mmap] for the block of an address through the
    theorem of [MmapRun] ([MmapRace] has what that answer is worth while other
    threads go on), collects its frames with [Backtrace], writes through
    the channels of [Report] and installs its stack with [Shims]; the
    application ([App]) registers those channels.  The thread probe calls
    [pthread_create] of [Thread].  What [MemPools] asks of threads, mappings and
    knobs are effects with open answers.  The allocator ([Jit]) calls the
    free list ([JitSpans]) through the theorems of its file only, and its
    clients' theorems ([JitProps]) go through the invariant of [JitSafety].
    The guards, the futex and the allocator share no state; [Report] may be
    entered again while it opens its file, and its guard flag is part of its
    state.

    ** What is proved

    Type and bounds: no function modelled here accesses a cell outside the
    objects it is given, and lengths that could wrap are shown not to, or
    shown where they do ([JitProps.orbis_jit_alloc_overflow]).  Functional:
    the result and the memory of each operation on every branch, errors
    included.  Invariants by induction over the step relations of [CxaGuard],
    [Umtx], [JitLock], [MmapLock], [MmapRace], [JitRun] and [SigevRun], over the rules of
    [MemLogic], and over runs of calls in [MmapRun], [PathsRun] and
    [ThreadProps].  Refinement of an abstract
    allocator ([MmapRun.mmap_refines]), of the lists of a table by its words
    ([MmapRace.mmap_sections_refine]) and of finite sets by bits
    ([Headers.cpuset_refines]); a history predicate that says what a
    timer may do ([SigevRun.log_ok]).  Equivalence with an independent reference:
    UTF-8, the free set of a span list, the sequential order of locked calls,
    the numerals of [orbis_write_hex].  Round trips: UTF-8, UTF-16, strings,
    byte orders, hexadecimal.

    ** What is not modelled

    The stores of one thread are seen by others in program order ([MmapRace])
    except where atomics are relaxed ([MemPools]).  Callers of the timers keep
    POSIX's rules for handles (stated in [Sigev]); the theorems about timers are
    about runs in which no callback's deletion of its own timer gets past its
    join.  Lengths of mappings are positive and do not wrap when rounded.  Left
    out: the assembler stubs of [crt]; the headers that only declare; tests and
    scripts.  The texts of diagnostics are arguments or are
    omitted; the flags that decide whether one is printed are kept. *)
From stdpp Require Import prelude gmap list numbers.

Declare Scope c_scope.
Delimit Scope c_scope with c.

(** ** Outcomes of C code

    A C function either returns ([Ok]), performs an access the language
    leaves undefined ([Fault]: an unmapped or out-of-bounds cell), or has
    used up the fuel its loops were given ([OutOfFuel]).  Correctness
    theorems are about [Ok]: they exclude both other outcomes. *)
Inductive outcome (A : Type) : Type :=
  | Ok (a : A)
  | Fault
  | OutOfFuel.
Arguments Ok {A} _.
Arguments Fault {A}.
Arguments OutOfFuel {A}.

#[export] Instance outcome_ret : MRet outcome := fun A => @Ok A.
#[export] Instance outcome_bind : MBind outcome := fun A B f o =>
  match o with Ok a => f a | Fault => Fault | OutOfFuel => OutOfFuel end.
#[export] Instance outcome_fmap : FMap outcome := fun A B f o =>
  match o with Ok a => Ok (f a) | Fault => Fault | OutOfFuel => OutOfFuel end.

#[export] Instance outcome_eq_dec `{EqDecision A} : EqDecision (outcome A).
Proof. solve_decision. Defined.

(** [runs o Q]: the computation returns, and its result satisfies [Q]. *)
Definition runs {A} (o : outcome A) (Q : A -> Prop) : Prop :=
  match o with Ok a => Q a | _ => False end.

(** C's [&&] and [||] on a condition whose right operand may fault. *)
Definition c_and (a : bool) (b : outcome bool) : outcome bool :=
  if a then b else Ok false.
Definition c_or (a : bool) (b : outcome bool) : outcome bool :=
  if a then Ok true else b.
Infix "&&&" := c_and (at level 40, left associativity) : c_scope.
Infix "|||" := c_or (at level 50, left associativity) : c_scope.

(** A loop whose body decides whether to go round again ([inl]) or to leave
    with a result ([inr]). *)
Fixpoint loop {S R} (fuel : nat) (body : S -> outcome (S + R)) (s : S) : outcome R :=
  match fuel with
  | O => OutOfFuel
  | Datatypes.S f =>
      match body s with
      | Ok (inl s') => loop f body s'
      | Ok (inr r) => Ok r
      | Fault => Fault
      | OutOfFuel => OutOfFuel
      end
  end.

(** [while (cond) body]. *)
Definition while {S} (fuel : nat) (cond : S -> outcome bool)
    (body : S -> outcome S) : S -> outcome S :=
  loop fuel (fun s =>
    b ← cond s;
    if (b : bool) then s' ← body s; Ok (inl s') else Ok (inr s)).

(** ** Total-correctness rules *)

Lemma runs_ok {A} (o : outcome A) (a : A) : runs o (fun x => x = a) <-> o = Ok a.
Proof. destruct o; cbn; naive_solver. Qed.

Lemma runs_mono {A} (o : outcome A) (P Q : A -> Prop) :
  runs o P -> (forall a, P a -> Q a) -> runs o Q.
Proof. destruct o; cbn; auto. Qed.

Lemma runs_elim {A} (o : outcome A) (Q : A -> Prop) :
  runs o Q -> exists a, o = Ok a /\ Q a.
Proof. destruct o; cbn; naive_solver. Qed.

Lemma runs_bind {A B} (o : outcome A) (f : A -> outcome B) (Q : B -> Prop) :
  runs (o ≫= f) Q <-> runs o (fun a => runs (f a) Q).
Proof. by destruct o. Qed.

Lemma bind_ok {A B} (a : A) (f : A -> outcome B) : Ok a ≫= f = f a.
Proof. done. Qed.

Lemma bind_ok_inv {A B} (o : outcome A) (f : A -> outcome B) b :
  o ≫= f = Ok b -> exists a, o = Ok a /\ f a = Ok b.
Proof. destruct o; naive_solver. Qed.

(** The invariant rule: every round either keeps [I] and lowers [mu], or
    leaves in [Q]. *)
Lemma loop_total {S R} (I : S -> Prop) (mu : S -> nat) (Q : R -> Prop)
    (body : S -> outcome (S + R)) :
  (forall s, I s -> runs (body s) (fun x =>
     match x with inl s' => I s' /\ (mu s' < mu s)%nat | inr r => Q r end)) ->
  forall fuel s, I s -> (mu s < fuel)%nat -> runs (loop fuel body s) Q.
Proof.
  intros Hbody fuel. induction fuel as [|fuel IH]; intros s HI Hmu; [lia|].
  cbn. specialize (Hbody s HI).
  destruct (body s) as [[s'|r]| |]; cbn in Hbody; try done.
  destruct Hbody as [HI' Hlt]. apply IH; [done|lia].
Qed.

Lemma while_total {S} (I : S -> Prop) (mu : S -> nat) (Q : S -> Prop)
    (cond : S -> outcome bool) (body : S -> outcome S) :
  (forall s, I s -> runs (cond s) (fun b =>
     if b : bool then runs (body s) (fun s' => I s' /\ (mu s' < mu s)%nat)
     else Q s)) ->
  forall fuel s, I s -> (mu s < fuel)%nat -> runs (while fuel cond body s) Q.
Proof.
  intros H. apply loop_total. intros s HI. specialize (H s HI).
  rewrite runs_bind. eapply runs_mono; [exact H|].
  intros [] Hb; cbn in *; [|done].
  rewrite runs_bind. eapply runs_mono; [exact Hb|]. by cbn.
Qed.

(** More fuel never changes a result. *)
Lemma loop_fuel_mono {S R} (body : S -> outcome (S + R)) f1 f2 s r :
  (f1 <= f2)%nat -> loop f1 body s = Ok r -> loop f2 body s = Ok r.
Proof.
  revert f2 s. induction f1 as [|f1 IH]; intros [|f2] s Hle; cbn; try done; [lia|].
  destruct (body s) as [[s'|r']| |]; try done. apply IH. lia.
Qed.

(** ** Machine integers

    An unsigned [w]-bit value is a [Z] in [[0, 2^w)]; conversion to the type
    is reduction modulo [2^w].  [s32] and [s64] are conversions to
    two's-complement types; [i64] is the result of a signed operation, whose
    overflow is undefined. *)
Open Scope Z_scope.

Definition u8  (z : Z) : Z := z mod 2 ^ 8.
Definition u16 (z : Z) : Z := z mod 2 ^ 16.
Definition u32 (z : Z) : Z := z mod 2 ^ 32.
Definition u64 (z : Z) : Z := z mod 2 ^ 64.
Definition s32 (z : Z) : Z := (z + 2 ^ 31) mod 2 ^ 32 - 2 ^ 31.
Definition s64 (z : Z) : Z := (z + 2 ^ 63) mod 2 ^ 64 - 2 ^ 63.
Definition i64 (z : Z) : outcome Z := if (- 2 ^ 63 <=? z) && (z <? 2 ^ 63) then Ok z else Fault.
Definition SIZE_MAX : Z := 2 ^ 64 - 1.

Create HintDb cint.
Create Rewrite HintDb cint.

Lemma u32_small z : 0 <= z < 2 ^ 32 -> u32 z = z.
Proof. intros; unfold u32; by apply Z.mod_small. Qed.
Lemma u64_small z : 0 <= z < 2 ^ 64 -> u64 z = z.
Proof. intros; unfold u64; by apply Z.mod_small. Qed.
Lemma u16_small z : 0 <= z < 2 ^ 16 -> u16 z = z.
Proof. intros; unfold u16; by apply Z.mod_small. Qed.
Lemma u8_small z : 0 <= z < 2 ^ 8 -> u8 z = z.
Proof. intros; unfold u8; by apply Z.mod_small. Qed.
Lemma s32_small z : - 2 ^ 31 <= z < 2 ^ 31 -> s32 z = z.
Proof. intros; unfold s32; rewrite Z.mod_small; lia. Qed.
Lemma s64_small z : - 2 ^ 63 <= z < 2 ^ 63 -> s64 z = z.
Proof. intros; unfold s64; rewrite Z.mod_small; lia. Qed.
Lemma u32_range z : 0 <= u32 z < 2 ^ 32.
Proof. apply Z.mod_pos_bound; lia. Qed.
Lemma u64_range z : 0 <= u64 z < 2 ^ 64.
Proof. apply Z.mod_pos_bound; lia. Qed.
Lemma u32_sub_borrow z : - 2 ^ 32 <= z < 0 -> u32 z = z + 2 ^ 32.
Proof. intros; unfold u32. rewrite <- (Z_mod_plus_full z 1). apply Z.mod_small; lia. Qed.
Lemma u64_sub_borrow z : - 2 ^ 64 <= z < 0 -> u64 z = z + 2 ^ 64.
Proof. intros; unfold u64. rewrite <- (Z_mod_plus_full z 1). apply Z.mod_small; lia. Qed.
#[export] Hint Rewrite u32_small u64_small u16_small u8_small s32_small
  u32_sub_borrow u64_sub_borrow using lia : cint.
#[export] Hint Resolve u32_range u64_range : cint.

(** [(unsigned)(z - lo) < n] and its size_t form are the range tests C code
    writes with one comparison. *)
Lemma u32_in_range z lo n :
  - 2 ^ 31 <= z - lo < 2 ^ 32 -> 0 <= n <= 2 ^ 31 ->
  u32 (z - lo) < n <-> lo <= z < lo + n.
Proof.
  intros Hz Hn. destruct (decide (z - lo < 0)).
  - rewrite u32_sub_borrow; lia.
  - rewrite u32_small; lia.
Qed.

(** Fields packed with shifts and ors are sums. *)
Lemma land_mul_pow2_low a b k :
  0 <= k -> 0 <= b < 2 ^ k -> Z.land (a * 2 ^ k) b = 0.
Proof.
  intros Hk Hb. apply Z.bits_inj'. intros n Hn.
  rewrite Z.land_spec, Z.bits_0. destruct (decide (n < k)).
  - by rewrite Z.mul_pow2_bits_low by lia.
  - rewrite <- (Z.mod_small b (2 ^ k)) by done.
    rewrite Z.mod_pow2_bits_high by lia. apply andb_false_r.
Qed.

Lemma lor_low_add a b k :
  0 <= k -> 0 <= b < 2 ^ k -> Z.lor (a * 2 ^ k) b = a * 2 ^ k + b.
Proof.
  intros Hk Hb. rewrite Z.add_nocarry_lxor by by apply land_mul_pow2_low.
  symmetry. apply Z.lxor_lor. by apply land_mul_pow2_low.
Qed.

Lemma lor_prefix a b k : 0 <= k -> 0 <= b < 2 ^ k -> a mod 2 ^ k = 0 -> Z.lor a b = a + b.
Proof.
  intros Hk Hb Ha. assert (a = a / 2 ^ k * 2 ^ k) as Heq.
  { pose proof (Z_div_mod_eq_full a (2 ^ k)). lia. }
  rewrite Heq. by apply lor_low_add.
Qed.

(** [x & ~(2^k - 1)] clears the low bits. *)
Lemma land_u64_lnot x k :
  0 <= k -> 0 <= x < 2 ^ 64 -> Z.land x (u64 (Z.lnot (2 ^ k - 1))) = x / 2 ^ k * 2 ^ k.
Proof.
  intros Hk Hx. unfold u64. rewrite <- Z.land_ones by lia.
  rewrite (Z.land_comm (Z.lnot _)), Z.land_assoc, Z.land_ones by lia.
  rewrite Z.mod_small by done.
  replace (2 ^ k - 1) with (Z.ones k) by (rewrite Z.ones_equiv; lia).
  rewrite <- Z.ldiff_land, Z.ldiff_ones_r, Z.shiftl_mul_pow2, Z.shiftr_div_pow2 by done. done.
Qed.

(** ** Equations of the loops *)

Lemma loop_step {S R} f (body : S -> outcome (S + R)) s :
  loop (Datatypes.S f) body s =
    (x ← body s; match x with inl s' => loop f body s' | inr r => Ok r end).
Proof. cbn. destruct (body s) as [[|]| |]; done. Qed.

Lemma while_step {S} f (cond : S -> outcome bool) body s :
  while (Datatypes.S f) cond body s =
    (b ← cond s; if b : bool then s' ← body s; while f cond body s' else Ok s).
Proof.
  unfold while. rewrite loop_step. destruct (cond s) as [[]| |]; try done.
  cbn. by destruct (body s).
Qed.

(** One round that continues, one test that stops. *)
Lemma while_go {S} f (cond : S -> outcome bool) body s s' :
  cond s = Ok true -> body s = Ok s' ->
  while (Datatypes.S f) cond body s = while f cond body s'.
Proof. intros Hc Hb. by rewrite while_step, Hc, bind_ok, Hb, bind_ok. Qed.

Lemma while_stop {S} f (cond : S -> outcome bool) body s :
  cond s = Ok false -> while (Datatypes.S f) cond body s = Ok s.
Proof. intros Hc. by rewrite while_step, Hc. Qed.

(** Fuel that exceeds a length is a successor. *)
Ltac fuel_succ f := destruct f as [|f]; [cbn [length] in *; lia|].

(** Equality of results, component by component. *)
Ltac tuple_eq :=
  repeat match goal with
  | |- Ok _ = Ok _ => apply f_equal
  | |- (_, _) = (_, _) => apply f_equal2
  end; try done; try lia.

(** [lia] with division and remainder by constants. *)
Ltac dlia := Z.to_euclidean_division_equations; lia.

(** Equality of explicit lists of numbers. *)
Ltac list_lia :=
  repeat match goal with |- _ :: _ = _ :: _ => apply f_equal2 end; try done; try dlia.

(** ** Pairwise relations on lists *)

Fixpoint pairwise {A} (R : A -> A -> Prop) (l : list A) : Prop :=
  match l with [] => True | x :: l => Forall (R x) l /\ pairwise R l end.

Lemma pairwise_perm {A} (R : A -> A -> Prop) l l' :
  Symmetric R -> l ≡ₚ l' -> pairwise R l -> pairwise R l'.
Proof.
  intros HR Hp. induction Hp as [|x l l' Hp IH|x y l|]; cbn; try tauto.
  - intros [H1 H2]. split; [by rewrite <- Hp|auto].
  - rewrite !Forall_cons_iff. intros ((H1 & H2) & H3 & H4). repeat split; done || by symmetry.
Qed.

Lemma pairwise_middle {A} (R : A -> A -> Prop) `{!Symmetric R} l1 x l2 :
  pairwise R (l1 ++ x :: l2) <-> Forall (R x) (l1 ++ l2) /\ pairwise R (l1 ++ l2).
Proof.
  change (Forall (R x) (l1 ++ l2) /\ pairwise R (l1 ++ l2)) with (pairwise R (x :: l1 ++ l2)).
  split; (apply pairwise_perm; [done|]); by rewrite Permutation_middle.
Qed.

Lemma pairwise_snoc {A} (R : A -> A -> Prop) `{!Symmetric R} l x :
  pairwise R (l ++ [x]) <-> Forall (R x) l /\ pairwise R l.
Proof. by rewrite pairwise_middle, app_nil_r. Qed.
