(* ===== verification/Memory.v ===== *)
(** The store the C functions read and write: cells of one element type,
    arrays laid out in them, and the zero-terminated strings among those.

    A pointer is the index of the cell it designates, so pointer arithmetic
    is integer arithmetic; [0] is the null pointer. *)
From stdpp Require Import prelude gmap list numbers.
From S2P Require Import Prelude.
Open Scope Z_scope.

Abbreviation mem := (gmap Z Z).

(** [*p] and [*p = v]: an unmapped cell is a fault either way. *)
Definition ld (m : mem) (p : Z) : outcome Z :=
  match m !! p with Some v => Ok v | None => Fault end.
Definition st (m : mem) (p v : Z) : outcome mem :=
  match m !! p with Some _ => Ok (<[p := v]> m) | None => Fault end.

(** The cells from [p] on hold [xs]. *)
Definition array (m : mem) (p : Z) (xs : list Z) : Prop :=
  forall (i : nat) (x : Z), xs !! i = Some x -> m !! (p + Z.of_nat i) = Some x.

(** [n] cells from [p] on may be accessed. *)
Definition mapped (m : mem) (p n : Z) : Prop :=
  forall a, p <= a < p + n -> is_Some (m !! a).

(** The ranges of [n] cells at [p] and [k] cells at [q] share no cell: what
    [restrict] promises. *)
Definition apart (p n q k : Z) : Prop := p + n <= q \/ q + k <= p.

(** The zero-terminated string at [p] is [xs]. *)
Definition zstr (m : mem) (p : Z) (xs : list Z) : Prop :=
  array m p (xs ++ [0]) /\ Forall (fun x => x <> 0) xs.

(** The memory after [xs] is stored from [p] on. *)
Fixpoint write (m : mem) (p : Z) (xs : list Z) : mem :=
  match xs with
  | [] => m
  | x :: xs => write (<[p := x]> m) (p + 1) xs
  end.

Abbreviation zlen xs := (Z.of_nat (length xs)).

Lemma ld_ok m p v : m !! p = Some v -> ld m p = Ok v.
Proof. unfold ld. by intros ->. Qed.
Lemma st_ok m p v : is_Some (m !! p) -> st m p v = Ok (<[p := v]> m).
Proof. unfold st. by intros [? ->]. Qed.

(** ** Arrays *)

Lemma array_nil m p : array m p [].
Proof. by intros i x. Qed.

Lemma array_cons m p x xs :
  array m p (x :: xs) <-> m !! p = Some x /\ array m (p + 1) xs.
Proof.
  split.
  - intros H. split.
    + specialize (H 0%nat x eq_refl). by rewrite Z.add_0_r in H.
    + intros i y Hy. specialize (H (S i) y Hy).
      by replace (p + 1 + Z.of_nat i) with (p + Z.of_nat (S i)) by lia.
  - intros [Hx Hxs] [|i] y Hy; cbn in Hy; simplify_eq.
    + by rewrite Z.add_0_r.
    + replace (p + Z.of_nat (S i)) with (p + 1 + Z.of_nat i) by lia. by apply Hxs.
Qed.

Lemma array_app m p xs ys :
  array m p (xs ++ ys) <-> array m p xs /\ array m (p + zlen xs) ys.
Proof.
  revert p. induction xs as [|x xs IH]; intros p; cbn [app].
  - rewrite Z.add_0_r. split; [by split; [apply array_nil|]|tauto].
  - rewrite !array_cons, IH, length_cons.
    replace (p + Z.of_nat (S (length xs))) with (p + 1 + zlen xs) by lia. tauto.
Qed.

Lemma array_lookup m p xs a x :
  array m p xs -> p <= a -> xs !! Z.to_nat (a - p) = Some x -> m !! a = Some x.
Proof.
  intros H Ha Hx. specialize (H _ _ Hx).
  by replace (p + Z.of_nat (Z.to_nat (a - p))) with a in H by lia.
Qed.

Lemma array_is_some m p xs a :
  array m p xs -> p <= a < p + zlen xs ->
  exists x, xs !! Z.to_nat (a - p) = Some x /\ m !! a = Some x.
Proof.
  intros H Ha. destruct (lookup_lt_is_Some_2 xs (Z.to_nat (a - p))) as [x Hx]; [lia|].
  exists x. split; [done|]. by apply (array_lookup m p xs); [|lia|].
Qed.

Lemma array_mapped m p xs : array m p xs -> mapped m p (zlen xs).
Proof. intros H a Ha. destruct (array_is_some m p xs a H Ha) as (x & _ & ->). done. Qed.

Lemma array_ext m p xs ys :
  length xs = length ys -> array m p xs -> array m p ys -> xs = ys.
Proof.
  intros Hlen Hx Hy. apply list_eq_same_length with (length xs); [done|done|].
  intros i x y Hi Hxi Hyi. specialize (Hx i x Hxi). specialize (Hy i y Hyi). congruence.
Qed.

Lemma mapped_sub m p n q k : mapped m p n -> p <= q -> q + k <= p + n -> mapped m q k.
Proof. intros H Hq Hk a Ha. apply H. lia. Qed.

(** ** Stores *)

Lemma lookup_write m p xs a :
  write m p xs !! a =
    if decide (p <= a < p + zlen xs) then xs !! Z.to_nat (a - p) else m !! a.
Proof.
  revert m p. induction xs as [|x xs IH]; intros m p; cbn [write].
  - rewrite decide_False; [done|]. cbn. lia.
  - rewrite IH, length_cons. destruct (decide (a = p)) as [->|Hne].
    + rewrite decide_False by lia. rewrite lookup_insert_eq.
      rewrite decide_True by lia. by rewrite Z.sub_diag.
    + rewrite lookup_insert_ne by done.
      destruct (decide (p + 1 <= a < p + 1 + zlen xs)).
      * rewrite decide_True by lia.
        by replace (Z.to_nat (a - p)) with (S (Z.to_nat (a - (p + 1)))) by lia.
      * rewrite decide_False by lia. done.
Qed.

Lemma lookup_write_out m p xs a :
  ~ (p <= a < p + zlen xs) -> write m p xs !! a = m !! a.
Proof. intros. rewrite lookup_write. by rewrite decide_False. Qed.

Lemma write_app m p xs ys :
  write m p (xs ++ ys) = write (write m p xs) (p + zlen xs) ys.
Proof.
  revert m p. induction xs as [|x xs IH]; intros m p; cbn [app write].
  - by rewrite Z.add_0_r.
  - rewrite IH, length_cons. f_equal. lia.
Qed.

Lemma write_snoc m p xs x : write m p (xs ++ [x]) = <[p + zlen xs := x]> (write m p xs).
Proof. by rewrite write_app. Qed.

Lemma write_cons m p x xs : write m p (x :: xs) = <[p := x]> (write m (p + 1) xs).
Proof.
  apply map_eq. intros a. destruct (decide (a = p)) as [->|].
  - rewrite lookup_insert_eq, lookup_write, decide_True by (cbn; lia).
    by rewrite Z.sub_diag.
  - rewrite lookup_insert_ne by done. cbn [write].
    rewrite !lookup_write. case_decide; [done|]. by rewrite lookup_insert_ne.
Qed.

Lemma array_write m p xs : array (write m p xs) p xs.
Proof.
  intros i x Hx. rewrite lookup_write, decide_True.
  - by replace (Z.to_nat (p + Z.of_nat i - p)) with i by lia.
  - apply lookup_lt_Some in Hx. lia.
Qed.

Lemma array_write_apart m p xs q ys :
  apart p (zlen xs) q (zlen ys) -> array m q ys -> array (write m p xs) q ys.
Proof.
  intros Hap H i y Hy. rewrite lookup_write_out; [by apply H|].
  apply lookup_lt_Some in Hy. unfold apart in Hap. lia.
Qed.

Lemma mapped_write m p xs q n : mapped m q n -> mapped (write m p xs) q n.
Proof.
  intros H a Ha. rewrite lookup_write. case_decide as Hd; [|by apply H].
  apply lookup_lt_is_Some_2. lia.
Qed.

(** A store of what is already there changes nothing. *)
Lemma write_same m p xs : array m p xs -> write m p xs = m.
Proof.
  intros H. apply map_eq. intros a. rewrite lookup_write. case_decide as Ha; [|done].
  destruct (array_is_some m p xs a H Ha) as (x & -> & ->). done.
Qed.

(** ** Zero-terminated strings *)

Lemma zstr_nil m p : zstr m p [] <-> m !! p = Some 0.
Proof.
  unfold zstr. cbn [app]. rewrite array_cons. split; [tauto|].
  split; [split; [done|apply array_nil]|constructor].
Qed.

Lemma zstr_cons m p x xs :
  zstr m p (x :: xs) <-> m !! p = Some x /\ x <> 0 /\ zstr m (p + 1) xs.
Proof. unfold zstr. cbn [app]. rewrite array_cons, Forall_cons_iff. tauto. Qed.

Lemma zstr_array m p xs : zstr m p xs -> array m p xs.
Proof. intros [H _]. by apply array_app in H as [? _]. Qed.

Lemma zstr_end m p xs : zstr m p xs -> m !! (p + zlen xs) = Some 0.
Proof. intros [H _]. apply array_app in H as [_ H]. by apply array_cons in H as [? _]. Qed.

(** The suffix of a string is a string. *)
Lemma zstr_drop m p xs i :
  (i <= length xs)%nat -> zstr m p xs -> zstr m (p + Z.of_nat i) (drop i xs).
Proof.
  revert p i. induction xs as [|x xs IH]; intros p [|i] Hi H; cbn in Hi |- *; try lia.
  - by rewrite Z.add_0_r.
  - by rewrite Z.add_0_r.
  - apply zstr_cons in H as (_ & _ & H).
    replace (p + Z.of_nat (S i)) with (p + 1 + Z.of_nat i) by lia. apply IH; [lia|done].
Qed.

(** The cell [i] places into a string holds its [i]-th character, or the
    terminator. *)
Lemma zstr_cell m p xs i :
  (i <= length xs)%nat -> zstr m p xs ->
  m !! (p + Z.of_nat i) = Some (nth i xs 0).
Proof.
  revert p i. induction xs as [|x xs IH]; intros p [|i] Hi H; cbn in Hi; try lia.
  - rewrite Z.add_0_r. by apply zstr_nil in H.
  - apply zstr_cons in H as (H & _). by rewrite Z.add_0_r.
  - apply zstr_cons in H as (_ & _ & H).
    replace (p + Z.of_nat (S i)) with (p + 1 + Z.of_nat i) by lia.
    cbn. apply IH; [lia|done].
Qed.

Lemma zstr_nonzero m p xs i : zstr m p xs -> (i < length xs)%nat -> nth i xs 0 <> 0.
Proof.
  intros [_ H] Hi. destruct (lookup_lt_is_Some_2 xs i Hi) as [x Hx].
  rewrite nth_lookup, Hx. by apply (Forall_lookup_1 _ _ _ _ H Hx).
Qed.

Lemma zstr_unique m p xs ys : zstr m p xs -> zstr m p ys -> xs = ys.
Proof.
  revert p ys. induction xs as [|x xs IH]; intros p [|y ys] Hx Hy; try done.
  - apply zstr_nil in Hx. apply zstr_cons in Hy as (? & ? & _). congruence.
  - apply zstr_nil in Hy. apply zstr_cons in Hx as (? & ? & _). congruence.
  - apply zstr_cons in Hx as (? & ? & Hx). apply zstr_cons in Hy as (? & ? & Hy).
    f_equal; [congruence|by eapply IH].
Qed.

Lemma zstr_write_apart m p ws q xs :
  apart p (zlen ws) q (zlen xs + 1) -> zstr m q xs -> zstr (write m p ws) q xs.
Proof.
  intros Hap [Ha Hn]. split; [|done]. apply array_write_apart; [|done].
  rewrite length_app; cbn. unfold apart in *. lia.
Qed.

(** A store outside the range commutes with it. *)
Lemma write_insert_out m p xs q v :
  ~ (p <= q < p + zlen xs) -> write (<[q := v]> m) p xs = <[q := v]> (write m p xs).
Proof.
  intros Hq. apply map_eq. intros a. rewrite lookup_write.
  destruct (decide (a = q)) as [->|].
  - rewrite decide_False by done. by rewrite !lookup_insert_eq.
  - rewrite !lookup_insert_ne by done. by rewrite lookup_write.
Qed.

Lemma array_insert_out m p xs q v :
  ~ (p <= q < p + zlen xs) -> array m p xs -> array (<[q := v]> m) p xs.
Proof.
  intros Hq H i x Hx. rewrite lookup_insert_ne; [by apply H|].
  apply lookup_lt_Some in Hx. lia.
Qed.

Lemma mapped_insert m q v p n : mapped m p n -> mapped (<[q := v]> m) p n.
Proof. intros H a Ha. rewrite lookup_insert_is_Some'. right. by apply H. Qed.

Lemma mapped_cell m p n : mapped m p n -> 0 < n -> is_Some (m !! p).
Proof. intros H Hn. apply H. lia. Qed.

Lemma zstr_insert_out m p xs q v :
  ~ (p <= q <= p + zlen xs) -> zstr m p xs -> zstr (<[q := v]> m) p xs.
Proof.
  intros Hq [Ha Hn]. split; [|done]. apply array_insert_out; [|done].
  rewrite length_app; cbn. lia.
Qed.

(** ** Deciding layouts of concrete memories *)

Fixpoint array_b (m : mem) (p : Z) (xs : list Z) : bool :=
  match xs with
  | [] => true
  | x :: xs => bool_decide (m !! p = Some x) && array_b m (p + 1) xs
  end.
Definition zstr_b (m : mem) (p : Z) (xs : list Z) : bool :=
  array_b m p (xs ++ [0]) && forallb (fun x => negb (x =? 0)) xs.
Definition mapped_b (m : mem) (p n : Z) : bool :=
  forallb (fun i => bool_decide (is_Some (m !! (p + Z.of_nat i)))) (seq 0 (Z.to_nat n)).

Lemma array_check m p xs : array_b m p xs = true -> array m p xs.
Proof.
  revert p. induction xs as [|x xs IH]; intros p; [intros _; apply array_nil|]. cbn.
  intros [H1%bool_decide_eq_true H2]%andb_true_iff. apply array_cons. auto.
Qed.

Lemma zstr_check m p xs : zstr_b m p xs = true -> zstr m p xs.
Proof.
  intros [H1 H2]%andb_true_iff. split; [by apply array_check|].
  apply Forall_forall. rewrite forallb_forall in H2. intros x Hx.
  specialize (H2 x Hx). by destruct (Z.eqb_spec x 0).
Qed.

Lemma mapped_check m p n : mapped_b m p n = true -> mapped m p n.
Proof.
  unfold mapped_b. rewrite forallb_forall. intros H a Ha.
  specialize (H (Z.to_nat (a - p))). rewrite in_seq in H.
  replace (p + Z.of_nat (Z.to_nat (a - p))) with a in H by lia.
  apply bool_decide_eq_true in H; [done|lia].
Qed.

(** Discharges the layout hypotheses of a theorem at a concrete memory. *)
Ltac layout :=
  match goal with
  | |- array _ _ _ => apply array_check; vm_compute; reflexivity
  | |- zstr _ _ _ => apply zstr_check; vm_compute; reflexivity
  | |- mapped _ _ _ => apply mapped_check; vm_compute; reflexivity
  | |- _ => unfold apart; cbn; lia
  end.

(** The bytes of a number, least significant first. *)
Fixpoint le_bytes (n : nat) (v : Z) : list Z :=
  match n with O => [] | S n => v mod 256 :: le_bytes n (v / 256) end.

Lemma le_bytes_length n v : length (le_bytes n v) = n.
Proof. revert v. induction n as [|n IH]; intros v; cbn; [done|]. by rewrite IH. Qed.

(** [malloc] returns NULL, or a block of the size asked for and nothing else changed. *)
Definition malloc_ok (malloc : mem -> Z -> mem * Z) : Prop :=
  forall m n, let '(m', p) := malloc m n in
    p <> 0 -> mapped m' p n /\ forall a, ~ (p <= a < p + n) -> m' !! a = m !! a.
