(* ===== verification/WcString.v ===== *)
(** The wide-character string functions of [src/orbis_wchar32.c] (the
    "string" and "locale" parts): each as a Rocq function over the wide-cell
    memory of [Memory], and its effect in terms of the strings in it.

    Cells hold [wchar_t] values, 32-bit signed; a pointer counts cells, so its
    byte address is four times it.  The first argument of every function with
    a loop is fuel for that loop. *)
From stdpp Require Import prelude gmap list numbers.
From S2P Require Import Prelude Memory.
Open Scope Z_scope.
Open Scope c_scope.

Definition NULL : Z := 0.
(** C's value of a comparison [l < r ? -1 : l > r]. *)
Definition cmp3 (l r : Z) : Z := if l <? r then -1 else if r <? l then 1 else 0.
Definition nonzero (x : Z) : bool := negb (x =? 0).

Module WcMem.

Definition wmemchr (fuel : nat) (m : mem) (s c n : Z) : outcome Z :=
  '(n, s) ← while fuel
    (fun '(n, s) => nonzero n &&& (x ← ld m s; Ok (negb (x =? c))))
    (fun '(n, s) => Ok (n - 1, s + 1)) (n, s);
  Ok (if nonzero n then s else NULL).

Definition wmemcmp (fuel : nat) (m : mem) (l r n : Z) : outcome Z :=
  '(n, l, r) ← while fuel
    (fun '(n, l, r) => nonzero n &&& (x ← ld m l; y ← ld m r; Ok (x =? y)))
    (fun '(n, l, r) => Ok (n - 1, l + 1, r + 1)) (n, l, r);
  if nonzero n then (x ← ld m l; y ← ld m r; Ok (cmp3 x y)) else Ok 0.

(** [while (n--) *d++ = *s++;] *)
Definition copy_up (fuel : nat) (m : mem) (d s n : Z) : outcome mem :=
  '(m, _, _, _) ← while fuel
    (fun '(m, d, s, n) => Ok (nonzero n))
    (fun '(m, d, s, n) => x ← ld m s; m ← st m d x; Ok (m, d + 1, s + 1, n - 1))
    (m, d, s, n);
  Ok m.

(** [while (n--) d[n] = s[n];] *)
Definition copy_down (fuel : nat) (m : mem) (d s n : Z) : outcome mem :=
  '(m, _) ← while fuel
    (fun '(m, n) => Ok (nonzero n))
    (fun '(m, n) => let n := n - 1 in x ← ld m (s + n); m ← st m (d + n) x; Ok (m, n))
    (m, n);
  Ok m.

Definition wmemcpy (fuel : nat) (m : mem) (d s n : Z) : outcome (mem * Z) :=
  m ← copy_up fuel m d s n; Ok (m, d).

(** The overlap test compares byte addresses, modulo the width of
    [uintptr_t] and [size_t]. *)
Definition wmemmove (fuel : nat) (m : mem) (d s n : Z) : outcome (mem * Z) :=
  if d =? s then Ok (m, d)
  else if u64 (4 * d - 4 * s) <? u64 (n * 4)
  then m ← copy_down fuel m d s n; Ok (m, d)
  else m ← copy_up fuel m d s n; Ok (m, d).

Definition wmemset (fuel : nat) (m : mem) (d c n : Z) : outcome (mem * Z) :=
  '(m, _, _) ← while fuel
    (fun '(m, d, n) => Ok (nonzero n))
    (fun '(m, d, n) => m ← st m d c; Ok (m, d + 1, n - 1)) (m, d, n);
  Ok (m, d).

End WcMem.
Export WcMem.

Module WcStr.

Definition wcslen (fuel : nat) (m : mem) (s : Z) : outcome Z :=
  let a := s in
  s ← while fuel (fun s => x ← ld m s; Ok (nonzero x)) (fun s => Ok (s + 1)) s;
  Ok (s - a).

Definition wcsnlen (fuel : nat) (m : mem) (s n : Z) : outcome Z :=
  z ← wmemchr fuel m s 0 n;
  Ok (if nonzero z then z - s else n).

(** [while ( ( *d++ = *s++ ) );] *)
Definition wcscpy (fuel : nat) (m : mem) (d s : Z) : outcome (mem * Z) :=
  m ← loop fuel (fun '(m, d, s) =>
        x ← ld m s; m ← st m d x;
        Ok (if nonzero x then inl (m, d + 1, s + 1) else inr m)) (m, d, s);
  Ok (m, d).

(** [while (n && *s) n--, *d++ = *s++;] *)
Definition copy_bounded (fuel : nat) (m : mem) (d s n : Z) : outcome (mem * Z * Z * Z) :=
  while fuel
    (fun '(m, d, s, n) => nonzero n &&& (x ← ld m s; Ok (nonzero x)))
    (fun '(m, d, s, n) => x ← ld m s; m ← st m d x; Ok (m, d + 1, s + 1, n - 1))
    (m, d, s, n).

Definition wcsncpy (fuel : nat) (m : mem) (d s n : Z) : outcome (mem * Z) :=
  let a := d in
  '(m, d, _, n) ← copy_bounded fuel m d s n;
  '(m, _) ← wmemset fuel m d 0 n;
  Ok (m, a).

Definition wcpcpy (fuel : nat) (m : mem) (d s : Z) : outcome (mem * Z) :=
  '(m, r) ← wcscpy fuel m d s; l ← wcslen fuel m s; Ok (m, r + l).

Definition wcpncpy (fuel : nat) (m : mem) (d s n : Z) : outcome (mem * Z) :=
  '(m, r) ← wcsncpy fuel m d s n; l ← wcsnlen fuel m s n; Ok (m, r + l).

Definition wcscat (fuel : nat) (m : mem) (dest src : Z) : outcome (mem * Z) :=
  l ← wcslen fuel m dest;
  '(m, _) ← wcscpy fuel m (dest + l) src;
  Ok (m, dest).

Definition wcsncat (fuel : nat) (m : mem) (d s n : Z) : outcome (mem * Z) :=
  let a := d in
  l ← wcslen fuel m d;
  '(m, d, _, _) ← copy_bounded fuel m (d + l) s n;
  m ← st m d 0;
  Ok (m, a).

Definition wcscmp (fuel : nat) (m : mem) (l r : Z) : outcome Z :=
  '(l, r) ← while fuel
    (fun '(l, r) => x ← ld m l; y ← ld m r; Ok ((x =? y) && nonzero x && nonzero y))
    (fun '(l, r) => Ok (l + 1, r + 1)) (l, r);
  x ← ld m l; y ← ld m r; Ok (cmp3 x y).

Definition wcsncmp (fuel : nat) (m : mem) (l r n : Z) : outcome Z :=
  '(n, l, r) ← while fuel
    (fun '(n, l, r) => nonzero n &&&
       (x ← ld m l; y ← ld m r; Ok ((x =? y) && nonzero x && nonzero y)))
    (fun '(n, l, r) => Ok (n - 1, l + 1, r + 1)) (n, l, r);
  if nonzero n then (x ← ld m l; y ← ld m r; Ok (cmp3 x y)) else Ok 0.

Section fold.
(** [towlower] of [<wctype.h>]: the libc's, on [wint_t] values. *)
Context (towlower : Z -> Z).

Definition wcsncasecmp (fuel : nat) (m : mem) (l r n : Z) : outcome Z :=
  if n =? 0 then Ok 0 else
  '(l, r, _) ← while fuel
    (fun '(l, r, n) => x ← ld m l; nonzero x &&& (y ← ld m r;
       Ok (nonzero y && nonzero n &&
           ((x =? y) || (towlower (u32 x) =? towlower (u32 y))))))
    (fun '(l, r, n) => Ok (l + 1, r + 1, n - 1)) (l, r, n - 1);
  x ← ld m l; y ← ld m r;
  Ok (s32 (towlower (u32 x) - towlower (u32 y))).

Definition wcscasecmp (fuel : nat) (m : mem) (l r : Z) : outcome Z :=
  wcsncasecmp fuel m l r SIZE_MAX.

Definition wcscasecmp_l (fuel : nat) (m : mem) (l r locale : Z) : outcome Z :=
  wcscasecmp fuel m l r.

Definition wcsncasecmp_l (fuel : nat) (m : mem) (l r n locale : Z) : outcome Z :=
  wcsncasecmp fuel m l r n.
End fold.

Definition wcschr (fuel : nat) (m : mem) (s c : Z) : outcome Z :=
  if c =? 0 then (l ← wcslen fuel m s; Ok (s + l)) else
  s ← while fuel (fun s => x ← ld m s; Ok (nonzero x && negb (x =? c)))
        (fun s => Ok (s + 1)) s;
  x ← ld m s;
  Ok (if nonzero x then s else NULL).

Definition wcsrchr (fuel : nat) (m : mem) (s c : Z) : outcome Z :=
  l ← wcslen fuel m s;
  p ← while fuel (fun p => (s <=? p) &&& (x ← ld m p; Ok (negb (x =? c))))
        (fun p => Ok (p - 1)) (s + l);
  Ok (if s <=? p then p else NULL).

Definition wcsspn (fuel : nat) (m : mem) (s c : Z) : outcome Z :=
  let a := s in
  s ← while fuel
    (fun s => x ← ld m s; nonzero x &&& (q ← wcschr fuel m c x; Ok (nonzero q)))
    (fun s => Ok (s + 1)) s;
  Ok (s - a).

Definition wcscspn (fuel : nat) (m : mem) (s c : Z) : outcome Z :=
  c0 ← ld m c;
  if negb (nonzero c0) then wcslen fuel m s else
  c1 ← ld m (c + 1);
  if negb (nonzero c1) then
    (let a := s in
     s ← wcschr fuel m s c0;
     if nonzero s then Ok (s - a) else wcslen fuel m a)
  else
    let a := s in
    s ← while fuel
      (fun s => x ← ld m s; nonzero x &&& (q ← wcschr fuel m c x; Ok (negb (nonzero q))))
      (fun s => Ok (s + 1)) s;
    Ok (s - a).

Definition wcspbrk (fuel : nat) (m : mem) (s b : Z) : outcome Z :=
  k ← wcscspn fuel m s b;
  let s := s + k in
  x ← ld m s;
  Ok (if nonzero x then s else NULL).

(** [*p] is passed in and returned: the result is the memory, the token and
    the new [*p]. *)
Definition wcstok (fuel : nat) (m : mem) (s sep p : Z) : outcome (mem * Z * Z) :=
  let s := if nonzero s then s else p in
  if negb (nonzero s) then Ok (m, NULL, p) else
  k ← wcsspn fuel m s sep;
  let s := s + k in
  x ← ld m s;
  if negb (nonzero x) then Ok (m, NULL, 0) else
  k ← wcscspn fuel m s sep;
  let p := s + k in
  y ← ld m p;
  if nonzero y then (m ← st m p 0; Ok (m, s, p + 1)) else Ok (m, s, 0).

Section alloc.
(** The libc's [malloc], on a size in bytes: the block's address and the
    memory with the block mapped, or [NULL]. *)
Context (malloc : mem -> Z -> mem * Z).

Definition wcsdup (fuel : nat) (m : mem) (s : Z) : outcome (mem * Z) :=
  l ← wcslen fuel m s;
  let '(m, d) := malloc m (u64 ((l + 1) * 4)) in
  if negb (nonzero d) then Ok (m, NULL) else wmemcpy fuel m d s (l + 1).
End alloc.

Definition wcscoll_l_ (fuel : nat) (m : mem) (l r locale : Z) : outcome Z :=
  wcscmp fuel m l r.
Definition wcscoll_l (fuel : nat) (m : mem) (l r locale : Z) : outcome Z :=
  wcscoll_l_ fuel m l r locale.
Definition wcscoll (fuel : nat) (m : mem) (l r : Z) : outcome Z :=
  wcscoll_l_ fuel m l r 0.

(** [__wcsxfrm_l] *)
Definition wcsxfrm_l_ (fuel : nat) (m : mem) (dest src n loc : Z) : outcome (mem * Z) :=
  l ← wcslen fuel m src;
  if l <? n then
    '(m, _) ← wmemcpy fuel m dest src (l + 1); Ok (m, l)
  else if nonzero n then
    '(m, _) ← wmemcpy fuel m dest src (n - 1);
    m ← st m (dest + (n - 1)) 0;
    Ok (m, l)
  else Ok (m, l).
Definition wcsxfrm_l (fuel : nat) (m : mem) (dest src n loc : Z) : outcome (mem * Z) :=
  wcsxfrm_l_ fuel m dest src n loc.
Definition wcsxfrm (fuel : nat) (m : mem) (dest src n : Z) : outcome (mem * Z) :=
  wcsxfrm_l_ fuel m dest src n 0.

End WcStr.
Export WcStr.

(** ** Scanning a string *)

(** How many leading characters satisfy [f]. *)
Fixpoint span_len (f : Z -> bool) (xs : list Z) : nat :=
  match xs with
  | [] => 0
  | x :: xs => if f x then S (span_len f xs) else 0
  end.

Lemma span_len_le f xs : (span_len f xs <= length xs)%nat.
Proof. induction xs; cbn; [lia|]. case_match; lia. Qed.

Lemma span_len_all f xs : Forall (fun x => f x = true) xs -> span_len f xs = length xs.
Proof. induction 1 as [|x xs Hx _ IH]; cbn; [done|by rewrite Hx, IH]. Qed.

Lemma span_len_ext f g xs :
  Forall (fun x => f x = g x) xs -> span_len f xs = span_len g xs.
Proof. induction 1 as [|x xs Hx _ IH]; cbn; [done|by rewrite Hx, IH]. Qed.

Lemma span_len_before f xs i :
  (i < span_len f xs)%nat -> f (nth i xs 0) = true.
Proof.
  revert i. induction xs as [|x xs IH]; cbn; intros i Hi; [lia|].
  destruct (f x) eqn:Hf; [|lia]. destruct i; [done|]. apply IH; lia.
Qed.

Lemma span_len_stop f xs :
  (span_len f xs < length xs)%nat -> f (nth (span_len f xs) xs 0) = false.
Proof.
  induction xs as [|x xs IH]; cbn; [lia|]. destruct (f x) eqn:Hf; [|done].
  intros. apply IH. lia.
Qed.

(** Every forward search of this file is one loop: advance while the character
    under the pointer satisfies the test, which the terminator does not. *)
Lemma scan_string m fuel p xs (f : Z -> bool) cond :
  zstr m p xs -> f 0 = false ->
  (forall i, (i <= length xs)%nat -> cond (p + Z.of_nat i) = Ok (f (nth i xs 0))) ->
  (length xs < fuel)%nat ->
  while fuel cond (fun s => Ok (s + 1)) p = Ok (p + Z.of_nat (span_len f xs)).
Proof.
  revert p fuel. induction xs as [|x xs IH]; intros p fuel Hs Hf0 Hc Hfuel; fuel_succ fuel.
  - rewrite while_stop; [by rewrite Z.add_0_r|].
    specialize (Hc 0%nat (le_n _)). by rewrite Z.add_0_r in Hc; cbn in Hc; rewrite Hc, Hf0.
  - apply zstr_cons in Hs as (Hx & Hnz & Hs). cbn [span_len length] in *.
    pose proof (Hc 0%nat ltac:(lia)) as H0. rewrite Z.add_0_r in H0. cbn in H0.
    destruct (f x) eqn:Hfx.
    + erewrite while_go by eauto. rewrite IH; [f_equal; lia|done|done| |lia].
      intros i Hi. replace (p + 1 + Z.of_nat i) with (p + Z.of_nat (S i)) by lia.
      by rewrite Hc by lia.
    + by rewrite while_stop, Z.add_0_r.
Qed.

(** The test of such a loop, read off the string. *)
Lemma ld_zstr m p xs i :
  zstr m p xs -> (i <= length xs)%nat -> ld m (p + Z.of_nat i) = Ok (nth i xs 0).
Proof. intros. by apply ld_ok, zstr_cell. Qed.

Lemma nonzero_0 : nonzero 0 = false. Proof. done. Qed.
Lemma nonzero_spec x : nonzero x = true <-> x <> 0.
Proof. unfold nonzero. destruct (Z.eqb_spec x 0); naive_solver. Qed.
Lemma nonzero_true x : x <> 0 -> nonzero x = true.
Proof. apply nonzero_spec. Qed.

Lemma zstr_Forall_nonzero m p xs : zstr m p xs -> Forall (fun x => nonzero x = true) xs.
Proof.
  intros [_ H]. eapply Forall_impl; [|exact H]. exact nonzero_true.
Qed.

Lemma wcslen_ok m fuel p xs :
  zstr m p xs -> (length xs < fuel)%nat -> wcslen fuel m p = Ok (zlen xs).
Proof.
  intros Hs Hf. unfold wcslen.
  rewrite (scan_string m fuel p xs nonzero); [|done|done| |done].
  - cbn. rewrite span_len_all by by eapply zstr_Forall_nonzero. f_equal. lia.
  - intros i Hi. by rewrite (ld_zstr _ _ _ _ Hs Hi).
Qed.

Lemma wcschr_scan m fuel p xs c :
  zstr m p xs -> c <> 0 -> (length xs < fuel)%nat ->
  let k := span_len (fun x => negb (x =? c)) xs in
  wcschr fuel m p c = Ok (if decide (k < length xs)%nat then p + Z.of_nat k else NULL).
Proof.
  intros Hs Hc Hf k. unfold wcschr. destruct (Z.eqb_spec c 0) as [|_]; [done|].
  rewrite (scan_string m fuel p xs (fun x => nonzero x && negb (x =? c)));
    [|done|done| |done].
  2: { intros i Hi. by rewrite (ld_zstr _ _ _ _ Hs Hi). }
  rewrite (span_len_ext _ (fun x => negb (x =? c))).
  2: { eapply Forall_impl; [|by eapply zstr_Forall_nonzero].
       intros x Hx. by rewrite Hx. }
  fold k. rewrite bind_ok, (ld_zstr m p xs k Hs) by apply span_len_le.
  rewrite bind_ok. f_equal. case_decide as Hk.
  - by rewrite (nonzero_true _ (zstr_nonzero m p xs k Hs Hk)).
  - by rewrite nth_overflow by lia.
Qed.

(** ** Copies *)

(** Copying upwards is right unless the destination starts inside the source. *)
Lemma copy_up_ok xs : forall m fuel d s,
  array m s xs -> mapped m d (zlen xs) -> d <= s \/ s + zlen xs <= d ->
  (length xs < fuel)%nat ->
  copy_up fuel m d s (zlen xs) = Ok (write m d xs).
Proof.
  unfold copy_up. induction xs as [|x xs IH]; intros m fuel d s Ha Hm Hd Hf; fuel_succ fuel.
  - by rewrite while_stop.
  - apply array_cons in Ha as [Hx Ha]. rewrite length_cons in *.
    erewrite while_go; [|by rewrite nonzero_true by lia|].
    2: { rewrite (ld_ok _ _ _ Hx), bind_ok, st_ok; [by cbn|]. apply (mapped_cell m d _ Hm); lia. }
    replace (Z.of_nat (S (length xs)) - 1) with (zlen xs) by lia. cbn [write].
    apply IH; [|apply mapped_insert, (mapped_sub m d _ _ _ Hm); lia|lia|lia].
    apply array_insert_out; [lia|done].
Qed.

(** Copying downwards is right when the destination lies above the source. *)
Lemma copy_down_ok xs : forall m fuel d s,
  array m s xs -> mapped m d (zlen xs) -> s <= d ->
  (length xs < fuel)%nat ->
  copy_down fuel m d s (zlen xs) = Ok (write m d xs).
Proof.
  unfold copy_down. induction xs as [|x xs IH] using rev_ind; intros m fuel d s Ha Hm Hd Hf.
  - fuel_succ fuel. by rewrite while_stop.
  - rewrite length_app in *. cbn [length] in *. fuel_succ fuel.
    apply array_app in Ha as [Ha Hx]. apply array_cons in Hx as [Hx _].
    erewrite while_go; [|by rewrite nonzero_true by lia|].
    2: { replace (Z.of_nat (length xs + 1) - 1) with (zlen xs) by lia.
         rewrite (ld_ok _ _ _ Hx), bind_ok, st_ok; [by cbn|]. apply Hm; lia. }
    rewrite IH; [|apply array_insert_out; [lia|done]| |lia|lia].
    + by rewrite write_snoc, write_insert_out by lia.
    + apply mapped_insert, (mapped_sub m d _ _ _ Hm); lia.
Qed.

Lemma wmemcpy_ok m fuel d s xs :
  array m s xs -> mapped m d (zlen xs) -> apart d (zlen xs) s (zlen xs) ->
  (length xs < fuel)%nat ->
  wmemcpy fuel m d s (zlen xs) = Ok (write m d xs, d).
Proof.
  intros Ha Hm Hap Hf. unfold wmemcpy. rewrite copy_up_ok; [done|done|done| |done].
  unfold apart in Hap. lia.
Qed.

Lemma wmemset_ok k : forall m fuel d c,
  mapped m d (Z.of_nat k) -> (k < fuel)%nat ->
  wmemset fuel m d c (Z.of_nat k) = Ok (write m d (replicate k c), d).
Proof.
  assert (forall m fuel d c, mapped m d (Z.of_nat k) -> (k < fuel)%nat ->
    while fuel (fun '(m, d, n) => Ok (nonzero n))
      (fun '(m, d, n) => m ← st m d c; Ok (m, d + 1, n - 1)) (m, d, Z.of_nat k)
    = Ok (write m d (replicate k c), d + Z.of_nat k, 0)) as H.
  { induction k as [|k IH]; intros m fuel d c Hm Hf; destruct fuel as [|fuel]; try lia.
    - rewrite while_stop; [|done]. by rewrite Z.add_0_r.
    - erewrite while_go; [|by rewrite nonzero_true by lia|].
      2: { rewrite st_ok; [by cbn|]. apply (mapped_cell m d _ Hm); lia. }
      replace (Z.of_nat (S k) - 1) with (Z.of_nat k) by lia. cbn [replicate write].
      rewrite IH; [|apply mapped_insert, (mapped_sub m d _ _ _ Hm); lia|lia].
      tuple_eq. }
  intros m fuel d c Hm Hf. unfold wmemset. by rewrite H.
Qed.

Lemma wcscpy_ok xs : forall m fuel d s,
  zstr m s xs -> mapped m d (zlen xs + 1) -> apart d (zlen xs + 1) s (zlen xs + 1) ->
  (length xs < fuel)%nat ->
  wcscpy fuel m d s = Ok (write m d (xs ++ [0]), d).
Proof.
  assert (forall xs m fuel d s,
    zstr m s xs -> mapped m d (zlen xs + 1) -> apart d (zlen xs + 1) s (zlen xs + 1) ->
    (length xs < fuel)%nat ->
    loop fuel (fun '(m, d, s) =>
        x ← ld m s; m ← st m d x;
        Ok (if nonzero x then inl (m, d + 1, s + 1) else inr m)) (m, d, s)
    = Ok (write m d (xs ++ [0]))) as H.
  { unfold apart. clear. induction xs as [|x xs IH]; intros m fuel d s Hs Hm Hap Hf; fuel_succ fuel;
      rewrite loop_step.
    - apply zstr_nil in Hs. rewrite (ld_ok _ _ _ Hs), bind_ok, st_ok; [done|]. apply Hm; lia.
    - apply zstr_cons in Hs as (Hx & Hnz & Hs). rewrite length_cons in *.
      rewrite (ld_ok _ _ _ Hx), bind_ok, st_ok by (apply Hm; lia).
      cbn [app write]. rewrite bind_ok, nonzero_true, bind_ok by done. apply IH; [|apply mapped_insert|lia..].
      + apply zstr_insert_out; [lia|done].
      + apply (mapped_sub m d _ _ _ Hm); lia. }
  intros. unfold wcscpy. by erewrite H by eauto.
Qed.

Lemma copy_bounded_ok xs : forall m fuel d s n,
  zstr m s xs -> mapped m d (Z.min (zlen xs) n) -> apart d (Z.min (zlen xs) n) s (zlen xs + 1) ->
  0 <= n -> (length xs < fuel)%nat ->
  let k := Z.min (zlen xs) n in
  copy_bounded fuel m d s n =
    Ok (write m d (take (Z.to_nat n) xs), d + k, s + k, n - k).
Proof.
  unfold copy_bounded, apart. induction xs as [|x xs IH]; intros m fuel d s n Hs Hm Hap Hn Hf;
    fuel_succ fuel.
  - apply zstr_nil in Hs. rewrite while_stop.
    + rewrite take_nil. cbn [write length]. tuple_eq.
    + unfold c_and. rewrite (ld_ok _ _ _ Hs). by destruct (nonzero n).
  - apply zstr_cons in Hs as (Hx & Hnz & Hs). rewrite length_cons in *.
    destruct (decide (n = 0)) as [->|Hn0].
    + rewrite while_stop by done. cbn [take write]. tuple_eq.
    + erewrite while_go.
      2: { rewrite (nonzero_true n) by done. cbn. by rewrite (ld_ok _ _ _ Hx), bind_ok, nonzero_true. }
      2: { rewrite (ld_ok _ _ _ Hx), bind_ok, st_ok; [by cbn|]. apply Hm; lia. }
      rewrite IH; [|apply zstr_insert_out; [lia|done]|apply mapped_insert|lia..].
      * replace (Z.to_nat n) with (S (Z.to_nat (n - 1))) by lia. cbn [take write].
        tuple_eq.
      * apply (mapped_sub m d _ _ _ Hm); lia.
Qed.

(** A block of cells that an address space of [2^64] bytes can hold, and that
    does not start at the null pointer. *)
Definition in_space (p n : Z) : Prop := 0 < p /\ p + n <= 2 ^ 62.

(** ** Comparison *)

(** The order the comparisons decide: lexicographic on characters, a string
    that ends counting as a zero there. *)
Fixpoint wcs_order (xs ys : list Z) : Z :=
  match xs, ys with
  | [], [] => 0
  | [], y :: _ => cmp3 0 y
  | x :: _, [] => cmp3 x 0
  | x :: xs, y :: ys => if x =? y then wcs_order xs ys else cmp3 x y
  end.

Lemma cmp3_sym x y : cmp3 x y = - cmp3 y x.
Proof. unfold cmp3. repeat case_match; lia. Qed.
Lemma cmp3_zero x y : cmp3 x y = 0 <-> x = y.
Proof. unfold cmp3. repeat case_match; lia. Qed.
Lemma cmp3_refl x : cmp3 x x = 0.
Proof. by apply cmp3_zero. Qed.

Lemma wcs_order_sym xs ys : wcs_order xs ys = - wcs_order ys xs.
Proof.
  revert ys. induction xs as [|x xs IH]; intros [|y ys]; cbn; try apply cmp3_sym; [done|].
  rewrite (Z.eqb_sym y x). case_match; [apply IH|apply cmp3_sym].
Qed.

Lemma wcs_order_zero xs ys :
  Forall (fun x => x <> 0) xs -> Forall (fun x => x <> 0) ys ->
  wcs_order xs ys = 0 <-> xs = ys.
Proof.
  intros Hx. revert ys. induction Hx as [|x xs Hnx _ IH]; intros ys Hy;
    destruct Hy as [|y ys Hny Hy]; cbn; rewrite ?cmp3_zero;
    try (split; intros; simplify_eq; congruence).
  destruct (Z.eqb_spec x y) as [->|Hne].
  - rewrite IH by done. split; congruence.
  - rewrite cmp3_zero. split; congruence.
Qed.

Lemma wcscmp_order xs : forall m fuel ys l r,
  zstr m l xs -> zstr m r ys -> (length xs < fuel)%nat ->
  wcscmp fuel m l r = Ok (wcs_order xs ys).
Proof.
  unfold wcscmp. induction xs as [|x xs IH]; intros m fuel ys l r Hl Hr Hf; fuel_succ fuel.
  - apply zstr_nil in Hl. pose proof (zstr_cell _ _ _ 0 ltac:(lia) Hr) as Hy.
    rewrite Z.add_0_r in Hy. rewrite while_stop.
    + rewrite bind_ok, (ld_ok _ _ _ Hl), bind_ok, (ld_ok _ _ _ Hy), bind_ok.
      by destruct ys.
    + rewrite (ld_ok _ _ _ Hl), bind_ok, (ld_ok _ _ _ Hy), bind_ok, nonzero_0.
      by rewrite andb_false_r.
  - apply zstr_cons in Hl as (Hx & Hnx & Hl). destruct ys as [|y ys].
    + apply zstr_nil in Hr. rewrite while_stop.
      * by rewrite bind_ok, (ld_ok _ _ _ Hx), bind_ok, (ld_ok _ _ _ Hr).
      * rewrite (ld_ok _ _ _ Hx), bind_ok, (ld_ok _ _ _ Hr), bind_ok, nonzero_0.
        by rewrite andb_false_r.
    + apply zstr_cons in Hr as (Hy & Hny & Hr). cbn [wcs_order].
      destruct (Z.eqb_spec x y) as [->|Hne].
      * erewrite while_go; [|by rewrite (ld_ok _ _ _ Hx), bind_ok, (ld_ok _ _ _ Hy),
          bind_ok, Z.eqb_refl, nonzero_true|done].
        apply IH; [done|done|cbn in Hf; lia].
      * rewrite while_stop.
        -- by rewrite bind_ok, (ld_ok _ _ _ Hx), bind_ok, (ld_ok _ _ _ Hy), bind_ok.
        -- rewrite (ld_ok _ _ _ Hx), bind_ok, (ld_ok _ _ _ Hy), bind_ok.
           by rewrite (proj2 (Z.eqb_neq _ _) Hne).
Qed.

(** ** Sets of characters *)

Definition in_set (cs : list Z) (x : Z) : bool := bool_decide (x ∈ cs).

Lemma span_len_not_eq (c : Z) (xs : list Z) :
  (span_len (fun x : Z => negb (x =? c)%Z) xs < length xs)%nat <-> c ∈ xs.
Proof.
  induction xs as [|x xs IH]; cbn.
  - split; [lia|by intros ?%not_elem_of_nil].
  - rewrite elem_of_cons, <- IH. destruct (Z.eqb_spec x c) as [->|]; cbn.
    + split; [by left|lia].
    + split; [intros; right; lia|]. intros [->|?]; [done|lia].
Qed.

(** [wcschr] on a set answers membership. *)
Lemma wcschr_member m fuel p cs x :
  zstr m p cs -> 0 < p -> x <> 0 -> (length cs < fuel)%nat ->
  exists q, wcschr fuel m p x = Ok q /\ nonzero q = in_set cs x.
Proof.
  intros Hs Hp Hx Hf. rewrite (wcschr_scan m fuel p cs x Hs Hx Hf).
  eexists; split; [done|]. unfold in_set. case_decide as Hk.
  - rewrite nonzero_true by lia. symmetry. by apply bool_decide_eq_true, span_len_not_eq.
  - symmetry. apply bool_decide_eq_false. by rewrite <- span_len_not_eq.
Qed.

(** The scanning test of [wcsspn] ([b = true]) and of the general case of
    [wcscspn] ([b = false]). *)
Lemma set_scan m fuel s c xs cs (b : bool) :
  zstr m s xs -> zstr m c cs -> 0 < c ->
  (length xs < fuel)%nat -> (length cs < fuel)%nat ->
  while fuel
    (fun s => x ← ld m s; nonzero x &&&
       (q ← wcschr fuel m c x; Ok (if b then nonzero q else negb (nonzero q))))
    (fun s => Ok (s + 1)) s
  = Ok (s + Z.of_nat (span_len (fun x => Bool.eqb b (in_set cs x)) xs)).
Proof.
  intros Hs Hc Hc0 Hf Hfc.
  rewrite (scan_string m fuel s xs
    (fun x => nonzero x && (if b then in_set cs x else negb (in_set cs x)))); try done.
  - rewrite (span_len_ext _ (fun x => Bool.eqb b (in_set cs x))); [done|].
    eapply Forall_impl; [|by eapply zstr_Forall_nonzero].
    intros x ->. by destruct b, (in_set cs x).
  - intros i Hi. rewrite (ld_zstr _ _ _ _ Hs Hi), bind_ok.
    unfold c_and. destruct (nonzero (nth i xs 0)) eqn:Hx; [|done].
    apply nonzero_spec in Hx.
    destruct (wcschr_member m fuel c cs _ Hc Hc0 Hx Hfc) as (q & -> & Hq).
    rewrite bind_ok, Hq. done.
Qed.

Lemma wcsspn_ok m fuel s c xs cs :
  zstr m s xs -> zstr m c cs -> 0 < c ->
  (length xs < fuel)%nat -> (length cs < fuel)%nat ->
  wcsspn fuel m s c = Ok (Z.of_nat (span_len (in_set cs) xs)).
Proof.
  intros Hs Hc Hc0 Hf Hfc. unfold wcsspn.
  rewrite (set_scan m fuel s c xs cs true Hs Hc Hc0 Hf Hfc), bind_ok.
  rewrite (span_len_ext _ (in_set cs)); [f_equal; lia|].
  apply Forall_forall. intros x _. by destruct (in_set cs x).
Qed.

Lemma wcscspn_ok m fuel s c xs cs :
  zstr m s xs -> zstr m c cs -> 0 < s -> 0 < c ->
  (length xs < fuel)%nat -> (length cs < fuel)%nat ->
  wcscspn fuel m s c = Ok (Z.of_nat (span_len (fun x => negb (in_set cs x)) xs)).
Proof.
  intros Hs Hc Hs0 Hc0 Hf Hfc. unfold wcscspn.
  destruct cs as [|c0 [|c1 cs]].
  - rewrite (ld_ok m c 0) by by apply zstr_nil in Hc. cbn [negb nonzero Z.eqb].
    rewrite bind_ok. cbn [negb nonzero Z.eqb]. rewrite (wcslen_ok m fuel s xs Hs Hf).
    rewrite span_len_all; [done|]. apply Forall_forall. intros x _.
    unfold in_set. by rewrite bool_decide_eq_false_2 by apply not_elem_of_nil.
  - apply zstr_cons in Hc as (H0 & Hn0 & H1). apply zstr_nil in H1.
    rewrite (ld_ok _ _ _ H0), bind_ok, (nonzero_true _ Hn0). cbn [negb].
    rewrite (ld_ok _ _ _ H1), bind_ok. cbn [negb nonzero Z.eqb].
    rewrite (wcschr_scan m fuel s xs c0 Hs Hn0 Hf), bind_ok.
    rewrite (span_len_ext _ (fun x => negb (in_set [c0] x))).
    2: { apply Forall_forall. intros x _. unfold in_set. f_equal.
         destruct (Z.eqb_spec x c0); [rewrite bool_decide_eq_true_2|rewrite bool_decide_eq_false_2];
           rewrite ?elem_of_list_singleton, ?list_elem_of_singleton; done. }
    case_decide as Hk.
    + rewrite nonzero_true by lia. f_equal. lia.
    + cbn [nonzero Z.eqb NULL negb]. rewrite (wcslen_ok m fuel s xs Hs Hf). f_equal.
      pose proof (span_len_le (fun x => negb (in_set [c0] x)) xs). lia.
  - pose proof Hc as Hc'. apply zstr_cons in Hc as (H0 & Hn0 & H1).
    apply zstr_cons in H1 as (H1 & Hn1 & _).
    rewrite (ld_ok _ _ _ H0), bind_ok, (nonzero_true _ Hn0). cbn [negb].
    rewrite (ld_ok _ _ _ H1), bind_ok, (nonzero_true _ Hn1). cbn [negb].
    rewrite (set_scan m fuel s c xs _ false Hs Hc' Hc0 Hf Hfc), bind_ok.
    f_equal. rewrite (span_len_ext _ (fun x => negb (in_set (c0 :: c1 :: cs) x))); [lia|].
    apply Forall_forall. intros x _. by destruct (in_set (c0 :: c1 :: cs) x).
Qed.

(** ** Bounded search, last occurrence, tokens *)

Lemma wmemchr_ok m c xs : forall fuel s,
  array m s xs -> (length xs < fuel)%nat ->
  let k := span_len (fun x => negb (x =? c)) xs in
  wmemchr fuel m s c (zlen xs) =
    Ok (if decide (k < length xs)%nat then s + Z.of_nat k else NULL).
Proof.
  intros fuel s Ha Hf k.
  assert (while fuel
    (fun '(n, s) => nonzero n &&& (x ← ld m s; Ok (negb (x =? c))))
    (fun '(n, s) => Ok (n - 1, s + 1)) (zlen xs, s) = Ok (zlen xs - Z.of_nat k, s + Z.of_nat k))
    as H.
  { subst k. revert fuel s Ha Hf.
    induction xs as [|x xs IH]; intros fuel s Ha Hf; fuel_succ fuel.
    - rewrite while_stop by done. cbn [span_len length]. tuple_eq.
    - apply array_cons in Ha as [Hx Ha]. cbn [span_len length] in *.
      destruct (Z.eqb_spec x c) as [->|Hne]; cbn [negb].
      + rewrite while_stop; [tuple_eq|]. rewrite nonzero_true by lia. cbn.
        by rewrite (ld_ok _ _ _ Hx), bind_ok, Z.eqb_refl.
      + erewrite while_go; [| |done].
        2: { rewrite nonzero_true by lia. cbn.
             by rewrite (ld_ok _ _ _ Hx), bind_ok, (proj2 (Z.eqb_neq _ _) Hne). }
        replace (Z.of_nat (S (length xs)) - 1) with (zlen xs) by lia.
        rewrite IH; [tuple_eq|done|lia]. }
  unfold wmemchr. rewrite H, bind_ok. f_equal.
  pose proof (span_len_le (fun x => negb (x =? c)) xs). fold k in H0.
  case_decide.
  - by rewrite nonzero_true by lia.
  - by replace (zlen xs - Z.of_nat k) with 0 by lia.
Qed.

(** What "the last cell of a string, terminator included, that holds [c]"
    means. *)
Definition last_at (xs : list Z) (c : Z) (k : nat) : Prop :=
  (k <= length xs)%nat /\ nth k xs 0 = c /\
  forall j, (k < j <= length xs)%nat -> nth j xs 0 <> c.

Lemma wcsrchr_ok m fuel s xs c :
  zstr m s xs -> 0 < s -> (length xs + 1 < fuel)%nat ->
  exists r, wcsrchr fuel m s c = Ok r /\
    ((exists k, last_at xs c k /\ r = s + Z.of_nat k) \/
     (r = NULL /\ c ∉ xs ++ [0])).
Proof.
  intros Hs Hs0 Hf. unfold wcsrchr. rewrite (wcslen_ok m fuel s xs Hs) by lia. rewrite bind_ok.
  assert (runs (while fuel (fun p => (s <=? p) &&& (x ← ld m p; Ok (negb (x =? c))))
        (fun p => Ok (p - 1)) (s + zlen xs))
    (fun p => (exists k, last_at xs c k /\ p = s + Z.of_nat k) \/
       (p = s - 1 /\ forall j, (j <= length xs)%nat -> nth j xs 0 <> c))) as H.
  { apply (while_total (fun p => s - 1 <= p <= s + zlen xs /\
        forall j, (p - s < Z.of_nat j)%Z -> (j <= length xs)%nat -> nth j xs 0 <> c)
      (fun p => Z.to_nat (p - s + 1))); [|split; [lia|intros; lia]|lia].
    intros p [Hp Hafter]. destruct (Z.leb_spec s p) as [Hle|Hgt]; cbn.
    - pose proof (ld_zstr m s xs (Z.to_nat (p - s)) Hs ltac:(lia)) as Hld.
      replace (s + Z.of_nat (Z.to_nat (p - s))) with p in Hld by lia.
      rewrite Hld, bind_ok. cbn. destruct (Z.eqb_spec (nth (Z.to_nat (p - s)) xs 0) c) as [He|Hne].
      + left. exists (Z.to_nat (p - s)). repeat split; [lia|done| |lia].
        intros j Hj. apply Hafter; lia.
      + cbn. split; [split; [lia|]|lia]. intros j Hj Hjl.
        destruct (decide (j = Z.to_nat (p - s))) as [->|]; [done|]. apply Hafter; lia.
    - right. split; [lia|]. intros j Hj. apply Hafter; lia. }
  apply runs_elim in H as (p & -> & Hp). rewrite bind_ok. eexists; split; [done|].
  destruct Hp as [(k & Hk & ->)|[-> Hno]].
  - left. exists k. split; [done|]. by rewrite (proj2 (Z.leb_le _ _)) by lia.
  - right. rewrite (proj2 (Z.leb_gt _ _)) by lia. split; [done|].
    intros (i & Hi)%list_elem_of_lookup. destruct (decide (i < length xs)%nat).
    + rewrite lookup_app_l in Hi by done. apply (Hno i); [lia|]. by apply nth_lookup_Some.
    + rewrite lookup_app_r in Hi by lia. apply (Hno (length xs)); [lia|].
      rewrite nth_overflow by lia. by destruct (i - length xs)%nat as [|[]]; cbn in Hi; simplify_eq.
Qed.

(** The string from the first character that is not a separator, its leading
    token and what follows it. *)
Definition skip_seps (cs xs : list Z) : list Z := drop (span_len (in_set cs) xs) xs.
Definition token (cs xs : list Z) : list Z :=
  take (span_len (fun x => negb (in_set cs x)) xs) xs.
Definition after_token (cs xs : list Z) : list Z :=
  drop (span_len (fun x => negb (in_set cs x)) xs) xs.

(** Storing a terminator inside a string cuts it there. *)
Lemma zstr_cut m p xs k :
  zstr m p xs -> (k < length xs)%nat ->
  zstr (<[p + Z.of_nat k := 0]> m) p (take k xs).
Proof.
  intros Hs Hk. assert (zlen (take k xs) = Z.of_nat k) as Htk by (rewrite length_take; lia).
  split; [|by apply Forall_take; destruct Hs].
  apply array_app. rewrite Htk. split.
  - apply array_insert_out; [lia|]. apply zstr_array in Hs.
    rewrite <- (take_drop k xs) in Hs. by apply array_app in Hs as [? _].
  - apply array_cons. split; [by rewrite lookup_insert_eq|apply array_nil].
Qed.

(** [wcstok] skips the separators, returns the maximal run of characters
    that are none, cuts the string there by overwriting one separator with a
    terminator, and leaves the caller's pointer behind it, or null at the end
    of the string; with nothing left it returns null and stores nothing.  A
    null first argument continues from the saved pointer. *)
Theorem wcstok_correct m fuel s0 sep p0 xs cs :
  let s := if nonzero s0 then s0 else p0 in
  zstr m s xs -> zstr m sep cs -> 0 < s -> 0 < sep ->
  apart s (zlen xs + 1) sep (zlen cs + 1) ->
  (length xs < fuel)%nat -> (length cs < fuel)%nat ->
  exists m' t p,
    wcstok fuel m s0 sep p0 = Ok (m', t, p) /\ zstr m' sep cs /\
    match skip_seps cs xs, after_token cs (skip_seps cs xs) with
    | [], _ => m' = m /\ t = NULL /\ p = 0
    | ys, [] => m' = m /\ t = s + (zlen xs - zlen ys) /\ p = 0 /\ zstr m' t ys
    | ys, _ :: rest =>
        t = s + (zlen xs - zlen ys) /\ zstr m' t (token cs ys) /\
        p = t + zlen (token cs ys) + 1 /\ zstr m' p rest
    end.
Proof.
  intros s Hs Hc Hs0 Hc0 Hap Hf Hfc. unfold wcstok. fold s. unfold apart in Hap.
  rewrite (nonzero_true s) by lia. cbn [negb].
  rewrite (wcsspn_ok m fuel s sep xs cs Hs Hc Hc0 Hf Hfc), bind_ok.
  set (i := span_len (in_set cs) xs). pose proof (span_len_le (in_set cs) xs) as Hi. fold i in Hi.
  pose proof (zstr_drop m s xs i Hi Hs) as Hys.
  assert (Z.of_nat i = zlen xs - zlen (drop i xs)) as Hoff by (rewrite length_drop; lia).
  unfold skip_seps. fold i. destruct (drop i xs) as [|y ys] eqn:Hd.
  { apply zstr_nil in Hys. rewrite (ld_ok _ _ _ Hys), bind_ok.
    cbn [negb nonzero Z.eqb]. by exists m, NULL, 0. }
  pose proof Hys as (Hy & Hny & _)%zstr_cons.
  rewrite (ld_ok _ _ _ Hy), bind_ok, (nonzero_true y Hny). cbn [negb].
  assert (length (y :: ys) <= length xs)%nat as Hlen by (rewrite <- Hd, length_drop; lia).
  rewrite (wcscspn_ok m fuel _ sep (y :: ys) cs Hys Hc) by (done || lia). rewrite bind_ok.
  set (k := span_len _ (y :: ys)). pose proof (span_len_le (fun x => negb (in_set cs x)) (y :: ys)) as Hk.
  fold k in Hk. unfold after_token, token. fold k.
  pose proof (zstr_drop _ _ _ k Hk Hys) as Hrest.
  rewrite (ld_zstr _ _ _ k Hys Hk), bind_ok.
  destruct (drop k (y :: ys)) as [|z rest] eqn:Hdk.
  - assert (length (y :: ys) <= k)%nat by (apply (f_equal length) in Hdk; rewrite length_drop in Hdk; cbn in *; lia).
    rewrite nth_overflow by done. cbn [nonzero Z.eqb negb].
    exists m, (s + Z.of_nat i), 0. rewrite Hoff in *. done.
  - assert (k < length (y :: ys))%nat as Hklt.
    { apply (f_equal length) in Hdk. rewrite length_drop in Hdk. cbn in *. lia. }
    rewrite (nonzero_true _ (zstr_nonzero _ _ _ k Hys Hklt)).
    apply zstr_cons in Hrest as (Hz & _ & Hrest).
    rewrite st_ok, bind_ok by by rewrite Hz.
    exists (<[s + Z.of_nat i + Z.of_nat k := 0]> m), (s + Z.of_nat i), (s + Z.of_nat i + Z.of_nat k + 1).
    assert (zlen (take k (y :: ys)) = Z.of_nat k) as Htk by (rewrite length_take; lia).
    pose proof (zstr_cut _ _ _ k Hys Hklt) as Htok.
    split; [done|]. split; [apply zstr_insert_out; [lia|done]|].
    rewrite Htk. repeat split; try lia.
    all: try apply Htok; try (apply zstr_insert_out; [lia|done]). apply Hrest.
Qed.

Lemma wcstok_witness :
  let m := write (write ∅ 10 [44; 65; 66; 44; 44; 67; 0]) 20 [44; 0] in
  exists m' t p,
    wcstok 9 m 10 20 0 = Ok (m', t, p) /\ zstr m' 20 [44] /\
    t = 11 /\ zstr m' t [65; 66] /\ p = t + 2 + 1 /\ zstr m' p [44; 67].
Proof.
  apply (wcstok_correct (write (write ∅ 10 [44; 65; 66; 44; 44; 67; 0]) 20 [44; 0])
    9 10 20 0 [44; 65; 66; 44; 44; 67] [44]); layout.
Defined.


(** [wcsxfrm] returns the length of the source; it stores the whole string
    when that fits in [n] cells with the terminator, else its first [n-1]
    characters, terminated, and nothing when [n] is zero. *)
Theorem wcsxfrm_correct m fuel d s n xs :
  zstr m s xs -> 0 <= n -> mapped m d n -> apart d n s (zlen xs + 1) ->
  (length xs + 1 < fuel)%nat ->
  wcsxfrm fuel m d s n =
    Ok (if n =? 0 then m
        else if zlen xs <? n then write m d (xs ++ [0])
        else write m d (take (Z.to_nat (n - 1)) xs ++ [0]), zlen xs).
Proof.
  intros Hs Hn Hm Hap Hf. unfold wcsxfrm, wcsxfrm_l_. unfold apart in Hap.
  rewrite (wcslen_ok m fuel s xs Hs) by lia. rewrite bind_ok.
  destruct (Z.ltb_spec (zlen xs) n).
  - rewrite (proj2 (Z.eqb_neq _ _)) by lia. destruct Hs as [Ha _].
    replace (zlen xs + 1) with (zlen (xs ++ [0])) by (rewrite length_app; cbn; lia).
    rewrite wmemcpy_ok; [done|done| | |rewrite length_app; cbn; lia].
    + apply (mapped_sub m d _ _ _ Hm); rewrite ?length_app; cbn; lia.
    + unfold apart. rewrite length_app; cbn; lia.
  - destruct (Z.eqb_spec n 0) as [->|Hn0]; [done|]. rewrite nonzero_true by done.
    assert (zlen (take (Z.to_nat (n - 1)) xs) = n - 1) as Hlen by (rewrite length_take; lia).
    rewrite <- Hlen at 1. rewrite wmemcpy_ok.
    + rewrite bind_ok, st_ok, bind_ok by (apply (mapped_write _ _ _ d n Hm); lia).
      by rewrite write_snoc, Hlen.
    + apply zstr_array in Hs. rewrite <- (take_drop (Z.to_nat (n - 1)) xs) in Hs.
      by apply array_app in Hs as [? _].
    + apply (mapped_sub m d _ _ _ Hm); lia.
    + unfold apart. lia.
    + rewrite length_take. lia.
Qed.

(** ** Properties *)

(** A memory for the concrete instances below: the strings "ABAC" at 10, "BA"
    at 20, eight free cells at 30. *)
Definition demo_mem : mem :=
  write (write (write ∅ 10 [65; 66; 65; 67; 0]) 20 [66; 65; 0]) 30 (replicate 8 7).

(** [wmemmove] stores the [n] characters the source held before the call at
    the destination, whichever way the two ranges overlap, touches no other
    cell, and returns the destination. *)
Theorem wmemmove_correct m fuel d s xs :
  array m s xs -> mapped m d (zlen xs) ->
  in_space d (zlen xs) -> in_space s (zlen xs) -> (length xs < fuel)%nat ->
  wmemmove fuel m d s (zlen xs) = Ok (write m d xs, d).
Proof.
  intros Ha Hm [Hd0 Hd] [Hs0 Hs] Hf. unfold wmemmove.
  destruct (Z.eqb_spec d s) as [->|Hne]; [by rewrite write_same|].
  rewrite (u64_small (zlen xs * 4)) by lia.
  destruct (decide (d < s)).
  - rewrite u64_sub_borrow by lia. rewrite (proj2 (Z.ltb_ge _ _)) by lia.
    rewrite copy_up_ok; [done|done|done|lia|done].
  - rewrite u64_small by lia. destruct (Z.ltb_spec (4 * d - 4 * s) (zlen xs * 4)).
    + rewrite copy_down_ok; [done|done|done|lia|done].
    + rewrite copy_up_ok; [done|done|done|lia|done].
Qed.

Lemma wmemmove_witness :
  wmemmove 9 demo_mem 11 10 3 = Ok (write demo_mem 11 [65; 66; 65], 11).
Proof.
  apply (wmemmove_correct demo_mem 9 11 10 [65; 66; 65]);
    first [layout | unfold in_space; cbn; lia].
Defined.

(** [wcsncpy] stores the first [n] characters of the source and pads with
    zeros to exactly [n] cells, so the result is unterminated when the source
    is at least [n] long. *)
Theorem wcsncpy_correct m fuel d s n xs :
  zstr m s xs -> 0 <= n -> mapped m d n -> apart d n s (zlen xs + 1) ->
  (length xs < fuel)%nat -> (Z.to_nat n < fuel)%nat ->
  wcsncpy fuel m d s n =
    Ok (write m d (take (Z.to_nat n) xs ++
                   replicate (Z.to_nat n - length xs) 0), d).
Proof.
  intros Hs Hn Hm Hap Hf Hf'. unfold wcsncpy.
  rewrite copy_bounded_ok with (xs := xs); [|done| |unfold apart in *; lia|done|done].
  2: { apply (mapped_sub m d _ _ _ Hm); lia. }
  rewrite bind_ok. replace (n - zlen xs `min` n) with (Z.of_nat (Z.to_nat n - length xs)) by lia.
  rewrite wmemset_ok; [|apply mapped_write, (mapped_sub m d _ _ _ Hm); lia|lia].
  rewrite bind_ok, write_app, length_take. tuple_eq. f_equal. lia.
Qed.

Lemma wcsncpy_witness :
  wcsncpy 9 demo_mem 30 20 4 = Ok (write demo_mem 30 [66; 65; 0; 0], 30).
Proof. apply (wcsncpy_correct demo_mem 9 30 20 4 [66; 65]); layout. Defined.

(** [wcscat] appends: the destination string becomes the concatenation,
    terminated, and nothing outside the appended cells changes. *)
Theorem wcscat_correct m fuel d s xs ys :
  zstr m d xs -> zstr m s ys ->
  mapped m (d + zlen xs) (zlen ys + 1) -> apart d (zlen xs + zlen ys + 1) s (zlen ys + 1) ->
  (length xs < fuel)%nat -> (length ys < fuel)%nat ->
  let m' := write m (d + zlen xs) (ys ++ [0]) in
  wcscat fuel m d s = Ok (m', d) /\ zstr m' d (xs ++ ys).
Proof.
  intros Hd Hs Hm Hap Hfx Hfy m'. unfold apart in Hap. split.
  - unfold wcscat. rewrite (wcslen_ok _ _ _ _ Hd Hfx), bind_ok.
    rewrite (wcscpy_ok ys); [done|done|done| |done]. unfold apart. lia.
  - destruct Hd as [Ha Hnx], Hs as [_ Hny]. apply array_app in Ha as [Ha _].
    split; [|by apply Forall_app]. rewrite <- app_assoc. apply array_app. split.
    + apply array_write_apart; [|done]. unfold apart. lia.
    + apply array_write.
Qed.

Lemma wcscat_witness :
  let m := write demo_mem 30 [90; 0] in
  let m' := write m 31 [66; 65; 0] in
  wcscat 9 m 30 20 = Ok (m', 30) /\ zstr m' 30 [90; 66; 65].
Proof.
  apply (wcscat_correct (write demo_mem 30 [90; 0]) 9 30 20 [90] [66; 65]); layout.
Defined.

(** [wcscmp] decides the lexicographic order of two strings: it returns
    the sign of the first difference, so swapping the arguments negates it,
    and it is zero exactly for equal strings. *)
Theorem wcscmp_correct m fuel l r xs ys :
  zstr m l xs -> zstr m r ys -> (length xs < fuel)%nat -> (length ys < fuel)%nat ->
  wcscmp fuel m l r = Ok (wcs_order xs ys) /\
  wcscmp fuel m r l = Ok (- wcs_order xs ys) /\
  (wcscmp fuel m l r = Ok 0 <-> xs = ys).
Proof.
  intros Hl Hr Hfx Hfy. rewrite (wcscmp_order xs m fuel ys l r Hl Hr Hfx).
  rewrite (wcscmp_order ys m fuel xs r l Hr Hl Hfy). rewrite (wcs_order_sym ys xs).
  destruct Hl as [_ Hnx], Hr as [_ Hny]. rewrite <- (wcs_order_zero xs ys Hnx Hny).
  split; [done|]. split; [done|]. split; congruence.
Qed.

Lemma wcscmp_witness :
  wcscmp 9 demo_mem 10 20 = Ok (-1) /\ wcscmp 9 demo_mem 20 10 = Ok 1 /\
  (wcscmp 9 demo_mem 10 20 = Ok 0 <-> [65; 66; 65; 67] = [66; 65]).
Proof. apply (wcscmp_correct demo_mem 9 10 20 [65; 66; 65; 67] [66; 65]); layout. Defined.

(** [wcscspn] counts the leading characters outside the set and [wcspbrk]
    points behind them (or is null), on all three paths of [wcscspn]: an empty
    set, a single character and the general one. *)
Theorem wcscspn_correct m fuel s c xs cs :
  zstr m s xs -> zstr m c cs -> 0 < s -> 0 < c ->
  (length xs < fuel)%nat -> (length cs < fuel)%nat ->
  let k := span_len (fun x => negb (in_set cs x)) xs in
  wcscspn fuel m s c = Ok (Z.of_nat k) /\
  wcspbrk fuel m s c = Ok (if decide (k < length xs)%nat then s + Z.of_nat k else NULL).
Proof.
  intros Hs Hc Hs0 Hc0 Hf Hfc k.
  pose proof (wcscspn_ok m fuel s c xs cs Hs Hc Hs0 Hc0 Hf Hfc) as H. fold k in H.
  split; [done|]. unfold wcspbrk. rewrite H, bind_ok.
  rewrite (ld_zstr m s xs k Hs) by apply span_len_le. rewrite bind_ok. f_equal.
  case_decide as Hk.
  - by rewrite (nonzero_true _ (zstr_nonzero m s xs k Hs Hk)).
  - by rewrite nth_overflow by lia.
Qed.

Lemma wcscspn_witness :
  wcscspn 9 demo_mem 10 21 = Ok 0 /\ wcspbrk 9 demo_mem 10 21 = Ok 10.
Proof.
  apply (wcscspn_correct demo_mem 9 10 21 [65; 66; 65; 67] [65]); layout.
Defined.

(** [wcschr] points at the first, [wcsrchr] at the last cell of the string
    that holds the character, the terminator included; both are null when no
    cell does. *)
Theorem wcschr_wcsrchr_correct m fuel s xs c :
  zstr m s xs -> 0 < s -> (length xs + 1 < fuel)%nat ->
  let k := span_len (fun x => negb (x =? c)) (xs ++ [0]) in
  wcschr fuel m s c =
    Ok (if decide (k <= length xs)%nat then s + Z.of_nat k else NULL) /\
  exists r, wcsrchr fuel m s c = Ok r /\
    ((exists j, last_at xs c j /\ r = s + Z.of_nat j) \/
     (r = NULL /\ c ∉ xs ++ [0])).
Proof.
  intros Hs Hs0 Hf k. split; [|by apply wcsrchr_ok].
  destruct (decide (c = 0)) as [->|Hc].
  - unfold wcschr. cbn [Z.eqb]. rewrite (wcslen_ok m fuel s xs Hs), bind_ok by lia.
    assert (k = length xs) as ->; [|by rewrite decide_True by lia].
    subst k. destruct Hs as [_ Hn]. clear Hs0 Hf.
    induction Hn as [|x xs Hx _ IH]; cbn; [done|].
    by rewrite (proj2 (Z.eqb_neq _ _) Hx), IH.
  - rewrite (wcschr_scan m fuel s xs c Hs Hc) by lia.
    assert (forall ys, span_len (fun x => negb (x =? c)) (ys ++ [0]) =
      if decide (c ∈ ys) then span_len (fun x => negb (x =? c)) ys else S (length ys)) as Hk.
    { induction ys as [|y ys IH]; cbn -[Z.eqb].
      - rewrite decide_False by apply not_elem_of_nil.
        by rewrite (proj2 (Z.eqb_neq _ _)) by congruence.
      - rewrite IH. destruct (Z.eqb_spec y c) as [->|Hne]; cbn [negb].
        + rewrite decide_True by by left. done.
        + destruct (decide (c ∈ ys)); [rewrite decide_True by by right|rewrite decide_False]; try done.
          rewrite elem_of_cons. intros [->|]; done. }
    subst k. rewrite Hk. f_equal. destruct (decide (c ∈ xs)) as [Hin|Hin].
    + apply span_len_not_eq in Hin. rewrite !decide_True by lia. done.
    + rewrite !decide_False; [done|lia|]. by rewrite span_len_not_eq.
Qed.

Lemma wcschr_wcsrchr_witness :
  wcschr 9 demo_mem 10 65 = Ok 10 /\ exists r, wcsrchr 9 demo_mem 10 65 = Ok r /\
    ((exists j, last_at [65; 66; 65; 67] 65 j /\ r = 10 + Z.of_nat j) \/
     (r = NULL /\ 65 ∉ [65; 66; 65; 67; 0])).
Proof. apply (wcschr_wcsrchr_correct demo_mem 9 10 [65; 66; 65; 67] 65); layout. Defined.

Lemma wcsxfrm_witness :
  wcsxfrm 9 demo_mem 30 10 3 = Ok (write demo_mem 30 [65; 66; 0], 4).
Proof. apply (wcsxfrm_correct demo_mem 9 30 10 3 [65; 66; 65; 67]); layout. Defined.
