(* ===== verification/Utf8Spec.v ===== *)
(** What UTF-8 is (RFC 3629), independently of the code: the encoding of a
    scalar value, and the decoder as an automaton over bytes with the theorems
    that relate the two. *)
From stdpp Require Import prelude list numbers.
From S2P Require Import Prelude.
Open Scope Z_scope.

(** Unicode scalar values: code points without the surrogates. *)
Definition scalar (w : Z) : Prop := 0 <= w < 0xd800 \/ 0xe000 <= w < 0x110000.

#[export] Instance scalar_dec w : Decision (scalar w).
Proof. unfold scalar. apply _. Defined.

Definition byte (b : Z) : Prop := 0 <= b < 256.

Definition utf8 (w : Z) : list Z :=
  if w <? 0x80 then [w]
  else if w <? 0x800 then [0xc0 + w / 64; 0x80 + w mod 64]
  else if w <? 0x10000 then [0xe0 + w / 4096; 0x80 + w / 64 mod 64; 0x80 + w mod 64]
  else [0xf0 + w / 262144; 0x80 + w / 4096 mod 64; 0x80 + w / 64 mod 64; 0x80 + w mod 64].

(** A character under way: [pd_k] continuation bytes to come, the next one in
    [[pd_lo, pd_hi]], the bits seen so far. *)
Record pend := Pend { pd_k : nat; pd_lo : Z; pd_hi : Z; pd_v : Z }.

Definition lead (b : Z) : option pend :=
  if (0xc2 <=? b) && (b <=? 0xdf) then Some (Pend 1 0x80 0xbf (b - 0xc0))
  else if b =? 0xe0 then Some (Pend 2 0xa0 0xbf 0)
  else if b =? 0xed then Some (Pend 2 0x80 0x9f 13)
  else if (0xe1 <=? b) && (b <=? 0xef) then Some (Pend 2 0x80 0xbf (b - 0xe0))
  else if b =? 0xf0 then Some (Pend 3 0x90 0xbf 0)
  else if b =? 0xf4 then Some (Pend 3 0x80 0x8f 4)
  else if (0xf1 <=? b) && (b <=? 0xf3) then Some (Pend 3 0x80 0xbf (b - 0xf0))
  else None.

Inductive verdict :=
  | Done (w : Z) (len : nat)   (* a character, and how many bytes it took *)
  | More (p : pend)            (* the input ends inside a character *)
  | Bad.

Fixpoint feed (p : pend) (bs : list Z) : verdict :=
  match bs with
  | [] => More p
  | b :: bs =>
      if (pd_lo p <=? b) && (b <=? pd_hi p) then
        let v := 64 * pd_v p + (b - 0x80) in
        match pd_k p with
        | S (S k) =>
            match feed (Pend (S k) 0x80 0xbf v) bs with
            | Done w len => Done w (S len)
            | r => r
            end
        | _ => Done v 1
        end
      else Bad
  end.

(** The decoder from the start of a character; [None] on no input. *)
Definition decode (bs : list Z) : option verdict :=
  match bs with
  | [] => None
  | b :: bs =>
      Some (if b <? 0x80 then Done b 1
            else match lead b with
                 | None => Bad
                 | Some p => match feed p bs with Done w len => Done w (S len) | r => r end
                 end)
  end.

(** The invariant of the automaton: the bits so far, completed by any allowed
    continuation, are a scalar value in the range of that length. *)
Definition pend_ok (p : pend) : Prop :=
  match pd_k p with
  | 1%nat => (2 <= pd_v p < 864 \/ 896 <= pd_v p < 17408) /\ pd_lo p = 0x80 /\ pd_hi p = 0xbf
  | 2%nat =>
      (pd_v p = 0 /\ pd_lo p = 0xa0 /\ pd_hi p = 0xbf) \/
      (pd_v p = 13 /\ pd_lo p = 0x80 /\ pd_hi p = 0x9f) \/
      ((1 <= pd_v p < 13 \/ 14 <= pd_v p < 272) /\ pd_lo p = 0x80 /\ pd_hi p = 0xbf)
  | 3%nat =>
      (pd_v p = 0 /\ pd_lo p = 0x90 /\ pd_hi p = 0xbf) \/
      (pd_v p = 4 /\ pd_lo p = 0x80 /\ pd_hi p = 0x8f) \/
      (1 <= pd_v p < 4 /\ pd_lo p = 0x80 /\ pd_hi p = 0xbf)
  | _ => False
  end.

(** Splits the tests of the goal and of the hypotheses. *)
Ltac ztests :=
  repeat match goal with
  | H : context [?a <=? ?b] |- _ => destruct (Z.leb_spec a b); cbn [andb orb negb] in *
  | H : context [?a <? ?b] |- _ => destruct (Z.ltb_spec a b); cbn [andb orb negb] in *
  | H : context [?a =? ?b] |- _ => destruct (Z.eqb_spec a b); cbn [andb orb negb] in *
  | |- context [?a <=? ?b] => destruct (Z.leb_spec a b); cbn [andb orb negb] in *
  | |- context [?a <? ?b] => destruct (Z.ltb_spec a b); cbn [andb orb negb] in *
  | |- context [?a =? ?b] => destruct (Z.eqb_spec a b); cbn [andb orb negb] in *
  end.

Lemma lead_ok b p : lead b = Some p -> pend_ok p /\ 0xc2 <= b <= 0xf4.
Proof.
  unfold lead. intros H. ztests; simplify_eq; unfold pend_ok; cbn; try lia;
    intuition lia.
Qed.

(** Feeding in two pieces is feeding the whole. *)
Lemma feed_app p xs ys :
  feed p (xs ++ ys) =
    match feed p xs with
    | More p' => match feed p' ys with
                 | Done w len => Done w (length xs + len)
                 | r => r
                 end
    | r => r
    end.
Proof.
  revert p. induction xs as [|x xs IH]; intros p; cbn; [by destruct (feed p ys)|].
  destruct (_ && _); [|done]. destruct (pd_k p) as [|[|k]]; [done..|].
  rewrite IH. destruct (feed _ xs) as [w len|p'|]; [done| |done].
  by destruct (feed p' ys).
Qed.

Lemma decode_app xs ys :
  xs <> [] ->
  decode (xs ++ ys) =
    match decode xs with
    | Some (More p) => match feed p ys with
                       | Done w len => Some (Done w (length xs + len))
                       | r => Some r
                       end
    | r => r
    end.
Proof.
  destruct xs as [|b xs]; [done|]. intros _. cbn. f_equal.
  destruct (b <? 0x80); [done|]. destruct (lead b); [|done].
  rewrite feed_app. destruct (feed _ xs) as [w len|p'|]; [done| |done].
  by destruct (feed p' ys).
Qed.

(** ** The automaton keeps its invariant *)

Lemma feed_step_ok k lo hi v b :
  pend_ok (Pend (S (S k)) lo hi v) -> lo <= b <= hi ->
  pend_ok (Pend (S k) 0x80 0xbf (64 * v + (b - 0x80))).
Proof. unfold pend_ok. cbn. destruct k as [|[|k]]; intuition lia. Qed.

Lemma feed_ok p bs p' : pend_ok p -> feed p bs = More p' -> pend_ok p'.
Proof.
  revert p. induction bs as [|b bs IH]; intros [k lo hi v] Hp; cbn.
  - by intros [= <-].
  - destruct (_ && _) eqn:Hb; [|done].
    apply andb_true_iff in Hb as [?%Z.leb_le ?%Z.leb_le].
    destruct k as [|[|k]]; [done..|].
    destruct (feed _ bs) eqn:Hf; [done| |done]. intros [= <-].
    eapply IH; [|exact Hf]. by eapply feed_step_ok.
Qed.

Lemma decode_more_ok bs p : decode bs = Some (More p) -> pend_ok p.
Proof.
  destruct bs as [|b bs]; [done|]. cbn. destruct (b <? 0x80); [done|].
  destruct (lead b) as [q|] eqn:Hl; [|done]. destruct (feed q bs) eqn:Hf; [done| |done].
  intros [= <-]. eapply feed_ok; [by eapply lead_ok|exact Hf].
Qed.

(** Every character under way can be completed. *)
Lemma pend_completes p :
  pend_ok p -> exists t w, t <> [] /\ feed p t = Done w (length t).
Proof.
  destruct p as [k lo hi v]. intros Hp.
  assert (0x80 <= lo <= hi /\ 0x80 <= hi) as Hr.
  { destruct k as [|[|[|[|k]]]]; unfold pend_ok in Hp; cbn in Hp; [done|lia..]. }
  destruct k as [|[|[|[|k]]]]; try done.
  - exists [lo]. eexists. split; [done|]. cbn. rewrite !(proj2 (Z.leb_le _ _)) by lia. done.
  - exists [lo; 0x80]. eexists. split; [done|]. cbn. rewrite !(proj2 (Z.leb_le _ _)) by lia. done.
  - exists [lo; 0x80; 0x80]. eexists. split; [done|]. cbn.
    rewrite !(proj2 (Z.leb_le _ _)) by lia. done.
Qed.

(** ** The shape of an encoding *)

Lemma utf8_1 w : 0 <= w < 0x80 -> utf8 w = [w].
Proof. intros. unfold utf8. ztests; done || lia. Qed.

Lemma utf8_2 x y : 2 <= x < 32 -> 0 <= y < 64 -> utf8 (64 * x + y) = [0xc0 + x; 0x80 + y].
Proof. intros. unfold utf8. ztests; try lia. list_lia. Qed.

Lemma utf8_3 x y z :
  0 <= x < 16 -> 0 <= y < 64 -> 0 <= z < 64 -> 32 <= 64 * x + y ->
  utf8 (64 * (64 * x + y) + z) = [0xe0 + x; 0x80 + y; 0x80 + z].
Proof. intros. unfold utf8. ztests; try lia. list_lia. Qed.

Lemma utf8_4 x y z t :
  0 <= x < 8 -> 0 <= y < 64 -> 0 <= z < 64 -> 0 <= t < 64 -> 16 <= 64 * x + y ->
  utf8 (64 * (64 * (64 * x + y) + z) + t) = [0xf0 + x; 0x80 + y; 0x80 + z; 0x80 + t].
Proof. intros. unfold utf8. ztests; try lia. list_lia. Qed.

(** A scalar value is one of these four shapes. *)
Lemma scalar_shape w :
  scalar w ->
  0 <= w < 0x80 \/
  (exists x y, 2 <= x < 32 /\ 0 <= y < 64 /\ w = 64 * x + y) \/
  (exists x y z, 0 <= x < 16 /\ 0 <= y < 64 /\ 0 <= z < 64 /\ 32 <= 64 * x + y /\
     ~ (864 <= 64 * x + y < 896) /\ w = 64 * (64 * x + y) + z) \/
  (exists x y z t, 0 <= x < 5 /\ 0 <= y < 64 /\ 0 <= z < 64 /\ 0 <= t < 64 /\
     16 <= 64 * x + y < 272 /\ w = 64 * (64 * (64 * x + y) + z) + t).
Proof.
  unfold scalar. intros Hw. destruct (decide (w < 0x80)); [left; lia|right].
  destruct (decide (w < 0x800)).
  { left. exists (w / 64), (w mod 64). dlia. }
  right. destruct (decide (w < 0x10000)).
  { left. exists (w / 4096), (w / 64 mod 64), (w mod 64). dlia. }
  right. exists (w / 262144), (w / 4096 mod 64), (w / 64 mod 64), (w mod 64). dlia.
Qed.

(** ** Decoding inverts encoding *)

(** The lead byte of a character, by the range it falls in. *)
Lemma lead_2 x : 2 <= x < 32 -> lead (0xc0 + x) = Some (Pend 1 0x80 0xbf x).
Proof. intros. unfold lead. ztests; try lia. do 2 f_equal; lia. Qed.

Lemma lead_3 x :
  0 <= x < 16 -> exists lo hi, lead (0xe0 + x) = Some (Pend 2 lo hi x) /\
  forall y, 0 <= y < 64 ->
    (lo <= 0x80 + y <= hi <-> 32 <= 64 * x + y /\ ~ (864 <= 64 * x + y < 896)).
Proof.
  intros. unfold lead. ztests; try lia;
    (do 2 eexists; split; [do 2 f_equal; lia|lia]).
Qed.

Lemma lead_4 x :
  0 <= x < 5 -> exists lo hi, lead (0xf0 + x) = Some (Pend 3 lo hi x) /\
  forall y, 0 <= y < 64 -> (lo <= 0x80 + y <= hi <-> 16 <= 64 * x + y < 272).
Proof.
  intros. unfold lead. ztests; try lia;
    (do 2 eexists; split; [do 2 f_equal; lia|lia]).
Qed.

(** Feeding one allowed byte. *)
Lemma feed_last lo hi v b bs :
  lo <= b <= hi -> feed (Pend 1 lo hi v) (b :: bs) = Done (64 * v + (b - 0x80)) 1.
Proof. intros. cbn. by rewrite !(proj2 (Z.leb_le _ _)) by lia. Qed.

Lemma feed_cont k lo hi v b bs :
  lo <= b <= hi ->
  feed (Pend (S (S k)) lo hi v) (b :: bs) =
    match feed (Pend (S k) 0x80 0xbf (64 * v + (b - 0x80))) bs with
    | Done w len => Done w (S len)
    | r => r
    end.
Proof. intros. cbn [feed pd_lo pd_hi]. by rewrite !(proj2 (Z.leb_le _ _)) by lia. Qed.

Lemma decode_lead b p bs :
  lead b = Some p ->
  decode (b :: bs) = Some (match feed p bs with Done w len => Done w (S len) | r => r end).
Proof.
  intros Hl. destruct (lead_ok b p Hl) as [_ Hb]. unfold decode.
  rewrite (proj2 (Z.ltb_ge _ _)) by lia. by rewrite Hl.
Qed.

Lemma decode_utf8 w rest :
  scalar w -> decode (utf8 w ++ rest) = Some (Done w (length (utf8 w))).
Proof.
  intros [Hw|[(x & y & Hx & Hy & ->)|[(x & y & z & Hx & Hy & Hz & Hlo & Hs & ->)|
    (x & y & z & t & Hx & Hy & Hz & Ht & Hr & ->)]]]%scalar_shape.
  - rewrite utf8_1 by lia. cbn. by rewrite (proj2 (Z.ltb_lt _ _)) by lia.
  - rewrite utf8_2 by lia. cbn [app length]. rewrite (decode_lead _ _ _ (lead_2 x Hx)).
    rewrite feed_last by lia. do 3 f_equal; lia.
  - rewrite utf8_3 by lia. cbn [app length].
    destruct (lead_3 x Hx) as (lo & hi & Hl & Hb). rewrite (decode_lead _ _ _ Hl).
    rewrite feed_cont by (by apply Hb). rewrite feed_last by lia. do 3 f_equal; lia.
  - rewrite utf8_4 by lia. cbn [app length].
    destruct (lead_4 x Hx) as (lo & hi & Hl & Hb). rewrite (decode_lead _ _ _ Hl).
    rewrite feed_cont by (by apply Hb). rewrite feed_cont, feed_last by lia.
    do 3 f_equal; lia.
Qed.

(** Which byte a lead byte is. *)
Lemma lead_inv b p :
  lead b = Some p ->
  (pd_k p = 1%nat /\ exists x, 2 <= x < 32 /\ b = 0xc0 + x) \/
  (pd_k p = 2%nat /\ exists x, 0 <= x < 16 /\ b = 0xe0 + x) \/
  (pd_k p = 3%nat /\ exists x, 0 <= x < 5 /\ b = 0xf0 + x).
Proof.
  unfold lead. intros H. ztests; try discriminate; injection H as <-; cbn; try lia.
  all: first [left; split; [done|]; exists (b - 0xc0); lia
             |right; left; split; [done|]; exists (b - 0xe0); lia
             |right; right; split; [done|]; exists (b - 0xf0); lia].
Qed.

Lemma feed_done_inv k lo hi v bs w len :
  feed (Pend k lo hi v) bs = Done w len -> (1 <= k)%nat ->
  exists b bs', bs = b :: bs' /\ lo <= b <= hi /\
    match k with
    | S (S k) => exists len', len = S len' /\
        feed (Pend (S k) 0x80 0xbf (64 * v + (b - 0x80))) bs' = Done w len'
    | _ => len = 1%nat /\ w = 64 * v + (b - 0x80)
    end.
Proof.
  destruct bs as [|b bs]; [done|]. cbn. destruct (_ && _) eqn:Hb; [|done].
  apply andb_true_iff in Hb as [?%Z.leb_le ?%Z.leb_le]. intros Hd Hk. exists b, bs.
  split; [done|]. split; [done|]. destruct k as [|[|k]]; [lia|by simplify_eq|].
  destruct (feed _ bs); simplify_eq. eauto.
Qed.

Lemma decode_done bs w len :
  Forall byte bs -> decode bs = Some (Done w len) ->
  scalar w /\ len = length (utf8 w) /\ exists rest, bs = utf8 w ++ rest.
Proof.
  intros Hby Hd. destruct bs as [|b bs]; [done|]. apply Forall_cons_iff in Hby as [Hb Hby].
  unfold byte in Hb. destruct (decide (b < 0x80)) as [Hlt|Hge].
  { cbn in Hd. rewrite (proj2 (Z.ltb_lt _ _)) in Hd by lia. simplify_eq.
    rewrite utf8_1 by lia. unfold scalar. split; [lia|]. split; [done|]. by exists bs. }
  unfold decode in Hd. rewrite (proj2 (Z.ltb_ge _ _)) in Hd by lia.
  destruct (lead b) as [p|] eqn:Hl; [|done].
  destruct (feed p bs) as [w' len'| |] eqn:Hf; simplify_eq. unfold scalar.
  destruct (lead_inv b p Hl) as [[Hk (x & Hx & ->)]|[[Hk (x & Hx & ->)]|[Hk (x & Hx & ->)]]].
  - rewrite (lead_2 x Hx) in Hl. simplify_eq.
    apply feed_done_inv in Hf as (b1 & rest & -> & Hb1 & -> & ->); [|lia].
    replace (64 * x + (b1 - 128)) with (64 * x + (b1 - 128)) by lia.
    rewrite utf8_2 by lia. split; [lia|]. split; [done|]. exists rest. cbn. list_lia.
  - destruct (lead_3 x Hx) as (lo & hi & Hl' & Hr). rewrite Hl in Hl'. simplify_eq.
    apply feed_done_inv in Hf as (b1 & bs1 & -> & Hb1 & len1 & -> & Hf); [|lia].
    apply feed_done_inv in Hf as (b2 & rest & -> & Hb2 & -> & ->); [|lia].
    assert (0 <= b1 - 0x80 < 64) as Hy.
    { pose proof (proj1 (lead_ok _ _ Hl)) as Hp. unfold pend_ok in Hp. cbn in Hp. lia. }
    specialize (Hr (b1 - 0x80) Hy). replace (0x80 + (b1 - 0x80)) with b1 in Hr by lia.
    apply Hr in Hb1. rewrite utf8_3 by lia. split; [lia|]. split; [done|].
    exists rest. cbn. list_lia.
  - destruct (lead_4 x Hx) as (lo & hi & Hl' & Hr). rewrite Hl in Hl'. simplify_eq.
    apply feed_done_inv in Hf as (b1 & bs1 & -> & Hb1 & len1 & -> & Hf); [|lia].
    apply feed_done_inv in Hf as (b2 & bs2 & -> & Hb2 & len2 & -> & Hf); [|lia].
    apply feed_done_inv in Hf as (b3 & rest & -> & Hb3 & -> & ->); [|lia].
    assert (0 <= b1 - 0x80 < 64) as Hy.
    { pose proof (proj1 (lead_ok _ _ Hl)) as Hp. unfold pend_ok in Hp. cbn in Hp. lia. }
    specialize (Hr (b1 - 0x80) Hy). replace (0x80 + (b1 - 0x80)) with b1 in Hr by lia.
    apply Hr in Hb1. rewrite utf8_4 by lia. split; [lia|]. split; [done|].
    exists rest. cbn. list_lia.
Qed.

Lemma utf8_nonempty w : utf8 w <> [].
Proof. unfold utf8. by repeat case_match. Qed.

Lemma utf8_byte w : scalar w -> Forall byte (utf8 w).
Proof.
  unfold scalar, utf8, byte. intros Hw.
  repeat case_match; rewrite ?Z.ltb_lt, ?Z.ltb_ge in *; repeat constructor; dlia.
Qed.

Lemma feed_done_byte p bs w :
  pend_ok p -> feed p bs = Done w (length bs) -> Forall byte bs.
Proof.
  revert p w. induction bs as [|b bs IH]; intros [k lo hi v] w Hp Hf; [constructor|].
  assert (1 <= k)%nat by (destruct k; [done|lia]).
  apply feed_done_inv in Hf as (b' & bs' & [= <- <-] & Hb & Hf); [|done].
  assert (byte b).
  { unfold byte. destruct k as [|[|[|[|k]]]]; unfold pend_ok in Hp; cbn in Hp; [done|lia..|done]. }
  constructor; [done|]. destruct k as [|[|k]]; [lia| |].
  - destruct Hf as [Hf _]. destruct bs; [constructor|done].
  - destruct Hf as (len & [= <-] & Hf). eapply IH; [|exact Hf]. by eapply feed_step_ok.
Qed.

(** An input that ends inside a character is a proper prefix of an encoding. *)
Lemma decode_more bs p :
  Forall byte bs -> decode bs = Some (More p) ->
  exists w t, scalar w /\ t <> [] /\ utf8 w = bs ++ t.
Proof.
  intros Hby Hd. assert (bs <> []) as Hne by by intros ->.
  assert (Forall byte bs) as Hb by done. pose proof (decode_more_ok bs p Hd) as Hp.
  destruct (pend_completes p Hp) as (t & w & Ht & Hf).
  assert (decode (bs ++ t) = Some (Done w (length bs + length t))) as Hw.
  { rewrite decode_app by done. by rewrite Hd, Hf. }
  assert (Forall byte t) as Hbt.
  { by eapply feed_done_byte. }
  apply decode_done in Hw as (Hs & Hlen & rest & Heq); [|by apply Forall_app].
  exists w, t. split; [done|]. split; [done|].
  assert (rest = []) as ->; [|by rewrite app_nil_r in Heq].
  apply (f_equal length) in Heq. rewrite !length_app in Heq. destruct rest; [done|cbn in *; lia].
Qed.

(** A rejected input is neither a prefix nor an extension of an encoding. *)
Lemma decode_bad bs :
  decode bs = Some Bad ->
  forall w t, scalar w -> bs <> utf8 w ++ t /\ utf8 w <> bs ++ t.
Proof.
  intros Hd w t Hw. split; intros Heq.
  - rewrite Heq, decode_utf8 in Hd; done.
  - pose proof (decode_utf8 w [] Hw) as H. rewrite app_nil_r, Heq, decode_app, Hd in H; [done|].
    by intros ->.
Qed.

(** How many bytes the automaton still wants. *)
Lemma feed_len p bs :
  (1 <= pd_k p)%nat ->
  match feed p bs with
  | Done _ len => len = pd_k p /\ (len <= length bs)%nat
  | More _ => (length bs < pd_k p)%nat
  | Bad => bs <> []
  end.
Proof.
  revert p. induction bs as [|b bs IH]; intros [k lo hi v] Hk; cbn in *; [lia|].
  destruct (_ && _); [|done]. destruct k as [|[|k]]; [lia|lia|].
  specialize (IH (Pend (S k) 0x80 0xbf (64 * v + (b - 0x80))) ltac:(cbn; lia)).
  destruct (feed _ bs); cbn in *; [lia|lia|done].
Qed.
