(* ===== verification/Utf8.v ===== *)
(** The multibyte conversions of [src/orbis_wchar32.c] that work on one
    character: the state table, [mbrtowc], [mbtowc], [wcrtomb] and the
    functions around them.

    A byte pointer counts cells of a memory whose cells are [unsigned char]
    values.  An [mbstate_t] is its first word, passed in and returned: the
    caller's object, or the function's static one when the pointer is null.
    [*wc] is returned too, [None] when the function does not store. *)
From stdpp Require Import prelude gmap list numbers.
From S2P Require Import Prelude Memory Utf8Spec.
Open Scope Z_scope.

Inductive errno_t := EILSEQ | EINVAL | EOVERFLOW.

Definition WEOF : Z := 0xffffffff.
Definition EOF : Z := -1.

(** ** The state table *)

Module Table.

(** The lead-byte range and the macro [OOB(c,b)]: non-zero when [b] is outside
    the interval that the upper six bits of [c] encode. *)
Definition SA : Z := 0xc2.
Definition SB : Z := 0xf4.
Definition OOB (c b : Z) : Z :=
  Z.land (Z.lor (Z.shiftr b 3 - 0x10) (Z.shiftr b 3 + Z.shiftr (s32 c) 26)) (Z.lnot 7).

(** [R(a,b)]: the encoding of the interval [[a,b)] in the upper bits. *)
Definition R (a b : Z) : Z :=
  u32 (Z.shiftl (if a =? 0x80 then u32 (0x40 - b) else u32 (0 - a)) 23).
Definition C (x : Z) : Z := if x <? 2 then u32 (-1) else Z.lor (R 0x80 0xc0) x.
Definition D (x : Z) : Z := C (x + 16).
Definition E (x : Z) : Z :=
  Z.lor (Z.lor (if x =? 0 then R 0xa0 0xc0
                else if x =? 0xd then R 0x80 0xa0
                else R 0x80 0xc0)
               (Z.shiftr (R 0x80 0xc0) 6)) x.
Definition F (x : Z) : Z :=
  Z.lor (Z.lor (Z.lor (if 5 <=? x then 0
                       else if x =? 0 then R 0x90 0xc0
                       else if x =? 4 then R 0x80 0x90
                       else R 0x80 0xc0)
                      (Z.shiftr (R 0x80 0xc0) 6))
               (Z.shiftr (R 0x80 0xc0) 12)) x.

Definition bittab : list Z :=
  map C [0x2; 0x3; 0x4; 0x5; 0x6; 0x7; 0x8; 0x9; 0xa; 0xb; 0xc; 0xd; 0xe; 0xf] ++
  map D [0x0; 0x1; 0x2; 0x3; 0x4; 0x5; 0x6; 0x7; 0x8; 0x9; 0xa; 0xb; 0xc; 0xd; 0xe; 0xf] ++
  map E [0x0; 0x1; 0x2; 0x3; 0x4; 0x5; 0x6; 0x7; 0x8; 0x9; 0xa; 0xb; 0xc; 0xd; 0xe; 0xf] ++
  map F [0x0; 0x1; 0x2; 0x3; 0x4].

(** [bittab[i]], with the bound C leaves to the programmer. *)
Definition bittab_at (i : Z) : outcome Z :=
  if i <? 0 then Fault
  else match bittab !! Z.to_nat i with Some c => Ok c | None => Fault end.

(** [b] is not a lead byte: [b-SA > SB-SA], in unsigned arithmetic. *)
Definition bad_lead (b : Z) : bool := SB - SA <? u32 (b - SA).
(** [b-0x80u >= 0x40]: not a continuation byte. *)
Definition bad_cont (b : Z) : bool := 0x40 <=? u32 (b - 0x80).
(** [c<<6 | (b-0x80)]. *)
Definition push (c b : Z) : Z := Z.lor (u32 (Z.shiftl c 6)) (u32 (b - 0x80)).
(** [c & (1U<<k)], as a test. *)
Definition bit (c k : Z) : bool := negb (Z.land c (Z.shiftl 1 k) =? 0).

End Table.
Export Table.

(** ** One character at a time *)

Module Char.

Record mbr := mk_mbr {
  mb_ret : Z;              (* the [size_t] or [int] result *)
  mb_wc : option Z;        (* what was stored through [wc] *)
  mb_st : Z;               (* the conversion state after the call *)
  mb_errno : option errno_t
}.

Definition ctype_get_mb_cur_max : Z := 4.

Definition btowc (c : Z) : Z :=
  let b := u8 c in if b <? 128 then b else WEOF.

Definition wctob (c : Z) : Z := if c <? 128 then c else EOF.

Definition ilseq : outcome mbr := Ok (mk_mbr (u64 (-1)) None 0 (Some EILSEQ)).

(** From the label [loop] on: [c] is the state, [s] points at a byte that has
    passed its range test, [n] bytes are left. *)
Definition mbrtowc_loop (fuel : nat) (m : mem) (N : Z) : Z * Z * Z -> outcome mbr :=
  loop fuel (fun '(c, s, n) =>
    b ← ld m s;
    let c := push c b in
    let s := s + 1 in
    let n := n - 1 in
    if negb (bit c 31) then Ok (inr (mk_mbr (N - n) (Some (s32 c)) 0 None))
    else if negb (n =? 0) then
      b ← ld m s;
      if bad_cont b then (r ← ilseq; Ok (inr r)) else Ok (inl (c, s, n))
    else Ok (inr (mk_mbr (u64 (-2)) None c None))).

Definition mbrtowc (fuel : nat) (m : mem) (src n st : Z) : outcome mbr :=
  let N := n in
  let s := src in
  let c := st in
  let rest '(c, s, n) :=
    if negb (n =? 0) then
      b ← ld m s;
      if negb (OOB c b =? 0) then ilseq else mbrtowc_loop fuel m N (c, s, n)
    else Ok (mk_mbr (u64 (-2)) None c None) in
  if s =? 0 then (if negb (c =? 0) then ilseq else Ok (mk_mbr 0 None c None))
  else if n =? 0 then Ok (mk_mbr (u64 (-2)) None c None)
  else if c =? 0 then
    b ← ld m s;
    if b <? 0x80 then Ok (mk_mbr (if b =? 0 then 0 else 1) (Some b) c None)
    else if bad_lead b then ilseq
    else c ← bittab_at (b - SA); rest (c, s + 1, n - 1)
  else rest (c, s, n).

Definition mbrlen (fuel : nat) (m : mem) (s n st : Z) : outcome mbr :=
  r ← mbrtowc fuel m s n st;
  Ok (mk_mbr (mb_ret r) None (mb_st r) (mb_errno r)).

Definition mbt (ret : Z) (wc : option Z) : outcome mbr := Ok (mk_mbr ret wc 0 None).
Definition mbt_ilseq : outcome mbr := Ok (mk_mbr (-1) None 0 (Some EILSEQ)).

(** [mbtowc] keeps no state: its [mb_st] is always zero. *)
Definition mbtowc (m : mem) (src n : Z) : outcome mbr :=
  let s := src in
  if s =? 0 then mbt 0 None
  else if n =? 0 then mbt_ilseq
  else
  b ← ld m s;
  if b <? 0x80 then mbt (if b =? 0 then 0 else 1) (Some b)
  else if bad_lead b then mbt_ilseq
  else
  c ← bittab_at (b - SA);
  let s := s + 1 in
  if (n <? 4) && bit (u32 (Z.shiftl c (6 * n - 6))) 31 then mbt_ilseq
  else
  b ← ld m s;
  if negb (OOB c b =? 0) then mbt_ilseq
  else
  let c := push c b in
  let s := s + 1 in
  if negb (bit c 31) then mbt 2 (Some (s32 c))
  else
  b ← ld m s;
  if bad_cont b then mbt_ilseq
  else
  let c := push c b in
  let s := s + 1 in
  if negb (bit c 31) then mbt 3 (Some (s32 c))
  else
  b ← ld m s;
  if bad_cont b then mbt_ilseq
  else mbt 4 (Some (s32 (push c b))).

Definition mblen (m : mem) (s n : Z) : outcome mbr :=
  r ← mbtowc m s n; Ok (mk_mbr (mb_ret r) None (mb_st r) (mb_errno r)).

(** [None] is the null pointer. *)
Definition mbsinit (st : option Z) : bool :=
  match st with None => true | Some c => c =? 0 end.

(** The stores of [wcrtomb], the [size_t] result and [errno]. *)
Definition wcrtomb (m : mem) (s wc : Z) : outcome (mem * Z * option errno_t) :=
  if s =? 0 then Ok (m, 1, None)
  else if u32 wc <? 0x80 then
    m ← st m s (u8 wc); Ok (m, 1, None)
  else if u32 wc <? 0x800 then
    m ← st m s (u8 (Z.lor 0xc0 (Z.shiftr wc 6)));
    m ← st m (s + 1) (u8 (Z.lor 0x80 (Z.land wc 0x3f)));
    Ok (m, 2, None)
  else if (u32 wc <? 0xd800) || (u32 (u32 wc - 0xe000) <? 0x2000) then
    m ← st m s (u8 (Z.lor 0xe0 (Z.shiftr wc 12)));
    m ← st m (s + 1) (u8 (Z.lor 0x80 (Z.land (Z.shiftr wc 6) 0x3f)));
    m ← st m (s + 2) (u8 (Z.lor 0x80 (Z.land wc 0x3f)));
    Ok (m, 3, None)
  else if u32 (u32 wc - 0x10000) <? 0x100000 then
    m ← st m s (u8 (Z.lor 0xf0 (Z.shiftr wc 18)));
    m ← st m (s + 1) (u8 (Z.lor 0x80 (Z.land (Z.shiftr wc 12) 0x3f)));
    m ← st m (s + 2) (u8 (Z.lor 0x80 (Z.land (Z.shiftr wc 6) 0x3f)));
    m ← st m (s + 3) (u8 (Z.lor 0x80 (Z.land wc 0x3f)));
    Ok (m, 4, None)
  else Ok (m, u64 (-1), Some EILSEQ).

Definition wctomb (m : mem) (s wc : Z) : outcome (mem * Z * option errno_t) :=
  if s =? 0 then Ok (m, 0, None)
  else '(m, r, e) ← wcrtomb m s wc; Ok (m, s32 r, e).

Definition c32rtomb (m : mem) (s c32 : Z) : outcome (mem * Z * option errno_t) :=
  wcrtomb m s (s32 c32).

(** ** UTF-16 and UTF-32 code units *)

(** The result carries the state [*ps] after the call. *)
Definition c16rtomb (m : mem) (s c16 x : Z) : outcome (mem * Z * Z * option errno_t) :=
  let ilseq := Ok (m, u64 (-1), 0, Some EILSEQ) in
  if s =? 0 then (if negb (x =? 0) then ilseq else Ok (m, 1, x, None))
  else if (x =? 0) && (u32 (c16 - 0xd800) <? 0x400) then
    Ok (m, 0, u32 (Z.shiftl (c16 - 0xd7c0) 10), None)
  else if negb (x =? 0) then
    if 0x400 <=? u32 (c16 - 0xdc00) then ilseq
    else '(m, r, e) ← wcrtomb m s (s32 (u32 (x + c16 - 0xdc00))); Ok (m, r, 0, e)
  else '(m, r, e) ← wcrtomb m s c16; Ok (m, r, x, e).

(** The string literal [""]. *)
Definition empty_literal : mem := {[ 1 := 0 ]}.

(** [mb_wc] is what is stored through [pc16]. *)
Definition mbrtoc16_ (fuel : nat) (m : mem) (s n st : Z) : outcome mbr :=
  if 0 <? s32 st then Ok (mk_mbr (u64 (-3)) (Some (u16 st)) 0 None)
  else
  r ← mbrtowc fuel m s n st;
  match mb_wc r with
  | Some wc =>
      if mb_ret r <=? 4 then
        if 0x10000 <=? wc
        then Ok (mk_mbr (mb_ret r) (Some (u16 (0xd7c0 + Z.shiftr wc 10)))
                   (u32 (Z.land wc 0x3ff + 0xdc00)) (mb_errno r))
        else Ok (mk_mbr (mb_ret r) (Some (u16 wc)) (mb_st r) (mb_errno r))
      else Ok r
  | None => Ok r
  end.
Definition mbrtoc16 (fuel : nat) (m : mem) (s n st : Z) : outcome mbr :=
  if s =? 0 then
    r ← mbrtoc16_ fuel empty_literal 1 1 st;
    Ok (mk_mbr (mb_ret r) None (mb_st r) (mb_errno r))
  else mbrtoc16_ fuel m s n st.

Definition mbrtoc32 (fuel : nat) (m : mem) (s n st : Z) : outcome mbr :=
  if s =? 0 then
    r ← mbrtowc fuel empty_literal 1 1 st;
    Ok (mk_mbr (mb_ret r) None (mb_st r) (mb_errno r))
  else
  r ← mbrtowc fuel m s n st;
  Ok (mk_mbr (mb_ret r) (if mb_ret r <=? 4 then option_map u32 (mb_wc r) else None)
        (mb_st r) (mb_errno r)).

End Char.
Export Char.

(** ** The conversion state as a character under way *)

Definition flags (k : nat) : Z :=
  match k with 2%nat => 0x03000000 | 3%nat => 0x030c0000 | _ => 0 end.
Definition top (lo hi : Z) : Z := 48 + (0xbf - hi) / 8 - (lo - 0x80) / 8.

(** The word [mbrtowc] stores for it. *)
Definition rep (p : pend) : Z :=
  top (pd_lo p) (pd_hi p) * 2 ^ 26 + (flags (pd_k p) + pd_v p).

Definition byte_values : list Z := seqZ 0 256.

Lemma byte_check (f : Z -> bool) :
  forallb f byte_values = true -> forall b, byte b -> f b = true.
Proof.
  rewrite forallb_forall. intros H b Hb. apply H.
  apply list_elem_of_In. unfold byte_values. apply elem_of_seqZ. unfold byte in Hb. lia.
Qed.

(** The table, entry by entry, against the lead bytes of RFC 3629. *)
Lemma bittab_lead b :
  byte b -> 0x80 <= b ->
  if bad_lead b then lead b = None
  else exists p, lead b = Some p /\ bittab_at (b - SA) = Ok (rep p).
Proof.
  intros Hb Hge.
  pose proof (byte_check (fun b => (b <? 0x80) ||
     if bad_lead b then bool_decide (lead b = None)
     else match lead b with
          | Some p => bool_decide (bittab_at (b - SA) = Ok (rep p))
          | None => false
          end)) as H.
  specialize (H ltac:(vm_compute; reflexivity) b Hb). cbn beta in H. rewrite (proj2 (Z.ltb_ge _ _)) in H by done.
  cbn [orb] in H. destruct (bad_lead b); [by apply bool_decide_eq_true in H|].
  destruct (lead b); [|done]. apply bool_decide_eq_true in H. eauto.
Qed.

Lemma pend_ok_bounds p :
  pend_ok p -> (1 <= pd_k p <= 3)%nat /\ 0 <= pd_v p < 17408 /\
    (flags (pd_k p) + pd_v p < 2 ^ 26) /\
    (pd_k p = 2%nat -> pd_v p < 272) /\ (pd_k p = 3%nat -> pd_v p < 5) /\
    In (pd_lo p, pd_hi p) [(0x80, 0xbf); (0xa0, 0xbf); (0x90, 0xbf); (0x80, 0x9f); (0x80, 0x8f)].
Proof.
  destruct p as [k lo hi v]. unfold pend_ok, flags. cbn [pd_k pd_v pd_lo pd_hi].
  destruct k as [|[|[|[|k]]]]; intros Hp; try done;
    (split; [lia|]); (split; [lia|]); (split; [lia|]); (split; [lia|]); (split; [lia|]);
    intuition (subst; cbn; auto 8).
Qed.

Lemma rep_bounds p :
  pend_ok p -> 44 <= top (pd_lo p) (pd_hi p) <= 54 /\ 2 ^ 31 <= rep p < 2 ^ 32.
Proof.
  intros Hp. destruct (pend_ok_bounds p Hp) as (Hk & Hv & Hf & _ & _ & Hr).
  assert (0 <= flags (pd_k p)) by (unfold flags; repeat case_match; lia).
  assert (44 <= top (pd_lo p) (pd_hi p) <= 54) as Ht.
  { cbn in Hr. destruct Hr as [[= <- <-]|[[= <- <-]|[[= <- <-]|[[= <- <-]|[[= <- <-]|[]]]]]];
      vm_compute; split; congruence. }
  unfold rep. lia.
Qed.

(** The bound test reads the range off the upper six bits. *)
Lemma OOB_rep p b :
  pend_ok p -> byte b -> (OOB (rep p) b =? 0) = (pd_lo p <=? b) && (b <=? pd_hi p).
Proof.
  intros Hp Hb. destruct (rep_bounds p Hp) as [Ht Hrep].
  destruct (pend_ok_bounds p Hp) as (Hk & Hv & Hf & _ & _ & Hr).
  assert (Z.shiftr (s32 (rep p)) 26 = top (pd_lo p) (pd_hi p) - 64) as Hs.
  { unfold s32. rewrite Z.shiftr_div_pow2 by lia.
    replace ((rep p + 2 ^ 31) mod 2 ^ 32) with (rep p - 2 ^ 31).
    2: { rewrite <- (Z_mod_plus_full (rep p + 2 ^ 31) (-1)). rewrite Z.mod_small; lia. }
    assert (0 <= flags (pd_k p)) by (unfold flags; repeat case_match; lia).
    unfold rep in *. dlia. }
  unfold OOB. rewrite Hs.
  assert (forall lo hi, In (lo, hi) [(0x80, 0xbf); (0xa0, 0xbf); (0x90, 0xbf); (0x80, 0x9f); (0x80, 0x8f)] ->
    forallb (fun b => Bool.eqb
      (Z.land (Z.lor (Z.shiftr b 3 - 0x10) (Z.shiftr b 3 + (top lo hi - 64))) (Z.lnot 7) =? 0)
      ((lo <=? b) && (b <=? hi))) byte_values = true) as Hall.
  { intros lo hi Hin. cbn in Hin.
    destruct Hin as [[= <- <-]|[[= <- <-]|[[= <- <-]|[[= <- <-]|[[= <- <-]|[]]]]]];
      vm_compute; reflexivity. }
  specialize (byte_check _ (Hall _ _ Hr) b Hb) as H. by apply Bool.eqb_prop in H.
Qed.

Lemma bad_cont_range b : byte b -> bad_cont b = negb ((0x80 <=? b) && (b <=? 0xbf)).
Proof.
  intros Hb. apply Bool.eqb_prop.
  by apply (byte_check (fun b => Bool.eqb (bad_cont b) (negb ((0x80 <=? b) && (b <=? 0xbf))))).
Qed.

(** Pushing the six bits of a continuation byte. *)
Lemma push_add c b t r :
  c = t * 2 ^ 26 + r -> 0 <= r < 2 ^ 26 -> 0x80 <= b <= 0xbf ->
  push c b = 64 * r + (b - 0x80).
Proof.
  intros -> Hr Hb. unfold push. rewrite (u32_small (b - 0x80)) by lia.
  rewrite Z.shiftl_mul_pow2 by lia.
  assert (u32 ((t * 2 ^ 26 + r) * 2 ^ 6) = r * 2 ^ 6) as ->.
  { unfold u32. replace ((t * 2 ^ 26 + r) * 2 ^ 6) with (r * 2 ^ 6 + t * 2 ^ 32) by ring.
    rewrite Z_mod_plus_full. apply Z.mod_small. lia. }
  rewrite lor_low_add by lia. lia.
Qed.

Lemma bit31 c : 0 <= c < 2 ^ 32 -> bit c 31 = (2 ^ 31 <=? c).
Proof.
  intros Hc. unfold bit. rewrite Z.shiftl_1_l.
  destruct (Z.leb_spec (2 ^ 31) c).
  - assert (Z.testbit c 31 = true) as Ht.
    { rewrite Z.testbit_true by lia. replace (c / 2 ^ 31) with 1 by dlia. done. }
    destruct (Z.eqb_spec (Z.land c (2 ^ 31)) 0) as [He|]; [|done].
    apply (f_equal (fun z => Z.testbit z 31)) in He.
    by rewrite Z.land_spec, Ht in He.
  - replace (Z.land c (2 ^ 31)) with 0; [done|]. symmetry.
    rewrite Z.land_comm. replace (2 ^ 31) with (1 * 2 ^ 31) by lia.
    apply land_mul_pow2_low; lia.
Qed.

Lemma push_last p b :
  pend_ok p -> pd_k p = 1%nat -> pd_lo p <= b <= pd_hi p ->
  push (rep p) b = 64 * pd_v p + (b - 0x80) /\ 0x80 <= push (rep p) b < 0x110000 /\
  bit (push (rep p) b) 31 = false.
Proof.
  intros Hp Hk Hb. destruct (pend_ok_bounds p Hp) as (_ & Hv & _).
  assert (0x80 <= b <= 0xbf /\ 2 <= pd_v p) as [Hb' Hv'].
  { unfold pend_ok in Hp. rewrite Hk in Hp. lia. }
  rewrite (push_add (rep p) b _ (flags (pd_k p) + pd_v p) eq_refl); [|rewrite Hk; cbn; lia|done].
  rewrite Hk. cbn [flags]. rewrite bit31 by lia.
  rewrite (proj2 (Z.leb_gt _ _)) by lia. split; [done|]. split; [lia|done].
Qed.

Lemma push_more p k b :
  pend_ok p -> pd_k p = S (S k) -> pd_lo p <= b <= pd_hi p ->
  let p' := Pend (S k) 0x80 0xbf (64 * pd_v p + (b - 0x80)) in
  pend_ok p' /\ push (rep p) b = rep p' /\ bit (push (rep p) b) 31 = true.
Proof.
  intros Hp Hk Hb p'. destruct p as [k0 lo hi v]. cbn in Hk, Hb. subst k0.
  assert (pend_ok p') as Hp' by (eapply feed_step_ok; eauto).
  assert (0x80 <= b <= 0xbf) as Hb'.
  { destruct k as [|[|k]]; unfold pend_ok in Hp; cbn in Hp; [lia..|done]. }
  assert (push (rep (Pend (S (S k)) lo hi v)) b = rep p') as Hpush.
  { destruct (pend_ok_bounds _ Hp) as (_ & Hv & Hf & _).
    rewrite (push_add (rep (Pend (S (S k)) lo hi v)) b _ (flags (S (S k)) + v) eq_refl); [| |done].
    - unfold rep, p'. cbn [pd_k pd_lo pd_hi pd_v].
      change (top 0x80 0xbf) with 48. destruct k as [|[|k]]; [cbn [flags]; lia|cbn [flags]; lia|by destruct Hp].
    - cbn [pd_k pd_v] in *. unfold flags in *. repeat case_match; lia. }
  split; [done|]. split; [done|]. rewrite Hpush.
  destruct (rep_bounds p' Hp') as [_ Hr]. rewrite bit31 by lia. apply Z.leb_le. lia.
Qed.

(** ** [mbrtowc] runs the automaton *)

(** What [mbrtowc] returns for each verdict. *)
Definition result_of (v : verdict) : mbr :=
  match v with
  | Done w len => mk_mbr (if w =? 0 then 0 else Z.of_nat len) (Some w) 0 None
  | More p => mk_mbr (u64 (-2)) None (rep p) None
  | Bad => mk_mbr (u64 (-1)) None 0 (Some EILSEQ)
  end.

(** [result_of], when [k] bytes were consumed before. *)
Definition result_after (k : Z) (v : verdict) : mbr :=
  match v with
  | Done w len => mk_mbr (k + Z.of_nat len) (Some w) 0 None
  | v => result_of v
  end.

Lemma array_byte_cons m s b bs :
  array m s (b :: bs) -> Forall byte (b :: bs) ->
  ld m s = Ok b /\ byte b /\ array m (s + 1) bs /\ Forall byte bs.
Proof.
  intros [Hb Ha]%array_cons Hby. apply Forall_cons_iff in Hby as [? ?].
  split; [by apply ld_ok|done].
Qed.

Lemma mbrtowc_loop_ok bs : forall fuel m N p s b,
  array m s (b :: bs) -> Forall byte (b :: bs) -> pend_ok p ->
  pd_lo p <= b <= pd_hi p -> (length bs < fuel)%nat ->
  mbrtowc_loop fuel m N (rep p, s, zlen (b :: bs)) =
    Ok (result_after (N - zlen (b :: bs)) (feed p (b :: bs))).
Proof.
  unfold mbrtowc_loop. induction bs as [|b' bs IH]; intros fuel m N p s b Ha Hby Hp Hb Hf;
    fuel_succ fuel; rewrite loop_step; destruct (array_byte_cons _ _ _ _ Ha Hby) as (-> & Hbb & Ha' & Hby');
    rewrite bind_ok; destruct (pend_ok_bounds p Hp) as (Hk & _);
    destruct (pd_k p) as [|[|k]] eqn:Hkp; try lia.
  1, 3: destruct (push_last p b Hp Hkp Hb) as (Hpush & Hrange & ->); cbn [negb]; rewrite bind_ok;
    destruct p as [k lo hi v]; cbn in Hkp, Hb; subst k; rewrite feed_last by done; cbn [result_after];
    rewrite s32_small, Hpush by lia; do 2 f_equal; cbn [length pd_v]; lia.
  - destruct (push_more p k b Hp Hkp Hb) as (Hp' & -> & ->).
    change (zlen [b] - 1 =? 0) with true. cbn [negb].
    rewrite bind_ok. destruct p as [k0 lo hi v]. cbn in Hkp, Hb; subst k0.
    rewrite feed_cont by done. done.
  - destruct (push_more p k b Hp Hkp Hb) as (Hp' & -> & ->). cbn [negb].
    destruct (array_byte_cons _ _ _ _ Ha' Hby') as (-> & Hbb' & _ & _).
    rewrite (proj2 (Z.eqb_neq _ _)) by (cbn [length]; lia). cbn [negb]. rewrite bind_ok.
    destruct p as [k0 lo hi v]. cbn in Hkp, Hb; subst k0. rewrite feed_cont by done.
    cbn [pd_v]. set (p' := Pend (S k) _ _ _) in *.
    rewrite bad_cont_range by done. destruct (_ && _) eqn:Hr; cbn [negb].
    + rewrite bind_ok. apply andb_true_iff in Hr as [?%Z.leb_le ?%Z.leb_le].
      replace (zlen (b :: b' :: bs) - 1) with (zlen (b' :: bs)) by (cbn [length]; lia).
      rewrite IH; [|done|done|done|done|cbn in Hf; lia].
      f_equal. destruct (feed p' (b' :: bs)) as [w len| |]; [|done..]. cbn [result_after].
      f_equal. cbn [length]. lia.
    + unfold p' at 1. cbn [feed pd_lo pd_hi]. by rewrite Hr.
Qed.

(** From a state a previous call left. *)
Lemma mbrtowc_resume fuel m s p bs :
  s <> 0 -> array m s bs -> Forall byte bs -> pend_ok p -> (length bs < fuel)%nat ->
  mbrtowc fuel m s (zlen bs) (rep p) = Ok (result_after 0 (feed p bs)).
Proof.
  intros Hs Ha Hby Hp Hf. unfold mbrtowc. rewrite (proj2 (Z.eqb_neq s 0) Hs).
  destruct (rep_bounds p Hp) as [_ Hr]. rewrite (proj2 (Z.eqb_neq (rep p) 0)) by lia.
  destruct bs as [|b bs]; [done|]. rewrite (proj2 (Z.eqb_neq (zlen _) 0)) by (cbn [length]; lia).
  cbn [negb]. destruct (array_byte_cons _ _ _ _ Ha Hby) as (-> & Hb & _ & _). rewrite bind_ok.
  rewrite OOB_rep by done. destruct (_ && _) eqn:Hrange; cbn [negb].
  - apply andb_true_iff in Hrange as [?%Z.leb_le ?%Z.leb_le].
    rewrite mbrtowc_loop_ok; [by rewrite Z.sub_diag|done|done|done|done|cbn in Hf; lia].
  - cbn [feed]. by rewrite Hrange.
Qed.

(** From the initial state. *)
Lemma mbrtowc_start fuel m s bs :
  s <> 0 -> array m s bs -> Forall byte bs -> bs <> [] -> (length bs < fuel)%nat ->
  exists v, decode bs = Some v /\ mbrtowc fuel m s (zlen bs) 0 = Ok (result_of v).
Proof.
  intros Hs Ha Hby Hne Hf. destruct bs as [|b bs]; [done|]. eexists; split; [done|].
  unfold mbrtowc. rewrite (proj2 (Z.eqb_neq s 0) Hs).
  rewrite (proj2 (Z.eqb_neq (zlen _) 0)) by (cbn [length]; lia). cbn [Z.eqb].
  destruct (array_byte_cons _ _ _ _ Ha Hby) as (-> & Hb & Ha' & Hby'). rewrite bind_ok.
  destruct (Z.ltb_spec b 0x80); [done|]. pose proof (bittab_lead b Hb H) as Hl.
  destruct (bad_lead b); [by rewrite Hl|]. destruct Hl as (p & Hl & ->). rewrite Hl, bind_ok.
  replace (zlen (b :: bs) - 1) with (zlen bs) by (cbn [length]; lia).
  destruct (lead_ok b p Hl) as [Hp _]. destruct bs as [|b' bs]; [done|].
  rewrite (proj2 (Z.eqb_neq (zlen _) 0)) by (cbn [length]; lia). cbn [negb].
  destruct (array_byte_cons _ _ _ _ Ha' Hby') as (-> & Hb' & _ & _). rewrite bind_ok.
  rewrite OOB_rep by done. destruct (_ && _) eqn:Hr; cbn [negb].
  - apply andb_true_iff in Hr as [?%Z.leb_le ?%Z.leb_le].
    rewrite mbrtowc_loop_ok; [|done|done|done|done|cbn in *; lia]. f_equal.
    destruct (feed p (b' :: bs)) as [w len| |] eqn:Hfeed; [|done..]. cbn [result_after result_of].
    rewrite (proj2 (Z.eqb_neq w 0)); [f_equal; cbn [length]; lia|].
    assert (decode (b :: b' :: bs) = Some (Done w (S len))) as Hd
      by by rewrite (decode_lead _ _ _ Hl), Hfeed.
    apply decode_done in Hd as (_ & Hlen & rest & Heq); [|by constructor].
    intros ->. cbn in Heq. simplify_eq; lia.
  - cbn [feed]. by rewrite Hr.
Qed.

(** ** [wcrtomb] writes the encoding *)

Lemma land_3f x : Z.land x 0x3f = x mod 64.
Proof. change 0x3f with (Z.ones 6). by rewrite Z.land_ones. Qed.

(** The bytes [wcrtomb] assembles, as sums. *)
Ltac pack_bytes :=
  rewrite ?land_3f, ?Z.shiftr_div_pow2 by lia;
  repeat match goal with
  | |- context [Z.lor 0xc0 ?b] => rewrite (lor_prefix 0xc0 b 5) by (done || dlia)
  | |- context [Z.lor 0xe0 ?b] => rewrite (lor_prefix 0xe0 b 4) by (done || dlia)
  | |- context [Z.lor 0xf0 ?b] => rewrite (lor_prefix 0xf0 b 3) by (done || dlia)
  | |- context [Z.lor 0x80 ?b] => rewrite (lor_prefix 0x80 b 6) by (done || dlia)
  end;
  rewrite ?u8_small by dlia.

Lemma st_mapped m s n i v :
  mapped m s n -> 0 <= i < n -> st m (s + i) v = Ok (<[s + i := v]> m).
Proof. intros Hm Hi. apply st_ok, Hm. lia. Qed.

Lemma wcrtomb_ok m s w :
  scalar w -> s <> 0 -> mapped m s (zlen (utf8 w)) ->
  wcrtomb m s w = Ok (write m s (utf8 w), zlen (utf8 w), None).
Proof.
  intros Hw Hs Hm. unfold wcrtomb. rewrite (proj2 (Z.eqb_neq s 0) Hs).
  unfold scalar in Hw. rewrite (u32_small w) by lia.
  unfold utf8 in *. destruct (Z.ltb_spec w 0x80).
  { rewrite u8_small, st_ok by (try lia; apply Hm; cbn; lia). done. }
  destruct (Z.ltb_spec w 0x800).
  { pack_bytes. cbn [length] in Hm. rewrite st_ok, bind_ok by (apply Hm; lia).
    rewrite st_ok, bind_ok by (apply (mapped_insert _ _ _ s 2 Hm); lia).
    done. }
  destruct (Z.ltb_spec w 0x10000).
  { replace ((w <? 0xd800) || (u32 (w - 0xe000) <? 0x2000)) with true.
    2: { destruct Hw; [by rewrite (proj2 (Z.ltb_lt _ _)) by lia|].
         rewrite u32_small by lia. rewrite (proj2 (Z.ltb_lt (w - 0xe000) _)) by lia.
         by rewrite orb_true_r. }
    pack_bytes. cbn [length] in Hm. rewrite st_ok, bind_ok by (apply Hm; lia).
    rewrite st_ok, bind_ok by (apply (mapped_insert _ _ _ s 3 Hm); lia).
    rewrite st_ok, bind_ok by (apply (mapped_insert _ _ _ s 3 (mapped_insert _ _ _ s 3 Hm)); lia).
    cbn [write length]. tuple_eq. by replace (s + 1 + 1) with (s + 2) by lia. }
  rewrite (proj2 (Z.ltb_ge w 0xd800)) by lia. rewrite u32_small by lia.
  rewrite (proj2 (Z.ltb_ge (w - 0xe000) _)) by lia. cbn [orb].
  rewrite u32_small by lia. rewrite (proj2 (Z.ltb_lt _ _)) by lia.
  pack_bytes. cbn [length] in Hm. rewrite st_ok, bind_ok by (apply Hm; lia).
  rewrite st_ok, bind_ok by (apply (mapped_insert _ _ _ s 4 Hm); lia).
  rewrite st_ok, bind_ok by (apply (mapped_insert _ _ _ s 4 (mapped_insert _ _ _ s 4 Hm)); lia).
  rewrite st_ok, bind_ok by (apply (mapped_insert _ _ _ s 4 (mapped_insert _ _ _ s 4 (mapped_insert _ _ _ s 4 Hm))); lia).
  cbn [write length]. tuple_eq.
  replace (s + 1 + 1) with (s + 2) by lia. by replace (s + 2 + 1) with (s + 3) by lia.
Qed.

Lemma wcrtomb_bad m s w :
  ~ scalar w -> - 2 ^ 31 <= w < 2 ^ 31 -> s <> 0 ->
  wcrtomb m s w = Ok (m, SIZE_MAX, Some EILSEQ).
Proof.
  unfold scalar. intros Hw Hr Hs. unfold wcrtomb. rewrite (proj2 (Z.eqb_neq s 0) Hs).
  assert (u32 w = if w <? 0 then w + 2 ^ 32 else w) as Hu.
  { destruct (Z.ltb_spec w 0); [by rewrite u32_sub_borrow by lia|by rewrite u32_small by lia]. }
  assert (0xd800 <= u32 w < 0xe000 \/ 0x110000 <= u32 w < 2 ^ 32) as Hu'.
  { rewrite Hu. destruct (Z.ltb_spec w 0); lia. }
  assert (u32 (u32 w - 0xe000) >= 0x2000).
  { destruct (decide (u32 w < 0xe000)); [rewrite u32_sub_borrow by lia|rewrite u32_small by lia]; lia. }
  assert (u32 (u32 w - 0x10000) >= 0x100000).
  { destruct (decide (u32 w < 0x10000)); [rewrite u32_sub_borrow by lia|rewrite u32_small by lia]; lia. }
  ztests; lia || done.
Qed.

(** [mbtowc] runs the automaton as well, and takes an incomplete character for
    an invalid one. *)
Definition mbt_result (v : verdict) : mbr :=
  match v with
  | Done w len => mk_mbr (if w =? 0 then 0 else Z.of_nat len) (Some w) 0 None
  | _ => mk_mbr (-1) None 0 (Some EILSEQ)
  end.

(** The test made before any continuation byte is read. *)
Lemma short_input p n :
  pend_ok p -> 1 <= n < 4 ->
  bit (u32 (Z.shiftl (rep p) (6 * n - 6))) 31 = (n <=? Z.of_nat (pd_k p)).
Proof.
  intros Hp Hn. destruct (pend_ok_bounds p Hp) as (Hk & Hv & _ & Hv2 & Hv3 & _).
  destruct (rep_bounds p Hp) as [Ht Hr].
  rewrite bit31 by apply u32_range. rewrite Z.shiftl_mul_pow2 by lia. unfold rep in *.
  set (t := top _ _) in *. clearbody t.
  assert (n = 1 \/ n = 2 \/ n = 3) as [-> | [-> | ->]] by lia.
  - change (2 ^ (6 * 1 - 6)) with 1. rewrite Z.mul_1_r, u32_small by lia.
    rewrite !(proj2 (Z.leb_le _ _)) by lia. done.
  - change (2 ^ (6 * 2 - 6)) with 64.
    assert (u32 ((t * 2 ^ 26 + (flags (pd_k p) + pd_v p)) * 64) = 64 * (flags (pd_k p) + pd_v p)) as ->.
    { unfold u32. replace (_ * 64) with (64 * (flags (pd_k p) + pd_v p) + t * 2 ^ 32) by ring.
      rewrite Z_mod_plus_full. apply Z.mod_small. unfold flags. repeat case_match; lia. }
    destruct (pd_k p) as [|[|[|[|k]]]]; try lia; cbn [flags]; ztests; lia || done.
  - change (2 ^ (6 * 3 - 6)) with 4096.
    assert (u32 ((t * 2 ^ 26 + (flags (pd_k p) + pd_v p)) * 4096) =
      (4096 * (flags (pd_k p) + pd_v p)) mod 2 ^ 32) as ->.
    { unfold u32. replace (_ * 4096) with (4096 * (flags (pd_k p) + pd_v p) + t * 64 * 2 ^ 32) by ring.
      by rewrite Z_mod_plus_full. }
    destruct (pd_k p) as [|[|[|[|k]]]] eqn:Hkp; try lia; cbn [flags].
    + rewrite Z.mod_small by lia. ztests; lia || done.
    + specialize (Hv2 eq_refl). ztests; try lia; dlia.
    + specialize (Hv3 eq_refl). ztests; try lia; dlia.
Qed.

(** One continuation step of [mbtowc], in the automaton. *)
Lemma feed_reject p b bs :
  (pd_lo p <=? b) && (b <=? pd_hi p) = false -> feed p (b :: bs) = Bad.
Proof. intros H. cbn. by rewrite H. Qed.

Definition mbt_push (p : pend) (b : Z) : pend :=
  Pend (pred (pd_k p)) 0x80 0xbf (64 * pd_v p + (b - 0x80)).

Lemma feed_accept p b bs :
  pend_ok p -> (pd_lo p <=? b) && (b <=? pd_hi p) = true -> (2 <= pd_k p)%nat ->
  pend_ok (mbt_push p b) /\ push (rep p) b = rep (mbt_push p b) /\
  bit (push (rep p) b) 31 = true /\
  feed p (b :: bs) = match feed (mbt_push p b) bs with
                     | Done w len => Done w (S len) | r => r end.
Proof.
  intros Hp Hb Hk. pose proof Hb as [?%Z.leb_le ?%Z.leb_le]%andb_true_iff.
  destruct (pd_k p) as [|[|k]] eqn:Hkp; try lia.
  destruct (push_more p k b Hp Hkp ltac:(lia)) as (Hp' & Hpush & Hbit).
  assert (mbt_push p b = Pend (S k) 0x80 0xbf (64 * pd_v p + (b - 0x80))) as Heq
    by (unfold mbt_push; by rewrite Hkp).
  rewrite Heq. split; [done|]. split; [done|]. split; [done|].
  destruct p as [k0 lo hi v]. cbn in Hkp; subst k0. by apply feed_cont.
Qed.

Lemma feed_final p b bs :
  pend_ok p -> (pd_lo p <=? b) && (b <=? pd_hi p) = true -> pd_k p = 1%nat ->
  bit (push (rep p) b) 31 = false /\ (s32 (push (rep p) b) =? 0) = false /\
  feed p (b :: bs) = Done (s32 (push (rep p) b)) 1.
Proof.
  intros Hp Hb Hk. pose proof Hb as [?%Z.leb_le ?%Z.leb_le]%andb_true_iff.
  destruct (push_last p b Hp Hk ltac:(lia)) as (Hpush & Hr & Hbit).
  rewrite s32_small by lia. split; [done|]. split; [apply Z.eqb_neq; lia|]. rewrite Hpush.
  destruct p as [k0 lo hi v]. cbn in Hk; subst k0. by apply feed_last.
Qed.

Lemma mbtowc_ok m s n bs v :
  s <> 0 -> array m s bs -> Forall byte bs -> decode bs = Some v ->
  zlen bs <= n -> (forall p, v = More p -> zlen bs = n) ->
  mbtowc m s n = Ok (mbt_result v).
Proof.
  intros Hs Ha Hby Hd Hn Hmore. destruct bs as [|b bs]; [done|].
  unfold mbtowc. rewrite (proj2 (Z.eqb_neq s 0) Hs). cbn [length] in Hn.
  rewrite (proj2 (Z.eqb_neq n 0)) by lia.
  destruct (array_byte_cons _ _ _ _ Ha Hby) as (-> & Hb & Ha' & Hby'). rewrite bind_ok.
  destruct (Z.ltb_spec b 0x80) as [Hlt|Hge].
  { cbn in Hd. rewrite (proj2 (Z.ltb_lt _ _) Hlt) in Hd. by simplify_eq. }
  pose proof (bittab_lead b Hb Hge) as Hl. destruct (bad_lead b).
  { cbn in Hd. rewrite (proj2 (Z.ltb_ge _ _) Hge), Hl in Hd. by simplify_eq. }
  destruct Hl as (p & Hl & ->). rewrite bind_ok. rewrite (decode_lead _ _ _ Hl) in Hd.
  destruct (lead_ok b p Hl) as [Hp _]. destruct (pend_ok_bounds p Hp) as (Hk & _).
  pose proof (feed_len p bs ltac:(lia)) as Hlen.
  assert ((n <? 4) && bit (u32 (Z.shiftl (rep p) (6 * n - 6))) 31 = (n <=? Z.of_nat (pd_k p))) as ->.
  { destruct (Z.ltb_spec n 4); cbn [andb]; [by apply short_input; [|lia]|].
    symmetry. apply Z.leb_gt. lia. }
  destruct (Z.leb_spec n (Z.of_nat (pd_k p))) as [Hshort|Hlong].
  { destruct (feed p bs); simplify_eq; [lia|done..]. }
  destruct bs as [|b1 bs]; [cbn in *; simplify_eq; specialize (Hmore _ eq_refl); cbn in Hmore; lia|].
  destruct (array_byte_cons _ _ _ _ Ha' Hby') as (-> & Hb1 & Ha1 & Hby1). rewrite bind_ok.
  rewrite OOB_rep by done. destruct (_ && _) eqn:Hr1; cbn [negb].
  2: { rewrite feed_reject in Hd by done. by simplify_eq. }
  destruct (decide (pd_k p = 1%nat)) as [Hk1|Hk1].
  { destruct (feed_final p b1 bs Hp Hr1 Hk1) as (-> & Hnz & Hf). rewrite Hf in Hd.
    simplify_eq. cbn [negb mbt_result]. by rewrite Hnz. }
  destruct (feed_accept p b1 bs Hp Hr1 ltac:(lia)) as (Hp1 & Hpush1 & Hbit1 & Hf1).
  rewrite Hbit1, Hpush1. cbn [negb]. rewrite Hf1 in Hd. clear Hf1 Hbit1 Hpush1.
  set (p1 := mbt_push p b1) in *. assert (pd_k p1 = pred (pd_k p)) as Hkp1 by done.
  rewrite length_cons in Hlen, Hn.
  destruct bs as [|b2 bs]; [cbn in *; simplify_eq; specialize (Hmore _ eq_refl); lia|].
  destruct (array_byte_cons _ _ _ _ Ha1 Hby1) as (-> & Hb2 & Ha2 & Hby2). rewrite bind_ok.
  rewrite bad_cont_range by done.
  destruct ((0x80 <=? b2) && (b2 <=? 0xbf)) eqn:Hr2; cbn [negb].
  2: { rewrite feed_reject in Hd by done. by simplify_eq. }
  destruct (decide (pd_k p1 = 1%nat)) as [Hk2|Hk2].
  { destruct (feed_final p1 b2 bs Hp1 Hr2 Hk2) as (-> & Hnz & Hf). rewrite Hf in Hd.
    simplify_eq. cbn [negb mbt_result]. by rewrite Hnz. }
  destruct (feed_accept p1 b2 bs Hp1 Hr2 ltac:(lia)) as (Hp2 & Hpush2 & Hbit2 & Hf2).
  rewrite Hbit2, Hpush2. cbn [negb]. rewrite Hf2 in Hd. clear Hf2 Hbit2 Hpush2.
  set (p2 := mbt_push p1 b2) in *. assert (pd_k p2 = pred (pd_k p1)) as Hkp2 by done.
  rewrite length_cons in Hlen, Hn.
  destruct bs as [|b3 bs]; [cbn in *; simplify_eq; specialize (Hmore _ eq_refl); lia|].
  destruct (array_byte_cons _ _ _ _ Ha2 Hby2) as (-> & Hb3 & _ & _). rewrite bind_ok.
  rewrite bad_cont_range by done.
  destruct ((0x80 <=? b3) && (b3 <=? 0xbf)) eqn:Hr3; cbn [negb].
  2: { rewrite feed_reject in Hd by done. by simplify_eq. }
  destruct (feed_final p2 b3 bs Hp2 Hr3 ltac:(lia)) as (_ & Hnz & Hf). rewrite Hf in Hd.
  simplify_eq. cbn [mbt_result]. by rewrite Hnz.
Qed.

(** ** Properties *)

(** C8: [mbrtowc] from the initial state recognises exactly UTF-8 (RFC 3629).
    On any non-empty run of bytes there are three cases: the run starts with
    the encoding of a scalar value, which is stored and whose length is
    returned (0 for the null character); the run is a proper prefix of some
    encoding, and [(size_t)-2] is returned with a non-initial state kept; or
    it is neither, and the call fails with [EILSEQ] and the initial state.
    Overlong forms, surrogates and values beyond 0x10ffff are in the last
    case, because they encode no scalar value. *)
Theorem mbrtowc_correct fuel m s bs :
  s <> 0 -> array m s bs -> Forall byte bs -> bs <> [] -> (length bs < fuel)%nat ->
  exists r, mbrtowc fuel m s (zlen bs) 0 = Ok r /\
  ((exists w rest, scalar w /\ bs = utf8 w ++ rest /\
      r = mk_mbr (if w =? 0 then 0 else zlen (utf8 w)) (Some w) 0 None) \/
   (exists w t, scalar w /\ t <> [] /\ utf8 w = bs ++ t /\
      mb_ret r = 2 ^ 64 - 2 /\ mb_wc r = None /\ mb_st r <> 0 /\ mb_errno r = None) \/
   ((forall w t, scalar w -> bs <> utf8 w ++ t /\ utf8 w <> bs ++ t) /\
      r = mk_mbr SIZE_MAX None 0 (Some EILSEQ))).
Proof.
  intros Hs Ha Hby Hne Hf. destruct (mbrtowc_start fuel m s bs Hs Ha Hby Hne Hf) as (v & Hd & ->).
  eexists; split; [done|]. destruct v as [w len|p|].
  - left. apply decode_done in Hd as (Hw & -> & rest & ->); [|done]. by exists w, rest.
  - right; left. destruct (decode_more bs p Hby Hd) as (w & t & Hw & Ht & Heq).
    exists w, t. pose proof (rep_bounds p (decode_more_ok bs p Hd)). cbn.
    repeat split; try done. lia.
  - right; right. split; [|done]. by apply decode_bad.
Qed.

Definition demo_bytes : mem := write (write ∅ 100 [0xe2; 0x82; 0xac; 65]) 200 (replicate 4 0).

Lemma mbrtowc_witness :
  exists r, mbrtowc 9 demo_bytes 100 4 0 = Ok r /\
  ((exists w rest, scalar w /\ [0xe2; 0x82; 0xac; 65] = utf8 w ++ rest /\
      r = mk_mbr (if w =? 0 then 0 else zlen (utf8 w)) (Some w) 0 None) \/
   (exists w t, scalar w /\ t <> [] /\ utf8 w = [0xe2; 0x82; 0xac; 65] ++ t /\
      mb_ret r = 2 ^ 64 - 2 /\ mb_wc r = None /\ mb_st r <> 0 /\ mb_errno r = None) \/
   ((forall w t, scalar w -> [0xe2; 0x82; 0xac; 65] <> utf8 w ++ t /\
                             utf8 w <> [0xe2; 0x82; 0xac; 65] ++ t) /\
      r = mk_mbr SIZE_MAX None 0 (Some EILSEQ))).
Proof.
  apply (mbrtowc_correct 9 demo_bytes 100 [0xe2; 0x82; 0xac; 65]);
    [done|layout|repeat constructor; done|done|cbn; lia].
Defined.

(** C32: [mbrtowc] is restartable. When the first piece of an input ends inside
    a character, continuing with the second piece from the state it left gives
    what one call on the whole input gives: the same character, the same final
    state and [errno], and a byte count that adds up. *)
Theorem mbrtowc_restartable fuel m s xs ys r1 :
  s <> 0 -> s + zlen xs <> 0 -> array m s (xs ++ ys) -> Forall byte (xs ++ ys) -> xs <> [] ->
  (length (xs ++ ys) < fuel)%nat ->
  mbrtowc fuel m s (zlen xs) 0 = Ok r1 -> mb_ret r1 = 2 ^ 64 - 2 ->
  exists r r2, mbrtowc fuel m s (zlen (xs ++ ys)) 0 = Ok r /\
    mbrtowc fuel m (s + zlen xs) (zlen ys) (mb_st r1) = Ok r2 /\
    mb_wc r2 = mb_wc r /\ mb_st r2 = mb_st r /\ mb_errno r2 = mb_errno r /\
    mb_ret r = (if mb_wc r is Some _ then zlen xs + mb_ret r2 else mb_ret r2).
Proof.
  intros Hs Hs' Ha Hby Hne Hf H1 Hret.
  pose proof Ha as [Hax Hay]%array_app. pose proof Hby as [Hbx Hb_y]%Forall_app.
  rewrite length_app in Hf.
  destruct (mbrtowc_start fuel m s xs Hs Hax Hbx Hne ltac:(lia)) as (v & Hd & Hv).
  rewrite Hv in H1. injection H1 as <-.
  assert (exists p, v = More p) as [p ->].
  { destruct v as [w len|p|]; [|by exists p|done]. exfalso.
    apply decode_done in Hd as (Hw & -> & _); [|done]. cbn in Hret.
    assert (length (utf8 w) <= 4)%nat by (unfold utf8; repeat case_match; cbn; lia).
    destruct (w =? 0); lia. }
  pose proof (decode_more_ok xs p Hd) as Hp.
  destruct (mbrtowc_start fuel m s (xs ++ ys) Hs Ha Hby) as (v' & Hd' & Hv').
  { by destruct xs. } { rewrite length_app; lia. }
  rewrite decode_app, Hd in Hd' by done. eexists _, _. split; [exact Hv'|]. cbn [mb_st result_of].
  rewrite (mbrtowc_resume fuel m (s + zlen xs) p ys Hs' Hay Hb_y Hp) by lia. split; [done|].
  pose proof (feed_len p ys ltac:(by apply pend_ok_bounds)) as Hlen.
  destruct (feed p ys) as [w len| |] eqn:Hfeed; pose proof Hd' as [= <-]; [|done..]. cbn.
  assert ((w =? 0) = false) as ->; [|repeat split; lia].
  apply Z.eqb_neq. intros ->.
  destruct (decode_done (xs ++ ys) 0 (length xs + len) Hby) as (_ & Hl & _).
  { by rewrite decode_app, Hd, Hfeed. }
  destruct xs; [done|]. cbn in Hl. destruct (pend_ok_bounds p Hp). lia.
Qed.

Lemma mbrtowc_restartable_witness :
  exists r r2, mbrtowc 9 demo_bytes 100 4 0 = Ok r /\
    mbrtowc 9 demo_bytes 102 2 (rep (Pend 1 0x80 0xbf 0x82)) = Ok r2 /\
    mb_wc r2 = mb_wc r /\ mb_st r2 = mb_st r /\ mb_errno r2 = mb_errno r /\
    mb_ret r = (if mb_wc r is Some _ then 2 + mb_ret r2 else mb_ret r2).
Proof.
  apply (mbrtowc_restartable 9 demo_bytes 100 [0xe2; 0x82] [0xac; 65]
    (mk_mbr (2 ^ 64 - 2) None (rep (Pend 1 0x80 0xbf 0x82)) None));
    first [done | layout | by repeat constructor | by vm_compute].
Defined.

(** [wcrtomb] stores the UTF-8 encoding of a scalar value and returns its
    length; every other [wchar_t] (a surrogate, a negative or too large value)
    is refused with [EILSEQ] and nothing is stored. *)
Theorem wcrtomb_correct m s w :
  - 2 ^ 31 <= w < 2 ^ 31 -> s <> 0 -> mapped m s 4 ->
  wcrtomb m s w =
    (if decide (scalar w) then Ok (write m s (utf8 w), zlen (utf8 w), None)
     else Ok (m, 2 ^ 64 - 1, Some EILSEQ)).
Proof.
  intros Hr Hs Hm. case_decide as Hw; [|by apply wcrtomb_bad].
  apply wcrtomb_ok; [done|done|]. apply (mapped_sub m s 4 s _ Hm); [lia|].
  unfold utf8. repeat case_match; cbn; lia.
Qed.

Lemma wcrtomb_witness :
  wcrtomb demo_bytes 200 0x20ac = Ok (write demo_bytes 200 [0xe2; 0x82; 0xac], 3, None).
Proof. apply (wcrtomb_correct demo_bytes 200 0x20ac); [lia|done|layout]. Defined.

(** Encoding and decoding are inverse: what [wcrtomb] stored for a
    non-null scalar value, [mbrtowc] and [mbtowc] read back as that value,
    consuming exactly the bytes written. *)
Theorem wcrtomb_mbrtowc_roundtrip fuel m s w :
  scalar w -> w <> 0 -> s <> 0 -> mapped m s 4 -> (4 < fuel)%nat ->
  exists m' n, wcrtomb m s w = Ok (m', n, None) /\
    mbrtowc fuel m' s n 0 = Ok (mk_mbr n (Some w) 0 None) /\
    mbtowc m' s n = Ok (mk_mbr n (Some w) 0 None).
Proof.
  intros Hw Hw0 Hs Hm Hf.
  assert (length (utf8 w) <= 4)%nat by (unfold utf8; repeat case_match; cbn; lia).
  exists (write m s (utf8 w)), (zlen (utf8 w)).
  rewrite wcrtomb_ok; [|done|done|apply (mapped_sub m s 4 s _ Hm); lia]. split; [done|].
  pose proof (array_write m s (utf8 w)) as Ha. pose proof (utf8_byte w Hw) as Hby.
  pose proof (decode_utf8 w [] Hw) as Hd. rewrite app_nil_r in Hd.
  rewrite (mbtowc_ok _ s _ (utf8 w) _ Hs Ha Hby Hd) by done.
  destruct (mbrtowc_start fuel _ s (utf8 w) Hs Ha Hby (utf8_nonempty w)) as (v & Hv & ->); [lia|].
  rewrite Hd in Hv. injection Hv as <-. cbn. by rewrite (proj2 (Z.eqb_neq w 0) Hw0).
Qed.

Lemma wcrtomb_mbrtowc_roundtrip_witness :
  exists m' n, wcrtomb demo_bytes 200 0x1f600 = Ok (m', n, None) /\
    mbrtowc 9 m' 200 n 0 = Ok (mk_mbr n (Some 0x1f600) 0 None) /\
    mbtowc m' 200 n = Ok (mk_mbr n (Some 0x1f600) 0 None).
Proof.
  apply (wcrtomb_mbrtowc_roundtrip 9 demo_bytes 200 0x1f600);
    [unfold scalar; lia|done|done|layout|lia].
Defined.

(** [mbtowc] agrees with [mbrtowc] from the initial state on every input,
    except that it cannot keep a state: where [mbrtowc] reports an incomplete
    character, [mbtowc] fails with [EILSEQ], before reading past the [n] bytes
    it was given. *)
Theorem mbtowc_mbrtowc_agree fuel m s bs :
  s <> 0 -> array m s bs -> Forall byte bs -> bs <> [] -> (length bs < fuel)%nat ->
  exists r, mbrtowc fuel m s (zlen bs) 0 = Ok r /\
    mbtowc m s (zlen bs) =
      Ok (if mb_wc r is Some _ then r else mk_mbr (-1) None 0 (Some EILSEQ)).
Proof.
  intros Hs Ha Hby Hne Hf. destruct (mbrtowc_start fuel m s bs Hs Ha Hby Hne Hf) as (v & Hd & ->).
  eexists; split; [done|]. rewrite (mbtowc_ok m s _ bs v Hs Ha Hby Hd) by done.
  by destruct v.
Qed.

Lemma mbtowc_mbrtowc_agree_witness :
  exists r, mbrtowc 9 demo_bytes 100 2 0 = Ok r /\
    mbtowc demo_bytes 100 2 =
      Ok (if mb_wc r is Some _ then r else mk_mbr (-1) None 0 (Some EILSEQ)).
Proof.
  apply (mbtowc_mbrtowc_agree 9 demo_bytes 100 [0xe2; 0x82]);
    [done|layout|by repeat constructor|done|cbn; lia].
Defined.

(** The UTF-16 conversions pass a supplementary character through a
    surrogate pair and back: [mbrtoc16] yields the high surrogate with the
    four-byte count, then the low one with [(size_t)-3] without reading;
    [c16rtomb] given the two writes the four bytes again. *)
Theorem utf16_surrogates_roundtrip fuel m s d n w :
  0x10000 <= w < 0x110000 -> s <> 0 -> s + 4 <> 0 -> d <> 0 ->
  array m s (utf8 w) -> mapped m d 4 -> (4 < fuel)%nat ->
  let hi := 0xd800 + (w - 0x10000) / 1024 in
  let lo := 0xdc00 + (w - 0x10000) mod 1024 in
  mbrtoc16 fuel m s 4 0 = Ok (mk_mbr 4 (Some hi) lo None) /\
  mbrtoc16 fuel m (s + 4) n lo = Ok (mk_mbr (2 ^ 64 - 3) (Some lo) 0 None) /\
  exists x, c16rtomb m d hi 0 = Ok (m, 0, x, None) /\
    c16rtomb m d lo x = Ok (write m d (utf8 w), 4, 0, None).
Proof.
  intros Hw Hs Hs' Hd Ha Hm Hf hi lo.
  assert (scalar w) as Hsc by (unfold scalar; lia).
  assert (zlen (utf8 w) = 4) as Hlen by (unfold utf8; ztests; lia || done).
  assert (0xd800 <= hi < 0xdc00 /\ 0xdc00 <= lo < 0xe000) as [Hhi Hlo] by (subst hi lo; dlia).
  assert (Z.land w 0x3ff + 0xdc00 = lo) as Hland.
  { change 0x3ff with (Z.ones 10). rewrite Z.land_ones by lia. subst lo. dlia. }
  assert (0xd7c0 + Z.shiftr w 10 = hi) as Hshift.
  { rewrite Z.shiftr_div_pow2 by lia. subst hi. dlia. }
  split; [|split].
  - unfold mbrtoc16, mbrtoc16_. rewrite (proj2 (Z.eqb_neq s 0) Hs).
    change (0 <? s32 0) with false. cbn iota.
    destruct (mbrtowc_start fuel m s (utf8 w) Hs Ha (utf8_byte w Hsc) (utf8_nonempty w)) as (v & Hv & Hr); [lia|].
    rewrite Hlen in Hr. rewrite Hr, bind_ok.
    pose proof (decode_utf8 w [] Hsc) as Hdec. rewrite app_nil_r, Hv in Hdec. injection Hdec as ->.
    cbn [result_of mb_wc mb_ret mb_st mb_errno]. rewrite (proj2 (Z.eqb_neq w 0)), Hlen by lia.
    change (4 <=? 4) with true. rewrite (proj2 (Z.leb_le _ w)) by lia.
    by rewrite Hland, Hshift, u16_small, u32_small by lia.
  - unfold mbrtoc16, mbrtoc16_. rewrite (proj2 (Z.eqb_neq _ 0) Hs').
    rewrite s32_small, (proj2 (Z.ltb_lt 0 lo)), u16_small by lia. done.
  - exists (w / 1024 * 1024). unfold c16rtomb. rewrite (proj2 (Z.eqb_neq d 0) Hd). split.
    + rewrite (u32_small (hi - 0xd800)), (proj2 (Z.ltb_lt _ _)) by lia. cbn [Z.eqb andb negb].
      rewrite Z.shiftl_mul_pow2, u32_small by dlia. do 4 f_equal. subst hi. dlia.
    + rewrite (proj2 (Z.eqb_neq (w / 1024 * 1024) 0)) by dlia. cbn [andb negb].
      rewrite (u32_small (lo - 0xdc00)), (proj2 (Z.leb_gt _ _)) by lia.
      replace (w / 1024 * 1024 + lo - 0xdc00) with w by (subst lo; dlia).
      rewrite u32_small, s32_small, wcrtomb_ok by (done || lia || by rewrite Hlen).
      by rewrite bind_ok, Hlen.
Qed.

Lemma utf16_surrogates_roundtrip_witness :
  let m := write demo_bytes 100 [0xf0; 0x9f; 0x98; 0x80] in
  mbrtoc16 9 m 100 4 0 = Ok (mk_mbr 4 (Some 0xd83d) 0xde00 None) /\
  mbrtoc16 9 m 104 0 0xde00 = Ok (mk_mbr (2 ^ 64 - 3) (Some 0xde00) 0 None) /\
  exists x, c16rtomb m 200 0xd83d 0 = Ok (m, 0, x, None) /\
    c16rtomb m 200 0xde00 x = Ok (write m 200 [0xf0; 0x9f; 0x98; 0x80], 4, 0, None).
Proof.
  apply (utf16_surrogates_roundtrip 9 (write demo_bytes 100 [0xf0; 0x9f; 0x98; 0x80]) 100 200 0 0x1f600);
    [lia|done|done|done|layout|layout|lia].
Defined.
