(* ===== verification/JitSpans.v ===== *)
(** The free list of one arena of [src/orbis_jit.c]: [orbis_jit_take] and
    [orbis_jit_give] on the prefix [span[0 .. nspans)] of the arena's array,
    here a list. *)
From stdpp Require Import prelude list numbers.
From S2P Require Import Prelude.
Open Scope Z_scope.

Module Spans.

Definition ORBIS_JIT_MAX_SPANS : nat := 256.

Record span := mk_span { sp_at : Z; sp_len : Z }.

#[export] Instance span_eq_dec : EqDecision span.
Proof. solve_decision. Defined.

(** First fit: the block is the front of the first span that is long enough;
    a span used up is removed, closing the gap. *)
Fixpoint orbis_jit_take (spans : list span) (len : Z) : option (Z * list span) :=
  match spans with
  | [] => None
  | s :: rest =>
      if sp_len s <? len then
        match orbis_jit_take rest len with
        | Some (at_, rest') => Some (at_, s :: rest')
        | None => None
        end
      else if sp_len s =? len then Some (sp_at s, rest)
      else Some (sp_at s, mk_span (sp_at s + len) (sp_len s - len) :: rest)
  end.

(** [while (i < nspans && span[i].at < at) i++;] *)
Fixpoint give_index (spans : list span) (at_ : Z) : nat :=
  match spans with
  | [] => 0
  | s :: rest => if sp_at s <? at_ then S (give_index rest at_) else 0
  end.

(** Two neighbours that touch become one. *)
Definition merge_at (i : nat) (spans : list span) : list span :=
  match spans !! i, spans !! S i with
  | Some a, Some b =>
      if sp_at a + sp_len a =? sp_at b
      then <[i := mk_span (sp_at a) (sp_len a + sp_len b)]> (delete (S i) spans)
      else spans
  | _, _ => spans
  end.

(** [None] when the array has no slot left: the block is leaked. *)
Definition orbis_jit_give (spans : list span) (at_ len : Z) : option (list span) :=
  let i := give_index spans at_ in
  if (ORBIS_JIT_MAX_SPANS <=? length spans)%nat then None
  else
    let spans := take i spans ++ mk_span at_ len :: drop i spans in
    let spans := merge_at i spans in
    Some (match i with O => spans | S j => merge_at j spans end).

End Spans.
Export Spans.

(** ** What a free list means *)

(** Address [x] is free. *)
Definition free_at (spans : list span) (x : Z) : Prop :=
  exists s, s ∈ spans /\ sp_at s <= x < sp_at s + sp_len s.

(** From [lo] on: the spans are ascending, none is empty, no two touch, and
    all of them end at or before [hi]. *)
Fixpoint spans_ok (lo hi : Z) (spans : list span) : Prop :=
  match spans with
  | [] => True
  | s :: rest =>
      lo <= sp_at s /\ 0 < sp_len s /\ sp_at s + sp_len s <= hi /\
      spans_ok (sp_at s + sp_len s + 1) hi rest
  end.

(** All lengths and addresses are multiples of [k] above [base]. *)
Definition spans_aligned (k base : Z) (spans : list span) : Prop :=
  Forall (fun s => (k | sp_at s - base) /\ (k | sp_len s)) spans.

Lemma free_at_nil x : ~ free_at [] x.
Proof. intros (s & Hs & _). by apply not_elem_of_nil in Hs. Qed.

Lemma free_at_cons s spans x :
  free_at (s :: spans) x <-> sp_at s <= x < sp_at s + sp_len s \/ free_at spans x.
Proof.
  unfold free_at. split.
  - intros (t & [->|Ht]%elem_of_cons & Hx); [by left|right; eauto].
  - intros [Hx|(t & Ht & Hx)]; [exists s|exists t]; (split; [|done]); apply elem_of_cons; auto.
Qed.

Lemma free_at_app xs ys x : free_at (xs ++ ys) x <-> free_at xs x \/ free_at ys x.
Proof.
  induction xs as [|s xs IH]; cbn [app].
  - pose proof (free_at_nil x). tauto.
  - rewrite !free_at_cons, IH. tauto.
Qed.

Lemma spans_ok_weaken lo lo' hi spans : lo' <= lo -> spans_ok lo hi spans -> spans_ok lo' hi spans.
Proof. destruct spans; cbn; [done|]. intros; intuition lia. Qed.

Lemma spans_ok_bounds lo hi spans x : spans_ok lo hi spans -> free_at spans x -> lo <= x < hi.
Proof.
  revert lo. induction spans as [|s spans IH]; intros lo; cbn.
  - intros _ []%free_at_nil.
  - intros (H1 & H2 & H3 & H4) [Hx|Hx]%free_at_cons; [lia|].
    pose proof (IH _ H4 Hx). lia.
Qed.

(** ** Taking *)

Lemma take_ok lo hi spans len at_ spans' :
  0 < len -> spans_ok lo hi spans -> orbis_jit_take spans len = Some (at_, spans') ->
  spans_ok lo hi spans' /\ lo <= at_ /\ at_ + len <= hi /\
  (length spans' <= length spans)%nat /\
  forall x, free_at spans x <-> free_at spans' x \/ at_ <= x < at_ + len.
Proof.
  intros Hlen. revert lo at_ spans'. induction spans as [|s spans IH]; intros lo at_ spans'; cbn; [done|].
  intros (H1 & H2 & H3 & H4). destruct (Z.ltb_spec (sp_len s) len).
  - destruct (orbis_jit_take spans len) as [[at1 rest]|] eqn:Ht; [|done]. intros [= <- <-].
    destruct (IH _ _ _ H4 eq_refl) as (Hok & Hlo & Hhi & Hl & Hfree). cbn.
    split; [done|]. split; [lia|]. split; [lia|]. split; [lia|].
    intros x. rewrite !free_at_cons, Hfree. tauto.
  - destruct (Z.eqb_spec (sp_len s) len) as [He|Hne]; intros [= <- <-].
    + split; [by apply (spans_ok_weaken (sp_at s + sp_len s + 1)); [lia|]|].
      split; [lia|]. split; [lia|]. split; [lia|].
      intros x. rewrite free_at_cons, He. tauto.
    + cbn. split.
      { replace (sp_at s + len + (sp_len s - len)) with (sp_at s + sp_len s) by lia.
        split; [lia|]. split; [lia|]. split; [lia|done]. }
      split; [lia|]. split; [lia|]. split; [lia|].
      intros x. rewrite !free_at_cons. cbn. intuition lia.
Qed.

(** What was taken is no longer free. *)
Lemma take_disjoint lo hi spans len at_ spans' x :
  0 < len -> spans_ok lo hi spans -> orbis_jit_take spans len = Some (at_, spans') ->
  at_ <= x < at_ + len -> ~ free_at spans' x.
Proof.
  intros Hlen. revert lo at_ spans'. induction spans as [|s spans IH]; intros lo at_ spans'; cbn; [done|].
  intros (H1 & H2 & H3 & H4). destruct (Z.ltb_spec (sp_len s) len).
  - destruct (orbis_jit_take spans len) as [[at1 rest]|] eqn:Ht; [|done]. intros [= <- <-] Hx.
    destruct (take_ok _ _ _ _ _ _ Hlen H4 Ht) as (_ & Hlo & _).
    rewrite free_at_cons. intros [?|?]; [lia|]. by eapply IH.
  - destruct (Z.eqb_spec (sp_len s) len); intros [= <- <-] Hx.
    + intros Hf. pose proof (spans_ok_bounds _ _ _ _ H4 Hf). lia.
    + rewrite free_at_cons. cbn. intros [?|Hf]; [lia|].
      pose proof (spans_ok_bounds _ _ _ _ H4 Hf). lia.
Qed.

Lemma take_none spans len :
  orbis_jit_take spans len = None <-> Forall (fun s => sp_len s < len) spans.
Proof.
  induction spans as [|s spans IH]; cbn; [split; [constructor|done]|].
  rewrite Forall_cons_iff. destruct (Z.ltb_spec (sp_len s) len).
  - rewrite <- IH. destruct (orbis_jit_take spans len) as [[]|]; intuition congruence.
  - case_match; split; [done|lia|done|lia].
Qed.

Lemma take_aligned k base spans len at_ spans' :
  (k | len) -> spans_aligned k base spans -> orbis_jit_take spans len = Some (at_, spans') ->
  spans_aligned k base spans' /\ (k | at_ - base).
Proof.
  intros Hk. unfold spans_aligned. revert at_ spans'.
  induction spans as [|s spans IH]; intros at_ spans'; cbn; [done|].
  intros [[Ha Hl] Hrest]%Forall_cons_iff. destruct (sp_len s <? len).
  - destruct (orbis_jit_take spans len) as [[at1 rest]|]; [|done]. intros [= <- <-].
    destruct (IH _ _ Hrest eq_refl). split; [by constructor|done].
  - destruct (sp_len s =? len); intros [= <- <-]; [done|]. split; [|done].
    constructor; [|done]. cbn. split; [|by apply Z.divide_sub_r].
    replace (sp_at s + len - base) with (sp_at s - base + len) by lia. by apply Z.divide_add_r.
Qed.

(** ** Giving back *)

(** Where the next span may start once [spans] have been laid from [lo] on. *)
Fixpoint next_lo (lo : Z) (spans : list span) : Z :=
  match spans with [] => lo | s :: rest => next_lo (sp_at s + sp_len s + 1) rest end.

Lemma spans_ok_app lo hi xs ys :
  spans_ok lo hi (xs ++ ys) <-> spans_ok lo hi xs /\ spans_ok (next_lo lo xs) hi ys.
Proof.
  revert lo. induction xs as [|s xs IH]; intros lo; cbn; [tauto|]. rewrite IH. tauto.
Qed.

Lemma next_lo_app lo xs ys : next_lo lo (xs ++ ys) = next_lo (next_lo lo xs) ys.
Proof. revert lo. by induction xs as [|s xs IH]; intros lo; cbn. Qed.

Lemma give_index_split lo hi spans at_ :
  spans_ok lo hi spans ->
  exists pre post, spans = pre ++ post /\ give_index spans at_ = length pre /\
    Forall (fun s => sp_at s < at_) pre /\
    match post with [] => True | s :: _ => at_ <= sp_at s end.
Proof.
  revert lo. induction spans as [|s spans IH]; intros lo; cbn; [by exists [], []|].
  intros (_ & _ & _ & Hok). destruct (Z.ltb_spec (sp_at s) at_).
  - destruct (IH _ Hok) as (pre & post & -> & Hi & Hpre & Hpost).
    exists (s :: pre), post. cbn. rewrite Hi. auto.
  - exists [], (s :: spans). by cbn.
Qed.

(** One merge, on the two spans it looks at. *)
Definition join (a b : span) : list span :=
  if sp_at a + sp_len a =? sp_at b then [mk_span (sp_at a) (sp_len a + sp_len b)] else [a; b].

Lemma merge_at_pair pre a b post :
  merge_at (length pre) (pre ++ a :: b :: post) = pre ++ join a b ++ post.
Proof.
  unfold merge_at, join.
  rewrite list_lookup_middle by done.
  rewrite (lookup_app_r pre (a :: b :: post) (S (length pre))) by lia.
  replace (S (length pre) - length pre)%nat with 1%nat by lia. cbn.
  destruct (sp_at a + sp_len a =? sp_at b); [|done].
  replace (pre ++ a :: b :: post) with ((pre ++ [a]) ++ b :: post) by (by rewrite <- app_assoc).
  replace (S (length pre)) with (length (pre ++ [a])) by (rewrite length_app; cbn; lia).
  rewrite delete_middle, <- app_assoc. cbn. by rewrite list_insert_middle || rewrite insert_app_r_alt, Nat.sub_diag by lia.
Qed.

Lemma merge_at_last pre a : merge_at (length pre) (pre ++ [a]) = pre ++ [a].
Proof.
  unfold merge_at. rewrite list_lookup_middle by done.
  by rewrite (lookup_ge_None_2 (pre ++ [a]) (S (length pre))) by (rewrite length_app; cbn; lia).
Qed.

(** The two merges after the insertion: the right neighbour first, then the
    left one. *)
Definition joined (at_ len : Z) (post : list span) : list span :=
  match post with
  | [] => [mk_span at_ len]
  | s :: rest => join (mk_span at_ len) s ++ rest
  end.

Lemma joined_cons at_ len post :
  exists m ms, joined at_ len post = m :: ms /\ sp_at m = at_.
Proof.
  destruct post as [|s post]; cbn; [by eexists _, _|].
  unfold join. case_match; cbn; by eexists _, _.
Qed.

Lemma merge_at_joined pre at_ len post :
  merge_at (length pre) (pre ++ mk_span at_ len :: post) = pre ++ joined at_ len post.
Proof. destruct post as [|s post]; [apply merge_at_last|apply merge_at_pair]. Qed.

Lemma give_nil post at_ len :
  give_index post at_ = 0%nat -> (length post < ORBIS_JIT_MAX_SPANS)%nat ->
  orbis_jit_give post at_ len = Some (joined at_ len post).
Proof.
  intros Hi Hlen. unfold orbis_jit_give. rewrite Hi.
  destruct (Nat.leb_spec ORBIS_JIT_MAX_SPANS (length post)); [lia|]. cbn [take drop app].
  by rewrite (merge_at_joined []).
Qed.

Lemma give_snoc pre p post at_ len m ms :
  give_index ((pre ++ [p]) ++ post) at_ = length (pre ++ [p]) ->
  (length ((pre ++ [p]) ++ post) < ORBIS_JIT_MAX_SPANS)%nat ->
  joined at_ len post = m :: ms ->
  orbis_jit_give ((pre ++ [p]) ++ post) at_ len = Some (pre ++ join p m ++ ms).
Proof.
  intros Hi Hlen Hm. unfold orbis_jit_give. rewrite Hi.
  destruct (Nat.leb_spec ORBIS_JIT_MAX_SPANS (length ((pre ++ [p]) ++ post))); [lia|].
  rewrite take_app_length, drop_app_length, merge_at_joined, Hm.
  rewrite length_app. cbn [length]. rewrite Nat.add_1_r, <- app_assoc.
  cbn [app]. by rewrite (merge_at_pair pre p m ms).
Qed.

Lemma join_ok lo hi a b rest :
  lo <= sp_at a -> 0 < sp_len a -> 0 < sp_len b -> sp_at a + sp_len a <= sp_at b ->
  sp_at b + sp_len b <= hi -> spans_ok (sp_at b + sp_len b + 1) hi rest ->
  spans_ok lo hi (join a b ++ rest).
Proof.
  intros ?????Hr. unfold join. destruct (Z.eqb_spec (sp_at a + sp_len a) (sp_at b)) as [He|]; cbn.
  - replace (sp_at a + (sp_len a + sp_len b)) with (sp_at b + sp_len b) by lia. intuition lia.
  - intuition lia.
Qed.

Lemma free_at_join a b x : sp_at a + sp_len a <= sp_at b -> 0 < sp_len a -> 0 < sp_len b ->
  free_at (join a b) x <-> free_at [a; b] x.
Proof.
  intros. unfold join. destruct (Z.eqb_spec (sp_at a + sp_len a) (sp_at b)); [|done].
  rewrite !free_at_cons. cbn. pose proof (free_at_nil x). intuition lia.
Qed.

Lemma length_join a b : (length (join a b) <= 2)%nat.
Proof. unfold join. case_match; cbn; lia. Qed.

(** [at_, at_+len) lies in [lo, hi) and no byte of it is free. *)
Definition block_live (lo hi : Z) (spans : list span) (at_ len : Z) : Prop :=
  0 < len /\ lo <= at_ /\ at_ + len <= hi /\
  forall x, at_ <= x < at_ + len -> ~ free_at spans x.

Lemma joined_ok lo hi at_ len post :
  spans_ok lo hi post -> block_live lo hi post at_ len ->
  match post with [] => True | s :: _ => at_ <= sp_at s end ->
  spans_ok at_ hi (joined at_ len post) /\
  (forall x, free_at (joined at_ len post) x <-> free_at post x \/ at_ <= x < at_ + len) /\
  (length (joined at_ len post) <= S (length post))%nat.
Proof.
  intros Hok (Hlen & Hlo & Hhi & Hlive) Hpost. destruct post as [|s post]; cbn [joined].
  - cbn. split; [lia|]. split; [|lia]. intros x. rewrite free_at_cons. cbn. tauto.
  - destruct Hok as (H1 & H2 & H3 & H4).
    assert (at_ + len <= sp_at s).
    { destruct (Z.le_gt_cases (at_ + len) (sp_at s)); [done|].
      destruct (Hlive (sp_at s)); [lia|]. apply free_at_cons. lia. }
    split; [apply join_ok; cbn; lia || done|]. split.
    + intros x. rewrite free_at_app, free_at_join by (cbn; lia).
      rewrite !free_at_cons. cbn. pose proof (free_at_nil x). tauto.
    + rewrite length_app. pose proof (length_join (mk_span at_ len) s). cbn. lia.
Qed.

(** Giving back a live block, when the array has a slot left: exactly its
    bytes become free, and the list stays ascending and coalesced. *)
Lemma give_ok lo hi spans at_ len :
  spans_ok lo hi spans -> block_live lo hi spans at_ len ->
  (length spans < ORBIS_JIT_MAX_SPANS)%nat ->
  exists spans', orbis_jit_give spans at_ len = Some spans' /\ spans_ok lo hi spans' /\
    (length spans' <= S (length spans))%nat /\
    forall x, free_at spans' x <-> free_at spans x \/ at_ <= x < at_ + len.
Proof.
  intros Hok (Hlen & Hlo & Hhi & Hlive) Hsz.
  destruct (give_index_split lo hi spans at_ Hok) as (pre & post & -> & Hi & Hpre & Hpost).
  apply spans_ok_app in Hok as [Hokp Hokq].
  assert (Hq : spans_ok (next_lo lo pre `min` at_) hi post)
    by (eapply spans_ok_weaken; [|done]; lia).
  destruct (joined_ok (next_lo lo pre `min` at_) hi at_ len post Hq) as (Hj1 & Hj2 & Hj3); [|done|].
  { split_and!; [lia|lia|lia|]. intros x Hx Hf. apply (Hlive x Hx), free_at_app. by right. }
  destruct pre as [|p pre _] using rev_ind.
  { eexists. split; [by apply give_nil|]. split; [by eapply spans_ok_weaken|done]. }
  destruct (joined_cons at_ len post) as (m & ms & Hm & Hat).
  eexists. split; [by apply give_snoc|].
  apply spans_ok_app in Hokp as [Hokp (P1 & P2 & P3 & _)].
  apply Forall_app in Hpre as [_ Hp]. apply Forall_cons_iff in Hp as [Hp _].
  assert (sp_at p + sp_len p <= at_).
  { destruct (Z.le_gt_cases (sp_at p + sp_len p) at_); [done|].
    destruct (Hlive at_); [lia|]. rewrite !free_at_app, free_at_cons. lia. }
  rewrite Hm in Hj1, Hj2, Hj3. destruct Hj1 as (M1 & M2 & M3 & M4). split_and!.
  - apply spans_ok_app. split; [done|]. apply join_ok; lia || done.
  - rewrite !length_app in *. pose proof (length_join p m). cbn [length] in *. lia.
  - intros x. specialize (Hj2 x). rewrite free_at_cons in Hj2.
    rewrite !free_at_app, free_at_join by lia. rewrite !free_at_cons.
    pose proof (free_at_nil x). tauto.
Qed.

Lemma give_full spans at_ len :
  (ORBIS_JIT_MAX_SPANS <= length spans)%nat -> orbis_jit_give spans at_ len = None.
Proof. intros. unfold orbis_jit_give. by destruct (Nat.leb_spec ORBIS_JIT_MAX_SPANS (length spans)); [|lia]. Qed.

Lemma joined_aligned k base at_ len post :
  (k | at_ - base) -> (k | len) -> spans_aligned k base post ->
  spans_aligned k base (joined at_ len post).
Proof.
  intros Ha Hl Hp. unfold spans_aligned in *. destruct post as [|s post]; cbn [joined].
  - by repeat constructor.
  - apply Forall_cons_iff in Hp as [[Hs1 Hs2] Hp]. unfold join. cbn.
    destruct (Z.eqb_spec (at_ + len) (sp_at s)) as [He|]; cbn; repeat constructor; cbn; try done.
    by apply Z.divide_add_r.
Qed.

Lemma give_aligned lo hi k base spans at_ len spans' :
  (k | at_ - base) -> (k | len) -> spans_ok lo hi spans -> spans_aligned k base spans ->
  orbis_jit_give spans at_ len = Some spans' -> spans_aligned k base spans'.
Proof.
  intros Ha Hl Hok Hal Hg.
  destruct (decide (length spans < ORBIS_JIT_MAX_SPANS)%nat);
    [|rewrite give_full in Hg; [done|lia]].
  destruct (give_index_split lo hi spans at_ Hok) as (pre & post & -> & Hi & _).
  apply Forall_app in Hal as [Hpre Hpost].
  pose proof (joined_aligned k base at_ len post Ha Hl Hpost) as Hj.
  destruct pre as [|p pre _] using rev_ind.
  { cbn [app] in *. rewrite give_nil in Hg by done. by injection Hg as <-. }
  destruct (joined_cons at_ len post) as (m & ms & Hm & Hat).
  rewrite (give_snoc pre p post at_ len m ms) in Hg by done. injection Hg as <-.
  unfold spans_aligned in *. rewrite Hm in Hj.
  apply Forall_app in Hpre as [Hpre Hp]. apply Forall_cons_iff in Hp as [[Hp1 Hp2] _].
  apply Forall_cons_iff in Hj as [[Hm1 Hm2] Hms].
  apply Forall_app; split; [done|]. apply Forall_app; split; [|done].
  unfold join. case_match; repeat constructor; cbn; try done. by apply Z.divide_add_r.
Qed.

(** ** A coalesced list is determined by the bytes it frees *)

Lemma spans_ok_head lo hi s rest x :
  spans_ok lo hi (s :: rest) -> free_at (s :: rest) x -> sp_at s <= x.
Proof.
  intros (H1 & H2 & H3 & H4) [?|Hf]%free_at_cons; [lia|].
  pose proof (spans_ok_bounds _ _ _ _ H4 Hf). lia.
Qed.

Lemma spans_ok_gap lo hi s rest :
  spans_ok lo hi (s :: rest) -> ~ free_at (s :: rest) (sp_at s + sp_len s).
Proof.
  intros (H1 & H2 & H3 & H4) [?|Hf]%free_at_cons; [lia|].
  pose proof (spans_ok_bounds _ _ _ _ H4 Hf). lia.
Qed.

Lemma spans_ok_len_le lo hi s xs t ys :
  spans_ok lo hi (s :: xs) -> spans_ok lo hi (t :: ys) -> sp_at s = sp_at t ->
  (forall x, free_at (s :: xs) x <-> free_at (t :: ys) x) -> sp_len s <= sp_len t.
Proof.
  intros Hs Ht Hat Hf. destruct (Z.le_gt_cases (sp_len s) (sp_len t)); [done|].
  destruct (spans_ok_gap _ _ _ _ Ht). apply Hf, free_at_cons. left.
  destruct Ht as (_ & ? & _). lia.
Qed.

Lemma spans_ext lo hi xs ys :
  spans_ok lo hi xs -> spans_ok lo hi ys -> (forall x, free_at xs x <-> free_at ys x) -> xs = ys.
Proof.
  assert (Hnil : forall lo s l, spans_ok lo hi (s :: l) -> ~ (forall x, free_at [] x <-> free_at (s :: l) x)).
  { intros l s r (_ & ? & _) Hf. apply (free_at_nil (sp_at s)), Hf, free_at_cons. lia. }
  revert lo ys. induction xs as [|s xs IH]; intros lo [|t ys] Hs Ht Hf; [done| | |].
  - by destruct (Hnil _ _ _ Ht).
  - destruct (Hnil _ _ _ Hs). intros x. by rewrite Hf.
  - assert (Hat : sp_at s = sp_at t).
    { apply Z.le_antisymm.
      - apply (spans_ok_head _ _ _ _ _ Hs), Hf, free_at_cons. destruct Ht as (_ & ? & _). lia.
      - apply (spans_ok_head _ _ _ _ _ Ht), Hf, free_at_cons. destruct Hs as (_ & ? & _). lia. }
    assert (Hl : sp_len s = sp_len t).
    { apply Z.le_antisymm; [by eapply (spans_ok_len_le lo hi s xs t ys)|].
      by eapply (spans_ok_len_le lo hi t ys s xs). }
    assert (s = t) as -> by (destruct s, t; cbn in *; by subst).
    f_equal. destruct Hs as (_ & _ & _ & Hs), Ht as (_ & _ & _ & Ht).
    apply (IH _ ys Hs Ht). intros x. specialize (Hf x). rewrite !free_at_cons in Hf.
    split; intros Hx.
    + pose proof (spans_ok_bounds _ _ _ _ Hs Hx). destruct Hf as [Hf _]. destruct (Hf (or_intror Hx)); [lia|done].
    + pose proof (spans_ok_bounds _ _ _ _ Ht Hx). destruct Hf as [_ Hf]. destruct (Hf (or_intror Hx)); [lia|done].
Qed.

(** ** Properties *)

(** A block comes out of the free list exactly when some span is long
    enough.  The block lies inside the arena, is aligned like the spans, none
    of its bytes stays free and no other byte changes; the list stays
    ascending, coalesced and aligned. *)
Theorem orbis_jit_take_correct lo hi k base spans len
  (Hlen : 0 < len) (Hk : (k | len)) (Hok : spans_ok lo hi spans)
  (Hal : spans_aligned k base spans) :
  match orbis_jit_take spans len with
  | None => Forall (fun s => sp_len s < len) spans
  | Some (at_, spans') =>
      block_live lo hi spans' at_ len /\ (k | at_ - base) /\
      spans_ok lo hi spans' /\ spans_aligned k base spans' /\
      (length spans' <= length spans)%nat /\
      forall x, free_at spans x <-> free_at spans' x \/ at_ <= x < at_ + len
  end.
Proof.
  destruct (orbis_jit_take spans len) as [[at_ spans']|] eqn:Ht; [|by apply take_none].
  destruct (take_ok _ _ _ _ _ _ Hlen Hok Ht) as (H1 & H2 & H3 & H4 & H5).
  destruct (take_aligned _ _ _ _ _ _ Hk Hal Ht) as [H6 H7].
  split; [|done]. split_and!; try done. intros x Hx.
  exact (take_disjoint _ _ _ _ _ _ x Hlen Hok Ht Hx).
Qed.

(** Two free spans in an arena of 4 KiB at 16384. *)
Definition demo_spans : list span := [mk_span 16384 128; mk_span 16640 512].

Lemma demo_spans_ok : spans_ok 16384 20480 demo_spans /\ spans_aligned 64 16384 demo_spans.
Proof.
  split; [cbn; lia|]. repeat constructor; cbn; (apply Z.mod_divide; [lia|reflexivity]).
Qed.

Lemma orbis_jit_take_witness :
  orbis_jit_take demo_spans 192 = Some (16640, [mk_span 16384 128; mk_span 16832 320]) /\
  block_live 16384 20480 [mk_span 16384 128; mk_span 16832 320] 16640 192.
Proof.
  split; [reflexivity|].
  exact (proj1 (orbis_jit_take_correct 16384 20480 64 16384 demo_spans 192
    ltac:(lia) ltac:(apply Z.mod_divide; [lia|reflexivity]) (proj1 demo_spans_ok) (proj2 demo_spans_ok))).
Defined.

(** A live block that is given back makes exactly its bytes free, and
    the list stays ascending, aligned and coalesced (no two spans touch, no
    span is empty); the block is leaked in one case only, a list that already
    holds all 256 spans. *)
Theorem orbis_jit_give_correct lo hi k base spans at_ len
  (Hok : spans_ok lo hi spans) (Hal : spans_aligned k base spans)
  (Hlive : block_live lo hi spans at_ len) (Hat : (k | at_ - base)) (Hk : (k | len)) :
  match orbis_jit_give spans at_ len with
  | None => (ORBIS_JIT_MAX_SPANS <= length spans)%nat
  | Some spans' =>
      spans_ok lo hi spans' /\ spans_aligned k base spans' /\
      (length spans' <= S (length spans))%nat /\
      forall x, free_at spans' x <-> free_at spans x \/ at_ <= x < at_ + len
  end.
Proof.
  destruct (decide (length spans < ORBIS_JIT_MAX_SPANS)%nat).
  - destruct (give_ok _ _ _ _ _ Hok Hlive) as (spans' & Hg & H1 & H2 & H3); [done|].
    rewrite Hg. split_and!; try done. exact (give_aligned _ _ _ _ _ _ _ _ Hat Hk Hok Hal Hg).
  - rewrite give_full by lia. lia.
Qed.

Lemma orbis_jit_give_witness :
  block_live 16384 20480 demo_spans 16512 128 /\
  orbis_jit_give demo_spans 16512 128 = Some [mk_span 16384 768] /\
  spans_ok 16384 20480 [mk_span 16384 768].
Proof.
  assert (Hlive : block_live 16384 20480 demo_spans 16512 128).
  { split_and!; [lia..|]. intros x Hx. unfold demo_spans. rewrite !free_at_cons. cbn.
    pose proof (free_at_nil x). lia || (intros [?|[?|?]]; [lia|lia|done]). }
  split; [done|]. split; [reflexivity|].
  exact (proj1 (orbis_jit_give_correct 16384 20480 64 16384 demo_spans 16512 128
    (proj1 demo_spans_ok) (proj2 demo_spans_ok) Hlive
    ltac:(apply Z.mod_divide; [lia|reflexivity]) ltac:(apply Z.mod_divide; [lia|reflexivity]))).
Defined.

(** Allocation and free are inverse on the free list: giving back the
    block just taken restores the very same list of spans, so a JIT that
    compiles and drops blocks never fragments its arena by itself. *)
Theorem orbis_jit_take_give_roundtrip lo hi spans len at_ spans'
  (Hlen : 0 < len) (Hok : spans_ok lo hi spans)
  (Hsz : (length spans < ORBIS_JIT_MAX_SPANS)%nat)
  (Ht : orbis_jit_take spans len = Some (at_, spans')) :
  orbis_jit_give spans' at_ len = Some spans.
Proof.
  destruct (take_ok _ _ _ _ _ _ Hlen Hok Ht) as (H1 & H2 & H3 & H4 & H5).
  destruct (give_ok lo hi spans' at_ len H1) as (spans2 & Hg & G1 & _ & G2).
  { split_and!; try done. intros x Hx. exact (take_disjoint _ _ _ _ _ _ x Hlen Hok Ht Hx). }
  { lia. }
  rewrite Hg. f_equal. eapply spans_ext; [done..|]. intros x. by rewrite G2, H5.
Qed.

Lemma orbis_jit_take_give_roundtrip_witness :
  orbis_jit_give [mk_span 16384 128; mk_span 16832 320] 16640 192 = Some demo_spans.
Proof.
  exact (orbis_jit_take_give_roundtrip 16384 20480 demo_spans 192 16640 _
    ltac:(lia) (proj1 demo_spans_ok) ltac:(cbn; unfold ORBIS_JIT_MAX_SPANS; lia) ltac:(reflexivity)).
Defined.
