(* ===== verification/Jit.v ===== *)
(** The executable-memory allocator of [src/orbis_jit.c]: its arena table, its
    verdict, its promoted ranges and every operation on them.

    The kernel is a parameter.  What it answers may depend on everything it was
    asked before, so an operation carries the history of the calls it made and
    the parameter is a function of that history; [orbis_report] writes a
    diagnostic and is left out, but the flags that gate it are kept.  The lock
    around each entry point is in [JitLock]. *)
From Stdlib Require Import String Ascii.
From stdpp Require Import prelude gmap list strings numbers.
From S2P Require Import Prelude JitSpans.
Open Scope Z_scope.

Module Jit.

Definition ORBIS_JIT_REACH : Z := 0x80000000.
Definition ORBIS_JIT_MODULE_SPAN : Z := 0x10000000.
Definition ORBIS_JIT_WINDOW : Z := ORBIS_JIT_REACH - 2 * ORBIS_JIT_MODULE_SPAN.
Definition ORBIS_JIT_ALIGN : Z := 64.
Definition ORBIS_JIT_GRANULE : Z := 0x4000.
Definition ORBIS_JIT_MAX_ARENAS : nat := 8.
Definition ORBIS_JIT_MAX_PROMOTED : nat := 16.
Definition ORBIS_JIT_NEAR_TEXT : Z := 1.

Record arena := mk_arena {
  base : Z; size : Z; phys : Z; dedicated : bool; spans : list span }.

Record promoted := mk_promoted { pr_base : Z; pr_end : Z; pr_ok : bool }.

(** ** The kernel *)

Inductive kcall :=
  | KAllocDirect (len rc phys : Z)
  | KMap (at_ len phys rc got : Z)
  | KMunmap (at_ len : Z)
  | KRelease (phys len : Z)
  | KMprotect (at_ len rc : Z)
  | KQuery (at_ rc end_ : Z)
  | KStub (at_ got : Z).

(** What the console answers, given the calls so far (the newest first). *)
Record kernel := mk_kernel {
  sceKernelAllocateDirectMemory : list kcall -> Z -> Z * Z;
  sceKernelMapNamedDirectMemory : list kcall -> Z -> Z -> Z -> Z * Z;
  sceKernelMprotect : list kcall -> Z -> Z -> Z;
  sceKernelVirtualQuery : list kcall -> Z -> Z * Z;
  call_stub : list kcall -> Z -> Z;
  orbis_env_get : string -> option string;
  anchor : Z }.

Record jit := mk_jit {
  s_arena : list arena;
  s_state : Z;
  s_verbose : Z;
  s_first_stub : bool;
  s_promoted : list promoted;
  heap : gmap Z Z;
  hist : list kcall }.

Definition initial : jit := mk_jit [] (-1) (-1) true [] ∅ [].

Definition set_arenas (st : jit) a := mk_jit a (s_state st) (s_verbose st)
  (s_first_stub st) (s_promoted st) (heap st) (hist st).
Definition set_state (st : jit) v := mk_jit (s_arena st) v (s_verbose st)
  (s_first_stub st) (s_promoted st) (heap st) (hist st).
Definition set_verbose (st : jit) v := mk_jit (s_arena st) (s_state st) v
  (s_first_stub st) (s_promoted st) (heap st) (hist st).
Definition set_first_stub (st : jit) b := mk_jit (s_arena st) (s_state st) (s_verbose st)
  b (s_promoted st) (heap st) (hist st).
Definition set_promoted (st : jit) p := mk_jit (s_arena st) (s_state st) (s_verbose st)
  (s_first_stub st) p (heap st) (hist st).
Definition set_heap (st : jit) h := mk_jit (s_arena st) (s_state st) (s_verbose st)
  (s_first_stub st) (s_promoted st) h (hist st).
Definition log (st : jit) c := mk_jit (s_arena st) (s_state st) (s_verbose st)
  (s_first_stub st) (s_promoted st) (heap st) (c :: hist st).

(** ** Bytes of an arena: [memcpy] of a [size_t], little endian *)

Definition peek (h : gmap Z Z) (a : Z) : Z := default 0 (h !! a).

Fixpoint store_le (h : gmap Z Z) (a : Z) (n : nat) (v : Z) : gmap Z Z :=
  match n with O => h | S n => store_le (<[a := v mod 256]> h) (a + 1) n (v / 256) end.

Fixpoint load_le (h : gmap Z Z) (a : Z) (n : nat) : Z :=
  match n with O => 0 | S n => peek h a + 256 * load_le h (a + 1) n end.

Fixpoint store_bytes (h : gmap Z Z) (a : Z) (bs : list Z) : gmap Z Z :=
  match bs with [] => h | b :: bs => store_bytes (<[a := b]> h) (a + 1) bs end.

(** ** Rounding and reach *)

Definition orbis_jit_round (n to : Z) : Z :=
  Z.land (u64 (n + (to - 1))) (u64 (Z.lnot (to - 1))).

Definition orbis_jit_reachable (from len to len2 : Z) : bool :=
  let a := from in
  let b := to in
  let lo := if a <? b then a else b in
  let hi := if u64 (b + len2) <? u64 (a + len) then u64 (a + len) else u64 (b + len2) in
  u64 (hi - lo) <? ORBIS_JIT_REACH.

Definition orbis_jit_near_module (K : kernel) (base size : Z) : bool :=
  orbis_jit_reachable (u64 (anchor K - ORBIS_JIT_MODULE_SPAN))
    (2 * ORBIS_JIT_MODULE_SPAN) base size.

(** ** Reporting flags, the verdict and its proof *)

Definition orbis_jit_should_log (K : kernel) (st : jit) : jit * bool :=
  let st :=
    if s_verbose st <? 0 then
      set_verbose st
        match orbis_env_get K "ORBIS_JIT_VERBOSE" with
        | Some (String c _) => if Ascii.eqb c "0" then 0 else 1
        | _ => 0
        end
    else st in
  (st, negb (s_verbose st =? 0)).

Definition stub : list Z := [0xb8; 0xee; 0xff; 0xc0; 0x00; 0xc3].

Definition orbis_jit_verify (K : kernel) (st : jit) (at_ : Z) : jit * bool :=
  let st := set_heap st (store_bytes (heap st) at_ stub) in
  let st := if s_first_stub st then st else fst (orbis_jit_should_log K st) in
  let st := set_first_stub st false in
  let got := call_stub K (hist st) at_ in
  (log st (KStub at_ got), got =? 0x00c0ffee).

Definition orbis_jit_record (st : jit) (ok : bool) : jit :=
  set_state st (if s_state st <? 0 then Z.b2z ok
                else Z.b2z (negb (s_state st =? 0) && ok)).

Definition orbis_jit_state (st : jit) : Z := s_state st.

(** ** The address search *)

Definition round_granule (p : Z) : Z := orbis_jit_round p ORBIS_JIT_GRANULE.

(** The address found ([NULL] is 0) and the history with the queries made. *)
Definition orbis_jit_find_free (K : kernel) (fuel : nat) (h : list kcall) (lo hi len : Z)
    : outcome (list kcall * Z) :=
  let p := round_granule lo in
  loop fuel (fun '(h, p, run) =>
    if u64 (p + ORBIS_JIT_GRANULE) <=? hi then
      let '(rc, end_) := sceKernelVirtualQuery K h p in
      let h := KQuery p rc end_ :: h in
      if rc =? 0 then
        let p := if p <? end_ then round_granule end_ else u64 (p + ORBIS_JIT_GRANULE) in
        Ok (inl (h, p, p))
      else
        let p := u64 (p + ORBIS_JIT_GRANULE) in
        if len <=? u64 (p - run) then Ok (inr (h, run)) else Ok (inl (h, p, run))
    else Ok (inr (h, 0))) (h, p, p).

(** ** Arena creation *)

(** The base and the physical offset of the memory mapped. *)
Definition orbis_jit_map (K : kernel) (st : jit) (at_ len : Z) : jit * option (Z * Z) :=
  let '(rc, phys) := sceKernelAllocateDirectMemory K (hist st) len in
  let st := log st (KAllocDirect len rc phys) in
  if negb (rc =? 0) then (st, None)
  else
    let '(rc, got) := sceKernelMapNamedDirectMemory K (hist st) at_ len phys in
    let st := log st (KMap at_ len phys rc got) in
    if negb (rc =? 0) || (got =? 0) || (negb (at_ =? 0) && negb (got =? at_)) then
      let st := if (rc =? 0) && negb (got =? 0) then log st (KMunmap got len) else st in
      (log st (KRelease phys len), None)
    else
      let rc := sceKernelMprotect K (hist st) got len in
      let st := log st (KMprotect got len rc) in
      if negb (rc =? 0) then
        (orbis_jit_record (log (log st (KMunmap got len)) (KRelease phys len)) false, None)
      else
        let '(st, ok) := orbis_jit_verify K st got in
        if negb ok then
          (orbis_jit_record (log (log st (KMunmap got len)) (KRelease phys len)) false, None)
        else (orbis_jit_record st true, Some (got, phys)).

(** [strtol(e, NULL, 10)], saturating at the limits of a 64-bit [long]. *)
Definition is_space (c : ascii) : bool :=
  let n := Z.of_nat (nat_of_ascii c) in (n =? 32) || ((9 <=? n) && (n <=? 13)).

Fixpoint digits10 (acc : Z) (s : string) : Z :=
  match s with
  | EmptyString => acc
  | String c s =>
      let d := Z.of_nat (nat_of_ascii c) - 48 in
      if (0 <=? d) && (d <=? 9) then digits10 (10 * acc + d) s else acc
  end.

Fixpoint strtol10 (s : string) : Z :=
  match s with
  | EmptyString => 0
  | String c s' =>
      if is_space c then strtol10 s'
      else if Ascii.eqb c "-" then Z.max (- 2 ^ 63) (- digits10 0 s')
      else if Ascii.eqb c "+" then Z.min (2 ^ 63 - 1) (digits10 0 s')
      else Z.min (2 ^ 63 - 1) (digits10 0 s)
  end.

Definition orbis_jit_arena_size (K : kernel) (atleast : Z) : Z :=
  let mb :=
    match orbis_env_get K "ORBIS_JIT_ARENA_MB" with
    | Some (String c s) =>
        let v := strtol10 (String c s) in
        if (0 <? v) && (v <=? 512) then v else 16
    | _ => 16
    end in
  let want := u64 (mb * 1024 * 1024) in
  orbis_jit_round (if want <? atleast then atleast else want) ORBIS_JIT_GRANULE.

Definition near_text (flags : Z) : bool := negb (Z.land flags ORBIS_JIT_NEAR_TEXT =? 0).

(** The address a new arena is asked for: 0 lets the kernel choose, [None] is
    a search that found nothing. *)
Definition grow_address (K : kernel) (fuel : nat) (h : list kcall) (len flags : Z)
    : outcome (list kcall * option Z) :=
  if near_text flags then
    '(h, at_) ← orbis_jit_find_free K fuel h
      (u64 (anchor K + ORBIS_JIT_MODULE_SPAN)) (u64 (anchor K + ORBIS_JIT_WINDOW)) len;
    '(h, at_) ← (if at_ =? 0 then
        orbis_jit_find_free K fuel h
          (u64 (anchor K - ORBIS_JIT_WINDOW)) (u64 (anchor K - ORBIS_JIT_MODULE_SPAN)) len
      else Ok (h, at_));
    Ok (h, if at_ =? 0 then None else Some at_)
  else Ok (h, Some 0).

Definition set_hist (st : jit) h := mk_jit (s_arena st) (s_state st) (s_verbose st)
  (s_first_stub st) (s_promoted st) (heap st) h.

(** [true]: a new arena is the last of the table. *)
Definition orbis_jit_grow (K : kernel) (fuel : nat) (st : jit) (atleast flags : Z)
    : outcome (jit * bool) :=
  if (ORBIS_JIT_MAX_ARENAS <=? length (s_arena st))%nat then Ok (st, false)
  else
    let len := orbis_jit_arena_size K atleast in
    '(h, at_) ← grow_address K fuel (hist st) len flags;
    let st := set_hist st h in
    match at_ with
    | None => Ok (st, false)
    | Some at_ =>
        let '(st, m) := orbis_jit_map K st at_ len in
        match m with
        | None => Ok (st, false)
        | Some (got, ph) =>
            let a := mk_arena got len ph false [mk_span got len] in
            let st := set_arenas st (s_arena st ++ [a]) in
            let st := if (length (s_arena st) =? 1)%nat then st
                      else fst (orbis_jit_should_log K st) in
            Ok (st, true)
        end
    end.

(** ** The interface *)

(** The first arena that may serve the request and has room. *)
Fixpoint take_from (K : kernel) (flags len : Z) (arenas : list arena)
    : option (Z * list arena) :=
  match arenas with
  | [] => None
  | a :: rest =>
      let skip :=
        match take_from K flags len rest with
        | Some (at_, rest') => Some (at_, a :: rest')
        | None => None
        end in
      if dedicated a then skip
      else if near_text flags && negb (orbis_jit_near_module K (base a) (size a)) then skip
      else
        match orbis_jit_take (spans a) len with
        | Some (at_, sp) =>
            Some (at_, mk_arena (base a) (size a) (phys a) (dedicated a) sp :: rest)
        | None => skip
        end
  end.

(** Only the arena just created: [orbis_jit_take(a, len)]. *)
Fixpoint take_last (len : Z) (arenas : list arena) : option (Z * list arena) :=
  match arenas with
  | [] => None
  | [a] =>
      match orbis_jit_take (spans a) len with
      | Some (at_, sp) => Some (at_, [mk_arena (base a) (size a) (phys a) (dedicated a) sp])
      | None => None
      end
  | a :: rest =>
      match take_last len rest with
      | Some (at_, rest') => Some (at_, a :: rest')
      | None => None
      end
  end.

Definition block_len (size : Z) : Z :=
  u64 (orbis_jit_round (if size =? 0 then 1 else size) ORBIS_JIT_ALIGN + ORBIS_JIT_ALIGN).

(** The header and the pointer handed out. *)
Definition hand_out (st : jit) (at_ len : Z) : jit * Z :=
  (set_heap st (store_le (heap st) at_ 8 len), at_ + ORBIS_JIT_ALIGN).

Definition orbis_jit_alloc (K : kernel) (fuel : nat) (st : jit) (size flags : Z)
    : outcome (jit * Z) :=
  let len := block_len size in
  match take_from K flags len (s_arena st) with
  | Some (at_, arenas) => Ok (hand_out (set_arenas st arenas) at_ len)
  | None =>
      '(st, grown) ← orbis_jit_grow K fuel st len flags;
      Ok (if grown : bool then
            match take_last len (s_arena st) with
            | Some (at_, arenas) => hand_out (set_arenas st arenas) at_ len
            | None => (st, 0)
            end
          else (st, 0))
  end.

Definition orbis_jit_alloc_at (K : kernel) (fuel : nat) (st : jit) (addr size : Z)
    : outcome (jit * Z) :=
  let len := orbis_jit_round (if size =? 0 then 1 else size) ORBIS_JIT_GRANULE in
  if (addr =? 0) || negb (Z.land addr (ORBIS_JIT_GRANULE - 1) =? 0) then Ok (st, 0)
  else if (ORBIS_JIT_MAX_ARENAS <=? length (s_arena st))%nat then Ok (st, 0)
  else
    '(h, found) ← orbis_jit_find_free K fuel (hist st) addr (u64 (addr + len)) len;
    let st := set_hist st h in
    if found =? 0 then Ok (st, 0)
    else
      let '(st, m) := orbis_jit_map K st addr len in
      match m with
      | None => Ok (st, 0)
      | Some (got, ph) =>
          Ok (set_arenas st (s_arena st ++ [mk_arena got len ph true []]), got)
      end.

(** What [orbis_jit_free] does once it has met the arena that holds [at_]:
    the replacement of that arena in the table, and the calls made. *)
Definition free_in (h : gmap Z Z) (a : arena) (at_ : Z) : list arena * list kcall :=
  if dedicated a then
    if negb (at_ =? base a) then ([a], [])
    else ([], [KRelease (phys a) (size a); KMunmap (base a) (size a)])
  else
    let blk := at_ - ORBIS_JIT_ALIGN in
    let len := load_le h blk 8 in
    if (len <? 2 * ORBIS_JIT_ALIGN) || negb (Z.land len (ORBIS_JIT_ALIGN - 1) =? 0)
       || (base a + size a <? u64 (blk + len)) then ([a], [])
    else
      match orbis_jit_give (spans a) blk len with
      | None => ([a], [])
      | Some sp => ([mk_arena (base a) (size a) (phys a) (dedicated a) sp], [])
      end.

Fixpoint free_from (h : gmap Z Z) (arenas : list arena) (at_ : Z) : list arena * list kcall :=
  match arenas with
  | [] => ([], [])
  | a :: rest =>
      if (at_ <? base a) || (base a + size a <=? at_) then
        let '(rest', cs) := free_from h rest at_ in (a :: rest', cs)
      else
        let '(a', cs) := free_in h a at_ in (a' ++ rest, cs)
  end.

Definition orbis_jit_free (st : jit) (addr : Z) : jit :=
  if addr =? 0 then st
  else
    let '(arenas, cs) := free_from (heap st) (s_arena st) addr in
    set_hist (set_arenas st arenas) (cs ++ hist st).

Definition orbis_jit_release_all (st : jit) : jit :=
  let h := foldl (fun h a => KRelease (phys a) (size a) :: KMunmap (base a) (size a) :: h)
                 (hist st) (s_arena st) in
  set_hist (set_arenas st []) h.

(** ** Promotion of a caller's own buffer *)

Definition covers (b e : Z) (p : promoted) : bool := (pr_base p <=? b) && (e <=? pr_end p).
Definition overlaps (b e : Z) (p : promoted) : bool := (b <? pr_end p) && (pr_base p <? e).

Definition widen (b e : Z) (p : promoted) : promoted :=
  mk_promoted (if b <? pr_base p then b else pr_base p)
              (if pr_end p <? e then e else pr_end p) (pr_ok p).

Definition promote_base (addr : Z) : Z := Z.land addr (u64 (Z.lnot (ORBIS_JIT_GRANULE - 1))).
Definition promote_end (addr len : Z) : Z := round_granule (u64 (addr + len)).

(** [orbis_jit_record] and a new entry of the table, if there is a slot. *)
Definition remember (st : jit) (b e : Z) (ok : bool) : jit :=
  let st := orbis_jit_record st ok in
  if (length (s_promoted st) <? ORBIS_JIT_MAX_PROMOTED)%nat
  then set_promoted st (s_promoted st ++ [mk_promoted b e ok]) else st.

Definition orbis_jit_protect (K : kernel) (st : jit) (addr len : Z) : jit * bool :=
  let b := promote_base addr in
  let e := promote_end addr len in
  match list_find (fun p => Is_true (covers b e p)) (s_promoted st) with
  | Some (_, p) => (st, pr_ok p)
  | None =>
      let overlap := list_find (fun p => Is_true (overlaps b e p)) (s_promoted st) in
      let rc := sceKernelMprotect K (hist st) b (u64 (e - b)) in
      let st := log st (KMprotect b (u64 (e - b)) rc) in
      if negb (rc =? 0) then (remember st b e false, false)
      else
        match overlap with
        | Some (i, p) => (set_promoted st (<[i := widen b e p]> (s_promoted st)), pr_ok p)
        | None =>
            let st := if s_first_stub st then st else fst (orbis_jit_should_log K st) in
            let '(st, ok) := orbis_jit_verify K st addr in
            (remember st b e ok, ok)
        end
  end.

End Jit.
Export Jit.
