(* ===== verification/JitArena.v ===== *)
(** Arena creation in [src/orbis_jit.c]: rounding, reach, the address search,
    and the ledger of kernel memory held by [orbis_jit_map]. *)
From Stdlib Require Import String.
From stdpp Require Import prelude gmap gmultiset list numbers.
From S2P Require Import Prelude JitSpans Jit.
Open Scope Z_scope.

(** ** Rounding *)

Lemma round_eq n k :
  0 <= k <= 64 -> orbis_jit_round n (2 ^ k) = u64 (n + (2 ^ k - 1)) / 2 ^ k * 2 ^ k.
Proof. intros. apply land_u64_lnot; [lia|apply u64_range]. Qed.

Lemma round_divide n k : 0 <= k <= 64 -> (2 ^ k | orbis_jit_round n (2 ^ k)).
Proof. intros. rewrite round_eq by done. apply Z.divide_factor_r. Qed.

Lemma round_up n k :
  0 <= k <= 64 -> 0 <= n -> n + (2 ^ k - 1) < 2 ^ 64 ->
  n <= orbis_jit_round n (2 ^ k) < n + 2 ^ k.
Proof.
  intros Hk Hn Hov. assert (0 < 2 ^ k) by (apply Z.pow_pos_nonneg; lia).
  rewrite round_eq, u64_small by lia.
  pose proof (Z.div_mod (n + (2 ^ k - 1)) (2 ^ k)). pose proof (Z.mod_pos_bound (n + (2 ^ k - 1)) (2 ^ k)).
  lia.
Qed.

Lemma round_range n k : 0 <= k <= 64 -> 0 <= orbis_jit_round n (2 ^ k) < 2 ^ 64.
Proof.
  intros Hk. rewrite round_eq by done. assert (0 < 2 ^ k) by (apply Z.pow_pos_nonneg; lia).
  pose proof (u64_range (n + (2 ^ k - 1))). set (x := u64 _) in *.
  pose proof (Z.div_mod x (2 ^ k)). pose proof (Z.mod_pos_bound x (2 ^ k)).
  pose proof (Z.div_pos x (2 ^ k)). nia.
Qed.

Lemma round_fixed n k : 0 <= k <= 64 -> 0 <= n < 2 ^ 64 - 2 ^ k -> (2 ^ k | n) ->
  orbis_jit_round n (2 ^ k) = n.
Proof.
  intros Hk Hn [q ->]. assert (0 < 2 ^ k) by (apply Z.pow_pos_nonneg; lia).
  rewrite round_eq, u64_small by lia.
  by rewrite Z.div_add_l, (Z.div_small (2 ^ k - 1)), Z.add_0_r by lia.
Qed.

Lemma granule_pow : ORBIS_JIT_GRANULE = 2 ^ 14. Proof. done. Qed.
Lemma align_pow : ORBIS_JIT_ALIGN = 2 ^ 6. Proof. done. Qed.

(** ** Bytes *)

Lemma load_le_ext h h' a n :
  (forall x, a <= x < a + Z.of_nat n -> peek h x = peek h' x) -> load_le h a n = load_le h' a n.
Proof.
  revert a. induction n as [|n IH]; intros a H; [done|]. cbn.
  rewrite (H a) by lia. f_equal. f_equal. apply IH. intros. apply H. lia.
Qed.

Lemma peek_insert_ne h a x v : x <> a -> peek (<[a := v]> h) x = peek h x.
Proof. intros. unfold peek. by rewrite lookup_insert_ne. Qed.

Lemma peek_store_le h a n v x :
  ~ (a <= x < a + Z.of_nat n) -> peek (store_le h a n v) x = peek h x.
Proof.
  revert h a v. induction n as [|n IH]; intros h a v Hx; [done|]. cbn.
  rewrite IH by lia. apply peek_insert_ne. lia.
Qed.

Lemma peek_store_bytes h a bs x :
  ~ (a <= x < a + Z.of_nat (length bs)) -> peek (store_bytes h a bs) x = peek h x.
Proof.
  revert h a. induction bs as [|b bs IH]; intros h a Hx; [done|]. cbn [store_bytes length] in *.
  rewrite IH by lia. apply peek_insert_ne. lia.
Qed.

(** A header reads back as the length stored. *)
Lemma load_store_le h a n v :
  0 <= v < 256 ^ Z.of_nat n -> load_le (store_le h a n v) a n = v.
Proof.
  revert h a v. induction n as [|n IH]; intros h a v Hv; [cbn in *; lia|].
  cbn [load_le store_le]. rewrite Nat2Z.inj_succ, Z.pow_succ_r in Hv by lia.
  rewrite IH by (split; [apply Z.div_pos; lia|apply Z.div_lt_upper_bound; lia]).
  rewrite peek_store_le by lia. unfold peek. rewrite lookup_insert_eq. cbn.
  pose proof (Z.div_mod v 256). lia.
Qed.

Arguments load_le : simpl never.
Arguments store_le : simpl never.
Arguments store_bytes : simpl never.

(** ** Reach *)

Lemma reachable_iff from len to len2
  (Ha : 0 <= from) (Hl : 0 <= len) (Hal : from + len < 2 ^ 64)
  (Hb : 0 <= to) (Hl2 : 0 <= len2) (Hbl : to + len2 < 2 ^ 64) :
  orbis_jit_reachable from len to len2 = true <->
  (forall p q, (from <= p <= from + len \/ to <= p <= to + len2) ->
     (from <= q <= from + len \/ to <= q <= to + len2) -> - 2 ^ 31 < q - p < 2 ^ 31).
Proof.
  unfold orbis_jit_reachable, ORBIS_JIT_REACH. rewrite (u64_small (to + len2)), (u64_small (from + len)) by lia.
  rewrite Z.ltb_lt. split.
  - intros Hr p q Hp Hq. revert Hr.
    destruct (Z.ltb_spec from to), (Z.ltb_spec (to + len2) (from + len));
      rewrite u64_small by lia; lia.
  - intros H. destruct (Z.ltb_spec from to), (Z.ltb_spec (to + len2) (from + len));
      rewrite u64_small by lia.
    + pose proof (H from (from + len)). lia.
    + pose proof (H from (to + len2)). lia.
    + pose proof (H to (from + len)). lia.
    + pose proof (H to (to + len2)). lia.
Qed.

(** [orbis_jit_reachable] answers yes exactly when every displacement
    between a byte (or the end) of one range and a byte (or the end) of the
    other fits in a signed 32-bit field, whichever way the jump goes. *)
Theorem orbis_jit_reachable_correct from len to len2
  (Ha : 0 <= from) (Hl : 0 <= len) (Hal : from + len < 2 ^ 64)
  (Hb : 0 <= to) (Hl2 : 0 <= len2) (Hbl : to + len2 < 2 ^ 64) :
  orbis_jit_reachable from len to len2 = true <->
  (forall p q, (from <= p <= from + len \/ to <= p <= to + len2) ->
     (from <= q <= from + len \/ to <= q <= to + len2) -> - 2 ^ 31 < q - p < 2 ^ 31).
Proof. by apply reachable_iff. Qed.

Lemma orbis_jit_reachable_witness :
  - 2 ^ 31 < 0x880000000 - 0x810000000 < 2 ^ 31 /\
  orbis_jit_reachable 0x800000000 0x20000000 0x880000000 0x4000 = false.
Proof.
  split.
  - apply (proj1 (orbis_jit_reachable_correct 0x801000000 0x10000000 0x880000000 0x1000
      ltac:(lia) ltac:(lia) ltac:(lia) ltac:(lia) ltac:(lia) ltac:(lia)) ltac:(reflexivity)); lia.
  - reflexivity.
Defined.

(** ** The search for a hole *)

Abbreviation G := ORBIS_JIT_GRANULE.

(** What the documentation of [sceKernelVirtualQuery] in the source says: it
    succeeds exactly on mapped addresses, the end it reports is the end of the
    mapping, and asking changes nothing.  [taken h g] is: [g] is mapped after
    the calls [h]. *)
Class QueryLaws (K : kernel) (taken : list kcall -> Z -> Prop) : Prop := {
  query_mapped h p : fst (sceKernelVirtualQuery K h p) = 0 <-> taken h p;
  query_end h p g : taken h p -> p <= g < snd (sceKernelVirtualQuery K h p) -> taken h g;
  query_end_bound h p : snd (sceKernelVirtualQuery K h p) <= 2 ^ 62;
  query_pure h p rc e g : taken (KQuery p rc e :: h) g <-> taken h g
}.

Definition is_query (c : kcall) : bool := match c with KQuery _ _ _ => true | _ => false end.

(** [h'] extends [h] by queries only. *)
Definition asked (h h' : list kcall) : Prop := exists qs, h' = qs ++ h /\ Forall is_query qs.

Lemma asked_refl h : asked h h.
Proof. by exists []. Qed.

Lemma asked_trans h1 h2 h3 : asked h1 h2 -> asked h2 h3 -> asked h1 h3.
Proof.
  intros (q1 & -> & H1) (q2 & -> & H2). exists (q2 ++ q1). rewrite <- app_assoc.
  split; [done|]. by apply Forall_app.
Qed.

Lemma asked_query h h' p rc e : asked h h' -> asked h (KQuery p rc e :: h').
Proof. intros (qs & -> & Hq). exists (KQuery p rc e :: qs). split; [done|]. by constructor. Qed.

Section FindFree.
Context (K : kernel) (taken : list kcall -> Z -> Prop) `{QL : !QueryLaws K taken}.

Lemma taken_asked h h' g : asked h h' -> taken h' g <-> taken h g.
Proof.
  intros (qs & -> & Hq). induction Hq as [|c qs Hc Hq IH]; [done|].
  destruct c; try done. cbn [app]. by rewrite query_pure.
Qed.

(** Every run of [len] bytes that starts in [[from, below)] has a mapped granule. *)
Definition blocked (h : list kcall) (from below len : Z) : Prop :=
  forall r, (G | r) -> from <= r < below -> exists g, (G | g) /\ r <= g < r + len /\ taken h g.

Record search_inv (h0 : list kcall) (p0 hi len : Z) (h : list kcall) (p run : Z) : Prop := {
  si_asked : asked h0 h;
  si_p : (G | p);
  si_run : (G | run);
  si_le : p0 <= run <= p;
  si_bound : p <= 2 ^ 62 + G;
  si_short : p - run < len;
  si_free g : (G | g) -> run <= g < p -> ~ taken h0 g;
  si_blocked : blocked h0 p0 run len
}.

Lemma granule_lt a b : (G | a) -> (G | b) -> a < b -> a + G <= b.
Proof. unfold ORBIS_JIT_GRANULE. intros [x ->] [y ->] ?. lia. Qed.

Lemma round_granule_up n : 0 <= n < 2 ^ 63 ->
  (G | round_granule n) /\ n <= round_granule n < n + G.
Proof.
  intros. unfold round_granule. rewrite granule_pow. split; [by apply round_divide|].
  apply round_up; lia.
Qed.

Lemma search_skip h0 p0 hi len h p run e p' :
  search_inv h0 p0 hi len h p run -> 0 <= p -> 0 < len -> taken h0 p ->
  p < p' -> (G | p') -> p' <= 2 ^ 62 + G ->
  (forall g, (G | g) -> p <= g < p' -> taken h0 g) ->
  search_inv h0 p0 hi len (KQuery p 0 e :: h) p' p'.
Proof.
  intros [I1 I2 I3 I4 I5 I6 I7 I8] Hp0 Hlen Ht Hlt Hg Hb Hall.
  constructor; try done; try lia.
  - by apply asked_query.
  - intros r Hr Hrp. destruct (Z.lt_ge_cases r run); [apply I8; lia || done|].
    destruct (Z.lt_ge_cases r p).
    + exists p. split; [done|]. split; [lia|done].
    + exists r. split; [done|]. split; [lia|]. apply Hall; [done|lia].
Qed.

Lemma search_free h0 p0 hi len h p run rc e :
  search_inv h0 p0 hi len h p run -> ~ taken h0 p -> p + G - run < len -> p + G <= 2 ^ 62 + G ->
  search_inv h0 p0 hi len (KQuery p rc e :: h) (p + G) run.
Proof.
  intros [I1 I2 I3 I4 I5 I6 I7 I8] Ht Hs Hb.
  constructor; try done.
  - by apply asked_query.
  - apply Z.divide_add_r; [done|apply Z.divide_refl].
  - unfold ORBIS_JIT_GRANULE. lia.
  - intros g Hg Hgp. destruct (Z.lt_ge_cases g p); [apply I7; done || lia|].
    assert (g = p) as ->; [|done].
    destruct (Z.eq_dec g p); [done|]. pose proof (granule_lt p g I2 Hg). lia.
Qed.

(** What the search answers: 0 when every run in the window is blocked, or a
    granule-aligned run inside the window, none of it mapped. *)
Definition search_result (h0 : list kcall) (lo hi len : Z) (x : list kcall * Z) : Prop :=
  let '(h, at_) := x in
  asked h0 h /\
  if at_ =? 0 then
    forall r, (G | r) -> lo <= r -> r + len <= hi ->
      exists g, (G | g) /\ r <= g < r + len /\ taken h0 g
  else
    (G | at_) /\ lo <= at_ /\ at_ + len <= hi /\
    forall g, (G | g) -> at_ <= g < at_ + len -> ~ taken h0 g.

Lemma div_granule_step a b : a + G <= b -> a / G + 1 <= b / G.
Proof.
  intros. rewrite <- (Z.div_add a 1 G) by done. apply Z.div_le_mono; [done|lia].
Qed.

(** One round of the walk: it keeps the invariant and moves up, or answers. *)
Lemma search_round h0 lo hi len h p run (p0 := round_granule lo) :
  0 < lo -> hi <= 2 ^ 62 -> lo < 2 ^ 62 -> 0 < len -> (G | len) ->
  search_inv h0 p0 hi len h p run -> p + G <= hi ->
  runs (let '(rc, end_) := sceKernelVirtualQuery K h p in
        let h := KQuery p rc end_ :: h in
        if rc =? 0 then
          let p := if p <? end_ then round_granule end_ else u64 (p + G) in
          Ok (inl (h, p, p))
        else
          let p := u64 (p + G) in
          if len <=? u64 (p - run) then Ok (inr (h, run)) else Ok (inl (h, p, run)))
    (fun x => match x with
     | inl (h', p', run') => search_inv h0 p0 hi len h' p' run' /\ p + G <= p'
     | inr r => search_result h0 lo hi len r
     end).
Proof.
  intros Hlo Hhi Hlo2 Hlen HGl Hinv Hp. pose proof Hinv as [I1 I2 I3 I4 I5 I6 I7 I8].
  destruct (round_granule_up lo ltac:(lia)) as [Hr1 Hr2]. fold p0 in Hr1, Hr2.
  assert (HG : G = 16384) by done.
  destruct (sceKernelVirtualQuery K h p) as [rc e] eqn:Hq.
  assert (Hm : rc = 0 <-> taken h0 p).
  { rewrite <- (taken_asked h0 h) by done. rewrite <- query_mapped, Hq. done. }
  pose proof (query_end_bound (K := K) h p) as He. rewrite Hq in He. cbn in He.
  assert (HGG : (G | p + G)) by (apply Z.divide_add_r; [done|apply Z.divide_refl]).
  destruct (Z.eqb_spec rc 0) as [->|Hrc].
  - assert (Ht : taken h0 p) by by apply Hm.
    destruct (Z.ltb_spec p e).
    + destruct (round_granule_up e ltac:(lia)) as [He1 He2]. cbn.
      assert (p + G <= round_granule e) by (apply granule_lt; done || lia).
      split; [|done].
      apply (search_skip h0 p0 hi len h p run e _ Hinv); try done; try lia.
      intros g Hg Hge. rewrite <- (taken_asked h0 h) by done.
      apply (query_end h p); [exact (proj2 (taken_asked h0 h p I1) Ht)|]. rewrite Hq. cbn.
      destruct (Z.lt_ge_cases g e); [lia|].
      destruct (Z.eq_dec g e); [|pose proof (granule_lt g (round_granule e) Hg He1); lia].
      subst. pose proof (granule_lt e (round_granule e) Hg He1). lia.
    + rewrite u64_small by lia. cbn. split; [|lia].
      apply (search_skip h0 p0 hi len h p run e _ Hinv); try done; try lia.
      intros g Hg Hgp. destruct (Z.eq_dec g p) as [->|]; [done|].
      pose proof (granule_lt p g I2 Hg). lia.
  - assert (Ht : ~ taken h0 p) by (by rewrite <- Hm).
    cbv beta zeta iota. rewrite (u64_small (p + G)) by lia. rewrite u64_small by lia.
    destruct (Z.leb_spec len (p + G - run)); cbn.
    + split; [by apply asked_query|]. destruct (Z.eqb_spec run 0); [lia|].
      assert (len = p + G - run) as Heq.
      { destruct (Z.eq_dec len (p + G - run)); [done|].
        assert (Hd : (G | run + len)) by by apply Z.divide_add_r.
        pose proof (granule_lt p (run + len) I2 Hd). lia. }
      split_and!; [done|lia|lia|]. intros g Hg Hgr.
      destruct (Z.lt_ge_cases g p); [apply I7; done || lia|].
      destruct (Z.eq_dec g p) as [->|]; [done|]. pose proof (granule_lt p g I2 Hg). lia.
    + split; [|lia]. by apply search_free; lia || done.
Qed.

Lemma find_free_ok h0 lo hi len fuel :
  0 < lo -> hi <= 2 ^ 62 -> lo < 2 ^ 62 -> 0 < len -> (G | len) ->
  (Z.to_nat ((hi - lo) / G + 1) < fuel)%nat ->
  runs (orbis_jit_find_free K fuel h0 lo hi len) (search_result h0 lo hi len).
Proof.
  intros Hlo Hhi Hlo2 Hlen HGl Hf. unfold orbis_jit_find_free.
  destruct (round_granule_up lo ltac:(lia)) as [Hr1 Hr2].
  assert (HG : G = 16384) by done.
  apply (loop_total (fun '(h, p, run) => search_inv h0 (round_granule lo) hi len h p run)
    (fun '(h, p, run) => Z.to_nat ((hi - p) / G + 1))).
  - intros [[h p] run] Hinv. pose proof Hinv as [I1 I2 I3 I4 I5 I6 I7 I8].
    assert (Hu : u64 (p + G) = p + G) by (apply u64_small; lia).
    destruct (Z.leb_spec (u64 (p + G)) hi).
    + eapply runs_mono; [apply (search_round h0 lo hi len h p run); done || lia|].
      intros [[[h' p'] run']|r]; [|done]. intros [Hi' Hpp]. split; [done|].
      pose proof (div_granule_step (hi - p') (hi - p) ltac:(lia)).
      pose proof (Z.div_pos (hi - p) G ltac:(lia) ltac:(lia)). lia.
    + cbn. split; [done|]. intros r Hr Hrl Hrh.
      destruct (Z.lt_ge_cases r run); [apply I8; [done|]|].
      * split; [|done]. destruct (Z.lt_ge_cases r (round_granule lo)); [|done].
        pose proof (granule_lt r (round_granule lo) Hr Hr1). lia.
      * assert (Hd : (G | run + len)) by by apply Z.divide_add_r.
        pose proof (granule_lt p (run + len) I2 Hd). lia.
  - constructor; try done; try lia.
    all: first [apply asked_refl | intros ? _ ?; lia].
  - pose proof (Z.div_le_mono (hi - round_granule lo) (hi - lo) G ltac:(lia) ltac:(lia)). lia.
Qed.

(** The search always ends, and its answer can be trusted for a fixed
    mapping: a run it returns is granule-aligned, inside the window, and no
    granule of it is mapped; 0 means that every run of the window has a
    mapped granule.  Nothing but queries reaches the kernel. *)
Theorem orbis_jit_find_free_correct h lo hi len fuel
  (Hlo : 0 < lo < 2 ^ 62) (Hhi : hi <= 2 ^ 62) (Hlen : 0 < len) (HG : (G | len))
  (Hfuel : (Z.to_nat ((hi - lo) / G + 1) < fuel)%nat) :
  exists h' at_, orbis_jit_find_free K fuel h lo hi len = Ok (h', at_) /\ asked h h' /\
    (at_ = 0 -> forall r, (G | r) -> lo <= r -> r + len <= hi ->
       exists g, (G | g) /\ r <= g < r + len /\ taken h g) /\
    (at_ <> 0 -> (G | at_) /\ lo <= at_ /\ at_ + len <= hi /\
       forall g, (G | g) -> at_ <= g < at_ + len -> ~ taken h g).
Proof.
  destruct (runs_elim _ _ (find_free_ok h lo hi len fuel ltac:(lia) Hhi ltac:(lia) Hlen HG Hfuel))
    as ([h' at_] & Hr & Ha & Hs).
  exists h', at_. split; [done|]. split; [done|].
  destruct (Z.eqb_spec at_ 0); split; intros; done || by apply Hs.
Qed.

End FindFree.

(** ** The ledger: direct memory and mappings held

    Direct memory has two handles, the physical offset and the address, and
    both must be given back. *)
Abbreviation memory_set := (gmultiset (Z * Z)).

Fixpoint held_direct (h : list kcall) : memory_set :=
  match h with
  | [] => ∅
  | KAllocDirect len rc ph :: h => if rc =? 0 then {[+ (ph, len) +]} ⊎ held_direct h else held_direct h
  | KRelease ph len :: h => held_direct h ∖ {[+ (ph, len) +]}
  | _ :: h => held_direct h
  end.

Fixpoint held_maps (h : list kcall) : memory_set :=
  match h with
  | [] => ∅
  | KMap _ len _ rc got :: h =>
      if (rc =? 0) && negb (got =? 0) then {[+ (got, len) +]} ⊎ held_maps h else held_maps h
  | KMunmap at_ len :: h => held_maps h ∖ {[+ (at_, len) +]}
  | _ :: h => held_maps h
  end.

Definition apart_from (h : list kcall) (b l : Z) : Prop :=
  forall b' l', (b', l') ∈ held_maps h -> b + l <= b' \/ b' + l' <= b.

Definition good_range (b l : Z) : Prop :=
  (G | b) /\ (G | l) /\ 0 < b /\ 0 < l /\ b + l <= 2 ^ 47.

(** A history in which nothing was mapped over a mapping held, nothing
    unmapped or released that was not held. *)
Fixpoint sane (h : list kcall) : Prop :=
  match h with
  | [] => True
  | KMap _ len _ rc got :: h =>
      (rc = 0 -> got <> 0 -> apart_from h got len /\ good_range got len) /\ sane h
  | KMunmap at_ len :: h => (at_, len) ∈ held_maps h /\ sane h
  | KRelease ph len :: h => (ph, len) ∈ held_direct h /\ sane h
  | _ :: h => sane h
  end.

(** The mapper's documented behaviour: a mapping it grants lies in user space
    on a granule boundary; one whose address it chose does not cover anything
    mapped; and what the program holds is mapped. *)
Class MapLaws (K : kernel) (taken : list kcall -> Z -> Prop) : Prop := {
  map_user h at_ len ph got :
    sceKernelMapNamedDirectMemory K h at_ len ph = (0, got) -> got <> 0 ->
    (G | got) /\ 0 < got /\ got + len <= 2 ^ 47;
  map_chosen h at_ len ph got g :
    sceKernelMapNamedDirectMemory K h at_ len ph = (0, got) -> got <> 0 -> got <> at_ ->
    got <= g < got + len -> ~ taken h g;
  held_taken h b l g : sane h -> (b, l) ∈ held_maps h -> b <= g < b + l -> taken h g
}.

Lemma held_range h b l : sane h -> (b, l) ∈ held_maps h -> good_range b l.
Proof.
  induction h as [|c h IH]; [cbn; multiset_solver|].
  destruct c; cbn [sane held_maps]; try (intros; by apply IH).
  - intros [Hm Hs]. destruct (Z.eqb_spec rc 0), (Z.eqb_spec got 0); cbn [andb negb]; try by apply IH.
    intros [Hin|Hin]%gmultiset_elem_of_disj_union; [|by apply IH].
    apply gmultiset_elem_of_singleton in Hin as [= -> ->]. by apply Hm.
  - intros [_ Hs] Hin. apply IH; [done|]. multiset_solver.
  - intros [_ Hs] Hin. by apply IH.
Qed.

Section Ledger.
Context (K : kernel) (taken : list kcall -> Z -> Prop) `{ML : !MapLaws K taken}.

Lemma free_apart h b l :
  sane h -> 0 < l -> (G | b) -> (forall g, (G | g) -> b <= g < b + l -> ~ taken h g) ->
  apart_from h b l.
Proof.
  intros Hs Hl Hb Hfree b' l' Hin. pose proof (held_range h b' l' Hs Hin) as (Hb' & _ & _ & Hl' & _).
  destruct (Z.le_gt_cases (b + l) b'); [by left|].
  destruct (Z.le_gt_cases (b' + l') b); [by right|]. exfalso.
  destruct (Z.le_ge_cases b b').
  - apply (Hfree b' Hb'); [lia|]. by apply (held_taken h b' l'); [..|lia].
  - apply (Hfree b Hb); [lia|]. by apply (held_taken h b' l'); [..|lia].
Qed.

Lemma map_apart h at_ len ph got :
  sane h -> 0 < len -> (at_ <> 0 -> apart_from h at_ len) ->
  sceKernelMapNamedDirectMemory K h at_ len ph = (0, got) -> got <> 0 -> apart_from h got len.
Proof.
  intros Hs Hlen Hat Hm Hg. destruct (Z.eq_dec got at_) as [->|Hne]; [by apply Hat|].
  destruct (map_user h at_ len ph got Hm Hg) as (HG & _).
  apply free_apart; [done..|]. intros g _ Hgr. by eapply map_chosen.
Qed.

End Ledger.

(** What is held keeps its bytes from [st] to [st']. *)
Definition heap_frame (st st' : jit) : Prop :=
  forall b l x, (b, l) ∈ held_maps (hist st) -> b <= x < b + l ->
    peek (heap st') x = peek (heap st) x.

Lemma should_log_fields K st :
  let st' := fst (orbis_jit_should_log K st) in
  s_arena st' = s_arena st /\ s_state st' = s_state st /\ s_promoted st' = s_promoted st /\
  heap st' = heap st /\ hist st' = hist st.
Proof. unfold orbis_jit_should_log. cbn. by destruct (s_verbose st <? 0). Qed.

Lemma verify_fields K st at_ st' ok :
  orbis_jit_verify K st at_ = (st', ok) ->
  s_arena st' = s_arena st /\ s_state st' = s_state st /\ s_promoted st' = s_promoted st /\
  heap st' = store_bytes (heap st) at_ stub /\
  exists got, hist st' = KStub at_ got :: hist st /\ ok = (got =? 0x00c0ffee).
Proof.
  unfold orbis_jit_verify. cbv zeta.
  set (st1 := set_heap st (store_bytes (heap st) at_ stub)).
  set (st2 := if s_first_stub st1 then st1 else fst (orbis_jit_should_log K st1)).
  assert (H : s_arena st2 = s_arena st /\ s_state st2 = s_state st /\
    s_promoted st2 = s_promoted st /\ heap st2 = heap st1 /\ hist st2 = hist st).
  { subst st2. destruct (s_first_stub st1); [done|]. apply (should_log_fields K st1). }
  clearbody st2. intros [= <- <-].
  destruct H as (H1 & H2 & H3 & H4 & H5). cbn [s_arena s_state s_promoted heap hist log set_first_stub].
  rewrite H1, H2, H3, H4, H5. split_and!; try done. by eexists.
Qed.

(** Success adds one allocation and one mapping to the ledger, failure leaves
    it as it was; either way the history stays sane. *)
Definition map_result (st : jit) (at_ len : Z) (x : jit * option (Z * Z)) : Prop :=
  let '(st', m) := x in
  sane (hist st') /\ s_arena st' = s_arena st /\ s_promoted st' = s_promoted st /\
  heap_frame st st' /\
  match m with
  | None => held_maps (hist st') = held_maps (hist st) /\
            held_direct (hist st') = held_direct (hist st)
  | Some (got, ph) =>
      good_range got len /\ apart_from (hist st) got len /\ (at_ <> 0 -> got = at_) /\
      held_maps (hist st') = {[+ (got, len) +]} ⊎ held_maps (hist st) /\
      held_direct (hist st') = {[+ (ph, len) +]} ⊎ held_direct (hist st)
  end.

Lemma undo_one (x : Z * Z) (m : memory_set) : ({[+ x +]} ⊎ m) ∖ {[+ x +]} = m.
Proof. multiset_solver. Qed.

Lemma elem_one (x : Z * Z) (m : memory_set) : x ∈ {[+ x +]} ⊎ m.
Proof. multiset_solver. Qed.

(** [st2] is [st] holding one more allocation, mapped at [got]. *)
Record holding (st : jit) (len ph got : Z) (st2 : jit) : Prop := {
  hd_sane : sane (hist st2);
  hd_arena : s_arena st2 = s_arena st;
  hd_promoted : s_promoted st2 = s_promoted st;
  hd_heap : heap_frame st st2;
  hd_maps : held_maps (hist st2) = {[+ (got, len) +]} ⊎ held_maps (hist st);
  hd_direct : held_direct (hist st2) = {[+ (ph, len) +]} ⊎ held_direct (hist st)
}.

Lemma holding_protect st len ph got st2 rc :
  holding st len ph got st2 -> holding st len ph got (log st2 (KMprotect got len rc)).
Proof. by intros [? ? ? ? ? ?]. Qed.

Lemma holding_verify K st len ph got st2 st3 ok :
  holding st len ph got st2 -> apart_from (hist st) got len -> 6 <= len ->
  orbis_jit_verify K st2 got = (st3, ok) -> holding st len ph got st3.
Proof.
  intros [H1 H2 H3 H4 H5 H6] Hap Hlen Hv.
  destruct (verify_fields _ _ _ _ _ Hv) as (V1 & V2 & V3 & V4 & g & V5 & _).
  constructor; rewrite ?V1, ?V3, ?V5; try done.
  intros b l x Hin Hx. rewrite V4, peek_store_bytes.
  - by apply (H4 b l).
  - destruct (Hap b l Hin); cbn; lia.
Qed.

(** Unmapping and releasing it again leaves the ledger as it was. *)
Lemma holding_undo st at_ len ph got st2 :
  holding st len ph got st2 ->
  map_result st at_ len (log (log st2 (KMunmap got len)) (KRelease ph len), None).
Proof.
  intros [H1 H2 H3 H4 H5 H6]. unfold map_result. cbn [hist log s_arena s_promoted].
  cbn [sane held_direct held_maps]. rewrite H5, H6, !undo_one.
  split_and!; try done; apply elem_one.
Qed.

Lemma map_result_record st at_ len st2 m ok :
  map_result st at_ len (st2, m) -> map_result st at_ len (orbis_jit_record st2 ok, m).
Proof. done. Qed.

Section MapSpec.
Context (K : kernel) (taken : list kcall -> Z -> Prop) `{ML : !MapLaws K taken}.

Lemma map_ok st at_ len :
  sane (hist st) -> 0 < len -> (G | len) -> (at_ <> 0 -> apart_from (hist st) at_ len) ->
  map_result st at_ len (orbis_jit_map K st at_ len).
Proof.
  intros Hs Hlen HG Hat. unfold orbis_jit_map.
  destruct (sceKernelAllocateDirectMemory K (hist st) len) as [rc ph].
  destruct (Z.eqb_spec rc 0) as [->|Hrc]; cbn [negb].
  2: { split_and!; try done; cbn; by destruct (Z.eqb_spec rc 0). }
  set (h1 := KAllocDirect len 0 ph :: hist st).
  change (hist (log st (KAllocDirect len 0 ph))) with h1.
  destruct (sceKernelMapNamedDirectMemory K h1 at_ len ph) as [rc got] eqn:Hm.
  set (st2 := log _ (KMap at_ len ph rc got)).
  assert (Hmis : map_result st at_ len (log st2 (KRelease ph len), None) \/ rc = 0 /\ got <> 0).
  { destruct (decide (rc = 0 /\ got <> 0)) as [|Hn]; [by right|left].
    unfold map_result, st2. cbn [hist log s_arena s_promoted sane held_direct held_maps].
    change (0 =? 0) with true. cbv iota.
    replace ((rc =? 0) && negb (got =? 0)) with false by (symmetry; lia).
    rewrite undo_one. split_and!; try done; [apply elem_one|tauto]. }
  destruct (decide (rc = 0 /\ got <> 0)) as [[-> Hg]|Hn].
  2: { destruct Hmis as [Hmis|]; [|done]. replace (negb (rc =? 0) || (got =? 0)) with true by lia.
       by replace ((rc =? 0) && negb (got =? 0)) with false by lia. }
  assert (Hap : apart_from (hist st) got len).
  { apply (map_apart K taken h1 at_ len ph got); done. }
  assert (Hh : holding st len ph got st2).
  { destruct (map_user h1 at_ len ph got Hm Hg) as (M1 & M2 & M3).
    assert (Hrng : good_range got len) by done.
    constructor; unfold st2; cbn [hist log s_arena s_promoted sane held_direct held_maps]; try done.
    by rewrite (proj2 (Z.eqb_neq got 0) Hg). }
  rewrite (proj2 (Z.eqb_neq got 0) Hg). cbn [Z.eqb negb orb andb].
  destruct (negb (at_ =? 0) && negb (got =? at_)) eqn:Hfix; [by apply holding_undo|].
  pose proof (holding_protect _ _ _ _ _ (sceKernelMprotect K (hist st2) got len) Hh) as Hp.
  destruct (negb (sceKernelMprotect K (hist st2) got len =? 0)).
  { by apply map_result_record, holding_undo. }
  destruct (orbis_jit_verify K _ got) as [st3 ok] eqn:Hv.
  pose proof (holding_verify K _ _ _ _ _ st3 ok Hp Hap) as Hh3.
  destruct (held_range (hist st2) got len) as (R1 & R2 & R3 & R4 & R5);
    [apply Hh|rewrite (hd_maps _ _ _ _ _ Hh); apply elem_one|].
  specialize (Hh3 ltac:(destruct R2 as [q ->]; unfold ORBIS_JIT_GRANULE in *; lia) Hv).
  destruct ok; cbn [negb].
  - apply map_result_record. destruct Hh3. split_and!; try done. lia.
  - by apply map_result_record, holding_undo.
Qed.
End MapSpec.
