(* ===== verification/JitSafety.v ===== *)
(** The contract of the allocator of [src/orbis_jit.c] with its clients: the
    invariant that ties the arena table, the block headers and the kernel
    ledger to the blocks handed out, and its preservation by every operation. *)
From stdpp Require Import prelude gmap gmultiset list numbers.
From S2P Require Import Prelude JitSpans Jit JitArena.
Open Scope Z_scope.

(** ** What a client holds *)

(** A block: the pointer handed out and the bytes [[bk_lo, bk_lo+bk_len)]
    that belong to it, its header included. *)
Record block := mk_block { bk_ptr : Z; bk_lo : Z; bk_len : Z }.

Definition blocks_apart (b c : block) : Prop :=
  bk_lo b + bk_len b <= bk_lo c \/ bk_lo c + bk_len c <= bk_lo b.

Definition arenas_apart (a b : arena) : Prop :=
  base a + size a <= base b \/ base b + size b <= base a.

#[export] Instance blocks_apart_sym : Symmetric blocks_apart.
Proof. intros b c [?|?]; [by right|by left]. Qed.
#[export] Instance arenas_apart_sym : Symmetric arenas_apart.
Proof. intros b c [?|?]; [by right|by left]. Qed.

Definition arena_ok (a : arena) : Prop :=
  good_range (base a) (size a) /\
  (dedicated a = false ->
     spans_ok (base a) (base a + size a) (spans a) /\ spans_aligned ORBIS_JIT_ALIGN (base a) (spans a)).

(** Block [b] lives in arena [a]: none of its bytes is free and its header
    holds its length; a dedicated arena is one block. *)
Definition block_in (h : gmap Z Z) (a : arena) (b : block) : Prop :=
  if dedicated a then b = mk_block (base a) (base a) (size a)
  else
    bk_ptr b = bk_lo b + ORBIS_JIT_ALIGN /\ 2 * ORBIS_JIT_ALIGN <= bk_len b /\
    (ORBIS_JIT_ALIGN | bk_len b) /\ (ORBIS_JIT_ALIGN | bk_lo b - base a) /\
    block_live (base a) (base a + size a) (spans a) (bk_lo b) (bk_len b) /\
    load_le h (bk_lo b) 8 = bk_len b.

Definition maps_of (arenas : list arena) : memory_set :=
  list_to_set_disj (map (fun a => (base a, size a)) arenas).
Definition direct_of (arenas : list arena) : memory_set :=
  list_to_set_disj (map (fun a => (phys a, size a)) arenas).

(** The arena table against the kernel's ledger. *)
Record table_ok (arenas : list arena) (h : list kcall) : Prop := {
  tb_sane : sane h;
  tb_maps : held_maps h = maps_of arenas;
  tb_direct : held_direct h = direct_of arenas;
  tb_count : (length arenas <= ORBIS_JIT_MAX_ARENAS)%nat;
  tb_arenas : Forall arena_ok arenas;
  tb_apart : pairwise arenas_apart arenas
}.

(** The invariant of the module, with the blocks its clients hold. *)
Record jit_inv (st : jit) (live : list block) : Prop := {
  inv_table : table_ok (s_arena st) (hist st);
  inv_live : Forall (fun b => exists a, a ∈ s_arena st /\ block_in (heap st) a b) live;
  inv_apart : pairwise blocks_apart live
}.

(** The blocks behind the pointers of [orbis_jit_alloc] and [orbis_jit_alloc_at]. *)
Definition shared_block (p n : Z) : block := mk_block p (p - ORBIS_JIT_ALIGN) (block_len n).
Definition dedicated_block (p n : Z) : block :=
  mk_block p p (orbis_jit_round (if n =? 0 then 1 else n) ORBIS_JIT_GRANULE).

Definition user_byte (b : block) (x : Z) : Prop := bk_ptr b <= x < bk_lo b + bk_len b.

Lemma initial_inv : jit_inv initial [].
Proof. do 2 constructor; cbn; done || lia || by constructor. Qed.

(** ** Frames *)

Lemma block_in_bounds h a b :
  arena_ok a -> block_in h a b ->
  base a <= bk_lo b /\ bk_lo b + bk_len b <= base a + size a /\ 0 < bk_len b /\
  bk_lo b <= bk_ptr b < bk_lo b + bk_len b.
Proof.
  intros [(G1 & G2 & G3 & G4 & G5) _]. unfold block_in, ORBIS_JIT_ALIGN.
  destruct (dedicated a); [intros ->; cbn; lia|].
  intros (H1 & H2 & H3 & H4 & (H5 & H6 & H7 & _) & H8). lia.
Qed.

(** Only the bytes of the header of a suballocated block matter to [block_in]. *)
Lemma block_in_frame h h' a b :
  (forall x, bk_lo b <= x < bk_ptr b -> peek h' x = peek h x) ->
  block_in h a b -> block_in h' a b.
Proof.
  intros Hp. unfold block_in. destruct (dedicated a); [done|].
  intros (H1 & H2 & H3 & H4 & H5 & H6). split_and!; try done.
  rewrite <- H6. apply load_le_ext. intros x Hx. apply Hp. rewrite H1. unfold ORBIS_JIT_ALIGN. lia.
Qed.

Lemma elem_maps_of a arenas : a ∈ arenas -> (base a, size a) ∈ maps_of arenas.
Proof.
  intros Ha. unfold maps_of. apply elem_of_list_to_set_disj.
  apply (list_elem_of_fmap_2 (fun a => (base a, size a))). done.
Qed.

Lemma maps_of_elem b l arenas :
  (b, l) ∈ maps_of arenas -> exists a, a ∈ arenas /\ b = base a /\ l = size a.
Proof.
  unfold maps_of. rewrite elem_of_list_to_set_disj. intros Hin.
  apply (list_elem_of_fmap_1 (fun a => (base a, size a))) in Hin as (a & [= -> ->] & Ha). eauto.
Qed.

(** ** One arena of the table changes its free list *)

Definition with_spans (a : arena) (sp : list span) : arena :=
  mk_arena (base a) (size a) (phys a) (dedicated a) sp.

Lemma table_with_spans pre a post sp h :
  table_ok (pre ++ a :: post) h -> arena_ok (with_spans a sp) ->
  table_ok (pre ++ with_spans a sp :: post) h.
Proof.
  intros [T1 T2 T3 T4 T5 T6] Ha. constructor; try done.
  - rewrite T2. unfold maps_of. by rewrite !map_app.
  - rewrite T3. unfold direct_of. by rewrite !map_app.
  - rewrite length_app in *. done.
  - apply Forall_app in T5 as [? [_ ?]%Forall_cons_iff]. apply Forall_app. split; [done|]. by constructor.
  - apply pairwise_middle in T6 as [T6 T7]; [|apply _]. apply pairwise_middle; [apply _|]. done.
Qed.

(** A block of another arena shares no byte with arena [a]. *)
Lemma block_elsewhere h pre a post a' b :
  Forall arena_ok (pre ++ a :: post) -> pairwise arenas_apart (pre ++ a :: post) ->
  a' ∈ pre ++ post -> block_in h a' b ->
  bk_lo b + bk_len b <= base a \/ base a + size a <= bk_lo b.
Proof.
  intros Hok Hap Hin Hb. apply pairwise_middle in Hap as [Hap _]; [|apply _].
  rewrite Stdlib.Lists.List.Forall_forall in Hap. pose proof (Hap a' (proj1 (list_elem_of_In _ _) Hin)) as Hd.
  assert (Ha' : arena_ok a').
  { rewrite Stdlib.Lists.List.Forall_forall in Hok. apply Hok, list_elem_of_In.
    rewrite elem_of_app, elem_of_cons. apply elem_of_app in Hin. tauto. }
  destruct (block_in_bounds _ _ _ Ha' Hb) as (? & ? & ? & _). unfold arenas_apart in Hd. lia.
Qed.

Lemma elem_middle {A} (x y : A) pre post : x ∈ pre ++ y :: post <-> x = y \/ x ∈ pre ++ post.
Proof. rewrite !elem_of_app, elem_of_cons. tauto. Qed.

Lemma table_arena_ok arenas h a : table_ok arenas h -> a ∈ arenas -> arena_ok a.
Proof. intros [_ _ _ _ H _] Ha. rewrite List.Forall_forall in H. by apply H, list_elem_of_In. Qed.

(** Free bytes and the bytes of a live block are disjoint ranges. *)
Lemma live_free_apart lo hi sp b l at_ len :
  block_live lo hi sp b l -> 0 < len -> (forall x, at_ <= x < at_ + len -> free_at sp x) ->
  b + l <= at_ \/ at_ + len <= b.
Proof.
  intros (Hl & _ & _ & Hlive) Hlen Hfree.
  destruct (Z.le_gt_cases (b + l) at_); [by left|]. destruct (Z.le_gt_cases (at_ + len) b); [by right|].
  exfalso. destruct (Z.le_ge_cases b at_).
  - apply (Hlive at_); [lia|]. apply Hfree. lia.
  - apply (Hlive b); [lia|]. apply Hfree. lia.
Qed.

Lemma block_live_mono lo hi sp sp' b l :
  (forall x, b <= x < b + l -> free_at sp' x -> free_at sp x) ->
  block_live lo hi sp b l -> block_live lo hi sp' b l.
Proof.
  intros Hf (H1 & H2 & H3 & H4). split_and!; try done. intros x Hx Hx'. by apply (H4 x Hx), Hf.
Qed.

(** The free list of one arena changes and nothing else: a block stays where
    it was if none of its bytes becomes free and its header is not touched. *)
Lemma block_in_update h h' pre a post sp b :
  (forall x, bk_lo b <= x < bk_ptr b -> peek h' x = peek h x) ->
  (block_in h a b -> forall x, bk_lo b <= x < bk_lo b + bk_len b -> free_at sp x -> free_at (spans a) x) ->
  (exists a', a' ∈ pre ++ a :: post /\ block_in h a' b) ->
  exists a', a' ∈ pre ++ with_spans a sp :: post /\ block_in h' a' b.
Proof.
  intros Hp Hf (a' & Hin & Hb). apply elem_middle in Hin as [->|Hin].
  - exists (with_spans a sp). split; [apply elem_middle; by left|].
    apply (block_in_frame h); [done|]. specialize (Hf Hb). revert Hb. unfold block_in. cbn.
    destruct (dedicated a); [done|]. intros (H1 & H2 & H3 & H4 & H5 & H6). split_and!; try done.
    by apply (block_live_mono _ _ (spans a)).
  - exists a'. split; [apply elem_middle; by right|]. by apply (block_in_frame h).
Qed.

Lemma live_bounds arenas h hp live :
  table_ok arenas h -> Forall (fun b => exists a, a ∈ arenas /\ block_in hp a b) live ->
  Forall (fun b => bk_lo b <= bk_ptr b < bk_lo b + bk_len b) live.
Proof.
  intros Ht Hl. eapply Forall_impl; [|exact Hl]. intros b (a & Hin & Hb).
  by apply (block_in_bounds hp a b (table_arena_ok _ _ _ Ht Hin)).
Qed.

(** A free range of one arena is apart from every live block. *)
Lemma free_range_apart pre a post h hp live at_ len :
  table_ok (pre ++ a :: post) h -> dedicated a = false -> 0 < len ->
  Forall (fun b => exists a', a' ∈ pre ++ a :: post /\ block_in hp a' b) live ->
  base a <= at_ -> at_ + len <= base a + size a ->
  (forall x, at_ <= x < at_ + len -> free_at (spans a) x) ->
  Forall (fun b => bk_lo b + bk_len b <= at_ \/ at_ + len <= bk_lo b) live.
Proof.
  intros [_ _ _ _ Ht1 Ht2] Hd Hlen Hl H1 H2 Hf. eapply Forall_impl; [|exact Hl].
  intros b (a' & Hin & Hb). apply elem_middle in Hin as [->|Hin].
  - unfold block_in in Hb. rewrite Hd in Hb. destruct Hb as (_ & _ & _ & _ & Hb & _).
    by eapply live_free_apart.
  - destruct (block_elsewhere _ _ _ _ _ _ Ht1 Ht2 Hin Hb); [left|right]; lia.
Qed.

(** A block taken from an arena of the table and handed out. *)
Lemma inv_take st live pre a post len at_ sp :
  jit_inv st live -> s_arena st = pre ++ a :: post -> dedicated a = false ->
  2 * ORBIS_JIT_ALIGN <= len < 2 ^ 64 -> (ORBIS_JIT_ALIGN | len) ->
  orbis_jit_take (spans a) len = Some (at_, sp) ->
  jit_inv (fst (hand_out (set_arenas st (pre ++ with_spans a sp :: post)) at_ len))
    (mk_block (at_ + ORBIS_JIT_ALIGN) at_ len :: live).
Proof.
  intros [Ht Hl Ha] Hst Hd Hlen Hal Htk. rewrite Hst in *.
  assert (Hina : a ∈ pre ++ a :: post) by (apply elem_middle; by left).
  pose proof (table_arena_ok _ _ _ Ht Hina) as Hok.
  destruct Hok as [Hrng Hsp]. destruct (Hsp Hd) as [Hs1 Hs2].
  assert (Hpos : 0 < len) by (unfold ORBIS_JIT_ALIGN in *; lia).
  destruct (take_ok _ _ _ _ _ _ Hpos Hs1 Htk) as (K1 & K2 & K3 & _ & K5).
  destruct (take_aligned _ _ _ _ _ _ Hal Hs2 Htk) as [K6 K7].
  assert (Htab : table_ok (pre ++ with_spans a sp :: post) (hist st))
    by (apply table_with_spans; [done|by split]).
  pose proof (live_bounds _ _ _ _ Ht Hl) as Hbnd.
  assert (Hap := free_range_apart pre a post _ _ live at_ len Ht Hd Hpos Hl K2 K3
    (fun x Hx => proj2 (K5 x) (or_intror Hx))).
  constructor; [done| |].
  - constructor.
    + exists (with_spans a sp). split; [apply elem_middle; by left|]. unfold block_in. cbn. rewrite Hd.
      split_and!; try done; try lia; [|apply (load_store_le _ _ 8);
        change (256 ^ Z.of_nat 8) with (2 ^ 64); unfold ORBIS_JIT_ALIGN in Hlen; lia].
      split_and!; try done. intros x Hx. exact (take_disjoint _ _ _ _ _ _ x Hpos Hs1 Htk Hx).
    + eapply Forall_impl; [|exact (Forall_and Hl (Forall_and Hap Hbnd))].
      intros b (Hb & Hba & Hbb). apply (block_in_update (heap st) _ pre a post sp b); [| |done].
      * intros x Hx. apply peek_store_le. unfold ORBIS_JIT_ALIGN in Hlen. lia.
      * intros _ x _ Hx. apply K5. by left.
  - split; [|done]. eapply Forall_impl; [|exact Hap]. intros b [Hb|Hb]; [by right|by left].
Qed.

(** ** The table grows *)

Lemma asked_held h h' : asked h h' -> held_maps h' = held_maps h /\ held_direct h' = held_direct h.
Proof.
  intros (qs & -> & Hq). induction Hq as [|c qs Hc _ IH]; [done|]. by destruct c.
Qed.

Lemma asked_sane h h' : asked h h' -> sane h -> sane h'.
Proof. intros (qs & -> & Hq) Hs. induction Hq as [|c qs Hc _ IH]; [done|]. by destruct c. Qed.

Lemma table_ledger arenas h h' :
  table_ok arenas h -> sane h' -> held_maps h' = held_maps h -> held_direct h' = held_direct h ->
  table_ok arenas h'.
Proof. intros [? ? ? ? ? ?] ? Hm Hd. constructor; try done; congruence. Qed.

Lemma table_snoc arenas h h' a :
  table_ok arenas h -> sane h' -> (length arenas < ORBIS_JIT_MAX_ARENAS)%nat ->
  arena_ok a -> apart_from h (base a) (size a) ->
  held_maps h' = {[+ (base a, size a) +]} ⊎ held_maps h ->
  held_direct h' = {[+ (phys a, size a) +]} ⊎ held_direct h ->
  table_ok (arenas ++ [a]) h'.
Proof.
  intros [T1 T2 T3 T4 T5 T6] Hs Hl Ha Hap Hm Hd. constructor; try done.
  - rewrite Hm, T2. unfold maps_of. rewrite map_app, list_to_set_disj_app. cbn [map].
    rewrite list_to_set_disj_cons, list_to_set_disj_nil. multiset_solver.
  - rewrite Hd, T3. unfold direct_of. rewrite map_app, list_to_set_disj_app. cbn [map].
    rewrite list_to_set_disj_cons, list_to_set_disj_nil. multiset_solver.
  - rewrite length_app. cbn. lia.
  - apply Forall_app. split; [done|]. by constructor.
  - apply pairwise_snoc; [apply _|]. split; [|done]. apply List.Forall_forall.
    intros a' Ha'%list_elem_of_In. apply Hap. rewrite T2. by apply elem_maps_of.
Qed.

(** Blocks survive a step that keeps the arenas and the bytes held. *)
Lemma live_frame st st' (arenas' : list arena) live :
  table_ok (s_arena st) (hist st) -> heap_frame st st' ->
  (forall a, a ∈ s_arena st -> a ∈ arenas') ->
  Forall (fun b => exists a, a ∈ s_arena st /\ block_in (heap st) a b) live ->
  Forall (fun b => exists a, a ∈ arenas' /\ block_in (heap st') a b) live.
Proof.
  intros Ht Hf Hin Hl. eapply Forall_impl; [|exact Hl]. intros b (a & Ha & Hb).
  exists a. split; [by apply Hin|]. apply (block_in_frame (heap st)); [|done].
  intros x Hx. apply (Hf (base a) (size a)).
  - rewrite (tb_maps _ _ Ht). by apply elem_maps_of.
  - pose proof (block_in_bounds _ a b (table_arena_ok _ _ _ Ht Ha) Hb). lia.
Qed.

Lemma inv_map_fail st live at_ len st' :
  jit_inv st live -> map_result st at_ len (st', None) -> jit_inv st' live.
Proof.
  intros [Ht Hl Ha] (M1 & M2 & _ & M4 & M5 & M6).
  constructor; rewrite ?M2; [by eapply table_ledger| |done].
  by apply (live_frame st st').
Qed.

Lemma inv_map_done st live at_ len st' got ph ded sp :
  jit_inv st live -> map_result st at_ len (st', Some (got, ph)) ->
  (length (s_arena st) < ORBIS_JIT_MAX_ARENAS)%nat -> arena_ok (mk_arena got len ph ded sp) ->
  jit_inv (set_arenas st' (s_arena st' ++ [mk_arena got len ph ded sp])) live.
Proof.
  intros [Ht Hl Ha] (M1 & M2 & _ & M4 & M5 & M6 & M7 & M8 & M9) Hlen Hok. rewrite M2.
  constructor; [by eapply table_snoc| |done].
  apply (live_frame st st'); try done. intros a. cbn [s_arena set_arenas]. rewrite elem_of_app. by left.
Qed.

Lemma inv_hist st live h :
  jit_inv st live -> asked (hist st) h -> jit_inv (set_hist st h) live.
Proof.
  intros [Ht Hl Ha] Hask. constructor; [|done..]. cbn [s_arena hist set_hist].
  destruct (asked_held _ _ Hask). eapply table_ledger; try done. eapply asked_sane; [done|apply Ht].
Qed.

Lemma inv_should_log K st live :
  jit_inv st live -> jit_inv (fst (orbis_jit_should_log K st)) live.
Proof.
  intros [Ht Hl Ha]. destruct (should_log_fields K st) as (H1 & _ & _ & H4 & H5).
  constructor; by rewrite ?H1, ?H4, ?H5.
Qed.

(** ** A new arena *)

(** Inside the part of the address space rel32 reaches from the module. *)
Definition in_window (K : kernel) (b l : Z) : Prop :=
  anchor K - ORBIS_JIT_WINDOW <= b /\ b + l <= anchor K + ORBIS_JIT_WINDOW.

(** Every displacement between the module and [[b, b+l)] fits in a rel32. *)
Definition within_rel32 (K : kernel) (b l : Z) : Prop :=
  forall p q, anchor K - ORBIS_JIT_MODULE_SPAN <= p <= anchor K + ORBIS_JIT_MODULE_SPAN ->
    b <= q <= b + l -> - 2 ^ 31 < q - p < 2 ^ 31 /\ - 2 ^ 31 < p - q < 2 ^ 31.

(** The module is loaded above 4 GiB, in user space. *)
Definition anchor_ok (K : kernel) : Prop := 2 ^ 32 <= anchor K < 2 ^ 47.

Lemma in_window_rel32 K b l : 0 <= l -> in_window K b l -> within_rel32 K b l.
Proof. unfold in_window, within_rel32, ORBIS_JIT_WINDOW, ORBIS_JIT_REACH, ORBIS_JIT_MODULE_SPAN. lia. Qed.

Lemma near_module_rel32 K b l :
  anchor_ok K -> good_range b l -> orbis_jit_near_module K b l = true -> within_rel32 K b l.
Proof.
  intros Ha (_ & _ & G3 & G4 & G5). unfold orbis_jit_near_module, anchor_ok in *.
  intros Hr p q Hp Hq. unfold ORBIS_JIT_MODULE_SPAN in *.
  rewrite (u64_small (anchor K - _)) in Hr by lia.
  rewrite reachable_iff in Hr by lia.
  split; apply Hr; lia.
Qed.

Lemma within_rel32_sub K b l b' l' :
  within_rel32 K b l -> b <= b' -> b' + l' <= b + l -> within_rel32 K b' l'.
Proof. intros H ? ? p q Hp Hq. apply H; lia. Qed.

(** The largest request whose rounded length still fits in a [size_t]. *)
Definition MAX_REQUEST : Z := 2 ^ 64 - 2 ^ 15.

Lemma arena_size_ok K atleast :
  0 <= atleast <= MAX_REQUEST + 128 ->
  (G | orbis_jit_arena_size K atleast) /\ atleast <= orbis_jit_arena_size K atleast /\
  0 < orbis_jit_arena_size K atleast.
Proof.
  intros Hat. unfold MAX_REQUEST, orbis_jit_arena_size in *.
  set (e := orbis_env_get K _). cbv zeta. set (mb := match e with Some _ => _ | None => _ end).
  assert (Hmb : 0 < mb <= 512).
  { subst mb. destruct e as [[|c e]|]; [lia| |lia].
    destruct (Z.ltb_spec 0 (strtol10 (String.String c e))), (Z.leb_spec (strtol10 (String.String c e)) 512);
      cbn [andb]; lia. }
  clearbody mb. rewrite u64_small by lia. rewrite granule_pow.
  split; [by apply round_divide|].
  destruct (Z.ltb_spec (mb * 1024 * 1024) atleast).
  - pose proof (round_up atleast 14). lia.
  - pose proof (round_up (mb * 1024 * 1024) 14). lia.
Qed.

Section Safety.
Context (K : kernel) (taken : list kcall -> Z -> Prop) `{QL : !QueryLaws K taken} `{ML : !MapLaws K taken}.
Context (Hanchor : anchor_ok K).

(** Enough rounds for either window. *)
Definition near_fuel (fuel : nat) : Prop := 81921 < Z.of_nat fuel.

Definition grow_address_result (h : list kcall) (len flags : Z) (x : list kcall * option Z) : Prop :=
  let '(h', at_) := x in
  asked h h' /\
  match at_ with
  | None => near_text flags = true
  | Some a =>
      if near_text flags
      then a <> 0 /\ (G | a) /\ in_window K a len /\ (forall g, (G | g) -> a <= g < a + len -> ~ taken h g)
      else a = 0
  end.

Lemma grow_address_ok fuel h len flags :
  near_fuel fuel -> 0 < len -> (G | len) ->
  runs (grow_address K fuel h len flags) (grow_address_result h len flags).
Proof.
  intros Hf Hlen HG. unfold grow_address, grow_address_result, anchor_ok, near_fuel in *.
  destruct (near_text flags); [|by split; [apply asked_refl|]].
  assert (HW : ORBIS_JIT_WINDOW = 2 ^ 31 - 2 ^ 29) by done.
  assert (HS : ORBIS_JIT_MODULE_SPAN = 2 ^ 28) by done.
  rewrite !u64_small by lia. unfold in_window. rewrite HW, HS.
  rewrite runs_bind. eapply runs_mono.
  { apply (find_free_ok K taken); try done; try lia. unfold ORBIS_JIT_GRANULE. dlia. }
  intros [h1 a1] [Hask H1]. rewrite runs_bind.
  destruct (Z.eqb_spec a1 0) as [->|Hne].
  - eapply runs_mono.
    { apply (find_free_ok K taken h1); try done; try lia. unfold ORBIS_JIT_GRANULE. dlia. }
    intros [h2 a2] [Hask2 H2]. cbn. split; [by eapply asked_trans|].
    destruct (Z.eqb_spec a2 0) as [->|Hne]; [done|]. destruct H2 as (A1 & A2 & A3 & A4).
    split_and!; try done; try lia. intros g Hg Hga. rewrite <- (taken_asked K taken h h1) by done. by apply A4.
  - cbn. split; [done|]. destruct (Z.eqb_spec a1 0); [done|].
    destruct H1 as (A1 & A2 & A3 & A4). split_and!; try done; lia.
Qed.

(** After [orbis_jit_grow]: the invariant, and on success one more arena, all
    of it free, near the module when that was asked. *)
Definition grow_result (live : list block) (st : jit) (len flags : Z) (x : jit * bool) : Prop :=
  let '(st', ok) := x in
  jit_inv st' live /\
  if ok : bool then
    exists a, s_arena st' = s_arena st ++ [a] /\ dedicated a = false /\
      spans a = [mk_span (base a) (size a)] /\ len <= size a /\
      (near_text flags = true -> within_rel32 K (base a) (size a))
  else s_arena st' = s_arena st.

Lemma arena_fresh got len ph :
  good_range got len -> arena_ok (mk_arena got len ph false [mk_span got len]).
Proof.
  intros Hr. split; [done|]. intros _. pose proof Hr as (G1 & [q Hq] & G3 & G4 & G5).
  split; cbn; [lia|]. repeat constructor; cbn; [rewrite Z.sub_diag; apply Z.divide_0_r|].
  exists (256 * q). rewrite Hq. unfold ORBIS_JIT_GRANULE, ORBIS_JIT_ALIGN. lia.
Qed.

Lemma grow_ok fuel st live atleast flags :
  jit_inv st live -> near_fuel fuel -> 0 <= atleast <= MAX_REQUEST + 128 ->
  runs (orbis_jit_grow K fuel st atleast flags) (grow_result live st atleast flags).
Proof.
  intros Hinv Hf Hat. unfold orbis_jit_grow.
  destruct (Nat.leb_spec ORBIS_JIT_MAX_ARENAS (length (s_arena st))); [done|].
  destruct (arena_size_ok K atleast Hat) as (S1 & S2 & S3).
  set (len := orbis_jit_arena_size K atleast) in *. rewrite runs_bind.
  eapply runs_mono; [by apply grow_address_ok|]. intros [h at_] [Hask Hat_].
  assert (Hi1 : jit_inv (set_hist st h) live) by by apply inv_hist.
  destruct at_ as [at_|]; [|done].
  assert (Hs : sane h) by (eapply asked_sane; [done|apply Hinv]).
  assert (Hap : at_ <> 0 -> apart_from h at_ len).
  { intros Hne. destruct (near_text flags); [|done]. destruct Hat_ as (_ & A2 & _ & A4).
    apply (free_apart K taken); try done. intros g Hg Hgr.
    rewrite (taken_asked K taken (hist st) h) by done. by apply A4. }
  pose proof (map_ok K taken (set_hist st h) at_ len Hs S3 S1 Hap) as Hm.
  destruct (orbis_jit_map K (set_hist st h) at_ len) as [st' [[got ph]|]].
  - assert (Hok : arena_ok (mk_arena got len ph false [mk_span got len])).
    { apply arena_fresh. by destruct Hm as (_ & _ & _ & _ & M & _). }
    pose proof (inv_map_done _ _ _ _ _ _ _ false _ Hi1 Hm ltac:(done) Hok) as Hi2.
    destruct Hm as (_ & M2 & _ & _ & M5 & _ & M7 & _). cbn [s_arena set_hist] in M2.
    set (st2 := set_arenas _ _) in *.
    assert (Hres : grow_result live st atleast flags (st2, true)).
    { split; [done|]. eexists. split; [cbn; by rewrite M2|]. split_and!; try done.
      intros Hn. rewrite Hn in Hat_. destruct Hat_ as (A1 & _ & A3 & _). cbn. rewrite (M7 A1).
      apply in_window_rel32; [lia|done]. }
    destruct (length (s_arena st2) =? 1)%nat; [done|]. destruct Hres as [_ Hres].
    split; [by apply inv_should_log|]. by rewrite (proj1 (should_log_fields K st2)).
  - split; [by eapply inv_map_fail|]. by destruct Hm as (_ & M2 & _).
Qed.

(** ** [orbis_jit_alloc] *)

Lemma take_from_split flags len arenas at_ arenas' :
  take_from K flags len arenas = Some (at_, arenas') ->
  exists pre a post sp, arenas = pre ++ a :: post /\ arenas' = pre ++ with_spans a sp :: post /\
    dedicated a = false /\ orbis_jit_take (spans a) len = Some (at_, sp) /\
    (near_text flags = true -> orbis_jit_near_module K (base a) (size a) = true).
Proof.
  revert at_ arenas'. induction arenas as [|a rest IH]; intros at_ arenas'; cbn; [done|].
  assert (Hskip : match take_from K flags len rest with
    | Some (at_, rest') => Some (at_, a :: rest') | None => None end = Some (at_, arenas') ->
    exists pre a0 post sp, a :: rest = pre ++ a0 :: post /\ arenas' = pre ++ with_spans a0 sp :: post /\
    dedicated a0 = false /\ orbis_jit_take (spans a0) len = Some (at_, sp) /\
    (near_text flags = true -> orbis_jit_near_module K (base a0) (size a0) = true)).
  { destruct (take_from K flags len rest) as [[at1 rest']|]; [|done]. intros [= <- <-].
    destruct (IH _ _ eq_refl) as (pre & a0 & post & sp & -> & -> & Hr).
    exists (a :: pre), a0, post, sp. by cbn. }
  destruct (dedicated a) eqn:Hd; [done|].
  destruct (near_text flags && negb (orbis_jit_near_module K (base a) (size a))) eqn:Hn; [done|].
  destruct (orbis_jit_take (spans a) len) as [[at1 sp]|] eqn:Ht; [|done]. intros [= <- <-].
  exists [], a, rest, sp. cbn. unfold with_spans. rewrite Hd. split_and!; try done.
  intros Hnt. rewrite Hnt in Hn. by destruct (orbis_jit_near_module K (base a) (size a)).
Qed.

Lemma take_last_snoc len arenas a :
  take_last len (arenas ++ [a]) =
    match orbis_jit_take (spans a) len with
    | Some (at_, sp) => Some (at_, arenas ++ [with_spans a sp])
    | None => None
    end.
Proof.
  induction arenas as [|b arenas IH]; [done|]. cbn [app take_last].
  destruct (arenas ++ [a]) as [|c l] eqn:Hl; [by destruct arenas|]. rewrite IH.
  by destruct (orbis_jit_take (spans a) len) as [[at_ sp]|].
Qed.

Lemma block_len_ok n :
  0 <= n <= MAX_REQUEST ->
  (ORBIS_JIT_ALIGN | block_len n) /\ n + ORBIS_JIT_ALIGN <= block_len n /\
  2 * ORBIS_JIT_ALIGN <= block_len n <= MAX_REQUEST + 128.
Proof.
  unfold MAX_REQUEST, block_len. intros Hn. set (m := if n =? 0 then 1 else n).
  assert (Hm : 1 <= m /\ n <= m <= 2 ^ 64 - 2 ^ 15) by (subst m; destruct (Z.eqb_spec n 0); lia).
  clearbody m. pose proof (round_divide m 6 ltac:(lia)) as [q Hq].
  pose proof (round_up m 6 ltac:(lia) ltac:(lia) ltac:(lia)) as Hr.
  rewrite <- align_pow in Hr, Hq. rewrite Hq in *. unfold ORBIS_JIT_ALIGN in *.
  rewrite u64_small by lia. split; [exists (q + 1); lia|lia].
Qed.

(** A block of the request's size, aligned, near the module when asked. *)
Definition alloc_block (live : list block) (n flags : Z) (st : jit) (p : Z) : Prop :=
  jit_inv st (shared_block p n :: live) /\ (ORBIS_JIT_ALIGN | p) /\
  p + n <= p - ORBIS_JIT_ALIGN + block_len n /\
  (near_text flags = true -> within_rel32 K (p - ORBIS_JIT_ALIGN) (block_len n)).

(** Such a block; or NULL, with the table as it was, and no arena had room. *)
Definition alloc_result (live : list block) (st : jit) (n flags : Z) (x : jit * Z) : Prop :=
  let '(st', p) := x in
  if p =? 0 then
    jit_inv st' live /\ s_arena st' = s_arena st /\
    take_from K flags (block_len n) (s_arena st) = None
  else alloc_block live n flags st' p.

Lemma alloc_taken st live n flags pre a post at_ sp :
  jit_inv st live -> 0 <= n <= MAX_REQUEST -> s_arena st = pre ++ a :: post ->
  dedicated a = false -> orbis_jit_take (spans a) (block_len n) = Some (at_, sp) ->
  (near_text flags = true -> within_rel32 K (base a) (size a)) ->
  let '(st', p) := hand_out (set_arenas st (pre ++ with_spans a sp :: post)) at_ (block_len n) in
  (p =? 0) = false /\ alloc_block live n flags st' p.
Proof.
  intros Hinv Hn Hst Hd Ht Hnear. destruct (block_len_ok n Hn) as (B1 & B2 & B3).
  assert (Hl : 2 * ORBIS_JIT_ALIGN <= block_len n < 2 ^ 64) by (unfold MAX_REQUEST in *; lia).
  pose proof (inv_take st live pre a post _ at_ sp Hinv Hst Hd Hl B1 Ht) as Hi.
  assert (Hok : arena_ok a).
  { eapply table_arena_ok; [apply Hinv|]. rewrite Hst. apply elem_middle. by left. }
  destruct Hok as [(R1 & R2 & R3 & R4 & R5) Hsp]. destruct (Hsp Hd) as [Hs1 Hs2].
  assert (Hpos : 0 < block_len n) by (unfold ORBIS_JIT_ALIGN in *; lia).
  destruct (take_ok _ _ _ _ _ _ Hpos Hs1 Ht) as (_ & K2 & K3 & _).
  destruct (take_aligned _ _ _ _ _ _ B1 Hs2 Ht) as [_ [q Hq]].
  unfold hand_out. split; [apply Z.eqb_neq; unfold ORBIS_JIT_ALIGN; lia|].
  unfold alloc_block, shared_block.
  replace (at_ + ORBIS_JIT_ALIGN - ORBIS_JIT_ALIGN) with at_ by lia.
  split; [exact Hi|]. split_and!.
  - destruct R1 as [r Hr]. exists (q + 256 * r + 1). unfold ORBIS_JIT_GRANULE, ORBIS_JIT_ALIGN in *. lia.
  - lia.
  - intros Hf. eapply within_rel32_sub; [by apply Hnear|done..].
Qed.

Lemma alloc_ok fuel st live n flags :
  jit_inv st live -> near_fuel fuel -> 0 <= n <= MAX_REQUEST ->
  runs (orbis_jit_alloc K fuel st n flags) (alloc_result live st n flags).
Proof.
  intros Hinv Hf Hn. unfold orbis_jit_alloc.
  destruct (take_from K flags (block_len n) (s_arena st)) as [[at_ arenas']|] eqn:Htf.
  - destruct (take_from_split _ _ _ _ _ Htf) as (pre & a & post & sp & Hst & -> & Hd & Ht & Hnear).
    cbn [runs]. unfold alloc_result.
    assert (Hres := alloc_taken st live n flags pre a post at_ sp Hinv Hn Hst Hd Ht).
    destruct (hand_out _ at_ (block_len n)) as [st' p]. destruct Hres as [-> Hres]; [|done].
    intros Hfl. apply near_module_rel32; [done| |by apply Hnear].
    assert (arena_ok a) as [? _]; [|done].
    eapply table_arena_ok; [apply Hinv|]. rewrite Hst. apply elem_middle. by left.
  - destruct (block_len_ok n Hn) as (B1 & B2 & B3). rewrite runs_bind.
    eapply runs_mono; [apply grow_ok; try done; unfold ORBIS_JIT_ALIGN in *; lia|].
    intros [st' [|]]; [|by intros [Hi Hs]].
    intros (Hi & a & Hst & Hd & Hsp & Hle & Hnear).
    cbn [runs]. rewrite Hst, take_last_snoc.
    destruct (orbis_jit_take (spans a) (block_len n)) as [[at_ sp]|] eqn:Ht.
    + pose proof (alloc_taken st' live n flags (s_arena st) a [] at_ sp Hi Hn Hst Hd Ht Hnear) as Hr.
      unfold alloc_result.
      destruct (hand_out _ at_ (block_len n)) as [st2 p]. by destruct Hr as [-> Hr].
    + apply take_none in Ht. rewrite Hsp in Ht. apply Forall_cons_iff in Ht as [Ht _]. cbn in Ht. lia.
Qed.

(** ** [orbis_jit_alloc_at] *)

(** A dedicated arena at the address asked for, or NULL and the table as it was. *)
Definition alloc_at_result (live : list block) (st : jit) (addr n : Z) (x : jit * Z) : Prop :=
  let '(st', p) := x in
  if p =? 0 then jit_inv st' live /\ s_arena st' = s_arena st
  else p = addr /\ n <= bk_len (dedicated_block addr n) /\
    jit_inv st' (dedicated_block addr n :: live).

(** Rounds the search at [addr] may need. *)
Definition at_fuel (n : Z) (fuel : nat) : Prop := (n + G) / G + 1 < Z.of_nat fuel.

Lemma fresh_block_apart st live b l :
  jit_inv st live -> apart_from (hist st) b l ->
  Forall (fun c => b + l <= bk_lo c \/ bk_lo c + bk_len c <= b) live.
Proof.
  intros [Ht Hl _] Hap. eapply Forall_impl; [|exact Hl]. intros c (a & Ha & Hc).
  destruct (block_in_bounds _ _ _ (table_arena_ok _ _ _ Ht Ha) Hc) as (C1 & C2 & _).
  destruct (Hap (base a) (size a)); [rewrite (tb_maps _ _ Ht); by apply elem_maps_of| |]; lia.
Qed.

Lemma alloc_at_ok fuel st live addr n :
  jit_inv st live -> 0 <= addr -> 0 <= n -> addr + n < 2 ^ 61 -> at_fuel n fuel ->
  runs (orbis_jit_alloc_at K fuel st addr n) (alloc_at_result live st addr n).
Proof.
  intros Hinv Ha Hn Hov Hf. unfold alloc_at_result, dedicated_block, orbis_jit_alloc_at.
  set (m := if n =? 0 then 1 else n).
  assert (Hm : 1 <= m /\ n <= m <= n + 1) by (subst m; destruct (Z.eqb_spec n 0); lia).
  clearbody m. set (len := orbis_jit_round m ORBIS_JIT_GRANULE).
  assert (HG : G = 2 ^ 14) by done.
  assert (Hlen : (G | len) /\ m <= len < m + G).
  { unfold len. rewrite HG. split; [by apply round_divide|apply round_up; lia]. }
  clearbody len. destruct Hlen as [HGl Hlen].
  destruct (Z.eqb_spec addr 0); [done|]. cbn [orb].
  destruct (Z.eqb_spec (Z.land addr (G - 1)) 0) as [Hal|]; cbn [negb]; [|done].
  assert (HGa : (G | addr)).
  { rewrite HG in *. rewrite <- Z.ones_equiv || idtac.
    change (2 ^ 14 - 1) with (Z.ones 14) in Hal. rewrite Z.land_ones in Hal by lia.
    apply Z.mod_divide; [lia|done]. }
  destruct (Nat.leb_spec ORBIS_JIT_MAX_ARENAS (length (s_arena st))); [done|].
  rewrite (u64_small (addr + len)) by lia. rewrite runs_bind. eapply runs_mono.
  { apply (find_free_ok K taken); try done; try lia. unfold at_fuel in Hf.
    pose proof (Z.div_le_mono (addr + len - addr) (n + G) G ltac:(lia) ltac:(lia)). 
    pose proof (Z.div_pos (addr + len - addr) G). lia. }
  intros [h at_] [Hask Hfound]. assert (Hi1 : jit_inv (set_hist st h) live) by by apply inv_hist.
  destruct (Z.eqb_spec at_ 0); [done|]. destruct Hfound as (F1 & F2 & F3 & F4).
  assert (at_ = addr) as -> by lia.
  assert (Hs : sane h) by (eapply asked_sane; [done|apply Hinv]).
  assert (Hap : apart_from h addr len).
  { apply (free_apart K taken); try done; [lia|]. intros g Hg Hgr.
    rewrite (taken_asked K taken (hist st) h) by done. by apply F4. }
  pose proof (map_ok K taken (set_hist st h) addr len Hs ltac:(lia) HGl ltac:(done)) as Hmr.
  destruct (orbis_jit_map K (set_hist st h) addr len) as [st' [[got ph]|]].
  2: { split; [by eapply inv_map_fail|]. by destruct Hmr as (_ & M2 & _). }
  assert (Hok : arena_ok (mk_arena got len ph true [])).
  { split; [|done]. by destruct Hmr as (_ & _ & _ & _ & M & _). }
  pose proof (inv_map_done _ _ _ _ _ _ _ true [] Hi1 Hmr ltac:(done) Hok) as [I1 I2 I3].
  destruct Hmr as (_ & _ & _ & _ & _ & _ & M7 & _). rewrite (M7 ltac:(done)) in *.
  cbn [runs]. destruct (Z.eqb_spec addr 0); [done|]. split; [done|]. split; [cbn; lia|].
  constructor; [done| |].
  - constructor; [|done]. eexists. split; [cbn; apply elem_middle; by left|]. done.
  - split; [|done]. eapply Forall_impl; [|exact (fresh_block_apart _ _ _ _ Hi1 Hap)].
    intros c [Hc|Hc]; [by left|by right].
Qed.
End Safety.

(** ** [orbis_jit_free] *)

Lemma free_from_split h pre a post at_ :
  Forall (fun a' => at_ < base a' \/ base a' + size a' <= at_) pre ->
  base a <= at_ < base a + size a ->
  free_from h (pre ++ a :: post) at_ =
    let '(a', cs) := free_in h a at_ in (pre ++ a' ++ post, cs).
Proof.
  intros Hpre Ha. induction Hpre as [|a' pre Hout _ IH]; cbn [app free_from].
  - destruct (Z.ltb_spec at_ (base a)), (Z.leb_spec (base a + size a) at_); cbn [orb]; lia || done.
  - rewrite IH. destruct (free_in h a at_) as [r cs].
    destruct (Z.ltb_spec at_ (base a')), (Z.leb_spec (base a' + size a') at_); cbn [orb]; lia || done.
Qed.

Lemma maps_of_middle pre a post :
  maps_of (pre ++ a :: post) = {[+ (base a, size a) +]} ⊎ maps_of (pre ++ post).
Proof.
  unfold maps_of. rewrite !map_app, !list_to_set_disj_app. cbn [map].
  rewrite list_to_set_disj_cons. multiset_solver.
Qed.

Lemma direct_of_middle pre a post :
  direct_of (pre ++ a :: post) = {[+ (phys a, size a) +]} ⊎ direct_of (pre ++ post).
Proof.
  unfold direct_of. rewrite !map_app, !list_to_set_disj_app. cbn [map].
  rewrite list_to_set_disj_cons. multiset_solver.
Qed.

(** Unmapping and releasing an arena takes it off the ledger. *)
Lemma table_remove pre a post h :
  table_ok (pre ++ a :: post) h ->
  table_ok (pre ++ post) (KRelease (phys a) (size a) :: KMunmap (base a) (size a) :: h).
Proof.
  intros [T1 T2 T3 T4 T5 T6]. constructor; cbn [sane held_maps held_direct].
  - rewrite T2, T3, maps_of_middle, direct_of_middle. split_and!; try done; apply elem_one.
  - by rewrite T2, maps_of_middle, undo_one.
  - by rewrite T3, direct_of_middle, undo_one.
  - rewrite length_app in *. cbn in T4. lia.
  - apply Forall_app in T5 as [? [_ ?]%Forall_cons_iff]. by apply Forall_app.
  - by apply pairwise_middle in T6 as [_ T6]; [|apply _].
Qed.

Lemma others_apart pre a post h at_ :
  table_ok (pre ++ a :: post) h -> base a <= at_ < base a + size a ->
  Forall (fun a' => at_ < base a' \/ base a' + size a' <= at_) pre.
Proof.
  intros [_ _ _ _ _ T6] Hat. apply pairwise_middle in T6 as [T6 _]; [|apply _].
  apply Forall_app in T6 as [T6 _]. eapply Forall_impl; [|exact T6].
  intros a' Ha'. unfold arenas_apart in Ha'. lia.
Qed.

(** What [orbis_jit_free] makes of a block of a shared arena. *)
Lemma free_in_shared h a b :
  arena_ok a -> dedicated a = false -> block_in h a b ->
  free_in h a (bk_ptr b) =
    (match orbis_jit_give (spans a) (bk_lo b) (bk_len b) with
     | None => [a]
     | Some sp => [with_spans a sp]
     end, []).
Proof.
  intros Ha Hd Hb. pose proof (block_in_bounds _ _ _ Ha Hb) as (B1 & B2 & B3 & B4).
  destruct Ha as [(R1 & R2 & R3 & R4 & R5) _].
  unfold block_in in Hb. unfold free_in. rewrite Hd in *.
  destruct Hb as (H1 & H2 & [q Hq] & H4 & H5 & H6).
  replace (bk_ptr b - ORBIS_JIT_ALIGN) with (bk_lo b) by lia. rewrite H6.
  rewrite u64_small by lia. unfold ORBIS_JIT_ALIGN in *.
  change (64 - 1) with (Z.ones 6). rewrite Z.land_ones, Hq, Z.mod_mul by lia. cbn [Z.eqb negb orb].
  destruct (Z.ltb_spec (q * 64) (2 * 64)); [lia|]. cbn [orb].
  destruct (Z.ltb_spec (base a + size a) (bk_lo b + q * 64)); [lia|]. unfold with_spans.
  rewrite Hd. by destruct (orbis_jit_give (spans a) (bk_lo b) (q * 64)).
Qed.

Lemma give_arena_ok a b h sp :
  arena_ok a -> dedicated a = false -> block_in h a b ->
  orbis_jit_give (spans a) (bk_lo b) (bk_len b) = Some sp ->
  arena_ok (with_spans a sp) /\
  forall x, free_at sp x <-> free_at (spans a) x \/ bk_lo b <= x < bk_lo b + bk_len b.
Proof.
  intros [Hr Hs] Hd Hb Hg. destruct (Hs Hd) as [Hs1 Hs2]. unfold block_in in Hb. rewrite Hd in Hb.
  destruct Hb as (_ & _ & H3 & H4 & H5 & _).
  pose proof (give_aligned _ _ _ _ _ _ _ _ H4 H3 Hs1 Hs2 Hg) as Hal.
  destruct (decide (length (spans a) < ORBIS_JIT_MAX_SPANS)%nat);
    [|rewrite give_full in Hg; [done|lia]].
  destruct (give_ok _ _ _ _ _ Hs1 H5) as (sp' & Hg' & K1 & _ & K2); [done|].
  rewrite Hg in Hg'. injection Hg' as <-. split; [|done]. by split.
Qed.

Lemma free_shared_inv st live pre a post b :
  s_arena st = pre ++ a :: post -> jit_inv st live -> dedicated a = false ->
  block_in (heap st) a b -> Forall (blocks_apart b) live ->
  jit_inv (orbis_jit_free st (bk_ptr b)) live.
Proof.
  intros Hst [Ht Hl Hp] Hd Hb Hap. rewrite Hst in *.
  assert (Ha : arena_ok a) by (eapply table_arena_ok; [done|apply elem_middle; by left]).
  pose proof (block_in_bounds _ _ _ Ha Hb) as (B1 & B2 & B3 & B4).
  assert (Hbase : 0 < base a) by (by destruct Ha as [(_ & _ & ? & _) _]).
  unfold orbis_jit_free. destruct (Z.eqb_spec (bk_ptr b) 0); [lia|].
  rewrite Hst, free_from_split by (lia || (eapply others_apart; [exact Ht|lia])).
  rewrite (free_in_shared _ _ _ Ha Hd Hb).
  destruct (orbis_jit_give (spans a) (bk_lo b) (bk_len b)) as [sp|] eqn:Hg; [|by constructor].
  destruct (give_arena_ok _ _ _ _ Ha Hd Hb Hg) as [Hok Hf].
  constructor; [by apply table_with_spans| |done]. cbn [app s_arena set_hist set_arenas heap].
  eapply Forall_impl; [|exact (Forall_and Hl Hap)]. intros c [Hc Hbc].
  apply (block_in_update (heap st) _ pre a post sp c); [done| |done].
  intros _ x Hx [Hx'|Hx']%Hf; [done|]. destruct Hbc; lia.
Qed.

Lemma free_dedicated_inv st live pre a post b :
  s_arena st = pre ++ a :: post -> jit_inv st live -> dedicated a = true ->
  block_in (heap st) a b -> Forall (blocks_apart b) live ->
  jit_inv (orbis_jit_free st (bk_ptr b)) live.
Proof.
  intros Hst [Ht Hl Hp] Hd Hb Hap. rewrite Hst in *.
  assert (Ha : arena_ok a) by (eapply table_arena_ok; [done|apply elem_middle; by left]).
  pose proof (block_in_bounds _ _ _ Ha Hb) as (B1 & B2 & B3 & B4).
  assert (Hbase : 0 < base a) by (by destruct Ha as [(_ & _ & ? & _) _]).
  unfold orbis_jit_free. destruct (Z.eqb_spec (bk_ptr b) 0); [lia|].
  rewrite Hst, free_from_split by (lia || (eapply others_apart; [exact Ht|lia])).
  unfold block_in in Hb. rewrite Hd in Hb. unfold free_in. rewrite Hd. subst b. cbn [bk_ptr bk_lo bk_len] in *.
  rewrite Z.eqb_refl. cbn [negb app].
  constructor; [by apply table_remove| |done]. cbn [app s_arena set_hist set_arenas heap].
  eapply Forall_impl; [|exact (Forall_and Hl Hap)]. intros c [(a' & Hin & Hc) Hbc].
  exists a'. split; [|done]. apply elem_middle in Hin as [->|Hin]; [|done].
  exfalso. unfold block_in in Hc. rewrite Hd in Hc. subst c. unfold blocks_apart in Hbc. cbn in Hbc. lia.
Qed.

(** Freeing a block that is held keeps the invariant for the others. *)
Lemma free_ok st l1 b l2 :
  jit_inv st (l1 ++ b :: l2) -> jit_inv (orbis_jit_free st (bk_ptr b)) (l1 ++ l2).
Proof.
  intros [Ht Hl Hp]. apply pairwise_middle in Hp as [Hap Hp]; [|apply _].
  apply Forall_app in Hl as [Hl1 [(a & Hin & Hb) Hl2]%Forall_cons_iff].
  assert (Hi : jit_inv st (l1 ++ l2)) by (constructor; [done|by apply Forall_app|done]).
  apply list_elem_of_split in Hin as (pre & post & Hst).
  destruct (dedicated a) eqn:Hd.
  - by eapply free_dedicated_inv.
  - by eapply free_shared_inv.
Qed.
