(* ===== verification/JitRun.v ===== *)
(** Runs of clients over the allocator of [src/orbis_jit.c], the properties of
    its entry points, and a small console that satisfies the kernel laws. *)
From Stdlib Require Import String.
From stdpp Require Import prelude gmap gmultiset list strings numbers relations.
From S2P Require Import Prelude JitSpans Jit JitArena JitSafety.
Open Scope Z_scope.

(** ** Releasing everything *)

Lemma release_fold arenas h :
  table_ok arenas h ->
  table_ok [] (foldl (fun h a => KRelease (phys a) (size a) :: KMunmap (base a) (size a) :: h) h arenas).
Proof.
  revert h. induction arenas as [|a arenas IH]; intros h Ht; [done|].
  cbn [foldl]. apply IH. by apply (table_remove [] a).
Qed.

Lemma release_all_inv st live : jit_inv st live -> jit_inv (orbis_jit_release_all st) [].
Proof.
  intros [Ht _ _]. constructor; [|by constructor|done].
  unfold orbis_jit_release_all. cbn [s_arena hist set_hist set_arenas]. by apply release_fold.
Qed.

(** ** Promotion *)

Lemma list_find_app_l {A} (P : A -> Prop) `{!forall x, Decision (P x)} l x :
  list_find P l = None -> P x -> list_find P (l ++ [x]) = Some (length l, x).
Proof.
  intros Hn Hx. rewrite list_find_app_Some. right. split; [lia|]. split; [done|].
  rewrite Nat.sub_diag. cbn. by rewrite decide_True.
Qed.

Lemma widen_covers b e p : covers b e (widen b e p) = true.
Proof.
  unfold covers, widen. cbn. apply andb_true_iff. rewrite !Z.leb_le.
  destruct (Z.ltb_spec b (pr_base p)), (Z.ltb_spec (pr_end p) e); lia.
Qed.

Lemma promote_base_ok addr :
  0 <= addr < 2 ^ 64 -> (G | promote_base addr) /\ promote_base addr <= addr < promote_base addr + G.
Proof.
  intros Ha. unfold promote_base. rewrite granule_pow, (land_u64_lnot addr 14) by lia.
  split; [apply Z.divide_factor_r|]. dlia.
Qed.


Definition find_cover (b e : Z) (ps : list promoted) : option (nat * promoted) :=
  list_find (fun p => Is_true (covers b e p)) ps.

Lemma covers_refl b e ok : Is_true (covers b e (mk_promoted b e ok)).
Proof. unfold covers. cbn. by rewrite !Z.leb_refl. Qed.

Lemma remember_found st b e ok :
  find_cover b e (s_promoted st) = None -> (length (s_promoted st) < ORBIS_JIT_MAX_PROMOTED)%nat ->
  find_cover b e (s_promoted (remember st b e ok)) =
    Some (length (s_promoted st), mk_promoted b e ok).
Proof.
  intros Hn Hl. unfold remember. cbn [s_promoted orbis_jit_record set_state].
  destruct (Nat.ltb_spec (length (s_promoted st)) ORBIS_JIT_MAX_PROMOTED); [|lia].
  apply list_find_app_l; [done|apply covers_refl].
Qed.

Lemma widen_found b e ps i p :
  find_cover b e ps = None -> ps !! i = Some p ->
  find_cover b e (<[i := widen b e p]> ps) = Some (i, widen b e p).
Proof.
  intros Hn Hi. unfold find_cover in *. apply list_find_Some. split_and!.
  - rewrite list_lookup_insert_eq; [done|]. by eapply lookup_lt_Some.
  - by rewrite widen_covers.
  - intros j y Hj Hlt. rewrite list_lookup_insert_ne in Hj by lia.
    rewrite list_find_None in Hn. rewrite List.Forall_forall in Hn.
    apply Hn, list_elem_of_In. by eapply list_elem_of_lookup_2.
Qed.

(** Where a call of [orbis_jit_protect] ends: on an entry that covers the
    range; on an entry next door, widened; or on a new entry. *)
Inductive protect_end (K : kernel) (st : jit) (addr len : Z) : jit -> bool -> Prop :=
  | protect_cached i p :
      find_cover (promote_base addr) (promote_end addr len) (s_promoted st) = Some (i, p) ->
      protect_end K st addr len st (pr_ok p)
  | protect_widened i p c :
      find_cover (promote_base addr) (promote_end addr len) (s_promoted st) = None ->
      s_promoted st !! i = Some p ->
      overlaps (promote_base addr) (promote_end addr len) p = true ->
      protect_end K st addr len
        (set_promoted (log st c)
           (<[i := widen (promote_base addr) (promote_end addr len) p]> (s_promoted st))) (pr_ok p)
  | protect_refused c :
      find_cover (promote_base addr) (promote_end addr len) (s_promoted st) = None ->
      protect_end K st addr len
        (remember (log st c) (promote_base addr) (promote_end addr len) false) false
  | protect_ran c st2 ok :
      find_cover (promote_base addr) (promote_end addr len) (s_promoted st) = None ->
      Forall (fun p => overlaps (promote_base addr) (promote_end addr len) p = false) (s_promoted st) ->
      (exists st1, orbis_jit_verify K st1 addr = (st2, ok) /\ s_promoted st1 = s_promoted st /\
         s_state st1 = s_state st /\ s_arena st1 = s_arena st /\ heap st1 = heap st /\
         hist st1 = c :: hist st) ->
      c = KMprotect (promote_base addr) (u64 (promote_end addr len - promote_base addr)) 0 ->
      protect_end K st addr len
        (remember st2 (promote_base addr) (promote_end addr len) ok) ok.

Lemma protect_ends K st addr len :
  protect_end K st addr len (fst (orbis_jit_protect K st addr len)) (snd (orbis_jit_protect K st addr len)).
Proof.
  unfold orbis_jit_protect. set (b := promote_base addr). set (e := promote_end addr len).
  fold (find_cover b e (s_promoted st)).
  destruct (find_cover b e (s_promoted st)) as [[i p]|] eqn:Hc; [by eapply protect_cached|].
  set (c := KMprotect b _ _).
  destruct (Z.eqb_spec (sceKernelMprotect K (hist st) b (u64 (e - b))) 0) as [Hrc|];
    cbn [negb]; [|by apply protect_refused].
  destruct (list_find (fun p => Is_true (overlaps b e p)) (s_promoted st)) as [[i p]|] eqn:Ho.
  - apply list_find_Some in Ho as (Hi & Hov & _).
    cbn [fst snd s_promoted log]. apply (protect_widened _ _ _ _ i p c); try done.
    exact (Is_true_true_1 _ Hov).
  - destruct (orbis_jit_verify K _ addr) as [st2 ok] eqn:Hv. cbn [fst snd].
    apply (protect_ran K st addr len c); [done| | |by unfold c; rewrite Hrc].
    + apply list_find_None in Ho. eapply List.Forall_impl; [|exact Ho]. intros p.
      intros Hp. apply not_true_is_false. intros Ht. apply Hp. by apply Is_true_true_2.
    + eexists. split; [exact Hv|]. destruct (s_first_stub (log st c)); [done|].
      destruct (should_log_fields K (log st c)) as (-> & -> & -> & -> & ->). done.
Qed.

Lemma protect_cached_eq K st addr len i p :
  find_cover (promote_base addr) (promote_end addr len) (s_promoted st) = Some (i, p) ->
  orbis_jit_protect K st addr len = (st, pr_ok p).
Proof. intros Hc. unfold orbis_jit_protect, find_cover in *. by rewrite Hc. Qed.

Lemma protect_recorded K st addr len st' ok :
  protect_end K st addr len st' ok -> (length (s_promoted st) < ORBIS_JIT_MAX_PROMOTED)%nat ->
  exists i p, find_cover (promote_base addr) (promote_end addr len) (s_promoted st') = Some (i, p) /\
    pr_ok p = ok.
Proof.
  intros He Hl. destruct He as [i p Hc|i p c Hn Hi Ho|c Hn|c st2 ok Hn _ (st1 & Hv & Hp & _) _].
  - by eexists _, _.
  - eexists i, _. split; [by apply widen_found|done].
  - eexists _, _. split; [by apply remember_found|done].
  - destruct (verify_fields _ _ _ _ _ Hv) as (_ & _ & V & _). rewrite Hp in V.
    eexists _, _. split; [by apply remember_found; rewrite V|done].
Qed.

(** ** Runs *)

Section Run.
Context (K : kernel) (taken : list kcall -> Z -> Prop) `{QL : !QueryLaws K taken} `{ML : !MapLaws K taken}.
Context (Hanchor : anchor_ok K).

(** One call of a client, or one store of generated code into a block it
    holds.  Clients free only what they hold, and promote only buffers of
    their own. *)
Inductive client_step : jit * list block -> jit * list block -> Prop :=
  | step_alloc fuel n flags st live st' p :
      0 <= n <= MAX_REQUEST -> near_fuel fuel ->
      orbis_jit_alloc K fuel st n flags = Ok (st', p) ->
      client_step (st, live) (st', if p =? 0 then live else shared_block p n :: live)
  | step_alloc_at fuel addr n st live st' p :
      0 <= addr -> 0 <= n -> addr + n < 2 ^ 61 -> at_fuel n fuel ->
      orbis_jit_alloc_at K fuel st addr n = Ok (st', p) ->
      client_step (st, live) (st', if p =? 0 then live else dedicated_block p n :: live)
  | step_free st l1 b l2 :
      client_step (st, l1 ++ b :: l2) (orbis_jit_free st (bk_ptr b), l1 ++ l2)
  | step_release_all st live :
      client_step (st, live) (orbis_jit_release_all st, [])
  | step_protect addr len st live :
      (forall a, a ∈ s_arena st -> addr + 6 <= base a \/ base a + size a <= addr) ->
      client_step (st, live) (fst (orbis_jit_protect K st addr len), live)
  | step_store b x v st live :
      b ∈ live -> user_byte b x ->
      client_step (st, live) (set_heap st (<[x := v]> (heap st)), live).

Lemma store_inv st live b x v :
  jit_inv st live -> b ∈ live -> user_byte b x ->
  jit_inv (set_heap st (<[x := v]> (heap st))) live.
Proof.
  intros [Ht Hl Hp] Hin Hx. constructor; [done| |done].
  apply list_elem_of_split in Hin as (l1 & l2 & ->).
  pose proof (live_bounds _ _ _ _ Ht Hl) as Hbnd.
  apply pairwise_middle in Hp as [Hp _]; [|apply _].
  assert (Hd : Forall (fun c => ~ bk_lo c <= x < bk_ptr c) (l1 ++ b :: l2)).
  { unfold user_byte in Hx. apply Forall_app in Hbnd as [Hb1 [Hb2 Hb3]%List.Forall_cons_iff].
    apply Forall_app in Hp as [Hp1 Hp2]. apply Forall_app. split; [|constructor; [lia|]].
    - eapply List.Forall_impl; [|exact (List.Forall_and Hb1 Hp1)]. intros c [? Hc]. destruct Hc; lia.
    - eapply List.Forall_impl; [|exact (List.Forall_and Hb3 Hp2)]. intros c [? Hc]. destruct Hc; lia. }
  eapply List.Forall_impl; [|exact (List.Forall_and Hl Hd)]. intros c [(a & Ha & Hc) Hcx].
  exists a. split; [done|]. apply (block_in_frame (heap st)); [|done].
  intros y Hy. apply peek_insert_ne. lia.
Qed.

Lemma protect_inv st live addr len :
  (forall a, a ∈ s_arena st -> addr + 6 <= base a \/ base a + size a <= addr) ->
  jit_inv st live -> jit_inv (fst (orbis_jit_protect K st addr len)) live.
Proof.
  intros Hout Hi. pose proof Hi as [Ht Hl Hp].
  assert (Hlog : forall b e rc, jit_inv (log st (KMprotect b e rc)) live).
  { intros. constructor; [|done..]. eapply table_ledger; try done. apply Ht. }
  assert (Hrem : forall st b e ok, jit_inv st live -> jit_inv (remember st b e ok) live).
  { intros st0 b e ok [? ? ?]. unfold remember. destruct (_ <? _)%nat; by constructor. }
  unfold orbis_jit_protect. cbv zeta.
  destruct (list_find _ _) as [[? ?]|]; [done|].
  destruct (negb _); [by apply Hrem|].
  destruct (list_find _ _) as [[? ?]|]; [destruct (Hlog (promote_base addr) (u64 (promote_end addr len - promote_base addr)) (sceKernelMprotect K (hist st) (promote_base addr) (u64 (promote_end addr len - promote_base addr)))); by constructor|].
  set (st1 := if s_first_stub _ then _ else _).
  assert (H1 : jit_inv st1 live).
  { subst st1. destruct (s_first_stub _); [done|]. by apply inv_should_log. }
  assert (Hs : s_arena st1 = s_arena st).
  { subst st1. destruct (s_first_stub _); [done|]. by rewrite (proj1 (should_log_fields K _)). }
  destruct (orbis_jit_verify K st1 addr) as [st2 ok] eqn:Hv. cbn [fst]. apply Hrem.
  destruct (verify_fields _ _ _ _ _ Hv) as (V1 & _ & _ & V4 & g & V5 & _).
  destruct H1 as [T L P]. constructor; [rewrite V1, V5| |done].
  - eapply table_ledger; try done. apply T.
  - rewrite V1. apply (live_frame st1); try done. intros b l x Hin Hx. rewrite V4.
    apply peek_store_bytes. rewrite (tb_maps _ _ T), Hs in Hin.
    apply maps_of_elem in Hin as (a & Ha & -> & ->). destruct (Hout a Ha); cbn; lia.
Qed.

Lemma step_inv s s' :
  client_step s s' -> jit_inv (fst s) (snd s) -> jit_inv (fst s') (snd s').
Proof.
  destruct 1 as [fuel n flags st live st' p Hn Hf Ha|fuel addr n st live st' p H1 H2 H3 Hf Ha
    |st l1 b l2|st live|addr len st live Hout|b x v st live Hb Hx]; cbn [fst snd]; intros Hi.
  - pose proof (alloc_ok K taken Hanchor fuel st live n flags Hi Hf Hn) as Hr. rewrite Ha in Hr.
    cbn [runs] in Hr. unfold alloc_result in Hr. by destruct (p =? 0); destruct Hr.
  - pose proof (alloc_at_ok K taken fuel st live addr n Hi H1 H2 H3 Hf) as Hr. rewrite Ha in Hr.
    cbn [runs] in Hr. unfold alloc_at_result in Hr. destruct (p =? 0); [by destruct Hr|].
    by destruct Hr as (-> & _ & ?).
  - by apply free_ok.
  - by eapply release_all_inv.
  - by apply protect_inv.
  - by eapply store_inv.
Qed.

Lemma run_inv s : rtc client_step (initial, []) s -> jit_inv (fst s) (snd s).
Proof.
  intros Hr. assert (H : jit_inv (fst (initial, @nil block)) (snd (initial, @nil block))) by apply initial_inv.
  revert H. induction Hr as [s|s1 s2 s3 Hs _ IH]; [done|]. intros H. apply IH. by eapply step_inv.
Qed.
End Run.
