(* ===== verification/JitConsole.v ===== *)
(** A small console that satisfies the kernel laws of [JitArena], to evaluate
    the allocator of [src/orbis_jit.c] on: its mapper hands out addresses
    above everything held, its query walks the ledger. *)
From Stdlib Require Import String.
From stdpp Require Import prelude gmap gmultiset list strings numbers.
From S2P Require Import Prelude JitSpans Jit JitArena JitSafety.
Open Scope Z_scope.

Definition inside (p : Z) (m : Z * Z) : bool := (fst m <=? p) && (p <? fst m + snd m).

Definition console_query (h : list kcall) (p : Z) : Z * Z :=
  match List.filter (inside p) (elements (held_maps h)) with
  | [] => (0x80020016, 0)
  | m :: _ => (0, Z.min (fst m + snd m) (2 ^ 62))
  end.

(** Above every mapping held. *)
Definition console_top (ms : list (Z * Z)) : Z :=
  foldr (fun m top => Z.max (fst m + snd m) top) 0x900000000 ms.

Definition console_map (h : list kcall) (at_ len ph : Z) : Z * Z :=
  let got := if at_ =? 0 then (console_top (elements (held_maps h)) + (G - 1)) / G * G else at_ in
  if (got mod G =? 0) && (0 <? got) && (got + len <=? 2 ^ 47) then (0, got) else (0x80020016, 0).

(** The two answers that decide the fate of an arena are parameters. *)
Definition console (protect stub : Z) : kernel := mk_kernel
  (fun h _ => (0, Z.of_nat (length h)))
  console_map
  (fun _ _ _ => protect)
  console_query
  (fun _ _ => stub)
  (fun _ => None)
  0x810000000.

Definition console_taken (h : list kcall) (g : Z) : Prop :=
  exists m, m ∈ held_maps h /\ inside g m = true.

Lemma console_query_some h p :
  console_taken h p <-> exists m ms, List.filter (inside p) (elements (held_maps h)) = m :: ms.
Proof.
  split.
  - intros (m & Hm & Hi). destruct (List.filter (inside p) (elements (held_maps h))) as [|m' ms] eqn:Hf; [|eauto].
    exfalso. assert (Hin : In m (List.filter (inside p) (elements (held_maps h)))).
    { apply List.filter_In. split; [|done]. by apply list_elem_of_In, gmultiset_elem_of_elements. }
    by rewrite Hf in Hin.
  - intros (m & ms & Hf). assert (Hin : In m (List.filter (inside p) (elements (held_maps h)))).
    { rewrite Hf. by left. }
    apply List.filter_In in Hin as [Hin Hi]. exists m. split; [|done].
    by apply gmultiset_elem_of_elements, list_elem_of_In.
Qed.

#[export] Instance console_query_laws pr st : QueryLaws (console pr st) console_taken.
Proof.
  split; cbn [sceKernelVirtualQuery console]; unfold console_query.
  - intros h p. rewrite console_query_some.
    destruct (List.filter (inside p) (elements (held_maps h))) as [|m ms]; cbn; [|naive_solver].
    split; [done|]. by intros (? & ? & ?).
  - intros h p g Ht. pose proof (proj1 (console_query_some h p) Ht) as (m & ms & Hf). rewrite Hf.
    cbn [snd]. intros Hg. exists m.
    assert (Hin : In m (List.filter (inside p) (elements (held_maps h)))) by (rewrite Hf; by left).
    apply List.filter_In in Hin as [Hin Hi].
    split; [by apply gmultiset_elem_of_elements, list_elem_of_In|].
    unfold inside in *. apply andb_true_iff in Hi as [Hi%Z.leb_le _].
    apply andb_true_iff. rewrite Z.leb_le, Z.ltb_lt. lia.
  - intros h p. case_match; cbn; lia.
  - intros h p rc e g. done.
Qed.

Lemma console_top_above m ms : m ∈ ms -> fst m + snd m <= console_top ms.
Proof.
  induction ms as [|m' ms IH]; [by intros ?%not_elem_of_nil|].
  intros [->|Hin]%elem_of_cons; cbn; [lia|]. specialize (IH Hin). unfold console_top in IH. lia.
Qed.

#[export] Instance console_map_laws pr st : MapLaws (console pr st) console_taken.
Proof.
  split; cbn [sceKernelMapNamedDirectMemory console]; unfold console_map.
  - intros h at_ len ph got. set (a := if at_ =? 0 then _ else at_).
    destruct ((a mod G =? 0) && (0 <? a) && (a + len <=? 2 ^ 47)) eqn:Hc; [|by intros [= <-]].
    intros [= <-] _. apply andb_true_iff in Hc as [[H1%Z.eqb_eq H2%Z.ltb_lt]%andb_true_iff H3%Z.leb_le].
    split; [by apply Z.mod_divide|done].
  - intros h at_ len ph got g. set (a := if at_ =? 0 then _ else at_).
    destruct ((a mod G =? 0) && (0 <? a) && (a + len <=? 2 ^ 47)); [|by intros [= <-]].
    intros [= <-] _ Hne Hg (m & Hm & Hi). subst a. destruct (Z.eqb_spec at_ 0); [|done].
    apply gmultiset_elem_of_elements, console_top_above in Hm.
    unfold inside in Hi. apply andb_true_iff in Hi as [_ Hi%Z.ltb_lt].
    unfold ORBIS_JIT_GRANULE in *. revert Hg. set (t := console_top _) in *. dlia.
  - intros h b l g _ Hin Hg. exists (b, l). split; [done|]. unfold inside. cbn.
    apply andb_true_iff. rewrite Z.leb_le, Z.ltb_lt. lia.
Qed.

(** A console that grants everything, and one that maps but will not execute. *)
Definition granting : kernel := console 0 0x00c0ffee.
Definition refusing : kernel := console 0x8002000D 0x00c0ffee.
Definition lying : kernel := console 0 0.

Lemma granting_anchor : anchor_ok granting.
Proof. unfold anchor_ok, granting. cbn. lia. Qed.
