(* ===== verification/JitProps.v ===== *)
(** The properties of the entry points of [src/orbis_jit.c], each with an
    evaluation on the console of [JitConsole]. *)
From Stdlib Require Import String.
From stdpp Require Import prelude gmap gmultiset list strings numbers relations.
From S2P Require Import Prelude JitSpans Jit JitArena JitSafety JitRun JitConsole.
Open Scope Z_scope.

(** ** The verdict *)

(** [-1] (not asked) becomes anything, [1] may become [0], [0] is final. *)
Definition verdict_le (v v' : Z) : Prop :=
  v' = v \/ v = -1 /\ (v' = 0 \/ v' = 1) \/ v = 1 /\ v' = 0.

Definition verdict_ok (st : jit) : Prop := s_state st = -1 \/ s_state st = 0 \/ s_state st = 1.

(** From [st] to [st'] the verdict only gets worse. *)
Definition worsens (st st' : jit) : Prop :=
  verdict_ok st -> verdict_ok st' /\ verdict_le (s_state st) (s_state st').

Lemma worsens_same st st' : s_state st' = s_state st -> worsens st st'.
Proof. intros H Hv. unfold verdict_ok, verdict_le in *. rewrite H. tauto. Qed.

Lemma worsens_trans st1 st2 st3 : worsens st1 st2 -> worsens st2 st3 -> worsens st1 st3.
Proof.
  intros H1 H2 Hv. destruct (H1 Hv) as [Hv2 L1]. destruct (H2 Hv2) as [Hv3 L2]. split; [done|].
  unfold verdict_le in *. lia.
Qed.

Lemma record_worsens st ok : worsens st (orbis_jit_record st ok).
Proof.
  intros Hv. unfold verdict_ok, verdict_le, orbis_jit_record in *. cbn.
  destruct Hv as [H|[H|H]]; rewrite H; destruct ok; cbn; lia.
Qed.

Lemma record_after st st1 ok : s_state st1 = s_state st -> worsens st (orbis_jit_record st1 ok).
Proof. intros H. eapply worsens_trans; [by apply worsens_same|apply record_worsens]. Qed.

Lemma map_worsens K st at_ len : worsens st (fst (orbis_jit_map K st at_ len)).
Proof.
  unfold orbis_jit_map.
  destruct (sceKernelAllocateDirectMemory K (hist st) len) as [rc ph].
  destruct (negb (rc =? 0)); [by apply worsens_same|]. cbv zeta.
  destruct (sceKernelMapNamedDirectMemory K _ at_ len ph) as [rc' got].
  destruct (_ || _ || _); [apply worsens_same; by destruct (_ && _)|].
  destruct (negb _); [by apply record_after|].
  destruct (orbis_jit_verify K _ got) as [st2 ok] eqn:Hv.
  destruct (verify_fields _ _ _ _ _ Hv) as (_ & V & _).
  destruct ok; cbn [negb fst]; by apply record_after.
Qed.

Lemma should_log_worsens K st : worsens st (fst (orbis_jit_should_log K st)).
Proof. apply worsens_same. by destruct (should_log_fields K st) as (_ & ? & _). Qed.

Lemma log_if_worsens K st st1 (b : bool) :
  s_state st1 = s_state st -> worsens st (if b then st1 else fst (orbis_jit_should_log K st1)).
Proof.
  intros H. destruct b; [by apply worsens_same|].
  apply worsens_same. by destruct (should_log_fields K st1) as (_ & -> & _).
Qed.

Lemma grow_worsens K fuel st n flags st' ok :
  orbis_jit_grow K fuel st n flags = Ok (st', ok) -> worsens st st'.
Proof.
  unfold orbis_jit_grow. destruct (_ <=? _)%nat; [intros [= <- _]; by apply worsens_same|]. cbv zeta.
  intros ([h at_] & _ & H)%bind_ok_inv. destruct at_ as [at_|]; [|injection H as <- _; by apply worsens_same].
  pose proof (map_worsens K (set_hist st h) at_ (orbis_jit_arena_size K n)) as Hm.
  destruct (orbis_jit_map K (set_hist st h) at_ _) as [st1 [[got ph]|]]; injection H as <- _; [|done].
  eapply worsens_trans; [exact Hm|]. by apply (log_if_worsens K).
Qed.

Lemma alloc_worsens K fuel st n flags st' p :
  orbis_jit_alloc K fuel st n flags = Ok (st', p) -> worsens st st'.
Proof.
  unfold orbis_jit_alloc. destruct (take_from _ _ _ _) as [[at_ arenas]|].
  - intros [= <- _]. by apply worsens_same.
  - intros ([st1 ok] & Hg & H)%bind_ok_inv. apply grow_worsens in Hg.
    eapply worsens_trans; [exact Hg|]. injection H as H.
    destruct ok; [destruct (take_last _ _) as [[at_ arenas]|]|]; injection H as <- _; by apply worsens_same.
Qed.

Lemma alloc_at_worsens K fuel st addr n st' p :
  orbis_jit_alloc_at K fuel st addr n = Ok (st', p) -> worsens st st'.
Proof.
  unfold orbis_jit_alloc_at. cbv zeta.
  destruct (_ || _); [intros [= <- _]; by apply worsens_same|].
  destruct (_ <=? _)%nat; [intros [= <- _]; by apply worsens_same|].
  intros ([h found] & _ & H)%bind_ok_inv. destruct (found =? 0); [injection H as <- _; by apply worsens_same|].
  pose proof (map_worsens K (set_hist st h) addr (orbis_jit_round (if n =? 0 then 1 else n) G)) as Hm.
  destruct (orbis_jit_map K (set_hist st h) addr _) as [st1 [[got ph]|]]; injection H as <- _; [|done].
  eapply worsens_trans; [exact Hm|]. by apply worsens_same.
Qed.

Lemma protect_worsens K st addr len : worsens st (fst (orbis_jit_protect K st addr len)).
Proof.
  assert (Hrem : forall st st1 b e ok, s_state st1 = s_state st -> worsens st (remember st1 b e ok)).
  { intros st0 st1 b e ok Hs. eapply worsens_trans; [by apply record_after|].
    unfold remember. by destruct (_ <? _)%nat; apply worsens_same. }
  destruct (protect_ends K st addr len) as [i p Hc|i p c Hn Hi Ho|c Hn|c st2 ok Hn _ (st1 & Hv & _ & Hs & _) _].
  - by apply worsens_same.
  - by apply worsens_same.
  - by apply Hrem.
  - apply Hrem. destruct (verify_fields _ _ _ _ _ Hv) as (_ & V & _). congruence.
Qed.

Lemma free_worsens st p : worsens st (orbis_jit_free st p).
Proof.
  apply worsens_same. unfold orbis_jit_free. destruct (p =? 0); [done|]. by destruct (free_from _ _ _).
Qed.

Lemma step_worsens K s s' : client_step K s s' -> worsens (fst s) (fst s').
Proof.
  destruct 1; cbn [fst].
  - by eapply alloc_worsens.
  - by eapply alloc_at_worsens.
  - apply free_worsens.
  - by apply worsens_same.
  - apply protect_worsens.
  - by apply worsens_same.
Qed.

(** ** Properties of every run *)

(** C3: whatever sequence of allocations, frees, promotions, releases and
    stores of generated code a client makes, the blocks it holds at any time
    are pairwise disjoint, each lies inside memory the module still holds from
    the kernel, none of its bytes is on a free list, and its hidden header
    still reads as its length - so the free that ends it will be accepted. *)
Theorem orbis_jit_run_safe K taken `{!QueryLaws K taken} `{!MapLaws K taken} st live
  (Hanchor : anchor_ok K) (Hrun : rtc (client_step K) (initial, []) (st, live)) :
  pairwise blocks_apart live /\
  Forall (fun b => exists a, a ∈ s_arena st /\ (base a, size a) ∈ held_maps (hist st) /\
    base a <= bk_lo b /\ bk_lo b + bk_len b <= base a + size a /\
    (dedicated a = false ->
       (forall x, bk_lo b <= x < bk_lo b + bk_len b -> ~ free_at (spans a) x) /\
       load_le (heap st) (bk_ptr b - ORBIS_JIT_ALIGN) 8 = bk_len b)) live.
Proof.
  pose proof (run_inv K taken Hanchor _ Hrun) as [Ht Hl Hp]. cbn [fst snd] in *.
  split; [done|]. eapply List.Forall_impl; [|exact Hl]. intros b (a & Ha & Hb).
  destruct (block_in_bounds _ _ _ (table_arena_ok _ _ _ Ht Ha) Hb) as (B1 & B2 & _).
  exists a. split_and!; try done; [rewrite (tb_maps _ _ Ht); by apply elem_maps_of|].
  intros Hd. unfold block_in in Hb. rewrite Hd in Hb. destruct Hb as (H1 & _ & _ & _ & (_ & _ & _ & H5) & H6).
  split; [done|]. by replace (bk_ptr b - ORBIS_JIT_ALIGN) with (bk_lo b) by lia.
Qed.

(** A run: two allocations, the second near the module, and a free of the first. *)
Definition demo_fuel : nat := Z.to_nat 90000.

Definition demo_first : jit :=
  match orbis_jit_alloc granting demo_fuel initial 100 0 with Ok (st, _) => st | _ => initial end.
Definition demo_second : jit :=
  match orbis_jit_alloc granting demo_fuel demo_first 5000 1 with Ok (st, _) => st | _ => initial end.
Definition demo_blocks : list block := [shared_block 34896609344 5000; shared_block 38654705728 100].

Lemma demo_near_fuel : near_fuel demo_fuel.
Proof. unfold near_fuel, demo_fuel. lia. Qed.

Lemma demo_alloc_first : orbis_jit_alloc granting demo_fuel initial 100 0 = Ok (demo_first, 38654705728).
Proof. vm_compute. reflexivity. Qed.

Lemma demo_alloc_second :
  orbis_jit_alloc granting demo_fuel demo_first 5000 1 = Ok (demo_second, 34896609344).
Proof. vm_compute. reflexivity. Qed.

Lemma demo_reached : rtc (client_step granting) (initial, []) (demo_second, demo_blocks).
Proof.
  eapply rtc_l; [exact (step_alloc granting demo_fuel 100 0 initial [] _ _ ltac:(unfold MAX_REQUEST; lia) demo_near_fuel demo_alloc_first)|].
  eapply rtc_l; [exact (step_alloc granting demo_fuel 5000 1 _ _ _ _ ltac:(unfold MAX_REQUEST; lia) demo_near_fuel demo_alloc_second)|].
  apply rtc_refl.
Qed.

Lemma orbis_jit_run_safe_witness :
  length (s_arena demo_second) = 2%nat /\ pairwise blocks_apart demo_blocks.
Proof.
  split; [vm_compute; reflexivity|].
  exact (proj1 (orbis_jit_run_safe granting console_taken demo_second demo_blocks granting_anchor demo_reached)).
Defined.

(** C11: the module holds exactly the direct memory and the mappings of its
    arena table, at most eight, after any run; nothing was ever mapped over
    one of its mappings, unmapped twice or released twice; and
    [orbis_jit_release_all] gives all of it back. *)
Theorem orbis_jit_run_ledger K taken `{!QueryLaws K taken} `{!MapLaws K taken} st live
  (Hanchor : anchor_ok K) (Hrun : rtc (client_step K) (initial, []) (st, live)) :
  sane (hist st) /\
  held_maps (hist st) = list_to_set_disj (map (fun a => (base a, size a)) (s_arena st)) /\
  held_direct (hist st) = list_to_set_disj (map (fun a => (phys a, size a)) (s_arena st)) /\
  (length (s_arena st) <= ORBIS_JIT_MAX_ARENAS)%nat /\
  let st' := orbis_jit_release_all st in
  s_arena st' = [] /\ sane (hist st') /\ held_maps (hist st') = ∅ /\ held_direct (hist st') = ∅.
Proof.
  pose proof (run_inv K taken Hanchor _ Hrun) as Hi. cbn [fst snd] in *.
  destruct (release_all_inv _ _ Hi) as [[R1 R2 R3 _ _ _] _ _].
  destruct Hi as [[T1 T2 T3 T4 _ _] _ _]. by split_and!.
Qed.

Lemma orbis_jit_run_ledger_witness :
  (length (hist demo_second) > 4)%nat /\ sane (hist demo_second) /\
  held_maps (hist (orbis_jit_release_all demo_second)) = ∅.
Proof.
  split; [apply Nat.ltb_lt; vm_compute; reflexivity|].
  destruct (orbis_jit_run_ledger granting console_taken demo_second demo_blocks granting_anchor demo_reached)
    as (H1 & _ & _ & _ & _ & _ & H2 & _).
  split; [exact H1|exact H2].
Defined.

(** The module-wide verdict only ever gets worse: it starts at -1, one
    refusal makes it 0 for good, and no call whatever brings it back. *)
Theorem orbis_jit_state_worsens K s s' (Hok : verdict_ok (fst s)) (Hrun : rtc (client_step K) s s') :
  verdict_ok (fst s') /\ verdict_le (orbis_jit_state (fst s)) (orbis_jit_state (fst s')) /\
  (orbis_jit_state (fst s) = 0 -> orbis_jit_state (fst s') = 0).
Proof.
  assert (H : worsens (fst s) (fst s')).
  { clear Hok. induction Hrun as [s|s1 s2 s3 Hs _ IH]; [by apply worsens_same|].
    eapply worsens_trans; [by eapply step_worsens|done]. }
  destruct (H Hok) as [H1 H2]. split; [done|]. split; [done|].
  unfold verdict_le, orbis_jit_state in *. lia.
Qed.

Lemma orbis_jit_state_worsens_witness :
  orbis_jit_state initial = -1 /\ orbis_jit_state demo_second = 1 /\ verdict_ok demo_second.
Proof.
  split; [reflexivity|]. split; [vm_compute; reflexivity|].
  exact (proj1 (orbis_jit_state_worsens granting (initial, []) (demo_second, demo_blocks)
    (or_introl eq_refl) demo_reached)).
Defined.

(** ** Properties of the entry points *)

(** C33: [orbis_jit_alloc] always returns.  A pointer it returns is cache-line
    aligned, heads a block of at least the size asked for that is disjoint
    from everything handed out before, and, when the request says NEAR_TEXT,
    every rel32 displacement between the module and the block fits.  NULL
    leaves the arena table as it was, and is returned only when no arena had
    room. *)
Theorem orbis_jit_alloc_correct K taken `{!QueryLaws K taken} `{!MapLaws K taken} fuel st live n flags
  (Hanchor : anchor_ok K) (Hinv : jit_inv st live) (Hn : 0 <= n <= MAX_REQUEST) (Hfuel : near_fuel fuel) :
  exists st' p, orbis_jit_alloc K fuel st n flags = Ok (st', p) /\
    (p = 0 -> jit_inv st' live /\ s_arena st' = s_arena st /\
       take_from K flags (block_len n) (s_arena st) = None) /\
    (p <> 0 -> jit_inv st' (shared_block p n :: live) /\ (ORBIS_JIT_ALIGN | p) /\
       p + n <= bk_lo (shared_block p n) + bk_len (shared_block p n) /\
       Forall (blocks_apart (shared_block p n)) live /\
       (near_text flags = true -> within_rel32 K (p - ORBIS_JIT_ALIGN) (block_len n))).
Proof.
  destruct (runs_elim _ _ (alloc_ok K taken Hanchor fuel st live n flags Hinv Hfuel Hn))
    as ([st' p] & Hr & Hres).
  exists st', p. split; [done|]. unfold alloc_result in Hres.
  destruct (Z.eqb_spec p 0) as [->|Hp]; [done|]. split; [done|]. intros _.
  destruct Hres as (H1 & H2 & H3 & H4). split_and!; try done. by destruct H1 as [_ _ [H1 _]].
Qed.

Lemma orbis_jit_alloc_witness :
  exists st', orbis_jit_alloc granting demo_fuel initial 100 1 = Ok (st', 34896609344) /\
    within_rel32 granting 34896609280 192.
Proof.
  destruct (orbis_jit_alloc_correct granting console_taken demo_fuel initial [] 100 1
    granting_anchor initial_inv ltac:(unfold MAX_REQUEST; lia) demo_near_fuel) as (st' & p & Hr & _ & Hp).
  assert (Hp0 : p = 34896609344).
  { assert (H : (r ← orbis_jit_alloc granting demo_fuel initial 100 1; Ok (snd r)) = Ok 34896609344)
      by (vm_compute; reflexivity).
    rewrite Hr in H. cbn in H. congruence. }
  subst p. exists st'. split; [exact Hr|].
  destruct (Hp ltac:(lia)) as (_ & _ & _ & _ & H). exact (H eq_refl).
Defined.

(** The sizes [orbis_jit_alloc] serves are exactly those up to
    [2^64 - 128]: above, adding the alignment and the header wraps around, the
    block computed is shorter than the request plus its header (0 or 64
    bytes), and nothing in the function notices. *)
Theorem orbis_jit_alloc_overflow n (Hn : 0 <= n <= SIZE_MAX) :
  (n + ORBIS_JIT_ALIGN <= block_len n <-> n <= 2 ^ 64 - 128) /\
  (2 ^ 64 - 128 < n <= 2 ^ 64 - 64 -> block_len n = 0) /\
  (2 ^ 64 - 64 < n -> block_len n = ORBIS_JIT_ALIGN).
Proof.
  unfold SIZE_MAX, block_len in *.
  destruct (Z.eqb_spec n 0) as [->|Hn0]; [split; [|lia]; split; [lia|intros _; vm_compute; discriminate]|].
  rewrite align_pow, round_eq by lia. change (2 ^ 6) with 64.
  destruct (Z.le_gt_cases n (2 ^ 64 - 64)).
  - rewrite (u64_small (n + (64 - 1))) by lia. unfold u64. dlia.
  - replace (u64 (n + (64 - 1))) with (n + 63 - 2 ^ 64).
    + unfold u64. dlia.
    + unfold u64. symmetry. rewrite <- (Z.mod_add _ (-1)) by lia. apply Z.mod_small. lia.
Qed.

Lemma orbis_jit_alloc_overflow_witness :
  block_len SIZE_MAX = 64 /\
  (r ← orbis_jit_alloc granting demo_fuel initial SIZE_MAX 0; Ok (snd r)) = Ok 38654705728.
Proof.
  split; [exact (proj2 (proj2 (orbis_jit_alloc_overflow SIZE_MAX ltac:(unfold SIZE_MAX; lia))) ltac:(unfold SIZE_MAX; lia))|].
  vm_compute. reflexivity.
Defined.

(** [orbis_jit_alloc_at] always returns, and returns either the very
    address asked for, as a mapping of its own that covers the size and
    nothing that was mapped before, or NULL with the arena table unchanged. *)
Theorem orbis_jit_alloc_at_correct K taken `{!QueryLaws K taken} `{!MapLaws K taken} fuel st live addr n
  (Hinv : jit_inv st live) (Haddr : 0 <= addr) (Hn : 0 <= n) (Hend : addr + n < 2 ^ 61)
  (Hfuel : at_fuel n fuel) :
  exists st' p, orbis_jit_alloc_at K fuel st addr n = Ok (st', p) /\
    (p = 0 -> jit_inv st' live /\ s_arena st' = s_arena st) /\
    (p <> 0 -> p = addr /\ n <= bk_len (dedicated_block p n) /\
       jit_inv st' (dedicated_block p n :: live) /\
       Forall (blocks_apart (dedicated_block p n)) live).
Proof.
  destruct (runs_elim _ _ (alloc_at_ok K taken fuel st live addr n Hinv Haddr Hn Hend Hfuel))
    as ([st' p] & Hr & Hres).
  exists st', p. split; [done|]. unfold alloc_at_result in Hres.
  destruct (Z.eqb_spec p 0) as [->|Hp]; [done|]. split; [done|]. intros _.
  destruct Hres as (-> & H2 & H3). split_and!; try done. by destruct H3 as [_ _ [H3 _]].
Qed.

Lemma orbis_jit_alloc_at_witness :
  exists st', orbis_jit_alloc_at granting demo_fuel demo_second 0xA00000000 20000 = Ok (st', 0xA00000000) /\
    jit_inv st' (dedicated_block 0xA00000000 20000 :: demo_blocks).
Proof.
  destruct (orbis_jit_alloc_at_correct granting console_taken demo_fuel demo_second demo_blocks 0xA00000000 20000
    (run_inv granting console_taken granting_anchor _ demo_reached) ltac:(lia) ltac:(lia) ltac:(lia)
    ltac:(unfold at_fuel, demo_fuel, ORBIS_JIT_GRANULE; dlia)) as (st' & p & Hr & _ & Hp).
  assert (Hp0 : p = 0xA00000000).
  { assert (H : (r ← orbis_jit_alloc_at granting demo_fuel demo_second 0xA00000000 20000; Ok (snd r)) = Ok 0xA00000000)
      by (vm_compute; reflexivity).
    rewrite Hr in H. cbn in H. congruence. }
  subst p. exists st'. split; [exact Hr|].
  exact (proj1 (proj2 (proj2 (Hp ltac:(lia))))).
Defined.

(** The arena of a block and what freeing the block does to it. *)
Lemma free_effect st live b :
  jit_inv st live -> b ∈ live ->
  exists pre a post, s_arena st = pre ++ a :: post /\ block_in (heap st) a b /\ arena_ok a /\
    orbis_jit_free st (bk_ptr b) =
      let '(a', cs) := free_in (heap st) a (bk_ptr b) in
      set_hist (set_arenas st (pre ++ a' ++ post)) (cs ++ hist st).
Proof.
  intros [Ht Hl _] Hin. rewrite List.Forall_forall in Hl.
  destruct (Hl b) as (a & Ha & Hb); [by apply list_elem_of_In|].
  pose proof (table_arena_ok _ _ _ Ht Ha) as Hok.
  destruct (block_in_bounds _ _ _ Hok Hb) as (B1 & B2 & B3 & B4).
  assert (Hbase : 0 < base a) by (by destruct Hok as [(_ & _ & ? & _) _]).
  apply list_elem_of_split in Ha as (pre & post & Hst). exists pre, a, post. split_and!; try done.
  unfold orbis_jit_free. destruct (Z.eqb_spec (bk_ptr b) 0); [lia|].
  rewrite Hst in *. rewrite free_from_split by (lia || (eapply others_apart; [exact Ht|lia])).
  by destruct (free_in (heap st) a (bk_ptr b)).
Qed.

(** [orbis_jit_free] of a pointer that was handed out undoes the
    allocation and touches nothing else: in a shared arena exactly the bytes
    of the block, header included, become free (unless the list already holds
    all 256 spans, when the block is leaked), with no call to the kernel; a
    dedicated arena is unmapped, its physical memory released and its slot
    closed up.  NULL is ignored. *)
Theorem orbis_jit_free_correct st l1 b l2 (Hinv : jit_inv st (l1 ++ b :: l2)) :
  let st' := orbis_jit_free st (bk_ptr b) in
  jit_inv st' (l1 ++ l2) /\ heap st' = heap st /\ orbis_jit_free st 0 = st /\
  exists pre a post, s_arena st = pre ++ a :: post /\ block_in (heap st) a b /\
    if dedicated a
    then s_arena st' = pre ++ post /\
         hist st' = KRelease (phys a) (size a) :: KMunmap (base a) (size a) :: hist st
    else hist st' = hist st /\
         exists sp, s_arena st' = pre ++ with_spans a sp :: post /\
           forall x, free_at sp x <->
             free_at (spans a) x \/
             (length (spans a) < ORBIS_JIT_MAX_SPANS)%nat /\ bk_lo b <= x < bk_lo b + bk_len b.
Proof.
  intros st'. assert (Hi : jit_inv st' (l1 ++ l2)) by by apply free_ok.
  destruct (free_effect st _ b Hinv) as (pre & a & post & Hst & Hb & Hok & He);
    [rewrite elem_of_app, elem_of_cons; tauto|].
  fold st' in He. split; [done|].
  split; [rewrite He; by destruct (free_in (heap st) a (bk_ptr b))|]. split; [done|].
  exists pre, a, post. split; [done|]. split; [done|].
  destruct (dedicated a) eqn:Hd.
  - unfold block_in in Hb. rewrite Hd in Hb. subst b. unfold free_in in He. rewrite Hd in He.
    cbn [bk_ptr] in He. rewrite Z.eqb_refl in He. by rewrite He.
  - rewrite (free_in_shared _ _ _ Hok Hd Hb) in He.
    destruct (orbis_jit_give (spans a) (bk_lo b) (bk_len b)) as [sp|] eqn:Hg; rewrite He; (split; [done|]).
    + exists sp. split; [done|]. destruct (give_arena_ok _ _ _ _ Hok Hd Hb Hg) as [_ Hf].
      destruct (decide (length (spans a) < ORBIS_JIT_MAX_SPANS)%nat);
        [intros x; rewrite Hf; tauto|rewrite give_full in Hg; [done|lia]].
    + exists (spans a). split; [by destruct a|]. intros x.
      destruct (decide (length (spans a) < ORBIS_JIT_MAX_SPANS)%nat); [|tauto].
      destruct Hok as [_ Hok]. destruct (Hok Hd) as [Hs _]. unfold block_in in Hb. rewrite Hd in Hb.
      destruct Hb as (_ & _ & _ & _ & Hlive & _).
      destruct (give_ok _ _ _ _ _ Hs Hlive) as (sp' & Hg' & _); [done|congruence].
Qed.

Lemma orbis_jit_free_witness :
  jit_inv (orbis_jit_free demo_second 34896609344) [shared_block 38654705728 100] /\
  map spans (s_arena (orbis_jit_free demo_second 34896609344)) =
    [[mk_span 38654705856 16777024]; [mk_span 34896609280 16777216]].
Proof.
  split; [|vm_compute; reflexivity].
  exact (proj1 (orbis_jit_free_correct demo_second [] (shared_block 34896609344 5000) [shared_block 38654705728 100]
    (run_inv granting console_taken granting_anchor _ demo_reached))).
Defined.

(** [orbis_jit_map] leaks nothing: whichever of its steps fails - the
    allocation, the mapping, an address other than the one insisted on, the
    promotion, or a stub that does not run - what the module holds from the
    kernel is what it held before, and what it held keeps its bytes.  Success
    adds one mapping, apart from the others, with its physical memory. *)
Theorem orbis_jit_map_correct K taken `{!MapLaws K taken} st at_ len
  (Hsane : sane (hist st)) (Hlen : 0 < len) (HG : (G | len))
  (Hat : at_ <> 0 -> apart_from (hist st) at_ len) :
  let '(st', m) := orbis_jit_map K st at_ len in
  sane (hist st') /\ s_arena st' = s_arena st /\
  (forall b l x, (b, l) ∈ held_maps (hist st) -> b <= x < b + l ->
     peek (heap st') x = peek (heap st) x) /\
  match m with
  | None => held_maps (hist st') = held_maps (hist st) /\
            held_direct (hist st') = held_direct (hist st)
  | Some (got, ph) =>
      good_range got len /\ apart_from (hist st) got len /\ (at_ <> 0 -> got = at_) /\
      held_maps (hist st') = {[+ (got, len) +]} ⊎ held_maps (hist st) /\
      held_direct (hist st') = {[+ (ph, len) +]} ⊎ held_direct (hist st)
  end.
Proof.
  pose proof (map_ok K taken st at_ len Hsane Hlen HG Hat) as Hr.
  destruct (orbis_jit_map K st at_ len) as [st' m]. destruct Hr as (H1 & H2 & _ & H4 & H5). done.
Qed.

Lemma orbis_jit_map_witness :
  let st' := fst (orbis_jit_map refusing initial 0 32768) in
  length (hist st') = 5%nat /\ s_state st' = 0 /\ held_direct (hist st') = ∅.
Proof.
  split; [vm_compute; reflexivity|]. split; [vm_compute; reflexivity|].
  pose proof (orbis_jit_map_correct refusing console_taken initial 0 32768 I ltac:(lia)
    ltac:(exists 2; reflexivity) ltac:(done)) as H.
  assert (Hm : snd (orbis_jit_map refusing initial 0 32768) = None) by (vm_compute; reflexivity).
  destruct (orbis_jit_map refusing initial 0 32768) as [st' m]. cbn in Hm. subst m.
  exact (proj2 (proj2 (proj2 (proj2 H)))).
Defined.

Lemma promote_end_ok addr len :
  0 <= addr -> 0 <= len -> addr + len + G < 2 ^ 64 ->
  (G | promote_end addr len) /\ addr + len <= promote_end addr len < addr + len + G.
Proof.
  unfold promote_end, round_granule. intros. pose proof granule_pow as HG.
  rewrite u64_small by lia. rewrite HG. split; [by apply round_divide|apply round_up; lia].
Qed.

(** [orbis_jit_protect] promotes whole granules, rounded outwards so that
    the first and last bytes of the buffer are covered; asking again for the
    same pages repeats the verdict without a kernel call and without writing
    the stub over code (as long as the table has a slot); the stub is written
    only where no recorded range overlaps, and yes is answered only for pages
    whose stub ran, or that extend pages with that verdict. *)
Theorem orbis_jit_protect_correct K st addr len
  (Haddr : 0 <= addr) (Hlen : 0 <= len) (Hend : addr + len + G < 2 ^ 64) :
  let b := promote_base addr in
  let e := promote_end addr len in
  let '(st', ok) := orbis_jit_protect K st addr len in
  (G | b) /\ (G | e) /\ b <= addr /\ addr + len <= e /\ s_arena st' = s_arena st /\
  ((length (s_promoted st) < ORBIS_JIT_MAX_PROMOTED)%nat ->
     orbis_jit_protect K st' addr len = (st', ok)) /\
  (heap st' <> heap st ->
     Forall (fun p => overlaps b e p = false) (s_promoted st) /\
     heap st' = store_bytes (heap st) addr stub) /\
  (ok = true ->
     (exists p, p ∈ s_promoted st /\ pr_ok p = true /\ (covers b e p || overlaps b e p) = true) \/
     hist st' = KStub addr 0x00c0ffee :: KMprotect b (u64 (e - b)) 0 :: hist st).
Proof.
  assert (HG : G = 16384) by done.
  destruct (promote_base_ok addr) as [Hb1 Hb2]; [lia|].
  pose proof (promote_end_ok addr len Haddr Hlen Hend) as [He1 He2].
  pose proof (protect_ends K st addr len) as He.
  destruct (orbis_jit_protect K st addr len) as [st' ok]. cbn [fst snd] in He. intros b e.
  assert (Hrep : (length (s_promoted st) < ORBIS_JIT_MAX_PROMOTED)%nat ->
     orbis_jit_protect K st' addr len = (st', ok)).
  { intros Hl. destruct (protect_recorded _ _ _ _ _ _ He Hl) as (i & p & Hc & <-).
    by eapply protect_cached_eq. }
  destruct He as [i p Hc|i p c Hn Hi Ho|c Hn|c st2 ok Hn Hov (st1 & Hv & H1 & H2 & H3 & H4 & H5) Hcc];
    (split_and!; [done|done|lia|lia| |done| |]).
  - done.
  - done.
  - intros Hok. left. exists p. apply list_find_Some in Hc as (Hi & Hcov & _).
    split; [by eapply list_elem_of_lookup_2|]. split; [done|].
    unfold b, e. by rewrite (Is_true_true_1 _ Hcov).
  - done.
  - done.
  - intros Hok. left. exists p. split; [by eapply list_elem_of_lookup_2|]. split; [done|].
    unfold b, e. rewrite Ho. apply orb_true_r.
  - unfold remember. by destruct (_ <? _)%nat.
  - unfold remember. by destruct (_ <? _)%nat.
  - done.
  - destruct (verify_fields _ _ _ _ _ Hv) as (V & _). unfold remember. destruct (_ <? _)%nat; cbn; congruence.
  - intros _. split; [done|]. destruct (verify_fields _ _ _ _ _ Hv) as (_ & _ & _ & V & _).
    rewrite <- H4, <- V. unfold remember. by destruct (_ <? _)%nat.
  - intros ->. right. destruct (verify_fields _ _ _ _ _ Hv) as (_ & _ & _ & _ & g & V & Hg).
    symmetry in Hg. apply Z.eqb_eq in Hg as ->. rewrite H5, Hcc in V. unfold b, e. rewrite <- V.
    unfold remember. by destruct (_ <? _)%nat.
Qed.

(** melonDS: the same length twice, bases 224 KiB apart. *)
Lemma orbis_jit_protect_witness :
  let st1 := fst (orbis_jit_protect granting initial 0x800e14000 0x8000000) in
  let st2 := fst (orbis_jit_protect granting st1 0x800e4c000 0x8000000) in
  s_promoted st2 = [mk_promoted 0x800e14000 0x808e4c000 true] /\
  orbis_jit_protect granting st2 0x800e4c000 0x8000000 = (st2, true).
Proof.
  intros st1 st2. split; [vm_compute; reflexivity|].
  pose proof (orbis_jit_protect_correct granting st1 0x800e4c000 0x8000000 ltac:(lia) ltac:(lia)
    ltac:(unfold ORBIS_JIT_GRANULE; lia)) as H. unfold st2.
  assert (Hok : snd (orbis_jit_protect granting st1 0x800e4c000 0x8000000) = true) by (vm_compute; reflexivity).
  destruct (orbis_jit_protect granting st1 0x800e4c000 0x8000000) as [st' ok]. cbn [fst snd] in *. subst ok.
  apply (proj1 (proj2 (proj2 (proj2 (proj2 (proj2 H)))))).
  vm_compute. lia.
Defined.

(** A window whose first 64 KiB are a mapping held. *)
Definition demo_history : list kcall := [KMap 0 0x10000 0 0 0x900000000].

Lemma orbis_jit_find_free_witness :
  exists h', orbis_jit_find_free granting demo_fuel demo_history 0x900000000 0x900020000 0x8000 =
    Ok (h', 0x900010000) /\ asked demo_history h'.
Proof.
  destruct (orbis_jit_find_free_correct granting console_taken demo_history 0x900000000 0x900020000 0x8000 demo_fuel
    ltac:(lia) ltac:(lia) ltac:(lia) ltac:(exists 2; reflexivity)
    ltac:(unfold demo_fuel, ORBIS_JIT_GRANULE; dlia)) as (h' & at_ & Hr & Ha & _).
  assert (Hat : at_ = 0x900010000).
  { assert (H : (r ← orbis_jit_find_free granting demo_fuel demo_history 0x900000000 0x900020000 0x8000; Ok (snd r)) = Ok 0x900010000)
      by (vm_compute; reflexivity).
    rewrite Hr in H. cbn in H. congruence. }
  subst at_. exists h'. split; [exact Hr|exact Ha].
Defined.
