(* ===== verification/JitLock.v ===== *)
(** The spin lock around the entry points of [src/orbis_jit.c]: threads that
    call them in any interleaving act as if the calls were made one after the
    other, which is how [Jit] and [JitRun] take them. *)
From stdpp Require Import prelude list numbers relations functions.
From S2P Require Import Prelude.
Open Scope Z_scope.

Module JitLock.

(** [__atomic_exchange_n] and [__atomic_store_n] on [s_lock]. *)
Definition atomic_exchange (lock v : Z) : Z * Z := (v, lock).

(** One round of the loop of [orbis_jit_lock]: the lock word afterwards, and
    whether the thread has the lock or sleeps 50 microseconds. *)
Definition orbis_jit_lock (lock : Z) : Z * bool :=
  let '(lock, old) := atomic_exchange lock 1 in (lock, old =? 0).

Definition orbis_jit_unlock (lock : Z) : Z := 0.

Section threads.
(** A call of an entry point, and the accesses its body makes between lock and
    unlock: each is an update of the shared state [S]. *)
Context {S call : Type} (accesses : call -> list (S -> S)).

Inductive pc := Out | Spinning (c : call) | Critical (c : call) (k : nat).

(** [done_calls]: the calls that have unlocked, oldest first. *)
Record world := mk_world { s_lock : Z; shared : S; pcs : nat -> pc; done_calls : list call }.

Definition initial (s0 : S) : world := mk_world 0 s0 (fun _ => Out) [].

Inductive step : world -> world -> Prop :=
  | step_call t c l s p h :
      p t = Out -> step (mk_world l s p h) (mk_world l s (<[t := Spinning c]> p) h)
  | step_exchange t c l l' got s p h :
      p t = Spinning c -> orbis_jit_lock l = (l', got) ->
      step (mk_world l s p h) (mk_world l' s (<[t := if got : bool then Critical c 0 else Spinning c]> p) h)
  | step_access t c k f l s p h :
      p t = Critical c k -> accesses c !! k = Some f ->
      step (mk_world l s p h) (mk_world l (f s) (<[t := Critical c (k + 1)]> p) h)
  | step_unlock t c l s p h :
      p t = Critical c (length (accesses c)) ->
      step (mk_world l s p h) (mk_world (orbis_jit_unlock l) s (<[t := Out]> p) (h ++ [c])).

End threads.
End JitLock.

(** ** Atomicity *)

Section atomic.
Context {S call : Type} (accesses : call -> list (S -> S)).
Local Abbreviation world := (@JitLock.world S call).
Local Abbreviation step := (JitLock.step accesses).

Definition apply_all (fs : list (S -> S)) (s : S) : S := foldl (fun s f => f s) s fs.

(** The calls made one after the other. *)
Definition sequential (s0 : S) (cs : list call) : S := foldl (fun s c => apply_all (accesses c) s) s0 cs.

(** Nobody is inside and the lock word is 0, or one thread is and it is 1. *)
Definition lock_inv (s0 : S) (w : world) : Prop :=
  (JitLock.s_lock w = 0 /\ (forall t c k, JitLock.pcs w t <> JitLock.Critical c k) /\
   JitLock.shared w = sequential s0 (JitLock.done_calls w)) \/
  (JitLock.s_lock w = 1 /\ exists t c k, JitLock.pcs w t = JitLock.Critical c k /\
   (k <= length (accesses c))%nat /\
   (forall u c' k', JitLock.pcs w u = JitLock.Critical c' k' -> u = t) /\
   JitLock.shared w = apply_all (take k (accesses c)) (sequential s0 (JitLock.done_calls w))).

Lemma apply_all_snoc fs f s : apply_all (fs ++ [f]) s = f (apply_all fs s).
Proof. unfold apply_all. by rewrite foldl_app. Qed.

Lemma sequential_snoc s0 cs c : sequential s0 (cs ++ [c]) = apply_all (accesses c) (sequential s0 cs).
Proof. unfold sequential. by rewrite foldl_app. Qed.

(** A thread that is not inside moves without going in. *)
Lemma lock_inv_move s0 l s p h t P :
  lock_inv s0 (JitLock.mk_world l s p h) ->
  (forall c k, p t <> JitLock.Critical c k) -> (forall c k, P <> JitLock.Critical c k) ->
  lock_inv s0 (JitLock.mk_world l s (<[t := P]> p) h).
Proof.
  intros H Ht HP. unfold lock_inv in *. cbn in *. destruct H as [(Hl & Hn & Hs)|(Hl & u & c & k & Hu & Hk & Ho & Hs)].
  - left. split_and!; [done| |done]. intros u c k.
    destruct (decide (t = u)) as [<-|]; [by rewrite fn_lookup_insert|by rewrite fn_lookup_insert_ne].
  - assert (t <> u) by (intros ->; by apply (Ht c k)).
    right. split; [done|]. exists u, c, k. rewrite fn_lookup_insert_ne by done. split_and!; [done|done| |done].
    intros v c' k'. destruct (decide (t = v)) as [<-|]; [rewrite fn_lookup_insert; intros Hv; by apply HP in Hv|].
    rewrite fn_lookup_insert_ne by done. apply Ho.
Qed.

Lemma lock_step s0 w w' : step w w' -> lock_inv s0 w -> lock_inv s0 w'.
Proof.
  intros [t c l s p h Hp|t c l l' got s p h Hp Hx|t c k f l s p h Hp Hf|t c l s p h Hp] H.
  - apply lock_inv_move; [done|by rewrite Hp|done].
  - unfold JitLock.orbis_jit_lock, JitLock.atomic_exchange in Hx. injection Hx as <- <-.
    destruct (Z.eqb_spec l 0) as [->|Hl].
    + destruct H as [(_ & Hn & Hs)|(? & _)]; [|done]. right. cbn in *. split; [done|].
      exists t, c, 0%nat. rewrite fn_lookup_insert. split_and!; [done|lia| |done].
      intros u c' k'. destruct (decide (t = u)) as [<-|]; [done|]. rewrite fn_lookup_insert_ne by done.
      intros Hu. by apply Hn in Hu.
    + assert (l = 1) as -> by (destruct H as [(? & _)|(? & _)]; cbn in *; lia).
      apply lock_inv_move; [done|by rewrite Hp|done].
  - destruct H as [(_ & Hn & _)|(Hl & u & c' & k' & Hu & Hk & Ho & Hs)]; [by apply Hn in Hp|]. cbn in *.
    pose proof (Ho t c k Hp) as <-. rewrite Hp in Hu. injection Hu as <- <-. right. cbn. split; [done|].
    exists t, c, (k + 1)%nat. rewrite fn_lookup_insert. split_and!; [done| | |].
    + apply lookup_lt_Some in Hf. lia.
    + intros v c' k'. destruct (decide (t = v)) as [<-|]; [done|]. rewrite fn_lookup_insert_ne by done. apply Ho.
    + rewrite Nat.add_1_r, (take_S_r _ _ f Hf), apply_all_snoc. by rewrite Hs.
  - destruct H as [(_ & Hn & _)|(Hl & u & c' & k' & Hu & Hk & Ho & Hs)]; [by apply Hn in Hp|]. cbn in *.
    pose proof (Ho t c _ Hp) as <-. rewrite Hp in Hu. injection Hu as <- <-. left. cbn. split; [done|]. split.
    + intros v c' k'. destruct (decide (t = v)) as [<-|]; [by rewrite fn_lookup_insert|].
      rewrite fn_lookup_insert_ne by done. intros Hv. apply Ho in Hv. done.
    + by rewrite sequential_snoc, Hs, take_ge.
Qed.

(** Calls that take the lock are atomic under any interleaving: at most
    one thread is between lock and unlock; the state is that of the finished
    calls made one after the other in the order of their unlocks, and, while
    a thread is inside, of the accesses it has made on top of these. *)
Theorem orbis_jit_lock_atomic s0 w (Hrun : rtc step (JitLock.initial s0) w) :
  (forall t u c c' k k', JitLock.pcs w t = JitLock.Critical c k -> JitLock.pcs w u = JitLock.Critical c' k' -> t = u) /\
  (JitLock.s_lock w = 0 -> JitLock.shared w = sequential s0 (JitLock.done_calls w)) /\
  (forall t c k, JitLock.pcs w t = JitLock.Critical c k ->
     JitLock.s_lock w = 1 /\
     JitLock.shared w = apply_all (take k (accesses c)) (sequential s0 (JitLock.done_calls w))).
Proof.
  assert (H : lock_inv s0 w).
  { assert (H : lock_inv s0 (JitLock.initial s0)) by by left. revert H.
    induction Hrun as [w|w1 w2 w3 Hs _ IH]; [done|]. intros H. by apply IH, (lock_step s0 w1). }
  destruct H as [(Hl & Hn & Hs)|(Hl & u & c & k & Hu & Hk & Ho & Hs)].
  - split_and!; [intros t v c c' k k' Ht; by apply Hn in Ht|done|intros t c k Ht; by apply Hn in Ht].
  - split_and!.
    + intros t v c1 c2 k1 k2 Ht Hv. by rewrite (Ho t _ _ Ht), (Ho v _ _ Hv).
    + intros H0. congruence.
    + intros t c' k' Ht. pose proof (Ho t _ _ Ht) as ->. rewrite Hu in Ht. by injection Ht as <- <-.
Qed.
End atomic.

(** Two threads that each read, then write back, a counter: with the lock no
    increment is lost. *)
Definition demo_accesses (_ : unit) : list (Z * Z -> Z * Z) :=
  [fun '(n, r) => (n, n); fun '(n, r) => (r + 1, r)].

Lemma orbis_jit_lock_atomic_witness :
  exists w, rtc (JitLock.step demo_accesses) (JitLock.initial (5, 0)) w /\
    JitLock.done_calls w = [tt; tt] /\ JitLock.shared w = (7, 6).
Proof.
  assert (Hr : exists w, rtc (JitLock.step demo_accesses) (JitLock.initial (5, 0)) w /\
    JitLock.done_calls w = [tt; tt] /\ JitLock.s_lock w = 0).
  { eexists. split; [|split].
    - eapply rtc_l; [apply (JitLock.step_call _ 0 tt); reflexivity|].
      eapply rtc_l; [apply (JitLock.step_call _ 1 tt); reflexivity|].
      eapply rtc_l; [eapply (JitLock.step_exchange _ 0 tt); reflexivity|].
      eapply rtc_l; [eapply (JitLock.step_exchange _ 1 tt); reflexivity|].
      eapply rtc_l; [eapply (JitLock.step_access _ 0 tt 0); reflexivity|].
      eapply rtc_l; [eapply (JitLock.step_access _ 0 tt 1); reflexivity|].
      eapply rtc_l; [eapply (JitLock.step_unlock _ 0 tt); reflexivity|].
      eapply rtc_l; [eapply (JitLock.step_exchange _ 1 tt); reflexivity|].
      eapply rtc_l; [eapply (JitLock.step_access _ 1 tt 0); reflexivity|].
      eapply rtc_l; [eapply (JitLock.step_access _ 1 tt 1); reflexivity|].
      eapply rtc_l; [eapply (JitLock.step_unlock _ 1 tt); reflexivity|].
      apply rtc_refl.
    - reflexivity.
    - reflexivity. }
  destruct Hr as (w & Hr & Hd & Hl). exists w. split; [exact Hr|]. split; [exact Hd|].
  destruct (orbis_jit_lock_atomic demo_accesses (5, 0) w Hr) as (_ & H & _).
  rewrite (H Hl), Hd. reflexivity.
Defined.
