(* ===== verification/CxaGuard.v ===== *)
(** The guards of function-local statics, [src/orbis_cxa_guard.c]: the owner
    table, the three entry points under their mutex, and the threads of a
    process as a step relation. *)
From stdpp Require Import prelude list numbers relations functions.
From S2P Require Import Prelude.
Open Scope Z_scope.

Module Guard.

Definition FLAG_PENDING : Z := 1.
Definition FLAG_WAITING : Z := 2.
Definition OWNERS : nat := 64.

(** What the mutex protects: byte 0 and byte 1 of every guard, by address, and
    the table of owners ([(guard, owner)], a free slot has guard 0). *)
Record shared := mk_shared {
  done_byte : Z -> Z;
  flag_byte : Z -> Z;
  s_owners : list (Z * Z) }.

Fixpoint owner_set (owners : list (Z * Z)) (guard owner : Z) : list (Z * Z) :=
  match owners with
  | [] => []
  | (g, o) :: rest =>
      if g =? 0 then (guard, owner) :: rest else (g, o) :: owner_set rest guard owner
  end.

Fixpoint owner_clear (owners : list (Z * Z)) (guard : Z) : list (Z * Z) :=
  match owners with
  | [] => []
  | (g, o) :: rest => if g =? guard then (0, 0) :: rest else (g, o) :: owner_clear rest guard
  end.

Fixpoint owner_find (owners : list (Z * Z)) (guard : Z) : option Z :=
  match owners with
  | [] => None
  | (g, o) :: rest => if g =? guard then Some o else owner_find rest guard
  end.

Definition owner_is_self (owners : list (Z * Z)) (guard self : Z) : bool :=
  if self =? 0 then false
  else match owner_find owners guard with Some o => o =? self | None => false end.

(** One round of the loop of [__cxa_guard_acquire], under the mutex. *)
Inductive verdict := AlreadyDone | Mine | Recursive | Wait.

Definition cxa_guard_acquire (self : Z) (s : shared) (g : Z) : verdict * shared :=
  if negb (done_byte s g =? 0) then (AlreadyDone, s)
  else if Z.land (flag_byte s g) FLAG_PENDING =? 0 then
    (Mine, mk_shared (done_byte s) (<[g := Z.lor (flag_byte s g) FLAG_PENDING]> (flag_byte s))
             (owner_set (s_owners s) g self))
  else if owner_is_self (s_owners s) g self then (Recursive, s)
  else (Wait, mk_shared (done_byte s) (<[g := Z.lor (flag_byte s g) FLAG_WAITING]> (flag_byte s)) (s_owners s)).

(** The critical sections of release and abort; the boolean is [wake]. *)
Definition cxa_guard_release (s : shared) (g : Z) : bool * shared :=
  (negb (Z.land (flag_byte s g) FLAG_WAITING =? 0),
   mk_shared (<[g := 1]> (done_byte s)) (<[g := 0]> (flag_byte s)) (owner_clear (s_owners s) g)).

Definition cxa_guard_abort (s : shared) (g : Z) : bool * shared :=
  (negb (Z.land (flag_byte s g) FLAG_WAITING =? 0),
   mk_shared (done_byte s) (<[g := 0]> (flag_byte s)) (owner_clear (s_owners s) g)).

(** ** Threads *)

Inductive request := Acquire (g : Z) | Release (g : Z) | Abort_ (g : Z).

(** Where a thread is: in the client's code, at [pthread_mutex_lock], between
    lock and unlock, parked on the condition variable, about to take the mutex
    again, about to broadcast, or in [guard_recursion_abort]. *)
Inductive pc :=
  | Client
  | Locking (r : request)
  | Inside (r : request)
  | Parked (g : Z)
  | Relocking (g : Z)
  | Waking
  | Aborted (g : Z).

(** [held t] are the guards whose initializers thread [t] is running;
    [completed g] counts the releases of [g]. *)
Record world := mk_world {
  sh : shared;
  mutex : option nat;
  pcs : nat -> pc;
  held : nat -> list Z;
  completed : Z -> nat }.

Definition initial : world :=
  mk_world (mk_shared (fun _ => 0) (fun _ => 0) (replicate OWNERS (0, 0))) None
    (fun _ => Client) (fun _ => []) (fun _ => 0%nat).

Definition without (g : Z) (gs : list Z) : list Z := List.filter (fun x => negb (x =? g)) gs.

Definition broadcast (t : nat) (p : nat -> pc) : nat -> pc :=
  fun u => if decide (u = t) then Client
           else match p u with Parked g => Relocking g | q => q end.

(** [self t] is the word thread [t] reads at [%fs:0].  The compiler's code
    releases or aborts only the guards it acquired. *)
Inductive step (self : nat -> Z) : world -> world -> Prop :=
  | step_call_acquire t g s m p h c :
      p t = Client -> g <> 0 ->
      step self (mk_world s m p h c) (mk_world s m (<[t := Locking (Acquire g)]> p) h c)
  | step_call_release t g s m p h c :
      p t = Client -> g ∈ h t ->
      step self (mk_world s m p h c) (mk_world s m (<[t := Locking (Release g)]> p) h c)
  | step_call_abort t g s m p h c :
      p t = Client -> g ∈ h t ->
      step self (mk_world s m p h c) (mk_world s m (<[t := Locking (Abort_ g)]> p) h c)
  | step_lock t r s p h c :
      p t = Locking r ->
      step self (mk_world s None p h c) (mk_world s (Some t) (<[t := Inside r]> p) h c)
  | step_relock t g s p h c :
      p t = Relocking g ->
      step self (mk_world s None p h c) (mk_world s (Some t) (<[t := Inside (Acquire g)]> p) h c)
  | step_acquire_done t g s s' m p h c :
      p t = Inside (Acquire g) -> cxa_guard_acquire (self t) s g = (AlreadyDone, s') ->
      step self (mk_world s m p h c) (mk_world s' None (<[t := Client]> p) h c)
  | step_acquire_mine t g s s' m p h c :
      p t = Inside (Acquire g) -> cxa_guard_acquire (self t) s g = (Mine, s') ->
      step self (mk_world s m p h c)
        (mk_world s' None (<[t := Client]> p) (<[t := g :: h t]> h) c)
  | step_acquire_recursive t g s s' m p h c :
      p t = Inside (Acquire g) -> cxa_guard_acquire (self t) s g = (Recursive, s') ->
      step self (mk_world s m p h c) (mk_world s' None (<[t := Aborted g]> p) h c)
  | step_acquire_wait t g s s' m p h c :
      p t = Inside (Acquire g) -> cxa_guard_acquire (self t) s g = (Wait, s') ->
      step self (mk_world s m p h c) (mk_world s' None (<[t := Parked g]> p) h c)
  | step_acquire_wait_refused t g s s' m p h c :
      p t = Inside (Acquire g) -> cxa_guard_acquire (self t) s g = (Wait, s') ->
      step self (mk_world s m p h c) (mk_world s' None (<[t := Relocking g]> p) h c)
  | step_spurious t g s m p h c :
      p t = Parked g ->
      step self (mk_world s m p h c) (mk_world s m (<[t := Relocking g]> p) h c)
  | step_release t g s wake s' m p h c :
      p t = Inside (Release g) -> cxa_guard_release s g = (wake, s') ->
      step self (mk_world s m p h c)
        (mk_world s' None (<[t := if wake : bool then Waking else Client]> p)
           (<[t := without g (h t)]> h) (<[g := S (c g)]> c))
  | step_abort t g s wake s' m p h c :
      p t = Inside (Abort_ g) -> cxa_guard_abort s g = (wake, s') ->
      step self (mk_world s m p h c)
        (mk_world s' None (<[t := if wake : bool then Waking else Client]> p)
           (<[t := without g (h t)]> h) c)
  | step_broadcast t s m p h c :
      p t = Waking ->
      step self (mk_world s m p h c) (mk_world s m (broadcast t p) h c).

End Guard.
Export Guard.

(** ** The owner table *)

Definition guards_of (owners : list (Z * Z)) : list Z :=
  List.filter (fun g => negb (g =? 0)) (map fst owners).

Lemma guards_of_elem owners g : g ∈ guards_of owners <-> g <> 0 /\ exists o, (g, o) ∈ owners.
Proof.
  unfold guards_of. rewrite list_elem_of_In, filter_In, in_map_iff, negb_true_iff, Z.eqb_neq. split.
  - intros [([g' o] & <- & Hin) Hg]. split; [done|]. exists o. by apply list_elem_of_In.
  - intros (Hg & o & Hin). split; [|done]. exists (g, o). split; [done|]. by apply list_elem_of_In.
Qed.

Lemma owner_set_elem owners g o g' o' :
  (g', o') ∈ owner_set owners g o -> (g', o') ∈ owners \/ g' = g /\ o' = o.
Proof.
  induction owners as [|[h p] owners IH]; cbn [owner_set]; [by left|].
  destruct (h =? 0); rewrite !elem_of_cons; intros [[= -> ->]|Hin]; auto.
  destruct (IH Hin); auto.
Qed.

Lemma owner_set_guards owners g o :
  g <> 0 -> g ∉ guards_of owners -> NoDup (guards_of owners) -> NoDup (guards_of (owner_set owners g o)).
Proof.
  intros Hg. induction owners as [|[h p] owners IH]; cbn [owner_set]; [done|].
  unfold guards_of in *. cbn [map fst List.filter]. destruct (Z.eqb_spec h 0) as [->|Hh]; cbn [map fst List.filter].
  - rewrite (proj2 (Z.eqb_neq g 0) Hg). cbn [Z.eqb negb]. by constructor.
  - rewrite (proj2 (Z.eqb_neq h 0) Hh). cbn [negb]. intros Hnin Hnd.
    apply list.NoDup_cons in Hnd as [Hh' Hnd]. apply not_elem_of_cons in Hnin as [Hne Hnin].
    apply list.NoDup_cons. split; [|by apply IH].
    fold (guards_of (owner_set owners g o)). rewrite guards_of_elem. intros (_ & q & Hq).
    apply owner_set_elem in Hq as [Hq|[-> _]]; [|done].
    apply Hh'. fold (guards_of owners). apply guards_of_elem. by split; [|exists q].
Qed.

Lemma owner_clear_elem owners g g' o' :
  (g', o') ∈ owner_clear owners g -> g' = 0 \/ (g', o') ∈ owners.
Proof.
  induction owners as [|[h p] owners IH]; cbn [owner_clear]; [by right|].
  destruct (h =? g); rewrite !elem_of_cons; intros [[= -> ->]|Hin]; auto.
  destruct (IH Hin); auto.
Qed.

Lemma owner_clear_guards owners g :
  g <> 0 -> NoDup (guards_of owners) ->
  NoDup (guards_of (owner_clear owners g)) /\ g ∉ guards_of (owner_clear owners g).
Proof.
  intros Hg. induction owners as [|[h p] owners IH]; cbn [owner_clear].
  - intros _. split; [constructor|apply not_elem_of_nil].
  - unfold guards_of in *. cbn [map fst List.filter]. destruct (Z.eqb_spec h g) as [->|Hne].
    + rewrite (proj2 (Z.eqb_neq g 0) Hg). cbn [map fst List.filter Z.eqb negb].
      intros [? ?]%list.NoDup_cons. done.
    + cbn [map fst List.filter]. destruct (Z.eqb_spec h 0); cbn [negb]; [done|].
      intros [Hh Hnd]%list.NoDup_cons. destruct (IH Hnd) as [H1 H2]. split.
      * apply list.NoDup_cons. split; [|done]. fold (guards_of (owner_clear owners g)).
        rewrite guards_of_elem. intros (_ & q & [->|Hq]%owner_clear_elem); [done|].
        apply Hh. fold (guards_of owners). apply guards_of_elem. by split; [|exists q].
      * by apply not_elem_of_cons.
Qed.

Lemma owner_set_length owners g o : length (owner_set owners g o) = length owners.
Proof. induction owners as [|[h p] owners IH]; cbn; [done|]. destruct (h =? 0); cbn; congruence. Qed.

Lemma owner_clear_length owners g : length (owner_clear owners g) = length owners.
Proof. induction owners as [|[h p] owners IH]; cbn; [done|]. destruct (h =? g); cbn; congruence. Qed.

Lemma owner_find_elem owners g o : owner_find owners g = Some o -> (g, o) ∈ owners.
Proof.
  induction owners as [|[h p] owners IH]; cbn; [done|].
  destruct (Z.eqb_spec h g) as [->|]; [intros [= ->]; left|]. intros H. right. auto.
Qed.

Lemma owner_is_self_elem owners g self :
  owner_is_self owners g self = true -> self <> 0 /\ (g, self) ∈ owners.
Proof.
  unfold owner_is_self. destruct (Z.eqb_spec self 0); [done|].
  destruct (owner_find owners g) as [o|] eqn:Ho; [|done]. intros ->%Z.eqb_eq.
  split; [done|]. by apply owner_find_elem.
Qed.

(** ** The invariant of a process *)

Definition pc_ok (gs : list Z) (p : pc) : Prop :=
  match p with
  | Client | Waking => True
  | Locking (Acquire g) | Inside (Acquire g) | Parked g | Relocking g => g <> 0
  | Locking (Release g) | Inside (Release g) | Locking (Abort_ g) | Inside (Abort_ g) | Aborted g => g ∈ gs
  end.

(** Who initialises what: the flag byte of a guard is 0, pending, or pending
    with waiters, and is not 0 exactly while one thread runs the initializer. *)
Record ownership (self : nat -> Z) (s : shared) (h : nat -> list Z) (c : Z -> nat) : Prop := {
  ow_flag g : flag_byte s g = 0 \/ flag_byte s g = 1 \/ flag_byte s g = 3;
  ow_hold g : flag_byte s g <> 0 <-> exists t, g ∈ h t;
  ow_one t t' g : g ∈ h t -> g ∈ h t' -> t = t';
  ow_done g : done_byte s g = 0 /\ c g = 0%nat \/ done_byte s g = 1 /\ c g = 1%nat /\ flag_byte s g = 0;
  ow_owner g o : (g, o) ∈ s_owners s -> g <> 0 -> exists t, g ∈ h t /\ o = self t;
  ow_nodup : NoDup (guards_of (s_owners s));
  ow_length : length (s_owners s) = OWNERS;
  ow_nonzero t : 0 ∉ h t
}.

Record inv (self : nat -> Z) (w : world) : Prop := {
  i_own : ownership self (sh w) (held w) (completed w);
  i_mutex t : (exists r, pcs w t = Inside r) <-> mutex w = Some t;
  i_pc t : pc_ok (held w t) (pcs w t);
  i_wake t g : pcs w t = Parked g -> flag_byte (sh w) g = 3 \/ exists u, pcs w u = Waking
}.

(** Reading an updated function. *)
Ltac upd := unfold insert, fn_insert in *; repeat case_decide; simplify_eq/=.

Lemma guard_initial_inv self : inv self initial.
Proof.
  constructor; cbn [initial sh held completed pcs mutex pc_ok]; try done.
  - constructor; cbn [flag_byte s_owners done_byte]; try done.
    + auto.
    + intros g. split; [done|]. by intros (t & ?%not_elem_of_nil).
    + by intros t t' g ?%not_elem_of_nil.
    + auto.
    + intros g o Hin. apply elem_of_replicate in Hin as [[= -> ->] _]. done.
    + vm_compute. constructor.
    + intros t. apply not_elem_of_nil.
  - intros t. split; [by intros (r & ?)|done].
Qed.

Section Steps.
Context (self : nat -> Z).

Lemma acquire_cases s h c g t v s' :
  ownership self s h c -> cxa_guard_acquire (self t) s g = (v, s') ->
  match v with
  | AlreadyDone => s' = s /\ done_byte s g = 1
  | Mine => flag_byte s g = 0 /\ done_byte s g = 0 /\
      s' = mk_shared (done_byte s) (<[g := 1]> (flag_byte s)) (owner_set (s_owners s) g (self t))
  | Recursive => s' = s /\ flag_byte s g <> 0 /\ self t <> 0 /\ (g, self t) ∈ s_owners s
  | Wait => flag_byte s g <> 0 /\
      s' = mk_shared (done_byte s) (<[g := 3]> (flag_byte s)) (s_owners s) /\
      owner_is_self (s_owners s) g (self t) = false
  end.
Proof.
  intros Ho. unfold cxa_guard_acquire, FLAG_PENDING, FLAG_WAITING.
  pose proof (ow_done _ _ _ _ Ho g) as Hd.
  destruct (Z.eqb_spec (done_byte s g) 0) as [Hz|Hz]; cbn [negb].
  2: { intros [= <- <-]. split; [done|]. destruct Hd as [[? _]|[? _]]; done. }
  pose proof (ow_flag _ _ _ _ Ho g) as Hf.
  destruct (Z.eqb_spec (Z.land (flag_byte s g) 1) 0) as [Hp|Hp].
  - assert (H0 : flag_byte s g = 0) by (destruct Hf as [H|[H|H]]; rewrite H in Hp; done).
    intros [= <- <-]. by rewrite H0.
  - assert (H0 : flag_byte s g <> 0) by (intros H; by rewrite H in Hp).
    destruct (owner_is_self (s_owners s) g (self t)) eqn:Hs; intros [= <- <-].
    + destruct (owner_is_self_elem _ _ _ Hs). done.
    + split; [done|]. split; [|done]. by destruct Hf as [H|[H|H]]; rewrite H in *.
Qed.

Lemma own_mine s h c g t :
  ownership self s h c -> g <> 0 -> flag_byte s g = 0 -> done_byte s g = 0 ->
  ownership self
    (mk_shared (done_byte s) (<[g := 1]> (flag_byte s)) (owner_set (s_owners s) g (self t)))
    (<[t := g :: h t]> h) c.
Proof.
  intros [O1 O2 O3 O4 O5 O6 O7 O8] Hg Hf Hd.
  assert (Hno : forall u, g ∉ h u) by (intros u Hu; by apply (proj2 (O2 g)); [exists u|]).
  constructor; cbn [done_byte flag_byte s_owners].
  - intros g'. upd; auto.
  - intros g'. upd.
    + split; [|done]. intros _. exists t. case_decide; [left|done].
    + rewrite O2. split; intros [u Hu]; exists u; case_decide; subst; rewrite ?elem_of_cons in *; naive_solver.
  - intros u u' g'. upd; rewrite ?elem_of_cons; [done|..]; intros; destruct_or?; subst; eauto;
      try (by destruct (Hno u)); try (by destruct (Hno u')); naive_solver.
  - intros g'. specialize (O4 g'). upd; [|done]. rewrite Hf, Hd in O4. left. split; [done|]. naive_solver.
  - intros g' o' Hin Hg'. apply owner_set_elem in Hin as [Hin|[-> ->]].
    + destruct (O5 g' o' Hin Hg') as (u & Hu & ->). exists u. split; [|done]. upd; [by right|done].
    + exists t. split; [|done]. upd. left.
  - apply owner_set_guards; [done| |done]. rewrite guards_of_elem. intros (_ & o & Hin).
    destruct (O5 g o Hin Hg) as (u & Hu & _). by destruct (Hno u).
  - by rewrite owner_set_length.
  - intros u. specialize (O8 u). upd; [|done]. by apply not_elem_of_cons.
Qed.

Lemma own_wait s h c g :
  ownership self s h c -> flag_byte s g <> 0 ->
  ownership self (mk_shared (done_byte s) (<[g := 3]> (flag_byte s)) (s_owners s)) h c.
Proof.
  intros [O1 O2 O3 O4 O5 O6 O7 O8] Hf.
  constructor; cbn [done_byte flag_byte s_owners]; try done.
  - intros g'. upd; auto.
  - intros g'. rewrite <- O2. by upd.
  - intros g'. specialize (O4 g'). upd; [|done]. destruct O4 as [?|(_ & _ & ?)]; [by left|done].
Qed.

Lemma without_elem g g' gs : g' ∈ without g gs <-> g' ∈ gs /\ g' <> g.
Proof.
  unfold without. rewrite !list_elem_of_In, filter_In, negb_true_iff, Z.eqb_neq. done.
Qed.

(** The initializer of [g] ends on thread [t]; [d] is the new byte 0. *)
Lemma own_end s h c c' d g t :
  ownership self s h c -> g ∈ h t ->
  (d = done_byte s /\ c' = c \/ d = <[g := 1]> (done_byte s) /\ c' = <[g := S (c g)]> c) ->
  ownership self (mk_shared d (<[g := 0]> (flag_byte s)) (owner_clear (s_owners s) g))
    (<[t := without g (h t)]> h) c'.
Proof.
  intros [O1 O2 O3 O4 O5 O6 O7 O8] Ht Hdc.
  assert (Hg : g <> 0) by (intros ->; by apply (O8 t)).
  destruct (owner_clear_guards (s_owners s) g Hg O6) as [Hnd Hnin].
  assert (Hother : forall u g', g' ∈ (<[t := without g (h t)]> h) u <-> g' ∈ h u /\ g' <> g).
  { intros u g'. upd; [apply without_elem|]. split; [|by intros [? _]].
    intros Hu. split; [done|]. intros ->. by destruct (O3 t u g Ht Hu). }
  assert (Hflag : flag_byte s g <> 0) by (apply O2; by exists t).
  constructor; cbn [done_byte flag_byte s_owners].
  - intros g'. upd; auto.
  - intros g'. transitivity (exists u, g' ∈ h u /\ g' <> g).
    + unfold insert, fn_insert. case_decide as Hgg; [subst; naive_solver|]. rewrite O2. naive_solver.
    + split; intros [u Hu]; exists u; by apply Hother.
  - intros u u' g' [Hu _]%Hother [Hu' _]%Hother. by eapply O3.
  - intros g'. specialize (O4 g'). destruct Hdc as [[-> ->]|[-> ->]]; upd; naive_solver.
  - intros g' o' Hin Hg'. assert (Hne : g' <> g).
    { intros ->. apply Hnin, guards_of_elem. by split; [|exists o']. }
    apply owner_clear_elem in Hin as [->|Hin]; [done|].
    destruct (O5 g' o' Hin Hg') as (u & Hu & ->). exists u. by rewrite Hother.
  - done.
  - by rewrite owner_clear_length.
  - intros u [Hu _]%Hother. by apply (O8 u).
Qed.

(** A step of one thread that changes only where that thread is. *)
Lemma inv_move s m m' p h c t q :
  inv self (mk_world s m p h c) ->
  (forall u, (exists r, (<[t := q]> p) u = Inside r) <-> m' = Some u) ->
  pc_ok (h t) q ->
  (forall g, q = Parked g -> flag_byte s g = 3) ->
  p t <> Waking ->
  inv self (mk_world s m' (<[t := q]> p) h c).
Proof.
  intros [I1 I2 I3 I4] Hm Hpc Hpark Hw. constructor; cbn in *; [done|done| |].
  - intros u. specialize (I3 u). upd; done.
  - intros u g Hu. destruct (decide (t = u)) as [<-|Hne].
    + rewrite fn_lookup_insert in Hu. left. auto.
    + rewrite fn_lookup_insert_ne in Hu by done. destruct (I4 u g Hu) as [?|[v Hv]]; [by left|right].
      exists v. rewrite fn_lookup_insert_ne; congruence.
Qed.

(** The mutex is free or held by the thread that moves. *)
Lemma mutex_leave (p : nat -> pc) t q m :
  (forall u, (exists r, p u = Inside r) <-> m = Some u) -> (exists r, p t = Inside r) ->
  (forall r, q <> Inside r) -> forall u, (exists r, (<[t := q]> p) u = Inside r) <-> None = Some u.
Proof.
  intros Hm Ht Hq u. split; [|done]. intros [r Hr]. upd; [by destruct (Hq r)|].
  apply Hm in Ht. assert (m = Some u) by (apply Hm; by exists r). congruence.
Qed.

Lemma mutex_enter (p : nat -> pc) t r :
  (forall u, (exists r, p u = Inside r) <-> None = Some u) ->
  forall u, (exists r', (<[t := Inside r]> p) u = Inside r') <-> Some t = Some u.
Proof.
  intros Hm u. split.
  - intros [r' Hr]. upd; [done|]. assert (None = Some u) by (apply Hm; by exists r'). done.
  - intros [= <-]. exists r. by rewrite fn_lookup_insert.
Qed.

Lemma mutex_keep (p : nat -> pc) t q m :
  (forall u, (exists r, p u = Inside r) <-> m = Some u) ->
  (forall r, q <> Inside r) -> (forall r, p t <> Inside r) ->
  forall u, (exists r, (<[t := q]> p) u = Inside r) <-> m = Some u.
Proof.
  intros Hm Hq Ht u. rewrite <- Hm. destruct (decide (t = u)) as [<-|Hne].
  - rewrite fn_lookup_insert. naive_solver.
  - by rewrite fn_lookup_insert_ne.
Qed.

(** The initializer of [g] ends on thread [t]: the waiters are about to be woken. *)
Lemma inv_end s m p h c t g d c' (wake : bool) :
  inv self (mk_world s m p h c) -> (exists r, p t = Inside r) -> g ∈ h t ->
  (d = done_byte s /\ c' = c \/ d = <[g := 1]> (done_byte s) /\ c' = <[g := S (c g)]> c) ->
  wake = negb (Z.land (flag_byte s g) FLAG_WAITING =? 0) ->
  inv self (mk_world (mk_shared d (<[g := 0]> (flag_byte s)) (owner_clear (s_owners s) g)) None
    (<[t := if wake then Waking else Client]> p) (<[t := without g (h t)]> h) c').
Proof.
  intros [I1 I2 I3 I4] Ht Hg Hdc Hwake. constructor; cbn in *.
  - by apply own_end with c.
  - eapply mutex_leave; [exact I2|done|]. by destruct wake.
  - intros u. specialize (I3 u). clear Hwake. upd; [by destruct wake|done].
  - intros u g' Hu. destruct (decide (t = u)) as [<-|Hne].
    { rewrite fn_lookup_insert in Hu. by destruct wake. }
    rewrite fn_lookup_insert_ne in Hu by done.
    destruct (I4 u g' Hu) as [Hf|[v Hv]].
    + destruct (decide (g = g')) as [<-|Hgg].
      * right. exists t. rewrite fn_lookup_insert. subst wake. by rewrite Hf.
      * left. by rewrite fn_lookup_insert_ne.
    + right. exists v. rewrite fn_lookup_insert_ne; [done|]. intros ->. destruct Ht as [r Ht]. congruence.
Qed.

Lemma inv_broadcast s m p h c t :
  inv self (mk_world s m p h c) -> p t = Waking -> inv self (mk_world s m (broadcast t p) h c).
Proof.
  intros [I1 I2 I3 I4] Ht. constructor; cbn in *; [done| | |].
  - intros u. rewrite <- I2. unfold broadcast. case_decide; [subst; rewrite Ht; naive_solver|].
    destruct (p u); naive_solver.
  - intros u. specialize (I3 u). unfold broadcast. case_decide; [done|]. by destruct (p u).
  - intros u g. unfold broadcast. case_decide; [done|]. by destruct (p u).
Qed.

(** Waiting: the flag byte says so before the thread is parked. *)
Lemma inv_wait s m p h c t g q :
  inv self (mk_world s m p h c) -> p t = Inside (Acquire g) -> g <> 0 -> flag_byte s g <> 0 ->
  q = Parked g \/ q = Relocking g ->
  inv self (mk_world (mk_shared (done_byte s) (<[g := 3]> (flag_byte s)) (s_owners s)) None
    (<[t := q]> p) h c).
Proof.
  intros [I1 I2 I3 I4] Hp Hg Hf Hq. apply (inv_move _ m); try done.
  - constructor; cbn in *; [by apply own_wait|done|done|]. intros u g' Hu.
    destruct (I4 u g' Hu) as [?|?]; [left|by right]. upd; done.
  - eapply mutex_leave; [exact I2|by eexists|]. by destruct Hq as [->| ->].
  - by destruct Hq as [->| ->].
  - intros g' ->. destruct Hq as [[= ->]|]; [|done]. cbn. by rewrite fn_lookup_insert.
  - by rewrite Hp.
Qed.

(** Threads with an identity have distinct ones. *)
Context (Hself : forall t u, self t = self u -> self t <> 0 -> t = u).

Lemma guard_step_inv w w' : step self w w' -> inv self w -> inv self w'.
Proof.
  destruct 1 as [t g s m p h c Hp Hg|t g s m p h c Hp Hg|t g s m p h c Hp Hg|t r s p h c Hp
    |t g s p h c Hp|t g s s' m p h c Hp Ha|t g s s' m p h c Hp Ha|t g s s' m p h c Hp Ha
    |t g s s' m p h c Hp Ha|t g s s' m p h c Hp Ha|t g s m p h c Hp|t g s wake s' m p h c Hp Ha
    |t g s wake s' m p h c Hp Ha|t s m p h c Hp]; intros Hi; pose proof Hi as [I1 I2 I3 I4];
    cbn [sh mutex pcs held completed] in *; pose proof (I3 t) as Hpc; rewrite Hp in Hpc; cbn in Hpc.
  - apply (inv_move _ m); rewrite ?Hp; try done. apply mutex_keep; [exact I2|done|by intros r; rewrite Hp].
  - apply (inv_move _ m); rewrite ?Hp; try done. apply mutex_keep; [exact I2|done|by intros r; rewrite Hp].
  - apply (inv_move _ m); rewrite ?Hp; try done. apply mutex_keep; [exact I2|done|by intros r; rewrite Hp].
  - apply (inv_move _ None); rewrite ?Hp; try done. by apply mutex_enter.
  - apply (inv_move _ None); rewrite ?Hp; try done. by apply mutex_enter.
  - destruct (acquire_cases _ _ _ _ _ _ _ I1 Ha) as [-> _].
    apply (inv_move _ m); rewrite ?Hp; try done. eapply mutex_leave; [exact I2|by eexists|done].
  - destruct (acquire_cases _ _ _ _ _ _ _ I1 Ha) as (Hf & Hd & ->).
    constructor; cbn [sh mutex pcs held completed].
    + by apply own_mine.
    + eapply mutex_leave; [exact I2|by eexists|done].
    + intros u. specialize (I3 u). upd; done.
    + intros u g' Hu. destruct (decide (t = u)) as [<-|Hne]; [by rewrite fn_lookup_insert in Hu|].
      rewrite fn_lookup_insert_ne in Hu by done. destruct (I4 u g' Hu) as [H3|[v Hv]].
      * left. cbn. rewrite fn_lookup_insert_ne; [done|]. intros ->. congruence.
      * right. exists v. rewrite fn_lookup_insert_ne; congruence.
  - destruct (acquire_cases _ _ _ _ _ _ _ I1 Ha) as (-> & Hf & Hs & Hin).
    apply (inv_move _ m); rewrite ?Hp; try done.
    + eapply mutex_leave; [exact I2|by eexists|done].
    + destruct (ow_owner _ _ _ _ I1 g _ Hin Hpc) as (u & Hu & He). by rewrite (Hself t u He Hs).
  - destruct (acquire_cases _ _ _ _ _ _ _ I1 Ha) as (Hf & -> & _). eapply inv_wait; eauto.
  - destruct (acquire_cases _ _ _ _ _ _ _ I1 Ha) as (Hf & -> & _). eapply inv_wait; eauto.
  - apply (inv_move _ m); rewrite ?Hp; try done. apply mutex_keep; [exact I2|done|by intros r; rewrite Hp].
  - injection Ha as Hw <-. eapply inv_end; [exact Hi|by eexists|done|by right|done].
  - injection Ha as Hw <-. eapply inv_end; [exact Hi|by eexists|done|by left|done].
  - by apply inv_broadcast.
Qed.

Lemma guard_run_inv w : rtc (step self) initial w -> inv self w.
Proof.
  intros Hr. pose proof (guard_initial_inv self) as H. revert H.
  induction Hr as [w|w1 w2 w3 Hs _ IH]; [done|]. intros H. apply IH. by eapply guard_step_inv.
Qed.
End Steps.

(** ** Properties *)

(** No other thread reads this thread's word at [%fs:0], unless it is 0. *)
Definition distinct_identities (self : nat -> Z) : Prop :=
  forall t u, self t = self u -> self t <> 0 -> t = u.

Lemma done_step self w w' g :
  step self w w' -> inv self w -> done_byte (sh w) g <> 0 ->
  done_byte (sh w') g <> 0 /\ completed w' g = completed w g.
Proof.
  intros Hs [I1 _ I3 _] Hd. pose proof (ow_done _ _ _ _ I1 g) as Hg.
  destruct Hs as [| | | | |t g' s s' m p h c Hp Ha|t g' s s' m p h c Hp Ha|t g' s s' m p h c Hp Ha
    |t g' s s' m p h c Hp Ha|t g' s s' m p h c Hp Ha| |t g' s wake s' m p h c Hp Ha
    |t g' s wake s' m p h c Hp Ha| ]; cbn in *; try done;
    try (destruct (acquire_cases _ _ _ _ _ _ _ _ I1 Ha); destruct_and?; by subst).
  - injection Ha as _ <-. pose proof (I3 t) as Hpc. rewrite Hp in Hpc. cbn in Hpc.
    assert (flag_byte s g' <> 0) by (apply (ow_hold _ _ _ _ I1); by exists t).
    destruct (decide (g' = g)) as [->|Hne]; [naive_solver|]. cbn. by rewrite !fn_lookup_insert_ne.
  - by injection Ha as _ <-.
Qed.

Lemma done_final self w w' g :
  distinct_identities self -> rtc (step self) w w' -> inv self w -> done_byte (sh w) g <> 0 ->
  done_byte (sh w') g <> 0 /\ completed w' g = completed w g.
Proof.
  intros Hself Hr. induction Hr as [w|w1 w2 w3 Hs _ IH]; [done|]. intros Hi Hd.
  destruct (done_step _ _ _ _ Hs Hi Hd) as [Hd2 <-]. apply IH; [|done]. by eapply guard_step_inv.
Qed.

(** C5: exactly-once initialization under any interleaving.  At most one
    thread runs the initializer of a guard, and only while byte 0 is 0; byte 0
    becomes 1 with the first completed run, which is the only one, and from
    then on it never changes, nobody runs the initializer again and every
    acquire answers 0 at once; at most one thread is between lock and unlock. *)
Theorem cxa_guard_once self w w' g
  (Hself : distinct_identities self) (Hrun : rtc (step self) initial w) (Hrun' : rtc (step self) w w') :
  (forall t u, g ∈ held w t -> g ∈ held w u -> t = u /\ done_byte (sh w) g = 0) /\
  (done_byte (sh w) g = 0 /\ completed w g = 0%nat \/ done_byte (sh w) g = 1 /\ completed w g = 1%nat) /\
  (done_byte (sh w) g <> 0 ->
     done_byte (sh w') g = 1 /\ completed w' g = 1%nat /\ (forall t, g ∉ held w' t) /\
     forall x, fst (cxa_guard_acquire x (sh w') g) = AlreadyDone) /\
  (forall t u r r', pcs w t = Inside r -> pcs w u = Inside r' -> t = u).
Proof.
  pose proof (guard_run_inv self Hself w Hrun) as Hi. pose proof Hi as [I1 I2 _ _]. split_and!.
  - intros t u Ht Hu. split; [by eapply (ow_one _ _ _ _ I1)|].
    assert (flag_byte (sh w) g <> 0) by (apply (ow_hold _ _ _ _ I1); by exists t).
    destruct (ow_done _ _ _ _ I1 g) as [[? _]|(_ & _ & ?)]; done.
  - destruct (ow_done _ _ _ _ I1 g) as [[? ?]|(? & ? & ?)]; auto.
  - intros Hd. destruct (done_final _ _ _ _ Hself Hrun' Hi Hd) as [Hd' _].
    assert (Hi' : inv self w') by (apply (guard_run_inv self Hself); by transitivity w).
    destruct Hi' as [J1 _ _ _]. destruct (ow_done _ _ _ _ J1 g) as [[? _]|(D1 & D2 & D3)]; [done|].
    split_and!; try done.
    + intros t Ht. by apply (proj2 (ow_hold _ _ _ _ J1 g)); [exists t|].
    + intros x. unfold cxa_guard_acquire. by rewrite D1.
  - intros t u r r' Ht Hu. assert (mutex w = Some t) by (apply I2; by exists r).
    assert (mutex w = Some u) by (apply I2; by exists r'). congruence.
Qed.

(** The recursion abort is never a false alarm and misses no recorded
    recursion: a thread aborts only on a guard whose initializer it is itself
    running; conversely, a thread that asks again for a guard it is
    initializing gets the abort, if it has an identity and the guard is in the
    owner table (a full table or a zero identity degrade to waiting). *)
Theorem cxa_guard_recursion self w t g
  (Hself : distinct_identities self) (Hrun : rtc (step self) initial w) :
  (pcs w t = Aborted g -> g ∈ held w t) /\
  (fst (cxa_guard_acquire (self t) (sh w) g) = Recursive -> g <> 0 -> g ∈ held w t) /\
  (g ∈ held w t -> self t <> 0 -> is_Some (owner_find (s_owners (sh w)) g) ->
     fst (cxa_guard_acquire (self t) (sh w) g) = Recursive).
Proof.
  pose proof (guard_run_inv self Hself w Hrun) as [I1 _ I3 _]. split_and!.
  - intros Hp. pose proof (I3 t) as Hpc. by rewrite Hp in Hpc.
  - intros Hr Hg. destruct (cxa_guard_acquire (self t) (sh w) g) as [v s'] eqn:Ha. cbn in Hr. subst v.
    destruct (acquire_cases _ _ _ _ _ _ _ _ I1 Ha) as (_ & _ & Hs & Hin).
    destruct (ow_owner _ _ _ _ I1 g _ Hin Hg) as (u & Hu & He). by rewrite (Hself t u He Hs).
  - intros Ht Hs [o Ho]. assert (Hg : g <> 0) by (intros ->; by apply (ow_nonzero _ _ _ _ I1 t)).
    destruct (ow_owner _ _ _ _ I1 g o (owner_find_elem _ _ _ Ho) Hg) as (u & Hu & ->).
    rewrite (ow_one _ _ _ _ I1 u t g Hu Ht) in Ho.
    assert (Hf : flag_byte (sh w) g <> 0) by (apply (ow_hold _ _ _ _ I1); by exists t).
    unfold cxa_guard_acquire, FLAG_PENDING, owner_is_self. rewrite Ho, Z.eqb_refl.
    rewrite (proj2 (Z.eqb_neq (self t) 0) Hs).
    destruct (ow_done _ _ _ _ I1 g) as [[-> _]|(_ & _ & ?)]; [|done]. cbn [negb Z.eqb].
    by destruct (ow_flag _ _ _ _ I1 g) as [?|[-> | ->]].
Qed.

(** C36: no wakeup is lost: a thread parked on a guard has either a thread
    about to broadcast, or its guard is marked as waited for while some thread
    runs the initializer, whose release or abort will therefore broadcast. *)
Theorem cxa_guard_no_lost_wakeup self w t g
  (Hself : distinct_identities self) (Hrun : rtc (step self) initial w) (Hpark : pcs w t = Parked g) :
  (exists u, pcs w u = Waking) \/
  (exists u, g ∈ held w u) /\
  fst (cxa_guard_release (sh w) g) = true /\ fst (cxa_guard_abort (sh w) g) = true.
Proof.
  pose proof (guard_run_inv self Hself w Hrun) as [I1 _ _ I4].
  destruct (I4 t g Hpark) as [Hf|Hw]; [right|by left].
  split; [apply (ow_hold _ _ _ _ I1); by rewrite Hf|]. unfold cxa_guard_release, cxa_guard_abort. by rewrite Hf.
Qed.

(** Two threads race for the guard at 4096: the first runs the initializer,
    the second is parked. *)
Definition demo_self (t : nat) : Z := Z.of_nat t + 1.

Lemma demo_identities : distinct_identities demo_self.
Proof. intros t u. unfold demo_self. lia. Qed.

Definition demo_race : world :=
  let p0 := <[0%nat := Client]> (<[0%nat := Inside (Acquire 4096)]> (<[0%nat := Locking (Acquire 4096)]> (fun _ => Client))) in
  mk_world
    (mk_shared (fun _ => 0) (<[4096 := 3]> (<[4096 := 1]> (fun _ => 0)))
       ((4096, 1) :: replicate 63 (0, 0))) None
    (<[1%nat := Parked 4096]> (<[1%nat := Inside (Acquire 4096)]> (<[1%nat := Locking (Acquire 4096)]> p0)))
    (<[0%nat := [4096]]> (fun _ => [])) (fun _ => 0%nat).

Lemma race_reached : rtc (step demo_self) initial demo_race.
Proof.
  eapply rtc_l; [apply (step_call_acquire _ 0 4096); [reflexivity|lia]|].
  eapply rtc_l; [apply (step_lock _ 0 (Acquire 4096)); reflexivity|].
  eapply rtc_l; [eapply (step_acquire_mine _ 0 4096); [reflexivity|reflexivity]|].
  eapply rtc_l; [apply (step_call_acquire _ 1 4096); [reflexivity|lia]|].
  eapply rtc_l; [apply (step_lock _ 1 (Acquire 4096)); reflexivity|].
  eapply rtc_l; [eapply (step_acquire_wait _ 1 4096); [reflexivity|reflexivity]|].
  apply rtc_refl.
Qed.

Lemma cxa_guard_once_witness :
  4096 ∈ held demo_race 0%nat /\
  forall t, 4096 ∈ held demo_race t -> 0%nat = t /\ done_byte (sh demo_race) 4096 = 0.
Proof.
  assert (H0 : 4096 ∈ held demo_race 0%nat) by (apply list_elem_of_In; left; reflexivity).
  split; [exact H0|]. intros t Ht.
  exact (proj1 (cxa_guard_once demo_self demo_race demo_race 4096 demo_identities race_reached (rtc_refl _ _))
    0%nat t H0 Ht).
Defined.

Lemma cxa_guard_recursion_witness :
  fst (cxa_guard_acquire (demo_self 1) (sh demo_race) 4096) = Wait /\
  fst (cxa_guard_acquire (demo_self 0) (sh demo_race) 4096) = Recursive.
Proof.
  split; [reflexivity|].
  apply (cxa_guard_recursion demo_self demo_race 0%nat 4096 demo_identities race_reached).
  - apply list_elem_of_In; left; reflexivity.
  - discriminate.
  - exists 1. reflexivity.
Defined.

Lemma cxa_guard_no_lost_wakeup_witness :
  pcs demo_race 1%nat = Parked 4096 /\
  ((exists u, pcs demo_race u = Waking) \/
   (exists u, 4096 ∈ held demo_race u) /\
   fst (cxa_guard_release (sh demo_race) 4096) = true /\ fst (cxa_guard_abort (sh demo_race) 4096) = true).
Proof.
  split; [reflexivity|].
  exact (cxa_guard_no_lost_wakeup demo_self demo_race 1%nat 4096 demo_identities race_reached eq_refl).
Defined.
