(* ===== verification/AtExit.v ===== *)
(** Destructors of thread-locals, [src/orbis_thread_atexit.c]: the list hung
    on a pthread key, over a heap of nodes. *)
From stdpp Require Import prelude gmap list numbers.
From S2P Require Import Prelude.
Open Scope Z_scope.

Module AtExit.

Record orbis_thread_dtor := mk_dtor { d_func : Z; d_obj : Z; d_next : Z }.

(** One thread's view: the heap of nodes, the value of the key for this
    thread, and the destructor calls made so far, in order. *)
Record thread := mk_thread {
  nodes : gmap Z orbis_thread_dtor;
  specific : Z;
  called : list (Z * Z) }.

(** The C library underneath: [malloc] of a node (0 is NULL), the result of
    [pthread_once] with the key it creates, and whether [pthread_setspecific]
    fails. *)
Record libc := mk_libc {
  malloc : gmap Z orbis_thread_dtor -> Z;
  once_fails : bool;
  setspecific_fails : gmap Z orbis_thread_dtor -> bool }.

Definition cxa_thread_atexit_impl (L : libc) (s : thread) (func obj : Z) : thread * Z :=
  if once_fails L then (s, -1)
  else
    let d := malloc L (nodes s) in
    if d =? 0 then (s, -1)
    else
      let s := mk_thread (<[d := mk_dtor func obj (specific s)]> (nodes s)) (specific s) (called s) in
      if setspecific_fails L (nodes s)
      then (mk_thread (delete d (nodes s)) (specific s) (called s), -1)
      else (mk_thread (nodes s) d (called s), 0).

(** [d->func(d->obj)]: the call is recorded, and the destructor may register
    others while it runs, the list [action func obj]. *)
Definition register_all (L : libc) (s : thread) (regs : list (Z * Z)) : thread :=
  fold_left (fun s '(f, o) => fst (cxa_thread_atexit_impl L s f o)) regs s.

Definition call (L : libc) (action : Z -> Z -> list (Z * Z)) (s : thread) (func obj : Z) : thread :=
  register_all L (mk_thread (nodes s) (specific s) (called s ++ [(func, obj)])) (action func obj).

Definition orbis_thread_dtor_run (L : libc) (action : Z -> Z -> list (Z * Z)) (fuel : nat)
    (s : thread) (head : Z) : outcome thread :=
  '(s, _) ← while fuel
    (fun '(_, d) => Ok (negb (d =? 0)))
    (fun '(s, d) =>
      match nodes s !! d with
      | None => Fault
      | Some n =>
          let next := d_next n in
          let s := call L action s (d_func n) (d_obj n) in
          match nodes s !! d with
          | None => Fault
          | Some _ => Ok (mk_thread (delete d (nodes s)) (specific s) (called s), next)
          end
      end) (s, head);
  Ok s.

(** A thread's exit, as POSIX has it: while the key has a value, it is reset
    and the destructor gets the old one, [rounds] times at most. *)
Fixpoint thread_exit (L : libc) (action : Z -> Z -> list (Z * Z)) (fuel rounds : nat) (s : thread)
    : outcome thread :=
  match rounds with
  | O => Ok s
  | S rounds =>
      if specific s =? 0 then Ok s
      else
        let head := specific s in
        s ← orbis_thread_dtor_run L action fuel (mk_thread (nodes s) 0 (called s)) head;
        thread_exit L action fuel rounds s
  end.

End AtExit.
Export AtExit.

(** ** The list a head points to *)

(** A node of the list: its address and its [(func, obj)]. *)
Definition entry : Type := Z * (Z * Z).

Definition head_of (l : list entry) : Z := match l with [] => 0 | (d, _) :: _ => d end.

(** The nodes of list [l], each linked to the next. *)
Fixpoint chain (l : list entry) : gmap Z orbis_thread_dtor :=
  match l with
  | [] => ∅
  | (d, (f, o)) :: l => <[d := mk_dtor f o (head_of l)]> (chain l)
  end.

(** The heap is exactly the list [l] and a part [R] that is not in it. *)
Record holds (l : list entry) (R m : gmap Z orbis_thread_dtor) : Prop := {
  ho_eq : m = chain l ∪ R;
  ho_apart d : d ∈ l.*1 -> R !! d = None;
  ho_nodup : NoDup (l.*1);
  ho_nonzero : 0 ∉ l.*1
}.

Lemma holds_nil m : holds [] m m.
Proof.
  constructor; cbn.
  - by rewrite map_empty_union.
  - by intros d ?%not_elem_of_nil.
  - constructor.
  - apply not_elem_of_nil.
Qed.

Lemma chain_none l d : d ∉ l.*1 -> chain l !! d = None.
Proof.
  induction l as [|[d' [f o]] l IH]; cbn; [done|]. intros [Hne Hd]%not_elem_of_cons.
  rewrite lookup_insert_ne by done. auto.
Qed.

Lemma holds_cons d f o l R m :
  holds l R m -> d <> 0 -> m !! d = None ->
  holds ((d, (f, o)) :: l) R (<[d := mk_dtor f o (head_of l)]> m).
Proof.
  intros [-> Ha Hn Hz] Hd Hm. apply lookup_union_None in Hm as [Hc HR]. constructor; cbn.
  - by rewrite insert_union_l.
  - intros d' [->|Hin]%elem_of_cons; [done|auto].
  - apply list.NoDup_cons. split; [|done]. intros Hin. revert Hc. clear -Hin.
    induction l as [|[d' [f' o']] l IH]; cbn in *; [by apply not_elem_of_nil in Hin|].
    destruct (decide (d = d')) as [->|]; [by rewrite lookup_insert_eq|].
    rewrite lookup_insert_ne by done. apply elem_of_cons in Hin as [?|?]; [done|auto].
  - apply not_elem_of_cons. done.
Qed.

Lemma holds_head d f o l R m :
  holds ((d, (f, o)) :: l) R m -> m !! d = Some (mk_dtor f o (head_of l)) /\ d <> 0.
Proof.
  intros [-> _ _ Hz]. split; [|intros ->; apply Hz; left].
  apply lookup_union_Some_l. cbn. apply lookup_insert_eq.
Qed.

Lemma holds_tail d f o l R m :
  holds ((d, (f, o)) :: l) R m -> holds l R (delete d m).
Proof.
  intros [-> Ha Hn Hz]. cbn in *. apply list.NoDup_cons in Hn as [Hd Hn].
  apply not_elem_of_cons in Hz as [_ Hz]. constructor; [|intros d' Hd'; apply Ha; by right|done|done].
  rewrite delete_union, delete_insert_id by by apply chain_none.
  by rewrite delete_id by (apply Ha; left).
Qed.

Lemma chain_some l d : d ∈ l.*1 -> is_Some (chain l !! d).
Proof.
  induction l as [|[d' [f o]] l IH]; cbn; [by intros ?%not_elem_of_nil|].
  destruct (decide (d = d')) as [->|]; [by rewrite lookup_insert_eq|].
  rewrite lookup_insert_ne by done. intros [?|?]%elem_of_cons; [done|auto].
Qed.

Lemma holds_grow l R m d x :
  holds l R m -> m !! d = None -> holds l (<[d := x]> R) (<[d := x]> m).
Proof.
  intros [-> Ha Hn Hz] [Hc HR]%lookup_union_None. constructor; try done.
  - by rewrite insert_union_r.
  - intros d' Hd'. rewrite lookup_insert_ne; [auto|]. intros <-.
    destruct (chain_some l d Hd') as [y Hy]. congruence.
Qed.

(** During a run: the nodes still to visit, the list that new registrations
    have built meanwhile, and everything else. *)
Definition both (ds news : list entry) (F m : gmap Z orbis_thread_dtor) : Prop :=
  exists R, holds ds R m /\ holds news F R.

(** A thread whose key heads the list [news]. *)
Definition ready (ds news : list entry) (F : gmap Z orbis_thread_dtor) (s : thread) : Prop :=
  both ds news F (nodes s) /\ specific s = head_of news.

(** [malloc] returns NULL or an address not in use. *)
Definition malloc_fresh (L : libc) : Prop := forall m, malloc L m <> 0 -> m !! malloc L m = None.

Definition never_fails (L : libc) : Prop :=
  once_fails L = false /\ forall m, malloc L m <> 0 /\ setspecific_fails L m = false.

Lemma register_ready L s f o ds news F :
  malloc_fresh L -> ready ds news F s ->
  let '(s', rc) := cxa_thread_atexit_impl L s f o in
  called s' = called s /\
  (rc = -1 /\ s' = s /\ ~ never_fails L \/
   rc = 0 /\ exists d, ready ds ((d, (f, o)) :: news) F s').
Proof.
  intros Hfresh [(R & Hm & HR) Hs]. unfold cxa_thread_atexit_impl.
  destruct (once_fails L) eqn:Ho; [split; [done|left]; split_and!; [done..|intros [? _]; congruence]|].
  destruct (Z.eqb_spec (malloc L (nodes s)) 0) as [Hd|Hd].
  { split; [done|left]. split_and!; [done..|]. intros [_ H]. by destruct (H (nodes s)). }
  specialize (Hfresh (nodes s) Hd). set (d := malloc L (nodes s)) in *.
  destruct (setspecific_fails L _) eqn:Hf; cbn [nodes specific called].
  - split; [done|left]. split_and!; [done| |intros [_ H]; destruct (H (<[d := mk_dtor f o (specific s)]> (nodes s))) as [_ H2]; cbn in Hf; congruence].
    rewrite delete_insert_id by done. by destruct s.
  - split; [done|right]. split; [done|]. exists d. split; [|done]. cbn [nodes].
    exists (<[d := mk_dtor f o (specific s)]> R). split; [by apply holds_grow|]. rewrite Hs.
    apply holds_cons; try done. destruct Hm as [Hm _ _ _]. rewrite Hm in Hfresh.
    by apply lookup_union_None in Hfresh as [_ ?].
Qed.

Lemma register_all_ready L regs s ds news F :
  malloc_fresh L -> ready ds news F s ->
  let s' := register_all L s regs in
  called s' = called s /\
  exists extra, ready ds (extra ++ news) F s' /\ extra.*2 `sublist_of` reverse regs /\
    (never_fails L -> extra.*2 = reverse regs).
Proof.
  intros Hfresh. revert s news. induction regs as [|[f o] regs IH]; intros s news Hr.
  - split; [done|]. exists []. split; [done|]. split; [constructor|done].
  - pose proof (register_ready L s f o ds news F Hfresh Hr) as H1. unfold register_all. cbn [fold_left].
    destruct (cxa_thread_atexit_impl L s f o) as [s1 rc]. cbn [fst].
    destruct H1 as [Hc [(_ & -> & Hnf)|(_ & d & Hr1)]].
    + destruct (IH s news Hr) as [H1 (ex & H2 & H3 & _)]. split; [done|]. exists ex. split; [done|].
      split; [|done]. rewrite reverse_cons. by apply sublist_inserts_r.
    + destruct (IH s1 _ Hr1) as [H1 (ex & H2 & H3 & H4)]. split; [by rewrite <- Hc|].
      exists (ex ++ [(d, (f, o))]). rewrite <- app_assoc. split; [done|].
      rewrite fmap_app, reverse_cons. split; [by apply sublist_app|]. intros Hn. by rewrite H4.
Qed.

Lemma run_step_ready ds d f o news F s :
  ready ((d, (f, o)) :: ds) news F s ->
  nodes s !! d = Some (mk_dtor f o (head_of ds)) /\ d <> 0 /\
  ready ds news F (mk_thread (delete d (nodes s)) (specific s) (called s)).
Proof.
  intros [(R & Hm & HR) Hs]. destruct (holds_head _ _ _ _ _ _ Hm) as [H1 H2].
  split; [done|]. split; [done|]. split; [|done]. exists R. split; [by eapply holds_tail|done].
Qed.

Lemma run_ready L action fuel s ds news F :
  malloc_fresh L -> ready ds news F s -> (length ds < fuel)%nat ->
  runs (orbis_thread_dtor_run L action fuel s (head_of ds)) (fun s' =>
    called s' = called s ++ ds.*2 /\
    exists extra, ready [] (extra ++ news) F s' /\
      (never_fails L -> extra.*2 = reverse (mjoin ((fun '(f, o) => action f o) <$> ds.*2)))).
Proof.
  intros Hfresh Hr Hf. unfold orbis_thread_dtor_run. rewrite runs_bind.
  revert s ds news Hr Hf. induction fuel as [|fuel IH]; intros s ds news Hr Hf; [lia|].
  destruct ds as [|[d [f o]] ds].
  - cbn [head_of]. rewrite while_stop by done. cbn. rewrite app_nil_r. split; [done|].
    exists []. by split.
  - cbn [head_of]. destruct (run_step_ready _ _ _ _ _ _ _ Hr) as (Hd & Hnz & _).
    assert (Hr1 : ready ((d, (f, o)) :: ds) news F (mk_thread (nodes s) (specific s) (called s ++ [(f, o)])))
      by done.
    destruct (register_all_ready L (action f o) _ _ _ _ Hfresh Hr1) as [Hc (ex & Hr2 & _ & Hall)].
    set (s1 := register_all L _ (action f o)) in *.
    destruct (run_step_ready _ _ _ _ _ _ _ Hr2) as (Hd1 & _ & Hr3).
    set (s2 := mk_thread (delete d (nodes s1)) (specific s1) (called s1)) in *.
    rewrite (while_go fuel _ _ (s, d) (s2, head_of ds)).
    2: { by rewrite (proj2 (Z.eqb_neq d 0) Hnz). }
    2: { rewrite Hd. unfold call. cbn [d_func d_obj d_next]. fold s1. by rewrite Hd1. }
    cbn [length] in Hf. eapply runs_mono; [apply (IH s2 ds (ex ++ news)); [done|lia]|].
    intros [s' x]. cbn [runs]. intros [H1 (ex2 & H2 & H3)].
    split; [rewrite H1; cbn; rewrite Hc; cbn; by rewrite <- app_assoc|].
    exists (ex2 ++ ex). rewrite <- app_assoc. split; [done|]. intros Hn.
    rewrite fmap_app, (H3 Hn), (Hall Hn). by rewrite <- reverse_app.
Qed.

(** ** Properties *)

(** The destructors registered while those of [w] run, in the order they will
    be called. *)
Definition next_wave (action : Z -> Z -> list (Z * Z)) (w : list (Z * Z)) : list (Z * Z) :=
  reverse (mjoin ((fun '(f, o) => action f o) <$> w)).

Fixpoint waves (action : Z -> Z -> list (Z * Z)) (rounds : nat) (w : list (Z * Z)) : list (Z * Z) :=
  match rounds with O => [] | S r => w ++ waves action r (next_wave action w) end.

Lemma waves_nil action rounds : waves action rounds [] = [].
Proof. induction rounds as [|r IH]; [done|]. cbn. exact IH. Qed.

Lemma iter_next_nil action k : Nat.iter k (next_wave action) [] = [].
Proof. induction k as [|k IH]; [done|]. by rewrite Nat.iter_succ, IH. Qed.

Lemma iter_next action k w :
  Nat.iter (S k) (next_wave action) w = Nat.iter k (next_wave action) (next_wave action w).
Proof. apply Nat.iter_succ_r. Qed.

Lemma exit_ready L action fuel rounds s news F :
  malloc_fresh L -> never_fails L -> ready [] news F s ->
  (forall k, (k < rounds)%nat -> (length (Nat.iter k (next_wave action) news.*2) < fuel)%nat) ->
  exists s' news', thread_exit L action fuel rounds s = Ok s' /\
    called s' = called s ++ waves action rounds news.*2 /\ ready [] news' F s' /\
    news'.*2 = Nat.iter rounds (next_wave action) news.*2.
Proof.
  intros Hfresh Hn. revert s news. induction rounds as [|rounds IH]; intros s news Hr Hf.
  - exists s, news. cbn. by rewrite app_nil_r.
  - pose proof Hr as [(R & Hm & HR) Hs]. cbn [thread_exit waves]. rewrite Hs.
    destruct news as [|[d [f o]] l].
    + exists s, []. split_and!; [done| |done|].
      * cbn [fmap list_fmap]. change (next_wave action []) with (@nil (Z * Z)).
        by rewrite waves_nil, !app_nil_r.
      * symmetry. apply (iter_next_nil action (S rounds)).
    + destruct (holds_head _ _ _ _ _ _ HR) as [_ Hd]. cbn [head_of]. rewrite (proj2 (Z.eqb_neq d 0) Hd).
      set (ds := (d, (f, o)) :: l) in *.
      assert (Hr0 : ready ds [] F (mk_thread (nodes s) 0 (called s))).
      { split; [|done]. exists F. split; [|apply holds_nil].
        destruct Hm as [Hm _ _ _]. cbn in Hm. rewrite map_empty_union in Hm. by rewrite <- Hm in HR. }
      assert (Hl : (length ds < fuel)%nat).
      { specialize (Hf 0%nat ltac:(lia)). unfold Nat.iter in Hf. cbn [nat_rect] in Hf.
        fold ds in Hf. rewrite length_fmap in Hf. exact Hf. }
      destruct (runs_elim _ _ (run_ready L action fuel _ _ _ _ Hfresh Hr0 Hl)) as (s1 & Hrun & Hc & ex & Hr1 & Hex).
      change (head_of ds) with d in Hrun. rewrite Hrun.
      rewrite app_nil_r in Hr1. specialize (Hex Hn). fold (next_wave action ds.*2) in Hex. rewrite bind_ok.
      destruct (IH s1 ex Hr1) as (s' & news' & H1 & H2 & H3 & H4).
      { intros k Hk. rewrite Hex, <- iter_next. apply Hf. lia. }
      exists s', news'. split; [done|]. rewrite H2, Hc, H4, Hex. cbn [called].
      split; [by rewrite <- app_assoc|]. split; [done|]. by rewrite iter_next.
Qed.

(** C34: a thread's exit runs every destructor it registered exactly once, the
    last registered first, together with those that the destructors register
    themselves, wave after wave for as many rounds as the threads library
    makes; and when the last wave registered nothing, every node is freed and
    the heap is what it was before the first registration. *)
Theorem thread_exit_lifo L action fuel rounds s regs
  (Hfresh : malloc_fresh L) (Hn : never_fails L) (Hs : specific s = 0)
  (Hfuel : forall k, (k < rounds)%nat ->
     (length (Nat.iter k (next_wave action) (reverse regs)) < fuel)%nat) :
  exists s', thread_exit L action fuel rounds (register_all L s regs) = Ok s' /\
    called s' = called s ++ waves action rounds (reverse regs) /\
    (Nat.iter rounds (next_wave action) (reverse regs) = [] ->
       nodes s' = nodes s /\ specific s' = 0).
Proof.
  assert (Hr : ready [] [] (nodes s) s).
  { split; [|done]. exists (nodes s). split; apply holds_nil. }
  destruct (register_all_ready L regs s [] [] (nodes s) Hfresh Hr) as [Hc (ex & Hr1 & _ & Hex)].
  rewrite app_nil_r in Hr1. specialize (Hex Hn).
  destruct (exit_ready L action fuel rounds _ ex (nodes s) Hfresh Hn Hr1) as (s' & news' & H1 & H2 & H3 & H4).
  { by rewrite Hex. }
  exists s'. split; [done|]. rewrite H2, Hc, Hex. split; [done|]. intros Hnil. rewrite Hex, Hnil in H4.
  destruct news'; [|done]. destruct H3 as [(R & [H5 _ _ _] & [H6 _ _ _]) H7]. cbn in *.
  rewrite map_empty_union in H5, H6. by rewrite H5, H6.
Qed.

(** A library whose [malloc] hands out the next unused multiple of 32. *)
Definition demo_malloc (m : gmap Z orbis_thread_dtor) : Z :=
  32 * (1 + map_fold (fun k _ acc => Z.max (Z.abs k) acc) 0 m).
Definition demo_libc : libc := mk_libc demo_malloc false (fun _ => false).

Lemma demo_malloc_above (m : gmap Z orbis_thread_dtor) k : is_Some (m !! k) -> 0 <= map_fold (fun k _ acc => Z.max (Z.abs k) acc) 0 m /\
  Z.abs k <= map_fold (fun k _ acc => Z.max (Z.abs k) acc) 0 m.
Proof.
  revert k. apply (map_fold_weak_ind (fun r (m : gmap Z orbis_thread_dtor) => forall k, is_Some (m !! k) -> 0 <= r /\ Z.abs k <= r)).
  - intros k [x Hx]. by rewrite lookup_empty in Hx.
  - intros i x m' r Hi IH k Hk. destruct (decide (i = k)) as [->|Hne].
    + lia.
    + rewrite lookup_insert_ne in Hk by done. destruct (IH k Hk). lia.
Qed.

Lemma demo_malloc_fresh : malloc_fresh demo_libc.
Proof.
  intros m _. destruct (m !! malloc demo_libc m) as [x|] eqn:Hx; [|done].
  destruct (demo_malloc_above m _ (mk_is_Some _ _ Hx)) as [H1 H2].
  cbn [malloc demo_libc] in *. unfold demo_malloc in *. lia.
Qed.

Lemma demo_never_fails : never_fails demo_libc.
Proof.
  split; [done|]. intros m. split; [|done]. cbn [malloc demo_libc]. unfold demo_malloc.
  assert (0 <= map_fold (fun k _ acc => Z.max (Z.abs k) acc) 0 m); [|lia].
  apply (map_fold_weak_ind (fun r (_ : gmap Z orbis_thread_dtor) => 0 <= r)); [lia|]. intros. lia.
Qed.

Definition demo_thread : thread := mk_thread ∅ 0 [].
(** The destructor 20 registers 30 while it runs. *)
Definition demo_action (f _ : Z) : list (Z * Z) := if f =? 20 then [(30, 3)] else [].

Lemma thread_exit_lifo_witness :
  exists s', thread_exit demo_libc demo_action 10 4 (register_all demo_libc demo_thread [(10, 1); (20, 2)]) = Ok s' /\
    called s' = [(20, 2); (10, 1); (30, 3)] /\ nodes s' = ∅.
Proof.
  destruct (thread_exit_lifo demo_libc demo_action 10 4 demo_thread [(10, 1); (20, 2)]
    demo_malloc_fresh demo_never_fails eq_refl) as (s' & H1 & H2 & H3).
  - intros [|[|[|[|k]]]] Hk; [vm_compute; lia..|lia].
  - exists s'. split; [exact H1|]. split; [exact H2|]. apply H3. vm_compute. reflexivity.
Defined.

(** A registration that cannot be armed leaves nothing behind: on -1 the
    thread is exactly as it was - the node [pthread_setspecific] would not
    take is freed again - and on 0 the destructor heads the list; -1 comes
    only when the library failed. *)
Theorem cxa_thread_atexit_impl_correct L s f o (Hfresh : malloc_fresh L) :
  let '(s', rc) := cxa_thread_atexit_impl L s f o in
  (rc = -1 /\ s' = s /\ ~ never_fails L) \/
  (rc = 0 /\ called s' = called s /\ specific s' <> 0 /\ nodes s !! specific s' = None /\
   nodes s' = <[specific s' := mk_dtor f o (specific s)]> (nodes s)).
Proof.
  unfold cxa_thread_atexit_impl.
  destruct (once_fails L) eqn:Ho; [left; split_and!; [done..|intros [? _]; congruence]|].
  destruct (Z.eqb_spec (malloc L (nodes s)) 0) as [Hd|Hd].
  { left. split_and!; [done..|]. intros [_ H]. by destruct (H (nodes s)). }
  specialize (Hfresh (nodes s) Hd).
  destruct (setspecific_fails L _) eqn:Hf; [left|by right]. split_and!; [done| |].
  - cbn. rewrite delete_insert_id by done. by destruct s.
  - intros [_ H]. destruct (H (<[malloc L (nodes s) := mk_dtor f o (specific s)]> (nodes s))) as [_ H2].
    cbn in Hf. congruence.
Qed.

Lemma cxa_thread_atexit_impl_witness :
  cxa_thread_atexit_impl (mk_libc demo_malloc false (fun _ => true)) demo_thread 10 1 = (demo_thread, -1).
Proof.
  assert (Hf : malloc_fresh (mk_libc demo_malloc false (fun _ => true))) by exact demo_malloc_fresh.
  pose proof (cxa_thread_atexit_impl_correct (mk_libc demo_malloc false (fun _ => true)) demo_thread 10 1 Hf) as H.
  assert (Hrc : snd (cxa_thread_atexit_impl (mk_libc demo_malloc false (fun _ => true)) demo_thread 10 1) = -1)
    by (vm_compute; reflexivity).
  destruct (cxa_thread_atexit_impl (mk_libc demo_malloc false (fun _ => true)) demo_thread 10 1) as [s' rc].
  cbn in Hrc. subst rc. destruct H as [(_ & -> & _)|(H & _)]; [reflexivity|discriminate].
Defined.
