(* ===== verification/Backtrace.v ===== *)
(** [src/orbis_backtrace.c]: collecting return addresses and writing them out
    without the C library. *)
From stdpp Require Import prelude gmap list numbers.
From S2P Require Import Prelude Memory.
Open Scope Z_scope.

Module Backtrace.

(** The caller's buffer is a memory of pointers; the unwinder's state. *)
Record orbis_unwind_state := mk_unwind {
  us_buffer : Z; us_size : Z; us_count : Z; us_skip : Z }.

(** [true]: go on to the next frame. *)
Definition orbis_unwind_step (m : mem) (s : orbis_unwind_state) (ip : Z)
    : outcome (mem * orbis_unwind_state * bool) :=
  if 0 <? us_skip s then
    Ok (m, mk_unwind (us_buffer s) (us_size s) (us_count s) (us_skip s - 1), true)
  else if us_size s <=? us_count s then Ok (m, s, false)
  else if ip =? 0 then Ok (m, s, false)
  else
    m ← st m (us_buffer s + us_count s) ip;
    Ok (m, mk_unwind (us_buffer s) (us_size s) (us_count s + 1) (us_skip s), true).

(** [_Unwind_Backtrace]: the step on every frame, innermost first, until it
    says stop or the frames end. *)
Fixpoint unwind_backtrace (m : mem) (s : orbis_unwind_state) (ips : list Z)
    : outcome (mem * orbis_unwind_state) :=
  match ips with
  | [] => Ok (m, s)
  | ip :: ips =>
      '(m, s, go) ← orbis_unwind_step m s ip;
      if go : bool then unwind_backtrace m s ips else Ok (m, s)
  end.

Definition orbis_unwind_collect (m : mem) (ips : list Z) (buffer size skip : Z) : outcome (mem * Z) :=
  if (buffer =? 0) || (size <=? 0) then Ok (m, 0)
  else
    '(m, s) ← unwind_backtrace m (mk_unwind buffer size 0 skip) ips;
    Ok (m, us_count s).

Definition backtrace (m : mem) (ips : list Z) (buffer size : Z) : outcome (mem * Z) :=
  orbis_unwind_collect m ips buffer size 1.

(** [digits[nibble]], the characters of "0123456789abcdef". *)
Definition digit (nibble : Z) : Z := if nibble <? 10 then 48 + nibble else 87 + nibble.

(** The loop over [shift = 4*(k-1), ..., 4, 0]. *)
Fixpoint hex_loop (m : mem) (out n v : Z) (started : bool) (k : nat) : outcome (mem * Z) :=
  match k with
  | O => Ok (m, n)
  | S k =>
      let shift := 4 * Z.of_nat k in
      let nibble := Z.land (Z.shiftr v shift) 0xf in
      if negb (nibble =? 0) || started || (shift =? 0) then
        m ← st m (out + n) (digit nibble);
        hex_loop m out (n + 1) v true k
      else hex_loop m out n v started k
  end.

Definition orbis_write_hex (m : mem) (out v : Z) : outcome (mem * Z) :=
  m ← st m out 48;
  m ← st m (out + 1) 120;
  '(m, n) ← hex_loop m out 2 v false 16;
  m ← st m (out + n) 10;
  Ok (m, n + 1).

Fixpoint load (m : mem) (p : Z) (n : nat) : outcome (list Z) :=
  match n with
  | O => Ok []
  | S n => x ← ld m p; xs ← load m (p + 1) n; Ok (x :: xs)
  end.

(** The 20 bytes of [char line[2 + sizeof(uintptr_t) * 2 + 2]]. *)
Definition line : mem := write ∅ 0 (replicate 20 0).

(** What is written to [fd], line after line. *)
Fixpoint backtrace_symbols_fd (buffer : list Z) : outcome (list Z) :=
  match buffer with
  | [] => Ok []
  | v :: buffer =>
      '(m, n) ← orbis_write_hex line 0 v;
      xs ← load m 0 (Z.to_nat n);
      ys ← backtrace_symbols_fd buffer;
      Ok (xs ++ ys)
  end.

Definition stride : Z := 2 + 8 * 2 + 1.

(** A pointer stored as its eight bytes, least significant first. *)
Fixpoint st_le (m : mem) (p : Z) (n : nat) (v : Z) : outcome mem :=
  match n with
  | O => Ok m
  | S n => m ← st m p (v mod 256); st_le m (p + 1) n (v / 256)
  end.

(** The loop of [backtrace_symbols]: entry [i], the text at [text]. *)
Fixpoint symbols_loop (m : mem) (out i text : Z) (buffer : list Z) : outcome mem :=
  match buffer with
  | [] => Ok m
  | v :: buffer =>
      '(m, n) ← orbis_write_hex m text v;
      m ← st m (text + (n - 1)) 0;
      m ← st_le m (out + 8 * i) 8 text;
      symbols_loop m out (i + 1) (text + stride) buffer
  end.

Section symbols.
(** [malloc], on the bytes asked for: the block and the memory with it mapped. *)
Context (malloc : mem -> Z -> mem * Z).

Definition backtrace_symbols (m : mem) (buffer : option (list Z)) : outcome (mem * Z) :=
  match buffer with
  | None | Some [] => Ok (m, 0)
  | Some buf =>
      let size := zlen buf in
      let '(m, out) := malloc m (size * 8 + size * stride) in
      if out =? 0 then Ok (m, 0)
      else m ← symbols_loop m out 0 (out + 8 * size) buf; Ok (m, out)
  end.
End symbols.

End Backtrace.
Export Backtrace.

(** ** Collecting *)

(** The frames a caller gets: those after the skipped ones, up to the first
    without an address, at most [size]. *)
Fixpoint until_zero (ips : list Z) : list Z :=
  match ips with [] => [] | ip :: ips => if ip =? 0 then [] else ip :: until_zero ips end.

Lemma unwind_ok m buffer size count k (ips : list Z) :
  k <= 0 -> 0 <= count -> mapped m (buffer + count) (size - count) ->
  let got := take (Z.to_nat (size - count)) (until_zero ips) in
  unwind_backtrace m (mk_unwind buffer size count k) ips =
    Ok (write m (buffer + count) got, mk_unwind buffer size (count + zlen got) k).
Proof.
  intros Hk. revert m count. induction ips as [|ip ips IH]; intros m count Hc Hm.
  - cbn. rewrite take_nil. cbn. by rewrite Z.add_0_r.
  - cbn [unwind_backtrace until_zero]. unfold orbis_unwind_step. cbn [us_skip us_size us_count us_buffer].
    rewrite (proj2 (Z.ltb_ge 0 k) Hk). destruct (Z.leb_spec size count).
    { replace (Z.to_nat (size - count)) with 0%nat by lia. cbn. by rewrite Z.add_0_r. }
    destruct (Z.eqb_spec ip 0) as [->|Hip].
    { rewrite take_nil. cbn. by rewrite Z.add_0_r. }
    rewrite st_ok by (eapply mapped_cell; [done|lia]). rewrite bind_ok.
    rewrite bind_ok. rewrite IH; [|lia|].
    + replace (Z.to_nat (size - count)) with (S (Z.to_nat (size - (count + 1)))) by lia.
      cbn [take write length]. rewrite Z.add_assoc. tuple_eq.
      f_equal. lia.
    + apply mapped_insert. eapply mapped_sub; [done|lia|lia].
Qed.

Lemma unwind_skip m buffer size (skip : nat) (ips : list Z) :
  exists k, unwind_backtrace m (mk_unwind buffer size 0 (Z.of_nat skip)) ips =
    unwind_backtrace m (mk_unwind buffer size 0 k) (drop skip ips) /\ (k <= 0 \/ drop skip ips = []).
Proof.
  revert skip. induction ips as [|ip ips IH]; intros skip.
  - exists (Z.of_nat skip). rewrite drop_nil. auto.
  - destruct skip as [|skip]; [exists 0; split; [done|by left]|].
    cbn [unwind_backtrace drop]. unfold orbis_unwind_step at 1. cbn [us_skip us_size us_count us_buffer].
    rewrite (proj2 (Z.ltb_lt 0 (Z.of_nat (S skip)))) by lia. rewrite bind_ok.
    replace (Z.of_nat (S skip) - 1) with (Z.of_nat skip) by lia. apply IH.
Qed.

(** [orbis_unwind_collect] (and [backtrace], which skips one frame)
    returns how many addresses it stored: the frames after the skipped ones,
    innermost first, up to the first without an address and at most [size];
    it stores exactly those and nothing beyond the buffer. *)
Theorem orbis_unwind_collect_correct m ips buffer size skip
  (Hb : buffer <> 0) (Hm : mapped m buffer size) :
  let got := take (Z.to_nat size) (until_zero (drop (Z.to_nat skip) ips)) in
  orbis_unwind_collect m ips buffer size skip = Ok (write m buffer got, zlen got) /\
  zlen got <= Z.max 0 size.
Proof.
  intros got. split; [|subst got; rewrite length_take; lia].
  unfold orbis_unwind_collect. rewrite (proj2 (Z.eqb_neq buffer 0) Hb). cbn [orb].
  destruct (Z.leb_spec size 0).
  { subst got. by replace (Z.to_nat size) with 0%nat by lia. }
  assert (H1 : exists k, unwind_backtrace m (mk_unwind buffer size 0 skip) ips =
    unwind_backtrace m (mk_unwind buffer size 0 k) (drop (Z.to_nat skip) ips) /\
    (k <= 0 \/ drop (Z.to_nat skip) ips = [])).
  { destruct (Z.le_gt_cases skip 0).
    - exists skip. replace (Z.to_nat skip) with 0%nat by lia. auto.
    - destruct (unwind_skip m buffer size (Z.to_nat skip) ips) as (k & H1 & H2).
      exists k. by rewrite Z2Nat.id in H1 by lia. }
  destruct H1 as (k & -> & [Hk|Hnil]).
  - rewrite unwind_ok by (rewrite ?Z.add_0_r, ?Z.sub_0_r; done || lia).
    by rewrite Z.sub_0_r, Z.add_0_r.
  - subst got. rewrite Hnil. cbn. by rewrite take_nil.
Qed.

Lemma orbis_unwind_collect_witness :
  exists m', orbis_unwind_collect (write ∅ 100 [7; 7; 7]) [11; 12; 13; 0; 15] 100 3 1 = Ok (m', 2) /\
    array m' 100 [12; 13; 7].
Proof.
  exists (write (write ∅ 100 [7; 7; 7]) 100 [12; 13]). split.
  - exact (proj1 (orbis_unwind_collect_correct (write ∅ 100 [7; 7; 7]) [11; 12; 13; 0; 15] 100 3 1
      ltac:(lia) (array_mapped _ _ _ (array_write ∅ 100 [7; 7; 7])))).
  - apply array_check. vm_compute. reflexivity.
Defined.

(** ** Hexadecimal *)

(** The [k] low nibbles of [v], the most significant first. *)
Fixpoint nibbles (v : Z) (k : nat) : list Z :=
  match k with O => [] | S k => Z.land (Z.shiftr v (4 * Z.of_nat k)) 0xf :: nibbles v k end.

(** Without leading zeros, but not empty. *)
Fixpoint strip (ns : list Z) : list Z :=
  match ns with
  | [] => []
  | n :: rest => if (n =? 0) && negb (bool_decide (rest = [])) then strip rest else ns
  end.

(** "0x", the digits, a newline. *)
Definition hex_text (v : Z) : list Z := [48; 120] ++ map digit (strip (nibbles v 16)) ++ [10].

Definition hex_value (ds : list Z) : Z := fold_left (fun acc d => 16 * acc + d) ds 0.

Lemma nibbles_length v k : length (nibbles v k) = k.
Proof. induction k; cbn; congruence. Qed.

Lemma nibble_mod v k : Z.land (Z.shiftr v (4 * Z.of_nat k)) 0xf = v / 16 ^ Z.of_nat k mod 16.
Proof.
  change 0xf with (Z.ones 4). rewrite Z.land_ones, Z.shiftr_div_pow2 by lia.
  by rewrite Z.pow_mul_r by lia.
Qed.

Lemma fold_value ds acc : fold_left (fun acc d => 16 * acc + d) ds acc = acc * 16 ^ zlen ds + hex_value ds.
Proof.
  unfold hex_value. revert acc. induction ds as [|d ds IH]; intros acc; [cbn; lia|].
  cbn [fold_left length]. rewrite IH, (IH (16 * 0 + d)), Nat2Z.inj_succ, Z.pow_succ_r by lia. lia.
Qed.

Lemma nibbles_value v k : 0 <= v -> hex_value (nibbles v k) = v mod 16 ^ Z.of_nat k.
Proof.
  intros Hv. induction k as [|k IH]; [cbn; by rewrite Z.mod_1_r|].
  cbn [nibbles]. unfold hex_value. cbn [fold_left]. rewrite fold_value, IH, nibbles_length, nibble_mod.
  rewrite Nat2Z.inj_succ, Z.pow_succ_r by lia. set (p := 16 ^ Z.of_nat k).
  assert (0 < p) by (apply Z.pow_pos_nonneg; lia).
  rewrite (Z.mul_comm 16 p), Z.rem_mul_r by lia. lia.
Qed.

Lemma strip_value ds : hex_value (strip ds) = hex_value ds.
Proof.
  induction ds as [|d ds IH]; [done|]. cbn [strip].
  destruct (Z.eqb_spec d 0) as [->|]; [|done]. cbn [andb].
  destruct (bool_decide (ds = [])); [done|]. cbn [negb]. rewrite IH. done.
Qed.

Lemma hex_loop_ok m out n v started k :
  0 <= n -> mapped m (out + n) (Z.of_nat k) ->
  let ds := map digit (if started : bool then nibbles v k else strip (nibbles v k)) in
  hex_loop m out n v started k = Ok (write m (out + n) ds, n + zlen ds).
Proof.
  revert m n started. induction k as [|k IH]; intros m n started Hn Hm.
  - cbn. destruct started; cbn; by rewrite Z.add_0_r.
  - cbn [hex_loop nibbles]. set (d := Z.land _ 0xf).
    assert (Hput : (m ← st m (out + n) (digit d); hex_loop m out (n + 1) v true k) =
      Ok (write m (out + n) (map digit (d :: nibbles v k)), n + zlen (map digit (d :: nibbles v k)))).
    { rewrite st_ok by (eapply mapped_cell; [done|lia]). rewrite bind_ok, IH.
      - cbn [map write length]. rewrite Z.add_assoc. tuple_eq.
      - lia.
      - apply mapped_insert. eapply mapped_sub; [done|lia|lia]. }
    destruct started; [rewrite orb_true_r; exact Hput|]. rewrite orb_false_r.
    assert (Hk : bool_decide (nibbles v k = []) = (4 * Z.of_nat k =? 0)).
    { destruct k; [done|]. rewrite bool_decide_eq_false_2; [|done]. symmetry. apply Z.eqb_neq. lia. }
    cbn [strip]. rewrite Hk. destruct (d =? 0), (4 * Z.of_nat k =? 0); cbn [negb orb andb]; try exact Hput.
    rewrite IH; [done|done|]. eapply mapped_sub; [done|lia|lia].
Qed.

Lemma strip_length ds : (length (strip ds) <= length ds)%nat /\ (ds <> [] -> strip ds <> []).
Proof.
  induction ds as [|d ds [IH1 IH2]]; [done|]. cbn [strip].
  destruct (d =? 0); cbn [andb]; [|by cbn].
  destruct (bool_decide_reflect (ds = [])); cbn [negb]; [by cbn|]. split; [cbn; lia|auto].
Qed.

Lemma hex_text_length v : 4 <= zlen (hex_text v) <= 19.
Proof.
  unfold hex_text. rewrite !length_app, length_map. cbn [length].
  destruct (strip_length (nibbles v 16)) as [H1 H2]. rewrite nibbles_length in H1.
  destruct (strip (nibbles v 16)); [by destruct H2|]. cbn [length] in *. lia.
Qed.

Lemma write_hex_ok m out v :
  mapped m out 19 -> orbis_write_hex m out v = Ok (write m out (hex_text v), zlen (hex_text v)).
Proof.
  intros Hm. pose proof (hex_text_length v) as Hl. unfold orbis_write_hex.
  rewrite st_ok by (apply Hm; lia). rewrite bind_ok.
  rewrite st_ok by (apply (mapped_insert _ _ _ out 19 Hm); lia). rewrite bind_ok.
  set (m2 := <[out + 1 := 120]> (<[out := 48]> m)).
  assert (Hm2 : mapped m2 out 19) by by do 2 apply mapped_insert.
  rewrite hex_loop_ok; [|lia|eapply mapped_sub; [exact Hm2|lia|lia]]. rewrite bind_ok.
  set (ds := map digit (strip (nibbles v 16))) in *.
  assert (Hlen : zlen (hex_text v) = zlen ds + 3) by (unfold hex_text; rewrite !length_app; cbn; lia).
  rewrite st_ok by (apply (mapped_write _ _ _ _ _ Hm2); lia). rewrite bind_ok.
  tuple_eq. unfold hex_text. rewrite write_app. cbn [write length app].
  rewrite (write_snoc _ _ ds 10). by rewrite Z.add_assoc.
Qed.

Lemma strip_small ds : Forall (fun d => 0 <= d < 16) ds -> Forall (fun d => 0 <= d < 16) (strip ds).
Proof.
  induction 1 as [|d ds Hd Hds IH]; [done|]. cbn [strip].
  destruct (_ && _); [done|]. by constructor.
Qed.

Lemma nibbles_small v k : Forall (fun d => 0 <= d < 16) (nibbles v k).
Proof.
  induction k as [|k IH]; [constructor|]. cbn [nibbles]. constructor; [|done].
  rewrite nibble_mod. apply Z.mod_pos_bound. lia.
Qed.

Lemma strip_head ds : Forall (fun d => 0 <= d < 16) ds ->
  hd 0 (map digit (strip ds)) = 48 -> map digit (strip ds) = [48].
Proof.
  induction 1 as [|d ds Hd _ IH]; [done|]. cbn [strip].
  destruct (Z.eqb_spec d 0) as [->|Hnz]; cbn [andb].
  - destruct (bool_decide_reflect (ds = [])); cbn [negb]; [by subst|done].
  - cbn. unfold digit. destruct (Z.ltb_spec d 10); lia.
Qed.

(** The value of a lower-case hexadecimal digit. *)
Definition digit_value (c : Z) : Z := if c <? 58 then c - 48 else c - 87.

(** [orbis_write_hex] fits any 64-bit value in 19 bytes, "0x" and a
    newline included, and the digits between them read back as the value;
    there is at least one, and no leading zero unless it is the only one. *)
Theorem orbis_write_hex_correct m out v (Hv : 0 <= v < 2 ^ 64) (Hm : mapped m out 19) :
  exists ds, let text := [48; 120] ++ ds ++ [10] in
    orbis_write_hex m out v = Ok (write m out text, zlen text) /\
    1 <= zlen ds <= 16 /\ hex_value (map digit_value ds) = v /\
    (hd 0 ds = 48 -> ds = [48]) /\ Forall (fun c => 48 <= c <= 57 \/ 97 <= c <= 102) ds.
Proof.
  exists (map digit (strip (nibbles v 16))). cbv zeta.
  pose proof (hex_text_length v) as Hl. unfold hex_text in Hl. rewrite !length_app in Hl. cbn [length] in Hl.
  pose proof (strip_small _ (nibbles_small v 16)) as Hs.
  split; [by rewrite write_hex_ok|]. split; [lia|]. split_and!.
  - rewrite map_map. rewrite (map_ext_in _ id), map_id.
    + rewrite strip_value, nibbles_value by lia. apply Z.mod_small. exact Hv.
    + intros d Hd. rewrite List.Forall_forall in Hs. specialize (Hs d Hd). unfold digit, digit_value, id.
      destruct (Z.ltb_spec d 10); [destruct (Z.ltb_spec (48 + d) 58)|destruct (Z.ltb_spec (87 + d) 58)]; lia.
  - apply strip_head, nibbles_small.
  - apply List.Forall_map. eapply List.Forall_impl; [|exact Hs]. intros d Hd. cbv beta in *. unfold digit.
    destruct (Z.ltb_spec d 10); lia.
Qed.

Lemma orbis_write_hex_witness :
  exists ds, orbis_write_hex line 0 0xdeadbeef = Ok (write line 0 ([48; 120] ++ ds ++ [10]), zlen ([48; 120] ++ ds ++ [10])) /\
    hex_value (map digit_value ds) = 0xdeadbeef.
Proof.
  assert (Hm : mapped line 0 19).
  { apply (mapped_sub line 0 20); [|lia|lia]. exact (array_mapped _ _ _ (array_write ∅ 0 (replicate 20 0))). }
  destruct (orbis_write_hex_correct line 0 0xdeadbeef ltac:(lia) Hm) as (ds & H1 & _ & H2 & _).
  exists ds. split; [exact H1|exact H2].
Defined.

(** ** The array of strings *)

Definition hex_digits (v : Z) : list Z := [48; 120] ++ map digit (strip (nibbles v 16)).

Lemma st_le_ok m p n v : mapped m p (Z.of_nat n) -> st_le m p n v = Ok (write m p (le_bytes n v)).
Proof.
  revert m p v. induction n as [|n IH]; intros m p v Hm; [done|]. cbn [st_le le_bytes write].
  rewrite st_ok by (eapply mapped_cell; [done|lia]). rewrite bind_ok.
  apply IH, mapped_insert. eapply mapped_sub; [done|lia|lia].
Qed.

Lemma hex_digits_zstr m p v : zstr (write m p (hex_digits v ++ [0])) p (hex_digits v).
Proof.
  split; [apply array_write|]. unfold hex_digits. repeat constructor; [lia|lia|].
  apply List.Forall_map. eapply List.Forall_impl; [|exact (strip_small _ (nibbles_small v 16))].
  intros d Hd. cbv beta in *. unfold digit. destruct (Z.ltb_spec d 10); lia.
Qed.

(** One entry: its text, terminated, and its pointer. *)
Lemma put_symbol m out i text v :
  mapped m text stride -> mapped m (out + 8 * i) 8 ->
  (x ← orbis_write_hex m text v;
   m1 ← st (fst x) (text + (snd x - 1)) 0; st_le m1 (out + 8 * i) 8 text) =
  Ok (write (write m text (hex_digits v ++ [0])) (out + 8 * i) (le_bytes 8 text)).
Proof.
  intros Ht Ho. rewrite write_hex_ok by done. rewrite bind_ok. cbn [fst snd].
  pose proof (hex_text_length v) as Hl.
  rewrite st_ok by (apply (mapped_write _ _ _ _ _ Ht); unfold stride; lia). rewrite bind_ok.
  change (hex_text v) with (hex_digits v ++ [10]).
  replace (<[_ := 0]> (write m text (hex_digits v ++ [10]))) with (write m text (hex_digits v ++ [0])).
  - rewrite st_le_ok; [done|]. by apply mapped_write.
  - rewrite !write_snoc. rewrite length_app. cbn [length].
    replace (text + (Z.of_nat (length (hex_digits v) + 1) - 1)) with (text + zlen (hex_digits v)) by lia.
    by rewrite insert_insert_eq.
Qed.

(** Entry [j] of the result: text [j] holds the digits of frame [j]. *)
Definition symbol_at (m : mem) (out text v : Z) : Prop :=
  array m out (le_bytes 8 text) /\ zstr m text (hex_digits v).

Lemma hex_digits_length v : zlen (hex_digits v) <= 18.
Proof.
  pose proof (hex_text_length v) as H. change (hex_text v) with (hex_digits v ++ [10]) in H.
  rewrite length_app in H. cbn [length] in H. lia.
Qed.

Lemma symbols_loop_ok m out i text buf :
  0 <= i -> mapped m (out + 8 * i) (8 * zlen buf) -> mapped m text (stride * zlen buf) ->
  out + 8 * (i + zlen buf) <= text ->
  exists m', symbols_loop m out i text buf = Ok m' /\
    (forall a, ~ (out + 8 * i <= a < out + 8 * (i + zlen buf)) -> ~ (text <= a < text + stride * zlen buf) ->
       m' !! a = m !! a) /\
    forall j v, buf !! j = Some v ->
      symbol_at m' (out + 8 * (i + Z.of_nat j)) (text + stride * Z.of_nat j) v.
Proof.
  revert m i text. induction buf as [|v buf IH]; intros m i text Hi Ho Ht Hap.
  - exists m. cbn. split_and!; done.
  - change stride with 19 in *. cbn [length] in *. assert (Hs : stride = 19) by done.
    set (m1 := write (write m text (hex_digits v ++ [0])) (out + 8 * i) (le_bytes 8 text)).
    assert (Hput := put_symbol m out i text v ltac:(eapply mapped_sub; [exact Ht|lia|lia])
      ltac:(eapply mapped_sub; [exact Ho|lia|lia])). fold m1 in Hput.
    pose proof (hex_digits_length v) as Hlen.
    assert (Hm1 : forall a, ~ (out + 8 * i <= a < out + 8 * i + 8) -> ~ (text <= a < text + 19) -> m1 !! a = m !! a).
    { intros a H1 H2. unfold m1. rewrite lookup_write_out by (rewrite le_bytes_length; lia).
      apply lookup_write_out. rewrite length_app. cbn [length]. lia. }
    destruct (IH m1 (i + 1) (text + 19)) as (m' & H1 & H2 & H3); [lia| | |lia|].
    { do 2 apply mapped_write. eapply mapped_sub; [exact Ho|lia|lia]. }
    { change stride with 19. do 2 apply mapped_write. eapply mapped_sub; [exact Ht|lia|lia]. }
    change stride with 19 in *. exists m'. split; [|split].
    + cbn [symbols_loop]. destruct (orbis_write_hex m text v) as [[mx nx]| |]; [|done|done].
      rewrite bind_ok in Hput |- *. cbn [fst snd] in Hput.
      destruct (st mx (text + (nx - 1)) 0) as [my| |]; [|done|done]. rewrite bind_ok in Hput |- *.
      by rewrite Hput, bind_ok.
    + intros a Ha1 Ha2. rewrite H2 by lia. apply Hm1; lia.
    + intros [|j] w Hw.
      * injection Hw as <-. rewrite !Z.mul_0_r, !Z.add_0_r. split.
        -- intros k x Hx. pose proof (lookup_lt_Some _ _ _ Hx) as Hk. rewrite le_bytes_length in Hk.
           rewrite H2 by lia. by apply array_write.
        -- split; [|apply (hex_digits_zstr m text v)].
           intros k x Hx. pose proof (lookup_lt_Some _ _ _ Hx) as Hk. rewrite length_app in Hk. cbn [length] in Hk.
           rewrite H2 by lia. unfold m1. rewrite lookup_write_out by (rewrite le_bytes_length; lia).
           by apply array_write.
      * replace (i + Z.of_nat (S j)) with (i + 1 + Z.of_nat j) by lia.
        replace (text + 19 * Z.of_nat (S j)) with (text + 19 + 19 * Z.of_nat j) by lia.
        by apply H3.
Qed.

Lemma load_array m p xs : array m p xs -> load m p (length xs) = Ok xs.
Proof.
  revert p. induction xs as [|x xs IH]; intros p H; [done|]. apply array_cons in H as [Hx H].
  cbn [load length]. by rewrite (ld_ok _ _ _ Hx), bind_ok, (IH _ H).
Qed.

Lemma line_mapped : mapped line 0 19.
Proof.
  apply (mapped_sub line 0 20); [|lia|lia]. exact (array_mapped _ _ _ (array_write ∅ 0 (replicate 20 0))).
Qed.

(** [backtrace_symbols_fd] never leaves its 20-byte line, whatever the
    addresses are, and writes one line for each of them, in order. *)
Theorem backtrace_symbols_fd_correct buffer :
  backtrace_symbols_fd buffer = Ok (mjoin (map hex_text buffer)).
Proof.
  induction buffer as [|v buffer IH]; [done|]. cbn [backtrace_symbols_fd map].
  rewrite write_hex_ok by apply line_mapped. rewrite bind_ok, Nat2Z.id.
  by rewrite (load_array _ 0 _ (array_write line 0 (hex_text v))), bind_ok, IH.
Qed.

(** [backtrace_symbols] stays inside the one block it allocates: entry [i]
    of the array points at a terminated string inside the block, "0x" and the
    digits of address [i] without the newline, and no two strings overlap;
    nothing outside the block changes. *)
Theorem backtrace_symbols_correct malloc m buf (Hmalloc : malloc_ok malloc) (Hbuf : buf <> []) :
  exists m' out, backtrace_symbols malloc m (Some buf) = Ok (m', out) /\
    (out <> 0 ->
       (forall a, ~ (out <= a < out + (8 + stride) * zlen buf) -> m' !! a = m !! a) /\
       forall i v, buf !! i = Some v ->
         let text := out + 8 * zlen buf + stride * Z.of_nat i in
         array m' (out + 8 * Z.of_nat i) (le_bytes 8 text) /\ zstr m' text (hex_digits v) /\
         zlen (hex_digits v) < stride).
Proof.
  unfold backtrace_symbols. destruct buf as [|v0 buf0]; [done|]. set (buf := v0 :: buf0).
  specialize (Hmalloc m (zlen buf * 8 + zlen buf * stride)).
  destruct (malloc m (zlen buf * 8 + zlen buf * stride)) as [m1 out].
  destruct (Z.eqb_spec out 0) as [->|Hout]; [by exists m1, 0|].
  destruct (Hmalloc Hout) as [Hm Hf]. change stride with 19 in *.
  destruct (symbols_loop_ok m1 out 0 (out + 8 * zlen buf) buf) as (m' & H1 & H2 & H3).
  { lia. }
  { eapply mapped_sub; [exact Hm|lia|lia]. }
  { change stride with 19. eapply mapped_sub; [exact Hm|lia|lia]. }
  { lia. }
  exists m', out. rewrite H1. split; [done|]. intros _. change stride with 19 in *. split.
  - intros a Ha. rewrite H2 by lia. apply Hf. lia.
  - intros i v Hv. destruct (H3 i v Hv) as [H4 H5]. pose proof (hex_digits_length v).
    split; [exact H4|]. split; [exact H5|lia].
Qed.

(** A heap whose [malloc] returns the block at 4096. *)
Definition demo_block (m : mem) (n : Z) : mem * Z := (write m 4096 (replicate (Z.to_nat n) 255), 4096).

Lemma demo_block_ok : malloc_ok demo_block.
Proof.
  intros m n _. split.
  - intros a Ha. apply (array_mapped _ _ _ (array_write m 4096 (replicate (Z.to_nat n) 255))).
    rewrite length_replicate. lia.
  - intros a Ha. apply lookup_write_out. rewrite length_replicate. lia.
Qed.

Lemma backtrace_symbols_witness :
  exists m' out, backtrace_symbols demo_block ∅ (Some [0x400123; 0]) = Ok (m', out) /\
    (out <> 0 -> zstr m' (out + 16) (hex_digits 0x400123)).
Proof.
  destruct (backtrace_symbols_correct demo_block ∅ [0x400123; 0] demo_block_ok ltac:(discriminate))
    as (m' & out & H1 & H2).
  exists m', out. split; [exact H1|]. intros Hout. destruct (H2 Hout) as [_ H3].
  destruct (H3 0%nat 0x400123 eq_refl) as (_ & H4 & _).
  change (stride * Z.of_nat 0) with 0 in H4. rewrite Z.add_0_r in H4. exact H4.
Defined.
