(* ===== verification/Report.v ===== *)
(** What a process says before it dies: [src/orbis_log.c] and
    [src/orbis_abort_report.c]. *)
From Stdlib Require Import String Ascii.
From stdpp Require Import prelude gmap list numbers strings.
From S2P Require Import Prelude Memory.
Open Scope Z_scope.

(** The bytes of a string. *)
Fixpoint bytes (s : string) : list Z :=
  match s with EmptyString => [] | String c s => Z.of_nat (nat_of_ascii c) :: bytes s end.

Module Log.

(** A logger is a function pointer, 0 when none is set. *)
Record channels := mk_channels {
  orbis_logger : Z; orbis_logger_fatal : Z; orbis_fatal_fn : Z }.

Definition orbis_set_log (c : channels) (fn : Z) : channels :=
  mk_channels fn (orbis_logger_fatal c) (orbis_fatal_fn c).
Definition orbis_set_log_fatal (c : channels) (fn : Z) : channels :=
  mk_channels (orbis_logger c) fn (orbis_fatal_fn c).
Definition orbis_set_fatal_action (c : channels) (fn : Z) : channels :=
  mk_channels (orbis_logger c) (orbis_logger_fatal c) fn.

Definition orbis_log_enabled (c : channels) : bool := negb (orbis_logger c =? 0).

(** The function called with the message, if any. *)
Definition orbis_log (c : channels) (msg : string) : option (Z * string) :=
  if orbis_logger c =? 0 then None else Some (orbis_logger c, msg).
Definition orbis_log_fatal (c : channels) (msg : string) : option (Z * string) :=
  let fn := if negb (orbis_logger_fatal c =? 0) then orbis_logger_fatal c else orbis_logger c in
  if fn =? 0 then None else Some (fn, msg).
Definition orbis_fatal_action (c : channels) (what : string) : option (Z * string) :=
  if negb (orbis_fatal_fn c =? 0) then Some (orbis_fatal_fn c, what) else None.

End Log.
Export Log.

Module Report.

(** [snprintf] of a text into [size] bytes at [p]: at most [size - 1]
    characters and the terminator, nothing at all if [size] is 0; the result
    is the length of the whole text. *)
Fixpoint puts (m : mem) (p : Z) (xs : list Z) : outcome mem :=
  match xs with [] => Ok m | x :: xs => m ← st m p x; puts m (p + 1) xs end.

Definition snprintf (m : mem) (p size : Z) (text : list Z) : outcome (mem * Z) :=
  if size =? 0 then Ok (m, zlen text)
  else m ← puts m p (take (Z.to_nat (size - 1)) text ++ [0]); Ok (m, zlen text).

Fixpoint strlen (fuel : nat) (m : mem) (p : Z) : outcome Z :=
  match fuel with
  | O => OutOfFuel
  | S fuel => x ← ld m p; if x =? 0 then Ok 0 else n ← strlen fuel m (p + 1); Ok (1 + n)
  end.

Fixpoint read_str (fuel : nat) (m : mem) (p : Z) : outcome (list Z) :=
  match fuel with
  | O => OutOfFuel
  | S fuel => x ← ld m p; if x =? 0 then Ok [] else xs ← read_str fuel m (p + 1); Ok (x :: xs)
  end.

(** [char line[1024]] at address 0. *)
Definition line_size : Z := 1024.
Definition report_buf : mem := write ∅ 0 (replicate 1024 255).

(** The line that is logged, for a tag and the text the format gives. *)
Definition report_line (tag msg : list Z) : outcome (list Z) :=
  '(m, n) ← snprintf report_buf 0 line_size (bytes "[orbis] " ++ tag ++ bytes ": ");
  '(m, _) ← snprintf m (0 + n) (u64 (line_size - n - 2)) msg;
  n ← strlen 1025 m 0;
  m ← st m n 10;
  m ← st m (n + 1) 0;
  read_str 1025 m 0.

(** The two channels and the re-entrancy flag. *)
Record sink := mk_sink { klog : list (list Z); file : list (list Z); s_in_report : Z }.

(** [fopen] may come back here: [reenter] are the reports made while the file
    is opened. *)
Fixpoint orbis_report (reenter : list (list Z * list Z)) (opens : bool) (fuel : nat) (s : sink)
    (tag msg : list Z) : outcome sink :=
  match fuel with
  | O => OutOfFuel
  | S fuel =>
      text ← report_line tag msg;
      let s := mk_sink (klog s ++ [text]) (file s) (s_in_report s) in
      let old := s_in_report s in
      let s := mk_sink (klog s) (file s) 1 in
      if old =? 0 then
        s ← fold_left (fun s '(t, m) => s ← s; orbis_report reenter opens fuel s t m) reenter (Ok s);
        let s := if opens : bool then mk_sink (klog s) (file s ++ [text]) (s_in_report s) else s in
        Ok (mk_sink (klog s) (file s) 0)
      else Ok s
  end.

Definition truncate (size : Z) (text : list Z) : list Z := take (Z.to_nat (size - 1)) text.

(** [abort] up to the signal that ends the process: [ra] and [here] are the
    two addresses as [%p] prints them. *)
Definition abort_ reenter opens fuel s (ra here : list Z) : outcome sink :=
  orbis_report reenter opens fuel s (bytes "abort")
    (truncate 512 (bytes "abort() called from " ++ ra ++ bytes "  (orbis_report is at " ++ here ++
       bytes " in this image - subtract its .elf offset for the module base)")).

Definition abort_message reenter opens fuel s (msg ra here : list Z) : outcome sink :=
  s ← orbis_report reenter opens fuel s (bytes "libc++abi") (truncate 960 msg);
  abort_ reenter opens fuel s ra here.

Definition or_unknown (s : option (list Z)) : list Z := default (bytes "?") s.

(** [line_] is the line number as [%d] prints it. *)
Definition assert_fail reenter opens fuel s (expr file_ : option (list Z)) (line_ : list Z)
    (func : option (list Z)) (ra here : list Z) : outcome sink :=
  s ← orbis_report reenter opens fuel s (bytes "assert")
    (truncate 960 (or_unknown file_ ++ bytes ":" ++ line_ ++ bytes ": " ++ or_unknown func ++
       bytes ": assertion failed: " ++ or_unknown expr));
  abort_ reenter opens fuel s ra here.

End Report.
Export Report.

(** ** Stores and reads of strings *)

Lemma puts_ok m p xs : mapped m p (zlen xs) -> puts m p xs = Ok (write m p xs).
Proof.
  revert m p. induction xs as [|x xs IH]; intros m p Hm; [done|]. cbn [puts write length] in *.
  rewrite st_ok by (eapply mapped_cell; [exact Hm|lia]). rewrite bind_ok.
  apply IH, mapped_insert. eapply mapped_sub; [exact Hm|lia|lia].
Qed.

Lemma puts_fault m p xs i : 0 <= i < zlen xs -> m !! (p + i) = None -> puts m p xs = Fault.
Proof.
  revert m p i. induction xs as [|x xs IH]; intros m p i Hi Hm; [cbn in Hi; lia|]. cbn [puts length] in *.
  unfold st. destruct (m !! p) as [y|] eqn:Hp; [|done]. rewrite bind_ok.
  assert (i <> 0) by (intros ->; rewrite Z.add_0_r in Hm; congruence).
  apply (IH _ _ (i - 1)); [lia|]. rewrite lookup_insert_ne by lia.
  by replace (p + 1 + (i - 1)) with (p + i) by lia.
Qed.

Lemma strlen_ok fuel m p xs : zstr m p xs -> (length xs < fuel)%nat -> strlen fuel m p = Ok (zlen xs).
Proof.
  revert p xs. induction fuel as [|fuel IH]; intros p xs Hz Hf; [lia|]. cbn [strlen].
  destruct xs as [|x xs].
  - apply zstr_nil in Hz. by rewrite (ld_ok _ _ _ Hz).
  - apply zstr_cons in Hz as (Hx & Hnz & Hz). rewrite (ld_ok _ _ _ Hx), bind_ok.
    rewrite (proj2 (Z.eqb_neq x 0) Hnz). rewrite (IH _ xs Hz) by (cbn in Hf; lia).
    rewrite bind_ok. cbn [length]. f_equal. lia.
Qed.

Lemma read_str_ok fuel m p xs : zstr m p xs -> (length xs < fuel)%nat -> read_str fuel m p = Ok xs.
Proof.
  revert p xs. induction fuel as [|fuel IH]; intros p xs Hz Hf; [lia|]. cbn [read_str].
  destruct xs as [|x xs].
  - apply zstr_nil in Hz. by rewrite (ld_ok _ _ _ Hz).
  - apply zstr_cons in Hz as (Hx & Hnz & Hz). rewrite (ld_ok _ _ _ Hx), bind_ok.
    rewrite (proj2 (Z.eqb_neq x 0) Hnz). rewrite (IH _ xs Hz) by (cbn in Hf; lia). done.
Qed.

Lemma write_zstr m p xs : Forall (fun x => x <> 0) xs -> zstr (write m p (xs ++ [0])) p xs.
Proof. intros H. split; [apply array_write|done]. Qed.

(** A text stored over the terminator of another continues it. *)
Lemma write_over m p xs ys x : write (write m p (xs ++ [x])) (p + zlen xs) (ys ++ [0]) = write m p (xs ++ ys ++ [0]).
Proof.
  rewrite (write_app m p xs (ys ++ [0])), (write_app m p xs [x]). cbn [write].
  destruct ys as [|y ys]; cbn [app write]; by rewrite insert_insert_eq.
Qed.

Lemma report_buf_mapped : mapped report_buf 0 1024.
Proof. exact (array_mapped _ _ _ (array_write ∅ 0 (replicate 1024 255))). Qed.

Lemma line_end a : 1024 <= a -> report_buf !! a = None.
Proof.
  intros Ha. unfold report_buf. rewrite lookup_write_out; [apply lookup_empty|].
  rewrite length_replicate. lia.
Qed.

Definition prefix (tag : list Z) : list Z := bytes "[orbis] " ++ tag ++ bytes ": ".

Lemma prefix_length tag : zlen (prefix tag) = zlen tag + 10.
Proof. unfold prefix. rewrite !length_app. cbn [bytes length]. lia. Qed.

Lemma first_snprintf tag :
  zlen tag <= 1013 ->
  snprintf report_buf 0 line_size (prefix tag) = Ok (write report_buf 0 (prefix tag ++ [0]), zlen (prefix tag)).
Proof.
  intros Ht. pose proof (prefix_length tag) as Hl. unfold snprintf, line_size.
  change (1024 =? 0) with false. cbv iota. rewrite take_ge by lia.
  rewrite puts_ok; [done|]. eapply mapped_sub; [apply report_buf_mapped|lia|]. rewrite length_app. cbn [length]. lia.
Qed.

(** The two terminators and the newline. *)
Lemma finish_line xs k :
  Forall (fun x => x <> 0) xs -> zlen xs <= 1021 -> k = 1025%nat ->
  (n ← strlen k (write report_buf 0 (xs ++ [0])) 0;
   m ← st (write report_buf 0 (xs ++ [0])) n 10; m ← st m (n + 1) 0; read_str k m 0) = Ok (xs ++ [10]).
Proof.
  intros Hx Hl ->. rewrite (strlen_ok _ _ _ xs); [|by apply write_zstr|lia]. rewrite bind_ok.
  assert (Hm : mapped (write report_buf 0 (xs ++ [0])) 0 1024) by apply mapped_write, report_buf_mapped.
  rewrite st_ok by (apply Hm; lia). rewrite bind_ok.
  rewrite st_ok by (apply (mapped_insert _ _ _ _ _ Hm); lia). rewrite bind_ok.
  replace (<[zlen xs + 1 := 0]> (<[zlen xs := 10]> (write report_buf 0 (xs ++ [0]))))
    with (write report_buf 0 ((xs ++ [10]) ++ [0])).
  - apply read_str_ok; [|rewrite length_app; cbn [length]; lia]. apply write_zstr.
    apply Forall_app. split; [done|]. by constructor.
  - rewrite !write_snoc, insert_insert_eq. rewrite length_app. cbn [length].
    by rewrite Z.add_0_l, Nat2Z.inj_add.
Qed.

(** A tag and a message the formatting can give: no terminator inside, and a
    tag that leaves room in the line. *)
Definition text_ok (r : list Z * list Z) : Prop :=
  Forall (fun x => x <> 0) r.1 /\ Forall (fun x => x <> 0) r.2 /\ zlen r.1 <= 1011.

(** The line as reported: cut at 1021 characters, with its newline. *)
Definition reported (r : list Z * list Z) : list Z := take 1021 (prefix r.1 ++ r.2) ++ [10].

Lemma prefix_nonzero tag : Forall (fun x => x <> 0) tag -> Forall (fun x => x <> 0) (prefix tag).
Proof.
  intros H. unfold prefix. apply Forall_app. split; [by repeat constructor|].
  apply Forall_app. split; [done|]. by repeat constructor.
Qed.

Lemma report_line_ok tag msg :
  text_ok (tag, msg) -> report_line tag msg = Ok (reported (tag, msg)).
Proof.
  intros (Ht & Hm & Hl). cbn [fst snd] in *. unfold report_line, reported.
  pose proof (prefix_length tag) as Hp. pose proof (prefix_nonzero tag Ht) as Hpn.
  fold (prefix tag). rewrite first_snprintf by lia. rewrite bind_ok. unfold snprintf, line_size.
  rewrite u64_small by lia. set (k := 1024 - zlen (prefix tag) - 2).
  assert (Hk : 1 <= k) by lia. rewrite (proj2 (Z.eqb_neq k 0)) by lia.
  rewrite Z.add_0_l. set (ys := take (Z.to_nat (k - 1)) msg).
  assert (Hys : zlen ys <= k - 1) by (subst ys; rewrite length_take; lia).
  rewrite puts_ok.
  2: { apply mapped_write. eapply mapped_sub; [apply report_buf_mapped|lia|]. rewrite length_app. cbn [length]. lia. }
  pose proof (write_over report_buf 0 (prefix tag) ys 0) as Hw. rewrite Z.add_0_l in Hw.
  rewrite bind_ok, bind_ok, Hw, app_assoc.
  rewrite (finish_line (prefix tag ++ ys) 1025).
  - do 2 f_equal. cbn [fst snd]. rewrite take_app, (take_ge (prefix tag)) by lia. do 2 f_equal.
    unfold k. lia.
  - apply Forall_app. split; [done|]. by apply Forall_take.
  - rewrite length_app. lia.
  - done.
Qed.

Definition report_line_overflow_bound : Z := 1013.

(** A longer tag makes the length passed to [vsnprintf] wrap around. *)
Lemma report_line_fault tag msg :
  Forall (fun x => x <> 0) tag -> zlen tag = report_line_overflow_bound -> msg <> [] ->
  report_line tag msg = Fault.
Proof.
  unfold report_line_overflow_bound. intros Ht Hl Hm. unfold report_line. fold (prefix tag).
  pose proof (prefix_length tag) as Hp. rewrite first_snprintf by lia. rewrite bind_ok.
  unfold snprintf, line_size. replace (u64 (1024 - zlen (prefix tag) - 2)) with (2 ^ 64 - 1).
  2: { rewrite Hp, Hl. reflexivity. }
  change (2 ^ 64 - 1 =? 0) with false. cbv iota.
  rewrite (puts_fault _ _ _ 1); [done| |].
  - rewrite length_app, length_take. destruct msg; [done|]. cbn [length]. lia.
  - rewrite lookup_write_out; [apply line_end; lia|]. rewrite length_app. cbn [length]. lia.
Qed.

Lemma nested_reports reenter opens fuel s rs :
  Forall text_ok rs -> s_in_report s = 1 ->
  fold_left (fun s '(t, m) => s ← s; orbis_report reenter opens (S fuel) s t m) rs (Ok s) =
    Ok (mk_sink (klog s ++ map reported rs) (file s) 1).
Proof.
  intros Hrs. revert s. induction Hrs as [|r rs Hr Hrs IH]; intros s Hs.
  - cbn. rewrite app_nil_r. destruct s. cbn in *. by subst.
  - cbn [fold_left]. destruct r as [t m]. rewrite bind_ok. cbn [orbis_report].
    rewrite (report_line_ok t m Hr), bind_ok. cbn [s_in_report]. rewrite Hs. cbn [Z.eqb klog file].
    rewrite IH by done. cbn [klog file map]. by rewrite <- app_assoc.
Qed.

Lemma orbis_report_line reenter opens fuel s tag msg
  (Hflag : s_in_report s = 0) (Htext : text_ok (tag, msg)) (Hre : Forall text_ok reenter)
  (Hfuel : (2 <= fuel)%nat) :
  orbis_report reenter opens fuel s tag msg =
    Ok (mk_sink (klog s ++ reported (tag, msg) :: map reported reenter)
                (if opens then file s ++ [reported (tag, msg)] else file s) 0) /\
  zlen (reported (tag, msg)) <= 1022.
Proof.
  split; [|unfold reported; rewrite length_app, length_take; cbn [length]; lia].
  destruct fuel as [|fuel]; [lia|]. assert (Hf : fuel = S (pred fuel)) by lia.
  cbn [orbis_report].
  rewrite (report_line_ok tag msg Htext), bind_ok. cbn [s_in_report klog file]. rewrite Hflag. cbn [Z.eqb].
  pose proof (nested_reports reenter opens (pred fuel)
    (mk_sink (klog s ++ [reported (tag, msg)]) (file s) 1) reenter Hre eq_refl) as Hn.
  cbn [klog file] in Hn. rewrite <- Hf in Hn. rewrite Hn, bind_ok. cbn [klog file s_in_report]. rewrite <- app_assoc.
  by destruct opens.
Qed.

(** A report always reaches the kernel log first, on one line of at most
    1022 characters that starts with the tag and is cut, never overrun, when
    the message is longer; it reaches the file once; and a report made while
    the file is being opened adds its line to the log and does not open the
    file again, so the recursion ends and the flag is 0 afterwards. *)
Theorem orbis_report_correct reenter opens fuel s tag msg
  (Hflag : s_in_report s = 0) (Htext : text_ok (tag, msg)) (Hre : Forall text_ok reenter)
  (Hfuel : (2 <= fuel)%nat) :
  orbis_report reenter opens fuel s tag msg =
    Ok (mk_sink (klog s ++ reported (tag, msg) :: map reported reenter)
                (if opens then file s ++ [reported (tag, msg)] else file s) 0) /\
  zlen (reported (tag, msg)) <= 1022.
Proof. by apply orbis_report_line. Qed.

Definition demo_sink : sink := mk_sink [] [] 0.

Lemma orbis_report_witness :
  orbis_report [(bytes "jit", bytes "inside")] true 2 demo_sink (bytes "abort") (bytes "outside") =
    Ok (mk_sink [bytes "[orbis] abort: outside" ++ [10]; bytes "[orbis] jit: inside" ++ [10]]
                [bytes "[orbis] abort: outside" ++ [10]] 0).
Proof.
  apply (orbis_report_correct [(bytes "jit", bytes "inside")] true 2 demo_sink (bytes "abort") (bytes "outside")).
  - reflexivity.
  - split; [|split]; [repeat constructor; discriminate..|cbn; lia].
  - constructor; [|constructor]. split; [|split]; [repeat constructor; discriminate..|cbn; lia].
  - lia.
Defined.

Lemma truncate_text size r : text_ok r -> text_ok (r.1, truncate size r.2).
Proof. intros (Ht & Hm & Hl). split_and!; [done|by apply Forall_take|done]. Qed.

(** [abort]'s own line, cut to its 512-byte buffer. *)
Definition who_called (ra here : list Z) : list Z :=
  bytes "abort() called from " ++ ra ++ bytes "  (orbis_report is at " ++ here ++
    bytes " in this image - subtract its .elf offset for the module base)".
Definition abort_text (ra here : list Z) : list Z * list Z :=
  (bytes "abort", truncate 512 (who_called ra here)).

Lemma abort_text_ok ra here :
  Forall (fun x => x <> 0) ra -> Forall (fun x => x <> 0) here -> text_ok (abort_text ra here).
Proof.
  intros Hr Hh. apply (truncate_text 512 (bytes "abort", who_called ra here)).
  split_and!; [repeat constructor; discriminate| |cbn; lia]. cbn [snd]. unfold who_called.
  rewrite !List.Forall_app. split_and!; first [done|repeat constructor; discriminate].
Qed.

(** When the C++ runtime gives up, both what it says and who called
    [abort] reach the kernel log, in this order, and both reach the file; the
    caller's address is in the second line uncut as long as the two addresses
    are printed in at most 400 characters. *)
Theorem abort_message_correct opens fuel s msg ra here
  (Hflag : s_in_report s = 0) (Hmsg : Forall (fun x => x <> 0) msg)
  (Hra : Forall (fun x => x <> 0) ra) (Hhere : Forall (fun x => x <> 0) here) (Hfuel : (2 <= fuel)%nat) :
  let said := reported (bytes "libc++abi", truncate 960 msg) in
  let who := reported (abort_text ra here) in
  abort_message [] opens fuel s msg ra here =
    Ok (mk_sink (klog s ++ [said; who]) (if opens then file s ++ [said; who] else file s) 0) /\
  (zlen ra + zlen here <= 400 ->
   who = bytes "[orbis] abort: abort() called from " ++ ra ++ bytes "  (orbis_report is at " ++ here ++
     bytes " in this image - subtract its .elf offset for the module base)" ++ [10]).
Proof.
  intros said who. split.
  - unfold abort_message, abort_.
    assert (Ht : text_ok (bytes "libc++abi", truncate 960 msg)).
    { apply (truncate_text 960 (bytes "libc++abi", msg)).
      split_and!; [repeat constructor; discriminate|done|cbn; lia]. }
    pose proof (abort_text_ok ra here Hra Hhere) as Ha.
    destruct (orbis_report_line [] opens fuel s (bytes "libc++abi") (truncate 960 msg)
      Hflag Ht (Forall_nil_2 _) Hfuel) as [-> _].
    rewrite bind_ok. fold (who_called ra here). unfold abort_text in Ha.
    match goal with |- orbis_report _ _ _ ?s' _ _ = _ =>
      destruct (orbis_report_line [] opens fuel s' _ _ eq_refl Ha (Forall_nil_2 _) Hfuel) as [-> _] end.
    cbn [klog file map]. fold (abort_text ra here) said who. rewrite <- app_assoc. destruct opens; [|done].
    by rewrite <- app_assoc.
  - intros Hl. unfold who, reported, abort_text, truncate, who_called. cbn [fst snd].
    rewrite (take_ge _ (Z.to_nat (512 - 1))) by (rewrite !length_app; cbn [length bytes]; lia).
    rewrite take_ge by (unfold prefix; rewrite !length_app; cbn [length bytes]; lia).
    unfold prefix. rewrite <- !app_assoc. done.
Qed.

Lemma abort_message_witness :
  abort_message [] true 2 demo_sink (bytes "out of memory") (bytes "0x10") (bytes "0x20") =
    Ok (mk_sink [bytes "[orbis] libc++abi: out of memory" ++ [10];
                 bytes "[orbis] abort: abort() called from 0x10  (orbis_report is at 0x20 in this image - subtract its .elf offset for the module base)" ++ [10]]
                [bytes "[orbis] libc++abi: out of memory" ++ [10];
                 bytes "[orbis] abort: abort() called from 0x10  (orbis_report is at 0x20 in this image - subtract its .elf offset for the module base)" ++ [10]] 0).
Proof.
  apply (abort_message_correct true 2 demo_sink (bytes "out of memory") (bytes "0x10") (bytes "0x20"));
    [reflexivity|repeat constructor; discriminate..|lia].
Defined.

(** ** The application's loggers *)

(** A fatal line is delivered to the fatal logger when there is one, to
    the ordinary logger when there is only that, and to nobody only when there
    is neither; an ordinary line never reaches the fatal logger, and
    [orbis_log_enabled] says whether anybody listens. *)
Theorem orbis_log_correct c msg :
  (orbis_log_fatal c msg = None <-> orbis_logger c = 0 /\ orbis_logger_fatal c = 0) /\
  (forall fn, fn <> 0 -> orbis_log_fatal (orbis_set_log_fatal c fn) msg = Some (fn, msg)) /\
  (orbis_logger_fatal c = 0 -> orbis_log_fatal c msg = orbis_log c msg) /\
  (forall fn, orbis_log (orbis_set_log_fatal c fn) msg = orbis_log c msg) /\
  (orbis_log_enabled c = true <-> is_Some (orbis_log c msg)).
Proof.
  unfold orbis_log_fatal, orbis_log, orbis_log_enabled.
  split; [|split; [|split; [|split]]].
  - destruct (Z.eqb_spec (orbis_logger_fatal c) 0) as [H|H]; cbn [negb].
    + rewrite H. destruct (Z.eqb_spec (orbis_logger c) 0); naive_solver.
    + rewrite (proj2 (Z.eqb_neq _ 0) H). naive_solver.
  - intros fn Hfn. cbn. rewrite (proj2 (Z.eqb_neq fn 0) Hfn). cbn. by rewrite (proj2 (Z.eqb_neq fn 0) Hfn).
  - intros ->. done.
  - done.
  - destruct (orbis_logger c =? 0); cbn; [split; [done|by intros [? ?]]|by split].
Qed.
