(* ===== verification/WcConv.v ===== *)
(** The string conversions of [src/orbis_wchar32.c]: [mbsrtowcs],
    [mbstowcs], [wcsrtombs], [wcstombs].

    Multibyte and wide strings are different objects, so they are in two
    memories: [mb] of bytes and [mw] of wide characters. *)
From stdpp Require Import prelude gmap list numbers.
From S2P Require Import Prelude Memory Utf8Spec Utf8.
Open Scope Z_scope.

Module Conv.

(** A result: the [size_t], the destination memory, the caller's source
    pointer and conversion state afterwards, and [errno]. *)
Record conv := mk_conv {
  cv_ret : Z; cv_mem : mem; cv_src : Z; cv_st : option Z; cv_errno : option errno_t }.

(** From [resume0] on, without storing: [inl] is the [break] with the state
    and the pointer it has then, [inr] the pointer after the character. *)
Definition resume0 (mb : mem) (c s : Z) : outcome ((Z * Z) + Z) :=
  x ← ld mb s;
  if negb (OOB c x =? 0) then Ok (inl (c, s - 1))
  else
    let s := s + 1 in
    if bit c 25 then
      x ← ld mb s;
      if bad_cont x then Ok (inl (c, s - 2))
      else
        let s := s + 1 in
        if bit c 19 then
          x ← ld mb s;
          if bad_cont x then Ok (inl (c, s - 3)) else Ok (inr (s + 1))
        else Ok (inr s)
    else Ok (inr s).

(** From [resume] on, collecting the character. *)
Definition resume (mb : mem) (c s : Z) : outcome ((Z * Z) + (Z * Z)) :=
  x ← ld mb s;
  if negb (OOB c x =? 0) then Ok (inl (c, s - 1))
  else
    let c := push c x in
    let s := s + 1 in
    if bit c 31 then
      x ← ld mb s;
      if bad_cont x then Ok (inl (c, s - 2))
      else
        let c := push c x in
        let s := s + 1 in
        if bit c 31 then
          x ← ld mb s;
          if bad_cont x then Ok (inl (c, s - 3))
          else Ok (inr (push c x, s + 1))
        else Ok (inr (c, s))
    else Ok (inr (c, s)).

(** [*s-1u < 0x7f]. *)
Definition ascii_not_nul (x : Z) : bool := u32 (x - 1) <? 0x7f.

(** The loop for a null [ws]; [at_resume]: the entry at [resume0]. *)
Definition count_loop (fuel : nat) (mb : mem) : bool * Z * Z * Z -> outcome (Z * Z * Z) :=
  loop fuel (fun '(at_resume, c, s, wn) =>
    let go c s :=
      r ← resume0 mb c s;
      match r with
      | inl (c, s) => Ok (inr (c, s, wn))
      | inr s => Ok (inl (false, 0, s, u64 (wn - 1)))
      end in
    if at_resume : bool then go c s
    else
      x ← ld mb s;
      if ascii_not_nul x then Ok (inl (false, c, s + 1, u64 (wn - 1)))
      else if bad_lead x then Ok (inr (c, s, wn))
      else c ← bittab_at (x - SA); go c (s + 1)).

(** The storing loop: [inl] is the return with [wn] exhausted. *)
Definition store_loop (fuel : nat) (mb : mem)
    : bool * Z * Z * mem * Z * Z -> outcome ((mem * Z) + (Z * Z * mem * Z * Z)) :=
  loop fuel (fun '(at_resume, c, s, mw, ws, wn) =>
    let go c s :=
      r ← resume mb c s;
      match r with
      | inl (c, s) => Ok (inr (inr (c, s, mw, ws, wn)))
      | inr (c, s) => mw ← st mw ws (s32 c); Ok (inl (false, 0, s, mw, ws + 1, u64 (wn - 1)))
      end in
    if at_resume : bool then go c s
    else if wn =? 0 then Ok (inr (inl (mw, s)))
    else
      x ← ld mb s;
      if ascii_not_nul x then mw ← st mw ws x; Ok (inl (false, c, s + 1, mw, ws + 1, u64 (wn - 1)))
      else if bad_lead x then Ok (inr (inr (c, s, mw, ws, wn)))
      else c ← bittab_at (x - SA); go c (s + 1)).

(** [src] is the pointer [*src]; [st_] is null or holds the state. *)
Definition mbsrtowcs (fuel : nat) (mb mw : mem) (ws src wn : Z) (st_ : option Z) : outcome conv :=
  let wn0 := wn in
  let c := default 0 st_ in
  let resumed := negb (c =? 0) in
  if ws =? 0 then
    '(c, s, wn) ← count_loop fuel mb (resumed, c, src, wn);
    x ← (if c =? 0 then ld mb s else Ok 1);
    if (c =? 0) && (x =? 0) then Ok (mk_conv (u64 (wn0 - wn)) mw src st_ None)
    else Ok (mk_conv (u64 (-1)) mw src st_ (Some EILSEQ))
  else
    let st_ := if resumed then Some 0 else st_ in
    r ← store_loop fuel mb (resumed, c, src, mw, ws, wn);
    match r with
    | inl (mw, s) => Ok (mk_conv wn0 mw s st_ None)
    | inr (c, s, mw, ws, wn) =>
        x ← (if c =? 0 then ld mb s else Ok 1);
        if (c =? 0) && (x =? 0) then
          mw ← st mw ws 0; Ok (mk_conv (u64 (wn0 - wn)) mw 0 st_ None)
        else Ok (mk_conv (u64 (-1)) mw s st_ (Some EILSEQ))
    end.

Definition mbstowcs (fuel : nat) (mb mw : mem) (ws s wn : Z) : outcome conv :=
  mbsrtowcs fuel mb mw ws s wn None.

(** ** Wide to multibyte *)

(** The local [char buf[4]]. *)
Definition buf : mem := write ∅ 16 [0; 0; 0; 0].

Definition wcs_count (fuel : nat) (mw : mem) : Z * Z -> outcome (option Z) :=
  loop fuel (fun '(n, ws2) =>
    x ← ld mw ws2;
    if x =? 0 then Ok (inr (Some n))
    else if 0x80 <=? u32 x then
      '(_, l, _) ← wcrtomb buf 16 x;
      if u64 (l + 1) =? 0 then Ok (inr None) else Ok (inl (u64 (n + l), ws2 + 1))
    else Ok (inl (u64 (n + 1), ws2 + 1))).

(** A loop over the source ends with a return, or with what is left. *)
Definition wcs_direct (fuel : nat) (mw : mem) (N : Z)
    : mem * Z * Z * Z -> outcome (conv + (mem * Z * Z * Z)) :=
  loop fuel (fun '(mb, s, ws, n) =>
    if 4 <=? n then
      x ← ld mw ws;
      if 0x7f <=? u32 (x - 1) then
        if x =? 0 then mb ← st mb s 0; Ok (inr (inl (mk_conv (N - n) mb 0 None None)))
        else
          '(mb, l, e) ← wcrtomb mb s x;
          if u64 (l + 1) =? 0 then Ok (inr (inl (mk_conv (u64 (-1)) mb ws None e)))
          else Ok (inl (mb, s + l, ws + 1, n - l))
      else mb ← st mb s (u8 x); Ok (inl (mb, s + 1, ws + 1, n - 1))
    else Ok (inr (inr (mb, s, ws, n)))).

Definition wcs_careful (fuel : nat) (mw : mem) (N : Z)
    : mem * Z * Z * Z -> outcome conv :=
  loop fuel (fun '(mb, s, ws, n) =>
    if negb (n =? 0) then
      x ← ld mw ws;
      if 0x7f <=? u32 (x - 1) then
        if x =? 0 then mb ← st mb s 0; Ok (inr (mk_conv (N - n) mb 0 None None))
        else
          '(_, l, e) ← wcrtomb buf 16 x;
          if u64 (l + 1) =? 0 then Ok (inr (mk_conv (u64 (-1)) mb ws None e))
          else if n <? l then Ok (inr (mk_conv (N - n) mb ws None None))
          else
            '(mb, _, _) ← wcrtomb mb s x;
            Ok (inl (mb, s + l, ws + 1, n - l))
      else mb ← st mb s (u8 x); Ok (inl (mb, s + 1, ws + 1, n - 1))
    else Ok (inr (mk_conv N mb ws None None))).

Definition wcsrtombs (fuel : nat) (mw mb : mem) (s ws n : Z) : outcome conv :=
  let N := n in
  if s =? 0 then
    r ← wcs_count fuel mw (0, ws);
    match r with
    | Some n => Ok (mk_conv n mb ws None None)
    | None => Ok (mk_conv (u64 (-1)) mb ws None (Some EILSEQ))
    end
  else
    r ← wcs_direct fuel mw N (mb, s, ws, n);
    match r with
    | inl r => Ok r
    | inr (mb, s, ws, n) => wcs_careful fuel mw N (mb, s, ws, n)
    end.

Definition wcstombs (fuel : nat) (mw mb : mem) (s ws n : Z) : outcome conv :=
  wcsrtombs fuel mw mb s ws n.

End Conv.
Export Conv.

(** ** One multibyte character *)

Lemma bit_testbit c k : 0 <= k -> bit c k = Z.testbit c k.
Proof.
  intros Hk. unfold bit. rewrite Z.shiftl_1_l. destruct (Z.testbit c k) eqn:Ht.
  - destruct (Z.eqb_spec (Z.land c (2 ^ k)) 0) as [He|]; [|done].
    apply (f_equal (fun z => Z.testbit z k)) in He.
    by rewrite Z.land_spec, Ht, Z.pow2_bits_true, Z.bits_0 in He by done.
  - replace (Z.land c (2 ^ k)) with 0; [done|]. symmetry. apply Z.bits_inj'. intros n Hn.
    rewrite Z.land_spec, Z.bits_0, Z.pow2_bits_eqb by done.
    destruct (Z.eqb_spec k n) as [<-|]; [by rewrite Ht|apply andb_false_r].
Qed.

(** The state says how many bytes are to come. *)
Lemma rep_bits p :
  pend_ok p -> bit (rep p) 25 = (2 <=? pd_k p)%nat /\ bit (rep p) 19 = (3 <=? pd_k p)%nat.
Proof.
  intros Hp. destruct (pend_ok_bounds p Hp) as (Hk & Hv & _ & H2 & H3 & _).
  destruct (rep_bounds p Hp) as [Ht _]. rewrite !bit_testbit by lia.
  assert (Hb : forall k b, 0 <= k -> (rep p / 2 ^ k) mod 2 = Z.b2z b -> Z.testbit (rep p) k = b).
  { intros k b Hk' Hm. destruct b; [by apply Z.testbit_true|by apply Z.testbit_false]. }
  unfold rep in *. destruct (pd_k p) as [|[|[|[|k]]]]; try lia;
    (split; apply Hb; [lia|cbn [flags Nat.leb Z.b2z]; dlia..]).
Qed.

(** The break leaves a non-zero state and the pointer at the lead byte. *)
Definition broke {A} (s : Z) (r : outcome ((Z * Z) + A)) : Prop :=
  exists c, r = Ok (inl (c, s - 1)) /\ c <> 0.

Lemma feed_more_lo p : pend_ok p -> 0x80 <= pd_lo p /\ pd_hi p <= 0xbf.
Proof.
  intros Hp. destruct (pend_ok_bounds p Hp) as (_ & _ & _ & _ & _ & Hr). cbn in Hr.
  destruct Hr as [[= <- <-]|[[= <- <-]|[[= <- <-]|[[= <- <-]|[[= <- <-]|[]]]]]]; lia.
Qed.

Lemma in_range_bool lo hi b : (lo <=? b) && (b <=? hi) = true <-> lo <= b <= hi.
Proof. rewrite andb_true_iff, !Z.leb_le. tauto. Qed.

Lemma feed_cons p b bs : feed p (b :: bs) =
  if (pd_lo p <=? b) && (b <=? pd_hi p) then
    match pd_k p with
    | S (S k) => match feed (Pend (S k) 0x80 0xbf (64 * pd_v p + (b - 0x80))) bs with
                 | Done w len => Done w (S len) | r => r end
    | _ => Done (64 * pd_v p + (b - 0x80)) 1
    end
  else Bad.
Proof. done. Qed.

(** A state that is not zero. *)
Lemma rep_nonzero p : pend_ok p -> rep p <> 0.
Proof. intros Hp. destruct (rep_bounds p Hp). lia. Qed.

(** [resume] runs the automaton to the end of the character. *)
Lemma resume_ok mb p s bs :
  pend_ok p -> array mb s bs -> Forall byte bs ->
  match feed p bs with
  | Done w len => resume mb (rep p) s = Ok (inr (w, s + Z.of_nat len))
  | Bad => broke s (resume mb (rep p) s)
  | More _ => True
  end.
Proof.
  intros Hp Ha Hby. destruct bs as [|b bs]; [done|].
  destruct (array_byte_cons _ _ _ _ Ha Hby) as (Hld & Hb & Ha1 & Hby1).
  unfold resume, broke. rewrite Hld, bind_ok, OOB_rep by done. rewrite feed_cons.
  destruct (_ && _) eqn:Hr; cbn [negb]; [apply in_range_bool in Hr|by eexists; split; [|apply rep_nonzero]].
  destruct (pd_k p) as [|[|k]] eqn:Hk.
  { destruct (pend_ok_bounds p Hp) as [? _]. lia. }
  { destruct (push_last p b Hp Hk Hr) as (Hpush & _ & ->). by rewrite Hpush. }
  destruct (push_more p k b Hp Hk Hr) as (Hp1 & Hpush & Hbit). rewrite Hbit, Hpush.
  set (p1 := Pend (S k) _ _ _) in *. destruct bs as [|b1 bs]; [done|].
  destruct (array_byte_cons _ _ _ _ Ha1 Hby1) as (Hld1 & Hb1 & Ha2 & Hby2).
  rewrite Hld1, bind_ok, bad_cont_range, feed_cons by done. cbn [pd_lo pd_hi p1].
  destruct (_ && _) eqn:Hr1; cbn [negb]; [apply in_range_bool in Hr1|].
  2: { eexists. split; [|by apply (rep_nonzero p1)]. do 3 f_equal. lia. }
  change (pd_k p1) with (S k). destruct k as [|k].
  { destruct (push_last p1 b1 Hp1 eq_refl Hr1) as (Hpush1 & _ & ->). rewrite Hpush1.
    do 3 f_equal. lia. }
  destruct (push_more p1 k b1 Hp1 eq_refl Hr1) as (Hp2 & Hpush1 & Hbit1). rewrite Hbit1, Hpush1.
  set (p2 := Pend (S k) _ _ _) in *. destruct bs as [|b2 bs]; [done|].
  destruct (array_byte_cons _ _ _ _ Ha2 Hby2) as (Hld2 & Hb2 & _ & _).
  rewrite Hld2, bind_ok, bad_cont_range, feed_cons by done. cbn [pd_lo pd_hi p2].
  destruct (_ && _) eqn:Hr2; cbn [negb]; [apply in_range_bool in Hr2|].
  2: { eexists. split; [|by apply (rep_nonzero p2)]. do 3 f_equal. lia. }
  assert (k = 0%nat) as -> by (destruct (pend_ok_bounds p Hp) as [? _]; lia).
  cbn [pd_k p2]. destruct (push_last p2 b2 Hp2 eq_refl Hr2) as (Hpush2 & _ & _). rewrite Hpush2.
  do 3 f_equal. lia.
Qed.

(** [resume0] takes the same decisions. *)
Lemma resume0_resume mb p s bs :
  pend_ok p -> array mb s bs -> Forall byte bs ->
  match feed p bs with
  | Done _ len => resume0 mb (rep p) s = Ok (inr (s + Z.of_nat len))
  | Bad => broke s (resume0 mb (rep p) s)
  | More _ => True
  end.
Proof.
  intros Hp Ha Hby. destruct bs as [|b bs]; [done|].
  destruct (array_byte_cons _ _ _ _ Ha Hby) as (Hld & Hb & Ha1 & Hby1).
  destruct (rep_bits p Hp) as [H25 H19]. pose proof (rep_nonzero p Hp) as Hnz.
  unfold resume0, broke. rewrite Hld, bind_ok, OOB_rep by done. rewrite feed_cons, H25, H19.
  destruct (_ && _) eqn:Hr; cbn [negb]; [apply in_range_bool in Hr|by eexists].
  destruct (pd_k p) as [|[|k]] eqn:Hk; [destruct (pend_ok_bounds p Hp) as [? _]; lia|done|].
  cbn [Nat.leb]. destruct bs as [|b1 bs]; [done|].
  destruct (array_byte_cons _ _ _ _ Ha1 Hby1) as (Hld1 & Hb1 & Ha2 & Hby2).
  rewrite Hld1, bind_ok, bad_cont_range, feed_cons by done. cbn [pd_lo pd_hi pd_k].
  destruct (_ && _) eqn:Hr1; cbn [negb]; [apply in_range_bool in Hr1|].
  2: { eexists. split; [|exact Hnz]. do 3 f_equal. lia. }
  destruct k as [|k]; [do 2 f_equal; lia|]. cbn [Nat.leb]. destruct bs as [|b2 bs]; [done|].
  destruct (array_byte_cons _ _ _ _ Ha2 Hby2) as (Hld2 & Hb2 & _ & _).
  rewrite Hld2, bind_ok, bad_cont_range, feed_cons by done. cbn [pd_lo pd_hi pd_k].
  destruct (_ && _) eqn:Hr2; cbn [negb].
  2: { eexists. split; [|exact Hnz]. do 3 f_equal. lia. }
  assert (k = 0%nat) as -> by (destruct (pend_ok_bounds p Hp) as [? _]; lia).
  do 2 f_equal. lia.
Qed.

(** ** Multibyte strings *)

(** What a wide string can hold: scalar values, the terminator excepted. *)
Definition wide (w : Z) : Prop := scalar w /\ w <> 0.

Fixpoint utf8s (cs : list Z) : list Z :=
  match cs with [] => [] | w :: cs => utf8 w ++ utf8s cs end.

Lemma utf8s_app xs ys : utf8s (xs ++ ys) = utf8s xs ++ utf8s ys.
Proof. induction xs as [|x xs IH]; cbn; [done|]. by rewrite IH, app_assoc. Qed.

(** No character starts at [rest]: it is empty, or ill-formed before the
    string's terminator. *)
Definition stuck (rest : list Z) : Prop := rest = [] \/ decode (rest ++ [0]) = Some Bad.

Lemma feed_nul p xs q : pend_ok p -> feed p (xs ++ [0]) <> More q.
Proof.
  revert p. induction xs as [|x xs IH]; intros p Hp; cbn [app]; rewrite feed_cons.
  - destruct (feed_more_lo p Hp) as [Hlo _].
    destruct (Z.leb_spec (pd_lo p) 0); [lia|done].
  - destruct (_ && _) eqn:Hr; [|done]. apply in_range_bool in Hr.
    destruct (pd_k p) as [|[|k]] eqn:Hk; [done|done|].
    destruct (push_more p k x Hp Hk Hr) as (Hp1 & _ & _). specialize (IH _ Hp1).
    by destruct (feed _ (xs ++ [0])).
Qed.

Lemma decode_nul xs p : Forall byte xs -> decode (xs ++ [0]) <> Some (More p).
Proof.
  intros Hby H. destruct xs as [|x xs]; cbn [app decode] in H; [done|].
  destruct (x <? 0x80); [done|]. destruct (lead x) as [q|] eqn:Hl; [|done].
  destruct (lead_ok x q Hl) as [Hq _]. pose proof (feed_nul q xs) as Hn.
  destruct (feed q (xs ++ [0])) eqn:Hf; try done. by apply (Hn p0).
Qed.

Lemma utf8_wide_length w : wide w -> (1 <= length (utf8 w))%nat.
Proof. intros _. pose proof (utf8_nonempty w). destruct (utf8 w); [done|cbn; lia]. Qed.

(** Every byte string is the encoding of some characters and a stuck rest. *)
Lemma decompose bs :
  Forall byte bs -> Forall (fun x => x <> 0) bs ->
  exists cs rest, bs = utf8s cs ++ rest /\ Forall wide cs /\ stuck rest.
Proof.
  remember (length bs) as n eqn:Hn. revert bs Hn.
  induction n as [n IH] using lt_wf_ind. intros bs -> Hby Hnz.
  destruct bs as [|b bs]; [exists [], []; split_and!; [done|constructor|by left]|].
  destruct (decode ((b :: bs) ++ [0])) as [[w len|p|]|] eqn:Hd; [| | |done].
  - destruct (decode_done ((b :: bs) ++ [0]) w len) as (Hw & Hlen & rest & Heq); [|done|].
    { apply Forall_app. split; [done|]. constructor; [unfold byte; lia|constructor]. }
    assert (Hw0 : w <> 0).
    { intros ->. cbn in Heq. injection Heq as Hb _. apply Forall_cons_iff in Hnz as [? _]. done. }
    destruct (rest) as [|y rest' _] using rev_ind.
    { exfalso. rewrite app_nil_r in Heq. pose proof (utf8_byte w Hw) as Hub.
      assert (Hin : In 0 (utf8 w)) by (rewrite <- Heq; apply in_or_app; right; by left).
      destruct (scalar_shape w Hw) as [H|[(x & y & ? & ? & ->)|[(x & y & z & ? & ? & ? & ? & ? & ->)|(x & y & z & t & ? & ? & ? & ? & ? & ->)]]].
      - rewrite utf8_1 in Hin by lia. destruct Hin as [?|[]]; lia.
      - rewrite utf8_2 in Hin by lia. cbn in Hin. lia.
      - rewrite utf8_3 in Hin by lia. cbn in Hin. lia.
      - rewrite utf8_4 in Hin by lia. cbn in Hin. lia. }
    rewrite app_assoc in Heq. apply app_inj_tail in Heq as [Heq _].
    rewrite Heq in Hby, Hnz |- *. apply Forall_app in Hby as [_ Hby]. apply Forall_app in Hnz as [_ Hnz].
    destruct (IH (length rest')) with (bs := rest') as (cs & r & -> & Hcs & Hr); [|done|done|done|].
    { rewrite Heq, length_app. pose proof (utf8_wide_length w (conj Hw Hw0)). lia. }
    exists (w :: cs), r. cbn. rewrite app_assoc. split_and!; [done| |done]. by constructor.
  - exfalso. by apply (decode_nul (b :: bs) p Hby).
  - exists [], (b :: bs). split_and!; [done|constructor|by right].
Qed.

Lemma ascii_not_nul_range x : byte x -> ascii_not_nul x = (1 <=? x) && (x <? 0x80).
Proof.
  intros Hx. unfold ascii_not_nul, byte in *. destruct (Z.leb_spec 1 x), (Z.ltb_spec x 0x80); cbn [andb].
  - rewrite u32_small by lia. apply Z.ltb_lt. lia.
  - rewrite u32_small by lia. apply Z.ltb_ge. lia.
  - assert (x = 0) as -> by lia. done.
  - lia.
Qed.

(** What the loops see at a byte: an ASCII character, a lead byte with the
    rest of its character, or neither. *)
Lemma at_char mb s w bs :
  wide w -> array mb s (utf8 w ++ bs) -> Forall byte bs ->
  exists b, ld mb s = Ok b /\
    ((ascii_not_nul b = true /\ w = b /\ utf8 w = [w]) \/
     (ascii_not_nul b = false /\ bad_lead b = false /\
      exists p, bittab_at (b - SA) = Ok (rep p) /\ pend_ok p /\
        resume mb (rep p) (s + 1) = Ok (inr (w, s + zlen (utf8 w))) /\
        resume0 mb (rep p) (s + 1) = Ok (inr (s + zlen (utf8 w))))).
Proof.
  intros [Hw Hw0] Ha Hbs. pose proof (utf8_byte w Hw) as Hub. pose proof (decode_utf8 w bs Hw) as Hd.
  destruct (utf8 w) as [|b u] eqn:Hu; [by destruct (utf8_nonempty w)|]. cbn [app] in *.
  assert (Hby : Forall byte (b :: u ++ bs)).
  { apply Forall_cons_iff in Hub as [? ?]. constructor; [done|]. by apply Forall_app. }
  destruct (array_byte_cons _ _ _ _ Ha Hby) as (Hld & Hb & Ha1 & Hby1). exists b. split; [done|].
  rewrite ascii_not_nul_range by done. unfold byte in Hb. cbn [decode] in Hd.
  destruct (Z.ltb_spec b 0x80).
  - left. injection Hd as -> Hlen. rewrite andb_true_r. split; [apply Z.leb_le; lia|]. split; [done|].
    destruct u; [done|]. cbn in Hlen. lia.
  - right. split; [by rewrite andb_false_r|]. pose proof (bittab_lead b Hb ltac:(lia)) as Hl.
    destruct (bad_lead b); [by rewrite Hl in Hd|]. split; [done|].
    destruct Hl as (p & Hl & Htab). rewrite Hl in Hd. destruct (lead_ok b p Hl) as [Hp _].
    exists p. split; [done|]. split; [done|].
    pose proof (resume_ok mb p (s + 1) (u ++ bs) Hp Ha1 Hby1) as Hr.
    pose proof (resume0_resume mb p (s + 1) (u ++ bs) Hp Ha1 Hby1) as Hr0.
    destruct (feed p (u ++ bs)) as [w' len| |]; [|done..]. injection Hd as -> Hlen.
    rewrite Hr, Hr0. cbn [length] in *.
    replace (s + 1 + Z.of_nat len) with (s + Z.of_nat (S (length u))) by lia. done.
Qed.

(** No character but the null one starts at [tail], whatever follows it. *)
Definition halts (tail : list Z) : Prop := head tail = Some 0 \/ decode tail = Some Bad.

Lemma stuck_halts rest : stuck rest -> halts (rest ++ [0]).
Proof. intros [->|Hd]; [by left|by right]. Qed.

Lemma stuck_ended rest : stuck rest -> head (rest ++ [0]) = Some 0 <-> rest = [].
Proof.
  intros [->|Hd]; [done|]. destruct rest as [|b rest]; [done|]. cbn. split; [|done]. intros [= ->]. done.
Qed.

Lemma at_halt mb s tail :
  halts tail -> array mb s tail -> Forall byte tail ->
  exists b, ld mb s = Ok b /\ ascii_not_nul b = false /\
    (bad_lead b = true /\ (b = 0 <-> head tail = Some 0) \/
     bad_lead b = false /\ head tail <> Some 0 /\
     exists p, bittab_at (b - SA) = Ok (rep p) /\ broke (s + 1) (resume mb (rep p) (s + 1)) /\
       broke (s + 1) (resume0 mb (rep p) (s + 1))).
Proof.
  intros Hst Ha Hby. destruct tail as [|b tail]; [by destruct Hst|].
  destruct (array_byte_cons _ _ _ _ Ha Hby) as (Hld & Hb & Ha1 & Hby1). exists b. split; [done|].
  destruct Hst as [[= ->]|Hd]; [split; [done|by left]|].
  cbn [decode] in Hd. destruct (Z.ltb_spec b 0x80); [done|]. unfold byte in Hb.
  split; [rewrite ascii_not_nul_range by done; apply andb_false_iff; right; apply Z.ltb_ge; lia|].
  assert (Hh : head (b :: tail) <> Some 0) by (intros [= ->]; lia).
  pose proof (bittab_lead b Hb ltac:(lia)) as Hl. destruct (bad_lead b).
  - left. split; [done|]. split; [lia|done].
  - right. split; [done|]. split; [done|]. destruct Hl as (p & Hl & Htab). exists p. split; [done|].
    rewrite Hl in Hd. destruct (lead_ok b p Hl) as [Hp _].
    pose proof (resume_ok mb p (s + 1) tail Hp Ha1 Hby1) as Hr.
    pose proof (resume0_resume mb p (s + 1) tail Hp Ha1 Hby1) as Hr0.
    by destruct (feed p tail).
Qed.

(** ** The loops *)

(** How a loop leaves the source at what it cannot convert: [e] is whether
    that is the terminator. *)
Definition stopped (mb : mem) (e : Prop) (s c : Z) : Prop :=
  c = 0 /\ (exists b, ld mb s = Ok b /\ (b = 0 <-> e)) \/ c <> 0 /\ ~ e.

Lemma stopped_test {A} mb (e : Prop) `{Decision e} s c (yes no : outcome A) :
  stopped mb e s c ->
  (x ← (if c =? 0 then ld mb s else Ok 1);
   if (c =? 0) && (x =? 0) then yes else no) = if decide e then yes else no.
Proof.
  intros [[-> (b & Hld & Hb)]|[Hc Hr]].
  - cbn [Z.eqb]. rewrite Hld, bind_ok. cbn [andb].
    destruct (Z.eqb_spec b 0), (decide e); tauto.
  - apply Z.eqb_neq in Hc. by rewrite Hc, bind_ok, decide_False.
Qed.

Lemma wide_cons w cs : Forall wide (w :: cs) -> wide w /\ Forall wide cs.
Proof. by rewrite List.Forall_cons_iff. Qed.

Lemma utf8s_byte cs : Forall wide cs -> Forall byte (utf8s cs).
Proof.
  induction cs as [|w cs IH]; intros H; [constructor|]. apply wide_cons in H as [[Hw _] H].
  cbn [utf8s]. apply Forall_app. split; [by apply utf8_byte|by apply IH].
Qed.

Lemma tail_byte cs tail : Forall wide cs -> Forall byte tail -> Forall byte (utf8s cs ++ tail).
Proof. intros Hcs Hr. rewrite List.Forall_app. split; [by apply utf8s_byte|done]. Qed.

Lemma byte_nul rest : Forall byte rest -> Forall byte (rest ++ [0]).
Proof. intros Hr. apply Forall_app. split; [done|]. constructor; [unfold byte; lia|constructor]. Qed.

Lemma wide_range w : wide w -> 0 < w < 0x110000.
Proof. intros [Hw H0]. unfold scalar in Hw. lia. Qed.

(** A character stored, or counted, is one round. *)
Lemma store_char fuel mb mw s ws wn w bs :
  array mb s (utf8 w ++ bs) -> wide w -> Forall byte bs -> 0 < wn < 2 ^ 64 -> is_Some (mw !! ws) ->
  store_loop (S fuel) mb (false, 0, s, mw, ws, wn) =
    store_loop fuel mb (false, 0, s + zlen (utf8 w), <[ws := w]> mw, ws + 1, wn - 1).
Proof.
  intros Ha Hw Hbs Hwn Hm. unfold store_loop at 1. rewrite loop_step. cbn beta iota.
  destruct (Z.eqb_spec wn 0); [lia|]. pose proof (wide_range w Hw) as Hr.
  destruct (at_char mb s w bs Hw Ha Hbs) as (b & Hld & Hb). rewrite Hld, bind_ok.
  rewrite (u64_small (wn - 1)) by lia.
  destruct Hb as [(Hasc & <- & Hu)|(Hasc & Hbad & p & Htab & _ & Hres & _)]; rewrite Hasc.
  - rewrite st_ok, !bind_ok, Hu by done. done.
  - rewrite Hbad, Htab, bind_ok, Hres, bind_ok, st_ok by done. cbn beta iota.
    rewrite s32_small by lia. done.
Qed.

Lemma store_halt fuel mb mw s ws wn tail :
  array mb s tail -> Forall byte tail -> halts tail -> wn <> 0 ->
  exists c, store_loop (S fuel) mb (false, 0, s, mw, ws, wn) = Ok (inr (c, s, mw, ws, wn)) /\
    stopped mb (head tail = Some 0) s c.
Proof.
  intros Ha Hr Hst Hwn. unfold store_loop. rewrite loop_step. cbn beta iota.
  destruct (Z.eqb_spec wn 0); [done|].
  destruct (at_halt mb s tail Hst Ha Hr) as (b & Hld & Hasc & Hb). rewrite Hld, bind_ok, Hasc.
  destruct Hb as [[Hbad Hb]|(Hbad & Hne & p & Htab & (c & Hbr & Hc) & _)]; rewrite Hbad.
  - exists 0. split; [done|]. left. eauto.
  - rewrite Htab, bind_ok, Hbr, bind_ok, Z.add_simpl_r. exists c. split; [done|]. by right.
Qed.

Lemma count_char fuel mb s wn w bs :
  array mb s (utf8 w ++ bs) -> wide w -> Forall byte bs ->
  count_loop (S fuel) mb (false, 0, s, wn) =
    count_loop fuel mb (false, 0, s + zlen (utf8 w), u64 (wn - 1)).
Proof.
  intros Ha Hw Hbs. unfold count_loop at 1. rewrite loop_step. cbn beta iota.
  destruct (at_char mb s w bs Hw Ha Hbs) as (b & Hld & Hb). rewrite Hld, bind_ok.
  destruct Hb as [(Hasc & <- & Hu)|(Hasc & Hbad & p & Htab & _ & _ & Hres)]; rewrite Hasc.
  - by rewrite Hu.
  - by rewrite Hbad, Htab, bind_ok, Hres, bind_ok.
Qed.

Lemma count_halt fuel mb s wn tail :
  array mb s tail -> Forall byte tail -> halts tail ->
  exists c, count_loop (S fuel) mb (false, 0, s, wn) = Ok (c, s, wn) /\ stopped mb (head tail = Some 0) s c.
Proof.
  intros Ha Hr Hst. unfold count_loop. rewrite loop_step. cbn beta iota.
  destruct (at_halt mb s tail Hst Ha Hr) as (b & Hld & Hasc & Hb). rewrite Hld, bind_ok, Hasc.
  destruct Hb as [[Hbad Hb]|(Hbad & Hne & p & Htab & _ & (c & Hbr & Hc))]; rewrite Hbad.
  - exists 0. split; [done|]. left. eauto.
  - rewrite Htab, bind_ok, Hbr, bind_ok, Z.add_simpl_r. exists c. split; [done|]. by right.
Qed.

Lemma store_loop_stop fuel mb c s mw ws :
  store_loop (S fuel) mb (false, c, s, mw, ws, 0) = Ok (inl (mw, s)).
Proof. done. Qed.

Lemma store_loop_ok cs : forall fuel mb mw s ws wn tail,
  array mb s (utf8s cs ++ tail) -> Forall wide cs -> Forall byte tail -> (zlen cs < wn -> halts tail) ->
  0 <= wn < 2 ^ 64 -> mapped mw ws (Z.min wn (zlen cs)) -> (length cs < fuel)%nat ->
  if wn <=? zlen cs then
    store_loop fuel mb (false, 0, s, mw, ws, wn) =
      Ok (inl (write mw ws (take (Z.to_nat wn) cs), s + zlen (utf8s (take (Z.to_nat wn) cs))))
  else exists c,
    store_loop fuel mb (false, 0, s, mw, ws, wn) =
      Ok (inr (c, s + zlen (utf8s cs), write mw ws cs, ws + zlen cs, wn - zlen cs)) /\
    stopped mb (head tail = Some 0) (s + zlen (utf8s cs)) c.
Proof.
  induction cs as [|w cs IH]; intros fuel mb mw s ws wn tail Ha Hcs Hr Hst Hwn Hm Hf;
    (destruct fuel as [|fuel]; [exfalso; clear - Hf; lia|]).
  - destruct (Z.eq_dec wn 0) as [->|Hne].
    + rewrite (proj2 (Z.leb_le 0 _)), store_loop_stop by done. cbn. by rewrite Z.add_0_r.
    + rewrite (proj2 (Z.leb_gt wn _)) by (cbn [length]; lia). cbn [utf8s length write].
      rewrite !Z.add_0_r, Z.sub_0_r. apply store_halt; [done|done|apply Hst; cbn [length]; lia|done].
  - apply wide_cons in Hcs as [Hw Hcs]. cbn [utf8s] in *. rewrite <- app_assoc in Ha.
    destruct (Z.eq_dec wn 0) as [->|Hne].
    { rewrite (proj2 (Z.leb_le 0 _)), store_loop_stop by lia. cbn. by rewrite Z.add_0_r. }
    assert (Hcell : is_Some (mw !! ws)) by (eapply mapped_cell; [exact Hm|cbn [length]; lia]).
    rewrite (store_char fuel mb mw s ws wn w _ Ha Hw (tail_byte cs tail Hcs Hr) ltac:(lia) Hcell).
    apply array_app in Ha as [_ Ha].
    specialize (IH fuel mb (<[ws := w]> mw) (s + zlen (utf8 w)) (ws + 1) (wn - 1) tail
      Ha Hcs Hr ltac:(intros; apply Hst; cbn [length]; lia) ltac:(lia)).
    replace (Z.to_nat wn) with (S (Z.to_nat (wn - 1))) by lia.
    replace (wn <=? zlen (w :: cs)) with (wn - 1 <=? zlen cs)
      by (apply eq_true_iff_eq; rewrite !Z.leb_le; cbn [length]; lia).
    cbn [take utf8s length] in *. rewrite !length_app.
    specialize (IH ltac:(apply mapped_insert; eapply mapped_sub; [exact Hm|lia|lia]) ltac:(lia)).
    cbn [write]. destruct (Z.leb_spec (wn - 1) (zlen cs)).
    + rewrite IH, Nat2Z.inj_add, Z.add_assoc. done.
    + destruct IH as (c & -> & Hs). exists c. rewrite Nat2Z.inj_add, Z.add_assoc. split; [|done].
      replace (ws + 1 + zlen cs) with (ws + Z.of_nat (S (length cs))) by lia.
      replace (wn - 1 - zlen cs) with (wn - Z.of_nat (S (length cs))) by lia. done.
Qed.

Lemma count_loop_ok cs : forall fuel mb s wn tail,
  array mb s (utf8s cs ++ tail) -> Forall wide cs -> Forall byte tail -> halts tail ->
  0 <= wn < 2 ^ 64 -> (length cs < fuel)%nat ->
  exists c, count_loop fuel mb (false, 0, s, wn) =
      Ok (c, s + zlen (utf8s cs), u64 (wn - zlen cs)) /\
    stopped mb (head tail = Some 0) (s + zlen (utf8s cs)) c.
Proof.
  induction cs as [|w cs IH]; intros fuel mb s wn tail Ha Hcs Hr Hst Hwn Hf;
    (destruct fuel as [|fuel]; [exfalso; clear - Hf; lia|]).
  - cbn [utf8s length] in *. rewrite Z.add_0_r, Z.sub_0_r, u64_small by done. by apply count_halt.
  - apply wide_cons in Hcs as [Hw Hcs]. cbn [utf8s length] in *. rewrite <- app_assoc in Ha.
    rewrite (count_char fuel mb s wn w _ Ha Hw (tail_byte cs tail Hcs Hr)).
    apply array_app in Ha as [_ Ha].
    destruct (IH fuel mb (s + zlen (utf8 w)) (u64 (wn - 1)) tail) as (c & -> & Hs);
      [done..|apply u64_range|lia|].
    exists c. rewrite length_app, Nat2Z.inj_add, Z.add_assoc. split; [|done].
    unfold u64. rewrite Zminus_mod_idemp_l. by replace (wn - 1 - zlen cs) with (wn - Z.of_nat (S (length cs))) by lia.
Qed.

(** ** [mbsrtowcs] *)

(** What [mbsrtowcs] makes of [utf8s cs ++ rest], a null [ws] included. *)
Definition mbs_result (mw : mem) (ws src wn : Z) (st_ : option Z) (cs rest : list Z) : conv :=
  let failed mw src := mk_conv SIZE_MAX mw src st_ (Some EILSEQ) in
  if ws =? 0 then
    if decide (rest = []) then mk_conv (zlen cs) mw src st_ None else failed mw src
  else if wn <=? zlen cs then
    mk_conv wn (write mw ws (take (Z.to_nat wn) cs)) (src + zlen (utf8s (take (Z.to_nat wn) cs))) st_ None
  else if decide (rest = []) then mk_conv (zlen cs) (write mw ws (cs ++ [0])) 0 st_ None
  else failed (write mw ws cs) (src + zlen (utf8s cs)).

(** What it stores when [nul] says whether a terminator follows [cs]. *)
Definition mbs_stored (mw : mem) (ws src wn : Z) (st_ : option Z) (cs : list Z) (nul : bool) : conv :=
  if wn <=? zlen cs then
    mk_conv wn (write mw ws (take (Z.to_nat wn) cs)) (src + zlen (utf8s (take (Z.to_nat wn) cs))) st_ None
  else if nul then mk_conv (zlen cs) (write mw ws (cs ++ [0])) 0 st_ None
  else mk_conv SIZE_MAX (write mw ws cs) (src + zlen (utf8s cs)) st_ (Some EILSEQ).

(** Nothing behind the character that stops it is read. *)
Lemma mbsrtowcs_stored fuel mb mw ws src wn st_ cs tail :
  array mb src (utf8s cs ++ tail) -> Forall wide cs -> Forall byte tail -> (zlen cs < wn -> halts tail) ->
  0 <= wn < 2 ^ 64 -> default 0 st_ = 0 -> zlen cs < 2 ^ 64 -> ws <> 0 ->
  mapped mw ws (Z.min wn (zlen cs + 1)) -> (length cs < fuel)%nat ->
  mbsrtowcs fuel mb mw ws src wn st_ = Ok (mbs_stored mw ws src wn st_ cs (bool_decide (head tail = Some 0))).
Proof.
  intros Ha Hcs Hr Hst Hwn Hst_ Hlen Hws Hm Hf. unfold mbsrtowcs, mbs_stored. rewrite Hst_. cbn [Z.eqb negb].
  destruct (Z.eqb_spec ws 0) as [|_]; [done|].
  pose proof (store_loop_ok cs fuel mb mw src ws wn tail Ha Hcs Hr Hst Hwn) as H.
  specialize (H ltac:(eapply mapped_sub; [exact Hm|lia|lia]) Hf).
  destruct (Z.leb_spec wn (zlen cs)); [by rewrite H|]. destruct H as (c & -> & Hs).
  rewrite bind_ok, (stopped_test mb (head tail = Some 0)) by done. case_decide; [rewrite bool_decide_true by done|by rewrite bool_decide_false].
  rewrite st_ok by (apply (mapped_write mw ws cs ws _ Hm); lia).
  rewrite bind_ok, write_snoc. replace (wn - (wn - zlen cs)) with (zlen cs) by lia.
  by rewrite u64_small by lia.
Qed.

Lemma mbsrtowcs_ok fuel mb mw ws src wn st_ cs rest :
  array mb src (utf8s cs ++ rest ++ [0]) -> Forall wide cs -> Forall byte rest -> stuck rest ->
  0 <= wn < 2 ^ 64 -> default 0 st_ = 0 -> zlen cs < 2 ^ 64 ->
  (ws <> 0 -> mapped mw ws (Z.min wn (zlen cs + 1))) -> (length cs < fuel)%nat ->
  mbsrtowcs fuel mb mw ws src wn st_ = Ok (mbs_result mw ws src wn st_ cs rest).
Proof.
  intros Ha Hcs Hr Hst Hwn Hst_ Hlen Hm Hf. apply byte_nul in Hr.
  pose proof (stuck_halts rest Hst) as Hh. pose proof (stuck_ended rest Hst) as He. unfold mbs_result.
  destruct (Z.eqb_spec ws 0) as [->|Hws].
  - unfold mbsrtowcs. rewrite Hst_. cbn [Z.eqb negb].
    destruct (count_loop_ok cs fuel mb src wn (rest ++ [0])) as (c & -> & Hs); [done..|].
    rewrite bind_ok, (stopped_test mb (head (rest ++ [0]) = Some 0)) by done.
    replace (u64 (wn - u64 (wn - zlen cs))) with (zlen cs)
      by (unfold u64; rewrite Zminus_mod_idemp_r, Z.mod_small; lia).
    destruct (decide (head _ = _)), (decide (rest = [])); tauto.
  - rewrite (mbsrtowcs_stored fuel mb mw ws src wn st_ cs (rest ++ [0])) by auto. unfold mbs_stored.
    destruct (wn <=? zlen cs); [done|]. destruct (decide (rest = [])), (bool_decide_reflect (head (rest ++ [0]) = Some 0)); tauto.
Qed.

Lemma utf8s_count cs : Forall wide cs -> (length cs <= length (utf8s cs))%nat.
Proof.
  induction cs as [|w cs IH]; intros H; [done|]. apply wide_cons in H as [Hw H].
  cbn [utf8s length]. rewrite length_app. pose proof (utf8_wide_length w Hw). specialize (IH H). lia.
Qed.

(** C13: [mbsrtowcs], from the initial state, on any byte string: the string
    is the encoding of some wide characters [cs] and a rest no character
    starts at.  A null [ws] makes it count [cs].  With room for [wn]
    characters it stores the first [wn] of [cs] and leaves the source behind
    them, or all of [cs] with the terminator and a null source, or, when the
    rest is not empty, [cs] with [EILSEQ] and the source at the rest.  Only
    the cells it announces are written, and no byte behind the terminator is
    read. *)
Theorem mbsrtowcs_correct fuel mb mw ws src wn st_ bs :
  zstr mb src bs -> Forall byte bs -> 0 <= wn < 2 ^ 64 -> default 0 st_ = 0 ->
  zlen bs < 2 ^ 64 -> (length bs < fuel)%nat ->
  exists cs rest,
    bs = utf8s cs ++ rest /\ Forall wide cs /\ stuck rest /\
    ((ws <> 0 -> mapped mw ws (Z.min wn (zlen cs + 1))) ->
     mbsrtowcs fuel mb mw ws src wn st_ = Ok (mbs_result mw ws src wn st_ cs rest)).
Proof.
  intros [Ha Hnz] Hby Hwn Hst Hlen Hf. destruct (decompose bs Hby Hnz) as (cs & rest & -> & Hcs & Hr).
  exists cs, rest. split_and!; [done..|]. intros Hm. rewrite <- app_assoc in Ha.
  apply Forall_app in Hby as [_ Hby]. pose proof (utf8s_count cs Hcs). rewrite length_app in *.
  apply mbsrtowcs_ok; try done; lia.
Qed.

(** ** Wide to multibyte *)

(** What [wcsrtombs] can convert, the longest prefix of [ws]. *)
Definition scalar_b (w : Z) : bool := ((0 <=? w) && (w <? 0xd800)) || ((0xe000 <=? w) && (w <? 0x110000)).

Lemma scalar_b_spec w : scalar_b w = true <-> scalar w.
Proof. unfold scalar_b, scalar. rewrite orb_true_iff, !andb_true_iff, !Z.leb_le, !Z.ltb_lt. lia. Qed.

(** The characters whose encodings fit [n] bytes, and what follows them. *)
Fixpoint fitting (n : Z) (ws : list Z) : list Z * list Z :=
  match ws with
  | w :: ws' =>
      if scalar_b w && (zlen (utf8 w) <=? n) then
        let '(xs, ys) := fitting (n - zlen (utf8 w)) ws' in (w :: xs, ys)
      else ([], ws)
  | [] => ([], [])
  end.

Definition wchar (w : Z) : Prop := - 2 ^ 31 <= w < 2 ^ 31.

(** What [wcsrtombs] makes of [xs] with room for [n] of [N] bytes left. *)
Definition wcs_result (N : Z) (mb : mem) (s ws n : Z) (xs : list Z) : conv :=
  let '(cs, rest) := fitting n xs in
  let l := zlen (utf8s cs) in
  let stop ret e := mk_conv ret (write mb s (utf8s cs)) (ws + zlen cs) None e in
  if n =? l then stop N None
  else match rest with
    | [] => mk_conv (N - n + l) (write mb s (utf8s cs ++ [0])) 0 None None
    | w :: _ => if scalar_b w then stop (N - n + l) None else stop SIZE_MAX (Some EILSEQ)
    end.

Lemma wcs_result_char N mb s ws n w xs :
  scalar w -> zlen (utf8 w) <= n ->
  wcs_result N mb s ws n (w :: xs) =
    wcs_result N (write mb s (utf8 w)) (s + zlen (utf8 w)) (ws + 1) (n - zlen (utf8 w)) xs.
Proof.
  intros Hw Hn. unfold wcs_result. cbn [fitting].
  rewrite (proj2 (scalar_b_spec w) Hw), (proj2 (Z.leb_le _ _) Hn). cbn [andb].
  destruct (fitting _ xs) as [cs rest]. cbn [utf8s]. rewrite <- !app_assoc, !write_app.
  replace (zlen (utf8 w ++ utf8s cs)) with (zlen (utf8 w) + zlen (utf8s cs)) by (rewrite length_app; lia).
  replace (zlen (w :: cs)) with (1 + zlen cs) by (cbn [length]; lia). rewrite Z.add_assoc.
  replace (n - zlen (utf8 w) =? zlen (utf8s cs)) with (n =? zlen (utf8 w) + zlen (utf8s cs))
    by (apply eq_true_iff_eq; rewrite !Z.eqb_eq; lia).
  replace (N - n + (zlen (utf8 w) + zlen (utf8s cs))) with (N - (n - zlen (utf8 w)) + zlen (utf8s cs)) by lia.
  done.
Qed.

Lemma utf8_size w : 1 <= zlen (utf8 w) <= 4.
Proof. unfold utf8. repeat case_match; cbn; lia. Qed.

(** [**ws-1u >= 0x7fu]. *)
Lemma not_ascii x : wchar x -> (0x7f <=? u32 (x - 1)) = negb ((1 <=? x) && (x <? 0x80)).
Proof.
  unfold wchar. intros Hx. apply eq_true_iff_eq.
  rewrite negb_true_iff, andb_false_iff, Z.leb_le, Z.leb_gt, Z.ltb_ge. unfold u32. dlia.
Qed.

Lemma wcrtomb_buf w : scalar w -> exists m, wcrtomb buf 16 w = Ok (m, zlen (utf8 w), None).
Proof.
  intros Hw. rewrite (wcrtomb_ok buf 16 w Hw) by (lia || (apply (mapped_sub buf 16 4); [|lia|pose proof (utf8_size w); lia]; by apply mapped_check)).
  eauto.
Qed.

Lemma size_not_error w : (u64 (zlen (utf8 w) + 1) =? 0) = false.
Proof. pose proof (utf8_size w). rewrite u64_small by lia. apply Z.eqb_neq. lia. Qed.

(** The rounds of the loops: a character that fits, and the four ends. *)
Lemma careful_char f mw N mb s ws n w :
  ld mw ws = Ok w -> scalar w -> w <> 0 -> zlen (utf8 w) <= n -> 0 < s -> mapped mb s (zlen (utf8 w)) ->
  wcs_careful (S f) mw N (mb, s, ws, n) =
    wcs_careful f mw N (write mb s (utf8 w), s + zlen (utf8 w), ws + 1, n - zlen (utf8 w)).
Proof.
  intros Hld Hw Hw0 Hn Hs Hm. pose proof (utf8_size w) as Hsz. pose proof (wide_range w (conj Hw Hw0)).
  unfold wcs_careful at 1. rewrite loop_step. cbn beta iota.
  destruct (Z.eqb_spec n 0); [lia|]. cbn [negb]. rewrite Hld, bind_ok, not_ascii by (unfold wchar; lia).
  destruct (Z.ltb_spec w 0x80); cbn [andb].
  - rewrite (proj2 (Z.leb_le 1 w)) by lia. cbn [andb negb]. rewrite utf8_1 in * by lia.
    rewrite u8_small, st_ok by (lia || (eapply mapped_cell; [exact Hm|cbn; lia])). done.
  - rewrite andb_false_r. cbn [negb]. destruct (Z.eqb_spec w 0); [done|].
    destruct (wcrtomb_buf w Hw) as (m' & ->). rewrite bind_ok. cbn beta iota.
    rewrite size_not_error, (proj2 (Z.ltb_ge n _)) by done.
    rewrite wcrtomb_ok by (lia || done). done.
Qed.

Lemma careful_end f mw N mb s ws :
  wcs_careful (S f) mw N (mb, s, ws, 0) = Ok (mk_conv N mb ws None None).
Proof. done. Qed.

Lemma careful_nul f mw N mb s ws n :
  n <> 0 -> ld mw ws = Ok 0 -> is_Some (mb !! s) ->
  wcs_careful (S f) mw N (mb, s, ws, n) = Ok (mk_conv (N - n) (<[s := 0]> mb) 0 None None).
Proof.
  intros Hn Hld Hm. unfold wcs_careful. rewrite loop_step. cbn beta iota.
  destruct (Z.eqb_spec n 0); [done|]. cbn [negb]. rewrite Hld, bind_ok. cbn [Z.eqb].
  by rewrite st_ok by done.
Qed.

Lemma careful_unfit f mw N mb s ws n w :
  n <> 0 -> ld mw ws = Ok w -> w <> 0 -> wchar w -> scalar_b w && (zlen (utf8 w) <=? n) = false -> 0 < n ->
  wcs_careful (S f) mw N (mb, s, ws, n) =
    Ok (if scalar_b w then mk_conv (N - n) mb ws None None else mk_conv SIZE_MAX mb ws None (Some EILSEQ)).
Proof.
  intros Hn Hld Hw0 Hw Hfit Hpos. unfold wcs_careful. rewrite loop_step. cbn beta iota.
  destruct (Z.eqb_spec n 0); [done|]. cbn [negb]. rewrite Hld, bind_ok, not_ascii by done.
  replace ((1 <=? w) && (w <? 0x80)) with false.
  2: { symmetry. apply not_true_iff_false. rewrite andb_true_iff, Z.leb_le, Z.ltb_lt. intros ?.
       rewrite (proj2 (scalar_b_spec w)), utf8_1 in Hfit by (unfold scalar; lia).
       cbn [length andb] in Hfit. apply Z.leb_gt in Hfit. lia. }
  cbn [negb]. destruct (Z.eqb_spec w 0); [done|]. destruct (scalar_b w) eqn:Hs.
  - apply scalar_b_spec in Hs. cbn [andb] in Hfit. apply Z.leb_gt in Hfit.
    destruct (wcrtomb_buf w Hs) as (m' & ->). rewrite bind_ok. cbn beta iota.
    by rewrite size_not_error, (proj2 (Z.ltb_lt n _)) by done.
  - rewrite (wcrtomb_bad buf 16 w); [done| |exact Hw|lia]. rewrite <- scalar_b_spec. congruence.
Qed.

Lemma direct_short f mw N mb s ws n :
  n < 4 -> wcs_direct (S f) mw N (mb, s, ws, n) = Ok (inr (mb, s, ws, n)).
Proof. intros Hn. unfold wcs_direct. rewrite loop_step. cbn beta iota. by rewrite (proj2 (Z.leb_gt 4 n)). Qed.

Lemma direct_char f mw N mb s ws n w :
  ld mw ws = Ok w -> scalar w -> w <> 0 -> 4 <= n -> 0 < s -> mapped mb s (zlen (utf8 w)) ->
  wcs_direct (S f) mw N (mb, s, ws, n) =
    wcs_direct f mw N (write mb s (utf8 w), s + zlen (utf8 w), ws + 1, n - zlen (utf8 w)).
Proof.
  intros Hld Hw Hw0 Hn Hs Hm. pose proof (wide_range w (conj Hw Hw0)).
  unfold wcs_direct at 1. rewrite loop_step. cbn beta iota.
  rewrite (proj2 (Z.leb_le 4 n)), Hld, bind_ok, not_ascii by (done || (unfold wchar; lia)).
  destruct (Z.ltb_spec w 0x80); cbn [andb].
  - rewrite (proj2 (Z.leb_le 1 w)) by lia. cbn [andb negb]. rewrite utf8_1 in * by lia.
    rewrite u8_small, st_ok by (lia || (eapply mapped_cell; [exact Hm|cbn; lia])). done.
  - rewrite andb_false_r. cbn [negb]. destruct (Z.eqb_spec w 0); [done|].
    rewrite wcrtomb_ok by (lia || done). rewrite bind_ok. cbn beta iota. by rewrite size_not_error.
Qed.

Lemma direct_nul f mw N mb s ws n :
  4 <= n -> ld mw ws = Ok 0 -> is_Some (mb !! s) ->
  wcs_direct (S f) mw N (mb, s, ws, n) = Ok (inl (mk_conv (N - n) (<[s := 0]> mb) 0 None None)).
Proof.
  intros Hn Hld Hm. unfold wcs_direct. rewrite loop_step. cbn beta iota.
  rewrite (proj2 (Z.leb_le 4 n)), Hld, bind_ok by done. cbn [Z.eqb]. by rewrite st_ok by done.
Qed.

Lemma direct_bad f mw N mb s ws n w :
  4 <= n -> ld mw ws = Ok w -> wchar w -> ~ scalar w -> s <> 0 ->
  wcs_direct (S f) mw N (mb, s, ws, n) = Ok (inl (mk_conv SIZE_MAX mb ws None (Some EILSEQ))).
Proof.
  intros Hn Hld Hw Hsc Hs. unfold wcs_direct. rewrite loop_step. cbn beta iota.
  rewrite (proj2 (Z.leb_le 4 n)), Hld, bind_ok, not_ascii by done.
  replace ((1 <=? w) && (w <? 0x80)) with false.
  2: { symmetry. apply not_true_iff_false. rewrite andb_true_iff, Z.leb_le, Z.ltb_lt.
       unfold scalar in Hsc. lia. }
  cbn [negb]. destruct (Z.eqb_spec w 0) as [->|]; [exfalso; apply Hsc; unfold scalar; lia|].
  by rewrite wcrtomb_bad.
Qed.

(** ** [wcsrtombs] *)

(** The bytes [wcsrtombs] needs. *)
Definition room (n : Z) (xs : list Z) : Z := Z.min n (zlen (utf8s (fst (fitting n xs))) + 1).

Lemma room_char n w xs :
  scalar w -> zlen (utf8 w) <= n ->
  room n (w :: xs) = zlen (utf8 w) + room (n - zlen (utf8 w)) xs.
Proof.
  intros Hw Hn. unfold room. cbn [fitting].
  rewrite (proj2 (scalar_b_spec w) Hw), (proj2 (Z.leb_le _ _) Hn). cbn [andb].
  destruct (fitting _ xs) as [cs rest]. cbn [fst utf8s]. rewrite length_app. lia.
Qed.

Lemma room_nonneg n xs : 0 <= n -> 0 <= room n xs.
Proof. unfold room. lia. Qed.

Lemma room_pos n xs : 0 < n -> 0 < room n xs.
Proof. unfold room. lia. Qed.

Lemma wcs_result_unfit N mb s ws n w xs :
  scalar_b w && (zlen (utf8 w) <=? n) = false -> n <> 0 ->
  wcs_result N mb s ws n (w :: xs) =
    if scalar_b w then mk_conv (N - n) mb ws None None else mk_conv SIZE_MAX mb ws None (Some EILSEQ).
Proof.
  intros Hf Hn. unfold wcs_result. cbn [fitting]. rewrite Hf. cbn [utf8s length write].
  change (Z.of_nat 0) with 0.
  destruct (Z.eqb_spec n 0); [done|]. by rewrite !Z.add_0_r.
Qed.

Lemma wcs_result_full N mb s ws xs : wcs_result N mb s ws 0 xs = mk_conv N mb ws None None.
Proof.
  unfold wcs_result. replace (fitting 0 xs) with (@nil Z, xs); [cbn; by rewrite Z.add_0_r|].
  destruct xs as [|w xs]; cbn [fitting]; [done|]. pose proof (utf8_size w).
  by rewrite (proj2 (Z.leb_gt _ 0)), andb_false_r by lia.
Qed.

Lemma wcs_result_nul N mb s ws n :
  n <> 0 -> wcs_result N mb s ws n [] = mk_conv (N - n) (<[s := 0]> mb) 0 None None.
Proof.
  intros Hn. unfold wcs_result. cbn. change (Z.of_nat 0) with 0.
  destruct (Z.eqb_spec n 0); [done|]. by rewrite Z.add_0_r.
Qed.

Lemma zstr_wide mw ws w xs :
  zstr mw ws (w :: xs) -> ld mw ws = Ok w /\ w <> 0 /\ zstr mw (ws + 1) xs.
Proof. intros H. apply zstr_cons in H as (Hx & Hw & H). split; [by apply ld_ok|done]. Qed.

Lemma zstr_end_ld mw ws : zstr mw ws [] -> ld mw ws = Ok 0.
Proof. intros H. apply zstr_nil in H. by apply ld_ok. Qed.

Lemma careful_ok xs : forall f mw N mb s ws n,
  zstr mw ws xs -> Forall wchar xs -> 0 <= n -> 0 < s -> mapped mb s (room n xs) -> (length xs < f)%nat ->
  wcs_careful f mw N (mb, s, ws, n) = Ok (wcs_result N mb s ws n xs).
Proof.
  induction xs as [|w xs IH]; intros f mw N mb s ws n Hz Hw Hn Hs Hm Hf;
    (destruct f as [|f]; [exfalso; clear - Hf; lia|]);
    (destruct (Z.eq_dec n 0) as [->|Hn0]; [by rewrite wcs_result_full|]).
  - pose proof (room_pos n [] ltac:(lia)).
    rewrite careful_nul by (done || (by apply zstr_end_ld) || by apply (mapped_cell _ _ _ Hm)).
    by rewrite wcs_result_nul.
  - destruct (zstr_wide mw ws w xs Hz) as (Hld & Hw0 & Hz1). apply List.Forall_cons_iff in Hw as [Hw Hws].
    destruct (scalar_b w && (zlen (utf8 w) <=? n)) eqn:Hfit.
    + apply andb_true_iff in Hfit as [Hsc Hle]. apply scalar_b_spec in Hsc. apply Z.leb_le in Hle.
      rewrite (room_char n w xs Hsc Hle) in Hm. pose proof (room_nonneg (n - zlen (utf8 w)) xs ltac:(lia)).
      pose proof (utf8_size w). cbn [length] in Hf.
      rewrite careful_char with (w := w), wcs_result_char by (done || lia || (eapply mapped_sub; [exact Hm|lia|lia])).
      apply IH; try done; try lia. apply mapped_write. eapply mapped_sub; [exact Hm|lia|lia].
    + rewrite careful_unfit with (w := w), wcs_result_unfit by (done || lia). done.
Qed.

Lemma direct_ok xs : forall f F mw N mb s ws n,
  zstr mw ws xs -> Forall wchar xs -> 0 <= n -> 0 < s -> mapped mb s (room n xs) ->
  (length xs < f)%nat -> (length xs < F)%nat ->
  (r ← wcs_direct f mw N (mb, s, ws, n);
   match r with inl r => Ok r | inr (mb, s, ws, n) => wcs_careful F mw N (mb, s, ws, n) end) =
    Ok (wcs_result N mb s ws n xs).
Proof.
  induction xs as [|w xs IH]; intros f F mw N mb s ws n Hz Hw Hn Hs Hm Hf HF;
    (destruct f as [|f]; [exfalso; clear - Hf; lia|]);
    (destruct (Z.lt_ge_cases n 4); [rewrite direct_short, bind_ok by done; by apply careful_ok|]).
  - pose proof (room_pos n [] ltac:(lia)).
    rewrite direct_nul by (done || (by apply zstr_end_ld) || by apply (mapped_cell _ _ _ Hm)).
    by rewrite bind_ok, wcs_result_nul by lia.
  - destruct (zstr_wide mw ws w xs Hz) as (Hld & Hw0 & Hz1). apply List.Forall_cons_iff in Hw as [Hw Hws].
    pose proof (utf8_size w). cbn [length] in Hf, HF.
    destruct (scalar_b w) eqn:Hsc.
    + apply scalar_b_spec in Hsc.
      rewrite (room_char n w xs Hsc ltac:(lia)) in Hm. pose proof (room_nonneg (n - zlen (utf8 w)) xs ltac:(lia)).
      rewrite direct_char with (w := w), wcs_result_char by (done || lia || (eapply mapped_sub; [exact Hm|lia|lia])).
      apply IH; try done; try lia. apply mapped_write. eapply mapped_sub; [exact Hm|lia|lia].
    + rewrite direct_bad with (w := w), bind_ok, wcs_result_unfit, Hsc
        by (done || lia || (by rewrite Hsc) || (rewrite <- scalar_b_spec; congruence)). done.
Qed.

Lemma wcs_count_ok xs : forall f mw ws n,
  zstr mw ws xs -> Forall wchar xs -> 0 <= n -> n + 4 * zlen xs < 2 ^ 64 -> (length xs < f)%nat ->
  wcs_count f mw (n, ws) =
    Ok (if forallb scalar_b xs then Some (n + zlen (utf8s xs)) else None).
Proof.
  induction xs as [|w xs IH]; intros f mw ws n Hz Hw Hn Hb Hf;
    (destruct f as [|f]; [exfalso; clear - Hf; lia|]); unfold wcs_count; rewrite loop_step; cbn beta iota.
  - rewrite (zstr_end_ld mw ws Hz), bind_ok. cbn. by rewrite Z.add_0_r.
  - destruct (zstr_wide mw ws w xs Hz) as (Hld & Hw0 & Hz1). apply List.Forall_cons_iff in Hw as [Hw Hws].
    rewrite Hld, bind_ok. destruct (Z.eqb_spec w 0); [done|]. fold (wcs_count f mw).
    pose proof (utf8_size w) as Hsz. cbn [length forallb utf8s] in *. rewrite length_app.
    destruct (Z.leb_spec 0x80 (u32 w)).
    + destruct (scalar_b w) eqn:Hsc; cbn [andb].
      * apply scalar_b_spec in Hsc. destruct (wcrtomb_buf w Hsc) as (m' & ->). rewrite bind_ok. cbn beta iota.
        rewrite size_not_error, bind_ok, (u64_small (n + _)) by lia. rewrite IH by (done || lia).
        by rewrite Nat2Z.inj_add, Z.add_assoc.
      * rewrite (wcrtomb_bad buf 16 w); [done| |exact Hw|lia]. rewrite <- scalar_b_spec. congruence.
    + assert (Hr : 0 < w < 0x80).
      { unfold wchar, u32 in *. destruct (Z.lt_ge_cases w 0); dlia. }
      rewrite (proj2 (scalar_b_spec w)), bind_ok, (u64_small (n + 1)) by (unfold scalar; lia).
      cbn [andb]. rewrite IH by (done || lia). rewrite utf8_1 by lia. cbn [length].
      destruct (forallb _ _); [|done]. do 2 f_equal. lia.
Qed.

(** [wcsrtombs] on any wide string: a null [s] makes it return the
    number of bytes its encoding takes, or [EILSEQ] when some character has
    none.  Otherwise it stores the encodings of the longest prefix that fits
    [n] bytes, never a part of one, with the terminator and a null source
    when the whole string fits, and [EILSEQ] with the source at the character
    when one that has no encoding stops it.  Only the announced bytes are
    written, although the loop switches to a scratch buffer for the last
    three bytes. *)
Theorem wcsrtombs_correct fuel mw mb s ws n xs :
  zstr mw ws xs -> Forall wchar xs -> 0 <= n -> 4 * zlen xs < 2 ^ 64 -> (length xs < fuel)%nat ->
  wcsrtombs fuel mw mb 0 ws n =
    Ok (if forallb scalar_b xs then mk_conv (zlen (utf8s xs)) mb ws None None
        else mk_conv SIZE_MAX mb ws None (Some EILSEQ)) /\
  (0 < s -> mapped mb s (room n xs) ->
   wcsrtombs fuel mw mb s ws n = Ok (wcs_result n mb s ws n xs)).
Proof.
  intros Hz Hw Hn Hb Hf. split.
  - unfold wcsrtombs. cbn [Z.eqb]. rewrite (wcs_count_ok xs) by (done || lia). rewrite bind_ok.
    by destruct (forallb _ _).
  - intros Hs Hm. unfold wcsrtombs. rewrite (proj2 (Z.eqb_neq s 0)) by lia. by apply direct_ok.
Qed.

Lemma fitting_all cs : forall n, Forall wide cs -> zlen (utf8s cs) <= n -> fitting n cs = (cs, []).
Proof.
  induction cs as [|w cs IH]; intros n Hc Hn; [done|]. apply wide_cons in Hc as [[Hw _] Hc].
  cbn [utf8s fitting] in *. rewrite length_app in Hn.
  rewrite (proj2 (scalar_b_spec w) Hw), (proj2 (Z.leb_le _ _)) by lia. cbn [andb]. by rewrite IH by (done || lia).
Qed.

(** A wide string of scalar values survives [wcsrtombs] followed by
    [mbsrtowcs], given room for both results: the same characters and the
    terminator are stored, both sources become null, and the two calls return
    the lengths. *)
Theorem wcsrtombs_mbsrtowcs_roundtrip fuel mw mb s ws n d wn xs :
  zstr mw ws xs -> Forall wide xs -> zlen (utf8s xs) < n -> zlen xs < wn < 2 ^ 64 ->
  0 < s -> d <> 0 -> mapped mb s n -> mapped mw d wn -> (length xs < fuel)%nat ->
  exists mb',
    wcsrtombs fuel mw mb s ws n = Ok (mk_conv (zlen (utf8s xs)) mb' 0 None None) /\
    mbsrtowcs fuel mb' mw d s wn None = Ok (mk_conv (zlen xs) (write mw d (xs ++ [0])) 0 None None).
Proof.
  intros Hz Hw Hn Hwn Hs Hd Hm Hmw Hf. exists (write mb s (utf8s xs ++ [0])). split.
  - unfold wcsrtombs. rewrite (proj2 (Z.eqb_neq s 0)) by lia. rewrite (direct_ok xs).
    + unfold wcs_result. rewrite fitting_all by (done || lia).
      destruct (Z.eqb_spec n (zlen (utf8s xs))); [lia|]. do 2 f_equal. lia.
    + done.
    + eapply List.Forall_impl; [|exact Hw]. intros w Hr%wide_range. unfold wchar. lia.
    + lia.
    + done.
    + unfold room. rewrite fitting_all by (done || lia). eapply mapped_sub; [exact Hm|lia|cbn [fst]; lia].
    + done.
    + done.
  - rewrite (mbsrtowcs_ok fuel _ mw d s wn None xs []); try done; try lia.
    + unfold mbs_result. destruct (Z.eqb_spec d 0); [done|]. rewrite (proj2 (Z.leb_gt wn _)) by lia. done.
    + rewrite app_nil_l. apply array_write.
    + by left.
    + intros _. eapply mapped_sub; [exact Hmw|lia|lia].
Qed.

(** The Euro sign between two ASCII characters, and a truncated one. *)
Definition demo_mb : mem :=
  write (write ∅ 100 [65; 0xe2; 0x82; 0xac; 66; 0]) 200 [65; 0xe2; 0x82; 0].
Definition demo_mw : mem := write (write ∅ 100 [65; 0x20ac; 66; 0]) 200 (replicate 8 0).

Lemma mbsrtowcs_witness :
  zstr demo_mb 200 [65; 0xe2; 0x82] /\
  exists cs rest, [65; 0xe2; 0x82] = utf8s cs ++ rest /\ Forall wide cs /\ stuck rest /\
    ((200 <> 0 -> mapped demo_mw 200 (Z.min 8 (zlen cs + 1))) ->
     mbsrtowcs 10 demo_mb demo_mw 200 200 8 None = Ok (mbs_result demo_mw 200 200 8 None cs rest)).
Proof.
  split; [by apply zstr_check|].
  apply (mbsrtowcs_correct 10 demo_mb demo_mw 200 200 8 None [65; 0xe2; 0x82]);
    [by apply zstr_check|repeat constructor; unfold byte; lia|lia|done|cbn; lia|cbn; lia].
Defined.

Lemma wcsrtombs_witness :
  zstr demo_mw 100 [65; 0x20ac; 66] /\
  wcsrtombs 10 demo_mw demo_mb 0 100 0 = Ok (mk_conv 5 demo_mb 100 None None) /\
  wcsrtombs 10 demo_mw demo_mb 200 100 3 = Ok (mk_conv 1 (write demo_mb 200 [65]) 101 None None).
Proof.
  split; [by apply zstr_check|].
  destruct (wcsrtombs_correct 10 demo_mw demo_mb 200 100 3 [65; 0x20ac; 66]) as [H1 H2];
    [by apply zstr_check|repeat constructor; unfold wchar; lia|lia|cbn; lia|cbn; lia|].
  split; [exact H1|]. apply H2; [lia|by apply mapped_check].
Defined.

Lemma wcsrtombs_mbsrtowcs_roundtrip_witness :
  zstr demo_mw 100 [65; 0x20ac; 66] /\
  exists mb', wcsrtombs 10 demo_mw demo_mb 100 100 6 = Ok (mk_conv 5 mb' 0 None None) /\
    mbsrtowcs 10 mb' demo_mw 200 100 8 None =
      Ok (mk_conv 3 (write demo_mw 200 [65; 0x20ac; 66; 0]) 0 None None).
Proof.
  split; [by apply zstr_check|].
  apply (wcsrtombs_mbsrtowcs_roundtrip 10 demo_mw demo_mb 100 100 6 200 8 [65; 0x20ac; 66]);
    [by apply zstr_check|repeat constructor; unfold scalar; lia|cbn; lia|cbn; lia|lia|lia
    |by apply mapped_check|by apply mapped_check|cbn; lia].
Defined.
