(* ===== verification/UmtxTime.v ===== *)
(** The sequential parts of [include/sys/umtx.h]: the conversion of deadlines
    between clocks, the probe that finds the condition variables' clock, the
    hash of addresses onto buckets and the register of waiters. *)
From stdpp Require Import prelude gmap list numbers.
From S2P Require Import Prelude Memory.
Open Scope Z_scope.

Module UmtxTime.

(** [struct timespec] and [struct _umtx_time]. *)
Record timespec := mk_ts { tv_sec : Z; tv_nsec : Z }.
Record umtx_time := mk_umtx_time { _timeout : timespec; _flags : Z; _clockid : Z }.

Definition UMTX_ABSTIME : Z := 1.
Definition giga : Z := 1000000000.

Section clocks.
(** The clock numbers of the SDK's headers. *)
Context (CLOCK_REALTIME CLOCK_MONOTONIC : Z).

(** [clock k c]: what the [k]-th call of [clock_gettime] reads for clock [c],
    if it does not fail. *)
Definition caller_now (clock : nat -> Z -> option timespec) (c : Z) : option timespec :=
  match clock 0%nat c with Some now => Some now | None => clock 1%nat CLOCK_MONOTONIC end.

(** The interval still to wait. *)
Definition umtx_rel (clock : nat -> Z -> option timespec) (t : umtx_time) : outcome timespec :=
  if Z.land (_flags t) UMTX_ABSTIME =? 0 then Ok (_timeout t)
  else
    match caller_now clock (_clockid t) with
    | None => Fault
    | Some now =>
        sec ← i64 (tv_sec (_timeout t) - tv_sec now);
        nsec ← i64 (tv_nsec (_timeout t) - tv_nsec now);
        '(sec, nsec) ←
          (if nsec <? 0 then sec ← i64 (sec - 1); Ok (sec, nsec + giga) else Ok (sec, nsec));
        if sec <? 0 then Ok (mk_ts 0 0) else Ok (mk_ts sec nsec)
    end.

Definition orbis_umtx_deadline (cond_clock : Z) (clock : nat -> Z -> option timespec) (t : umtx_time)
    : outcome timespec :=
  rel ← umtx_rel clock t;
  base ← match clock 2%nat cond_clock with Some base => Ok base | None => Fault end;
  sec ← i64 (tv_sec base + tv_sec rel);
  nsec ← i64 (tv_nsec base + tv_nsec rel);
  if giga <=? nsec then sec ← i64 (sec + 1); Ok (mk_ts sec (nsec - giga)) else Ok (mk_ts sec nsec).

(** [mono] and [t0] are the readings before the wait; [wait deadline] is the
    realtime clock after it.  The result is the clock decided on and
    [orbis_umtx_probe_ms]. *)
Definition probe_deadline (mono : timespec) : outcome timespec :=
  let nsec := tv_nsec mono + 20 * 1000 * 1000 in
  if giga <=? nsec then sec ← i64 (tv_sec mono + 1); Ok (mk_ts sec (nsec - giga))
  else Ok (mk_ts (tv_sec mono) nsec).

Definition elapsed_ms (t0 t1 : timespec) : outcome Z :=
  s ← i64 (tv_sec t1 - tv_sec t0);
  s ← i64 (s * 1000);
  n ← i64 (tv_nsec t1 - tv_nsec t0);
  i64 (s + Z.quot n 1000000).

Definition orbis_umtx_probe_cond_clock (mono t0 : timespec) (wait : timespec -> timespec) : outcome (Z * Z) :=
  deadline ← probe_deadline mono;
  let t1 := wait deadline in
  elapsed ← elapsed_ms t0 t1;
  Ok (if 10 <=? elapsed then CLOCK_MONOTONIC else CLOCK_REALTIME, elapsed).

(** The statics under [pthread_once]: whether the probe has run, the clock it
    decided on and the milliseconds it measured.  [mono], [t0] and [wait] are
    what the probe would see at this call. *)
Record cond_clock := mk_cond_clock { umtx_once : bool; umtx_cond_clock : Z; umtx_probe_ms : Z }.

Definition cond_clock_initial : cond_clock := mk_cond_clock false CLOCK_REALTIME 0.

Definition umtx_init_once (s : cond_clock) (mono t0 : timespec) (wait : timespec -> timespec) : outcome cond_clock :=
  if umtx_once s then Ok s
  else '(c, ms) ← orbis_umtx_probe_cond_clock mono t0 wait; Ok (mk_cond_clock true c ms).

Definition orbis_umtx_cond_clock_probed (s : cond_clock) mono t0 wait : outcome (cond_clock * Z) :=
  s ← umtx_init_once s mono t0 wait; Ok (s, umtx_cond_clock s).

Definition orbis_umtx_cond_probe_ms (s : cond_clock) mono t0 wait : outcome (cond_clock * Z) :=
  s ← umtx_init_once s mono t0 wait; Ok (s, umtx_probe_ms s).

End clocks.

(** [(uint64_t)t.tv_sec * 1000000000ull + (uint64_t)t.tv_nsec]. *)
Definition orbis_umtx_now_ns (t : timespec) : Z := u64 (u64 (u64 (tv_sec t) * giga) + u64 (tv_nsec t)).

Definition ORBIS_UMTX_BUCKETS : Z := 64.

Definition orbis_umtx_bucket_for (addr : Z) : Z :=
  let v := Z.shiftr addr 2 in
  Z.lxor v (Z.shiftr v 8) mod ORBIS_UMTX_BUCKETS.

(** ** The register of waiters *)

Definition ORBIS_UMTX_WAITERS : nat := 64.

Record waiter := mk_waiter { w_thread : Z; w_addr : Z; w_since_ns : Z }.

(** The compare-and-swap of one slot, and the two stores that follow it. *)
Definition waiter_cas (ws : list waiter) (i : nat) (me : Z) : bool * list waiter :=
  match ws !! i with
  | Some w => if w_thread w =? 0 then (true, <[i := mk_waiter me (w_addr w) (w_since_ns w)]> ws) else (false, ws)
  | None => (false, ws)
  end.

Definition waiter_fill (ws : list waiter) (i : nat) (addr since_ns : Z) : list waiter :=
  match ws !! i with
  | Some w => <[i := mk_waiter (w_thread w) addr since_ns]> ws
  | None => ws
  end.

(** The loop from slot [i], [n] slots to go. *)
Fixpoint claim_from (ws : list waiter) (me addr now : Z) (i n : nat) : option nat * list waiter :=
  match n with
  | O => (None, ws)
  | S n =>
      let '(ok, ws) := waiter_cas ws i me in
      if ok : bool then (Some i, waiter_fill ws i addr now) else claim_from ws me addr now (S i) n
  end.

Definition orbis_umtx_waiter_claim (ws : list waiter) (me addr now : Z) : option nat * list waiter :=
  claim_from ws me addr now 0 ORBIS_UMTX_WAITERS.

Definition orbis_umtx_waiter_release (ws : list waiter) (w : option nat) : list waiter :=
  match w with
  | None => ws
  | Some i => match ws !! i with
              | Some x => <[i := mk_waiter 0 (w_addr x) (w_since_ns x)]> ws
              | None => ws
              end
  end.

Definition occupied (w : waiter) : bool := negb (w_thread w =? 0).

Fixpoint orbis_umtx_waiter_count (ws : list waiter) : Z :=
  match ws with
  | [] => 0
  | w :: ws => if occupied w then 1 + orbis_umtx_waiter_count ws else orbis_umtx_waiter_count ws
  end.

Fixpoint orbis_umtx_waiter_at (ws : list waiter) (seen i : Z) : option (Z * Z * Z) :=
  match ws with
  | [] => None
  | w :: ws =>
      if w_thread w =? 0 then orbis_umtx_waiter_at ws seen i
      else if negb (seen =? i) then orbis_umtx_waiter_at ws (seen + 1) i
      else Some (w_thread w, w_addr w, w_since_ns w)
  end.

End UmtxTime.
Export UmtxTime.

(** ** Deadlines *)

(** A time in nanoseconds; what a normalized timespec is. *)
Definition ns (t : timespec) : Z := tv_sec t * giga + tv_nsec t.
Definition ts_ok (t : timespec) : Prop := - 2 ^ 61 <= tv_sec t <= 2 ^ 61 /\ 0 <= tv_nsec t < giga.
Definition ts_of (n : Z) : timespec := mk_ts (n / giga) (n mod giga).

Lemma i64_ok z : - 2 ^ 63 <= z < 2 ^ 63 -> i64 z = Ok z.
Proof. intros H. unfold i64. by rewrite (proj2 (Z.leb_le _ z)), (proj2 (Z.ltb_lt z _)) by lia. Qed.

Lemma i64_bind {A} z (f : Z -> outcome A) : - 2 ^ 63 <= z < 2 ^ 63 -> i64 z ≫= f = f z.
Proof. intros H. by rewrite i64_ok. Qed.

Lemma ns_ts_of n : ns (ts_of n) = n.
Proof. unfold ns, ts_of, giga. cbn [tv_sec tv_nsec]. dlia. Qed.

Lemma ts_of_ok n : - 2 ^ 61 * giga <= n <= 2 ^ 61 * giga -> ts_ok (ts_of n).
Proof. unfold ts_ok, ts_of, giga. cbn [tv_sec tv_nsec]. intros H. dlia. Qed.

(** The interval the code computes, and its length. *)
Lemma umtx_rel_ok MONO clock t now :
  ts_ok (_timeout t) -> ts_ok now -> caller_now MONO clock (_clockid t) = Some now ->
  let absolute := negb (Z.land (_flags t) UMTX_ABSTIME =? 0) in
  (absolute = false -> 0 <= tv_sec (_timeout t)) ->
  exists rel, umtx_rel MONO clock t = Ok rel /\ 0 <= tv_sec rel <= 2 ^ 62 /\ 0 <= tv_nsec rel < giga /\
    ns rel = if absolute then Z.max 0 (ns (_timeout t) - ns now) else ns (_timeout t).
Proof.
  intros [Hts Htn] [Hns Hnn] Hnow absolute Hrel. unfold umtx_rel. subst absolute.
  destruct (Z.land _ _ =? 0); cbn [negb] in *.
  { exists (_timeout t). specialize (Hrel eq_refl). unfold giga in *. split_and!; [done|lia..]. }
  rewrite Hnow. cbn beta iota. rewrite 2 i64_bind by (unfold giga in *; lia).
  unfold ns, giga in *.
  destruct (Z.ltb_spec (tv_nsec (_timeout t) - tv_nsec now) 0).
  - rewrite i64_bind by lia. rewrite bind_ok. cbn beta iota.
    match goal with |- context [?s <? 0] => destruct (Z.ltb_spec s 0) end;
      (eexists; split; [reflexivity|]); cbn [tv_sec tv_nsec]; lia.
  - rewrite bind_ok. cbn beta iota.
    match goal with |- context [?s <? 0] => destruct (Z.ltb_spec s 0) end;
      (eexists; split; [reflexivity|]); cbn [tv_sec tv_nsec]; lia.
Qed.

Lemma umtx_add_ok base rel :
  ts_ok base -> 0 <= tv_sec rel <= 2 ^ 62 -> 0 <= tv_nsec rel < giga ->
  exists out,
    (sec ← i64 (tv_sec base + tv_sec rel);
     nsec ← i64 (tv_nsec base + tv_nsec rel);
     if giga <=? nsec then sec ← i64 (sec + 1); Ok (mk_ts sec (nsec - giga)) else Ok (mk_ts sec nsec)) = Ok out /\
    0 <= tv_nsec out < giga /\ ns out = ns base + ns rel.
Proof.
  intros [Hs Hn] Hr Hrn. rewrite 2 i64_bind by (unfold giga in *; lia).
  unfold ns, giga in *. destruct (Z.leb_spec 1000000000 (tv_nsec base + tv_nsec rel)).
  - rewrite i64_bind by lia. eexists. split; [reflexivity|]. cbn [tv_sec tv_nsec]. lia.
  - eexists. split; [reflexivity|]. cbn [tv_sec tv_nsec]. lia.
Qed.

(** A converted deadline is normalized, and it is as far ahead on the
    condition variable's clock as the caller's deadline is ahead on the
    caller's clock: the distance of the two when the caller gave an absolute
    time, 0 when that has already passed, and the interval itself when it gave
    one.  So for two clocks that run alike, whatever their offsets are, the
    wait ends at the instant the caller meant, or immediately when that is
    over, late by the time between the two readings and never early. *)
Theorem orbis_umtx_deadline_correct MONO cond clock t now base
  (Ht : ts_ok (_timeout t)) (Hnow : caller_now MONO clock (_clockid t) = Some now)
  (Hbase : clock 2%nat cond = Some base) (Hn : ts_ok now) (Hb : ts_ok base) :
  let absolute := negb (Z.land (_flags t) UMTX_ABSTIME =? 0) in
  (absolute = false -> 0 <= tv_sec (_timeout t)) ->
  exists out, orbis_umtx_deadline MONO cond clock t = Ok out /\
    0 <= tv_nsec out < giga /\
    ns out = ns base + (if absolute then Z.max 0 (ns (_timeout t) - ns now) else ns (_timeout t)) /\
    forall instant instant' off off',
      ns now = instant + off -> ns base = instant' + off' -> absolute = true ->
      ns out - off' = Z.max instant (ns (_timeout t) - off) + (instant' - instant).
Proof.
  intros absolute Hrel. unfold orbis_umtx_deadline. rewrite Hbase.
  destruct (umtx_rel_ok MONO clock t now Ht Hn Hnow Hrel) as (rel & -> & Hr1 & Hr2 & Hr3).
  rewrite !bind_ok. destruct (umtx_add_ok base rel Hb Hr1 Hr2) as (out & Ho & Ho1 & Ho2).
  exists out. rewrite Hr3 in Ho2. fold absolute in Ho2. split_and!; try done; try lia.
  intros i i' off off' Hi Hi' Ha. rewrite Ha in Ho2. lia.
Qed.

(** A caller's monotonic deadline, 1.5 s ahead, on a realtime clock. *)
Definition demo_clock (k : nat) (c : Z) : option timespec :=
  if c =? 4 then Some (mk_ts 1000 900000000) else if c =? 0 then Some (mk_ts 1700000000 300000000) else None.

Lemma orbis_umtx_deadline_witness :
  exists out,
    orbis_umtx_deadline 4 0 demo_clock (mk_umtx_time (mk_ts 1002 400000000) 1 4) = Ok out /\
    0 <= tv_nsec out < giga /\ ns out = 1700000001800000000.
Proof.
  destruct (orbis_umtx_deadline_correct 4 0 demo_clock (mk_umtx_time (mk_ts 1002 400000000) 1 4)
    (mk_ts 1000 900000000) (mk_ts 1700000000 300000000)) as (out & H1 & H2 & H3 & _);
    [unfold ts_ok, giga; cbn; lia|reflexivity|reflexivity|unfold ts_ok, giga; cbn; lia
    |unfold ts_ok, giga; cbn; lia|discriminate|].
  exists out. split; [exact H1|]. split; [exact H2|]. rewrite H3. reflexivity.
Defined.

(** ** The probe *)

Definition ms : Z := 1000000.

(** Milliseconds as computed: within one of the truth. *)
Lemma elapsed_ms_ok n n' :
  0 <= n <= 2 ^ 50 * giga -> 0 <= n' <= 2 ^ 50 * giga ->
  exists e, elapsed_ms (ts_of n) (ts_of n') = Ok e /\ - ms < n' - n - ms * e < ms.
Proof.
  intros Hn Hn'. unfold elapsed_ms, ts_of, giga, ms in *. cbn [tv_sec tv_nsec].
  set (a := n / 1000000000). set (b := n mod 1000000000).
  set (a' := n' / 1000000000). set (b' := n' mod 1000000000).
  assert (Ha : n = a * 1000000000 + b /\ 0 <= b < 1000000000 /\ 0 <= a <= 2 ^ 50) by (subst a b; dlia).
  assert (Ha' : n' = a' * 1000000000 + b' /\ 0 <= b' < 1000000000 /\ 0 <= a' <= 2 ^ 50) by (subst a' b'; dlia).
  clearbody a b a' b'.
  rewrite 3 i64_bind by lia. pose proof (Z.quot_rem' (b' - b) 1000000) as Hq.
  pose proof (Z.rem_bound_abs (b' - b) 1000000 ltac:(lia)) as Hrem.
  set (q := Z.quot (b' - b) 1000000) in *. set (r := Z.rem (b' - b) 1000000) in *. clearbody q r.
  rewrite i64_ok by lia. eexists. split; [reflexivity|]. lia.
Qed.

Lemma probe_deadline_ok n :
  0 <= n <= 2 ^ 50 * giga -> exists d, probe_deadline (ts_of n) = Ok d /\ ns d = n + 20 * ms.
Proof.
  intros Hn. unfold probe_deadline, ts_of, giga, ms, ns in *. cbn [tv_sec tv_nsec].
  assert (n = (n / 1000000000) * 1000000000 + n mod 1000000000 /\ 0 <= n / 1000000000 <= 2 ^ 50) by dlia.
  destruct (Z.leb_spec 1000000000 (n mod 1000000000 + 20 * 1000 * 1000)).
  - rewrite i64_bind by lia. eexists. split; [reflexivity|]. cbn [tv_sec tv_nsec]. unfold giga. lia.
  - eexists. split; [reflexivity|]. cbn [tv_sec tv_nsec]. unfold giga. lia.
Qed.

(** The realtime clock after a wait that started at [start]: it ends when the
    deadline is reached on the condition variable's clock, and [late] more. *)
Definition timed_wait (start off_cond off_real late : Z) (deadline : timespec) : timespec :=
  ts_of (Z.max start (ns deadline - off_cond) + late + off_real).

(** The probe finds the clock that condition variables use: a monotonic
    one makes the wait last, a realtime one, at least 20 ms ahead of the
    monotonic clock, makes it end at once; and the two are told apart as long
    as the readings and the wakeup are late by less than 9 ms. *)
Theorem orbis_umtx_probe_correct REAL MONO t0 delay late off_mono off_real
  (Hd : 0 <= delay <= 9 * ms) (Hl : 0 <= late < 9 * ms)
  (Hm : 0 <= t0 + off_mono <= 2 ^ 49 * giga) (Hr : 0 <= t0 + off_real <= 2 ^ 49 * giga) :
  let probe off_cond := orbis_umtx_probe_cond_clock REAL MONO (ts_of (t0 + off_mono))
    (ts_of (t0 + delay + off_real)) (timed_wait (t0 + delay) off_cond off_real late) in
  (exists e, probe off_mono = Ok (MONO, e)) /\
  (20 * ms <= off_real - off_mono -> exists e, probe off_real = Ok (REAL, e)).
Proof.
  intros probe. unfold giga, ms in *.
  destruct (probe_deadline_ok (t0 + off_mono)) as (d & Hdl & Hns); [unfold giga; lia|]. unfold ms in Hns.
  assert (Hp : forall off_cond, exists e, - 1000000 < Z.max (t0 + delay) (t0 + off_mono + 20 * 1000000 - off_cond) + late
      - (t0 + delay) - 1000000 * e < 1000000 /\
      (off_cond = off_mono \/ 20 * 1000000 <= off_cond - off_mono ->
       probe off_cond = Ok (if 10 <=? e then MONO else REAL, e))).
  { intros oc. set (stop := Z.max (t0 + delay) (t0 + off_mono + 20 * 1000000 - oc) + late).
    destruct (decide (oc = off_mono \/ 20 * 1000000 <= oc - off_mono)) as [Hoc|Hoc].
    - destruct (elapsed_ms_ok (t0 + delay + off_real) (stop + off_real)) as (e & He & Hb);
        [unfold giga; lia|unfold giga; subst stop; lia|].
      exists e. unfold ms in Hb. split; [lia|]. intros _. subst probe. unfold orbis_umtx_probe_cond_clock, timed_wait.
      cbn beta. rewrite Hdl, bind_ok. cbn zeta. rewrite Hns. fold stop. by rewrite He.
    - exists ((stop - (t0 + delay)) / 1000000). split; [dlia|done]. }
  split.
  - destruct (Hp off_mono) as (e & Hb & ->); [|by left]. exists e. rewrite (proj2 (Z.leb_le 10 e)) by lia. done.
  - intros Ho. destruct (Hp off_real) as (e & Hb & ->); [|by right]. exists e. by rewrite (proj2 (Z.leb_gt 10 e)) by lia.
Qed.

Lemma orbis_umtx_probe_witness :
  (exists e, orbis_umtx_probe_cond_clock 0 4 (ts_of 5000000000) (ts_of 1700000000001000000)
     (timed_wait 1000000 5000000000 1700000000000000000 2000000) = Ok (4, e)) /\
  (exists e, orbis_umtx_probe_cond_clock 0 4 (ts_of 5000000000) (ts_of 1700000000001000000)
     (timed_wait 1000000 1700000000000000000 1700000000000000000 2000000) = Ok (0, e)).
Proof.
  destruct (orbis_umtx_probe_correct 0 4 0 1000000 2000000 5000000000 1700000000000000000) as [H1 H2];
    [unfold ms; lia|unfold ms; lia|unfold giga; lia|unfold giga; lia|].
  split; [exact H1|]. apply H2. unfold ms. lia.
Defined.

(** The probe runs once: every later call, of either function, answers with
    what the first one measured, whatever a second probe would have seen. *)
Lemma cond_clock_decided_once REAL MONO s mono t0 wait s' c :
  orbis_umtx_cond_clock_probed REAL MONO s mono t0 wait = Ok (s', c) ->
  forall mono2 t02 wait2,
    orbis_umtx_cond_clock_probed REAL MONO s' mono2 t02 wait2 = Ok (s', c) /\
    orbis_umtx_cond_probe_ms REAL MONO s' mono2 t02 wait2 = Ok (s', umtx_probe_ms s').
Proof.
  unfold orbis_umtx_cond_clock_probed, orbis_umtx_cond_probe_ms, umtx_init_once. intros H mono2 t02 wait2.
  assert (umtx_once s' = true /\ c = umtx_cond_clock s') as [Ho ->]; [|by rewrite Ho].
  destruct (umtx_once s) eqn:E; [cbn [mbind outcome_bind] in H; by injection H as <- <-|].
  destruct (orbis_umtx_probe_cond_clock REAL MONO mono t0 wait) as [[c' ms']| |]; cbn [mbind outcome_bind] in H; try done.
  by injection H as <- <-.
Qed.

(** ** The register *)

Definition entry_of (w : waiter) : Z * Z * Z := (w_thread w, w_addr w, w_since_ns w).
Definition sleepers (ws : list waiter) : list waiter := List.filter occupied ws.

Lemma waiter_count_ok ws : orbis_umtx_waiter_count ws = zlen (sleepers ws).
Proof.
  induction ws as [|w ws IH]; [done|]. cbn [orbis_umtx_waiter_count sleepers List.filter].
  fold (sleepers ws). destruct (occupied w); cbn [length]; lia.
Qed.

Lemma waiter_at_ok ws : forall seen i,
  seen <= i -> orbis_umtx_waiter_at ws seen i = entry_of <$> sleepers ws !! Z.to_nat (i - seen).
Proof.
  induction ws as [|w ws IH]; intros seen i Hi; [done|].
  cbn [orbis_umtx_waiter_at sleepers List.filter]. unfold occupied.
  destruct (w_thread w =? 0); cbn [negb]; [by apply IH|].
  destruct (Z.eqb_spec seen i) as [->|Hne]; cbn [negb]; [by rewrite Z.sub_diag|].
  rewrite IH by lia. replace (Z.to_nat (i - seen)) with (S (Z.to_nat (i - (seen + 1)))) by lia. done.
Qed.

(** The slots before [i] are taken and slot [i] is free. *)
Definition first_free (ws : list waiter) (i : nat) : Prop :=
  (exists w, ws !! i = Some w /\ w_thread w = 0) /\
  forall j w, (j < i)%nat -> ws !! j = Some w -> w_thread w <> 0.

Lemma claim_from_ok ws me addr now n : forall i,
  (i + n = length ws)%nat -> (forall j w, (j < i)%nat -> ws !! j = Some w -> w_thread w <> 0) ->
  (exists k, first_free ws k /\ claim_from ws me addr now i n = (Some k, <[k := mk_waiter me addr now]> ws)) \/
  ((forall j w, ws !! j = Some w -> w_thread w <> 0) /\ claim_from ws me addr now i n = (None, ws)).
Proof.
  induction n as [|n IH]; intros i Hlen Hbefore; cbn [claim_from].
  - right. split; [|done]. intros j w Hj. apply (Hbefore j); [|done]. apply lookup_lt_Some in Hj. lia.
  - destruct (lookup_lt_is_Some_2 ws i) as [w Hw]; [lia|]. unfold waiter_cas. rewrite Hw.
    destruct (Z.eqb_spec (w_thread w) 0) as [H0|H0].
    + left. exists i. split; [split; [by exists w|done]|]. unfold waiter_fill.
      rewrite list_lookup_insert_eq by (by eapply lookup_lt_Some). by rewrite list_insert_insert_eq.
    + apply IH; [lia|]. intros j w' Hj Hjw. destruct (decide (j = i)) as [->|]; [naive_solver|].
      apply (Hbefore j); [lia|done].
Qed.

Lemma release_ok ws i w :
  ws !! i = Some w -> orbis_umtx_waiter_release ws (Some i) = <[i := mk_waiter 0 (w_addr w) (w_since_ns w)]> ws.
Proof. intros Hw. cbn. by rewrite Hw. Qed.

(** The register of waiters: the count and the walk over [0 .. count-1]
    list exactly the occupied slots, in order, and nothing past them; a claim
    takes the first free slot for the caller and leaves the others alone, or
    reports that there is none; and releasing it leaves every other slot alone
    and this one free. *)
Theorem orbis_umtx_waiter_register ws me addr now i
  (Hlen : length ws = ORBIS_UMTX_WAITERS) (Hi : 0 <= i) :
  orbis_umtx_waiter_count ws = zlen (sleepers ws) /\
  orbis_umtx_waiter_at ws 0 i = entry_of <$> sleepers ws !! Z.to_nat i /\
  ((exists k, first_free ws k /\
      orbis_umtx_waiter_claim ws me addr now = (Some k, <[k := mk_waiter me addr now]> ws) /\
      orbis_umtx_waiter_release (<[k := mk_waiter me addr now]> ws) (Some k) = <[k := mk_waiter 0 addr now]> ws) \/
   (orbis_umtx_waiter_count ws = 64 /\ orbis_umtx_waiter_claim ws me addr now = (None, ws))).
Proof.
  split; [apply waiter_count_ok|]. split; [rewrite waiter_at_ok by done; by rewrite Z.sub_0_r|].
  destruct (claim_from_ok ws me addr now ORBIS_UMTX_WAITERS 0) as [(k & Hk & Hc)|[Hfull Hc]];
    [lia|intros; lia| |].
  - left. exists k. split; [done|]. split; [done|]. destruct Hk as [(w & Hw & _) _].
    rewrite (release_ok _ _ (mk_waiter me addr now))
      by (apply list_lookup_insert_eq; by eapply lookup_lt_Some).
    by rewrite list_insert_insert_eq.
  - right. split; [|done]. rewrite waiter_count_ok. unfold sleepers.
    rewrite List.forallb_filter_id; [by rewrite Hlen|]. apply forallb_forall. intros w Hin.
    apply list_elem_of_In, list_elem_of_lookup in Hin as [j Hj]. unfold occupied.
    apply negb_true_iff, Z.eqb_neq, (Hfull j w Hj).
Qed.

Definition demo_register : list waiter := mk_waiter 11 4096 5 :: replicate 63 (mk_waiter 0 0 0).

Lemma orbis_umtx_waiter_register_witness :
  length demo_register = ORBIS_UMTX_WAITERS /\
  orbis_umtx_waiter_count demo_register = 1 /\ orbis_umtx_waiter_at demo_register 0 0 = Some (11, 4096, 5).
Proof.
  split; [reflexivity|].
  destruct (orbis_umtx_waiter_register demo_register 12 8192 6 0 eq_refl ltac:(lia)) as (H1 & H2 & _).
  split; [exact H1|exact H2].
Defined.
