(* ===== verification/Umtx.v ===== *)
(** [_umtx_op] of [include/sys/umtx.h]: a futex made of a table of mutexes and
    condition variables.  The threads of a process are a step relation: one
    step per access to what they share, the two stores that describe a waiter
    being one step.  [pthread_once] has run [orbis_umtx_init], and the deadline
    a timed wait is given is in [UmtxTime]: here it may expire at any time. *)
From stdpp Require Import prelude gmap list numbers relations functions.
From S2P Require Import Prelude Memory UmtxTime.
Open Scope Z_scope.

Module Umtx.

Inductive umtx_errno := EWOULDBLOCK | ETIMEDOUT | ENOSYS | OtherError.

(** A wait: the word's address, the expected value, and whether [uaddr2] gives
    a deadline. *)
Record call := mk_call { c_addr : Z; c_val : Z; c_timed : bool }.

(** Where a thread is in [_umtx_op].  [Owes a]: its client has changed the
    word at [a] and is going to wake the waiters. *)
Inductive pc :=
  | Client
  | Owes (a : Z)
  | Wait_lock (c : call)
  | Wait_locked (c : call)
  | Wait_claim (c : call) (i : nat)
  | Wait_fill (c : call) (i : nat)
  | Wait_enter (c : call) (reg : option nat)
  | Asleep (c : call) (reg : option nat)
  | Woken (c : call) (reg : option nat) (ret : option umtx_errno)
  | Wait_release (c : call) (reg : option nat) (ret : option umtx_errno)
  | Wait_unlock (c : call) (ret : option umtx_errno)
  | Wake_lock (a : Z)
  | Wake_locked (a : Z)
  | Wake_unlock (a : Z)
  | Returned (ret : Z) (err : option umtx_errno).

(** [orbis_umtx_n_wait], [_timedwait], [_timeout], [_lock]. *)
Record counters := mk_counters { n_wait : Z; n_timedwait : Z; n_timeout : Z; n_lock : Z }.

Definition bump_wait n := mk_counters (u64 (n_wait n + 1)) (n_timedwait n) (n_timeout n) (n_lock n).
Definition bump_timedwait n := mk_counters (n_wait n) (u64 (n_timedwait n + 1)) (n_timeout n) (n_lock n).
Definition bump_timeout n := mk_counters (n_wait n) (n_timedwait n) (u64 (n_timeout n + 1)) (n_lock n).
Definition bump_lock n := mk_counters (n_wait n) (n_timedwait n) (n_timeout n) (u64 (n_lock n + 1)).

Definition orbis_umtx_stats (n : counters) : Z * Z * Z * Z :=
  (n_wait n, n_timedwait n, n_timeout n, n_lock n).

(** The words, the mutex of each bucket, the register, the counters and the
    threads; [quiet a] is a ghost: the last store to [a] was made by a client
    that does not wake. *)
Record world := mk_world {
  words : Z -> Z;
  locked : Z -> option nat;
  waiters : list waiter;
  stats : counters;
  pcs : nat -> pc;
  quiet : Z -> bool }.

Definition initial (w0 : Z -> Z) : world :=
  mk_world w0 (fun _ => None) (replicate ORBIS_UMTX_WAITERS (mk_waiter 0 0 0)) (mk_counters 0 0 0 0)
    (fun _ => Client) (fun _ => false).

(** [pthread_cond_broadcast] on a bucket by thread [t]. *)
Definition wake_bucket (b : Z) (p : pc) : pc :=
  match p with
  | Asleep c reg => if orbis_umtx_bucket_for (c_addr c) =? b then Woken c reg None else p
  | _ => p
  end.

Definition umtx_broadcast (t : nat) (a : Z) (p : nat -> pc) : nat -> pc :=
  fun u => if decide (u = t) then Wake_unlock a else wake_bucket (orbis_umtx_bucket_for a) (p u).

Definition is_timeout (c : call) (ret : option umtx_errno) : bool :=
  c_timed c && match ret with Some ETIMEDOUT => true | _ => false end.

Abbreviation bucket c := (orbis_umtx_bucket_for (c_addr c)).

(** [self t] is [pthread_self] of thread [t]. *)
Inductive step (self : nat -> Z) : world -> world -> Prop :=
  (* the client *)
  | step_store t a x wakes m l ws n p q :
      p t = Client ->
      step self (mk_world m l ws n p q)
        (mk_world (<[a := u32 x]> m) l ws n (<[t := if wakes : bool then Owes a else Client]> p)
           (<[a := negb wakes]> q))
  | step_return t r e m l ws n p q :
      p t = Returned r e ->
      step self (mk_world m l ws n p q) (mk_world m l ws n (<[t := Client]> p) q)
  | step_other_op t m l ws n p q :
      p t = Client ->
      step self (mk_world m l ws n p q) (mk_world m l ws n (<[t := Returned (-1) (Some ENOSYS)]> p) q)
  (* UMTX_OP_WAIT *)
  | step_wait t c m l ws n p q :
      p t = Client ->
      step self (mk_world m l ws n p q)
        (mk_world m l ws (bump_lock (bump_wait n)) (<[t := Wait_lock c]> p) q)
  | step_wait_lock t c m l ws n p q :
      p t = Wait_lock c -> l (bucket c) = None ->
      step self (mk_world m l ws n p q)
        (mk_world m (<[bucket c := Some t]> l) ws n (<[t := Wait_locked c]> p) q)
  | step_differs t c m l ws n p q :
      p t = Wait_locked c -> m (c_addr c) <> u32 (c_val c) ->
      step self (mk_world m l ws n p q)
        (mk_world m (<[bucket c := None]> l) ws n (<[t := Returned (-1) (Some EWOULDBLOCK)]> p) q)
  | step_equal t c m l ws n p q :
      p t = Wait_locked c -> m (c_addr c) = u32 (c_val c) ->
      step self (mk_world m l ws n p q) (mk_world m l ws n (<[t := Wait_claim c 0]> p) q)
  | step_cas t c i ok ws' m l ws n p q :
      p t = Wait_claim c i -> (i < ORBIS_UMTX_WAITERS)%nat -> waiter_cas ws i (self t) = (ok, ws') ->
      step self (mk_world m l ws n p q)
        (mk_world m l ws' n (<[t := if ok : bool then Wait_fill c i else Wait_claim c (S i)]> p) q)
  | step_no_slot t c m l ws n p q :
      p t = Wait_claim c ORBIS_UMTX_WAITERS ->
      step self (mk_world m l ws n p q) (mk_world m l ws n (<[t := Wait_enter c None]> p) q)
  | step_fill t c i now m l ws n p q :
      p t = Wait_fill c i ->
      step self (mk_world m l ws n p q)
        (mk_world m l (waiter_fill ws i (c_addr c) now) n (<[t := Wait_enter c (Some i)]> p) q)
  | step_sleep t c reg m l ws n p q :
      p t = Wait_enter c reg ->
      step self (mk_world m l ws n p q)
        (mk_world m (<[bucket c := None]> l) ws (if c_timed c then bump_timedwait n else n)
           (<[t := Asleep c reg]> p) q)
  | step_wait_refused t c reg e m l ws n p q :
      p t = Wait_enter c reg ->
      step self (mk_world m l ws n p q)
        (mk_world m l ws
           (let n := if c_timed c then bump_timedwait n else n in
            if is_timeout c (Some e) then bump_timeout n else n)
           (<[t := Wait_release c reg (Some e)]> p) q)
  | step_wake_up t c reg ret m l ws n p q :
      p t = Asleep c reg -> ret = None \/ (c_timed c = true /\ ret = Some ETIMEDOUT) ->
      step self (mk_world m l ws n p q) (mk_world m l ws n (<[t := Woken c reg ret]> p) q)
  | step_relock t c reg ret m l ws n p q :
      p t = Woken c reg ret -> l (bucket c) = None ->
      step self (mk_world m l ws n p q)
        (mk_world m (<[bucket c := Some t]> l) ws (if is_timeout c ret then bump_timeout n else n)
           (<[t := Wait_release c reg ret]> p) q)
  | step_release t c reg ret m l ws n p q :
      p t = Wait_release c reg ret ->
      step self (mk_world m l ws n p q)
        (mk_world m l (orbis_umtx_waiter_release ws reg) n (<[t := Wait_unlock c ret]> p) q)
  | step_wait_unlock t c ret m l ws n p q :
      p t = Wait_unlock c ret ->
      step self (mk_world m l ws n p q)
        (mk_world m (<[bucket c := None]> l) ws n
           (<[t := match ret with None => Returned 0 None | Some e => Returned (-1) (Some e) end]> p) q)
  (* UMTX_OP_WAKE *)
  | step_wake t a m l ws n p q :
      p t = Client \/ p t = Owes a ->
      step self (mk_world m l ws n p q) (mk_world m l ws (bump_lock n) (<[t := Wake_lock a]> p) q)
  | step_wake_lock t a m l ws n p q :
      p t = Wake_lock a -> l (orbis_umtx_bucket_for a) = None ->
      step self (mk_world m l ws n p q)
        (mk_world m (<[orbis_umtx_bucket_for a := Some t]> l) ws n (<[t := Wake_locked a]> p) q)
  | step_broadcast t a m l ws n p q :
      p t = Wake_locked a ->
      step self (mk_world m l ws n p q) (mk_world m l ws n (umtx_broadcast t a p) q)
  | step_wake_unlock t a m l ws n p q :
      p t = Wake_unlock a ->
      step self (mk_world m l ws n p q)
        (mk_world m (<[orbis_umtx_bucket_for a := None]> l) ws n (<[t := Returned 0 None]> p) q).

End Umtx.
Export Umtx.

(** ** Invariants *)

(** The bucket whose mutex a thread holds. *)
Definition holding (p : pc) : option Z :=
  match p with
  | Wait_locked c | Wait_claim c _ | Wait_fill c _ | Wait_enter c _ | Wait_release c _ _ | Wait_unlock c _ =>
      Some (bucket c)
  | Wake_locked a | Wake_unlock a => Some (orbis_umtx_bucket_for a)
  | _ => None
  end.

(** A thread that has compared the word and will sleep, or sleeps. *)
Definition committed (p : pc) : option call :=
  match p with
  | Wait_claim c _ | Wait_fill c _ | Wait_enter c _ | Asleep c _ => Some c
  | _ => None
  end.

(** A thread whose wake of [a] is still to come. *)
Definition waking (p : pc) : option Z :=
  match p with Owes a | Wake_lock a | Wake_locked a => Some a | _ => None end.

(** The slot of the register a thread has, and the wait written there. *)
Definition slot (p : pc) : option nat :=
  match p with
  | Wait_fill _ i => Some i
  | Wait_enter _ reg | Asleep _ reg | Woken _ reg _ | Wait_release _ reg _ => reg
  | _ => None
  end.

Definition named (p : pc) : option (call * nat) :=
  match p with
  | Wait_enter c (Some i) | Asleep c (Some i) | Woken c (Some i) _ | Wait_release c (Some i) _ => Some (c, i)
  | _ => None
  end.

Definition mutex_inv (w : world) : Prop :=
  forall t b, holding (pcs w t) = Some b <-> locked w b = Some t.

Definition wake_inv (w : world) : Prop :=
  forall t c, committed (pcs w t) = Some c ->
    words w (c_addr c) = u32 (c_val c) \/ quiet w (c_addr c) = true \/
    exists u, waking (pcs w u) = Some (c_addr c).

Record register_inv (self : nat -> Z) (w : world) : Prop := {
  ri_length : length (waiters w) = ORBIS_UMTX_WAITERS;
  ri_mine t i : slot (pcs w t) = Some i -> exists x, waiters w !! i = Some x /\ w_thread x = self t;
  ri_taken i x : waiters w !! i = Some x -> w_thread x <> 0 -> exists t, slot (pcs w t) = Some i;
  ri_one t u i : slot (pcs w t) = Some i -> slot (pcs w u) = Some i -> t = u;
  ri_named t c i : named (pcs w t) = Some (c, i) ->
    exists x, waiters w !! i = Some x /\ w_addr x = c_addr c }.

(** Case analysis on which thread, or address, a function was changed at. *)
Ltac at_insert :=
  repeat match goal with
  | H : context [<[?x := _]> _ ?y] |- _ =>
      first [rewrite (fn_lookup_insert _ x) in H
            |destruct (decide (x = y)) as [<-|]; [rewrite fn_lookup_insert in H|rewrite fn_lookup_insert_ne in H by done]]
  | |- context [<[?x := _]> _ ?y] =>
      first [rewrite (fn_lookup_insert _ x)
            |destruct (decide (x = y)) as [<-|]; [rewrite fn_lookup_insert|rewrite fn_lookup_insert_ne by done]]
  end.

Lemma holding_wake b p : holding (wake_bucket b p) = holding p.
Proof. destruct p; cbn; try done. by destruct (_ =? _). Qed.

Lemma slot_wake b p : slot (wake_bucket b p) = slot p.
Proof. destruct p; cbn; try done. by destruct (_ =? _). Qed.

Lemma named_wake b p : named (wake_bucket b p) = named p.
Proof. destruct p as [| | | | | | |c [i|]| | | | | | |]; cbn; try done; by destruct (_ =? _). Qed.

Lemma waking_wake b p : waking (wake_bucket b p) = waking p.
Proof. destruct p; cbn; try done. by destruct (_ =? _). Qed.

(** The mutexes, move by move. *)
Lemma mutex_move (l : Z -> option nat) (p : nat -> pc) t P l' :
  (forall u b, holding (p u) = Some b <-> l b = Some u) ->
  (holding P = holding (p t) /\ l' = l \/
   (exists b, holding (p t) = None /\ holding P = Some b /\ l b = None /\ l' = <[b := Some t]> l) \/
   (exists b, holding (p t) = Some b /\ holding P = None /\ l' = <[b := None]> l)) ->
  forall u b, holding (<[t := P]> p u) = Some b <-> l' b = Some u.
Proof.
  intros H Hm u b. pose proof (H t) as Ht. pose proof (H u b) as Hu.
  destruct Hm as [[Hp ->]|[(b' & Hp & HP & Hl & ->)|(b' & Hp & HP & ->)]].
  - destruct (decide (t = u)) as [<-|]; [by rewrite fn_lookup_insert, Hp|by rewrite fn_lookup_insert_ne].
  - pose proof (Ht b'). pose proof (H u b').
    destruct (decide (t = u)) as [<-|]; [rewrite fn_lookup_insert, HP|rewrite fn_lookup_insert_ne by done];
      (destruct (decide (b' = b)) as [<-|]; [rewrite fn_lookup_insert|rewrite fn_lookup_insert_ne by done]);
      naive_solver.
  - pose proof (Ht b'). pose proof (Ht b). pose proof (H u b').
    destruct (decide (t = u)) as [<-|]; [rewrite fn_lookup_insert, HP|rewrite fn_lookup_insert_ne by done];
      (destruct (decide (b' = b)) as [<-|]; [rewrite fn_lookup_insert|rewrite fn_lookup_insert_ne by done]);
      naive_solver.
Qed.

Lemma mutex_broadcast (l : Z -> option nat) (p : nat -> pc) t a :
  (forall u b, holding (p u) = Some b <-> l b = Some u) -> p t = Wake_locked a ->
  forall u b, holding (umtx_broadcast t a p u) = Some b <-> l b = Some u.
Proof.
  intros H Hp u b. unfold umtx_broadcast. case_decide as Hu; [|by rewrite holding_wake].
  rewrite <- H, Hu, Hp. done.
Qed.

Lemma step_mutex self w w' : step self w w' -> mutex_inv w -> mutex_inv w'.
Proof.
  intros Hs H. unfold mutex_inv in *.
  destruct Hs as [t ? ? ? ? ? ? ? ? ?|t|t|t|t|t|t|t ? ? ok|t|t|t|t|t|t|t|t ? ret|t ? ? ? ? ? ? ? [Hp|Hp]|t|t|t];
    cbn [pcs locked] in *; try (by eapply mutex_broadcast);
    (eapply (mutex_move _ _ t); [exact H|]);
    match goal with Hp : _ t = _ |- _ => rewrite Hp end; cbn [holding].
  all: try (left; split; reflexivity).
  all: try (right; left; eexists; split_and!; [reflexivity|reflexivity|assumption|reflexivity]).
  all: try (right; right; eexists; split_and!; [reflexivity|reflexivity|reflexivity]).
  - left. by destruct wakes.
  - left. by destruct ok.
  - right; right; eexists; split_and!; [reflexivity|by destruct ret|reflexivity].
Qed.

(** The wakeups, move by move: a thread goes from one place to another and
    nothing is stored. *)
Lemma wake_move (m : Z -> Z) (q : Z -> bool) (p : nat -> pc) t P :
  (forall u c, committed (p u) = Some c ->
     m (c_addr c) = u32 (c_val c) \/ q (c_addr c) = true \/ exists v, waking (p v) = Some (c_addr c)) ->
  (forall c, committed P = Some c -> committed (p t) = Some c \/ m (c_addr c) = u32 (c_val c)) ->
  (waking P = waking (p t) \/ waking (p t) = None) ->
  forall u c, committed (<[t := P]> p u) = Some c ->
    m (c_addr c) = u32 (c_val c) \/ q (c_addr c) = true \/ exists v, waking (<[t := P]> p v) = Some (c_addr c).
Proof.
  intros H HP Hw u c Hc.
  assert (Hk : forall a, (exists v, waking (p v) = Some a) -> exists v, waking (<[t := P]> p v) = Some a).
  { intros a [v Hv]. exists v. destruct (decide (t = v)) as [<-|]; [|by rewrite fn_lookup_insert_ne].
    rewrite fn_lookup_insert. destruct Hw as [->|Hw]; [done|congruence]. }
  destruct (decide (t = u)) as [<-|]; [rewrite fn_lookup_insert in Hc|rewrite fn_lookup_insert_ne in Hc by done].
  - destruct (HP c Hc) as [Hc'|]; [|by left]. destruct (H t c Hc') as [|[|]]; auto.
  - destruct (H u c Hc) as [|[|]]; auto.
Qed.

(** A store that is followed by a wake leaves its thread owing it. *)
Lemma wake_store (m : Z -> Z) (q : Z -> bool) (p : nat -> pc) t a x (wakes : bool) :
  p t = Client ->
  (forall u c, committed (p u) = Some c ->
     m (c_addr c) = u32 (c_val c) \/ q (c_addr c) = true \/ exists v, waking (p v) = Some (c_addr c)) ->
  let p' := <[t := if wakes then Owes a else Client]> p in
  forall u c, committed (p' u) = Some c ->
    <[a := x]> m (c_addr c) = u32 (c_val c) \/ <[a := negb wakes]> q (c_addr c) = true \/
    exists v, waking (p' v) = Some (c_addr c).
Proof.
  intros Hp H p' u c Hc. subst p'.
  destruct (decide (t = u)) as [<-|Hu]; [rewrite fn_lookup_insert in Hc; by destruct wakes|].
  rewrite fn_lookup_insert_ne in Hc by done. destruct (decide (a = c_addr c)) as [->|Ha].
  - rewrite !(fn_lookup_insert _ (c_addr c)). destruct wakes; [|auto].
    right; right. exists t. by rewrite fn_lookup_insert.
  - rewrite !(fn_lookup_insert_ne _ a) by done. destruct (H u c Hc) as [|[|[v Hv]]]; auto.
    right; right. exists v. rewrite fn_lookup_insert_ne; [done|]. intros <-. by rewrite Hp in Hv.
Qed.

(** A broadcast leaves no thread asleep in its bucket, and under the bucket's
    mutex no other thread there is on its way to sleep. *)
Lemma committed_after_broadcast t a (p : nat -> pc) u c (l : Z -> option nat) :
  (forall u b, holding (p u) = Some b <-> l b = Some u) -> p t = Wake_locked a ->
  committed (umtx_broadcast t a p u) = Some c ->
  committed (p u) = Some c /\ bucket c <> orbis_umtx_bucket_for a.
Proof.
  intros Hl Hp Hc. unfold umtx_broadcast in Hc. case_decide as Hu; [done|].
  assert (Hh : holding (p u) = Some (orbis_umtx_bucket_for a) -> False).
  { intros Hh. apply Hu. apply Hl in Hh. assert (l (orbis_umtx_bucket_for a) = Some t) by (apply Hl; by rewrite Hp).
    congruence. }
  destruct (p u) eqn:Hpu; cbn in Hc, Hh |- *; try done; try (injection Hc as ->; split; [done|]; intros He; apply Hh; by rewrite He).
  destruct (Z.eqb_spec (bucket c0) (orbis_umtx_bucket_for a)); cbn in Hc; [done|]. injection Hc as ->. done.
Qed.

Lemma step_wakeups self w w' : step self w w' -> mutex_inv w -> wake_inv w -> wake_inv w'.
Proof.
  intros Hs Hl H. unfold mutex_inv, wake_inv in *.
  destruct Hs as [t a x wakes ? ? ? ? ? ? Hp|t|t|t|t|t|t|t ? ? ok|t|t|t|t|t|t|t|t ? ret|t ? ? ? ? ? ? ? [Hp|Hp]
    |t|t a m l ws n p q Hp|t];
    cbn [pcs locked words quiet] in *; try (by apply wake_store);
    try (apply wake_move; [exact H| |]; match goal with Hp : _ t = _ |- _ => rewrite Hp end; cbn [committed waking]).
  all: try (by auto). all: try (by intros ? [= <-]; auto).
  - destruct ok; cbn; auto.
  - by destruct ret.
  - intros u c Hc. destruct (committed_after_broadcast t a p u c l Hl Hp Hc) as [Hc' Hb].
    destruct (H u c Hc') as [|[|[v Hv]]]; [by left|right; by left|right; right].
    exists v. unfold umtx_broadcast. rewrite decide_False; [by rewrite waking_wake|].
    intros ->. rewrite Hp in Hv. injection Hv as ->. done.
Qed.

(** The register, move by move. *)
Lemma register_move self m l ws n p q m' l' n' q' t P :
  register_inv self (mk_world m l ws n p q) ->
  slot P = slot (p t) -> (forall c i, named P = Some (c, i) -> named (p t) = Some (c, i)) ->
  register_inv self (mk_world m' l' ws n' (<[t := P]> p) q').
Proof.
  intros [H1 H2 H3 H4 H5] HP HN. cbn [waiters pcs] in *.
  assert (Hs : forall u, slot (<[t := P]> p u) = slot (p u)).
  { intros u. destruct (decide (t = u)) as [<-|]; [by rewrite fn_lookup_insert|by rewrite fn_lookup_insert_ne]. }
  constructor; cbn [waiters pcs]; [done|..].
  - intros u i. rewrite Hs. apply H2.
  - intros i x Hx Hnz. destruct (H3 i x Hx Hnz) as [u Hu]. exists u. by rewrite Hs.
  - intros u v i. rewrite !Hs. apply H4.
  - intros u c i Hu. destruct (decide (t = u)) as [<-|].
    + rewrite fn_lookup_insert in Hu. by apply (H5 t), HN.
    + rewrite fn_lookup_insert_ne in Hu by done. by apply (H5 u).
Qed.

(** A slot written by the only thread that has it. *)
Lemma register_write self m l ws n p q t P i x :
  register_inv self (mk_world m l ws n p q) ->
  (slot (p t) = Some i \/ slot (p t) = None /\ exists y, ws !! i = Some y /\ w_thread y = 0) ->
  is_Some (ws !! i) ->
  (slot P = Some i /\ w_thread x = self t \/ slot P = None /\ w_thread x = 0) ->
  self t <> 0 -> (forall u, self u <> 0) ->
  (forall c j, named P = Some (c, j) -> j = i /\ w_addr x = c_addr c) ->
  register_inv self (mk_world m l (<[i := x]> ws) n (<[t := P]> p) q).
Proof.
  intros [H1 H2 H3 H4 H5] Ht Hi HP Hself Hall HN. cbn [waiters pcs] in *.
  assert (Hi' : (i < length ws)%nat) by by apply lookup_lt_is_Some_1.
  assert (Hother : forall u, u <> t -> slot (p u) <> Some i).
  { intros u Hu Hs. destruct Ht as [Ht|(Ht & y & Hy & H0)]; [by apply Hu, (H4 u t i)|].
    destruct (H2 u i Hs) as (z & Hz & Hzs). apply (Hall u). congruence. }
  constructor; cbn [waiters pcs].
  - by rewrite length_insert.
  - intros u j Hj. destruct (decide (t = u)) as [<-|Hu].
    + rewrite fn_lookup_insert in Hj. destruct HP as [[HP Hx]|[HP _]]; [|congruence].
      rewrite HP in Hj. injection Hj as <-. exists x. by rewrite list_lookup_insert_eq.
    + rewrite fn_lookup_insert_ne in Hj by done. rewrite list_lookup_insert_ne; [by apply H2|].
      intros <-. by apply (Hother u).
  - intros j y Hy Hnz. destruct (decide (i = j)) as [<-|Hj].
    + rewrite list_lookup_insert_eq in Hy by done. injection Hy as <-. exists t. rewrite fn_lookup_insert.
      by destruct HP as [[? _]|[_ ?]].
    + rewrite list_lookup_insert_ne in Hy by done. destruct (H3 j y Hy Hnz) as [u Hu]. exists u.
      rewrite fn_lookup_insert_ne; [done|]. intros <-. destruct Ht as [Ht|[Ht _]]; congruence.
  - intros u v j. destruct (decide (t = u)) as [<-|Hu], (decide (t = v)) as [<-|Hv]; [done|..];
      rewrite ?fn_lookup_insert, ?(fn_lookup_insert_ne p t) by done; intros Hj Hk.
    + destruct HP as [[HP _]|[HP _]]; [|congruence]. exfalso. apply (Hother v); congruence.
    + destruct HP as [[HP _]|[HP _]]; [|congruence]. exfalso. apply (Hother u); congruence.
    + by apply (H4 u v j).
  - intros u c j Hu. destruct (decide (t = u)) as [<-|Hne].
    + rewrite fn_lookup_insert in Hu. destruct (HN c j Hu) as [-> Hx]. exists x. by rewrite list_lookup_insert_eq.
    + rewrite fn_lookup_insert_ne in Hu by done. destruct (H5 u c j Hu) as (y & Hy & Hya).
      rewrite list_lookup_insert_ne; [by exists y|]. intros <-. apply (Hother u); [done|].
      destruct (p u) as [| | | | | | c' [k|]|c' [k|]|c' [k|]|c' [k|]| | | | |]; cbn in Hu |- *; congruence.
Qed.

Lemma register_broadcast self m l ws n p q t a :
  register_inv self (mk_world m l ws n p q) -> p t = Wake_locked a ->
  register_inv self (mk_world m l ws n (umtx_broadcast t a p) q).
Proof.
  intros [H1 H2 H3 H4 H5] Hp. cbn [waiters pcs] in *.
  assert (Hs : forall u, slot (umtx_broadcast t a p u) = slot (p u)).
  { intros u. unfold umtx_broadcast. case_decide as Hu; [by rewrite Hu, Hp|apply slot_wake]. }
  assert (Hn : forall u, named (umtx_broadcast t a p u) = named (p u)).
  { intros u. unfold umtx_broadcast. case_decide as Hu; [by rewrite Hu, Hp|apply named_wake]. }
  constructor; cbn [waiters pcs]; [done|..].
  - intros u i. rewrite Hs. apply H2.
  - intros i x Hx Hnz. destruct (H3 i x Hx Hnz) as [u Hu]. exists u. by rewrite Hs.
  - intros u v i. rewrite !Hs. apply H4.
  - intros u c i. rewrite Hn. apply H5.
Qed.

Lemma step_register self w w' :
  (forall t, self t <> 0) -> step self w w' -> register_inv self w -> register_inv self w'.
Proof.
  intros Hself Hs H.
  destruct Hs as [t a x wakes ? ? ? ? ? ? Hp|t|t|t|t|t|t|t c i ok ws' m l ws n p q Hp Hi Hc|t|t c i now m l ws n p q Hp
    |t|t|t|t|t c reg ret m l ws n p q Hp|t c ret ? ? ? ? ? ? Hp|t ? ? ? ? ? ? ? [Hp|Hp]|t|t a m l ws n p q Hp|t];
    try (eapply (register_move _ _ _ _ _ _ _ _ _ _ _ t); [exact H| |];
      (match goal with Hp : _ t = _ |- _ => rewrite Hp end);
      cbn [slot named]; first [by destruct wakes|by destruct ret|done|idtac]).
  - unfold waiter_cas in Hc. destruct (ws !! i) as [y|] eqn:Hy.
    2: { injection Hc as <- <-. by eapply (register_move _ _ _ _ _ _ _ _ _ _ _ t); [exact H|rewrite Hp..]. }
    destruct (Z.eqb_spec (w_thread y) 0); injection Hc as <- <-.
    + eapply register_write; [exact H|right; split; [by rewrite Hp|by exists y]|by exists y|by left|done|done|done].
    + by eapply (register_move _ _ _ _ _ _ _ _ _ _ _ t); [exact H|rewrite Hp..].
  - destruct (ri_mine _ _ H t i) as (y & Hy & Hys); cbn [pcs waiters] in *; [by rewrite Hp|].
    unfold waiter_fill. rewrite Hy.
    eapply register_write; [exact H|left; by rewrite Hp|by exists y|by left|done|done|].
    by intros c' j [= <- <-].
  - destruct reg as [i|].
    2: { eapply (register_move _ _ _ _ _ _ _ _ _ _ _ t); [exact H|by rewrite Hp|done]. }
    destruct (ri_mine _ _ H t i) as (y & Hy & Hys); cbn [pcs waiters] in *; [by rewrite Hp|].
    rewrite (release_ok _ _ _ Hy).
    eapply register_write; [exact H|left; by rewrite Hp|by exists y|by right|done|done|done].
  - by eapply register_broadcast.
Qed.

(** ** Runs *)

Lemma umtx_initial_inv self w0 :
  mutex_inv (initial w0) /\ wake_inv (initial w0) /\ register_inv self (initial w0).
Proof.
  split; [by intros t b|]. split; [by intros t c|]. constructor; cbn [initial waiters pcs slot named]; try done.
  intros i x Hx Hnz. apply lookup_replicate in Hx as [-> _]. done.
Qed.

Lemma umtx_run_inv self w0 w :
  (forall t, self t <> 0) -> rtc (step self) (initial w0) w ->
  mutex_inv w /\ wake_inv w /\ register_inv self w.
Proof.
  intros Hself Hr. pose proof (umtx_initial_inv self w0) as H. revert H.
  induction Hr as [w|w1 w2 w3 Hs _ IH]; [done|]. intros (H1 & H2 & H3). apply IH. split_and!.
  - by eapply step_mutex.
  - by eapply step_wakeups.
  - by eapply step_register.
Qed.

(** C9: no wakeup is lost, under any interleaving.  A thread that has compared
    the word and is going to sleep, or sleeps, still finds the value it
    expected there, or some thread has changed the word and its wake is still
    to come, or the last change was made by a client that wakes nobody.  A
    broadcast leaves no thread asleep on any word of its bucket, so the wake
    that comes reaches everyone; and the comparison is made under the bucket's
    mutex, which one thread holds at a time. *)
Theorem umtx_no_lost_wakeup self w0 w
  (Hself : forall t, self t <> 0) (Hrun : rtc (step self) (initial w0) w) :
  (forall t c, committed (pcs w t) = Some c ->
     words w (c_addr c) = u32 (c_val c) \/ quiet w (c_addr c) = true \/
     exists u, waking (pcs w u) = Some (c_addr c)) /\
  (forall t a u c reg, pcs w t = Wake_locked a -> umtx_broadcast t a (pcs w) u = Asleep c reg ->
     bucket c <> orbis_umtx_bucket_for a) /\
  (forall t u b, holding (pcs w t) = Some b -> holding (pcs w u) = Some b -> t = u).
Proof.
  destruct (umtx_run_inv self w0 w Hself Hrun) as (H1 & H2 & _). split; [exact H2|]. split.
  - intros t a u c reg Hp Hu.
    apply (committed_after_broadcast t a (pcs w) u c (locked w) H1 Hp). by rewrite Hu.
  - intros t u b Ht Hu. apply H1 in Ht. apply H1 in Hu. congruence.
Qed.

(** The register never lies: a slot is occupied exactly while the wait it
    describes is between its claim and its release, with that thread and, once
    filled, that word; no two waits share a slot; and when no thread is inside
    a wait the register is empty. *)
Theorem umtx_register_exact self w0 w
  (Hself : forall t, self t <> 0) (Hrun : rtc (step self) (initial w0) w) :
  (forall i x, waiters w !! i = Some x -> w_thread x <> 0 ->
     exists t, slot (pcs w t) = Some i /\ w_thread x = self t) /\
  (forall t i, slot (pcs w t) = Some i -> exists x, waiters w !! i = Some x /\ w_thread x = self t) /\
  (forall t c i, named (pcs w t) = Some (c, i) -> exists x, waiters w !! i = Some x /\ w_addr x = c_addr c) /\
  (forall t u i, slot (pcs w t) = Some i -> slot (pcs w u) = Some i -> t = u) /\
  ((forall t, slot (pcs w t) = None) -> orbis_umtx_waiter_count (waiters w) = 0).
Proof.
  destruct (umtx_run_inv self w0 w Hself Hrun) as (_ & _ & [H1 H2 H3 H4 H5]). split_and!; try done.
  - intros i x Hx Hnz. destruct (H3 i x Hx Hnz) as [t Ht]. exists t. split; [done|].
    destruct (H2 t i Ht) as (y & Hy & <-). congruence.
  - intros Hall. rewrite waiter_count_ok. unfold sleepers.
    assert (Hnone : forall x, In x (waiters w) -> occupied x = false).
    { intros x Hx. apply list_elem_of_In, list_elem_of_lookup in Hx as [i Hi]. unfold occupied.
      apply negb_false_iff, Z.eqb_eq. destruct (decide (w_thread x = 0)) as [|Hnz]; [done|].
      destruct (H3 i x Hi Hnz) as [t Ht]. congruence. }
    clear - Hnone. induction (waiters w) as [|x xs IH]; [done|]. cbn [List.filter].
    rewrite (Hnone x) by (by left). apply IH. intros y Hy. apply Hnone. by right.
Qed.

(** Thread 0 sleeps until the word at 4096 is not 0; thread 1 has set it to 1
    and owes the wake. *)
Definition demo_tid (t : nat) : Z := Z.of_nat t + 1.

Lemma demo_tid_nonzero t : demo_tid t <> 0.
Proof. unfold demo_tid. lia. Qed.

Definition demo_call : call := mk_call 4096 0 false.

Lemma demo_owed : exists w, rtc (step demo_tid) (initial (fun _ => 0)) w /\
  pcs w 0%nat = Asleep demo_call (Some 0%nat) /\ pcs w 1%nat = Owes 4096 /\
  words w 4096 = 1 /\ quiet w 4096 = false.
Proof.
  eexists. split.
  { eapply rtc_l; [apply (step_wait _ 0 demo_call); reflexivity|].
    eapply rtc_l; [apply (step_wait_lock _ 0 demo_call); reflexivity|].
    eapply rtc_l; [apply (step_equal _ 0 demo_call); reflexivity|].
    eapply rtc_l; [eapply (step_cas _ 0 demo_call 0); [reflexivity|unfold ORBIS_UMTX_WAITERS; lia|reflexivity]|].
    eapply rtc_l; [apply (step_fill _ 0 demo_call 0 77); reflexivity|].
    eapply rtc_l; [apply (step_sleep _ 0 demo_call (Some 0%nat)); reflexivity|].
    eapply rtc_l; [apply (step_store _ 1 4096 1 true); reflexivity|].
    apply rtc_refl. }
  by split_and!.
Qed.

Lemma umtx_no_lost_wakeup_witness :
  exists w, committed (pcs w 0%nat) = Some demo_call /\ words w 4096 <> u32 0 /\ quiet w 4096 = false /\
    exists u, waking (pcs w u) = Some 4096.
Proof.
  destruct demo_owed as (w & Hr & H0 & _ & Hw & Hq). exists w.
  destruct (umtx_no_lost_wakeup demo_tid (fun _ => 0) w demo_tid_nonzero Hr) as (H & _ & _).
  assert (Hc : committed (pcs w 0%nat) = Some demo_call) by (rewrite H0; reflexivity).
  split; [exact Hc|]. split; [rewrite Hw; discriminate|]. split; [exact Hq|].
  destruct (H 0%nat demo_call Hc) as [He|[He|He]]; cbn [demo_call c_addr c_val] in He.
  - rewrite Hw in He. discriminate.
  - congruence.
  - exact He.
Defined.

Lemma umtx_register_exact_witness :
  exists w x, pcs w 0%nat = Asleep demo_call (Some 0%nat) /\
    waiters w !! 0%nat = Some x /\ w_addr x = 4096.
Proof.
  destruct demo_owed as (w & Hr & H0 & _). exists w.
  destruct (umtx_register_exact demo_tid (fun _ => 0) w demo_tid_nonzero Hr) as (_ & _ & Hn & _).
  destruct (Hn 0%nat demo_call 0%nat) as (x & Hx & Ha); [rewrite H0; reflexivity|].
  exists x. split; [exact H0|]. split; [exact Hx|exact Ha].
Defined.
