(* ===== verification/Endian.v ===== *)
(** [include/sys/endian.h]: the unaligned loads and stores in either byte
    order. *)
From stdpp Require Import prelude gmap list numbers.
From S2P Require Import Prelude Memory Utf8Spec.
Open Scope Z_scope.

Module Endian.

Definition be16dec (m : mem) (p : Z) : outcome Z :=
  c0 ← ld m p; c1 ← ld m (p + 1);
  Ok (u16 (Z.lor (Z.shiftl c0 8) c1)).

Definition be32dec (m : mem) (p : Z) : outcome Z :=
  c0 ← ld m p; c1 ← ld m (p + 1); c2 ← ld m (p + 2); c3 ← ld m (p + 3);
  Ok (Z.lor (Z.lor (Z.lor (u32 (Z.shiftl c0 24)) (u32 (Z.shiftl c1 16))) (u32 (Z.shiftl c2 8))) c3).

Definition be64dec (m : mem) (p : Z) : outcome Z :=
  hi ← be32dec m p; lo ← be32dec m (p + 4);
  Ok (Z.lor (u64 (Z.shiftl hi 32)) lo).

Definition le16dec (m : mem) (p : Z) : outcome Z :=
  c1 ← ld m (p + 1); c0 ← ld m p;
  Ok (u16 (Z.lor (Z.shiftl c1 8) c0)).

Definition le32dec (m : mem) (p : Z) : outcome Z :=
  c3 ← ld m (p + 3); c2 ← ld m (p + 2); c1 ← ld m (p + 1); c0 ← ld m p;
  Ok (Z.lor (Z.lor (Z.lor (u32 (Z.shiftl c3 24)) (u32 (Z.shiftl c2 16))) (u32 (Z.shiftl c1 8))) c0).

Definition le64dec (m : mem) (p : Z) : outcome Z :=
  hi ← le32dec m (p + 4); lo ← le32dec m p;
  Ok (Z.lor (u64 (Z.shiftl hi 32)) lo).

(** [(unsigned char)((_v >> k) & 0xff)]. *)
Definition byte_of (v k : Z) : Z := u8 (Z.land (Z.shiftr v k) 0xff).

Definition be16enc (m : mem) (p v : Z) : outcome mem :=
  m ← st m p (byte_of v 8); st m (p + 1) (byte_of v 0).

Definition be32enc (m : mem) (p v : Z) : outcome mem :=
  m ← st m p (byte_of v 24); m ← st m (p + 1) (byte_of v 16);
  m ← st m (p + 2) (byte_of v 8); st m (p + 3) (byte_of v 0).

Definition be64enc (m : mem) (p v : Z) : outcome mem :=
  m ← be32enc m p (u32 (Z.shiftr v 32));
  be32enc m (p + 4) (u32 (Z.land v 0xffffffff)).

Definition le16enc (m : mem) (p v : Z) : outcome mem :=
  m ← st m p (byte_of v 0); st m (p + 1) (byte_of v 8).

Definition le32enc (m : mem) (p v : Z) : outcome mem :=
  m ← st m p (byte_of v 0); m ← st m (p + 1) (byte_of v 8);
  m ← st m (p + 2) (byte_of v 16); st m (p + 3) (byte_of v 24).

Definition le64enc (m : mem) (p v : Z) : outcome mem :=
  m ← le32enc m p (u32 (Z.land v 0xffffffff));
  le32enc m (p + 4) (u32 (Z.shiftr v 32)).

End Endian.
Export Endian.

(** ** Byte orders *)

(** The value of a list of bytes, most significant first; its bytes. *)
Definition be_value (bs : list Z) : Z := fold_left (fun acc b => 256 * acc + b) bs 0.

Definition be_bytes (n : nat) (v : Z) : list Z := rev (le_bytes n v).

Lemma byte_of_div v k : 0 <= k -> byte_of v k = v / 2 ^ k mod 256.
Proof.
  intros Hk. unfold byte_of. change 0xff with (Z.ones 8). rewrite Z.land_ones, Z.shiftr_div_pow2 by lia.
  unfold u8. by rewrite Z.mod_mod.
Qed.

Lemma be_value_app xs ys : be_value (xs ++ ys) = be_value xs * 256 ^ zlen ys + be_value ys.
Proof.
  unfold be_value. rewrite fold_left_app. generalize (fold_left (fun acc b => 256 * acc + b) xs 0) as a.
  assert (H : forall a, fold_left (fun acc b => 256 * acc + b) ys a = a * 256 ^ zlen ys + fold_left (fun acc b => 256 * acc + b) ys 0).
  { induction ys as [|y ys IH]; intros a; cbn [fold_left length]; [change (256 ^ Z.of_nat 0) with 1; lia|].
    rewrite (IH (256 * a + y)), (IH (256 * 0 + y)), Nat2Z.inj_succ, Z.pow_succ_r by lia. lia. }
  apply H.
Qed.

Lemma be_value_bytes n v : 0 <= v < 256 ^ Z.of_nat n -> be_value (be_bytes n v) = v.
Proof.
  unfold be_bytes. revert v. induction n as [|n IH]; intros v Hv.
  - change (256 ^ Z.of_nat 0) with 1 in Hv. assert (v = 0) as -> by lia. done.
  - cbn [le_bytes rev]. rewrite be_value_app, IH.
    + unfold be_value. cbn [length fold_left]. change (256 ^ Z.of_nat 1) with 256. dlia.
    + rewrite Nat2Z.inj_succ, Z.pow_succ_r in Hv by lia. dlia.
Qed.

Lemma be_value_range bs : Forall byte bs -> 0 <= be_value bs < 256 ^ zlen bs.
Proof.
  induction bs as [|b bs IH] using rev_ind; intros H; [done|].
  apply Forall_app in H as [H Hb]. apply List.Forall_cons_iff in Hb as [Hb _]. specialize (IH H).
  rewrite be_value_app, length_app. cbn [length]. replace (Z.of_nat (length bs + 1)) with (Z.succ (zlen bs)) by lia.
  rewrite Z.pow_succ_r by lia. unfold be_value at 2 4. cbn [fold_left]. change (256 ^ Z.of_nat 1) with 256.
  unfold byte in Hb. lia.
Qed.

Lemma le_bytes_byte n v : Forall byte (le_bytes n v).
Proof. revert v. induction n as [|n IH]; intros v; constructor; [unfold byte; dlia|apply IH]. Qed.

(** A big-endian word of four bytes. *)
Lemma join4 a b c d :
  byte a -> byte b -> byte c -> byte d ->
  Z.lor (Z.lor (Z.lor (u32 (Z.shiftl a 24)) (u32 (Z.shiftl b 16))) (u32 (Z.shiftl c 8))) d = be_value [a; b; c; d].
Proof.
  unfold byte. intros. rewrite !Z.shiftl_mul_pow2 by lia. rewrite !u32_small by lia.
  rewrite (lor_prefix (a * 2 ^ 24) (b * 2 ^ 16) 24) by (lia || dlia).
  rewrite (lor_prefix _ (c * 2 ^ 8) 16) by (lia || dlia).
  rewrite (lor_prefix _ d 8) by (lia || dlia). unfold be_value. cbn [fold_left]. lia.
Qed.

Lemma join2 a b : byte a -> byte b -> u16 (Z.lor (Z.shiftl a 8) b) = be_value [a; b].
Proof.
  unfold byte. intros. rewrite Z.shiftl_mul_pow2 by lia. rewrite (lor_prefix _ b 8) by (lia || dlia).
  rewrite u16_small by lia. unfold be_value. cbn [fold_left]. lia.
Qed.

Lemma join8 hi lo :
  length hi = 4%nat -> length lo = 4%nat -> Forall byte hi -> Forall byte lo ->
  Z.lor (u64 (Z.shiftl (be_value hi) 32)) (be_value lo) = be_value (hi ++ lo).
Proof.
  intros Hh Hl Hbh Hbl. pose proof (be_value_range hi Hbh) as H1. pose proof (be_value_range lo Hbl) as H2.
  rewrite Hh in H1. rewrite Hl in H2. change (256 ^ Z.of_nat 4) with (2 ^ 32) in *.
  rewrite Z.shiftl_mul_pow2, u64_small by lia. rewrite lor_low_add by lia.
  rewrite be_value_app, Hl. done.
Qed.

(** ** The loads *)

Lemma dec2 m p a b :
  byte a -> byte b -> array m p [a; b] ->
  be16dec m p = Ok (be_value [a; b]) /\ le16dec m p = Ok (be_value [b; a]).
Proof.
  intros Ha Hb H. apply array_cons in H as [H0 H]. apply array_cons in H as [H1 _].
  unfold be16dec, le16dec. rewrite (ld_ok _ _ _ H0), (ld_ok _ _ _ H1), !bind_ok, !join2 by done. done.
Qed.

Lemma dec4 m p a b c d :
  byte a -> byte b -> byte c -> byte d -> array m p [a; b; c; d] ->
  be32dec m p = Ok (be_value [a; b; c; d]) /\ le32dec m p = Ok (be_value [d; c; b; a]).
Proof.
  intros Ha Hb Hc Hd H. do 4 (apply array_cons in H as [?H H]).
  replace (p + 1 + 1) with (p + 2) in * by lia. replace (p + 2 + 1) with (p + 3) in * by lia.
  unfold be32dec, le32dec.
  rewrite (ld_ok _ _ _ H0), (ld_ok _ _ _ H1), (ld_ok _ _ _ H2), (ld_ok _ _ _ H3), !bind_ok, !join4 by done. done.
Qed.

Lemma dec8 m p hi lo :
  length hi = 4%nat -> length lo = 4%nat -> Forall byte hi -> Forall byte lo -> array m p (hi ++ lo) ->
  be64dec m p = Ok (be_value (hi ++ lo)) /\ le64dec m p = Ok (be_value (rev (hi ++ lo))).
Proof.
  intros Hh Hl Hbh Hbl H. apply array_app in H as [H1 H2]. rewrite Hh in H2.
  destruct hi as [|a [|b [|c [|d [|]]]]], lo as [|a' [|b' [|c' [|d' [|]]]]]; try done.
  pose proof Hbh as Hb1. pose proof Hbl as Hb2. rewrite !List.Forall_cons_iff in Hb1, Hb2. destruct_and!.
  destruct (dec4 m p a b c d) as [E1 E2]; [done..|]. destruct (dec4 m (p + Z.of_nat 4) a' b' c' d') as [E3 E4]; [done..|].
  change (Z.of_nat 4) with 4 in *. unfold be64dec, le64dec. rewrite E1, E2, E3, E4, !bind_ok.
  rewrite (join8 [a; b; c; d] [a'; b'; c'; d']) by done.
  by rewrite (join8 [d'; c'; b'; a'] [d; c; b; a]) by first [done|repeat (apply Forall_cons_2; [done|]); apply Forall_nil_2].
Qed.

(** ** The stores *)

Lemma store_step m p n v : mapped m p (Z.of_nat (S n)) ->
  st m p v = Ok (<[p := v]> m) /\ mapped (<[p := v]> m) (p + 1) (Z.of_nat n).
Proof.
  intros Hm. split; [apply st_ok; eapply mapped_cell; [exact Hm|lia]|].
  apply mapped_insert. eapply mapped_sub; [exact Hm|lia|lia].
Qed.

Lemma le_bytes_spec4 v : le_bytes 4 v = [byte_of v 0; byte_of v 8; byte_of v 16; byte_of v 24].
Proof.
  cbn [le_bytes]. rewrite !byte_of_div by lia. change (2 ^ 0) with 1. rewrite Z.div_1_r.
  rewrite !Z.div_div by lia. done.
Qed.

Lemma le_bytes_spec2 v : le_bytes 2 v = [byte_of v 0; byte_of v 8].
Proof.
  cbn [le_bytes]. rewrite !byte_of_div by lia. change (2 ^ 0) with 1. by rewrite Z.div_1_r.
Qed.

Lemma enc2 m p v : mapped m p 2 ->
  be16enc m p v = Ok (write m p (be_bytes 2 v)) /\ le16enc m p v = Ok (write m p (le_bytes 2 v)).
Proof.
  intros Hm. unfold be16enc, le16enc, be_bytes. rewrite le_bytes_spec2. cbn [rev app write].
  split.
  - destruct (store_step m p 1 (byte_of v 8) Hm) as [-> Hm1]. rewrite bind_ok.
    by destruct (store_step _ _ 0 (byte_of v 0) Hm1) as [-> _].
  - destruct (store_step m p 1 (byte_of v 0) Hm) as [-> Hm1]. rewrite bind_ok.
    by destruct (store_step _ _ 0 (byte_of v 8) Hm1) as [-> _].
Qed.

Lemma stores4 m p a b c d : mapped m p 4 ->
  (m ← st m p a; m ← st m (p + 1) b; m ← st m (p + 2) c; st m (p + 3) d) = Ok (write m p [a; b; c; d]).
Proof.
  intros Hm. destruct (store_step m p 3 a Hm) as [-> Hm1]. rewrite bind_ok.
  destruct (store_step _ _ 2 b Hm1) as [-> Hm2]. rewrite bind_ok. replace (p + 2) with (p + 1 + 1) by lia.
  destruct (store_step _ _ 1 c Hm2) as [-> Hm3]. rewrite bind_ok. replace (p + 3) with (p + 1 + 1 + 1) by lia.
  by destruct (store_step _ _ 0 d Hm3) as [-> _].
Qed.

Lemma enc4 m p v : mapped m p 4 ->
  be32enc m p v = Ok (write m p (be_bytes 4 v)) /\ le32enc m p v = Ok (write m p (le_bytes 4 v)).
Proof.
  intros Hm. unfold be32enc, le32enc, be_bytes. rewrite le_bytes_spec4, !stores4 by done. done.
Qed.

Lemma le_bytes_8 v : 0 <= v < 2 ^ 64 ->
  le_bytes 8 v = le_bytes 4 (u32 (Z.land v 0xffffffff)) ++ le_bytes 4 (u32 (Z.shiftr v 32)).
Proof.
  intros Hv. change 0xffffffff with (Z.ones 32). rewrite Z.land_ones, Z.shiftr_div_pow2 by lia.
  unfold u32. rewrite Z.mod_mod by lia. rewrite (Z.mod_small (v / 2 ^ 32)) by dlia.
  cbn [le_bytes app]. rewrite !Z.div_div by lia. cbn [Z.mul Pos.mul].
  repeat (apply (f_equal2 cons); [dlia|]). done.
Qed.

Lemma enc8 m p v : 0 <= v < 2 ^ 64 -> mapped m p 8 ->
  be64enc m p v = Ok (write m p (be_bytes 8 v)) /\ le64enc m p v = Ok (write m p (le_bytes 8 v)).
Proof.
  intros Hv Hm. unfold be64enc, le64enc, be_bytes. rewrite le_bytes_8, rev_app_distr by done.
  set (lo := u32 (Z.land v 0xffffffff)). set (hi := u32 (Z.shiftr v 32)).
  assert (H4 : mapped m p 4) by (eapply mapped_sub; [exact Hm|lia|lia]).
  assert (H4' : forall xs, mapped (write m p xs) (p + 4) 4).
  { intros xs. apply mapped_write. eapply mapped_sub; [exact Hm|lia|lia]. }
  destruct (enc4 m p hi H4) as [-> _]. destruct (enc4 m p lo H4) as [_ ->]. rewrite !bind_ok.
  destruct (enc4 _ _ lo (H4' (be_bytes 4 hi))) as [-> _]. destruct (enc4 _ _ hi (H4' (le_bytes 4 lo))) as [_ ->].
  rewrite !write_app. split; [|done]. unfold be_bytes. by rewrite length_rev.
Qed.

(** The loads and stores of a width of [n] bytes. *)
Record codec := mk_codec {
  width : nat;
  be_dec : mem -> Z -> outcome Z; le_dec : mem -> Z -> outcome Z;
  be_enc : mem -> Z -> Z -> outcome mem; le_enc : mem -> Z -> Z -> outcome mem }.

Definition codecs : list codec :=
  [mk_codec 2 be16dec le16dec be16enc le16enc;
   mk_codec 4 be32dec le32dec be32enc le32enc;
   mk_codec 8 be64dec le64dec be64enc le64enc].

Lemma codec_dec k m p bs :
  In k codecs -> length bs = width k -> Forall byte bs -> array m p bs ->
  be_dec k m p = Ok (be_value bs) /\ le_dec k m p = Ok (be_value (rev bs)).
Proof.
  intros Hk Hl Hb Ha. destruct Hk as [<-|[<-|[<-|[]]]]; cbn [width be_dec le_dec] in *.
  - destruct bs as [|a [|b [|]]]; try done. rewrite !List.Forall_cons_iff in Hb. destruct_and!. by apply dec2.
  - destruct bs as [|a [|b [|c [|d [|]]]]]; try done. rewrite !List.Forall_cons_iff in Hb. destruct_and!. by apply dec4.
  - rewrite <- (take_drop 4 bs) in *. apply Forall_app in Hb as [Hb1 Hb2]. rewrite take_drop in Hl.
    apply dec8; try done; [rewrite length_take; lia|rewrite length_drop; lia].
Qed.

Lemma codec_enc k m p v :
  In k codecs -> 0 <= v < 256 ^ Z.of_nat (width k) -> mapped m p (Z.of_nat (width k)) ->
  be_enc k m p v = Ok (write m p (be_bytes (width k) v)) /\
  le_enc k m p v = Ok (write m p (le_bytes (width k) v)).
Proof.
  intros Hk Hv Hm. destruct Hk as [<-|[<-|[<-|[]]]]; cbn [width be_enc le_enc] in *.
  - by apply enc2.
  - by apply enc4.
  - apply enc8; [|done]. change (256 ^ Z.of_nat 8) with (2 ^ 64) in Hv. done.
Qed.

(** For 16, 32 and 64 bits, at any address: the loads read exactly the
    bytes of the width and give their value, most significant first or last;
    the stores write exactly these bytes; what one order stores its load reads
    back, and the load of the other order reads the value with its bytes
    reversed. *)
Theorem endian_roundtrip k m p v bs
  (Hk : In k codecs) (Hv : 0 <= v < 256 ^ Z.of_nat (width k)) (Hm : mapped m p (Z.of_nat (width k)))
  (Hl : length bs = width k) (Hb : Forall byte bs) :
  (array m p bs -> be_dec k m p = Ok (be_value bs) /\ le_dec k m p = Ok (be_value (rev bs))) /\
  (exists mb, be_enc k m p v = Ok mb /\ mb = write m p (be_bytes (width k) v) /\
     be_dec k mb p = Ok v /\ le_dec k mb p = Ok (be_value (le_bytes (width k) v))) /\
  (exists ml, le_enc k m p v = Ok ml /\ ml = write m p (le_bytes (width k) v) /\
     le_dec k ml p = Ok v /\ be_dec k ml p = Ok (be_value (le_bytes (width k) v))).
Proof.
  split; [intros Ha; by apply codec_dec|].
  assert (Hbe : Forall byte (be_bytes (width k) v)) by (apply List.Forall_rev, le_bytes_byte).
  destruct (codec_enc k m p v Hk Hv Hm) as [-> ->]. split; eexists; (split; [reflexivity|]); (split; [reflexivity|]).
  - destruct (codec_dec k (write m p (be_bytes (width k) v)) p (be_bytes (width k) v)) as [-> ->];
      [done|unfold be_bytes; by rewrite length_rev, le_bytes_length|done|apply array_write|].
    rewrite be_value_bytes by done. unfold be_bytes. by rewrite rev_involutive.
  - destruct (codec_dec k (write m p (le_bytes (width k) v)) p (le_bytes (width k) v)) as [-> ->];
      [done|apply le_bytes_length|apply le_bytes_byte|apply array_write|].
    fold (be_bytes (width k) v). by rewrite be_value_bytes.
Qed.

Definition demo_word : mem := write ∅ 3 [18; 52; 86; 120].

Lemma endian_roundtrip_witness :
  be32dec demo_word 3 = Ok 0x12345678 /\ le32dec demo_word 3 = Ok 0x78563412 /\
  exists mb, be32enc demo_word 3 0xcafe = Ok mb /\ be32dec mb 3 = Ok 0xcafe.
Proof.
  destruct (endian_roundtrip (mk_codec 4 be32dec le32dec be32enc le32enc) demo_word 3 0xcafe [18; 52; 86; 120])
    as (H1 & (mb & H2 & _ & H3 & _) & _);
    [right; left; reflexivity|cbn; lia|by apply mapped_check|reflexivity
    |repeat (apply Forall_cons_2; [unfold byte; lia|]); apply Forall_nil_2|].
  destruct H1 as [H4 H5]; [by apply array_check|].
  split; [exact H4|]. split; [exact H5|]. exists mb. split; [exact H2|exact H3].
Defined.
