(* ===== verification/WcCtype.v ===== *)
(** The character classes of [src/orbis_wchar32.c] ([iswspace], [wcwidth],
    [wcswidth]) and its number parsers, which hand the ASCII prefix of a wide
    string to the narrow [strto*]. *)
From stdpp Require Import prelude gmap list numbers.
From S2P Require Import Prelude Memory WcString WidthTables.
Open Scope Z_scope.

Module Ctype.

(** The static array of [iswspace], without its terminator. *)
Definition spaces : list Z :=
  [32; 9; 10; 13; 11; 12; 0x0085;
   0x2000; 0x2001; 0x2002; 0x2003; 0x2004; 0x2005;
   0x2006; 0x2008; 0x2009; 0x200a;
   0x2028; 0x2029; 0x205f; 0x3000].
Definition spaces_mem : mem := write ∅ 16 (spaces ++ [0]).

(** [wc] is a [wint_t]; the call converts it to [wchar_t]. *)
Definition iswspace (wc : Z) : outcome bool :=
  if wc =? 0 then Ok false
  else q ← wcschr 32 spaces_mem 16 (s32 wc); Ok (nonzero q).

Definition iswspace_l_ (c l : Z) : outcome bool := iswspace c.
Definition iswspace_l (c l : Z) : outcome bool := iswspace c.

(** [t[i]], out of bounds a fault. *)
Definition tab (t : list Z) (i : Z) : outcome Z :=
  if i <? 0 then Fault else match t !! Z.to_nat i with Some b => Ok b | None => Fault end.

(** [(t[t[wc>>8]*32+((wc&255)>>3)]>>(wc&7))&1]. *)
Definition table_bit (t : list Z) (wc : Z) : outcome bool :=
  b ← tab t (Z.shiftr wc 8);
  x ← tab t (b * 32 + Z.shiftr (Z.land wc 255) 3);
  Ok (negb (Z.land (Z.shiftr x (Z.land wc 7)) 1 =? 0)).

Definition wcwidth (wc : Z) : outcome Z :=
  let u := u32 wc in
  if u <? 0xff then Ok (if 0x21 <=? Z.land (wc + 1) 0x7f then 1 else if negb (wc =? 0) then -1 else 0)
  else if Z.land u 0xfffeffff <? 0xfffe then
    z ← table_bit w32_nonspacing_table wc;
    if z : bool then Ok 0
    else
      d ← table_bit w32_wide_table wc;
      Ok (if d : bool then 2 else 1)
  else if Z.land wc 0xfffe =? 0xfffe then Ok (-1)
  else if u32 (u - 0x20000) <? 0x20000 then Ok 2
  else if (wc =? 0xe0001) || (u32 (u - 0xe0020) <? 0x5f) || (u32 (u - 0xe0100) <? 0xef) then Ok 0
  else Ok 1.

(** [n-- && *wcs && (k = wcwidth( *wcs)) >= 0]; the state is [n], [wcs], [l]
    and [k]. *)
Definition wcswidth (fuel : nat) (m : mem) (wcs n : Z) : outcome Z :=
  loop fuel (fun '(n, wcs, l, k) =>
    let stop k := Ok (inr (if k <? 0 then k else l)) in
    if n =? 0 then stop k
    else
      x ← ld m wcs;
      if x =? 0 then stop k
      else
        k ← wcwidth x;
        if k <? 0 then stop k else Ok (inl (n - 1, wcs + 1, l + k, k))) (n, wcs, 0, 0).

(** ** Numbers *)

Definition w32_skip_space (fuel : nat) (m : mem) (t : Z) : outcome Z :=
  while fuel (fun t => x ← ld m t; iswspace (u32 x)) (fun t => Ok (t + 1)) t.

Definition ascii (x : Z) : bool := (0 <? x) && (x <? 0x80).

(** [for (i = 0; i < k; i++) b[i] = (char)t[i];]. *)
Fixpoint narrow_copy (mw mb : mem) (b t : Z) (k : nat) : outcome mem :=
  match k with
  | O => Ok mb
  | S k => x ← ld mw t; mb ← st mb b (u8 x); narrow_copy mw mb (b + 1) (t + 1) k
  end.

Section strto.
(** [malloc], [free], and the narrow parser: on the string at [b] in a base it
    returns a value of type [V], the end pointer and [errno]. *)
Context {V E : Type} (malloc : mem -> Z -> mem * Z) (free : mem -> Z -> mem)
  (narrow : mem -> Z -> Z -> V * Z * E).

Definition w32_ascii_prefix (fuel : nat) (mw mb : mem) (t stack cap : Z) : outcome (mem * Z) :=
  k ← while fuel (fun k => x ← ld mw (t + k); Ok (ascii x)) (fun k => Ok (k + 1)) 0;
  let '(mb, b, k) :=
    if cap <=? k then
      let '(mb', b) := malloc mb (k + 1) in
      if b =? 0 then (mb', stack, cap - 1) else (mb', b, k)
    else (mb, stack, k) in
  mb ← narrow_copy mw mb b t (Z.to_nat k);
  mb ← st mb (b + k) 0;
  Ok (mb, b).

(** [errno] is what the parser left: [free] does not change it. *)
Definition w32_release (mb : mem) (b stack : Z) : mem := if b =? stack then mb else free mb b.

(** [W32_STRTO_INT] and, with the base ignored, [W32_STRTO_FLT]: the value,
    the end pointer, [errno] and the byte memory. *)
Definition W32_STRTO (fuel : nat) (mw mb : mem) (s stack base : Z) : outcome (V * Z * E * mem) :=
  t ← w32_skip_space fuel mw s;
  '(mb, b) ← w32_ascii_prefix fuel mw mb t stack 128;
  let '(y, e, err) := narrow mb b base in
  let p := if negb (e =? b) then t + (e - b) else s in
  Ok (y, p, err, w32_release mb b stack).
End strto.

End Ctype.
Export Ctype.

(** ** White space and widths *)

Lemma iswspace_ok wc :
  0 <= wc < 2 ^ 32 -> iswspace wc = Ok (bool_decide (s32 wc ∈ spaces)).
Proof.
  intros Hwc. unfold iswspace. destruct (Z.eqb_spec wc 0) as [->|Hne].
  { by vm_compute. }
  destruct (wcschr_member spaces_mem 32 16 spaces (s32 wc)) as (q & -> & Hq).
  - by apply zstr_check; vm_compute.
  - lia.
  - unfold s32. dlia.
  - cbn. lia.
  - rewrite bind_ok, Hq. done.
Qed.

Lemma tab_ok t i : 0 <= i < zlen t -> exists b, tab t i = Ok b /\ In b t.
Proof.
  intros Hi. unfold tab. destruct (Z.ltb_spec i 0); [lia|].
  destruct (lookup_lt_is_Some_2 t (Z.to_nat i)) as [b Hb]; [lia|]. rewrite Hb. exists b. split; [done|].
  apply list_elem_of_In. by eapply list_elem_of_lookup_2.
Qed.

(** A lookup of a character of the first two planes stays in the table. *)
Lemma table_bit_ok t wc :
  complete t = true -> (512 <= length t)%nat -> 0 <= wc < 2 ^ 17 -> exists b, table_bit t wc = Ok b.
Proof.
  intros Hc Hl Hwc. unfold table_bit. rewrite (Z.shiftr_div_pow2 wc 8) by lia.
  assert (Hi : 0 <= wc / 2 ^ 8 < 512) by dlia.
  destruct (tab_ok (take 512 t) (wc / 2 ^ 8)) as (b & Hb & Hin); [rewrite length_take; lia|].
  assert (Hb' : tab t (wc / 2 ^ 8) = Ok b).
  { unfold tab in *. destruct (_ <? 0); [done|]. by rewrite lookup_take_lt in Hb by lia. }
  rewrite Hb', bind_ok. unfold complete in Hc. eapply forallb_forall in Hc; [|exact Hin].
  apply andb_true_iff in Hc as [H0 H1]. apply Z.leb_le in H0, H1.
  assert (Hj : 0 <= Z.shiftr (Z.land wc 255) 3 < 32).
  { change 255 with (Z.ones 8). rewrite Z.land_ones, Z.shiftr_div_pow2 by lia. dlia. }
  destruct (tab_ok t (b * 32 + Z.shiftr (Z.land wc 255) 3)) as (x & Hx & _); [lia|].
  rewrite Hx, bind_ok. by eexists.
Qed.

Lemma table_guard u : 0 <= u < 2 ^ 32 -> Z.land u 0xfffeffff < 0xfffe -> u < 2 ^ 17.
Proof.
  intros Hu Hl. assert (H : Z.shiftr (Z.land u 0xfffeffff) 17 = Z.shiftr u 17).
  { rewrite Z.shiftr_land. change (Z.shiftr 0xfffeffff 17) with (Z.ones 15). rewrite Z.land_ones by lia.
    rewrite Z.shiftr_div_pow2 by lia. apply Z.mod_small. dlia. }
  rewrite !Z.shiftr_div_pow2 in H by lia.
  assert (0 <= Z.land u 0xfffeffff) by (apply Z.land_nonneg; lia). dlia.
Qed.

Definition wint (x : Z) : Prop := - 2 ^ 31 <= x < 2 ^ 31.

Lemma wcwidth_total wc : wint wc -> exists w, wcwidth wc = Ok w /\ -1 <= w <= 2.
Proof.
  intros Hwc. unfold wcwidth. destruct (u32 wc <? 0xff).
  { destruct (_ <=? _); [|destruct (wc =? 0)]; (eexists; split; [reflexivity|]); cbn; lia. }
  pose proof (u32_range wc) as Hu.
  destruct (Z.ltb_spec (Z.land (u32 wc) 0xfffeffff) 0xfffe) as [Hl|_].
  - pose proof (table_guard _ Hu Hl) as H17.
    assert (0 <= wc < 2 ^ 17) as Hr by (unfold wint, u32 in *; dlia).
    destruct (table_bit_ok w32_nonspacing_table wc) as [z ->]; [exact (proj1 tables_complete)|exact (proj1 tables_long)|done|].
    destruct (table_bit_ok w32_wide_table wc) as [d ->]; [exact (proj2 tables_complete)|exact (proj2 tables_long)|done|].
    rewrite bind_ok. destruct z; [by eexists; split; [reflexivity|]|]. rewrite bind_ok.
    by destruct d; eexists; split; [reflexivity| |reflexivity|].
  - repeat (match goal with |- context [if ?c then _ else _] => destruct c end);
      (eexists; split; [reflexivity|]); lia.
Qed.

(** The width of a character, as a function. *)
Definition width_of (wc : Z) : Z := match wcwidth wc with Ok w => w | _ => 0 end.

Lemma width_of_ok wc : wint wc -> wcwidth wc = Ok (width_of wc).
Proof. intros H. unfold width_of. by destruct (wcwidth_total wc H) as (w & -> & _). Qed.

(** The columns of a string: nothing, when one character is not printable. *)
Fixpoint columns (xs : list Z) : Z :=
  match xs with
  | [] => 0
  | x :: xs => if (width_of x <? 0) || (columns xs <? 0) then -1 else width_of x + columns xs
  end.

Lemma columns_neg xs : Forall wint xs -> columns xs < 0 -> columns xs = -1.
Proof.
  induction xs as [|x xs IH]; intros H Hn; cbn [columns] in *; [lia|].
  destruct (_ || _) eqn:Ho; [done|]. apply orb_false_iff in Ho as [H1 H2].
  apply Z.ltb_ge in H1, H2. lia.
Qed.

(** The loop of [wcswidth] from a point where the width so far is [l] and the
    last character had width [k]. *)
Lemma wcswidth_loop xs : forall fuel m p n l k,
  zstr m p xs -> Forall wint xs -> 0 <= n -> 0 <= l -> 0 <= k -> (length xs < fuel)%nat ->
  loop fuel (fun '(n, wcs, l, k) =>
    let stop k := Ok (inr (if k <? 0 then k else l)) in
    if n =? 0 then stop k
    else
      x ← ld m wcs;
      if x =? 0 then stop k
      else
        k ← wcwidth x;
        if k <? 0 then stop k else Ok (inl (n - 1, wcs + 1, l + k, k))) (n, p, l, k) =
  Ok (let c := columns (take (Z.to_nat n) xs) in if c <? 0 then -1 else l + c).
Proof.
  induction xs as [|x xs IH]; intros fuel m p n l k Hz Hw Hn Hl Hk Hf;
    (destruct fuel as [|fuel]; [exfalso; clear - Hf; lia|]); rewrite loop_step; cbn beta iota zeta.
  - rewrite take_nil. cbn [columns]. change (0 <? 0) with false. cbv iota. rewrite Z.add_0_r.
    apply zstr_nil in Hz. rewrite (proj2 (Z.ltb_ge k 0)) by lia.
    destruct (n =? 0); [done|]. by rewrite (ld_ok _ _ _ Hz).
  - apply zstr_cons in Hz as (Hx & Hx0 & Hz). apply List.Forall_cons_iff in Hw as [Hwx Hw].
    rewrite (proj2 (Z.ltb_ge k 0)) by lia. cbn [length] in Hf. destruct (Z.eqb_spec n 0) as [->|Hn0].
    { cbn [Z.to_nat take columns]. change (0 <? 0) with false. cbv iota. by rewrite Z.add_0_r. }
    rewrite (ld_ok _ _ _ Hx), bind_ok. destruct (Z.eqb_spec x 0); [done|].
    rewrite width_of_ok by done. rewrite bind_ok. replace (Z.to_nat n) with (S (Z.to_nat (n - 1))) by lia.
    cbn [take columns]. destruct (Z.ltb_spec (width_of x) 0) as [Hneg|Hpos]; cbn [orb].
    + rewrite bind_ok. destruct (wcwidth_total x Hwx) as (w & Hw' & Hr).
      unfold width_of in *. rewrite Hw' in *. f_equal. change (-1 <? 0) with true. cbv iota. lia.
    + rewrite bind_ok. cbn beta iota. rewrite IH by (done || lia). f_equal. cbv zeta.
      destruct (Z.ltb_spec (columns (take (Z.to_nat (n - 1)) xs)) 0); [done|].
      destruct (Z.ltb_spec (width_of x + columns (take (Z.to_nat (n - 1)) xs)) 0); lia.
Qed.

(** [wcwidth] answers -1, 0, 1 or 2 for every [wchar_t], its two lookups
    inside the tables; [wcswidth] is the sum over the first [n] characters,
    or -1 as soon as one of them is not printable, and reads no cell behind
    them. *)
Theorem wcswidth_correct fuel m p n xs
  (Hz : zstr m p xs) (Hw : Forall wint xs) (Hn : 0 <= n) (Hf : (length xs < fuel)%nat) :
  Forall (fun x => wcwidth x = Ok (width_of x) /\ -1 <= width_of x <= 2) xs /\
  wcswidth fuel m p n = Ok (columns (take (Z.to_nat n) xs)).
Proof.
  split.
  - eapply List.Forall_impl; [|exact Hw]. intros x Hx. destruct (wcwidth_total x Hx) as (w & Hw' & Hr).
    unfold width_of. by rewrite Hw'.
  - unfold wcswidth. rewrite (wcswidth_loop xs) by (done || lia). f_equal. cbv zeta.
    destruct (Z.ltb_spec (columns (take (Z.to_nat n) xs)) 0) as [Hneg|]; [|lia].
    symmetry. apply columns_neg; [by apply Forall_take|done].
Qed.

Definition demo_wide : mem := write (write ∅ 100 [65; 0x4e2d; 0x301; 0]) 200 [65; 7; 65; 0].

Lemma wcswidth_witness :
  zstr demo_wide 100 [65; 0x4e2d; 0x301] /\ wcswidth 4 demo_wide 100 9 = Ok 3 /\
  zstr demo_wide 200 [65; 7; 65] /\ wcswidth 4 demo_wide 200 9 = Ok (-1).
Proof.
  assert (H1 : zstr demo_wide 100 [65; 0x4e2d; 0x301]) by by apply zstr_check.
  assert (H2 : zstr demo_wide 200 [65; 7; 65]) by by apply zstr_check.
  destruct (wcswidth_correct 4 demo_wide 100 9 _ H1) as [_ E1];
    [repeat constructor; unfold wint; lia|lia|cbn; lia|].
  destruct (wcswidth_correct 4 demo_wide 200 9 _ H2) as [_ E2];
    [repeat constructor; unfold wint; lia|lia|cbn; lia|].
  split; [exact H1|]. split; [rewrite E1; reflexivity|]. split; [exact H2|rewrite E2; reflexivity].
Defined.

(** ** Numbers *)

Definition white (x : Z) : bool := bool_decide (x ∈ spaces).

(** The part of a string a number is read from. *)
Definition unspaced (xs : list Z) : list Z := drop (span_len white xs) xs.
Definition number_text (xs : list Z) : list Z := take (span_len ascii (unspaced xs)) (unspaced xs).

Lemma w32_skip_space_ok fuel m p xs :
  zstr m p xs -> Forall wint xs -> (length xs < fuel)%nat ->
  w32_skip_space fuel m p = Ok (p + Z.of_nat (span_len white xs)).
Proof.
  intros Hz Hw Hf. apply (scan_string m fuel p xs white); [done|by vm_compute| |done].
  intros i Hi. rewrite (ld_zstr m p xs i Hz Hi), bind_ok.
  assert (Hr : wint (nth i xs 0)).
  { destruct (nth_in_or_default i xs 0) as [Hin| ->]; [|unfold wint; lia].
    rewrite List.Forall_forall in Hw. by apply Hw. }
  rewrite iswspace_ok by (unfold u32; dlia). unfold white. do 2 f_equal.
  unfold wint, s32, u32 in *. apply bool_decide_ext. replace (_ - 2 ^ 31) with (nth i xs 0) by dlia. done.
Qed.

Lemma ascii_scan xs : forall fuel m t k,
  zstr m (t + k) xs -> (length xs < fuel)%nat ->
  while fuel (fun k => x ← ld m (t + k); Ok (ascii x)) (fun k => Ok (k + 1)) k =
    Ok (k + Z.of_nat (span_len ascii xs)).
Proof.
  induction xs as [|x xs IH]; intros fuel m t k Hz Hf;
    (destruct fuel as [|fuel]; [exfalso; clear - Hf; lia|]).
  - apply zstr_nil in Hz. rewrite while_stop by (by rewrite (ld_ok _ _ _ Hz)). by rewrite Z.add_0_r.
  - apply zstr_cons in Hz as (Hx & Hnz & Hz). cbn [span_len length] in *. destruct (ascii x) eqn:Ha.
    + rewrite (while_go fuel _ _ k (k + 1)); [|by rewrite (ld_ok _ _ _ Hx), bind_ok, Ha|done].
      rewrite IH; [f_equal; lia| |lia]. by rewrite Z.add_assoc.
    + rewrite while_stop by (by rewrite (ld_ok _ _ _ Hx), bind_ok, Ha). by rewrite Z.add_0_r.
Qed.

Lemma narrow_copy_ok ys : forall mw mb b t,
  array mw t ys -> Forall (fun y => ascii y = true) ys -> mapped mb b (zlen ys) ->
  narrow_copy mw mb b t (length ys) = Ok (write mb b ys).
Proof.
  induction ys as [|y ys IH]; intros mw mb b t Ha Hy Hm; [done|].
  apply array_cons in Ha as [Hx Ha]. apply List.Forall_cons_iff in Hy as [Hy Hys]. cbn [narrow_copy length write] in *.
  unfold ascii in Hy. apply andb_true_iff in Hy as [H1 H2]. apply Z.ltb_lt in H1, H2.
  rewrite (ld_ok _ _ _ Hx), bind_ok, u8_small by lia.
  rewrite st_ok by (eapply mapped_cell; [exact Hm|lia]). rewrite bind_ok.
  apply IH; [done|done|]. apply mapped_insert. eapply mapped_sub; [exact Hm|lia|lia].
Qed.

Lemma ascii_text xs n : Forall (fun y => ascii y = true) (take n (take (span_len ascii xs) xs)).
Proof.
  apply Forall_take. induction xs as [|x xs IH]; [constructor|]. cbn [span_len].
  destruct (ascii x) eqn:Ha; [cbn [take]; by constructor|constructor].
Qed.

Lemma ascii_nonzero ys : Forall (fun y => ascii y = true) ys -> Forall (fun x => x <> 0) ys.
Proof. intros H. eapply List.Forall_impl; [|exact H]. intros y Hy ->. done. Qed.

(** The buffer holds the text, or its first 127 characters when [malloc]
    failed. *)
Definition kept (malloc : mem -> Z -> mem * Z) (mb : mem) (text : list Z) : list Z :=
  if (128 <=? zlen text) && (snd (malloc mb (zlen text + 1)) =? 0) then take 127 text else text.

Lemma fill_buffer mw mb b t ys :
  array mw t ys -> Forall (fun y => ascii y = true) ys -> mapped mb b (zlen ys + 1) ->
  (mb ← narrow_copy mw mb b t (length ys); mb ← st mb (b + zlen ys) 0; Ok (mb, b)) =
    Ok (write mb b (ys ++ [0]), b).
Proof.
  intros Ha Hy Hm. rewrite narrow_copy_ok by (done || (eapply mapped_sub; [exact Hm|lia|lia])).
  rewrite bind_ok, st_ok by (apply (mapped_write _ _ _ _ _ Hm); lia). by rewrite bind_ok, write_snoc.
Qed.

Lemma w32_ascii_prefix_ok malloc fuel mw mb t stack xs :
  zstr mw t xs -> (length xs < fuel)%nat -> mapped mb stack 128 -> malloc_ok malloc ->
  (forall m n, snd (malloc m n) = 0 -> fst (malloc m n) = m) ->
  let text := take (span_len ascii xs) xs in
  exists mb' b, w32_ascii_prefix malloc fuel mw mb t stack 128 = Ok (mb', b) /\
    zstr mb' b (kept malloc mb text) /\
    (zlen text < 128 -> b = stack /\ mb' = write mb stack (text ++ [0])).
Proof.
  intros Hz Hf Hst Hmal Hnull text. unfold w32_ascii_prefix.
  rewrite (ascii_scan xs) by (by rewrite ?Z.add_0_r). rewrite bind_ok, Z.add_0_l.
  assert (Hlen : Z.of_nat (span_len ascii xs) = zlen text).
  { subst text. rewrite length_take. pose proof (span_len_le ascii xs). lia. }
  assert (Hat : forall n, array mw t (take n text)).
  { intros n i x Hx. apply zstr_array in Hz. apply Hz. subst text. apply lookup_take_Some in Hx as [Hx _].
    by apply lookup_take_Some in Hx as [Hx _]. }
  pose proof (Hat (length text)) as Hall. rewrite take_ge in Hall by lia.
  pose proof (ascii_text xs (length text)) as Hasc. fold text in Hasc. rewrite take_ge in Hasc by lia.
  rewrite Hlen. unfold kept. destruct (Z.leb_spec 128 (zlen text)) as [Hbig|Hsmall]; cbn [andb].
  - pose proof (Hmal mb (zlen text + 1)) as Hm. pose proof (Hnull mb (zlen text + 1)) as Hn.
    destruct (malloc mb (zlen text + 1)) as [mb1 b]. cbn [fst snd] in *.
    destruct (Z.eqb_spec b 0) as [->|Hb].
    + specialize (Hn eq_refl). subst mb1.
      assert (Hl : length (take 127 text) = 127%nat) by (rewrite length_take; lia).
      pose proof (fill_buffer mw mb stack t (take 127 text) (Hat 127%nat) (ascii_text xs 127)) as H.
      rewrite Hl in H. change (Z.to_nat (128 - 1)) with 127%nat. change (128 - 1) with (Z.of_nat 127).
      rewrite H by done. eexists _, _. split; [reflexivity|]. split; [|lia].
      split; [apply array_write|apply ascii_nonzero, ascii_text].
    + destruct (Hm Hb) as [Hmap _]. rewrite Nat2Z.id, fill_buffer by done.
      eexists _, _. split; [reflexivity|]. split; [|lia]. split; [apply array_write|by apply ascii_nonzero].
  - rewrite Nat2Z.id, fill_buffer by (done || (eapply mapped_sub; [exact Hst|lia|lia])).
    eexists _, _. split; [reflexivity|]. split; [|done]. split; [apply array_write|by apply ascii_nonzero].
Qed.

(** The wide number parsers agree with the narrow ones: given that the
    narrow parser works on the string it is handed, [wcstol] and its siblings
    return its value and [errno] for the ASCII characters that follow the
    white space, with an end pointer moved by as many wide characters as it
    consumed bytes, or left at the start when it consumed none.  A text of
    128 characters or more goes through the heap; only when that fails is it
    cut, to 127 characters.  A shorter one touches nothing but the stack
    buffer. *)
Theorem W32_STRTO_correct {V E} malloc free (narrow : mem -> Z -> Z -> V * Z * E) fuel mw mb s stack base xs
    (val : list Z -> V) (len : list Z -> Z) (err : list Z -> E)
  (Hz : zstr mw s xs) (Hw : Forall wint xs) (Hf : (length xs < fuel)%nat) (Hst : mapped mb stack 128)
  (Hmal : malloc_ok malloc) (Hnull : forall m n, snd (malloc m n) = 0 -> fst (malloc m n) = m)
  (Hnarrow : forall m b ys, zstr m b ys -> narrow m b base = (val ys, b + len ys, err ys)) :
  let ys := kept malloc mb (number_text xs) in
  exists mb',
    W32_STRTO malloc free narrow fuel mw mb s stack base =
      Ok (val ys, if len ys =? 0 then s else s + Z.of_nat (span_len white xs) + len ys, err ys, mb') /\
    (zlen (number_text xs) < 128 -> ys = number_text xs /\ mb' = write mb stack (ys ++ [0])).
Proof.
  intros ys. unfold W32_STRTO. rewrite (w32_skip_space_ok fuel mw s xs) by done. rewrite bind_ok.
  pose proof (span_len_le white xs) as Hle.
  assert (Hz' : zstr mw (s + Z.of_nat (span_len white xs)) (unspaced xs)) by by apply zstr_drop.
  destruct (w32_ascii_prefix_ok malloc fuel mw mb _ stack (unspaced xs) Hz') as (mb1 & b & -> & Hzb & Hsm);
    [unfold unspaced; rewrite length_drop; lia|done..|].
  fold (number_text xs) in Hzb, Hsm. fold ys in Hzb.
  rewrite bind_ok, (Hnarrow mb1 b ys Hzb). eexists. split.
  - do 4 f_equal. replace (b + len ys =? b) with (len ys =? 0) by (apply eq_true_iff_eq; rewrite !Z.eqb_eq; lia).
    destruct (len ys =? 0); cbn [negb]; [done|lia].
  - intros Hsh. destruct (Hsm Hsh) as [-> ->]. unfold w32_release. rewrite Z.eqb_refl.
    assert (ys = number_text xs) as ->; [|done]. unfold ys, kept. by rewrite (proj2 (Z.leb_gt 128 _)).
Qed.

(** A parser of one decimal digit, and a heap that is exhausted. *)
Definition one_digit (m : mem) (b base : Z) : Z * Z * bool :=
  match m !! b with
  | Some d => if (48 <=? d) && (d <? 58) then (d - 48, b + 1, true) else (0, b, false)
  | None => (0, b, false)
  end.
Definition digit_at (ys : list Z) : bool := match ys with d :: _ => (48 <=? d) && (d <? 58) | [] => false end.
Definition no_heap (m : mem) (n : Z) : mem * Z := (m, 0).

Lemma one_digit_ok m b ys base :
  zstr m b ys ->
  one_digit m b base = (if digit_at ys then hd 0 ys - 48 else 0, b + (if digit_at ys then 1 else 0), digit_at ys).
Proof.
  intros Hz. unfold one_digit. destruct ys as [|y ys].
  - apply zstr_nil in Hz. rewrite Hz. cbn. by rewrite Z.add_0_r.
  - apply zstr_cons in Hz as (Hy & _). rewrite Hy. cbn [digit_at hd].
    destruct (_ && _); [done|]. by rewrite Z.add_0_r.
Qed.

Definition demo_number : mem := write ∅ 100 [0x3000; 32; 55; 0x4e2d; 0].

Lemma W32_STRTO_witness :
  zstr demo_number 100 [0x3000; 32; 55; 0x4e2d] /\
  exists mb', W32_STRTO no_heap (fun m _ => m) one_digit 8 demo_number (write ∅ 0 (replicate 128 0)) 100 0 10 =
    Ok (7, 103, true, mb').
Proof.
  assert (Hz : zstr demo_number 100 [0x3000; 32; 55; 0x4e2d]) by (apply zstr_check; vm_compute; reflexivity).
  split; [exact Hz|].
  destruct (W32_STRTO_correct no_heap (fun m _ => m) one_digit 8 demo_number (write ∅ 0 (replicate 128 0)) 100 0 10
    [0x3000; 32; 55; 0x4e2d] (fun ys => if digit_at ys then hd 0 ys - 48 else 0)
    (fun ys => if digit_at ys then 1 else 0) digit_at Hz) as (mb' & H & _).
  - repeat constructor; unfold wint; lia.
  - cbn; lia.
  - apply mapped_check. vm_compute. reflexivity.
  - intros m n Hn. by destruct Hn.
  - reflexivity.
  - intros m b ys. apply one_digit_ok.
  - exists mb'. rewrite H. vm_compute. reflexivity.
Defined.
