(* ===== verification/Effects.v ===== *)
(** Programs whose effects are atomic, for code that several threads run at
    once: a program is defined once, runs under any interleaving, and is
    verified by rely-guarantee rules; a thread that is alone relies on nobody.  No code of the repository is here;
    [MemPools], [MmapTable] and [MmapRace] use it. *)
From stdpp Require Import prelude list relations.
From S2P Require Import Prelude.

(** An effect [e] answers with an [answer e].  [Undefined] is what the
    language leaves undefined; [Until] is a loop. *)
Inductive prog {E : Set} {answer : E -> Set} (A : Set) : Type :=
  | Ret (a : A)
  | Undefined
  | Act (e : E) (k : answer e -> prog A)
  | Until {S B : Set} (body : S -> prog (S + B)) (s : S) (k : B -> prog A).
Arguments prog {E} answer A.
Arguments Ret {E answer A}.
Arguments Undefined {E answer A}.
Arguments Act {E answer A}.
Arguments Until {E answer A S B}.

Fixpoint bind {E : Set} {answer : E -> Set} {A C : Set} (p : prog answer A) (f : A -> prog answer C)
    : prog answer C :=
  match p with
  | Ret a => f a
  | Undefined => Undefined
  | Act e k => Act e (fun r => bind (k r) f)
  | Until body s k => Until body s (fun b => bind (k b) f)
  end.

Definition do {E : Set} (answer : E -> Set) (e : E) : prog answer (answer e) := Act e Ret.
Definition loop_prog {E : Set} {answer : E -> Set} {S B : Set} (body : S -> prog answer (S + B)) (s : S)
    : prog answer B := Until body s Ret.

(** [for (int i = 0; i < n; i++) body();] *)
Fixpoint repeat_prog {E : Set} {answer : E -> Set} (n : nat) (body : prog answer unit) : prog answer unit :=
  match n with O => Ret tt | S n => bind body (fun _ => repeat_prog n body) end.

Declare Scope prog_scope.
Delimit Scope prog_scope with prog.
Notation "'let*' x := p 'in' q" := (bind p (fun x => q))
  (at level 10, x pattern, p at level 100, q at level 200) : prog_scope.
Notation "p ;;; q" := (bind p (fun _ => q)) (at level 100, right associativity) : prog_scope.

(** A program without loops, which must come to an end. *)
Fixpoint finite {E : Set} {answer : E -> Set} {A : Set} (p : prog answer A) : Prop :=
  match p with
  | Ret _ | Undefined => True
  | Act _ k => forall r, finite (k r)
  | Until _ _ _ => False
  end.

Lemma finite_bind {E : Set} {answer : E -> Set} {A C : Set} (p : prog answer A) (f : A -> prog answer C) :
  finite p -> (forall a, finite (f a)) -> finite (bind p f).
Proof. intros Hp Hf. induction p; cbn in *; [apply Hf|done|intros r; auto|done]. Qed.

Section semantics.
(** What threads share, what a thread has of its own, and what an effect does
    to them; a choice resolves what the effect leaves open. *)
Context {E : Set} {answer : E -> Set} {W T choice : Type}.
Context (act : forall e, choice -> W -> T -> option (answer e * W * T)).

Definition pstep {A : Set} (c : choice) (w : W) (t : T) (p : prog answer A) : option (W * T * prog answer A) :=
  match p with
  | Ret _ | Undefined => None
  | Act e k => '(r, w, t) ← act e c w t; Some (w, t, k r)
  | Until body s k =>
      Some (w, t, bind (body s) (fun r => match r with inl s => Until body s k | inr b => k b end))
  end.

(** ** Rules *)

(** The invariant of what is shared, and how it may change: by the others
    ([rely]) and by an effect of the thread itself ([guar]). *)
Context (Inv : W -> Prop) (rely guar : relation W).
Context `{!PreOrder rely}.

Fixpoint wp {A : Set} (p : prog answer A) (w : W) (t : T) (Q : A -> W -> T -> Prop) {struct p} : Prop :=
  match p with
  | Ret a => forall w1, rely w w1 -> Inv w1 -> Q a w1 t
  | Undefined => False
  | Act e k => forall w1, rely w w1 -> Inv w1 -> forall c r w2 t2,
      act e c w1 t = Some (r, w2, t2) -> Inv w2 /\ guar w1 w2 /\ wp (k r) w2 t2 Q
  | @Until _ _ _ X Y body s k => exists I : X -> W -> T -> Prop,
      (forall s w w1 t, rely w w1 -> Inv w1 -> I s w t -> I s w1 t) /\ I s w t /\
      (forall s w t, Inv w -> I s w t ->
         wp (body s) w t (fun r w t => match r with inl s => I s w t | inr b => wp (k b) w t Q end))
  end.

Lemma wp_rely {A : Set} (p : prog answer A) w w1 t Q : rely w w1 -> Inv w1 -> wp p w t Q -> wp p w1 t Q.
Proof.
  intros Hr Hi. destruct p as [a| |e k|S B body s k]; simpl; [..|intros (I & Hst & HI & Hb)]; eauto.
  - intros H w2 H2. apply H. by etrans.
  - intros H w2 H2. apply H. by etrans.
Qed.

Lemma wp_mono {A : Set} (p : prog answer A) w t (Q Q' : A -> W -> T -> Prop) :
  (forall a w t, Inv w -> Q a w t -> Q' a w t) -> wp p w t Q -> wp p w t Q'.
Proof.
  revert Q Q' w t. induction p as [A a|A|A e k IH|A S B body IHb s k IH]; intros Q Q' w t HQ; simpl; [eauto|done|..].
  - intros H w1 Hr Hi c r w2 t2 Hact. destruct (H w1 Hr Hi c r w2 t2 Hact) as (? & ? & ?). eauto.
  - intros (I & Hst & HI & Hb). exists I. split; [done|]. split; [done|].
    intros s' w' t' Hi' HI'. eapply IHb; [|by apply Hb].
    intros [s2|b] w2 t2 Hi2; [done|]. by apply IH.
Qed.

Lemma wp_bind {A C : Set} (p : prog answer A) (f : A -> prog answer C) w t Q :
  Inv w -> wp p w t (fun a w t => wp (f a) w t Q) -> wp (bind p f) w t Q.
Proof.
  revert f Q w t. induction p as [A a|A|A e k IH|A S B body IHb s k IH]; intros f Q w t Hi; simpl; [..|].
  - intros H. by apply H.
  - done.
  - intros H w1 Hr Hi1 c r w2 t2 Hact. destruct (H w1 Hr Hi1 c r w2 t2 Hact) as (? & ? & ?). eauto.
  - intros (I & Hst & HI & Hb). exists I. split; [done|]. split; [done|].
    intros s' w' t' Hi' HI'. eapply wp_mono; [|by apply Hb].
    intros [s2|b] w2 t2 Hi2; [done|]. by apply IH.
Qed.

Lemma wp_ret {A : Set} (a : A) w t (Q : A -> W -> T -> Prop) :
  (forall w1, rely w w1 -> Inv w1 -> Q a w1 t) -> wp (Ret a) w t Q.
Proof. done. Qed.

Lemma wp_do e w t (Q : answer e -> W -> T -> Prop) :
  (forall w1, rely w w1 -> Inv w1 -> forall c r w2 t2, act e c w1 t = Some (r, w2, t2) ->
     Inv w2 /\ guar w1 w2 /\ forall w3, rely w2 w3 -> Inv w3 -> Q r w3 t2) ->
  wp (do answer e) w t Q.
Proof. done. Qed.

(** A step keeps what is proved of a program. *)
Lemma wp_step {A : Set} (p p2 : prog answer A) c w w2 t t2 Q :
  Inv w -> wp p w t Q -> pstep c w t p = Some (w2, t2, p2) ->
  Inv w2 /\ (guar w w2 \/ w2 = w) /\ wp p2 w2 t2 Q.
Proof.
  intros Hi Hwp. destruct p as [a| |e k|S B body s k]; simpl in *; [done|done|..].
  - intros Hs. destruct (act e c w t) as [[[r w'] t']|] eqn:Hact; simpl in Hs; [|done].
    injection Hs as <- <- <-. destruct (Hwp w (reflexivity w) Hi c r w' t' Hact) as (? & ? & ?). auto.
  - destruct Hwp as (I & Hst & HI & Hb). intros [= <- <- <-]. split; [done|]. split; [auto|].
    apply wp_bind; [done|]. eapply wp_mono; [|by apply Hb].
    intros [s2|b] w2 t2 Hi2 H; [|done]. simpl. exists I. auto.
Qed.

(** One step after the other, with choice [c]. *)
Definition psteps {A : Set} (c : choice) : relation (W * T * prog answer A) :=
  rtc (fun x y => pstep c x.1.1 x.1.2 x.2 = Some y).

(** What is proved of a program without loops comes true: it gets to its end. *)
Lemma wp_finishes {A : Set} (c : choice) (p : prog answer A) w t Q :
  (forall e w t, is_Some (act e c w t)) -> finite p -> Inv w -> wp p w t Q ->
  exists a w' t', psteps c (w, t, p) (w', t', Ret a) /\ Inv w' /\ rtc guar w w' /\ Q a w' t'.
Proof.
  intros Htotal Hp. revert w t Q. induction p as [A a|A|A e k IH|A S B body IHb s k IH]; intros w t Q Hi Hwp; [|done| |done].
  - exists a, w, t. split; [apply rtc_refl|]. split; [done|]. split; [apply rtc_refl|]. by apply Hwp.
  - destruct (Htotal e w t) as [[[r w1] t1] Hact]. destruct (Hwp w (reflexivity w) Hi c r w1 t1 Hact) as (Hi1 & Hg & Hk).
    destruct (IH r (Hp r) w1 t1 Q Hi1 Hk) as (a & w' & t' & Hrun & Hi' & Hg' & HQ). exists a, w', t'.
    split; [|split; [done|split; [by eapply rtc_l|done]]]. eapply rtc_l; [|exact Hrun]. cbn. by rewrite Hact.
Qed.

(** The body of a counted loop, proved once for a property of the loop. *)
Lemma wp_repeat (n : nat) (body : prog answer unit) w t (I : nat -> W -> T -> Prop) :
  (forall i w w1 t, rely w w1 -> Inv w1 -> I i w t -> I i w1 t) ->
  (forall i w t, Inv w -> I i w t -> wp body w t (fun _ w t => I (S i) w t)) ->
  Inv w -> I O w t -> wp (repeat_prog n body) w t (fun _ w t => I n w t).
Proof.
  intros Hst Hb Hi H0.
  enough (forall m i w t, Inv w -> I i w t -> wp (repeat_prog m body) w t (fun _ w t => I (m + i)%nat w t)) as H.
  { specialize (H n O w t Hi H0). by rewrite Nat.add_0_r in H. }
  clear w t Hi H0. induction m as [|m IH]; intros i w t Hi HI; simpl.
  { intros w1 Hr Hi1. by eapply Hst. }
  apply wp_bind; [done|]. eapply wp_mono; [|by apply (Hb i)].
  intros [] w2 t2 Hi2 HI2. replace (S (m + i)) with (m + S i)%nat by lia. by apply IH.
Qed.

End semantics.

(** ** Threads *)

Section threads.
(** Threads make calls one after the other, out of those that are [allowed]; a
    finished call is kept with its result and what the thread had of its own
    at the end. *)
Context {E : Set} {answer : E -> Set} {W T choice call : Type} {result : Set}.
Context (act : forall e, choice -> W -> T -> option (answer e * W * T)).
Context (body : call -> prog answer result) (begin : T -> T) (allowed : call -> bool).

Record thread := mk_thread {
  th_local : T; th_running : option (call * prog answer result); th_done : list (call * T * result) }.

Definition config : Type := W * list thread.

Inductive step : config -> config -> Prop :=
  | step_call w ts i th c :
      ts !! i = Some th -> th_running th = None -> allowed c = true ->
      step (w, ts) (w, <[i := mk_thread (begin (th_local th)) (Some (c, body c)) (th_done th)]> ts)
  | step_act w ts i th c p ch w2 t2 p2 :
      ts !! i = Some th -> th_running th = Some (c, p) -> pstep act ch w (th_local th) p = Some (w2, t2, p2) ->
      step (w, ts) (w2, <[i := mk_thread t2 (Some (c, p2)) (th_done th)]> ts)
  | step_return w ts i th c r :
      ts !! i = Some th -> th_running th = Some (c, Ret r) ->
      step (w, ts) (w, <[i := mk_thread (th_local th) None (th_done th ++ [(c, th_local th, r)])]> ts).

(** A scheduler for concrete runs. *)
Inductive order := Begin (i : nat) (c : call) | Run (i : nat) (ch : choice) | Finish (i : nat).

Definition schedule1 (o : order) (cf : config) : option config :=
  let '(w, ts) := cf in
  match o with
  | Begin i c =>
      th ← ts !! i;
      match th_running th with
      | None => if allowed c then Some (w, <[i := mk_thread (begin (th_local th)) (Some (c, body c)) (th_done th)]> ts) else None
      | Some _ => None
      end
  | Run i ch =>
      th ← ts !! i;
      '(c, p) ← th_running th;
      '(w, t, p) ← pstep act ch w (th_local th) p;
      Some (w, <[i := mk_thread t (Some (c, p)) (th_done th)]> ts)
  | Finish i =>
      th ← ts !! i;
      match th_running th with
      | Some (c, Ret r) => Some (w, <[i := mk_thread (th_local th) None (th_done th ++ [(c, th_local th, r)])]> ts)
      | _ => None
      end
  end.

Fixpoint schedule (os : list order) (cf : config) : option config :=
  match os with [] => Some cf | o :: os => cf ← schedule1 o cf; schedule os cf end.

Lemma schedule1_step o cf cf' : schedule1 o cf = Some cf' -> step cf cf'.
Proof.
  destruct cf as [w ts]. destruct o as [i c|i ch|i]; simpl; intros H.
  - destruct (ts !! i) as [th|] eqn:Hi; simpl in H; [|done].
    destruct (th_running th) eqn:Hr; [done|]. destruct (allowed c) eqn:Ha; [|done]. injection H as <-. by econstructor.
  - destruct (ts !! i) as [th|] eqn:Hi; simpl in H; [|done].
    destruct (th_running th) as [[c p]|] eqn:Hr; simpl in H; [|done].
    destruct (pstep act ch w (th_local th) p) as [[[w2 t2] p2]|] eqn:Hp; simpl in H; [|done].
    injection H as <-. by eapply step_act.
  - destruct (ts !! i) as [th|] eqn:Hi; simpl in H; [|done].
    destruct (th_running th) as [[c [r| | |]]|] eqn:Hr; try done. injection H as <-. by econstructor.
Qed.

Lemma schedule_steps os cf cf' : schedule os cf = Some cf' -> rtc step cf cf'.
Proof.
  revert cf. induction os as [|o os IH]; simpl; intros cf H; [injection H as <-; constructor|].
  destruct (schedule1 o cf) as [cf1|] eqn:H1; simpl in H; [|done].
  eapply rtc_l; [by apply (schedule1_step o)|]. by apply IH.
Qed.

(** ** Adequacy: what is proved of each call holds in every reachable
    configuration *)

Context (Inv : W -> Prop) (rely : relation W).
Context `{!PreOrder rely}.
(** [idle]: what a thread keeps between calls. *)
Context (idle : W -> T -> Prop) (spec : W -> call * T * result -> Prop).
Hypothesis idle_rely : forall w w1 t, rely w w1 -> Inv w1 -> idle w t -> idle w1 t.
Hypothesis spec_rely : forall w w1 d, rely w w1 -> Inv w1 -> spec w d -> spec w1 d.
Hypothesis calls_ok : forall c w t, allowed c = true -> Inv w -> idle w t ->
  wp act Inv rely rely (body c) w (begin t) (fun r w t => idle w t /\ spec w (c, t, r)).

Definition thread_ok (w : W) (th : thread) : Prop :=
  Forall (spec w) (th_done th) /\
  match th_running th with
  | None => idle w (th_local th)
  | Some (c, p) => wp act Inv rely rely p w (th_local th) (fun r w t => idle w t /\ spec w (c, t, r))
  end.

Definition config_ok (cf : config) : Prop := Inv cf.1 /\ Forall (thread_ok cf.1) cf.2.

Lemma thread_ok_rely w w1 th : rely w w1 -> Inv w1 -> thread_ok w th -> thread_ok w1 th.
Proof.
  intros Hr Hi [Hd Ht]. split; [eapply Forall_impl; [exact Hd|]; intros d; by apply spec_rely|].
  destruct (th_running th) as [[c p]|]; [by eapply wp_rely|by eapply idle_rely].
Qed.

Lemma config_ok_step cf cf' : config_ok cf -> step cf cf' -> config_ok cf' /\ rely cf.1 cf'.1.
Proof.
  intros [Hi Hts] Hstep.
  destruct Hstep as [w ts i th c Hth Hr Ha|w ts i th c p ch w2 t2 p2 Hth Hr Hp|w ts i th c r Hth Hr]; simpl in *;
    pose proof (Forall_lookup_1 _ _ _ _ Hts Hth) as [Hd Hrun]; rewrite Hr in Hrun.
  - split; [|reflexivity]. split; [done|]. apply Forall_insert; [done|]. split; [done|]. simpl. by apply calls_ok.
  - eapply wp_step in Hp as (Hi2 & Hg & Hwp); [|done..].
    assert (rely w w2) as Hrel by (destruct Hg as [| ->]; [done|reflexivity]).
    split; [|done]. split; [done|]. apply Forall_insert.
    + eapply Forall_impl; [exact Hts|]. intros th'. by apply thread_ok_rely.
    + split; [|done]. eapply Forall_impl; [exact Hd|]. intros d. by apply spec_rely.
  - split; [|reflexivity]. split; [done|]. destruct (Hrun w (reflexivity w) Hi) as [Hid Hspec].
    apply Forall_insert; [done|]. split; [|done]. simpl. apply Forall_app. auto.
Qed.

Lemma config_ok_run cf cf' : config_ok cf -> rtc step cf cf' -> config_ok cf' /\ rely cf.1 cf'.1.
Proof.
  intros H Hr. induction Hr as [cf|cf cf1 cf2 Hs _ IH]; [by split|].
  destruct (config_ok_step _ _ H Hs) as [H1 R1]. destruct (IH H1) as [H2 R2]. split; [done|by etrans].
Qed.

(** ** A thread that is alone relies on nobody: nothing changes but by itself *)

Context (guar : relation W) (kept : W -> call * T * result -> Prop).
Hypothesis kept_guar : forall w w1 d, guar w w1 -> kept w d -> kept w1 d.
Abbreviation wp_alone := (wp act (fun _ => True) eq guar).
Hypothesis calls_alone : forall c w t, allowed c = true -> idle w t ->
  wp_alone (body c) w (begin t) (fun r w t => idle w t /\ kept w (c, t, r)).

Definition alone_ok (cf : config) : Prop :=
  exists w th, cf = (w, [th]) /\ Forall (kept w) (th_done th) /\
    match th_running th with
    | None => idle w (th_local th)
    | Some (c, p) => wp_alone p w (th_local th) (fun r w t => idle w t /\ kept w (c, t, r))
    end.

Lemma alone_ok_run cf cf' : alone_ok cf -> rtc step cf cf' -> alone_ok cf'.
Proof.
  intros H Hr. induction Hr as [|cf cf1 cf2 Hstep _ IH]; [done|]. apply IH. clear IH. destruct H as (w0 & th0 & -> & Hd & Hrun).
  assert (forall i th, [th0] !! i = Some th -> i = O /\ th = th0) as Hone.
  { intros [|[|i]] th Hi; [by injection Hi|done..]. }
  remember (w0, [th0]) as cf0 eqn:Hcf.
  destruct Hstep as [w ts i th c Hi Hr Ha|w ts i th c p ch w2 t2 p2 Hi Hr Hp|w ts i th c r Hi Hr];
    injection Hcf as -> ->; apply Hone in Hi as [-> ->]; rewrite Hr in Hrun.
  - eexists w0, _. split; [reflexivity|]. split; [done|]. simpl. by apply calls_alone.
  - apply (wp_step act (fun _ => True) eq guar _ _ _ _ _ _ _ _ Logic.I Hrun) in Hp as (_ & Hg & Hwp).
    eexists _, _. split; [reflexivity|]. split; [|exact Hwp]. simpl.
    destruct Hg as [Hg| ->]; [|done]. eapply Forall_impl; [exact Hd|]. intros d. by apply kept_guar.
  - destruct (Hrun w0 eq_refl Logic.I) as [Hid Hk]. eexists w0, _. split; [reflexivity|].
    split; [|exact Hid]. apply Forall_app. auto.
Qed.

End threads.
