(* ===== verification/Mmap.v ===== *)
(** [src/orbis_mmap.cpp]: musl's anonymous mappings served out of direct
    memory.  This file has the carve-outs with their block lists, the entry
    points [__mmap], [__munmap], [__madvise] and [mmapDirectDescribe].
    [MmapBlocks] has the lemmas about one block list, [MmapRun] the invariant
    of the state, the abstract allocator and the properties.

    The whole of [mapOwned] up to the zero fill, and of [__munmap] and
    [__madvise] up to the forwarded call, runs under one lock; here calls are
    taken one after the other, [MmapLock] has threads that interleave and
    [MmapRace] the single loads and stores.  [carve[0 .. carves)] and [blk[0 .. n)] are
    lists.  The kernel is a parameter that answers from the history of calls;
    of a log line its kind and arguments are kept. *)
From stdpp Require Import prelude list numbers.
From S2P Require Import Prelude.
Open Scope Z_scope.

Module Mmap.

Definition Page : Z := 0x4000.
Definition DirectAlign : Z := 0x200000.
Definition CarveBytes : Z := 128 * 1024 * 1024.
Definition MaxCarves : nat := 12.
Definition DirectCap : Z := Z.of_nat MaxCarves * CarveBytes.
Definition MaxBlocks : nat := 1536.
Arguments MaxBlocks : simpl never.
Arguments MaxCarves : simpl never.
Definition OwnedProt : Z := 3.
Definition OwnedFlags : Z := 0x1002.
Definition LogCap : Z := 8.
Definition EINVAL : Z := 22.

Record block := mk_block { b_off : Z; b_size : Z; b_used : Z }.

Record carve_out := mk_carve { c_va : Z; c_phys : Z; c_size : Z; c_blk : list block }.

(** Calls into the kernel with what they answered; error codes are the SDK's,
    0 is success. *)
Inductive kcall :=
  | KAlloc (len err phys : Z)
  | KMap (phys len err va : Z)
  | KUnmap (va len : Z)
  | KRelease (phys len : Z)
  | KMmap (addr len : Z)
  | KMunmap (addr len : Z)
  | KMadvise (addr len : Z).

Record kernel := mk_kernel {
  k_alloc : list kcall -> Z -> Z * Z;
  k_map : list kcall -> Z -> Z -> Z * Z;
  k_mmap : list kcall -> Z -> Z -> Z -> Z -> Z -> Z -> Z;
  k_munmap : list kcall -> Z -> Z -> Z;
  k_madvise : list kcall -> Z -> Z -> Z -> Z }.

Inductive line :=
  | Active | RefusedAll (need : Z) | RefusedCap (need len total : Z) | AllocFailed (len err : Z)
  | MapFailed (len phys err : Z) | Unaligned (va : Z) | Taken (i len va phys total : Z)
  | Anomaly (p len off : Z) | Fallback (want held live : Z).

Record counters := mk_counters {
  liveBytes : Z; peakLive : Z; cumMapped : Z; mapCalls : Z; unmapCalls : Z;
  fallbackCalls : Z; fallbackBytes : Z; anomalies : Z; fallbackLogged : Z; anomalyLogged : Z }.

Record bumps := mk_bumps {
  mmapCalls : Z; mmapCarved : Z; mmapFell : Z; munmapCalls : Z; munmapCarved : Z; munmapFell : Z }.

Record mm := mk_mm {
  carve : list carve_out; heldBytes : Z; cnt : counters; calls : bumps; bannerDone : Z;
  errno : Z; lines : list line; hist : list kcall; ram : Z -> Z }.

Definition initial (m : Z -> Z) : mm :=
  mk_mm [] 0 (mk_counters 0 0 0 0 0 0 0 0 0 0) (mk_bumps 0 0 0 0 0 0) 0 0 [] [] m.

Definition set_carve (s : mm) c := mk_mm c (heldBytes s) (cnt s) (calls s) (bannerDone s)
  (errno s) (lines s) (hist s) (ram s).
Definition set_held (s : mm) h := mk_mm (carve s) h (cnt s) (calls s) (bannerDone s)
  (errno s) (lines s) (hist s) (ram s).
Definition set_cnt (s : mm) c := mk_mm (carve s) (heldBytes s) c (calls s) (bannerDone s)
  (errno s) (lines s) (hist s) (ram s).
Definition set_calls (s : mm) c := mk_mm (carve s) (heldBytes s) (cnt s) c (bannerDone s)
  (errno s) (lines s) (hist s) (ram s).
Definition set_banner (s : mm) b := mk_mm (carve s) (heldBytes s) (cnt s) (calls s) b
  (errno s) (lines s) (hist s) (ram s).
Definition set_errno (s : mm) e := mk_mm (carve s) (heldBytes s) (cnt s) (calls s) (bannerDone s)
  e (lines s) (hist s) (ram s).
Definition say (s : mm) l := mk_mm (carve s) (heldBytes s) (cnt s) (calls s) (bannerDone s)
  (errno s) (l :: lines s) (hist s) (ram s).
Definition did (s : mm) k := mk_mm (carve s) (heldBytes s) (cnt s) (calls s) (bannerDone s)
  (errno s) (lines s) (k :: hist s) (ram s).
Definition set_ram (s : mm) m := mk_mm (carve s) (heldBytes s) (cnt s) (calls s) (bannerDone s)
  (errno s) (lines s) (hist s) m.

Definition alignUp (v a : Z) : Z := Z.land (u64 (v + a - 1)) (u64 (Z.lnot (a - 1))).

Definition banner (s : mm) : mm :=
  if bannerDone s =? 0 then say (set_banner s 1) Active else set_banner s 1.

Definition noteLive (c : counters) (n : Z) : counters :=
  let now := u64 (liveBytes c + n) in
  mk_counters now (if now >? peakLive c then now else peakLive c) (u64 (cumMapped c + n))
    (u64 (mapCalls c + 1)) (unmapCalls c) (fallbackCalls c) (fallbackBytes c) (anomalies c)
    (fallbackLogged c) (anomalyLogged c).

(** The loop over [blk[i]]; [n] is [c.n], which the loop tests before it
    splits.  The result is the offset and the blocks afterwards. *)
Fixpoint alloc_blocks (n : nat) (bs : list block) (len : Z) : option (Z * list block) :=
  match bs with
  | [] => None
  | b :: rest =>
      let next :=
        match alloc_blocks n rest len with
        | Some (off, rest') => Some (off, b :: rest')
        | None => None
        end in
      if negb (b_used b =? 0) || (b_size b <? len) then next
      else if b_size b =? len then Some (b_off b, mk_block (b_off b) (b_size b) 1 :: rest)
      else if (MaxBlocks <=? n)%nat then next
      else Some (b_off b, mk_block (b_off b) len 1 ::
                          mk_block (b_off b + len) (b_size b - len) 0 :: rest)
  end.

Definition set_blk (c : carve_out) bs : carve_out := mk_carve (c_va c) (c_phys c) (c_size c) bs.

Definition allocInLocked (c : carve_out) (len : Z) : option (Z * carve_out) :=
  match alloc_blocks (length (c_blk c)) (c_blk c) len with
  | Some (off, bs) => Some (c_va c + off, set_blk c bs)
  | None => None
  end.

Definition addCarveLocked (K : kernel) (s : mm) (need : Z) : mm * bool :=
  if (MaxCarves <=? length (carve s))%nat then (say s (RefusedAll need), false) else
  let len := alignUp (if need >? CarveBytes then need else CarveBytes) DirectAlign in
  let held := heldBytes s in
  if u64 (held + len) >? DirectCap then (say s (RefusedCap need len (u64 (held + len))), false) else
  let '(errA, phys) := k_alloc K (hist s) len in
  let s := did s (KAlloc len errA phys) in
  if negb (errA =? 0) then (say s (AllocFailed len errA), false) else
  let '(errM, va) := k_map K (hist s) phys len in
  let s := did s (KMap phys len errM va) in
  if negb (errM =? 0) then (did (say s (MapFailed len phys errM)) (KRelease phys len), false) else
  if negb (Z.land va (Page - 1) =? 0) then
    (did (did (say s (Unaligned va)) (KUnmap va len)) (KRelease phys len), false) else
  let i := Z.of_nat (length (carve s)) in
  let s := set_carve s (carve s ++ [mk_carve va phys len [mk_block 0 len 0]]) in
  (say (set_held s (u64 (held + len))) (Taken i len va phys (u64 (held + len))), true).

(** The binary search of [freeInLocked]: the first index whose offset is not
    below [off]. *)
Definition search (fuel : nat) (bs : list block) (off : Z) : outcome nat :=
  p ← while fuel
        (fun p : nat * nat => Ok (p.1 <? p.2)%nat)
        (fun p => let m := ((p.1 + p.2) / 2)%nat in
           match bs !! m with
           | Some b => if b_off b <? off then Ok (m + 1, p.2)%nat else Ok (p.1, m)
           | None => Fault
           end)
        (0, length bs)%nat;
  Ok p.1.

(** Block [lo] swallows its right neighbour when that one is free. *)
Definition swallow (lo : nat) (bs : list block) : list block :=
  match bs !! lo, bs !! S lo with
  | Some a, Some b =>
      if b_used b =? 0
      then <[lo := mk_block (b_off a) (b_size a + b_size b) (b_used a)]> (delete (S lo) bs)
      else bs
  | _, _ => bs
  end.

(** The neighbour on the left, when it is free, swallows block [lo]. *)
Definition swallow_back (lo : nat) (bs : list block) : list block :=
  match lo with
  | O => bs
  | S j =>
      match bs !! j, bs !! lo with
      | Some a, Some b =>
          if b_used a =? 0
          then <[j := mk_block (b_off a) (b_size a + b_size b) (b_used a)]> (delete lo bs)
          else bs
      | _, _ => bs
      end
  end.

(** The test for a live block that matches exactly. *)
Definition exact (b : block) (off len : Z) : bool :=
  (b_off b =? off) && negb (b_used b =? 0) && (b_size b =? len).

Definition set_lived (c : counters) (len : Z) : counters :=
  mk_counters (u64 (liveBytes c - len)) (peakLive c) (cumMapped c) (mapCalls c)
    (u64 (unmapCalls c + 1)) (fallbackCalls c) (fallbackBytes c) (anomalies c)
    (fallbackLogged c) (anomalyLogged c).

Definition set_anomaly (c : counters) : counters :=
  mk_counters (liveBytes c) (peakLive c) (cumMapped c) (mapCalls c) (unmapCalls c)
    (fallbackCalls c) (fallbackBytes c) (u64 (anomalies c + 1))
    (fallbackLogged c) (u32 (anomalyLogged c + 1)).

(** [freeInLocked(carve[i], p, len)]. *)
Definition freeInLocked (fuel : nat) (s : mm) (i : nat) (c : carve_out) (p len : Z)
    : outcome (mm * bool) :=
  let off := u64 (p - c_va c) in
  lo ← search fuel (c_blk c) off;
  match c_blk c !! lo with
  | Some b =>
      if exact b off len then
        let bs := <[lo := mk_block (b_off b) (b_size b) 0]> (c_blk c) in
        let bs := swallow_back lo (swallow lo bs) in
        Ok (set_cnt (set_carve s (<[i := set_blk c bs]> (carve s))) (set_lived (cnt s) len), true)
      else
        let s' := set_cnt s (set_anomaly (cnt s)) in
        Ok (if anomalyLogged (cnt s) <? LogCap then say s' (Anomaly p len off) else s', false)
  | None =>
      let s' := set_cnt s (set_anomaly (cnt s)) in
      Ok (if anomalyLogged (cnt s) <? LogCap then say s' (Anomaly p len off) else s', false)
  end.

Definition in_carve (p : Z) (c : carve_out) : bool := (c_va c <=? p) && (p <? c_va c + c_size c).

Fixpoint carveOfLocked (cs : list carve_out) (p : Z) : option (nat * carve_out) :=
  match cs with
  | [] => None
  | c :: rest =>
      if in_carve p c then Some (0%nat, c)
      else match carveOfLocked rest p with Some (i, d) => Some (S i, d) | None => None end
  end.

Definition isOwnedRequest (addr prot flags fd off : Z) : bool :=
  (addr =? 0) && (prot =? OwnedProt) && (flags =? OwnedFlags) && (fd <? 0) && (off =? 0).

(** [for (i < carves && out == nullptr) out = allocInLocked(carve[i], want);] *)
Fixpoint alloc_any (cs : list carve_out) (len : Z) : option (Z * list carve_out) :=
  match cs with
  | [] => None
  | c :: rest =>
      match allocInLocked c len with
      | Some (p, c') => Some (p, c' :: rest)
      | None =>
          match alloc_any rest len with
          | Some (p, rest') => Some (p, c :: rest')
          | None => None
          end
      end
  end.

(** [allocInLocked(carve[carves-1], want)]. *)
Definition alloc_last (cs : list carve_out) (len : Z) : option (Z * list carve_out) :=
  match cs !! pred (length cs) with
  | Some c =>
      match allocInLocked c len with
      | Some (p, c') => Some (p, <[pred (length cs) := c']> cs)
      | None => None
      end
  | None => None
  end.

Definition memset (m : Z -> Z) (p v n : Z) : Z -> Z :=
  fun a => if (p <=? a) && (a <? p + n) then v else m a.

Definition set_fell (c : counters) (want : Z) : counters :=
  mk_counters (liveBytes c) (peakLive c) (cumMapped c) (mapCalls c) (unmapCalls c)
    (u64 (fallbackCalls c + 1)) (u64 (fallbackBytes c + want)) (anomalies c)
    (u32 (fallbackLogged c + 1)) (anomalyLogged c).

(** The end of the locked part of [mapOwned] when a block was found, and when
    none was. *)
Definition serve (s : mm) (cs : list carve_out) (p want : Z) : mm * option Z :=
  (set_cnt (set_carve s cs) (noteLive (cnt s) want), Some p).

Definition fall_back (s : mm) (want : Z) : mm * option Z :=
  let s' := set_cnt s (set_fell (cnt s) want) in
  (if fallbackLogged (cnt s) <? LogCap
   then say s' (Fallback want (heldBytes s) (liveBytes (cnt s))) else s', None).

(** The block under the guard. *)
Definition mapOwned_locked (K : kernel) (s : mm) (want : Z) : mm * option Z :=
  match alloc_any (carve s) want with
  | Some (p, cs) => serve s cs p want
  | None =>
      let '(s1, ok) := addCarveLocked K s want in
      match (if ok : bool then alloc_last (carve s1) want else None) with
      | Some (p, cs) => serve s1 cs p want
      | None => fall_back s1 want
      end
  end.

Definition mapOwned (K : kernel) (s : mm) (len : Z) : mm * Z :=
  let want := alignUp len Page in
  let '(s, out) := mapOwned_locked K s want in
  match out with
  | Some p => (set_ram s (memset (ram s) p 0 want), p)
  | None => (did s (KMmap 0 len), k_mmap K (hist s) 0 len OwnedProt OwnedFlags (-1) 0)
  end.

Definition bump_map (b : bumps) : bumps := mk_bumps (u64 (mmapCalls b + 1)) (mmapCarved b)
  (mmapFell b) (munmapCalls b) (munmapCarved b) (munmapFell b).
Definition bump_carved (b : bumps) : bumps := mk_bumps (mmapCalls b) (u64 (mmapCarved b + 1))
  (mmapFell b) (munmapCalls b) (munmapCarved b) (munmapFell b).
Definition bump_fell (b : bumps) : bumps := mk_bumps (mmapCalls b) (mmapCarved b)
  (u64 (mmapFell b + 1)) (munmapCalls b) (munmapCarved b) (munmapFell b).
Definition bump_unmap (b : bumps) : bumps := mk_bumps (mmapCalls b) (mmapCarved b)
  (mmapFell b) (u64 (munmapCalls b + 1)) (munmapCarved b) (munmapFell b).
Definition bump_unmap_carved (b : bumps) : bumps := mk_bumps (mmapCalls b) (mmapCarved b)
  (mmapFell b) (munmapCalls b) (u64 (munmapCarved b + 1)) (munmapFell b).
Definition bump_unmap_fell (b : bumps) : bumps := mk_bumps (mmapCalls b) (mmapCarved b)
  (mmapFell b) (munmapCalls b) (munmapCarved b) (u64 (munmapFell b + 1)).

(** [__mmap], as built with [ORBIS_MMAP_DIRECT] on. *)
Definition __mmap (K : kernel) (s : mm) (addr len prot flags fd off : Z) : mm * Z :=
  let s := set_calls s (bump_map (calls s)) in
  if negb (isOwnedRequest addr prot flags fd off) then
    let s := set_calls s (bump_fell (calls s)) in
    (did s (KMmap addr len), k_mmap K (hist s) addr len prot flags fd off)
  else
    let s := banner s in
    mapOwned K (set_calls s (bump_carved (calls s))) len.

Definition __munmap (K : kernel) (fuel : nat) (s : mm) (addr len : Z) : outcome (mm * Z) :=
  let s := set_calls s (bump_unmap (calls s)) in
  match carveOfLocked (carve s) addr with
  | Some (i, c) =>
      r ← freeInLocked fuel s i c addr (alignUp len Page);
      let '(s, ok) := r in
      if ok : bool then Ok (set_calls s (bump_unmap_carved (calls s)), 0)
      else Ok (set_errno s EINVAL, -1)
  | None =>
      let s := set_calls s (bump_unmap_fell (calls s)) in
      Ok (did s (KMunmap addr len), k_munmap K (hist s) addr len)
  end.

Definition __madvise (K : kernel) (s : mm) (addr len advice : Z) : mm * Z :=
  match carveOfLocked (carve s) addr with
  | Some _ => (s, 0)
  | None => (did s (KMadvise addr len), k_madvise K (hist s) addr len advice)
  end.

Record span := mk_mspan {
  ms_index : Z; ms_base : Z; ms_size : Z; ms_offset : Z;
  ms_found : bool; ms_used : bool; ms_off : Z; ms_bsize : Z }.

Fixpoint block_of (bs : list block) (off : Z) : option block :=
  match bs with
  | [] => None
  | b :: rest =>
      if (off <? b_off b) || (b_off b + b_size b <=? off) then block_of rest off else Some b
  end.

Fixpoint describe_from (i : Z) (cs : list carve_out) (p : Z) : option span :=
  match cs with
  | [] => None
  | c :: rest =>
      if (c_va c =? 0) || (p <? c_va c) || (c_va c + c_size c <=? p)
      then describe_from (i + 1) rest p
      else
        let off := u64 (p - c_va c) in
        Some (match block_of (take MaxBlocks (c_blk c)) off with
              | Some b => mk_mspan (i + 1) (c_va c) (c_size c) off true (negb (b_used b =? 0))
                            (b_off b) (b_size b)
              | None => mk_mspan (i + 1) (c_va c) (c_size c) off false false 0 0
              end)
  end.

Definition mmapDirectDescribe (s : mm) (p : Z) : option span :=
  describe_from 0 (take MaxCarves (carve s)) p.

(** The figures of the two census lines. *)
Definition mmapDirectReport (s : mm) : list Z * list Z :=
  ([heldBytes s / 1024; Z.of_nat (length (carve s)); liveBytes (cnt s) / 1024;
    peakLive (cnt s) / 1024],
   [mapCalls (cnt s); unmapCalls (cnt s); cumMapped (cnt s) / 1024; fallbackCalls (cnt s);
    fallbackBytes (cnt s) / 1024; anomalies (cnt s)]).

Definition orbis_mmap_counts (s : mm) : list Z :=
  [mmapCalls (calls s); mmapCarved (calls s); mmapFell (calls s);
   munmapCalls (calls s); munmapCarved (calls s); munmapFell (calls s)].

End Mmap.
Export Mmap.
