(* ===== verification/MmapBlocks.v ===== *)
(** One block list of [Mmap]: its invariant [blocks_ok], what taking and
    freeing a block does to the live blocks, and the binary search. *)
From stdpp Require Import prelude list numbers.
From S2P Require Import Prelude Mmap.
Open Scope Z_scope.

(** From [lo] to [hi] the blocks follow one another without a gap, none is
    empty, all are whole pages, and no two neighbours are both free; [f] says
    whether the block before [lo] is free. *)
Fixpoint blocks_ok (f : bool) (lo hi : Z) (bs : list block) : Prop :=
  match bs with
  | [] => lo = hi
  | b :: rest =>
      b_off b = lo /\ 0 < b_size b /\ (Page | b_size b) /\ (f = true -> b_used b <> 0) /\
      blocks_ok (b_used b =? 0) (lo + b_size b) hi rest
  end.

Definition free_after (f : bool) (bs : list block) : bool :=
  match list.last bs with Some b => b_used b =? 0 | None => f end.

(** Offset [o] starts a live block of [l] bytes. *)
Definition live_in (bs : list block) (o l : Z) : Prop :=
  exists b, b ∈ bs /\ b_used b <> 0 /\ b_off b = o /\ b_size b = l.

Lemma free_after_snoc f bs b : free_after f (bs ++ [b]) = (b_used b =? 0).
Proof. unfold free_after. by rewrite list.last_snoc. Qed.

Lemma free_after_cons f b bs : free_after f (b :: bs) = free_after (b_used b =? 0) bs.
Proof.
  unfold free_after. destruct bs as [|c bs]; [done|]. rewrite list.last_cons_cons.
  by destruct (list.last (c :: bs)) eqn:H; [|apply list.last_None in H].
Qed.

Lemma blocks_ok_app f lo hi xs ys :
  blocks_ok f lo hi (xs ++ ys) <->
  exists mid, blocks_ok f lo mid xs /\ blocks_ok (free_after f xs) mid hi ys.
Proof.
  revert f lo. induction xs as [|x xs IH]; intros f lo; cbn [app blocks_ok].
  - unfold free_after. cbn. naive_solver.
  - setoid_rewrite IH. setoid_rewrite free_after_cons. naive_solver.
Qed.

Lemma blocks_ok_weaken f lo hi bs : blocks_ok f lo hi bs -> blocks_ok false lo hi bs.
Proof. destruct bs; cbn; naive_solver. Qed.

Lemma blocks_ok_le f lo hi bs : blocks_ok f lo hi bs -> lo <= hi.
Proof.
  revert f lo. induction bs as [|b bs IH]; cbn; intros f lo; [lia|].
  intros (_ & H1 & _ & _ & H2%IH). lia.
Qed.

(** A block inside a list lies between the bounds, page aligned. *)
Lemma blocks_ok_bounds f lo hi bs b :
  blocks_ok f lo hi bs -> b ∈ bs ->
  lo <= b_off b /\ 0 < b_size b /\ b_off b + b_size b <= hi /\
  (Page | b_off b - lo) /\ (Page | b_size b).
Proof.
  revert f lo. induction bs as [|c bs IH]; cbn; intros f lo; [by intros _ ?%not_elem_of_nil|].
  intros (H1 & H2 & H3 & H4 & H5) [->|Hb]%elem_of_cons.
  - apply blocks_ok_le in H5. rewrite H1, Z.sub_diag. repeat split; try lia; try done. apply Z.divide_0_r.
  - destruct (IH _ _ H5 Hb) as (K1 & K2 & K3 & K4 & K5). repeat split; try lia; try done.
    replace (b_off b - lo) with (b_off b - (lo + b_size c) + b_size c) by lia.
    by apply Z.divide_add_r.
Qed.

(** Blocks that do not start at the same offset are apart. *)
Lemma blocks_ok_apart f lo hi bs b c :
  blocks_ok f lo hi bs -> b ∈ bs -> c ∈ bs ->
  b = c \/ b_off b + b_size b <= b_off c \/ b_off c + b_size c <= b_off b.
Proof.
  revert f lo. induction bs as [|a bs IH]; cbn; intros f lo; [by intros _ ?%not_elem_of_nil|].
  intros (H1 & H2 & H3 & H4 & H5) [->|Hb]%elem_of_cons [->|Hc]%elem_of_cons; [by left| | |by eapply IH].
  - apply (blocks_ok_bounds _ _ _ _ _ H5) in Hc. lia.
  - apply (blocks_ok_bounds _ _ _ _ _ H5) in Hb. lia.
Qed.

Lemma live_in_bounds f lo hi bs o l :
  blocks_ok f lo hi bs -> live_in bs o l ->
  lo <= o /\ 0 < l /\ o + l <= hi /\ (Page | o - lo) /\ (Page | l).
Proof. intros Hok (b & Hb & _ & <- & <-). by apply (blocks_ok_bounds f lo hi bs). Qed.

Lemma live_in_apart f lo hi bs o l o' l' :
  blocks_ok f lo hi bs -> live_in bs o l -> live_in bs o' l' ->
  (o = o' /\ l = l') \/ o + l <= o' \/ o' + l' <= o.
Proof.
  intros Hok (b & Hb & _ & <- & <-) (c & Hc & _ & <- & <-).
  destruct (blocks_ok_apart f lo hi bs b c) as [->|]; auto.
Qed.

Lemma live_in_nil o l : ~ live_in [] o l.
Proof. intros (b & Hb & _). by apply not_elem_of_nil in Hb. Qed.

Lemma live_in_cons b bs o l :
  live_in (b :: bs) o l <-> (b_used b <> 0 /\ b_off b = o /\ b_size b = l) \/ live_in bs o l.
Proof. unfold live_in. setoid_rewrite elem_of_cons. naive_solver. Qed.

Lemma live_in_app xs ys o l : live_in (xs ++ ys) o l <-> live_in xs o l \/ live_in ys o l.
Proof.
  induction xs as [|b xs IH]; cbn [app].
  - pose proof (live_in_nil o l). tauto.
  - rewrite !live_in_cons, IH. tauto.
Qed.

(** Bytes in live blocks. *)
Fixpoint used_sum (bs : list block) : Z :=
  match bs with [] => 0 | b :: bs => (if b_used b =? 0 then 0 else b_size b) + used_sum bs end.

Lemma used_sum_app xs ys : used_sum (xs ++ ys) = used_sum xs + used_sum ys.
Proof. induction xs; cbn; lia. Qed.

Lemma used_sum_bounds f lo hi bs : blocks_ok f lo hi bs -> 0 <= used_sum bs <= hi - lo.
Proof.
  revert f lo. induction bs as [|b bs IH]; cbn; intros f lo; [lia|].
  intros (_ & H1 & _ & _ & H2%IH). destruct (b_used b =? 0); lia.
Qed.

(** ** Taking a block *)

(** What the loop passes over. *)
Definition unfit (n : nat) (len : Z) (b : block) : Prop :=
  b_used b <> 0 \/ b_size b < len \/ (b_size b <> len /\ (MaxBlocks <= n)%nat).

Definition taken (b : block) (len : Z) : list block :=
  if b_size b =? len then [mk_block (b_off b) len 1]
  else [mk_block (b_off b) len 1; mk_block (b_off b + len) (b_size b - len) 0].

Definition fits (n : nat) (len : Z) (b : block) : Prop :=
  b_used b = 0 /\ len <= b_size b /\ (b_size b = len \/ (n < MaxBlocks)%nat).

Lemma alloc_blocks_some n bs len off bs' :
  alloc_blocks n bs len = Some (off, bs') ->
  exists pre b post, bs = pre ++ b :: post /\ Forall (unfit n len) pre /\ fits n len b /\
    off = b_off b /\ bs' = pre ++ taken b len ++ post.
Proof.
  revert off bs'. induction bs as [|b bs IH]; cbn [alloc_blocks]; intros off bs'; [done|].
  destruct (negb (b_used b =? 0) || (b_size b <? len)) eqn:Hskip.
  { destruct (alloc_blocks n bs len) as [[o r]|]; [|done]. intros [= <- <-].
    destruct (IH _ _ eq_refl) as (pre & c & post & -> & Hpre & Hf & -> & ->).
    exists (b :: pre), c, post. repeat split; try apply Hf; try done.
    constructor; [|done]. unfold unfit. lia. }
  destruct (Z.eqb_spec (b_size b) len) as [He|Hne].
  { intros [= <- <-]. exists [], b, bs. unfold taken, fits. rewrite He, Z.eqb_refl.
    repeat split; auto; lia. }
  destruct (Nat.leb_spec MaxBlocks n).
  { destruct (alloc_blocks n bs len) as [[o r]|]; [|done]. intros [= <- <-].
    destruct (IH _ _ eq_refl) as (pre & c & post & -> & Hpre & Hf & -> & ->).
    exists (b :: pre), c, post. repeat split; try apply Hf; try done.
    constructor; [|done]. unfold unfit. lia. }
  intros [= <- <-]. exists [], b, bs. unfold taken, fits.
  destruct (Z.eqb_spec (b_size b) len); [done|]. repeat split; auto; lia.
Qed.

Lemma alloc_blocks_none n bs len :
  alloc_blocks n bs len = None -> Forall (unfit n len) bs.
Proof.
  induction bs as [|b bs IH]; cbn [alloc_blocks]; [constructor|].
  destruct (negb (b_used b =? 0) || (b_size b <? len)) eqn:Hskip.
  { destruct (alloc_blocks n bs len) as [[]|]; [done|]. intros _.
    constructor; [unfold unfit; lia|auto]. }
  destruct (Z.eqb_spec (b_size b) len) as [He|Hne]; [done|].
  destruct (Nat.leb_spec MaxBlocks n); [|done].
  destruct (alloc_blocks n bs len) as [[]|]; [done|]. intros _.
  constructor; [unfold unfit; lia|auto].
Qed.

Section Taking.
  Context (f : bool) (lo hi len : Z) (bs bs' : list block) (off : Z) (n : nat).
  Hypothesis Hok : blocks_ok f lo hi bs.
  Hypothesis Hlen : 0 < len.
  Hypothesis Hpage : (Page | len).
  Hypothesis Halloc : alloc_blocks n bs len = Some (off, bs').

Lemma alloc_blocks_ok : blocks_ok f lo hi bs'.
Proof.
  destruct (alloc_blocks_some _ _ _ _ _ Halloc) as (pre & b & post & -> & _ & Hf & -> & ->).
  apply blocks_ok_app in Hok as (mid & Hpre & H1 & H2 & H3 & H4 & H5).
  apply blocks_ok_app. exists mid. split; [done|]. destruct Hf as (Hu & Hle & _).
  rewrite Hu in H5. cbn in H5. unfold taken.
  destruct (Z.eqb_spec (b_size b) len) as [He|Hne]; cbn.
  - rewrite <- He. repeat split; try done. by apply (blocks_ok_weaken true).
  - repeat split; try done; try lia.
    + apply Z.divide_sub_r; done.
    + by replace (mid + len + (b_size b - len)) with (mid + b_size b) by lia.
Qed.

Lemma alloc_blocks_live o l :
  live_in bs' o l <-> (o = off /\ l = len) \/ live_in bs o l.
Proof.
  destruct (alloc_blocks_some _ _ _ _ _ Halloc) as (pre & b & post & -> & _ & Hf & -> & ->).
  destruct Hf as (Hu & _). unfold taken.
  destruct (b_size b =? len); rewrite !live_in_app, !live_in_cons; cbn;
    pose proof (live_in_nil o l); intuition congruence.
Qed.

(** The bytes handed out were free and stay inside. *)
Lemma alloc_blocks_fresh :
  lo <= off /\ off + len <= hi /\ (Page | off - lo) /\
  forall o l, live_in bs o l -> off + len <= o \/ o + l <= off.
Proof.
  destruct (alloc_blocks_some _ _ _ _ _ Halloc) as (pre & b & post & E & _ & (Hu & Hle & _) & -> & _).
  assert (b ∈ bs) as Hb by (rewrite E; set_solver).
  destruct (blocks_ok_bounds _ _ _ _ _ Hok Hb) as (? & ? & ? & ? & ?).
  repeat split; try lia; try done.
  intros o l (c & Hc & Hcu & <- & <-).
  destruct (blocks_ok_apart _ _ _ _ _ _ Hok Hb Hc) as [->|]; [done|lia].
Qed.

Lemma alloc_blocks_used : used_sum bs' = used_sum bs + len.
Proof.
  destruct (alloc_blocks_some _ _ _ _ _ Halloc) as (pre & b & post & -> & _ & (Hu & _) & -> & ->).
  unfold taken. rewrite !used_sum_app. cbn. rewrite Hu.
  destruct (b_size b =? len); cbn; lia.
Qed.

Lemma alloc_blocks_length :
  (length bs <= n)%nat -> (length bs <= MaxBlocks)%nat -> (length bs' <= MaxBlocks)%nat.
Proof.
  destruct (alloc_blocks_some _ _ _ _ _ Halloc) as (pre & b & post & -> & _ & (_ & _ & Hs) & _ & ->).
  unfold taken. destruct (Z.eqb_spec (b_size b) len); rewrite !length_app; cbn; intros; lia.
Qed.

End Taking.

(** ** Freeing a block *)

Definition freed (lo : nat) (b : block) (bs : list block) : list block :=
  swallow_back lo (swallow lo (<[lo := mk_block (b_off b) (b_size b) 0]> bs)).

(** What becomes of a free block [a] and its free right neighbour. *)
Definition glue (a b : block) : list block :=
  if b_used b =? 0 then [mk_block (b_off a) (b_size a + b_size b) (b_used a)] else [a; b].

Definition glue_right (a : block) (post : list block) : list block :=
  match post with [] => [a] | b :: post => glue a b ++ post end.

Lemma lookup_at {A} (pre : list A) a post : (pre ++ a :: post) !! length pre = Some a.
Proof. by rewrite lookup_app_r, Nat.sub_diag by done. Qed.
Lemma lookup_after {A} (pre : list A) a post : (pre ++ a :: post) !! S (length pre) = post !! 0%nat.
Proof. rewrite lookup_app_r by lia. by replace (S (length pre) - length pre)%nat with 1%nat by lia. Qed.
Lemma insert_at {A} (pre : list A) a b post : <[length pre := b]> (pre ++ a :: post) = pre ++ b :: post.
Proof. rewrite insert_app_r_alt by done. by rewrite Nat.sub_diag. Qed.
Lemma delete_after {A} (pre : list A) a b post :
  delete (S (length pre)) (pre ++ a :: b :: post) = pre ++ a :: post.
Proof. induction pre as [|x pre IH]; [done|]. cbn. f_equal. exact IH. Qed.

Lemma swallow_spec pre a post :
  swallow (length pre) (pre ++ a :: post) = pre ++ glue_right a post.
Proof.
  unfold swallow. rewrite lookup_at, lookup_after. destruct post as [|b post]; cbn; [done|].
  unfold glue. destruct (b_used b =? 0); [|done].
  by rewrite delete_after, insert_at.
Qed.

Lemma swallow_back_nil bs : swallow_back 0 bs = bs.
Proof. done. Qed.

Lemma swallow_back_spec pre a b post :
  swallow_back (length (pre ++ [a])) (pre ++ a :: b :: post) =
    pre ++ (if b_used a =? 0 then [mk_block (b_off a) (b_size a + b_size b) (b_used a)]
            else [a; b]) ++ post.
Proof.
  rewrite length_app, Nat.add_comm. cbn. rewrite lookup_at, lookup_after. cbn.
  destruct (b_used a =? 0); [|done]. by rewrite delete_after, insert_at.
Qed.

Lemma glue_right_head a post : exists s rest, glue_right a post = mk_block (b_off a) s (b_used a) :: rest.
Proof.
  destruct post as [|b post]; cbn; [destruct a; eauto|].
  unfold glue. destruct (b_used b =? 0); cbn; [eauto|destruct a; eauto].
Qed.

Lemma glue_right_ok f lo hi a post :
  b_used a = 0 -> f = false -> blocks_ok false lo hi (mk_block (b_off a) (b_size a) 1 :: post) ->
  blocks_ok f lo hi (glue_right a post).
Proof.
  intros Ha ->. cbn. intros (H1 & H2 & H3 & _ & H5).
  destruct post as [|b post]; cbn in *; [rewrite Ha; naive_solver|].
  destruct H5 as (K1 & K2 & K3 & _ & K5). unfold glue.
  destruct (Z.eqb_spec (b_used b) 0) as [Hb|Hb]; cbn in *; rewrite ?Ha in *; cbn.
  - repeat split; try done; try lia; [by apply Z.divide_add_r|].
    by rewrite Z.add_assoc.
  - destruct (Z.eqb_spec (b_used b) 0); [done|]. repeat split; try done.
Qed.

Lemma glue_right_live a post o l : b_used a = 0 -> live_in (glue_right a post) o l <-> live_in post o l.
Proof.
  intros Ha. pose proof (live_in_nil o l). destruct post as [|b post]; cbn.
  - rewrite live_in_cons. tauto.
  - unfold glue. destruct (Z.eqb_spec (b_used b) 0); cbn; rewrite !live_in_cons; cbn; tauto.
Qed.

Lemma glue_right_length a post : (length (glue_right a post) <= S (length post))%nat.
Proof. destruct post as [|b post]; cbn; [lia|]. unfold glue. destruct (b_used b =? 0); cbn; lia. Qed.

(** The three facts about [freed], for a live block in the middle. *)
Section Freeing.
  Context (f : bool) (lo hi : Z) (pre post : list block) (b : block).
  Hypothesis Hok : blocks_ok f lo hi (pre ++ b :: post).
  Hypothesis Hf : f = false.
  Hypothesis Hb : b_used b <> 0.
Let b0 := mk_block (b_off b) (b_size b) 0.

Lemma freed_eq :
  freed (length pre) b (pre ++ b :: post) = swallow_back (length pre) (pre ++ glue_right b0 post).
Proof. unfold freed. by rewrite insert_at, swallow_spec. Qed.

Lemma freed_ok : blocks_ok f lo hi (freed (length pre) b (pre ++ b :: post)).
Proof.
  rewrite freed_eq. destruct pre as [|a pre'] using rev_ind; [|clear IHpre'].
  { cbn in *. rewrite Hf in *. apply glue_right_ok; [done..|]. cbn.
    destruct (Z.eqb_spec (b_used b) 0); [done|]. naive_solver. }
  rewrite <- app_assoc in Hok. cbn in Hok.
  apply blocks_ok_app in Hok as (mid & Hpre & A1 & A2 & A3 & A4 & B1 & B2 & B3 & B4 & B5).
  destruct (Z.eqb_spec (b_used b) 0) as [|_]; [done|].
  rewrite <- app_assoc. cbn. destruct (glue_right_head b0 post) as (s & rest & Hg).
  assert (blocks_ok false (mid + b_size a) hi (glue_right b0 post)) as Hgok.
  { apply glue_right_ok; [done..|]. cbn. repeat split; try done. }
  rewrite Hg in *. rewrite swallow_back_spec. apply blocks_ok_app. exists mid. split; [done|].
  cbn in Hgok. destruct Hgok as (G1 & G2 & G3 & _ & G5).
  destruct (Z.eqb_spec (b_used a) 0) as [Ha|Ha]; cbn.
  - repeat split; try done; try lia; [by apply Z.divide_add_r|].
    by rewrite Ha, Z.add_assoc.
  - destruct (Z.eqb_spec (b_used a) 0); [done|]. repeat split; try done.
Qed.

Lemma freed_live o l :
  live_in (freed (length pre) b (pre ++ b :: post)) o l <->
  live_in (pre ++ b :: post) o l /\ o <> b_off b.
Proof.
  assert (live_in (freed (length pre) b (pre ++ b :: post)) o l <-> live_in (pre ++ post) o l) as ->.
  { rewrite freed_eq. destruct pre as [|a pre'] using rev_ind; [|clear IHpre'].
    { cbn [app length]. rewrite swallow_back_nil. by apply glue_right_live. }
    rewrite <- !app_assoc. cbn [app]. destruct (glue_right_head b0 post) as (s & rest & Hg).
    assert (live_in rest o l <-> live_in post o l) as Hr.
    { rewrite <- (glue_right_live b0 post) by done. rewrite Hg, live_in_cons. cbn. tauto. }
    rewrite Hg, swallow_back_spec.
    destruct (Z.eqb_spec (b_used a) 0); rewrite !live_in_app, !live_in_cons; cbn;
      rewrite Hr; pose proof (live_in_nil o l); tauto. }
  split.
  - intros Hl. assert (Hl' : live_in (pre ++ b :: post) o l).
    { revert Hl. rewrite !live_in_app, live_in_cons. tauto. }
    split; [done|]. intros ->.
    pose proof Hok as Hk. apply blocks_ok_app in Hk as (mid & Hpre & B1 & B2 & B3 & B4 & B5).
    apply live_in_app in Hl as [Hl|Hl].
    + apply (live_in_bounds _ _ _ _ _ _ Hpre) in Hl. lia.
    + apply (live_in_bounds _ _ _ _ _ _ B5) in Hl. lia.
  - rewrite !live_in_app, live_in_cons. intros [[?|[(_ & <- & _)|?]] ?]; tauto.
Qed.

Lemma freed_used :
  used_sum (freed (length pre) b (pre ++ b :: post)) = used_sum (pre ++ b :: post) - b_size b.
Proof.
  rewrite freed_eq. assert (used_sum (glue_right b0 post) = used_sum post) as Hg'.
  { destruct post as [|c post']; cbn; [done|]. unfold glue.
    destruct (Z.eqb_spec (b_used c) 0) as [E|]; cbn; [rewrite ?E; done|].
    destruct (Z.eqb_spec (b_used c) 0); [done|lia]. }
  assert (used_sum (pre ++ b :: post) - b_size b = used_sum (pre ++ post)) as ->.
  { rewrite !used_sum_app. cbn. destruct (Z.eqb_spec (b_used b) 0); [done|lia]. }
  destruct pre as [|a pre'] using rev_ind; [|clear IHpre'].
  { cbn [app length]. by rewrite swallow_back_nil. }
  rewrite <- !app_assoc. cbn [app]. destruct (glue_right_head b0 post) as (s & rest & Hg).
  rewrite Hg in *. rewrite swallow_back_spec. cbn in Hg'. rewrite !used_sum_app. cbn.
  destruct (Z.eqb_spec (b_used a) 0) as [E|E]; cbn.
  - rewrite E. cbn. lia.
  - destruct (Z.eqb_spec (b_used a) 0); [done|lia].
Qed.

Lemma freed_length :
  (length (freed (length pre) b (pre ++ b :: post)) <= length (pre ++ b :: post))%nat.
Proof.
  rewrite freed_eq. pose proof (glue_right_length b0 post).
  destruct pre as [|a pre'] using rev_ind; [|clear IHpre'].
  { cbn [app length]. rewrite swallow_back_nil. cbn. lia. }
  rewrite <- !app_assoc. cbn [app]. destruct (glue_right_head b0 post) as (s & rest & Hg).
  rewrite Hg in *. rewrite swallow_back_spec. cbn in *.
  destruct (b_used a =? 0); rewrite !length_app; cbn; lia.
Qed.

End Freeing.

(** Taking a block and freeing it again leaves the list as it was. *)
Lemma alloc_freed f lo hi n bs len off bs' :
  blocks_ok f lo hi bs -> 0 < len -> alloc_blocks n bs len = Some (off, bs') ->
  exists b1 b b2, bs' = b1 ++ b :: b2 /\ b_off b = off /\ b_size b = len /\ b_used b <> 0 /\
    freed (length b1) b bs' = bs.
Proof.
  intros Hok Hlen Ha.
  destruct (alloc_blocks_some _ _ _ _ _ Ha) as (pre & b & post & -> & _ & (Hu & _) & -> & ->).
  apply blocks_ok_app in Hok as (mid & Hpre & K1 & K2 & K3 & K4 & K5). rewrite Hu in K5. cbn in K5.
  exists pre, (mk_block (b_off b) len 1), ((if b_size b =? len then [] else
    [mk_block (b_off b + len) (b_size b - len) 0]) ++ post).
  assert (taken b len ++ post = mk_block (b_off b) len 1 :: (if b_size b =? len then [] else
    [mk_block (b_off b + len) (b_size b - len) 0]) ++ post) as Ht.
  { unfold taken. by destruct (b_size b =? len). }
  rewrite Ht. split; [done|]. split; [done|]. split; [done|]. split; [done|].
  unfold freed. rewrite insert_at, swallow_spec. cbn [b_off b_size].
  assert (glue_right (mk_block (b_off b) len 0) ((if b_size b =? len then [] else
    [mk_block (b_off b + len) (b_size b - len) 0]) ++ post) = b :: post) as ->.
  { destruct b as [o sz u]. cbn in *. subst u. destruct (Z.eqb_spec sz len) as [->|Hne]; cbn.
    - destruct post as [|c post]; cbn; [done|]. cbn in K5. unfold glue.
      destruct (Z.eqb_spec (b_used c) 0); [naive_solver|done].
    - unfold glue. cbn. by replace (len + (sz - len)) with sz by lia. }
  destruct pre as [|a pre' _] using rev_ind; [done|].
  rewrite <- app_assoc. cbn [app]. rewrite swallow_back_spec.
  rewrite free_after_snoc in K4. destruct (Z.eqb_spec (b_used a) 0); [naive_solver|done].
Qed.

(** ** The binary search *)

Lemma blocks_ok_ascending f lo hi bs i j b c :
  blocks_ok f lo hi bs -> bs !! i = Some b -> bs !! j = Some c -> (i < j)%nat -> b_off b < b_off c.
Proof.
  revert f lo i j. induction bs as [|a bs IH]; intros f lo [|i] [|j]; cbn; try done; try lia.
  - intros (H1 & H2 & _ & _ & H5) [= ->] Hc _. apply list_elem_of_lookup_2 in Hc.
    apply (blocks_ok_bounds _ _ _ _ _ H5) in Hc. lia.
  - intros (H1 & H2 & _ & _ & H5) Hb Hc Hij. apply (IH _ _ i j H5); [done..|lia].
Qed.

(** The search ends at the first block whose offset is not below [off]. *)
Lemma search_correct f lo hi bs off fuel :
  blocks_ok f lo hi bs -> (length bs < fuel)%nat ->
  runs (search fuel bs off) (fun i => (i <= length bs)%nat /\
    (forall j b, bs !! j = Some b -> (j < i)%nat <-> b_off b < off)).
Proof.
  intros Hok Hfuel. unfold search. rewrite runs_bind.
  apply (while_total
    (fun p : nat * nat => (p.1 <= p.2 <= length bs)%nat /\
       (forall j b, bs !! j = Some b -> (j < p.1)%nat -> b_off b < off) /\
       (forall j b, bs !! j = Some b -> (p.2 <= j)%nat -> off <= b_off b))
    (fun p => p.2 - p.1)%nat); [|cbn|cbn; lia].
  - intros [l h] (Hb & Hlo & Hhi). cbn [fst snd runs] in *. destruct (Nat.ltb_spec l h).
    + assert (l <= (l + h) / 2 < h)%nat as Hm.
      { split; [apply Nat.div_le_lower_bound|apply Nat.Div0.div_lt_upper_bound]; lia. }
      set (m := ((l + h) / 2)%nat) in *. clearbody m.
      destruct (lookup_lt_is_Some_2 bs m) as [b Hb']; [lia|]. rewrite Hb'.
      destruct (Z.ltb_spec (b_off b) off); cbn [runs fst snd]; (split; [split; [lia|]|lia]).
      * split; [|done]. intros j c Hc Hj. destruct (decide (j = m)) as [->|]; [congruence|].
        destruct (decide (j < l)%nat); [eauto|].
        pose proof (blocks_ok_ascending _ _ _ _ j _ c b Hok Hc Hb'). lia.
      * split; [done|]. intros j c Hc Hj. destruct (decide (j = m)) as [->|]; [congruence|].
        pose proof (blocks_ok_ascending _ _ _ _ _ j b c Hok Hb' Hc). lia.
    + split; [lia|]. intros j b Hj. split; [eauto|].
      intros Hlt. destruct (decide (j < l)%nat); [done|].
      assert (off <= b_off b) by (apply (Hhi j); [done|lia]). lia.
  - split; [lia|]. split; [lia|]. intros j b Hj%lookup_lt_Some. lia.
Qed.

(** So it lands on the block that starts at [off] when there is one. *)
Lemma search_hit f lo hi pre b post fuel :
  blocks_ok f lo hi (pre ++ b :: post) -> (length (pre ++ b :: post) < fuel)%nat ->
  search fuel (pre ++ b :: post) (b_off b) = Ok (length pre).
Proof.
  intros Hok Hfuel. apply runs_ok. eapply runs_mono; [by eapply search_correct|].
  cbn. intros i [Hi Hj]. destruct (Nat.lt_trichotomy i (length pre)) as [Hlt|[He|Hgt]]; [|done|].
  - destruct (lookup_lt_is_Some_2 pre i Hlt) as [c Hc].
    assert ((pre ++ b :: post) !! i = Some c) as Hc' by by rewrite lookup_app_l.
    pose proof (blocks_ok_ascending _ _ _ _ _ _ _ _ Hok Hc' (lookup_at pre b post) Hlt) as Hlt'.
    apply (Hj _ _ Hc') in Hlt'. lia.
  - apply (Hj _ _ (lookup_at pre b post)) in Hgt. lia.
Qed.
