(* ===== verification/MmapRun.v ===== *)
(** The state of [Mmap]: the invariant of the carve-out table against the
    kernel's ledger, the abstract allocator that the entry points implement,
    and the properties. *)
From stdpp Require Import prelude gmap gmultiset list numbers.
From S2P Require Import Prelude Mmap MmapBlocks.
Open Scope Z_scope.

(** ** Rounding *)

(** [len] in whole pages. *)
Definition pages (len : Z) : Z := (len + (Page - 1)) / Page * Page.

Lemma alignUp_eq v k : 0 <= k <= 64 -> alignUp v (2 ^ k) = u64 (v + 2 ^ k - 1) / 2 ^ k * 2 ^ k.
Proof. intros. apply land_u64_lnot; [lia|apply u64_range]. Qed.

Lemma alignUp_page len : 0 <= len < 2 ^ 63 -> alignUp len Page = pages len.
Proof.
  intros. change Page with (2 ^ 14). rewrite alignUp_eq, u64_small by lia.
  unfold pages. change Page with (2 ^ 14). do 2 f_equal. lia.
Qed.

Lemma pages_bounds len : 0 < len < 2 ^ 63 -> len <= pages len < len + Page /\ (Page | pages len) /\ 0 < pages len.
Proof.
  intros. unfold pages. split; [unfold Page; dlia|]. split; [apply Z.divide_factor_r|unfold Page; dlia].
Qed.

Lemma alignUp_direct v : 0 < v < 2 ^ 63 + Page ->
  v <= alignUp v DirectAlign < v + DirectAlign /\ (Page | alignUp v DirectAlign).
Proof.
  intros. change DirectAlign with (2 ^ 21). rewrite alignUp_eq, u64_small by (unfold Page in *; lia).
  split; [dlia|]. apply Z.divide_mul_r. exists 128. done.
Qed.

(** ** The kernel's ledger *)

Definition ledger (add del : kcall -> option (Z * Z)) (h : list kcall) : gmultiset (Z * Z) :=
  foldr (fun k L => match add k with
                    | Some x => {[+ x +]} ⊎ L
                    | None => match del k with Some x => L ∖ {[+ x +]} | None => L end
                    end) ∅ h.

(** Direct memory taken and not released, as physical address and length. *)
Definition held_direct : list kcall -> gmultiset (Z * Z) :=
  ledger (fun k => match k with KAlloc len 0 phys => Some (phys, len) | _ => None end)
         (fun k => match k with KRelease phys len => Some (phys, len) | _ => None end).

(** Direct memory mapped and not unmapped, as address and length. *)
Definition held_mapped : list kcall -> gmultiset (Z * Z) :=
  ledger (fun k => match k with KMap _ len 0 va => Some (va, len) | _ => None end)
         (fun k => match k with KUnmap va len => Some (va, len) | _ => None end).

Lemma give_back (x : Z * Z) (L : gmultiset (Z * Z)) : ({[+ x +]} ⊎ L) ∖ {[+ x +]} = L.
Proof. multiset_solver. Qed.

Definition apart2 (a n b k : Z) : Prop := a + n <= b \/ b + k <= a.

(** What is relied on: a mapping the kernel makes lies in the address space,
    away from the mappings this process already holds. *)
Class MapFresh (K : kernel) : Prop := map_fresh : forall h phys len va,
  0 < len -> k_map K h phys len = (0, va) ->
  0 < va /\ va + len <= 2 ^ 64 /\
  forall b n, (b, n) ∈ held_mapped h -> apart2 va len b n.

(** ** The invariant *)

Record carve_ok (c : carve_out) : Prop := {
  co_va : 0 < c_va c;
  co_page : (Page | c_va c);
  co_end : c_va c + c_size c <= 2 ^ 64;
  co_blk : blocks_ok false 0 (c_size c) (c_blk c);
  co_len : (length (c_blk c) <= MaxBlocks)%nat }.

Definition apart_c (c d : carve_out) : Prop := apart2 (c_va c) (c_size c) (c_va d) (c_size d).

#[export] Instance apart_c_sym : Symmetric apart_c.
Proof. unfold apart_c, apart2. intros ??; lia. Qed.

Fixpoint zsum {A} (f : A -> Z) (cs : list A) : Z :=
  match cs with [] => 0 | c :: cs => f c + zsum f cs end.
Definition carve_used (c : carve_out) : Z := used_sum (c_blk c).

Record table_ok (cs : list carve_out) : Prop := {
  to_carves : Forall carve_ok cs;
  to_apart : pairwise apart_c cs;
  to_max : (length cs <= MaxCarves)%nat }.

Record mm_ok (s : mm) : Prop := {
  ok_table : table_ok (carve s);
  ok_held : heldBytes s = zsum c_size (carve s);
  ok_cap : heldBytes s <= DirectCap;
  ok_live : liveBytes (cnt s) = zsum carve_used (carve s);
  ok_direct : held_direct (hist s) = list_to_set_disj ((fun c => (c_phys c, c_size c)) <$> carve s);
  ok_mapped : held_mapped (hist s) = list_to_set_disj ((fun c => (c_va c, c_size c)) <$> carve s) }.

(** The live mappings of a table. *)
Definition live (cs : list carve_out) (a l : Z) : Prop :=
  exists c, c ∈ cs /\ live_in (c_blk c) (a - c_va c) l.

Lemma zsum_app {A} (f : A -> Z) xs ys : zsum f (xs ++ ys) = zsum f xs + zsum f ys.
Proof. induction xs; cbn; lia. Qed.

Lemma carve_used_bounds c : carve_ok c -> 0 <= carve_used c <= c_size c.
Proof. intros H. pose proof (used_sum_bounds _ _ _ _ (co_blk _ H)). unfold carve_used. lia. Qed.

Lemma zsum_used_bounds cs : Forall carve_ok cs -> 0 <= zsum carve_used cs <= zsum c_size cs.
Proof. induction 1 as [|c cs H Hcs IH]; cbn; [lia|]. pose proof (carve_used_bounds c H). lia. Qed.

Lemma region_bounds cs a l : table_ok cs -> live cs a l ->
  0 < a /\ 0 < l /\ a + l <= 2 ^ 64 /\ (Page | a) /\ (Page | l).
Proof.
  intros [Hc _ _] (c & Hin & Hl). rewrite list.Forall_forall in Hc. pose proof (Hc c Hin) as Hk.
  destruct Hk as [V P E B _]. destruct (live_in_bounds _ _ _ _ _ _ B Hl) as (? & ? & ? & Hd & ?).
  repeat split; try done; try lia. replace a with (c_va c + (a - c_va c - 0)) by lia.
  by apply Z.divide_add_r.
Qed.

(** Live mappings of one table are the same or apart. *)
Lemma live_apart cs a l a' l' : table_ok cs -> live cs a l -> live cs a' l' ->
  (a = a' /\ l = l') \/ apart2 a l a' l'.
Proof.
  intros [Hc Ha _] (c & Hin & Hl) (d & Hin' & Hl').
  apply list_elem_of_lookup_1 in Hin as [i Hi]. apply list_elem_of_lookup_1 in Hin' as [j Hj].
  rewrite Forall_lookup in Hc. pose proof (Hc _ _ Hi) as Kc. pose proof (Hc _ _ Hj) as Kd.
  pose proof (live_in_bounds _ _ _ _ _ _ (co_blk _ Kc) Hl).
  pose proof (live_in_bounds _ _ _ _ _ _ (co_blk _ Kd) Hl').
  destruct (decide (i = j)) as [->|Hne].
  - assert (c = d) as -> by congruence.
    pose proof (live_in_apart _ _ _ _ _ _ _ _ (co_blk _ Kd) Hl Hl'). unfold apart2. lia.
  - right. assert (apart_c c d) as Hcd.
    { clear -Ha Hi Hj Hne. revert i j Hi Hj Hne. induction cs as [|x cs IH]; intros [|i] [|j]; cbn; try done.
      - intros [= ->] Hj _. destruct Ha as [Ha _]. rewrite Forall_lookup in Ha. eauto.
      - intros Hi [= ->] _. symmetry. destruct Ha as [Ha _]. rewrite Forall_lookup in Ha. eauto.
      - intros. apply (IH (proj2 Ha) i j); [done..|lia]. }
    unfold apart_c, apart2 in *. lia.
Qed.

(** ** Serving a request *)

(** [cs'] is [cs] with [len] bytes at [p] taken in one carve-out. *)
Definition served (cs : list carve_out) (len p : Z) (cs' : list carve_out) : Prop :=
  exists pre c post off bs,
    cs = pre ++ c :: post /\ alloc_blocks (length (c_blk c)) (c_blk c) len = Some (off, bs) /\
    p = c_va c + off /\ cs' = pre ++ set_blk c bs :: post.

Definition no_fit (len : Z) (c : carve_out) : Prop :=
  Forall (unfit (length (c_blk c)) len) (c_blk c).

Lemma alloc_any_served cs len p cs' : alloc_any cs len = Some (p, cs') -> served cs len p cs'.
Proof.
  revert cs'. induction cs as [|c cs IH]; intros cs'; cbn [alloc_any]; [done|].
  unfold allocInLocked. destruct (alloc_blocks _ _ len) as [[off bs]|] eqn:Ha.
  - intros [= <- <-]. by exists [], c, cs, off, bs.
  - destruct (alloc_any cs len) as [[q rest]|]; [|done]. intros [= <- <-].
    destruct (IH _ eq_refl) as (pre & d & post & off & bs & -> & H & -> & ->).
    by exists (c :: pre), d, post, off, bs.
Qed.

Lemma alloc_any_none cs len : alloc_any cs len = None -> Forall (no_fit len) cs.
Proof.
  induction cs as [|c cs IH]; cbn [alloc_any]; [constructor|].
  unfold allocInLocked. destruct (alloc_blocks _ _ len) as [[off bs]|] eqn:Ha; [done|].
  destruct (alloc_any cs len) as [[]|]; [done|]. intros _. constructor; [|auto].
  by apply alloc_blocks_none.
Qed.

Lemma alloc_last_snoc cs c len :
  alloc_last (cs ++ [c]) len =
    match allocInLocked c len with Some (p, c') => Some (p, cs ++ [c']) | None => None end.
Proof.
  unfold alloc_last. rewrite length_app, Nat.add_comm. cbn [pred length Nat.add].
  rewrite lookup_at. destruct (allocInLocked c len) as [[p c']|]; [|done]. by rewrite insert_at.
Qed.

Section Served.
  Context (cs cs' : list carve_out) (len p : Z).
  Hypothesis Hok : table_ok cs.
  Hypothesis Hlen : 0 < len.
  Hypothesis Hpage : (Page | len).
  Hypothesis Hserved : served cs len p cs'.

Lemma served_ok : table_ok cs'.
Proof.
  destruct Hserved as (pre & c & post & off & bs & -> & Ha & -> & ->).
  destruct Hok as [H1 H2 H3]. rewrite List.Forall_app, List.Forall_cons_iff in H1.
  destruct H1 as (Hpre & Hc & Hpost).
  constructor.
  - rewrite List.Forall_app, List.Forall_cons_iff. split; [done|]. split; [|done].
    destruct Hc as [V P E B L]. constructor; cbn; try done.
    + by eapply alloc_blocks_ok.
    + by eapply alloc_blocks_length.
  - apply pairwise_middle; [apply _|]. apply pairwise_middle in H2; [|apply _]. done.
  - rewrite length_app in *. done.
Qed.

Lemma served_live a l : live cs' a l <-> (a = p /\ l = len) \/ live cs a l.
Proof.
  destruct Hserved as (pre & c & post & off & bs & -> & Ha & -> & ->).
  unfold live. setoid_rewrite elem_of_app. setoid_rewrite elem_of_cons.
  destruct Hok as [H1 _ _]. rewrite List.Forall_app, List.Forall_cons_iff in H1. destruct H1 as (_ & Hc & _).
  pose proof (fun o l => alloc_blocks_live _ _ _ _ _ _ _ _ (co_blk _ Hc) Ha o l) as Hl.
  split.
  - intros (d & [Hd|[->|Hd]] & Hin); cbn in *; [right; eauto| |right; eauto].
    apply Hl in Hin as [[Ho ->]|Hin]; [left; lia|right; eauto].
  - intros [[-> ->]|(d & [Hd|[->|Hd]] & Hin)]; [| eauto| |eauto].
    + exists (set_blk c bs). split; [auto|]. cbn. apply Hl. left. lia.
    + exists (set_blk c bs). split; [auto|]. cbn. apply Hl. by right.
Qed.

(** The range was free. *)
Lemma served_fresh a l : live cs a l -> apart2 p len a l.
Proof.
  destruct Hserved as (pre & c & post & off & bs & -> & Ha & -> & _).
  destruct Hok as [H1 H2 _]. apply pairwise_middle in H2 as [H2 _]; [|apply _].
  assert (carve_ok c) as Hc by (rewrite List.Forall_app, List.Forall_cons_iff in H1; tauto).
  destruct (alloc_blocks_fresh _ _ _ _ _ _ _ _ (co_blk _ Hc) Hlen Hpage Ha) as (F1 & F2 & _ & F4).
  intros (d & Hd & Hl).
  assert (d = c \/ d ∈ pre ++ post) as [->|Hd'] by set_solver.
  - apply F4 in Hl. unfold apart2. lia.
  - rewrite list.Forall_forall in H1, H2. pose proof (H1 d Hd) as Kd. specialize (H2 d Hd').
    pose proof (live_in_bounds _ _ _ _ _ _ (co_blk _ Kd) Hl). unfold apart_c, apart2 in *. lia.
Qed.

Lemma served_bounds : 0 < p /\ p + len <= 2 ^ 64 /\ (Page | p).
Proof.
  destruct (region_bounds cs' p len served_ok) as (? & _ & ? & ? & _); [|done].
  apply served_live. by left.
Qed.

Lemma served_sums :
  zsum c_size cs' = zsum c_size cs /\ zsum carve_used cs' = zsum carve_used cs + len.
Proof.
  destruct Hserved as (pre & c & post & off & bs & -> & Ha & -> & ->).
  assert (carve_ok c) as Hc by (destruct Hok as [H1 _ _]; rewrite List.Forall_app, List.Forall_cons_iff in H1; tauto).
  pose proof (alloc_blocks_used _ _ _ _ _ _ _ _ (co_blk _ Hc) Ha).
  rewrite !zsum_app. cbn [zsum c_size set_blk].
  change (carve_used (set_blk c bs)) with (used_sum bs).
  change (carve_used c) with (used_sum (c_blk c)). lia.
Qed.

Lemma served_regions {A} (f : carve_out -> A) :
  (forall c bs, f (set_blk c bs) = f c) -> f <$> cs' = f <$> cs.
Proof.
  intros Hf. destruct Hserved as (pre & c & post & off & bs & -> & Ha & -> & ->).
  by rewrite !fmap_app, !fmap_cons, Hf.
Qed.

End Served.

(** ** Taking a carve-out *)

Definition new_carve (va phys len : Z) : carve_out := mk_carve va phys len [mk_block 0 len 0].

(** The reasons for which no carve-out is added. *)
Definition refused (K : kernel) (s : mm) (need : Z) : Prop :=
  let len := alignUp (if need >? CarveBytes then need else CarveBytes) DirectAlign in
  let '(errA, phys) := k_alloc K (hist s) len in
  let '(errM, va) := k_map K (KAlloc len errA phys :: hist s) phys len in
  (MaxCarves <= length (carve s))%nat \/ DirectCap < heldBytes s + len \/
  errA <> 0 \/ errM <> 0 \/ ~ (Page | va).

(** Only what the invariant reads matters to it. *)
Lemma mm_ok_ext s t :
  carve t = carve s -> heldBytes t = heldBytes s -> liveBytes (cnt t) = liveBytes (cnt s) ->
  held_direct (hist t) = held_direct (hist s) -> held_mapped (hist t) = held_mapped (hist s) ->
  mm_ok s -> mm_ok t.
Proof. intros E1 E2 E3 E4 E5 []. constructor; rewrite ?E1, ?E2, ?E3, ?E4, ?E5; done. Qed.

Lemma land_page va : Z.land va (Page - 1) = 0 <-> (Page | va).
Proof.
  change (Page - 1) with (Z.ones 14). rewrite Z.land_ones by lia.
  change (2 ^ 14) with Page. rewrite Z.mod_divide by done. done.
Qed.

Lemma regions_snoc (f : carve_out -> Z * Z) cs c :
  list_to_set_disj (f <$> cs ++ [c]) =@{gmultiset _} {[+ f c +]} ⊎ list_to_set_disj (f <$> cs).
Proof.
  rewrite fmap_app, list_to_set_disj_app.
  change (list_to_set_disj (f <$> [c])) with ({[+ f c +]} ⊎ (∅ : gmultiset (Z * Z))). multiset_solver.
Qed.

Lemma zsum_snoc {A} (f : A -> Z) cs c : zsum f (cs ++ [c]) = zsum f cs + f c.
Proof. rewrite zsum_app. cbn. lia. Qed.

(** The length asked of the kernel. *)
Definition carve_len (need : Z) : Z :=
  alignUp (if need >? CarveBytes then need else CarveBytes) DirectAlign.

Lemma carve_len_bounds need : 0 < need < 2 ^ 63 + Page ->
  need <= carve_len need < 2 ^ 63 + Page + DirectAlign /\ 0 < carve_len need /\ (Page | carve_len need).
Proof.
  intros Hn. unfold carve_len.
  destruct (alignUp_direct (if need >? CarveBytes then need else CarveBytes)) as [H1 H2].
  { destruct (Z.gtb_spec need CarveBytes); unfold CarveBytes, Page in *; lia. }
  split; [|split; [|done]]; destruct (Z.gtb_spec need CarveBytes); unfold CarveBytes, Page, DirectAlign in *; lia.
Qed.

Section Growing.
  Context (K : kernel) `{!MapFresh K} (s : mm) (need : Z).
  Hypothesis Hok : mm_ok s.
  Hypothesis Hneed : 0 < need < 2 ^ 63 + Page.

Lemma addCarveLocked_spec s1 ok :
  addCarveLocked K s need = (s1, ok) ->
  mm_ok s1 /\ cnt s1 = cnt s /\ ram s1 = ram s /\ calls s1 = calls s /\
  if ok then exists va phys, carve s1 = carve s ++ [new_carve va phys (carve_len need)] /\ (Page | va)
  else carve s1 = carve s /\ refused K s need.
Proof.
  pose proof (carve_len_bounds need Hneed) as (B1 & B2 & B3). destruct Hok as [T H C L D M].
  pose proof (to_carves _ T) as Tc. pose proof (zsum_used_bounds _ Tc) as Z1.
  unfold addCarveLocked, refused. fold (carve_len need).
  destruct (k_alloc K (hist s) (carve_len need)) as [errA phys] eqn:EA. cbn [hist did].
  destruct (k_map K _ phys (carve_len need)) as [errM va] eqn:EM.
  destruct (Nat.leb_spec MaxCarves (length (carve s))) as [Hmax|Hmax].
  { intros [= <- <-]. split; [by apply (mm_ok_ext s)|]. repeat split; auto. }
  rewrite u64_small by (unfold Page, DirectAlign, DirectCap, CarveBytes, MaxCarves in *; lia).
  destruct (Z.gtb_spec (heldBytes s + carve_len need) DirectCap) as [Hcap|Hcap].
  { intros [= <- <-]. split; [by apply (mm_ok_ext s)|]. repeat split; auto. }
  destruct (Z.eqb_spec errA 0) as [->|HA]; cbn [negb].
  2:{ intros [= <- <-]. split; [|repeat split; auto]. apply (mm_ok_ext s); try done; cbn; by destruct errA. }
  destruct (Z.eqb_spec errM 0) as [->|HM]; cbn [negb].
  2:{ intros [= <- <-]. split; [|repeat split; auto]. apply (mm_ok_ext s); try done.
      - by destruct errM; [| |]; apply (give_back (phys, carve_len need)).
      - by destruct errM. }
  destruct (Z.eqb_spec (Z.land va (Page - 1)) 0) as [HP|HP]; cbn [negb].
  2:{ intros [= <- <-]. split; [|repeat split; auto].
      - apply (mm_ok_ext s); try done; [apply (give_back (phys, _))|apply (give_back (va, _))].
      - rewrite land_page in HP. tauto. }
  apply land_page in HP. intros [= <- <-].
  split; [|repeat split; auto; by exists va, phys].
  destruct (map_fresh _ _ _ _ B2 EM) as (V1 & V2 & V3).
  change (held_mapped _) with (held_mapped (hist s)) in V3.
  assert (Forall (apart_c (new_carve va phys (carve_len need))) (carve s)) as Hap.
  { rewrite list.Forall_forall. intros c Hc. apply (V3 (c_va c) (c_size c)).
    rewrite M. apply elem_of_list_to_set_disj, list_elem_of_fmap. by exists c. }
  constructor; cbn [carve heldBytes cnt hist say set_held set_carve did].
  - constructor.
    + apply List.Forall_app. split; [done|]. constructor; [|constructor].
      constructor; cbn; try done.
      unfold MaxBlocks. lia.
    + apply pairwise_snoc; [apply _|]. by destruct T.
    + rewrite length_app. cbn. lia.
  - rewrite zsum_snoc. cbn. lia.
  - lia.
  - rewrite zsum_snoc. unfold carve_used at 2. cbn. lia.
  - rewrite regions_snoc, <- D. cbn. done.
  - rewrite regions_snoc, <- M. cbn. done.
Qed.

End Growing.

(** ** Freeing *)

Lemma carveOfLocked_some cs p i c :
  carveOfLocked cs p = Some (i, c) ->
  exists pre post, cs = pre ++ c :: post /\ i = length pre /\ c_va c <= p < c_va c + c_size c.
Proof.
  revert i. induction cs as [|d cs IH]; intros i; cbn; [done|].
  unfold in_carve at 1. destruct ((c_va d <=? p) && (p <? c_va d + c_size d)) eqn:E.
  - intros [= <- ->]. exists [], cs. repeat split; lia.
  - destruct (carveOfLocked cs p) as [[j e]|]; [|done]. intros [= <- ->].
    destruct (IH _ eq_refl) as (pre & post & -> & -> & H). by exists (d :: pre), post.
Qed.

Lemma carveOfLocked_none cs p a l :
  table_ok cs -> carveOfLocked cs p = None -> live cs a l -> ~ (a <= p < a + l).
Proof.
  intros Hok Hn (c & Hc & Hl). destruct Hok as [H1 _ _]. rewrite list.Forall_forall in H1.
  pose proof (live_in_bounds _ _ _ _ _ _ (co_blk _ (H1 c Hc)) Hl) as B.
  assert (in_carve p c = false) as E.
  { clear -Hn Hc. induction cs as [|d cs IH]; [by apply not_elem_of_nil in Hc|]. cbn in Hn.
    destruct (in_carve p d) eqn:E; [done|].
    destruct (carveOfLocked cs p) as [[]|] eqn:E'; [done|].
    apply elem_of_cons in Hc as [->|Hc]; auto. }
  unfold in_carve in E. lia.
Qed.

(** A live mapping that starts inside carve-out [c] is one of its blocks. *)
Lemma live_own pre c post a l :
  table_ok (pre ++ c :: post) -> c_va c <= a < c_va c + c_size c ->
  live (pre ++ c :: post) a l <-> live_in (c_blk c) (a - c_va c) l.
Proof.
  intros Hok Ha. split; [|intros; exists c; split; [set_solver|done]].
  intros (d & Hd & Hl). destruct Hok as [H1 H2 _]. apply pairwise_middle in H2 as [H2 _]; [|apply _].
  rewrite list.Forall_forall in H1, H2. pose proof (H1 d Hd) as Kd.
  assert (d = c \/ d ∈ pre ++ post) as [->|Hd'] by set_solver; [done|].
  specialize (H2 d Hd'). pose proof (live_in_bounds _ _ _ _ _ _ (co_blk _ Kd) Hl).
  unfold apart_c, apart2 in *. lia.
Qed.

(** [cs'] is [cs] without the live mapping at [p]. *)
Definition unserved (cs : list carve_out) (p len : Z) (cs' : list carve_out) : Prop :=
  exists pre c post b1 b b2,
    cs = pre ++ c :: post /\ c_blk c = b1 ++ b :: b2 /\ b_used b <> 0 /\ b_size b = len /\
    p = c_va c + b_off b /\ cs' = pre ++ set_blk c (freed (length b1) b (c_blk c)) :: post.

Section Unserved.
  Context (cs cs' : list carve_out) (p len : Z).
  Hypothesis Hok : table_ok cs.
  Hypothesis Hun : unserved cs p len cs'.

Lemma unserved_ok : table_ok cs'.
Proof.
  destruct Hun as (pre & c & post & b1 & b & b2 & -> & Eb & Hu & Hs & -> & ->).
  destruct Hok as [H1 H2 H3]. rewrite List.Forall_app, List.Forall_cons_iff in H1.
  destruct H1 as (Hpre & Hc & Hpost). constructor.
  - rewrite List.Forall_app, List.Forall_cons_iff. split; [done|]. split; [|done].
    destruct Hc as [V P E B L]. rewrite Eb in *. constructor; cbn; try done.
    + by apply freed_ok.
    + pose proof (freed_length _ _ _ _ _ _ B). lia.
  - apply pairwise_middle; [apply _|]. apply pairwise_middle in H2; [|apply _]. done.
  - rewrite length_app in *. done.
Qed.

Lemma unserved_live a l : live cs' a l <-> live cs a l /\ a <> p.
Proof.
  destruct Hun as (pre & c & post & b1 & b & b2 & -> & Eb & Hu & Hs & -> & ->).
  assert (carve_ok c) as Hc by (destruct Hok as [H1 _ _]; rewrite List.Forall_app, List.Forall_cons_iff in H1; tauto).
  pose proof (co_blk _ Hc) as B. rewrite Eb in B.
  assert (b ∈ b1 ++ b :: b2) as Hb by set_solver.
  pose proof (blocks_ok_bounds _ _ _ _ _ B Hb) as Bb.
  pose proof (freed_live _ _ _ _ _ _ B) as Hf. rewrite <- Eb in Hf.
  split.
  - intros (d & Hd & Hl). apply elem_of_app in Hd as [Hd|[->|Hd]%elem_of_cons].
    2:{ cbn in Hl. apply Hf in Hl as [Hl Hne]. split; [|lia]. exists c. split; [set_solver|done]. }
    all: assert (live (pre ++ c :: post) a l) as Hl' by (exists d; split; [set_solver|done]).
    all: split; [done|]; intros ->.
    all: apply live_own in Hl'; [|done|lia].
    all: destruct Hok as [H1 H2 _]; apply pairwise_middle in H2 as [H2 _]; [|apply _].
    all: rewrite list.Forall_forall in H1, H2.
    all: pose proof (live_in_bounds _ _ _ _ _ _ (co_blk _ (H1 d ltac:(set_solver))) Hl).
    all: specialize (H2 d ltac:(set_solver)); unfold apart_c, apart2 in *; lia.
  - intros [(d & Hd & Hl) Hne]. apply elem_of_app in Hd as [Hd|[->|Hd]%elem_of_cons].
    1,3: exists d; split; [set_solver|done].
    exists (set_blk c (freed (length b1) b (c_blk c))). split; [set_solver|]. cbn.
    apply Hf. split; [done|lia].
Qed.

Lemma unserved_sums :
  zsum c_size cs' = zsum c_size cs /\ zsum carve_used cs' = zsum carve_used cs - len.
Proof.
  destruct Hun as (pre & c & post & b1 & b & b2 & -> & Eb & Hu & Hs & -> & ->).
  assert (carve_ok c) as Hc by (destruct Hok as [H1 _ _]; rewrite List.Forall_app, List.Forall_cons_iff in H1; tauto).
  pose proof (co_blk _ Hc) as B. rewrite Eb in B.
  pose proof (freed_used _ _ _ _ _ _ B Hu). rewrite <- Eb in *.
  rewrite !zsum_app. cbn [zsum c_size set_blk].
  change (carve_used (set_blk c (freed (length b1) b (c_blk c)))) with (used_sum (freed (length b1) b (c_blk c))).
  change (carve_used c) with (used_sum (c_blk c)). lia.
Qed.

Lemma unserved_regions {A} (f : carve_out -> A) :
  (forall c bs, f (set_blk c bs) = f c) -> f <$> cs' = f <$> cs.
Proof.
  intros Hf. destruct Hun as (pre & c & post & b1 & b & b2 & -> & _ & _ & _ & _ & ->).
  by rewrite !fmap_app, !fmap_cons, Hf.
Qed.

End Unserved.

(** What an operation leaves of the state that the table does not hold. *)
Lemma table_step_ok s cs n :
  mm_ok s -> table_ok cs -> zsum c_size cs = zsum c_size (carve s) ->
  zsum carve_used cs = liveBytes n ->
  (fun c => (c_phys c, c_size c)) <$> cs = (fun c => (c_phys c, c_size c)) <$> carve s ->
  (fun c => (c_va c, c_size c)) <$> cs = (fun c => (c_va c, c_size c)) <$> carve s ->
  mm_ok (set_cnt (set_carve s cs) n).
Proof.
  intros [T H C L D M] T' E1 E2 E3 E4.
  constructor; cbn [carve heldBytes cnt hist set_cnt set_carve]; try done; try lia.
  - by rewrite D, E3.
  - by rewrite M, E4.
Qed.

Lemma cap_small : DirectCap < 2 ^ 32. Proof. done. Qed.

Lemma live_range s : mm_ok s -> 0 <= liveBytes (cnt s) <= DirectCap.
Proof. intros [T H C L _ _]. pose proof (zsum_used_bounds _ (to_carves _ T)). lia. Qed.

Lemma serve_ok s cs p want :
  mm_ok s -> 0 < want -> (Page | want) -> served (carve s) want p cs ->
  mm_ok (serve s cs p want).1.
Proof.
  intros Hok Hw Hp Hs. pose proof (ok_table _ Hok) as T.
  assert (table_ok cs) as T' by by eapply served_ok.
  destruct (served_sums _ _ _ _ T Hs) as [S1 S2]. pose proof (zsum_used_bounds _ (to_carves _ T')) as Z'.
  pose proof (live_range _ Hok). pose proof (ok_live _ Hok). pose proof (ok_held _ Hok).
  pose proof (ok_cap _ Hok). pose proof cap_small.
  unfold serve. cbn [fst].
  apply (mm_ok_ext (set_cnt (set_carve s cs) (noteLive (cnt s) want))); try done.
  apply table_step_ok; try done.
  - cbn. rewrite u64_small; lia.
  - by apply (served_regions _ _ _ _ T Hs).
  - by apply (served_regions _ _ _ _ T Hs).
Qed.

Section Freed.
  Context (fuel : nat) (s : mm) (i : nat) (c : carve_out) (p len : Z).
  Hypothesis Hok : mm_ok s.
  Hypothesis Hof : carveOfLocked (carve s) p = Some (i, c).
  Hypothesis Hfuel : (MaxBlocks < fuel)%nat.

(** Either the mapping was live and its blocks are free again, or it was not
    and nothing but the counters changes. *)
Lemma freeInLocked_spec :
  runs (freeInLocked fuel s i c p len) (fun r =>
    ram r.1 = ram s /\ calls r.1 = calls s /\ errno r.1 = errno s /\ mm_ok r.1 /\
    if (r.2 : bool) then live (carve s) p len /\ unserved (carve s) p len (carve r.1)
    else ~ live (carve s) p len /\ carve r.1 = carve s).
Proof.
  destruct (carveOfLocked_some _ _ _ _ Hof) as (pre & post & Ec & -> & Hp).
  pose proof (ok_table _ Hok) as T. pose proof T as [T1 _ _]. rewrite Ec in T1.
  rewrite List.Forall_app, List.Forall_cons_iff in T1. destruct T1 as (_ & [V P E B Ln] & _).
  unfold freeInLocked. rewrite u64_small by lia. rewrite runs_bind.
  eapply runs_mono; [apply (search_correct _ _ _ _ _ _ B); lia|].
  intros lo [Hlo Hcmp]. cbn beta.
  assert (forall t, carve t = carve s -> heldBytes t = heldBytes s -> hist t = hist s ->
    ram t = ram s -> calls t = calls s -> errno t = errno s -> liveBytes (cnt t) = liveBytes (cnt s) ->
    ~ live (carve s) p len ->
    ram t = ram s /\ calls t = calls s /\ errno t = errno s /\ mm_ok t /\
      ~ live (carve s) p len /\ carve t = carve s) as Hno.
  { intros t E1 E2 E3 E4 E5 E6 E7 Hn. split; [done|]. split; [done|]. split; [done|].
    split; [apply (mm_ok_ext s); try done; by rewrite E3|]. done. }
  assert (forall b, live (carve s) p len ->
     c_blk c !! lo = b -> exists b', b = Some b' /\ exact b' (p - c_va c) len = true) as Hlive.
  { intros b Hl Hb. rewrite Ec in Hl. apply live_own in Hl; [|by rewrite <- Ec|done].
    destruct Hl as (b' & Hb' & Hu & Ho & Hs).
    apply list_elem_of_lookup_1 in Hb' as [j Hj].
    assert (j = lo) as ->; [|exists b'; unfold exact; split; [congruence|lia]].
    destruct (Nat.lt_trichotomy j lo) as [Hlt|[?|Hlt]]; [|done|].
    - apply (Hcmp _ _ Hj) in Hlt. lia.
    - destruct (lookup_lt_is_Some_2 (c_blk c) lo) as [d Hd]; [apply lookup_lt_Some in Hj; lia|].
      pose proof (blocks_ok_ascending _ _ _ _ _ _ _ _ B Hd Hj Hlt).
      assert (lo < lo)%nat by (apply (Hcmp _ _ Hd); lia). lia. }
  destruct (c_blk c !! lo) as [b|] eqn:Hb.
  2:{ destruct (anomalyLogged (cnt s) <? LogCap); cbn [runs fst snd]; (apply Hno; try done);
      intros Hl; by destruct (Hlive _ Hl eq_refl) as (? & ? & _). }
  destruct (exact b (p - c_va c) len) eqn:Hex.
  2:{ destruct (anomalyLogged (cnt s) <? LogCap); cbn [runs fst snd]; (apply Hno; try done);
      intros Hl; destruct (Hlive _ Hl eq_refl) as (? & [= <-] & ?); congruence. }
  unfold exact in Hex. cbn [runs fst snd ram calls errno set_cnt set_carve carve].
  apply list_elem_of_split_length in Hb as (b1 & b2 & Eb & ->).
  assert (unserved (carve s) p len
     (<[length pre := set_blk c (freed (length b1) b (c_blk c))]> (carve s))) as Hun.
  { exists pre, c, post, b1, b, b2. rewrite Ec, insert_at. repeat split; try done; lia. }
  split; [done|]. split; [done|]. split; [done|]. split.
  - destruct (unserved_sums _ _ _ _ T Hun) as [S1 S2].
    pose proof (zsum_used_bounds _ (to_carves _ (unserved_ok _ _ _ _ T Hun))).
    pose proof (live_range _ Hok). pose proof (ok_live _ Hok). pose proof cap_small.
    assert (b ∈ c_blk c) as Hin by (rewrite Eb; set_solver).
    pose proof (blocks_ok_bounds _ _ _ _ _ B Hin).
    apply (table_step_ok s (<[length pre := set_blk c (freed (length b1) b (c_blk c))]> (carve s))); try done.
    + by eapply unserved_ok.
    + cbn [liveBytes set_lived]. rewrite u64_small; lia.
    + by apply (unserved_regions _ _ _ _ T Hun).
    + by apply (unserved_regions _ _ _ _ T Hun).
  - split; [|done]. rewrite Ec. apply live_own; [by rewrite <- Ec|done|].
    exists b. split; [rewrite Eb; set_solver|]. lia.
Qed.

End Freed.

(** ** Mapping *)

Lemma alloc_last_served cs c len p cs' :
  alloc_last (cs ++ [c]) len = Some (p, cs') -> served (cs ++ [c]) len p cs'.
Proof.
  rewrite alloc_last_snoc. unfold allocInLocked.
  destruct (alloc_blocks _ _ len) as [[off bs]|] eqn:Ha; [|done]. intros [= <- <-].
  by exists cs, c, [], off, bs.
Qed.

(** A fresh carve-out has room for the request it was taken for. *)
Lemma alloc_last_fresh cs va phys size len :
  len <= size -> exists p cs', alloc_last (cs ++ [new_carve va phys size]) len = Some (p, cs').
Proof.
  intros Hs. rewrite alloc_last_snoc. unfold allocInLocked. cbn [c_blk new_carve alloc_blocks b_used b_size].
  cbn [length]. destruct (Z.ltb_spec size len); [lia|]. cbn [negb orb].
  destruct (size =? len); [eauto|]. destruct (Nat.leb_spec MaxBlocks 1); [|eauto].
  unfold MaxBlocks in *. lia.
Qed.

Lemma live_snoc_free cs va phys size a l : live (cs ++ [new_carve va phys size]) a l <-> live cs a l.
Proof.
  unfold live. setoid_rewrite elem_of_app. setoid_rewrite list_elem_of_singleton. split.
  - intros (c & [Hc| ->] & Hl); [eauto|]. destruct Hl as (b & Hb & Hu & _).
    apply list_elem_of_singleton in Hb as ->. done.
  - intros (c & Hc & Hl). eauto.
Qed.

Section Mapping.
  Context (K : kernel) `{!MapFresh K} (s : mm) (len : Z).
  Hypothesis Hok : mm_ok s.
  Hypothesis Hlen : 0 < len < 2 ^ 63.

(** Under the guard either fresh pages are taken, or no carve-out has room and
    none can be added. *)
Lemma mapOwned_locked_spec s' out :
  mapOwned_locked K s (pages len) = (s', out) ->
  mm_ok s' /\ calls s' = calls s /\ ram s' = ram s /\
  match out with
  | Some p => exists cs, (forall a l, live cs a l <-> live (carve s) a l) /\ table_ok cs /\
      served cs (pages len) p (carve s')
  | None => Forall (no_fit (pages len)) (carve s) /\ refused K s (pages len) /\ carve s' = carve s
  end.
Proof.
  pose proof (pages_bounds len Hlen) as (B1 & B2 & B3). unfold mapOwned_locked.
  destruct (alloc_any (carve s) (pages len)) as [[p cs]|] eqn:Ha.
  { apply alloc_any_served in Ha as Hs. pose proof (serve_ok s cs p (pages len) Hok B3 B2 Hs) as Hk.
    intros [= <- <-]. do 3 (split; [done|]). exists (carve s). split; [done|]. split; [by apply Hok|done]. }
  apply alloc_any_none in Ha.
  destruct (addCarveLocked K s (pages len)) as [s1 ok] eqn:Hadd.
  destruct (addCarveLocked_spec K s (pages len) Hok ltac:(lia) s1 ok Hadd) as (Hok1 & Ec & Er & El & Hcase).
  destruct ok.
  - destruct Hcase as (va & phys & Ecs & _).
    destruct (alloc_last_fresh (carve s) va phys (carve_len (pages len)) (pages len)) as (p & cs & Hl).
    { pose proof (carve_len_bounds (pages len)). lia. }
    rewrite Ecs, Hl. apply alloc_last_served in Hl. rewrite <- Ecs in Hl.
    pose proof (serve_ok s1 cs p (pages len) Hok1 B3 B2 Hl) as Hk. intros [= <- <-].
    do 3 (split; [done|]). exists (carve s1). split; [intros; rewrite Ecs; apply live_snoc_free|].
    split; [apply Hok1|done].
  - destruct Hcase as [Ecs Href]. unfold fall_back. intros [= <- <-].
    destruct (fallbackLogged (cnt s1) <? LogCap); (split; [by apply (mm_ok_ext s1)|done]).
Qed.

(** Either fresh zeroed pages are served, or the request goes to the kernel. *)
Lemma mapOwned_spec s' r :
  mapOwned K s len = (s', r) ->
  mm_ok s' /\ calls s' = calls s /\
  ((exists cs, (forall a l, live cs a l <-> live (carve s) a l) /\ table_ok cs /\
      served cs (pages len) r (carve s') /\ ram s' = memset (ram s) r 0 (pages len)) \/
   (Forall (no_fit (pages len)) (carve s) /\ refused K s (pages len) /\
    carve s' = carve s /\ ram s' = ram s /\
    exists h, r = k_mmap K h 0 len OwnedProt OwnedFlags (-1) 0)).
Proof.
  unfold mapOwned. rewrite alignUp_page by lia.
  destruct (mapOwned_locked K s (pages len)) as [s1 [p|]] eqn:E;
    destruct (mapOwned_locked_spec _ _ E) as (Hok1 & Ec & Er & Hcase); intros [= <- <-]; (split; [by apply (mm_ok_ext s1)|]); (split; [done|]).
  - left. destruct Hcase as (cs & ? & ? & ?). exists cs. cbn. by rewrite Er.
  - right. destruct Hcase as (? & ? & ?). cbn. eauto 10.
Qed.

End Mapping.

(** ** The abstract allocator

    Its state is the map of live mappings, from address to length, and the
    contents of memory. *)
Record spec := mk_spec { sp_live : gmap Z Z; sp_ram : Z -> Z }.

Inductive op :=
  | OMmap (addr len prot flags fd off : Z)
  | OMunmap (addr len : Z)
  | OMadvise (addr len advice : Z)
  | OStore (a v : Z).

Inductive spec_step : spec -> op -> Z -> spec -> Prop :=
  | sp_serve M m len fd a :
      fd < 0 -> 0 < a -> a + pages len <= 2 ^ 64 -> (Page | a) ->
      (forall b n, M !! b = Some n -> apart2 a (pages len) b n) ->
      spec_step (mk_spec M m) (OMmap 0 len OwnedProt OwnedFlags fd 0) a
        (mk_spec (<[a := pages len]> M) (memset m a 0 (pages len)))
  | sp_forward t addr len prot flags fd off r :
      spec_step t (OMmap addr len prot flags fd off) r t
  | sp_unmap M m a len :
      M !! a = Some (pages len) -> spec_step (mk_spec M m) (OMunmap a len) 0 (mk_spec (delete a M) m)
  | sp_refuse M m a len :
      M !! a <> Some (pages len) -> spec_step (mk_spec M m) (OMunmap a len) (-1) (mk_spec M m)
  | sp_unmap_other M m a len r :
      (forall b n, M !! b = Some n -> ~ (b <= a < b + n)) ->
      spec_step (mk_spec M m) (OMunmap a len) r (mk_spec M m)
  | sp_advise t a len advice r : spec_step t (OMadvise a len advice) r t
  | sp_store M m a v :
      spec_step (mk_spec M m) (OStore a v) 0 (mk_spec M (memset m a v 1)).

Inductive spec_run : spec -> list op -> list Z -> spec -> Prop :=
  | sr_nil t : spec_run t [] [] t
  | sr_cons t o r t1 os rs t2 :
      spec_step t o r t1 -> spec_run t1 os rs t2 -> spec_run t (o :: os) (r :: rs) t2.

(** One operation of the code, and a run of them. *)
Definition step (K : kernel) (fuel : nat) (s : mm) (o : op) : outcome (mm * Z) :=
  match o with
  | OMmap addr len prot flags fd off => Ok (__mmap K s addr len prot flags fd off)
  | OMunmap addr len => __munmap K fuel s addr len
  | OMadvise addr len advice => Ok (__madvise K s addr len advice)
  | OStore a v => Ok (set_ram s (memset (ram s) a v 1), 0)
  end.

Fixpoint run (K : kernel) (fuel : nat) (s : mm) (os : list op) : outcome (mm * list Z) :=
  match os with
  | [] => Ok (s, [])
  | o :: os =>
      r ← step K fuel s o;
      rs ← run K fuel r.1 os;
      Ok (rs.1, r.2 :: rs.2)
  end.

(** The lengths musl asks for; it refuses anything above PTRDIFF_MAX itself. *)
Definition op_ok (o : op) : Prop :=
  match o with
  | OMmap _ len _ _ _ _ => 0 < len < 2 ^ 63
  | OMunmap _ len => 0 <= len < 2 ^ 63
  | _ => True
  end.

Definition abs (s : mm) (t : spec) : Prop :=
  (forall a l, sp_live t !! a = Some l <-> live (carve s) a l) /\ sp_ram t = ram s.

Lemma abs_same s s' t :
  abs s t -> carve s' = carve s -> ram s' = ram s -> abs s' t.
Proof. intros [H1 H2] E1 E2. split; [by rewrite E1|by rewrite E2]. Qed.

Section Refinement.
  Context (K : kernel) `{!MapFresh K} (fuel : nat).
  Hypothesis Hfuel : (MaxBlocks < fuel)%nat.

Lemma mmap_step s t addr len prot flags fd off s' r :
  mm_ok s -> abs s t -> 0 < len < 2 ^ 63 -> __mmap K s addr len prot flags fd off = (s', r) ->
  mm_ok s' /\ exists t', spec_step t (OMmap addr len prot flags fd off) r t' /\ abs s' t'.
Proof.
  intros Hok Ha Hlen. unfold __mmap.
  destruct (isOwnedRequest addr prot flags fd off) eqn:Hown; cbn [negb].
  2:{ intros [= <- <-]. split; [by apply (mm_ok_ext s)|]. exists t. split; [constructor|].
      by apply (abs_same s). }
  set (s0 := set_calls _ _).
  assert (carve s0 = carve s /\ ram s0 = ram s /\ mm_ok s0) as (E1 & E2 & Hok0).
  { unfold s0, banner. cbn. destruct (bannerDone s =? 0); cbn; (split; [done|split; [done|]]);
      by apply (mm_ok_ext s). }
  intros E. destruct (mapOwned_spec K s0 len Hok0 Hlen _ _ E) as (Hok' & _ & Hcase).
  split; [done|]. destruct Ha as [Ha1 Ha2].
  unfold isOwnedRequest in Hown.
  assert (addr = 0 /\ prot = OwnedProt /\ flags = OwnedFlags /\ fd < 0 /\ off = 0) as (-> & -> & -> & Hfd & ->) by lia.
  pose proof (pages_bounds len Hlen) as (B1 & B2 & B3).
  destruct Hcase as [(cs & Hl & T & Hs & Er)|(_ & _ & Ec & Er & _)].
  - destruct (served_bounds _ _ _ _ T B3 B2 Hs) as (P1 & P2 & P3).
    destruct t as [M m]. exists (mk_spec (<[r := pages len]> M) (memset m r 0 (pages len))). split.
    + constructor; try done. intros b n Hb. apply Ha1 in Hb. rewrite <- E1 in Hb. apply Hl in Hb.
      by eapply served_fresh.
    + split; [|cbn in *; by rewrite Er, E2, Ha2].
      intros a l. cbn in *. rewrite (served_live _ _ _ _ T Hs a l), Hl, E1, <- Ha1.
      destruct (decide (a = r)) as [->|Hne].
      * rewrite lookup_insert_eq. split; [intros [= ->]; by left|].
        intros [[_ ->]|Hb]; [done|]. apply Ha1 in Hb. rewrite <- E1 in Hb. apply Hl in Hb.
        pose proof (served_fresh _ _ _ _ T B3 B2 Hs _ _ Hb) as Hap.
        pose proof (region_bounds _ _ _ T Hb). unfold apart2 in Hap. lia.
      * rewrite lookup_insert_ne by done. naive_solver.
  - exists t. split; [constructor|]. split; [by rewrite Ec, E1|by rewrite Er, E2].
Qed.

Lemma munmap_step s t addr len :
  mm_ok s -> abs s t -> 0 <= len < 2 ^ 63 ->
  runs (__munmap K fuel s addr len) (fun r =>
    mm_ok r.1 /\ exists t', spec_step t (OMunmap addr len) r.2 t' /\ abs r.1 t').
Proof.
  intros Hok Ha Hlen. unfold __munmap. set (s0 := set_calls s (bump_unmap (calls s))).
  assert (mm_ok s0) as Hok0 by by apply (mm_ok_ext s).
  destruct (carveOfLocked (carve s0) addr) as [[i c]|] eqn:Hof.
  - rewrite alignUp_page by done. rewrite runs_bind.
    eapply runs_mono; [apply (freeInLocked_spec fuel s0 i c addr (pages len) Hok0 Hof Hfuel)|].
    intros [s1 ok] (Er & _ & _ & Hok1 & Hcase). cbn [fst snd] in *.
    destruct t as [M m], Ha as [Ha1 Ha2]. cbn in Ha1, Ha2.
    destruct ok; cbn [runs fst snd]; (split; [by apply (mm_ok_ext s1)|]).
    + destruct Hcase as [Hl Hun]. exists (mk_spec (delete addr M) m). split.
      { constructor. by apply Ha1. }
      split; [|cbn; by rewrite Er]. intros a l. cbn.
      rewrite (unserved_live _ _ _ _ (ok_table _ Hok0) Hun a l).
      destruct (decide (a = addr)) as [->|Hne].
      * rewrite lookup_delete_eq. naive_solver.
      * rewrite lookup_delete_ne by done. rewrite Ha1. cbn. naive_solver.
    + destruct Hcase as [Hl Ec]. exists (mk_spec M m). split.
      { constructor. intros Hb. by apply Ha1 in Hb. }
      split; [|cbn; by rewrite Er]. cbn. by rewrite Ec.
  - cbn [runs fst snd]. split; [by apply (mm_ok_ext s)|]. exists t. split.
    + destruct t as [M m]. apply sp_unmap_other. intros b n Hb. apply Ha in Hb.
      by apply (carveOfLocked_none (carve s)); [apply Hok|..].
    + by apply (abs_same s).
Qed.

Lemma step_refines s t o :
  mm_ok s -> abs s t -> op_ok o ->
  runs (step K fuel s o) (fun r =>
    mm_ok r.1 /\ exists t', spec_step t o r.2 t' /\ abs r.1 t').
Proof.
  intros Hok Ha Ho. destruct o as [addr len prot flags fd off|addr len|addr len advice|a v]; cbn [step runs].
  - destruct (__mmap K s addr len prot flags fd off) as [s' r] eqn:E. by eapply mmap_step.
  - by apply munmap_step.
  - unfold __madvise. destruct (carveOfLocked (carve s) addr) as [[]|]; cbn [fst snd].
    + split; [done|]. exists t. split; [constructor|done].
    + split; [by apply (mm_ok_ext s)|]. exists t. split; [constructor|by apply (abs_same s)].
  - cbn [fst snd]. split; [by apply (mm_ok_ext s)|]. destruct t as [M m], Ha as [H1 H2].
    exists (mk_spec M (memset m a v 1)). split; [constructor|]. split; [done|]. cbn in *. by rewrite H2.
Qed.

Lemma run_refines s t os :
  mm_ok s -> abs s t -> Forall op_ok os ->
  runs (run K fuel s os) (fun r =>
    mm_ok r.1 /\ exists t', spec_run t os r.2 t' /\ abs r.1 t').
Proof.
  revert s t. induction os as [|o os IH]; intros s t Hok Ha Hos; cbn [run].
  - cbn. split; [done|]. exists t. split; [constructor|done].
  - apply List.Forall_cons_iff in Hos as [Ho Hos]. rewrite runs_bind.
    eapply runs_mono; [by apply (step_refines s t o)|].
    intros [s1 r] (Hok1 & t1 & Hs & Ha1). cbn [fst snd] in *. rewrite runs_bind.
    eapply runs_mono; [by apply (IH s1 t1)|].
    intros [s2 rs] (Hok2 & t2 & Hr & Ha2). cbn [runs fst snd] in *.
    split; [done|]. exists t2. split; [by econstructor|done].
Qed.

End Refinement.

Lemma initial_ok m : mm_ok (initial m).
Proof. constructor; try done. constructor; [constructor|done|cbn; lia]. Qed.

Lemma initial_abs m : abs (initial m) (mk_spec ∅ m).
Proof.
  split; [|done]. intros a l. cbn. rewrite lookup_empty. split; [done|].
  intros (c & Hc & _). by apply not_elem_of_nil in Hc.
Qed.

(** C1: the allocator implements the abstract one: whatever calls and stores
    the clients make, every answer is one the map of live mappings allows.
    A mapping served is fresh, page aligned, apart from every live mapping and
    zero filled; an unmap takes exactly the live mapping it names and is
    refused with the state unchanged otherwise; what the table does not own
    goes to the kernel. *)
Theorem mmap_refines (K : kernel) `{!MapFresh K} (fuel : nat) (m : Z -> Z) (os : list op) :
  (MaxBlocks < fuel)%nat -> Forall op_ok os ->
  runs (run K fuel (initial m) os) (fun r =>
    exists t, spec_run (mk_spec ∅ m) os r.2 t /\ abs r.1 t).
Proof.
  intros Hf Hos. eapply runs_mono.
  - by apply (run_refines K fuel Hf (initial m) (mk_spec ∅ m)); [apply initial_ok|apply initial_abs|].
  - intros r (_ & H). exact H.
Qed.

(** C12: after any run the direct memory and the mappings held from the kernel
    are exactly those of the carve-outs, at most twelve and within the cap;
    the carve-outs are apart, their blocks tile them in whole pages with no
    two free neighbours, and the live counter is the sum of the live blocks. *)
Theorem mmap_run_ledger (K : kernel) `{!MapFresh K} (fuel : nat) (m : Z -> Z) (os : list op) :
  (MaxBlocks < fuel)%nat -> Forall op_ok os ->
  runs (run K fuel (initial m) os) (fun r =>
    held_direct (hist r.1) = list_to_set_disj ((fun c => (c_phys c, c_size c)) <$> carve r.1) /\
    held_mapped (hist r.1) = list_to_set_disj ((fun c => (c_va c, c_size c)) <$> carve r.1) /\
    table_ok (carve r.1) /\
    heldBytes r.1 = zsum c_size (carve r.1) /\ heldBytes r.1 <= DirectCap /\
    liveBytes (cnt r.1) = zsum carve_used (carve r.1)).
Proof.
  intros Hf Hos. eapply runs_mono.
  - by apply (run_refines K fuel Hf (initial m) (mk_spec ∅ m)); [apply initial_ok|apply initial_abs|].
  - intros r ([] & _). done.
Qed.

(** A request that is not musl's exact anonymous one is forwarded with the
    table untouched.  An owned request is served zeroed from the carve-outs,
    unless no block of any carve-out fits and no further carve-out can be
    had; only then is it forwarded as an anonymous mapping. *)
Theorem mmap_correct (K : kernel) `{!MapFresh K} (s : mm) (addr len prot flags fd off : Z) :
  mm_ok s -> 0 < len < 2 ^ 63 ->
  let '(s', r) := __mmap K s addr len prot flags fd off in
  if isOwnedRequest addr prot flags fd off then
    ((forall x, r <= x < r + pages len -> ram s' x = 0) /\
     live (carve s') r (pages len) /\ (forall l, ~ live (carve s) r l)) \/
    (Forall (no_fit (pages len)) (carve s) /\ refused K s (pages len) /\ carve s' = carve s /\
     exists h, r = k_mmap K h 0 len OwnedProt OwnedFlags (-1) 0)
  else carve s' = carve s /\ ram s' = ram s /\
       r = k_mmap K (hist s) addr len prot flags fd off.
Proof.
  intros Hok Hlen. unfold __mmap. destruct (isOwnedRequest addr prot flags fd off) eqn:Hown; cbn [negb].
  2:{ done. }
  set (s0 := set_calls (banner _) _).
  assert (carve s0 = carve s /\ hist s0 = hist s /\ heldBytes s0 = heldBytes s /\ mm_ok s0) as (E1 & E2 & E3 & Hok0).
  { unfold s0, banner. cbn. destruct (bannerDone s =? 0); cbn; (split; [done|split; [done|split; [done|]]]);
      by apply (mm_ok_ext s). }
  destruct (mapOwned K s0 len) as [s' r] eqn:E.
  destruct (mapOwned_spec K s0 len Hok0 Hlen _ _ E) as (_ & _ & Hcase).
  pose proof (pages_bounds len Hlen) as (B1 & B2 & B3).
  destruct Hcase as [(cs & Hl & T & Hs & Er)|(Hn & Hr & Ec & _ & Hk)].
  - left. split; [|split].
    + intros x Hx. rewrite Er. unfold memset. by destruct (Z.leb_spec r x), (Z.ltb_spec x (r + pages len)); try lia.
    + apply (served_live _ _ _ _ T Hs). by left.
    + intros l Hb. rewrite <- E1 in Hb. apply Hl in Hb.
      pose proof (served_fresh _ _ _ _ T B3 B2 Hs _ _ Hb) as Hap. pose proof (region_bounds _ _ _ T Hb).
      unfold apart2 in Hap. lia.
  - right. rewrite E1 in *. unfold refused in *. rewrite E1, E2, E3 in Hr. done.
Qed.

(** ** Round trip *)

Lemma carveOfLocked_at pre c post p :
  table_ok (pre ++ c :: post) -> c_va c <= p < c_va c + c_size c ->
  carveOfLocked (pre ++ c :: post) p = Some (length pre, c).
Proof.
  intros [_ Ha _] Hp. apply pairwise_middle in Ha as [Ha _]; [|apply _].
  apply List.Forall_app in Ha as [Ha _]. induction Ha as [|d pre Hd _ IH]; cbn.
  - unfold in_carve. by destruct (Z.leb_spec (c_va c) p), (Z.ltb_spec p (c_va c + c_size c)); try lia.
  - rewrite IH. unfold apart_c, apart2, in_carve in *.
    by destruct (Z.leb_spec (c_va d) p), (Z.ltb_spec p (c_va d + c_size d)); try lia.
Qed.

(** A mapping served from the carve-outs at hand and unmapped with the
    same length leaves every block list exactly as it was before. *)
Theorem mmap_munmap_roundtrip (K : kernel) `{!MapFresh K} (fuel : nat) (s : mm) (len fd : Z) :
  mm_ok s -> 0 < len < 2 ^ 63 -> fd < 0 -> (MaxBlocks < fuel)%nat ->
  ~ Forall (no_fit (pages len)) (carve s) ->
  let '(s1, p) := __mmap K s 0 len OwnedProt OwnedFlags fd 0 in
  runs (__munmap K fuel s1 p len) (fun r =>
    r.2 = 0 /\ carve r.1 = carve s /\ liveBytes (cnt r.1) = liveBytes (cnt s)).
Proof.
  intros Hok Hlen Hfd Hfuel Hroom. pose proof (pages_bounds len Hlen) as (B1 & B2 & B3).
  unfold __mmap. assert (isOwnedRequest 0 OwnedProt OwnedFlags fd 0 = true) as -> by (unfold isOwnedRequest; lia).
  cbn [negb]. set (s0 := set_calls (banner _) _).
  assert (carve s0 = carve s /\ cnt s0 = cnt s) as (E1 & E2).
  { unfold s0, banner. cbn. by destruct (bannerDone s =? 0). }
  unfold mapOwned, mapOwned_locked. rewrite alignUp_page, E1 by lia.
  destruct (alloc_any (carve s) (pages len)) as [[p cs]|] eqn:Ha; [|by apply alloc_any_none in Ha].
  apply alloc_any_served in Ha. unfold serve. rewrite E2.
  pose proof (ok_table _ Hok) as T. pose proof (served_ok _ _ _ _ T B3 B2 Ha) as T'.
  destruct Ha as (pre & c & post & off & bs & Ec & Hb & -> & ->).
  assert (carve_ok c) as Hc by (destruct T as [H1 _ _]; rewrite Ec, List.Forall_app, List.Forall_cons_iff in H1; tauto).
  destruct (alloc_freed _ _ _ _ _ _ _ _ (co_blk _ Hc) B3 Hb) as (b1 & b & b2 & -> & Ho & Hs & Hu & Hf).
  destruct (alloc_blocks_fresh _ _ _ _ _ _ _ _ (co_blk _ Hc) B3 B2 Hb) as (F1 & F2 & _ & _).
  unfold __munmap. cbn [carve set_calls set_ram set_cnt set_carve].
  rewrite (carveOfLocked_at pre (set_blk c (b1 ++ b :: b2)) post) by (done || cbn; lia).
  rewrite alignUp_page by lia. unfold freeInLocked. cbn [c_va c_blk set_blk].
  destruct Hc as [V P E B L]. rewrite u64_small by lia.
  replace (c_va c + off - c_va c) with (b_off b) by lia.
  pose proof (alloc_blocks_ok _ _ _ _ _ _ _ _ B B3 B2 Hb) as B'.
  pose proof (alloc_blocks_length _ _ _ _ _ _ _ _ B Hb ltac:(done) L) as L'.
  rewrite (search_hit _ _ _ _ _ _ _ B') by lia. rewrite bind_ok, lookup_at.
  assert (exact b (b_off b) (pages len) = true) as -> by (unfold exact; lia).
  cbn [mbind outcome_bind runs fst snd carve set_calls set_cnt set_carve set_ram cnt liveBytes set_lived noteLive].
  rewrite (insert_at pre). split; [done|]. split.
  - rewrite Ec. change (swallow_back (length b1) (swallow (length b1) _)) with (freed (length b1) b (b1 ++ b :: b2)).
    rewrite Hf. destruct c. done.
  - pose proof (live_range _ Hok). pose proof cap_small. unfold u64.
    rewrite <- (Zminus_mod_idemp_l (_ mod _)), Zmod_mod, Zminus_mod_idemp_l, Z.mod_small; lia.
Qed.

(** ** What an address is *)

Lemma block_of_spec f lo hi bs x :
  blocks_ok f lo hi bs -> lo <= x < hi ->
  exists b, block_of bs x = Some b /\ b ∈ bs /\ b_off b <= x < b_off b + b_size b.
Proof.
  revert f lo. induction bs as [|b bs IH]; cbn; intros f lo; [lia|].
  intros (H1 & H2 & _ & _ & H5) Hx. destruct (Z.ltb_spec x (b_off b)); [lia|].
  destruct (Z.leb_spec (b_off b + b_size b) x); cbn [orb].
  - destruct (IH _ _ H5 ltac:(lia)) as (d & -> & Hd & ?). exists d. split; [done|].
    split; [set_solver|done].
  - exists b. split; [done|]. split; [set_solver|lia].
Qed.

Lemma describe_from_spec i cs p :
  Forall carve_ok cs ->
  match describe_from i cs p with
  | Some d => exists j c b, ms_index d = i + Z.of_nat j + 1 /\ cs !! j = Some c /\
      c_va c <= p < c_va c + c_size c /\ b ∈ c_blk c /\
      b_off b <= p - c_va c < b_off b + b_size b /\
      d = mk_mspan (ms_index d) (c_va c) (c_size c) (p - c_va c) true (negb (b_used b =? 0)) (b_off b) (b_size b)
  | None => forall c, c ∈ cs -> ~ (c_va c <= p < c_va c + c_size c)
  end.
Proof.
  intros Hc. revert i. induction Hc as [|c cs [V P E B L] _ IH]; intros i; cbn [describe_from].
  { by intros c ?%not_elem_of_nil. }
  destruct ((c_va c =? 0) || (p <? c_va c) || (c_va c + c_size c <=? p)) eqn:Hout.
  - specialize (IH (i + 1)). destruct (describe_from (i + 1) cs p) as [d|].
    + destruct IH as (j & e & b & Hi & Hj & H). exists (S j), e, b. split; [lia|done].
    + intros d [->|Hd]%elem_of_cons; [lia|auto].
  - rewrite u64_small by lia. rewrite take_ge by done.
    destruct (block_of_spec _ _ _ _ (p - c_va c) B ltac:(lia)) as (b & -> & Hb & Hx).
    exists 0%nat, c, b. cbn. split; [lia|]. split; [done|]. split; [lia|done].
Qed.

(** The lookup, with the block it answers about. *)
Lemma describe_block (s : mm) (p : Z) :
  mm_ok s ->
  match mmapDirectDescribe s p with
  | Some d => exists j c b, carve s !! j = Some c /\ c_va c <= p < c_va c + c_size c /\ b ∈ c_blk c /\
      b_off b <= p - c_va c < b_off b + b_size b /\
      d = mk_mspan (Z.of_nat j + 1) (c_va c) (c_size c) (p - c_va c) true (negb (b_used b =? 0)) (b_off b) (b_size b) /\
      (b_used b <> 0 <-> exists a l, live (carve s) a l /\ a <= p < a + l)
  | None => forall c, c ∈ carve s -> ~ (c_va c <= p < c_va c + c_size c)
  end.
Proof.
  intros Hok. pose proof (ok_table _ Hok) as T. destruct T as [T1 T2 T3].
  unfold mmapDirectDescribe. rewrite take_ge by done.
  pose proof (describe_from_spec 0 (carve s) p T1) as H.
  destruct (describe_from 0 (carve s) p) as [d|]; [|done].
  destruct H as (j & c & b & Hi & Hj & Hp & Hb & Hx & Hd). exists j, c, b.
  rewrite Z.add_0_l in Hi. rewrite Hi in Hd. do 5 (split; [done|]). split.
  - intros Hu. exists (c_va c + b_off b), (b_size b). split; [|lia].
    exists c. split; [by apply list_elem_of_lookup_2 in Hj|].
    exists b. split; [done|]. lia.
  - intros (a & l & Hl & Hal).
    apply list_elem_of_split_length in Hj as (pre & post & Ec & _). rewrite Ec in *.
    assert (carve_ok c) as [V P E B L] by (rewrite List.Forall_app, List.Forall_cons_iff in T1; tauto).
    destruct Hl as (e & He & Hle). rewrite list.Forall_forall in T1. pose proof (T1 e He) as Ke.
    pose proof (live_in_bounds _ _ _ _ _ _ (co_blk _ Ke) Hle) as Bl.
    assert (e = c) as ->.
    { apply pairwise_middle in T2 as [T2 _]; [|apply _]. rewrite list.Forall_forall in T2.
      assert (e = c \/ e ∈ pre ++ post) as [->|He'] by set_solver; [done|].
      specialize (T2 e He'). unfold apart_c, apart2 in *. lia. }
    destruct Hle as (b' & Hb' & Hu & Ho & Hs).
    destruct (blocks_ok_apart _ _ _ _ _ _ B Hb Hb') as [->|]; [done|lia].
Qed.

(** The crash report's lookup answers for exactly the addresses inside a
    carve-out, with the carve-out's number and bounds and the one block that
    contains the address; it says "used" exactly for live mappings.  (Read
    while no other thread changes the lists; [MmapRace] has the other case.) *)
Theorem mmapDirectDescribe_correct (s : mm) (p : Z) :
  mm_ok s ->
  match mmapDirectDescribe s p with
  | Some d => exists j c, ms_index d = Z.of_nat j + 1 /\ carve s !! j = Some c /\
      ms_base d = c_va c /\ ms_size d = c_size c /\ ms_offset d = p - c_va c /\
      c_va c <= p < c_va c + c_size c /\ ms_found d = true /\
      ms_off d <= ms_offset d < ms_off d + ms_bsize d /\
      (ms_used d = true <-> exists a l, live (carve s) a l /\ a <= p < a + l)
  | None => forall c, c ∈ carve s -> ~ (c_va c <= p < c_va c + c_size c)
  end.
Proof.
  intros Hok. pose proof (describe_block s p Hok) as H. destruct (mmapDirectDescribe s p) as [d|]; [|done].
  destruct H as (j & c & b & Hj & Hp & Hb & Hx & -> & Hl). exists j, c. cbn.
  do 7 (split; [done|]). split; [done|]. rewrite <- Hl. destruct (Z.eqb_spec (b_used b) 0); split; done.
Qed.

(** ** A console for the witnesses *)

(** Fresh addresses upwards from 4 GiB; requests above 1 TiB are refused. *)
Fixpoint top_of (h : list kcall) : Z :=
  match h with
  | [] => 2 ^ 32
  | KMap _ len _ va :: h => Z.max (va + len) (top_of h)
  | _ :: h => top_of h
  end.

Definition console : kernel := mk_kernel
  (fun h len => if len <=? 2 ^ 40 then (0, top_of h) else (-1, 0))
  (fun h phys len => if top_of h + len <=? 2 ^ 47 then (0, top_of h) else (-1, 0))
  (fun _ _ _ _ _ _ _ => 77) (fun _ _ _ => 0) (fun _ _ _ _ => 0).

Lemma top_of_base h : 2 ^ 32 <= top_of h.
Proof. induction h as [|[]]; cbn; lia. Qed.

Lemma console_below h b n : (b, n) ∈ held_mapped h -> b + n <= top_of h.
Proof.
  induction h as [|k h IH]; [change (held_mapped []) with (∅ : gmultiset (Z * Z)); multiset_solver|].
  destruct k as [| phys len err va|va len| | | |]; try exact IH.
  - destruct err as [|e|e]; cbn [top_of]; [|intros H%IH; lia..].
    change (held_mapped _) with ({[+ (va, len) +]} ⊎ held_mapped h).
    intros [[= -> ->]%gmultiset_elem_of_singleton|Hb%IH]%gmultiset_elem_of_disj_union; lia.
  - change (held_mapped _) with (held_mapped h ∖ {[+ (va, len) +]}).
    intros Hb. apply IH. multiset_solver.
Qed.

#[export] Instance console_fresh : MapFresh console.
Proof.
  intros h phys len va Hlen. cbn. destruct (Z.leb_spec (top_of h + len) (2 ^ 47)); [|done].
  intros [= <-]. pose proof (top_of_base h). split; [lia|]. split; [lia|].
  intros b n Hb%console_below. unfold apart2. lia.
Qed.

(** Two mappings, a store, an unmap that does not match and two that do, a
    file mapping, and a request that recycles the first block. *)
Definition demo_ops : list op :=
  [OMmap 0 245760 3 0x1002 (-1) 0; OMmap 0 300000 3 0x1002 (-1) 0; OStore (2 ^ 32) 9;
   OMunmap (2 ^ 32) 16384; OMunmap (2 ^ 32) 245760; OMmap 0 4096 1 2 5 0;
   OMmap 0 16384 3 0x1002 (-1) 0; OMadvise (2 ^ 32) 16384 4].

Lemma demo_ops_ok : Forall op_ok demo_ops.
Proof. repeat constructor; cbn; lia. Qed.

Definition answers (r : outcome (mm * list Z)) : list Z := match r with Ok r => r.2 | _ => [] end.

Lemma mmap_refines_witness :
  answers (run console 2000 (initial (fun _ => 5)) demo_ops) =
    [2 ^ 32; 2 ^ 32 + 245760; 0; -1; 0; 77; 2 ^ 32; 0] /\
  runs (run console 2000 (initial (fun _ => 5)) demo_ops) (fun r =>
    exists t, spec_run (mk_spec ∅ (fun _ => 5)) demo_ops r.2 t /\ abs r.1 t).
Proof.
  split; [vm_compute; reflexivity|].
  apply (mmap_refines console 2000 _ demo_ops); [unfold MaxBlocks; lia|exact demo_ops_ok].
Defined.

Lemma mmap_run_ledger_witness :
  runs (run console 2000 (initial (fun _ => 5)) demo_ops) (fun r =>
    heldBytes r.1 = zsum c_size (carve r.1) /\ heldBytes r.1 = CarveBytes).
Proof.
  pose proof (mmap_run_ledger console 2000 (fun _ => 5) demo_ops
    ltac:(unfold MaxBlocks; lia) demo_ops_ok) as H.
  destruct (runs_elim _ _ H) as (r & E & _ & _ & _ & Hh & _).
  assert (heldBytes r.1 = CarveBytes) as Hc.
  { assert (match run console 2000 (initial (fun _ => 5)) demo_ops with
            | Ok r => heldBytes r.1 =? CarveBytes | _ => false end = true) as Hv by (vm_compute; reflexivity).
    rewrite E in Hv. by apply Z.eqb_eq in Hv. }
  rewrite E. by split.
Defined.

Definition demo_state : mm := (__mmap console (initial (fun _ => 5)) 0 245760 3 0x1002 (-1) 0).1.

Lemma demo_state_ok : mm_ok demo_state.
Proof.
  pose proof (mmap_step console 2000 ltac:(unfold MaxBlocks; lia) (initial (fun _ => 5)) (mk_spec ∅ (fun _ => 5)) 0 245760 3 0x1002 (-1) 0
    _ _ (initial_ok _) (initial_abs _) ltac:(lia) (surjective_pairing _)) as [H _].
  exact H.
Qed.

Lemma mmap_correct_witness :
  (__mmap console demo_state 0 300000 3 0x1002 (-1) 0).2 = 2 ^ 32 + 245760 /\
  let '(s', r) := __mmap console demo_state 0 300000 3 0x1002 (-1) 0 in
  ((forall x, r <= x < r + pages 300000 -> ram s' x = 0) /\
   live (carve s') r (pages 300000) /\ (forall l, ~ live (carve demo_state) r l)) \/
  (Forall (no_fit (pages 300000)) (carve demo_state) /\ refused console demo_state (pages 300000) /\
   carve s' = carve demo_state /\
   exists h, r = k_mmap console h 0 300000 OwnedProt OwnedFlags (-1) 0).
Proof.
  split; [vm_compute; reflexivity|].
  exact (mmap_correct console demo_state 0 300000 3 0x1002 (-1) 0 demo_state_ok ltac:(lia)).
Defined.

Lemma mmap_munmap_roundtrip_witness :
  let '(s1, p) := __mmap console demo_state 0 300000 OwnedProt OwnedFlags (-1) 0 in
  runs (__munmap console 2000 s1 p 300000) (fun r =>
    r.2 = 0 /\ carve r.1 = carve demo_state /\ liveBytes (cnt r.1) = liveBytes (cnt demo_state)).
Proof.
  apply (mmap_munmap_roundtrip console 2000 demo_state 300000 (-1) demo_state_ok);
    [lia|lia|unfold MaxBlocks; lia|].
  assert (carve demo_state = [mk_carve (2 ^ 32) (2 ^ 32) CarveBytes
    [mk_block 0 245760 1; mk_block 245760 (CarveBytes - 245760) 0]]) as -> by (vm_compute; reflexivity).
  intros [H _]%List.Forall_cons_iff. unfold no_fit in H. cbn [c_blk length] in H.
  apply List.Forall_cons_iff in H as [_ [H _]%List.Forall_cons_iff].
  unfold unfit in H. cbn [b_used b_size] in H.
  assert (pages 300000 <= CarveBytes - 245760) by done. unfold MaxBlocks in H. lia.
Defined.

Lemma mmapDirectDescribe_witness :
  mmapDirectDescribe demo_state (2 ^ 32 + 5) = Some (mk_mspan 1 (2 ^ 32) CarveBytes 5 true true 0 245760) /\
  (ms_used (mk_mspan 1 (2 ^ 32) CarveBytes 5 true true 0 245760) = true <->
   exists a l, live (carve demo_state) a l /\ a <= 2 ^ 32 + 5 < a + l).
Proof.
  assert (mmapDirectDescribe demo_state (2 ^ 32 + 5) =
    Some (mk_mspan 1 (2 ^ 32) CarveBytes 5 true true 0 245760)) as E by (vm_compute; reflexivity).
  split; [exact E|].
  pose proof (mmapDirectDescribe_correct demo_state (2 ^ 32 + 5) demo_state_ok) as H. rewrite E in H.
  destruct H as (j & c & _ & _ & _ & _ & _ & _ & _ & _ & H). exact H.
Defined.
