(* ===== verification/MmapLock.v ===== *)
(** The lock of [src/orbis_mmap.cpp]: threads that map, unmap, advise and store
    in any interleaving.  A call bumps its counters before the lock, spins,
    works on the carve-outs under the lock, and then zeroes its block byte by
    byte or calls the kernel outside of it.  [Mmap] has what the locked parts
    do; a locked part is one step, between an acquisition and a release that
    are steps of their own; [MmapRace] takes it apart into loads and stores. *)
From stdpp Require Import prelude gmap list numbers relations functions.
From S2P Require Import Prelude Mmap MmapBlocks MmapRun.
Open Scope Z_scope.

Module MmapLock.

(** ** The lock *)

(** The weak form may fail for no reason. *)
Definition compare_exchange_weak (lockFlag : Z) (spurious : bool) : Z * bool :=
  if (lockFlag =? 0) && negb spurious then (1, true) else (lockFlag, false).

Inductive waited := Got | Pause | Sleep.

(** One round of the loop of [lockAcq], with its count of rounds. *)
Definition lockAcq (lockFlag spins : Z) (spurious : bool) : Z * Z * waited :=
  let '(l, got) := compare_exchange_weak lockFlag spurious in
  if got : bool then (l, spins, Got)
  else
    let spins := u32 (spins + 1) in
    if spins <? 64 then (l, spins, Pause) else (l, 0, Sleep).

Definition lockRel (lockFlag : Z) : Z := 0.

(** ** A call in its parts *)

Inductive call :=
  | CMmap (addr len prot flags fd off : Z)
  | CMunmap (addr len : Z)
  | CMadvise (addr len advice : Z).

Definition owned (c : call) : bool :=
  match c with
  | CMmap addr _ prot flags fd off => isOwnedRequest addr prot flags fd off
  | _ => true
  end.

Definition bump (f : bumps -> bumps) (s : mm) : mm := set_calls s (f (calls s)).

(** The atomic updates before the lock, and those before a forwarded call. *)
Definition updates (c : call) : list (mm -> mm) :=
  match c with
  | CMmap _ _ _ _ _ _ => if owned c then [bump bump_map; banner; bump bump_carved] else [bump bump_map; bump bump_fell]
  | CMunmap _ _ => [bump bump_unmap]
  | CMadvise _ _ _ => []
  end.

Definition updates_after (c : call) : list (mm -> mm) :=
  match c with CMunmap _ _ => [bump bump_unmap_fell] | _ => [] end.

(** What the locked part found: a block to be zeroed, an answer, a refusal
    with [errno], or a call that goes to the kernel. *)
Inductive verdict := Serve (p : Z) | Answer | Refuse | Forward.

Section calls.
Context (K : kernel) (fuel : nat).

Definition inside (s : mm) (c : call) : outcome (mm * verdict) :=
  match c with
  | CMmap _ len _ _ _ _ =>
      let '(s, out) := mapOwned_locked K s (alignUp len Page) in
      Ok (s, match out with Some p => Serve p | None => Forward end)
  | CMunmap addr len =>
      match carveOfLocked (carve s) addr with
      | Some (i, c) =>
          '(s, ok) ← freeInLocked fuel s i c addr (alignUp len Page);
          Ok (if ok : bool then (bump bump_unmap_carved s, Answer) else (s, Refuse))
      | None => Ok (s, Forward)
      end
  | CMadvise addr _ _ => Ok (s, match carveOfLocked (carve s) addr with Some _ => Answer | None => Forward end)
  end.

Definition forward (s : mm) (c : call) : mm * Z :=
  match c with
  | CMmap addr len prot flags fd off =>
      if owned c then (did s (KMmap 0 len), k_mmap K (hist s) 0 len OwnedProt OwnedFlags (-1) 0)
      else (did s (KMmap addr len), k_mmap K (hist s) addr len prot flags fd off)
  | CMunmap addr len => (did s (KMunmap addr len), k_munmap K (hist s) addr len)
  | CMadvise addr len advice => (did s (KMadvise addr len), k_madvise K (hist s) addr len advice)
  end.

(** ** Threads *)

(** [mine]: an unmap of a mapping its caller had been given. *)
Inductive pc :=
  | Out
  | Before (c : call) (mine : bool) (us : list (mm -> mm))
  | Acquiring (c : call) (mine : bool) (spins : Z)
  | Inside (c : call) (mine : bool)
  | Releasing (c : call) (v : verdict)
  | Zeroing (c : call) (p want k : Z)
  | After (c : call) (us : list (mm -> mm)).

(** [held]: the mappings the clients have been given, from address to length.
    [misused]: somebody unmapped a live mapping that nobody had been given. *)
Record world := mk_world {
  lockFlag : Z; st : mm; pcs : nat -> pc; held : gmap Z Z; misused : bool; answers : list (nat * call * Z) }.

Definition want_of (c : call) : Z := match c with CMmap _ len _ _ _ _ => alignUp len Page | _ => 0 end.

Definition call_ok (c : call) : Prop :=
  match c with
  | CMmap _ len _ _ _ _ => 0 < len < 2 ^ 63
  | CMunmap _ len => 0 <= len < 2 ^ 63
  | CMadvise _ _ _ => True
  end.

(** A client that unmaps a mapping it holds gives it up with the call. *)
Definition gives_up (c : call) (h : gmap Z Z) : bool :=
  match c with CMunmap addr len => bool_decide (h !! addr = Some (pages len)) | _ => false end.

Definition given_up (c : call) (h : gmap Z Z) : gmap Z Z :=
  match c with CMunmap addr _ => if gives_up c h then delete addr h else h | _ => h end.

(** Where a client may store: into what it holds and outside the carve-outs. *)
Definition may_store (h : gmap Z Z) (cs : list carve_out) (a : Z) : Prop :=
  (exists b n, h !! b = Some n /\ b <= a < b + n) \/ Forall (fun c => in_carve a c = false) cs.

Definition entered (c : call) (mine : bool) : pc :=
  if owned c then Acquiring c mine 0 else After c [].

(** Where a thread goes after its release. *)
Definition after (c : call) (v : verdict) : pc :=
  match v with
  | Serve p => Zeroing c p (want_of c) 0
  | Forward => After c (updates_after c)
  | Answer | Refuse => Out
  end.

Definition answer_of (t : nat) (c : call) (v : verdict) : list (nat * call * Z) :=
  match v with Answer => [(t, c, 0)] | Refuse => [(t, c, -1)] | _ => [] end.

Definition unmapped (c : call) (v : verdict) : bool :=
  match c, v with CMunmap _ _, Answer => true | _, _ => false end.

Definition initial (m : Z -> Z) : world := mk_world 0 (Mmap.initial m) (fun _ => Out) ∅ false [].

Inductive step : world -> world -> Prop :=
  | step_call t c l s p h b r :
      p t = Out -> call_ok c ->
      step (mk_world l s p h b r)
           (mk_world l s (<[t := Before c (gives_up c h) (updates c)]> p) (given_up c h) b r)
  | step_update t c mine u us l s p h b r :
      p t = Before c mine (u :: us) ->
      step (mk_world l s p h b r) (mk_world l (u s) (<[t := Before c mine us]> p) h b r)
  | step_enter t c mine l s p h b r :
      p t = Before c mine [] ->
      step (mk_world l s p h b r) (mk_world l s (<[t := entered c mine]> p) h b r)
  | step_acquire t c mine spins spurious l l' spins' w s p h b r :
      p t = Acquiring c mine spins -> lockAcq l spins spurious = (l', spins', w) ->
      step (mk_world l s p h b r)
           (mk_world l' s (<[t := match w with Got => Inside c mine | _ => Acquiring c mine spins' end]> p) h b r)
  | step_inside t c mine s' v l s p h b r :
      p t = Inside c mine -> inside s c = Ok (s', v) ->
      step (mk_world l s p h b r)
           (mk_world l s' (<[t := Releasing c v]> p) h (b || (unmapped c v && negb mine)) r)
  | step_release t c v l s p h b r :
      p t = Releasing c v ->
      step (mk_world l s p h b r) (mk_world (lockRel l) s (<[t := after c v]> p) h b (r ++ answer_of t c v))
  | step_zero t c q want k l s p h b r :
      p t = Zeroing c q want k -> k < want ->
      step (mk_world l s p h b r)
           (mk_world l (set_ram s (memset (ram s) (q + k) 0 1)) (<[t := Zeroing c q want (k + 1)]> p) h b r)
  | step_given t c q want k l s p h b r :
      p t = Zeroing c q want k -> want <= k ->
      step (mk_world l s p h b r) (mk_world l s (<[t := Out]> p) (<[q := want]> h) b (r ++ [(t, c, q)]))
  | step_update_after t c u us l s p h b r :
      p t = After c (u :: us) ->
      step (mk_world l s p h b r) (mk_world l (u s) (<[t := After c us]> p) h b r)
  | step_forward t c s' x l s p h b r :
      p t = After c [] -> forward s c = (s', x) ->
      step (mk_world l s p h b r) (mk_world l s' (<[t := Out]> p) h b (r ++ [(t, c, x)]))
  | step_store t a v l s p h b r :
      p t = Out -> may_store h (carve s) a ->
      step (mk_world l s p h b r) (mk_world l (set_ram s (memset (ram s) a v 1)) p h b r).

(** ** One call alone *)

Definition run_updates (us : list (mm -> mm)) (s : mm) : mm := foldl (fun s u => u s) s us.

Definition alone (s : mm) (c : call) : outcome (mm * Z) :=
  let s := run_updates (updates c) s in
  if owned c then
    '(s, v) ← inside s c;
    Ok (match v with
        | Serve p => (set_ram s (memset (ram s) p 0 (want_of c)), p)
        | Answer => (s, 0)
        | Refuse => (set_errno s EINVAL, -1)
        | Forward => forward (run_updates (updates_after c) s) c
        end)
  else Ok (forward s c).

End calls.
End MmapLock.

(** The parts of a call, made one after the other, are the call. *)
Lemma alone_correct K fuel s c :
  MmapLock.alone K fuel s c =
    match c with
    | MmapLock.CMmap addr len prot flags fd off => Ok (__mmap K s addr len prot flags fd off)
    | MmapLock.CMunmap addr len => __munmap K fuel s addr len
    | MmapLock.CMadvise addr len advice => Ok (__madvise K s addr len advice)
    end.
Proof.
  destruct c as [addr len prot flags fd off|addr len|addr len advice]; unfold MmapLock.alone; cbn [MmapLock.owned].
  - unfold __mmap, MmapLock.updates. cbn [MmapLock.owned].
    destruct (isOwnedRequest addr prot flags fd off) eqn:Ho; cbn [negb MmapLock.run_updates foldl MmapLock.forward MmapLock.owned].
    2: { rewrite Ho. done. }
    unfold mapOwned, MmapLock.inside, MmapLock.bump, MmapLock.want_of, MmapLock.updates_after. cbn [foldl].
    destruct (mapOwned_locked K _ (alignUp len Page)) as [s' [p|]]; rewrite bind_ok; [done|].
    cbn [foldl MmapLock.forward MmapLock.run_updates MmapLock.owned]. by rewrite Ho.
  - unfold __munmap, MmapLock.inside, MmapLock.bump. cbn [MmapLock.updates MmapLock.run_updates foldl].
    destruct (carveOfLocked _ addr) as [[i c]|]; [|done].
    destruct (freeInLocked _ _ _ _ _ _) as [[s' []]| |]; done.
  - unfold __madvise, MmapLock.inside. cbn [MmapLock.updates MmapLock.run_updates foldl].
    by destruct (carveOfLocked _ addr) as [[]|].
Qed.

(** ** Who has which mapping *)

Section safety.
Context (K : kernel) `{!MapFresh K} (fuel : nat).
Hypothesis Hfuel : (MaxBlocks < fuel)%nat.

Import MmapLock.
Local Abbreviation step := (MmapLock.step K fuel).

(** Between the acquisition and the release. *)
Definition critical (q : pc) : bool := match q with Inside _ _ | Releasing _ _ => true | _ => false end.

(** The mapping a thread has in hand: a block on its way to the caller, or one
    on its way back. *)
Definition in_hand (q : pc) : option (Z * Z) :=
  match q with
  | Before (CMunmap a len) true _ | Acquiring (CMunmap a len) true _ | Inside (CMunmap a len) true => Some (a, pages len)
  | Releasing c (Serve p) => Some (p, want_of c)
  | Zeroing _ p want _ => Some (p, want)
  | _ => None
  end.

Definition harmless (u : mm -> mm) : Prop :=
  forall s, carve (u s) = carve s /\ ram (u s) = ram s /\ (mm_ok s -> mm_ok (u s)).

Definition pc_ok (q : pc) : Prop :=
  match q with
  | Out => True
  | Before c mine us => call_ok c /\ Forall harmless us
  | Acquiring c _ _ | Inside c _ => call_ok c /\ owned c = true
  | Releasing c v => call_ok c
  | Zeroing c p want k => 0 <= k <= want
  | After c us => call_ok c /\ Forall harmless us
  end.

Definition locked (l : Z) (p : nat -> pc) : Prop :=
  exists o : option nat, l = match o with Some _ => 1 | None => 0 end /\ forall u, critical (p u) = bool_decide (o = Some u).

Record claims (cs : list carve_out) (m : Z -> Z) (h : gmap Z Z) (p : nat -> pc) : Prop := {
  cl_held : forall a n, h !! a = Some n -> live cs a n;
  cl_hand : forall t a n, in_hand (p t) = Some (a, n) -> live cs a n /\ h !! a = None;
  cl_apart : forall t u a n k, in_hand (p t) = Some (a, n) -> in_hand (p u) = Some (a, k) -> t = u;
  cl_all : forall a n, live cs a n -> h !! a = Some n \/ exists t, in_hand (p t) = Some (a, n);
  cl_zero : forall t c q want k, p t = Zeroing c q want k -> forall x, q <= x < q + k -> m x = 0 }.

Record inv (w : world) : Prop := {
  i_lock : locked (lockFlag w) (pcs w);
  i_mm : mm_ok (st w);
  i_pc : forall t, pc_ok (pcs w t);
  i_claims : misused w = false -> claims (carve (st w)) (ram (st w)) (held w) (pcs w) }.

Ltac at_thread t u := destruct (decide (t = u)) as [<-|?]; [rewrite ?fn_lookup_insert in *|rewrite ?fn_lookup_insert_ne in * by done].

Lemma locked_move l p t P : critical P = critical (p t) -> locked l p -> locked l (<[t := P]> p).
Proof.
  intros HP (o & Hl & Ho). exists o. split; [done|]. intros u. rewrite <- (Ho u). by at_thread t u.
Qed.

Lemma pc_move p t P : pc_ok P -> (forall u, pc_ok (p u)) -> forall u, pc_ok ((<[t := P]> p : nat -> pc) u).
Proof. intros HP Hp u. by at_thread t u. Qed.

Lemma bump_harmless f : harmless (bump f).
Proof. intros s. do 2 (split; [done|]). intros. by apply (mm_ok_ext s). Qed.

Lemma banner_harmless : harmless banner.
Proof. intros s. unfold banner. destruct (bannerDone s =? 0); (do 2 (split; [done|]); intros; by apply (mm_ok_ext s)). Qed.

Lemma updates_harmless c : Forall harmless (updates c).
Proof. destruct c; cbn; [destruct (isOwnedRequest _ _ _ _ _)|..]; eauto using bump_harmless, banner_harmless. Qed.

Lemma updates_after_harmless c : Forall harmless (updates_after c).
Proof. destruct c; cbn; eauto using bump_harmless. Qed.

(** A thread that moves with the same mapping in hand. *)
Lemma claims_move cs m h p t P :
  in_hand P = in_hand (p t) -> (forall c q want k, P = Zeroing c q want k -> forall x, q <= x < q + k -> m x = 0) ->
  claims cs m h p -> claims cs m h (<[t := P]> p).
Proof.
  intros HP HZ [H1 H2 H3 H4 H5].
  assert (forall u, in_hand ((<[t := P]> p : nat -> pc) u) = in_hand (p u)) as E by (intros u; by at_thread t u).
  constructor; [done|..].
  - intros u a n. rewrite E. apply H2.
  - intros u v a n k. rewrite !E. apply H3.
  - intros a n Ha. setoid_rewrite E. by apply H4.
  - intros u c q want k. at_thread t u; [apply HZ|apply H5].
Qed.

Lemma claims_ram cs m m' h p :
  (forall t c q want k, p t = Zeroing c q want k -> forall x, q <= x < q + k -> m x = 0 -> m' x = 0) ->
  claims cs m h p -> claims cs m' h p.
Proof. intros Hm [H1 H2 H3 H4 H5]. constructor; try done. intros t c q want k Ht x Hx. eauto. Qed.

(** A client gives a mapping up. *)
Lemma claims_give cs m h p t P a n :
  h !! a = Some n -> in_hand (p t) = None -> in_hand P = Some (a, n) -> (forall c q want k, P <> Zeroing c q want k) ->
  claims cs m h p -> claims cs m (delete a h) (<[t := P]> p).
Proof.
  intros Ha Ht HP HZ [H1 H2 H3 H4 H5]. constructor.
  - intros b k Hb. apply H1. apply lookup_delete_Some in Hb. tauto.
  - intros u b k. at_thread t u.
    + rewrite HP. intros [= <- <-]. split; [by apply H1|apply lookup_delete_eq].
    + intros Hu. destruct (H2 _ _ _ Hu) as [Hl Hn]. split; [done|]. apply lookup_delete_None. by right.
  - intros u v b k k'. at_thread t u; at_thread t v; [done|..|apply H3]; rewrite HP.
    + intros [= <- <-] Hv. destruct (H2 _ _ _ Hv) as [_ Hn]. congruence.
    + intros Hv [= <- <-]. destruct (H2 _ _ _ Hv) as [_ Hn]. congruence.
  - intros b k Hl. destruct (H4 b k Hl) as [Hb|[u Hu]].
    + destruct (decide (b = a)) as [->|Hne].
      * right. exists t. rewrite fn_lookup_insert, HP. congruence.
      * left. by rewrite lookup_delete_ne.
    + right. exists u. at_thread t u; [congruence|done].
  - intros u c q want k. at_thread t u; [intros E; by destruct (HZ c q want k)|apply H5].
Qed.

(** A block is taken out of the carve-outs. *)
Lemma claims_take cs cs' m h p t P a n :
  (forall b k, live cs' b k <-> (b = a /\ k = n) \/ live cs b k) -> (forall b k, live cs b k -> b <> a) ->
  in_hand (p t) = None -> in_hand P = Some (a, n) -> (forall c q want k, P <> Zeroing c q want k) ->
  claims cs m h p -> claims cs' m h (<[t := P]> p).
Proof.
  intros Hl Hfresh Ht HP HZ [H1 H2 H3 H4 H5]. constructor.
  - intros b k Hb. apply Hl. right. by apply H1.
  - intros u b k. at_thread t u.
    + rewrite HP. intros [= <- <-]. split; [apply Hl; by left|].
      destruct (h !! a) eqn:E; [|done]. apply H1 in E. by apply Hfresh in E.
    + intros Hu. destruct (H2 _ _ _ Hu). split; [apply Hl; by right|done].
  - intros u v b k k'. at_thread t u; at_thread t v; [done|..|apply H3]; rewrite HP.
    + intros [= <- <-] Hv. destruct (H2 _ _ _ Hv) as [Hv' _]. by apply Hfresh in Hv'.
    + intros Hv [= <- <-]. destruct (H2 _ _ _ Hv) as [Hv' _]. by apply Hfresh in Hv'.
  - intros b k [[-> ->]|Hb]%Hl; [right; exists t; by rewrite fn_lookup_insert|].
    destruct (H4 b k Hb) as [?|[u Hu]]; [by left|]. right. exists u. at_thread t u; [congruence|done].
  - intros u c q want k. at_thread t u; [intros E; by destruct (HZ c q want k)|apply H5].
Qed.

(** A block goes back into the carve-outs. *)
Lemma claims_drop cs cs' m h p t P a n :
  (forall b k, live cs' b k <-> live cs b k /\ b <> a) ->
  in_hand (p t) = Some (a, n) -> in_hand P = None -> (forall c q want k, P <> Zeroing c q want k) ->
  claims cs m h p -> claims cs' m h (<[t := P]> p).
Proof.
  intros Hl Ht HP HZ [H1 H2 H3 H4 H5]. destruct (H2 _ _ _ Ht) as [_ Ha]. constructor.
  - intros b k Hb. apply Hl. split; [by apply H1|]. congruence.
  - intros u b k. at_thread t u; [congruence|]. intros Hu. destruct (H2 _ _ _ Hu) as [Hb Hn].
    split; [|done]. apply Hl. split; [done|]. intros ->. by pose proof (H3 _ _ _ _ _ Ht Hu).
  - intros u v b k k'. at_thread t u; at_thread t v; try congruence. apply H3.
  - intros b k [Hb Hne]%Hl. destruct (H4 b k Hb) as [?|[u Hu]]; [by left|]. right. exists u.
    at_thread t u; [congruence|done].
  - intros u c q want k. at_thread t u; [intros E; by destruct (HZ c q want k)|apply H5].
Qed.

(** A block is delivered. *)
Lemma claims_deliver cs m h p t a n :
  in_hand (p t) = Some (a, n) -> claims cs m h p -> claims cs m (<[a := n]> h) (<[t := Out]> p).
Proof.
  intros Ht [H1 H2 H3 H4 H5]. destruct (H2 _ _ _ Ht) as [Hla Ha]. constructor.
  - intros b k. destruct (decide (b = a)) as [->|Hne]; [rewrite lookup_insert_eq; by intros [= <-]|].
    rewrite lookup_insert_ne by done. apply H1.
  - intros u b k. at_thread t u; [done|]. intros Hu. destruct (H2 _ _ _ Hu) as [Hb Hn]. split; [done|].
    rewrite lookup_insert_ne; [done|]. intros ->. by pose proof (H3 _ _ _ _ _ Ht Hu).
  - intros u v b k k'. at_thread t u; at_thread t v; try done. apply H3.
  - intros b k Hb. destruct (H4 b k Hb) as [Hh|[u Hu]].
    + left. rewrite lookup_insert_ne; [done|]. intros ->. congruence.
    + at_thread t u; [left; rewrite Ht in Hu; injection Hu as <- <-; by rewrite lookup_insert_eq|].
      right. exists u. by rewrite fn_lookup_insert_ne.
  - intros u c q want k. at_thread t u; [done|apply H5].
Qed.

(** ** The locked parts *)

Lemma inside_mmap s addr len prot flags fd off s' v :
  mm_ok s -> 0 < len < 2 ^ 63 -> inside K fuel s (CMmap addr len prot flags fd off) = Ok (s', v) ->
  mm_ok s' /\ ram s' = ram s /\
  match v with
  | Serve p => (forall b k, live (carve s') b k <-> (b = p /\ k = alignUp len Page) \/ live (carve s) b k) /\
               (forall b k, live (carve s) b k -> b <> p)
  | Forward => carve s' = carve s
  | _ => False
  end.
Proof.
  intros Hok Hlen. pose proof (pages_bounds len Hlen) as (B1 & B2 & B3). unfold inside. rewrite alignUp_page by lia.
  destruct (mapOwned_locked K s (pages len)) as [s1 out] eqn:E.
  destruct (mapOwned_locked_spec K s len Hok Hlen _ _ E) as (Hok1 & _ & Er & H). intros [= <- <-].
  split; [done|]. split; [done|]. destruct out as [p|]; [|tauto].
  destruct H as (cs & Hl & T & Hs). split.
  - intros b k. by rewrite (served_live _ _ _ _ T Hs), Hl.
  - intros b k Hb ->. apply Hl in Hb. pose proof (served_fresh _ _ _ _ T B3 B2 Hs _ _ Hb) as Hap.
    pose proof (region_bounds _ _ _ T Hb). unfold apart2 in Hap. lia.
Qed.

Lemma inside_munmap s a len s' v :
  mm_ok s -> 0 <= len < 2 ^ 63 -> inside K fuel s (CMunmap a len) = Ok (s', v) ->
  mm_ok s' /\ ram s' = ram s /\
  match v with
  | Answer => forall b k, live (carve s') b k <-> live (carve s) b k /\ b <> a
  | Refuse | Forward => carve s' = carve s /\ ~ live (carve s) a (pages len)
  | Serve _ => False
  end.
Proof.
  intros Hok Hlen. unfold inside. destruct (carveOfLocked (carve s) a) as [[i c]|] eqn:Hof.
  - rewrite alignUp_page by done.
    destruct (runs_elim _ _ (freeInLocked_spec fuel s i c a (pages len) Hok Hof Hfuel)) as ([s1 ok] & -> & Er & _ & _ & Hok1 & Hcase).
    rewrite bind_ok. cbn [fst snd] in *. destruct ok; intros [= <- <-].
    + split; [by apply (mm_ok_ext s1)|]. split; [done|]. intros b k.
      by rewrite <- (unserved_live _ _ _ _ (ok_table _ Hok) (proj2 Hcase)).
    + split; [done|]. split; [done|]. tauto.
  - intros [= <- <-]. do 3 (split; [done|]). intros Hl.
    pose proof (region_bounds _ _ _ (ok_table _ Hok) Hl).
    apply (carveOfLocked_none _ _ _ _ (ok_table _ Hok) Hof Hl). lia.
Qed.

Lemma inside_total s c : mm_ok s -> call_ok c -> exists s' v, inside K fuel s c = Ok (s', v).
Proof.
  intros Hok Hc. destruct c as [addr len prot flags fd off|a len|a len ad]; cbn [inside].
  - destruct (mapOwned_locked K s (alignUp len Page)) as [s1 out]. eauto.
  - destruct (carveOfLocked (carve s) a) as [[i c]|] eqn:Hof; [|eauto].
    destruct (runs_elim _ _ (freeInLocked_spec fuel s i c a (alignUp len Page) Hok Hof Hfuel)) as ([s1 ok] & -> & _).
    rewrite bind_ok. destruct ok; eauto.
  - eauto.
Qed.

(** A live mapping lies in a carve-out. *)
Lemma live_in_carve cs a n x : table_ok cs -> live cs a n -> a <= x < a + n -> ~ Forall (fun c => in_carve x c = false) cs.
Proof.
  intros [Hc _ _] (c & Hin & Hl) Hx Hf. rewrite list.Forall_forall in Hc, Hf.
  pose proof (live_in_bounds _ _ _ _ _ _ (co_blk _ (Hc c Hin)) Hl). specialize (Hf c Hin).
  unfold in_carve in Hf. lia.
Qed.

(** ** Every step *)

Lemma inv_inside t c mine s' v l s p h b r :
  p t = Inside c mine -> inside K fuel s c = Ok (s', v) -> inv (mk_world l s p h b r) ->
  inv (mk_world l s' (<[t := Releasing c v]> p) h (b || (unmapped c v && negb mine)) r).
Proof.
  intros Ht Hin [Hl Hok Hp Hc]. cbn in *. pose proof (Hp t) as Hpt. rewrite Ht in Hpt. destruct Hpt as [Hco Hown].
  assert (mm_ok s' /\ ((b || (unmapped c v && negb mine)) = false ->
    claims (carve s') (ram s') h (<[t := Releasing c v]> p))) as [Hok' Hc'].
  2: { constructor; cbn; [|done|by apply pc_move|done]. apply locked_move; [by rewrite Ht|done]. }
  destruct c as [addr len prot flags fd off|a len|a len ad].
  - destruct (inside_mmap s addr len prot flags fd off s' v Hok Hco Hin) as (Hok' & Er & Hv). split; [done|].
    cbn. rewrite orb_false_r. intros Hb. rewrite Er. destruct v as [q| | |]; [|done|done|].
    + destruct Hv as [H1 H2]. eapply claims_take; [exact H1|exact H2|by rewrite Ht|done|done|by apply Hc].
    + rewrite Hv. apply claims_move; [by rewrite Ht|done|by apply Hc].
  - destruct (inside_munmap s a len s' v Hok Hco Hin) as (Hok' & Er & Hv). split; [done|]. intros Hb. rewrite Er.
    apply orb_false_iff in Hb as [Hb Hm]. specialize (Hc Hb). destruct v as [q| | |]; [done|..].
    + assert (mine = true) as -> by (by destruct mine). eapply claims_drop; [exact Hv|by rewrite Ht|done|done|done].
    + destruct mine; [destruct Hv as [_ []]; apply (cl_hand _ _ _ _ Hc t); by rewrite Ht|].
      rewrite (proj1 Hv). apply claims_move; [by rewrite Ht|done|done].
    + destruct mine; [destruct Hv as [_ []]; apply (cl_hand _ _ _ _ Hc t); by rewrite Ht|].
      rewrite (proj1 Hv). apply claims_move; [by rewrite Ht|done|done].
  - cbn in Hin. injection Hin as <- <-. split; [done|]. rewrite orb_false_r. intros Hb.
    apply claims_move; [by rewrite Ht; destruct (carveOfLocked _ a)|done|by apply Hc].
Qed.

Lemma inv_update t P s s' l p h b r r' :
  carve s' = carve s /\ ram s' = ram s /\ (mm_ok s -> mm_ok s') ->
  critical P = critical (p t) -> in_hand P = in_hand (p t) ->
  (forall c q want k, P <> Zeroing c q want k) -> pc_ok P ->
  inv (mk_world l s p h b r) -> inv (mk_world l s' (<[t := P]> p) h b r').
Proof.
  intros (E1 & E2 & E3) Hcr Hih HZ HP [Hl Hok Hp Hc]. cbn in *.
  constructor; cbn; [by apply locked_move|auto|by apply pc_move|]. intros Hb. rewrite E1, E2.
  apply claims_move; [done| |by apply Hc]. intros c q want k E. by destruct (HZ c q want k).
Qed.

(** Stores and zeroing change only the memory. *)
Lemma inv_ram s m' l p h b r :
  (b = false -> claims (carve s) (ram s) h p -> table_ok (carve s) -> claims (carve s) m' h p) ->
  inv (mk_world l s p h b r) -> inv (mk_world l (set_ram s m') p h b r).
Proof.
  intros Hm [Hl Hok Hp Hc]. cbn in *. constructor; cbn; [done|by apply (mm_ok_ext s)|done|].
  intros Hb. apply Hm; [done|by apply Hc|by apply Hok].
Qed.

Lemma inv_acquire t c mine spins spurious l l' spins' w s p h b r :
  p t = Acquiring c mine spins -> lockAcq l spins spurious = (l', spins', w) -> inv (mk_world l s p h b r) ->
  inv (mk_world l' s (<[t := match w with Got => Inside c mine | _ => Acquiring c mine spins' end]> p) h b r).
Proof.
  intros Ht Ha Hinv. pose proof (i_pc _ Hinv t) as Hpt. cbn in Hpt. rewrite Ht in Hpt.
  assert (w <> Got -> l' = l) as Hl'.
  { unfold lockAcq, compare_exchange_weak in Ha. destruct ((l =? 0) && negb spurious); [by injection Ha as <- <- <-|].
    destruct (u32 (spins + 1) <? 64); by injection Ha as <- <- <-. }
  destruct w; [|rewrite Hl' by done; apply (inv_update t _ s _ _ _ _ _ r); try done; by rewrite Ht..].
  unfold lockAcq, compare_exchange_weak in Ha.
  destruct ((l =? 0) && negb spurious) eqn:E; [|by destruct (u32 (spins + 1) <? 64)].
  injection Ha as <- <-. destruct Hinv as [(o & Hl & Ho) Hok Hp Hc]. cbn in *.
  destruct o as [o|]; [lia|]. constructor; cbn; [|done|by apply pc_move|].
  - exists (Some t). split; [done|]. intros u. at_thread t u; [by rewrite bool_decide_eq_true_2|].
    rewrite Ho, !bool_decide_eq_false_2; congruence.
  - intros Hb. apply claims_move; [by rewrite Ht|done|by apply Hc].
Qed.

Lemma want_of_nonneg c : 0 <= want_of c.
Proof. destruct c; cbn; [apply Z.land_nonneg; left; apply u64_range|lia..]. Qed.

Lemma inv_release t c v l s p h b r :
  p t = Releasing c v -> inv (mk_world l s p h b r) ->
  inv (mk_world (lockRel l) s (<[t := after c v]> p) h b (r ++ answer_of t c v)).
Proof.
  intros Ht [(o & Hl & Ho) Hok Hp Hc]. cbn in *. pose proof (Hp t) as Hpt. rewrite Ht in Hpt. cbn in Hpt.
  pose proof (Ho t) as Hot. rewrite Ht in Hot. cbn in Hot. symmetry in Hot. apply bool_decide_eq_true in Hot as ->.
  constructor; cbn; [|done| |].
  - exists None. split; [done|]. intros u. at_thread t u; [by destruct v|].
    rewrite Ho, !bool_decide_eq_false_2; congruence.
  - apply pc_move; [|done]. destruct v; cbn; auto using updates_after_harmless. pose proof (want_of_nonneg c). lia.
  - intros Hb. apply claims_move; [by rewrite Ht; destruct v| |by apply Hc].
    intros c' q want k E x Hx. destruct v; simplify_eq/=. lia.
Qed.

Lemma claims_store cs m h p a v :
  table_ok cs -> (forall t, pc_ok (p t)) -> may_store h cs a -> claims cs m h p -> claims cs (memset m a v 1) h p.
Proof.
  intros T Hp Ha Hc. eapply claims_ram; [|exact Hc]. intros t c q want k Ht x Hx Hm. unfold memset.
  destruct ((a <=? x) && (x <? a + 1)) eqn:E; [|done]. assert (x = a) as -> by lia.
  destruct (cl_hand _ _ _ _ Hc t q want) as [Hl Hn]; [by rewrite Ht|].
  pose proof (Hp t) as Hk. rewrite Ht in Hk. cbn in Hk.
  destruct Ha as [(d & n & Hd & Hr)|Ho]; [|by destruct (live_in_carve _ _ _ a T Hl ltac:(lia))].
  destruct (live_apart _ _ _ _ _ T Hl (cl_held _ _ _ _ Hc _ _ Hd)) as [[-> ->]|Hap]; [congruence|].
  unfold apart2 in Hap. lia.
Qed.

Lemma inv_zero t c q want k l s p h b r :
  p t = Zeroing c q want k -> k < want -> inv (mk_world l s p h b r) ->
  inv (mk_world l (set_ram s (memset (ram s) (q + k) 0 1)) (<[t := Zeroing c q want (k + 1)]> p) h b r).
Proof.
  intros Ht Hk Hinv. pose proof (i_pc _ Hinv t) as Hpt. cbn in Hpt. rewrite Ht in Hpt.
  destruct (inv_ram s (memset (ram s) (q + k) 0 1) l p h b r) as [Hl Hok Hp Hc]; [|done|].
  { intros _ Hc _. eapply claims_ram; [|exact Hc]. intros u c' q' w' k' _ x _ Hx. unfold memset.
    by destruct ((q + k <=? x) && (x <? q + k + 1)). }
  cbn in *. constructor; cbn; [apply locked_move; [by rewrite Ht|done]|done|apply pc_move; [cbn; lia|done]|].
  intros Hb. specialize (Hc Hb). apply claims_move; [by rewrite Ht| |done].
  intros c' q' w' k' [= <- <- <- <-] x Hx. unfold memset at 1.
  destruct ((q + k <=? x) && (x <? q + k + 1)) eqn:E; [done|].
  pose proof (cl_zero _ _ _ _ Hc t c q want k Ht x ltac:(lia)) as Hz. unfold memset in Hz. by rewrite E in Hz.
Qed.

Lemma inv_step w w' : step w w' -> inv w -> inv w'.
Proof.
  intros Hs Hinv. destruct Hs as [t c l s p h b r Ht Hco|t c mine u us l s p h b r Ht|t c mine l s p h b r Ht
    |t c mine spins spurious l l' spins' w s p h b r Ht Ha|t c mine s' v l s p h b r Ht Hin|t c v l s p h b r Ht
    |t c q want k l s p h b r Ht Hk|t c q want k l s p h b r Ht Hk|t c u us l s p h b r Ht|t c s' x l s p h b r Ht Hf
    |t a v l s p h b r Ht Ha].
  - unfold given_up. destruct (gives_up c h) eqn:Hg.
    2: { apply (inv_update t _ s _ _ _ _ _ r); rewrite ?Ht; try done; (by destruct c) || (split; [done|apply updates_harmless]). }
    destruct c as [|a len|]; try done. apply bool_decide_eq_true in Hg. destruct Hinv as [Hl Hok Hp Hc]. cbn in *.
    constructor; cbn; [apply locked_move; [by rewrite Ht|done]|done|apply pc_move; [|done]; split; [done|apply (updates_harmless (CMunmap a len))]|].
    intros Hb. eapply claims_give; [exact Hg|by rewrite Ht|done|done|by apply Hc].
  - pose proof (i_pc _ Hinv t) as Hpt. cbn in Hpt. rewrite Ht in Hpt. destruct Hpt as [Hco Hus].
    apply List.Forall_cons_iff in Hus as [Hu Hus]. apply (inv_update t _ s _ _ _ _ _ r); rewrite ?Ht; first [done|apply Hu].
  - pose proof (i_pc _ Hinv t) as Hpt. cbn in Hpt. rewrite Ht in Hpt. destruct Hpt as [Hco _].
    unfold entered. destruct (owned c) eqn:Ho; apply (inv_update t _ s _ _ _ _ _ r); rewrite ?Ht; first [done|by destruct c].
  - by eapply inv_acquire.
  - by eapply inv_inside.
  - by apply inv_release.
  - by apply inv_zero.
  - pose proof (i_pc _ Hinv t) as Hpt. cbn in Hpt. rewrite Ht in Hpt. destruct Hinv as [Hl Hok Hp Hc]. cbn in *.
    constructor; cbn; [apply locked_move; [by rewrite Ht|done]|done|by apply pc_move|].
    intros Hb. apply claims_deliver; [by rewrite Ht|by apply Hc].
  - pose proof (i_pc _ Hinv t) as Hpt. cbn in Hpt. rewrite Ht in Hpt. destruct Hpt as [Hco Hus].
    apply List.Forall_cons_iff in Hus as [Hu Hus]. apply (inv_update t _ s _ _ _ _ _ r); rewrite ?Ht; first [done|apply Hu].
  - apply (inv_update t _ s _ _ _ _ _ r); rewrite ?Ht; try done.
    assert (exists k, s' = did s k /\ (forall x, held_direct (k :: x) = held_direct x) /\
      (forall x, held_mapped (k :: x) = held_mapped x)) as (k & -> & K1 & K2).
    { unfold forward in Hf. destruct c; [destruct (owned _)|..]; injection Hf as <- _; by eexists. }
    do 2 (split; [done|]). intros [T H C L D M]. constructor; cbn [carve heldBytes cnt hist did]; rewrite ?K1, ?K2; done.
  - apply inv_ram; [|done]. intros _ Hc T. apply claims_store; [done|apply (i_pc _ Hinv)|done|done].
Qed.

Lemma inv_run m w : rtc step (MmapLock.initial m) w -> inv w.
Proof.
  intros Hrun. assert (inv (MmapLock.initial m)) as H0.
  { constructor; cbn; [by exists None|apply initial_ok|done|]. intros _. constructor; try done.
    intros a n (c & Hc & _). by apply not_elem_of_nil in Hc. }
  revert H0. induction Hrun as [w|w1 w2 w3 Hs _ IH]; [done|]. intros H. by apply IH, (inv_step w1).
Qed.

(** C15: Threads that map, unmap, advise and store in any interleaving: at most
    one is inside the lock and the table of carve-outs stays sound.  As long
    as nobody unmaps a live mapping that was not his, the live mappings are
    exactly those the clients hold and those a thread has in hand, no two of
    them overlap, and the block that a thread has zeroed outside the lock is
    zero when it is handed to the caller, whatever the others stored. *)
Theorem mmap_threads_correct m w (Hrun : rtc step (MmapLock.initial m) w) :
  (forall t u, critical (pcs w t) = true -> critical (pcs w u) = true -> t = u) /\ mm_ok (st w) /\
  (misused w = false ->
    (forall a n, live (carve (st w)) a n <-> held w !! a = Some n \/ exists t, in_hand (pcs w t) = Some (a, n)) /\
    (forall a n b k, held w !! a = Some n -> held w !! b = Some k -> a <> b -> apart2 a n b k) /\
    (forall t a n, in_hand (pcs w t) = Some (a, n) -> forall b k,
       held w !! b = Some k \/ (exists u, u <> t /\ in_hand (pcs w u) = Some (b, k)) -> apart2 a n b k) /\
    (forall t c p want k, pcs w t = Zeroing c p want k -> want <= k -> forall x, p <= x < p + want -> ram (st w) x = 0)).
Proof.
  destruct (inv_run m w Hrun) as [(o & Hl & Ho) Hok Hp Hc]. split; [|split; [done|]].
  - intros t u Ht Hu. rewrite Ho in Ht, Hu. apply bool_decide_eq_true in Ht, Hu. congruence.
  - intros Hb. destruct (Hc Hb) as [H1 H2 H3 H4 H5]. pose proof (ok_table _ Hok) as T.
    assert (forall t a n, in_hand (pcs w t) = Some (a, n) -> forall b k,
      held w !! b = Some k \/ (exists u, u <> t /\ in_hand (pcs w u) = Some (b, k)) -> apart2 a n b k) as Hapart.
    { intros t a n Ht b k Hk. destruct (H2 _ _ _ Ht) as [Ha Hn]. destruct Hk as [Hk|(u & Hne & Hu)].
      - destruct (live_apart _ _ _ _ _ T Ha (H1 _ _ Hk)) as [[-> _]|]; [congruence|done].
      - destruct (live_apart _ _ _ _ _ T Ha (proj1 (H2 _ _ _ Hu))) as [[-> _]|]; [|done].
        by destruct Hne, (H3 _ _ _ _ _ Ht Hu). }
    split; [|split; [|split; [exact Hapart|]]].
    + intros a n. split; [apply H4|]. intros [Ha|[t Ht]]; [by apply H1|by eapply H2].
    + intros a n b k Ha Hb' Hne. destruct (live_apart _ _ _ _ _ T (H1 _ _ Ha) (H1 _ _ Hb')) as [[-> _]|]; done.
    + intros t c p want k Ht Hk x Hx. eapply H5; [exact Ht|lia].
Qed.

(** ** Every call can be finished *)

Definition ends (t : nat) (w : world) : Prop := exists w', rtc step w w' /\ pcs w' t = Out.

Lemma ends_step t w w' : step w w' -> ends t w' -> ends t w.
Proof. intros Hs (w2 & Hr & Hp). exists w2. split; [by eapply rtc_l|done]. Qed.

Lemma ends_zeroing t c q want k l s p h b r : p t = Zeroing c q want k -> ends t (mk_world l s p h b r).
Proof.
  remember (Z.to_nat (want - k)) as n eqn:Hn. revert k s p Hn. induction n as [|n IH]; intros k s p Hn Ht.
  - eapply ends_step; [eapply step_given; [done|lia]|]. eexists. split; [apply rtc_refl|]. cbn. by rewrite fn_lookup_insert.
  - eapply ends_step; [eapply step_zero; [done|lia]|]. eapply (IH (k + 1)); [lia|]. by rewrite fn_lookup_insert.
Qed.

Lemma ends_after t c us l s p h b r : p t = After c us -> ends t (mk_world l s p h b r).
Proof.
  revert s p. induction us as [|u us IH]; intros s p Ht.
  - destruct (forward K s c) as [s' x] eqn:Hf. eapply ends_step; [by eapply step_forward|].
    eexists. split; [apply rtc_refl|]. cbn. by rewrite fn_lookup_insert.
  - eapply ends_step; [by eapply step_update_after|]. apply IH. by rewrite fn_lookup_insert.
Qed.

Lemma ends_releasing t c v l s p h b r : p t = Releasing c v -> ends t (mk_world l s p h b r).
Proof.
  intros Ht. eapply ends_step; [by eapply step_release|].
  destruct v; cbn; try (eexists; split; [apply rtc_refl|]; cbn; by rewrite fn_lookup_insert).
  - eapply ends_zeroing. by rewrite fn_lookup_insert.
  - eapply ends_after. by rewrite fn_lookup_insert.
Qed.

Lemma ends_inside t c mine l s p h b r :
  inv (mk_world l s p h b r) -> p t = Inside c mine -> ends t (mk_world l s p h b r).
Proof.
  intros Hinv Ht. pose proof (i_pc _ Hinv t) as Hpt. cbn in Hpt. rewrite Ht in Hpt.
  destruct (inside_total s c (i_mm _ Hinv) (proj1 Hpt)) as (s' & v & Hin).
  eapply ends_step; [by eapply step_inside|]. eapply ends_releasing. by rewrite fn_lookup_insert.
Qed.

Lemma ends_free t c mine spins s p h b r :
  inv (mk_world 0 s p h b r) -> p t = Acquiring c mine spins -> ends t (mk_world 0 s p h b r).
Proof.
  intros Hinv Ht. assert (step (mk_world 0 s p h b r) (mk_world 1 s (<[t := Inside c mine]> p) h b r)) as Hs.
  { by apply (step_acquire K fuel t c mine spins false 0 1 spins Got). }
  eapply ends_step; [exact Hs|]. eapply ends_inside; [by eapply inv_step|]. by rewrite fn_lookup_insert.
Qed.

(** The holder of the lock gets to its release; nobody else moves. *)
Lemma holder_leaves u w :
  inv w -> critical (pcs w u) = true ->
  exists w', rtc step w w' /\ inv w' /\ lockFlag w' = 0 /\ forall t, t <> u -> pcs w' t = pcs w t.
Proof.
  assert (forall w c v, inv w -> pcs w u = Releasing c v ->
    exists w', rtc step w w' /\ inv w' /\ lockFlag w' = 0 /\ forall t, t <> u -> pcs w' t = pcs w t) as Hrel.
  { intros [l s p h b r] c v Hi Hr. cbn in Hr.
    pose proof (step_release K fuel u c v l s p h b r Hr) as Hs.
    eexists. split; [by apply rtc_once|]. split; [by eapply inv_step|]. split; [done|].
    intros t Ht. cbn. by rewrite fn_lookup_insert_ne. }
  intros Hinv Hu. destruct (pcs w u) as [| | |c mine|c v| |] eqn:Hpu; try done; [|by apply (Hrel w c v)].
  destruct w as [l s p h b r]. cbn in Hpu. pose proof (i_pc _ Hinv u) as Hpc. cbn in Hpc. rewrite Hpu in Hpc.
  destruct (inside_total s c (i_mm _ Hinv) (proj1 Hpc)) as (s' & v & Hin).
  pose proof (step_inside K fuel u c mine s' v l s p h b r Hpu Hin) as Hs.
  destruct (Hrel _ c v (inv_step _ _ Hs Hinv)) as (w' & Hr & Hi & Hl & Ho); [cbn; by rewrite fn_lookup_insert|].
  exists w'. split; [by eapply rtc_l|]. split; [done|]. split; [done|]. intros t Ht. rewrite Ho by done. cbn.
  by rewrite fn_lookup_insert_ne.
Qed.

Lemma ends_acquiring t c mine spins w : inv w -> pcs w t = Acquiring c mine spins -> ends t w.
Proof.
  intros Hinv Ht. destruct (i_lock _ Hinv) as ([u|] & Hl & Ho).
  - destruct (holder_leaves u w Hinv) as ([l s p h b r] & Hr & Hi & Hl0 & Hp); [rewrite Ho; by apply bool_decide_eq_true|].
    cbn in Hl0. subst l. destruct (ends_free t c mine spins s p h b r Hi) as (w2 & Hr2 & Hout).
    { rewrite <- Ht. symmetry. symmetry. apply Hp. intros ->.
      specialize (Ho u). rewrite Ht, bool_decide_eq_true_2 in Ho; done. }
    exists w2. split; [by etrans|done].
  - destruct w as [l s p h b r]. cbn in Hl, Ht. subst l. by eapply ends_free.
Qed.

(** C19: No call gets stuck or faults: from whatever state the threads have
    reached together, every call that is under way can be finished, in the
    lock by waiting for its holder, whose own part always ends. *)
Theorem mmap_calls_finish m w t (Hrun : rtc step (MmapLock.initial m) w) : exists w', rtc step w w' /\ pcs w' t = Out.
Proof.
  pose proof (inv_run m w Hrun) as Hinv. change (ends t w).
  assert (forall w c us, inv w -> pcs w t = After c us -> ends t w) as Hafter.
  { intros [l s p h b r] c us _ Ht. by eapply ends_after. }
  assert (forall w c mine us, inv w -> pcs w t = Before c mine us -> ends t w) as Hbefore.
  { intros w1 c mine us. revert w1. induction us as [|u us IH]; intros [l s p h b r] Hi Ht; cbn in Ht.
    - pose proof (step_enter K fuel t c mine l s p h b r Ht) as Hs. eapply ends_step; [exact Hs|].
      unfold entered in *. destruct (owned c).
      + eapply ends_acquiring; [by eapply inv_step|]. cbn. by rewrite fn_lookup_insert.
      + eapply Hafter; [by eapply inv_step|]. cbn. by rewrite fn_lookup_insert.
    - pose proof (step_update K fuel t c mine u us l s p h b r Ht) as Hs. eapply ends_step; [exact Hs|].
      apply IH; [by eapply inv_step|]. cbn. by rewrite fn_lookup_insert. }
  destruct (pcs w t) as [|c mine us|c mine spins|c mine|c v|c p want k|c us] eqn:Ht.
  - exists w. split; [apply rtc_refl|done].
  - by eapply Hbefore.
  - by eapply ends_acquiring.
  - destruct w. by eapply ends_inside.
  - destruct w. by eapply ends_releasing.
  - destruct w. by eapply ends_zeroing.
  - by eapply Hafter.
Qed.

End safety.

(** ** A concrete run *)

Section demo.
Import MmapLock.

(** Two threads ask for a page; the second waits while the first, past the
    lock, has begun to zero its block. *)
Definition demo_call : call := CMmap 0 16384 3 0x1002 (-1) 0.
Definition demo_block : Z := 2 ^ 32.

Lemma demo_run :
  exists w, rtc (step console 1600) (MmapLock.initial (fun _ => 5)) w /\ misused w = false /\
    pcs w 0%nat = Zeroing demo_call demo_block 16384 1 /\ pcs w 1%nat = Inside demo_call false.
Proof.
  assert (forall t l s p h b r, p t = Before demo_call false (updates demo_call) ->
    rtc (step console 1600) (mk_world l s p h b r)
      (mk_world l (run_updates (updates demo_call) s)
         (<[t := Acquiring demo_call false 0]> (<[t := Before demo_call false []]> (<[t := Before demo_call false [bump bump_carved]]>
           (<[t := Before demo_call false [banner; bump bump_carved]]> p)))) h b r)) as Hupd.
  { intros t l s p h b r Ht.
    eapply rtc_l; [apply (step_update _ _ t demo_call false (bump bump_map) [banner; bump bump_carved]); exact Ht|].
    eapply rtc_l; [apply (step_update _ _ t demo_call false banner [bump bump_carved]); apply fn_lookup_insert|].
    eapply rtc_l; [apply (step_update _ _ t demo_call false (bump bump_carved) []); apply fn_lookup_insert|].
    eapply rtc_l; [apply (step_enter _ _ t demo_call false); apply fn_lookup_insert|]. apply rtc_refl. }
  eexists. split.
  - eapply rtc_l; [apply (step_call _ _ 0 demo_call); [reflexivity|done]|].
    eapply rtc_l; [apply (step_call _ _ 1 demo_call); [reflexivity|done]|].
    etrans; [apply (Hupd 0%nat); reflexivity|]. etrans; [apply (Hupd 1%nat); reflexivity|].
    eapply rtc_l; [apply (step_acquire _ _ 0 demo_call false 0 false _ 1 0 Got); reflexivity|].
    eapply rtc_l; [apply (step_acquire _ _ 1 demo_call false 0 false _ 1 1 Pause); reflexivity|].
    eapply rtc_l; [eapply (step_inside _ _ 0 demo_call false); [reflexivity|vm_compute; reflexivity]|].
    eapply rtc_l; [eapply (step_release _ _ 0 demo_call); reflexivity|].
    eapply rtc_l; [eapply (step_acquire _ _ 1 demo_call false 1 true _ 0 2 Pause); reflexivity|].
    eapply rtc_l; [eapply (step_acquire _ _ 1 demo_call false 2 false _ 1 2 Got); reflexivity|].
    eapply rtc_l; [eapply (step_zero _ _ 0 demo_call demo_block 16384 0); [reflexivity|lia]|].
    apply rtc_refl.
  - done.
Qed.

Lemma demo_fresh : MapFresh console. Proof. apply _. Qed.

Lemma mmap_threads_witness :
  exists w, rtc (step console 1600) (MmapLock.initial (fun _ => 5)) w /\ in_hand (pcs w 0%nat) = Some (demo_block, 16384) /\
    live (carve (st w)) demo_block 16384.
Proof.
  destruct demo_run as (w & Hr & Hm & H0 & _). exists w. split; [exact Hr|]. assert (in_hand (pcs w 0%nat) = Some (demo_block, 16384)) as Hh by (rewrite H0; reflexivity).
  split; [exact Hh|].
  destruct (mmap_threads_correct console 1600 ltac:(unfold MaxBlocks; lia) (fun _ => 5) w Hr) as (_ & _ & H).
  destruct (H Hm) as (Hl & _). apply Hl. right. exists 0%nat. exact Hh.
Defined.

Lemma mmap_calls_finish_witness :
  exists w, rtc (step console 1600) (MmapLock.initial (fun _ => 5)) w /\ pcs w 1%nat = Inside demo_call false /\
    exists w', rtc (step console 1600) w w' /\ pcs w' 1%nat = Out.
Proof.
  destruct demo_run as (w & Hr & _ & _ & H1). exists w. split; [exact Hr|]. split; [exact H1|].
  exact (mmap_calls_finish console 1600 ltac:(unfold MaxBlocks; lia) (fun _ => 5) w 1 Hr).
Defined.

End demo.
