(* ===== verification/MmapTable.v ===== *)
(** The carve-out table of [src/orbis_mmap.cpp] as the words it is made of.
    What [Mmap] does to lists of carve-outs and blocks in one go is here a
    program of single loads and stores, with the moves of [memmove]; a section
    that has the lock leaves the table [Mmap] says it does
    ([section_correct]), and on the way there every store keeps what a reader
    without the lock relies on ([evolves]).  [MmapRace] has that reader. *)
From stdpp Require Import prelude list numbers functions.
From S2P Require Import Prelude Effects Mmap MmapBlocks MmapRun MmapLock.
Open Scope Z_scope.

Module MmapTable.

(** ** The words of the table *)

Inductive field : Set := FOff | FSize | FUsed.

(** [carves], the members of [carve[i]], and those of [carve[i].blk[b]]. *)
Inductive loc : Set :=
  | Carves | Va (i : nat) | Phys (i : nat) | Size (i : nat) | Count (i : nat) | Blk (f : field) (i b : nat).

#[export] Instance field_eq_dec : EqDecision field. Proof. solve_decision. Defined.
#[export] Instance loc_eq_dec : EqDecision loc. Proof. solve_decision. Defined.

(** A word of the block list of carve-out [i]. *)
Definition of_blocks (i : nat) (l : loc) : bool :=
  match l with Count j | Blk _ j _ => bool_decide (j = i) | _ => false end.

(** [changes] counts the stores to each block list; the program has no such
    counter. *)
Record table : Set := mk_table { word : loc -> Z; changes : nat -> nat }.

Definition put (w : table) (l : loc) (v : Z) : table :=
  mk_table (<[l := v]> (word w)) (fun i => if of_blocks i l then S (changes w i) else changes w i).

Definition zeroed : table := mk_table (fun _ => 0) (fun _ => O).

Inductive effect : Set := Load (l : loc) | Store (l : loc) (v : Z).
Definition answer (e : effect) : Set := match e with Load _ => Z | Store _ _ => unit end.

Definition act (e : effect) (_ : unit) (w : table) (t : unit) : option (answer e * table * unit) :=
  match e with
  | Load l => Some (word w l, w, t)
  | Store l v => Some (tt, put w l v, t)
  end.

Definition load (l : loc) : prog answer Z := do answer (Load l).
Definition store (l : loc) (v : Z) : prog answer unit := do answer (Store l v).

Open Scope prog_scope.

Fixpoint load_all (ls : list loc) : prog answer (list Z) :=
  match ls with
  | [] => Ret []
  | l :: ls => let* v := load l in let* vs := load_all ls in Ret (v :: vs)
  end.

Fixpoint store_all (ws : list (loc * Z)) : prog answer unit :=
  match ws with [] => Ret tt | (l, v) :: ws => store l v ;;; store_all ws end.

(** ** The sections *)

Section code.
Context (K : kernel) (fuel : nat).
(** The C library's [memmove] stores the words it moves in an order of its
    own. *)
Context (shuffle : list (loc * Z) -> list (loc * Z)).

Definition slot_words (n : nat) : list (nat * field) := list_prod (seq 0 n) [FOff; FSize; FUsed].
Definition slot (i a : nat) (x : nat * field) : loc := Blk x.2 i (a + x.1)%nat.

(** [memmove(&blk[dst], &blk[src], sizeof(Block)*n)] in carve-out [i]. *)
Definition memmove (i dst src n : nat) : prog answer unit :=
  let* vs := load_all (slot i src <$> slot_words n) in
  store_all (shuffle (zip (slot i dst <$> slot_words n) vs)).

(** Block [b] keeps [len] bytes and is used, the rest becomes a free block. *)
Definition split_block (i b : nat) (len : Z) : prog answer unit :=
  let* n := load (Count i) in
  memmove i (b + 2) (b + 1) (Z.to_nat (n - Z.of_nat b - 1)) ;;;
  let* o := load (Blk FOff i b) in
  store (Blk FOff i (b + 1)) (u64 (o + len)) ;;;
  let* z := load (Blk FSize i b) in
  store (Blk FSize i (b + 1)) (u64 (z - len)) ;;;
  store (Blk FUsed i (b + 1)) 0 ;;;
  store (Blk FSize i b) len ;;;
  store (Blk FUsed i b) 1 ;;;
  let* n := load (Count i) in
  store (Count i) (u32 (n + 1)).

(** [allocInLocked(carve[i], len)], from block [b] on. *)
Fixpoint alloc_scan (i : nat) (len : Z) (k b : nat) : prog answer (option Z) :=
  let* n := load (Count i) in
  if n <=? Z.of_nat b then Ret None else
  match k with
  | O => Undefined
  | S k =>
      let* u := load (Blk FUsed i b) in
      if negb (u =? 0) then alloc_scan i len k (S b) else
      let* z := load (Blk FSize i b) in
      if z <? len then alloc_scan i len k (S b) else
      let* z := load (Blk FSize i b) in
      if z =? len then
        store (Blk FUsed i b) 1 ;;;
        let* va := load (Va i) in
        let* o := load (Blk FOff i b) in Ret (Some (va + o))
      else
      let* n := load (Count i) in
      if Z.of_nat MaxBlocks <=? n then alloc_scan i len k (S b) else
      split_block i b len ;;;
      let* va := load (Va i) in
      let* o := load (Blk FOff i b) in Ret (Some (va + o))
  end.

Definition allocInLocked (i : nat) (len : Z) : prog answer (option Z) := alloc_scan i len MaxBlocks 0.

(** [addCarveLocked].  Whether a carve-out is taken, and where it is, is the
    kernel's answer and the cap's, as in [Mmap]; here are the accesses to the
    table. *)
Definition addCarveLocked (s : mm) (need : Z) : prog answer bool :=
  let* k := load Carves in
  if Z.of_nat MaxCarves <=? k then Ret false else
  match Mmap.addCarveLocked K s need with
  | (s1, true) =>
      match list.last (carve s1) with
      | Some c =>
          let* k := load Carves in
          let i := Z.to_nat k in
          store (Va i) (c_va c) ;;;
          store (Phys i) (c_phys c) ;;;
          store (Size i) (c_size c) ;;;
          store (Count i) 1 ;;;
          store (Blk FOff i 0) 0 ;;;
          store (Blk FSize i 0) (c_size c) ;;;
          store (Blk FUsed i 0) 0 ;;;
          let* k := load Carves in
          store Carves (u32 (k + 1)) ;;;
          Ret true
      | None => Undefined
      end
  | (_, false) => Ret false
  end.

(** [for (i < carves && out == nullptr) out = allocInLocked(carve[i], want)]. *)
Fixpoint alloc_any (want : Z) (k i : nat) : prog answer (option Z) :=
  let* n := load Carves in
  if n <=? Z.of_nat i then Ret None else
  match k with
  | O => Undefined
  | S k =>
      let* out := allocInLocked i want in
      match out with Some p => Ret (Some p) | None => alloc_any want k (S i) end
  end.

(** The block under the guard in [mapOwned]. *)
Definition mapOwned (s : mm) (want : Z) : prog answer (option Z) :=
  let* out := alloc_any want MaxCarves 0 in
  match out with
  | Some p => Ret (Some p)
  | None =>
      let* added := addCarveLocked s want in
      if added : bool then let* k := load Carves in allocInLocked (Z.to_nat (k - 1)) want else Ret None
  end.

(** The binary search of [freeInLocked]. *)
Fixpoint search (k i : nat) (off : Z) (lo hi : nat) : prog answer nat :=
  match k with
  | O => Undefined
  | S k =>
      if (lo <? hi)%nat then
        let m := ((lo + hi) / 2)%nat in
        let* o := load (Blk FOff i m) in
        if o <? off then search k i off (m + 1) hi else search k i off lo m
      else Ret lo
  end.

(** [!(lo >= c.n || blk[lo].off != off || blk[lo].used == 0 || blk[lo].size != len)]. *)
Definition names_live (i lo : nat) (off len : Z) : prog answer bool :=
  let* n := load (Count i) in
  if n <=? Z.of_nat lo then Ret false else
  let* o := load (Blk FOff i lo) in
  if negb (o =? off) then Ret false else
  let* u := load (Blk FUsed i lo) in
  if u =? 0 then Ret false else
  let* z := load (Blk FSize i lo) in
  Ret (z =? len).

(** [blk[to].size += blk[to+1].size], the blocks behind move up, [--c.n]. *)
Definition absorb (i to : nat) : prog answer unit :=
  let* a := load (Blk FSize i to) in
  let* b := load (Blk FSize i (to + 1)) in
  store (Blk FSize i to) (u64 (a + b)) ;;;
  let* n := load (Count i) in
  memmove i (to + 1) (to + 2) (Z.to_nat (n - Z.of_nat to - 2)) ;;;
  let* n := load (Count i) in
  store (Count i) (u32 (n - 1)).

Definition coalesce_forward (i lo : nat) : prog answer unit :=
  let* n := load (Count i) in
  if Z.of_nat lo + 1 <? n then
    let* u := load (Blk FUsed i (lo + 1)) in
    if u =? 0 then absorb i lo else Ret tt
  else Ret tt.

Definition coalesce_back (i lo : nat) : prog answer unit :=
  match lo with
  | O => Ret tt
  | S j =>
      let* u := load (Blk FUsed i j) in
      if u =? 0 then absorb i j else Ret tt
  end.

(** [freeInLocked(carve[i], p, len)]. *)
Definition freeInLocked (i : nat) (p len : Z) : prog answer bool :=
  let* va := load (Va i) in
  let off := u64 (p - va) in
  let* n := load (Count i) in
  let* lo := search fuel i off 0 (Z.to_nat n) in
  let* ok := names_live i lo off len in
  if ok : bool then
    store (Blk FUsed i lo) 0 ;;;
    coalesce_forward i lo ;;;
    coalesce_back i lo ;;;
    Ret true
  else Ret false.

Fixpoint carveOfLocked (p : Z) (k i : nat) : prog answer (option nat) :=
  let* n := load Carves in
  if n <=? Z.of_nat i then Ret None else
  match k with
  | O => Undefined
  | S k =>
      let* va := load (Va i) in
      if p <? va then carveOfLocked p k (S i) else
      let* va := load (Va i) in
      let* z := load (Size i) in
      if p <? va + z then Ret (Some i) else carveOfLocked p k (S i)
  end.

(** What a call does between taking the lock and releasing it. *)
Definition section (s : mm) (c : MmapLock.call) : prog answer MmapLock.verdict :=
  match c with
  | MmapLock.CMmap _ len _ _ _ _ =>
      let* out := mapOwned s (alignUp len Page) in
      Ret (match out with Some p => MmapLock.Serve p | None => MmapLock.Forward end)
  | MmapLock.CMunmap addr len =>
      let* c := carveOfLocked addr MaxCarves 0 in
      match c with
      | Some i =>
          let* ok := freeInLocked i addr (alignUp len Page) in
          Ret (if ok : bool then MmapLock.Answer else MmapLock.Refuse)
      | None => Ret MmapLock.Forward
      end
  | MmapLock.CMadvise addr _ _ =>
      let* c := carveOfLocked addr MaxCarves 0 in
      Ret (match c with Some _ => MmapLock.Answer | None => MmapLock.Forward end)
  end.

End code.
End MmapTable.

Import MmapTable.

(** ** What a store may do *)

(** Carve-outs a reader can see lie in the address space, at most twelve. *)
Definition table_sound (w : table) : Prop :=
  0 <= word w Carves <= Z.of_nat MaxCarves /\
  forall i, Z.of_nat i < word w Carves ->
    0 < word w (Va i) /\ 0 <= word w (Size i) /\ word w (Va i) + word w (Size i) <= 2 ^ 64.

(** Carve-outs once seen keep their place; a block list of which no change was
    counted is the same. *)
Record evolves (w w1 : table) : Prop := {
  ev_carves : word w Carves <= word w1 Carves;
  ev_place : forall i, Z.of_nat i < word w Carves ->
    word w1 (Va i) = word w (Va i) /\ word w1 (Size i) = word w (Size i);
  ev_changes : forall i, (changes w i <= changes w1 i)%nat;
  ev_blocks : forall i l, of_blocks i l = true -> changes w1 i = changes w i -> word w1 l = word w l }.

#[export] Instance evolves_preorder : PreOrder evolves.
Proof.
  split.
  - intros w. by constructor.
  - intros u v w [A1 A2 A3 A4] [B1 B2 B3 B4]. constructor.
    + lia.
    + intros i Hi. destruct (A2 i Hi) as [<- <-]. apply B2. lia.
    + intros i. specialize (A3 i). specialize (B3 i). lia.
    + intros i l Hl Hc. specialize (A3 i). specialize (B3 i).
      rewrite (B4 i l), (A4 i l); [done|done|lia|done|lia].
Qed.

Lemma word_put w l v l' : word (put w l v) l' = if decide (l = l') then v else word w l'.
Proof. cbn. case_decide; [subst; by rewrite fn_lookup_insert|by rewrite fn_lookup_insert_ne]. Qed.

(** A store to a block list, to a carve-out nobody can see yet, or the one that
    lets them see it. *)
Definition allowed (w : table) (l : loc) (v : Z) : Prop :=
  match l with
  | Count _ | Blk _ _ _ => True
  | Va i | Phys i | Size i => word w Carves <= Z.of_nat i
  | Carves => word w Carves <= v /\ table_sound (put w Carves v)
  end.

Lemma allowed_sound w l v : table_sound w -> allowed w l v -> table_sound (put w l v).
Proof.
  intros [H1 H2] Ha. unfold allowed in Ha.
  destruct l as [|i|i|i|i|f i b]; [by apply Ha|..]; (split; [by rewrite word_put, decide_False by done|]);
    intros j; rewrite !word_put; repeat case_decide; simplify_eq; intros Hj; solve [apply H2; done | lia].
Qed.

Lemma allowed_evolves w l v : allowed w l v -> evolves w (put w l v).
Proof.
  intros Ha. unfold allowed in Ha. constructor.
  - destruct l; rewrite word_put; case_decide; try done; lia.
  - intros j Hj. rewrite !word_put. destruct l; simplify_eq/=; repeat case_decide; simplify_eq; try done; lia.
  - intros j. cbn. destruct (of_blocks j l); lia.
  - intros j l' Hl' Hc. cbn in Hc. destruct (of_blocks j l) eqn:E; [lia|]. rewrite word_put.
    case_decide; [congruence|done].
Qed.

(** ** Running a section *)

(** Nobody else stores while a section runs ([MmapLock]), so what it loads is
    what it stored; its stores are allowed. *)
Local Abbreviation sec p w Q := (wp act table_sound eq evolves p w tt (fun a w1 _ => Q a w1)) (only parsing).

Lemma sec_ret {A : Set} (a : A) w (Q : A -> table -> Prop) : Q a w -> sec (Ret a) w Q.
Proof. by intros H w1 <- _. Qed.

Lemma sec_bind {A C : Set} (p : prog answer A) (f : A -> prog answer C) w (Q : C -> table -> Prop) :
  table_sound w -> sec p w (fun a w => sec (f a) w Q) -> sec (bind p f) w Q.
Proof. intros Hs H. apply wp_bind; [apply _|done|]. eapply wp_mono; [|exact H]. intros a w2 []; done. Qed.

Lemma sec_load {C : Set} l (f : Z -> prog answer C) w (Q : C -> table -> Prop) :
  table_sound w -> sec (f (word w l)) w Q -> sec (bind (load l) f) w Q.
Proof. intros Hs H w1 <- _ c r w2 t2 [= <- <- <-]. split; [done|]. split; [reflexivity|done]. Qed.

Lemma sec_store {C : Set} l v (f : unit -> prog answer C) w (Q : C -> table -> Prop) :
  table_sound w -> allowed w l v -> (table_sound (put w l v) -> sec (f tt) (put w l v) Q) ->
  sec (bind (store l v) f) w Q.
Proof.
  intros Hs Ha H w1 <- _ c r w2 t2 [= <- <- <-]. pose proof (allowed_sound _ _ _ Hs Ha).
  split; [done|]. split; [by apply allowed_evolves|auto].
Qed.

Lemma sec_mono {A : Set} (p : prog answer A) w (Q Q' : A -> table -> Prop) :
  sec p w Q -> (forall a w, Q a w -> Q' a w) -> sec p w Q'.
Proof. intros H HQ. eapply wp_mono; [|exact H]. auto. Qed.

(** A list of stores, and what the word at [l] is afterwards. *)
Definition puts (w : table) (ws : list (loc * Z)) : table := foldl (fun w x => put w x.1 x.2) w ws.

Lemma puts_cons w l v ws : puts w ((l, v) :: ws) = puts (put w l v) ws.
Proof. done. Qed.

Lemma puts_notin w ws l : l ∉ ws.*1 -> word (puts w ws) l = word w l.
Proof.
  revert w. induction ws as [|[k v] ws IH]; intros w; [done|]. intros [Hne Hn]%not_elem_of_cons.
  rewrite puts_cons, IH by done. rewrite word_put. cbn in Hne. by rewrite decide_False by congruence.
Qed.

Lemma puts_in w ws l v : (forall v', (l, v') ∈ ws -> v' = v) -> (l, v) ∈ ws -> word (puts w ws) l = v.
Proof.
  revert w. induction ws as [|[k u] ws IH]; intros w Hall; [by intros ?%not_elem_of_nil|].
  intros Hin. rewrite puts_cons. destruct (decide ((l, v) ∈ ws)) as [H|H].
  - apply IH; [|done]. intros v' ?. apply Hall. by apply elem_of_cons; right.
  - apply elem_of_cons in Hin as [[= <- <-]|]; [|done].
    rewrite puts_notin, word_put, decide_True; [done|done|].
    intros ([k' v'] & -> & Hx)%list_elem_of_fmap. cbn in *.
    rewrite (Hall v') in Hx; [done|by apply elem_of_cons; right].
Qed.

Lemma sec_load_all ls w (Q : list Z -> table -> Prop) :
  table_sound w -> Q (word w <$> ls) w -> sec (load_all ls) w Q.
Proof.
  intros Hs. revert Q. induction ls as [|l ls IH]; intros Q HQ; cbn [load_all]; [by apply sec_ret|].
  apply sec_load; [done|]. apply sec_bind; [done|]. apply IH. by apply sec_ret.
Qed.

Lemma sec_store_all i ws w (Q : unit -> table -> Prop) :
  table_sound w -> Forall (fun x => of_blocks i x.1 = true) ws -> (table_sound (puts w ws) -> Q tt (puts w ws)) ->
  sec (store_all ws) w Q.
Proof.
  intros Hs Hws. revert w Hs. induction Hws as [|[l v] ws Hl _ IH]; intros w Hs HQ; cbn [store_all]; [by apply sec_ret, HQ|].
  apply sec_store; [done|by destruct l|]. intros Hs'. apply IH; [done|]. exact HQ.
Qed.

Section sections.
Context (shuffle : list (loc * Z) -> list (loc * Z)).
Hypothesis shuffle_perm : forall ws, shuffle ws ≡ₚ ws.

(** The word at [l] after the move of [n] blocks from [src] to [dst]. *)
Definition moved (w : table) (i dst src n : nat) (l : loc) : Z :=
  match l with
  | Blk f j b =>
      if decide (j = i /\ (dst <= b < dst + n)%nat) then word w (Blk f i (src + (b - dst))) else word w l
  | _ => word w l
  end.

Lemma slot_words_elem n x : x ∈ slot_words n <-> (x.1 < n)%nat.
Proof.
  unfold slot_words. rewrite list_elem_of_In, (surjective_pairing x), in_prod_iff, in_seq. cbn.
  destruct x as [k []]; cbn; split; intros; intuition lia.
Qed.

Lemma sec_memmove i dst src n w (Q : unit -> table -> Prop) :
  table_sound w ->
  (forall w', table_sound w' -> (forall l, word w' l = moved w i dst src n l) -> Q tt w') ->
  sec (memmove shuffle i dst src n) w Q.
Proof.
  intros Hs HQ. unfold memmove. apply sec_bind; [done|]. apply sec_load_all; [done|].
  assert (zip (slot i dst <$> slot_words n) (word w <$> (slot i src <$> slot_words n)) =
    (fun x => (slot i dst x, word w (slot i src x))) <$> slot_words n) as ->.
  { induction (slot_words n); cbn; congruence. }
  set (ws := _ <$> slot_words n).
  assert (forall l v, (l, v) ∈ shuffle ws <-> exists x, (x.1 < n)%nat /\ l = slot i dst x /\ v = word w (slot i src x)) as Hws.
  { intros l v. rewrite shuffle_perm. unfold ws. rewrite list_elem_of_fmap. setoid_rewrite slot_words_elem. naive_solver. }
  apply (sec_store_all i); [done| |].
  { rewrite list.Forall_forall. intros [l v] (x & _ & -> & _)%Hws. cbn. by rewrite bool_decide_eq_true_2. }
  intros Hs'. apply HQ; [done|]. intros l.
  assert ((forall x, (x.1 < n)%nat -> l <> slot i dst x) -> word (puts w (shuffle ws)) l = word w l) as Hout.
  { intros Hl. apply puts_notin. intros ([l' v] & -> & (x & Hx & -> & _)%Hws)%list_elem_of_fmap. by apply (Hl x). }
  destruct l as [| | | | |f j b]; try (apply Hout; done). cbn [moved].
  destruct (decide _) as [[-> Hb]|Hb].
  - apply puts_in.
    + intros v' ([k g] & Hx & E & ->)%Hws. injection E as -> ->. unfold slot. cbn. do 2 f_equal. lia.
    + apply Hws. exists (b - dst, f)%nat. cbn. split; [lia|]. split; [unfold slot; cbn; f_equal; lia|done].
  - apply Hout. intros [k g] Hx E. injection E as -> -> ->. cbn in *. apply Hb. lia.
Qed.

(** ** The words of a list of carve-outs *)

Definition block_at (m : loc -> Z) (i b : nat) (x : block) : Prop :=
  m (Blk FOff i b) = b_off x /\ m (Blk FSize i b) = b_size x /\ m (Blk FUsed i b) = b_used x.

Definition blocks_at (m : loc -> Z) (i : nat) (bs : list block) : Prop :=
  m (Count i) = Z.of_nat (length bs) /\ forall b x, bs !! b = Some x -> block_at m i b x.

Record carve_at (m : loc -> Z) (i : nat) (c : carve_out) : Prop := {
  ca_va : m (Va i) = c_va c;
  ca_phys : m (Phys i) = c_phys c;
  ca_size : m (Size i) = c_size c;
  ca_blk : blocks_at m i (c_blk c) }.

Record shows (m : loc -> Z) (cs : list carve_out) : Prop := {
  sh_count : m Carves = Z.of_nat (length cs);
  sh_carve : forall i c, cs !! i = Some c -> carve_at m i c }.

(** Nothing outside the block list of carve-out [i] is stored to. *)
Definition only_blocks (i : nat) (m m' : loc -> Z) : Prop := forall l, of_blocks i l = false -> m' l = m l.

Lemma shows_blocks m m' cs i c bs :
  shows m cs -> cs !! i = Some c -> only_blocks i m m' -> blocks_at m' i bs -> shows m' (<[i := set_blk c bs]> cs).
Proof.
  intros [H1 H2] Hi Ho Hb. constructor.
  - rewrite length_insert, Ho by done. done.
  - intros j d. destruct (decide (i = j)) as [<-|Hne].
    + rewrite list_lookup_insert_eq by by eapply lookup_lt_Some. intros [= <-].
      destruct (H2 _ _ Hi) as [V P S _]. by constructor; rewrite ?Ho by done.
    + rewrite list_lookup_insert_ne by done. intros Hj. destruct (H2 _ _ Hj) as [V P S [N B]].
      constructor; rewrite ?Ho by done; try done.
      assert (forall f b, m' (Blk f j b) = m (Blk f j b)) as E by (intros f b; apply Ho; cbn; by rewrite bool_decide_eq_false_2).
      split; [rewrite Ho by (cbn; by rewrite bool_decide_eq_false_2); done|].
      intros b x Hx. unfold block_at. rewrite !E. by apply B.
Qed.

(** Loads of words whose value is known, tests, and stores, one after the
    other. *)
Ltac known := repeat first
  [ rewrite word_put, decide_True by done
  | rewrite word_put, decide_False by (first [done | intros [= ]; lia]) ].

(** What taking a block out of the list leaves in the table: block [b] split in
    two, the blocks behind it moved down. *)
Lemma blocks_at_split m m' i pre x post len :
  blocks_at m i (pre ++ x :: post) ->
  m' (Count i) = Z.of_nat (S (length (pre ++ x :: post))) ->
  (forall f b, (b < length pre)%nat -> m' (Blk f i b) = m (Blk f i b)) ->
  (forall f b, (length pre + 2 <= b < length pre + 2 + length post)%nat -> m' (Blk f i b) = m (Blk f i (b - 1))) ->
  block_at m' i (length pre) (mk_block (b_off x) len 1) ->
  block_at m' i (length pre + 1) (mk_block (b_off x + len) (b_size x - len) 0) ->
  blocks_at m' i (pre ++ mk_block (b_off x) len 1 :: mk_block (b_off x + len) (b_size x - len) 0 :: post).
Proof.
  intros [HN HB] Hn Hlo Hhi H0 H1. split; [rewrite Hn, !length_app; cbn; lia|].
  intros b y Hy. destruct (Nat.lt_trichotomy b (length pre)) as [Hb|[->|Hb]].
  - rewrite lookup_app_l in Hy by done. unfold block_at. rewrite !Hlo by done. apply HB. by rewrite lookup_app_l.
  - rewrite lookup_at in Hy. by injection Hy as <-.
  - rewrite lookup_app_r in Hy by lia. destruct (b - length pre)%nat as [|[|k]] eqn:E; [lia|..]; cbn in Hy.
    + injection Hy as <-. by replace b with (length pre + 1)%nat by lia.
    + assert (Hk := lookup_lt_Some _ _ _ Hy). unfold block_at. rewrite !Hhi by lia.
      apply HB. rewrite lookup_app_r by lia. by replace (b - 1 - length pre)%nat with (S k) by lia.
Qed.

(** ** Taking a block *)

Definition block_sound (x : block) : Prop := 0 <= b_off x /\ 0 <= b_size x /\ b_off x + b_size x < 2 ^ 64.

Lemma sec_store_end l v w (Q : unit -> table -> Prop) :
  table_sound w -> allowed w l v -> (table_sound (put w l v) -> Q tt (put w l v)) -> sec (store l v) w Q.
Proof.
  intros Hs Ha H w1 <- _ c r w2 t2 [= <- <- <-]. pose proof (allowed_sound _ _ _ Hs Ha).
  split; [done|]. split; [by apply allowed_evolves|]. intros w3 <- _. auto.
Qed.

Lemma only_blocks_put i w w' l v :
  of_blocks i l = true -> only_blocks i (word w) (word w') -> only_blocks i (word w) (word (put w' l v)).
Proof. intros Hl Ho k Hk. rewrite word_put, decide_False; [by apply Ho|]. congruence. Qed.

Lemma sec_split_block i w pre x post len (Q : unit -> table -> Prop) :
  table_sound w -> blocks_at (word w) i (pre ++ x :: post) -> (length (pre ++ x :: post) < MaxBlocks)%nat ->
  block_sound x -> 0 <= len < b_size x ->
  (forall w', table_sound w' -> only_blocks i (word w) (word w') ->
     blocks_at (word w') i (pre ++ mk_block (b_off x) len 1 :: mk_block (b_off x + len) (b_size x - len) 0 :: post) ->
     Q tt w') ->
  sec (split_block shuffle i (length pre) len) w Q.
Proof.
  intros Hs Hb Hmax (S1 & S2 & S3) Hlen HQ. pose proof Hb as [N B].
  assert (block_at (word w) i (length pre) x) as (Bo & Bz & Bu) by (apply B, lookup_at).
  rewrite length_app in Hmax, N. cbn [length] in Hmax, N. unfold split_block. apply sec_load; [done|]. rewrite N.
  replace (Z.to_nat _) with (length post) by lia. apply sec_bind; [done|]. apply sec_memmove; [done|].
  intros w1 Hs1 Hw1.
  assert (forall f b, (b < length pre + 2)%nat -> word w1 (Blk f i b) = word w (Blk f i b)) as Hlo.
  { intros f b Hlt. rewrite Hw1. cbn. rewrite decide_False by lia. done. }
  assert (forall f b, (length pre + 2 <= b < length pre + 2 + length post)%nat -> word w1 (Blk f i b) = word w (Blk f i (b - 1))) as Hhi.
  { intros f b Hr. rewrite Hw1. cbn. rewrite decide_True by lia. do 2 f_equal. lia. }
  apply sec_load; [done|]. apply sec_store; [done..|]. intros Hs2. apply sec_load; [done|].
  do 4 (apply sec_store; [done..|]; intros ?). apply sec_load; [done|]. apply sec_store_end; [done..|]. intros ?.
  assert (word w1 (Count i) = word w (Count i)) as HN by by rewrite Hw1.
  known. rewrite HN, !Hlo, Bo, Bz, N, !u64_small, u32_small by (unfold MaxBlocks in *; lia).
  apply HQ; [done| |].
  - repeat (apply only_blocks_put; [cbn; by rewrite bool_decide_eq_true_2|]). intros l Hl. rewrite Hw1.
    destruct l as [| | | | |f j b]; try done. cbn [moved]. rewrite decide_False; [done|]. intros [-> _].
    cbn in Hl. by rewrite bool_decide_eq_true_2 in Hl.
  - apply (blocks_at_split (word w)); [done|..].
    + known. rewrite length_app. cbn. lia.
    + intros f b Hlt. known. rewrite Hlo by lia. done.
    + intros f b Hr. known. by apply Hhi.
    + unfold block_at. known. rewrite !Hlo by lia. done.
    + unfold block_at. known. done.
Qed.

Lemma sec_alloc_scan i c len w pre post k (Q : option Z -> table -> Prop) :
  table_sound w -> carve_at (word w) i c -> c_blk c = pre ++ post -> (length (c_blk c) <= MaxBlocks)%nat ->
  Forall block_sound (c_blk c) -> 0 <= len -> (length post <= k)%nat ->
  match alloc_blocks (length (c_blk c)) post len with
  | Some (off, post') => forall w', table_sound w' -> only_blocks i (word w) (word w') ->
      blocks_at (word w') i (pre ++ post') -> Q (Some (c_va c + off)) w'
  | None => Q None w
  end ->
  sec (alloc_scan shuffle i len k (length pre)) w Q.
Proof.
  intros Hs Hc Hblk Hmax Hsound Hlen. destruct Hc as [V _ _ [N B]].
  revert pre k Hblk. induction post as [|x post IH]; intros pre k Hblk Hk HQ; destruct k as [|k]; cbn [alloc_scan length] in *;
    apply sec_load; try done; rewrite N; [rewrite Hblk, app_nil_r, Z.leb_refl; by apply sec_ret..|lia|].
  assert (length (c_blk c) = length pre + S (length post))%nat as Hn by (rewrite Hblk, length_app; done).
  destruct (Z.leb_spec (Z.of_nat (length (c_blk c))) (Z.of_nat (length pre))); [lia|].
  assert (block_at (word w) i (length pre) x) as (Bo & Bz & Bu) by (apply B; rewrite Hblk; apply lookup_at).
  cbn [alloc_blocks] in HQ.
  assert (match match alloc_blocks (length (c_blk c)) post len with
                | Some (off, rest') => Some (off, x :: rest') | None => None end with
          | Some (off, post') => forall w', table_sound w' -> only_blocks i (word w) (word w') ->
              blocks_at (word w') i (pre ++ post') -> Q (Some (c_va c + off)) w'
          | None => Q None w
          end -> sec (alloc_scan shuffle i len k (S (length pre))) w Q) as Hnext.
  { intros H'. replace (S (length pre)) with (length (pre ++ [x])) by (rewrite length_app; cbn; lia).
    apply IH; [by rewrite <- app_assoc|lia|].
    destruct (alloc_blocks _ post len) as [[off rest']|]; [|done]. intros w'. rewrite <- app_assoc. apply H'. }
  apply sec_load; [done|]. rewrite Bu. destruct (negb (b_used x =? 0)); cbn [orb] in HQ; [by apply Hnext|].
  apply sec_load; [done|]. rewrite Bz. destruct (b_size x <? len) eqn:Hlt; [by apply Hnext|].
  apply sec_load; [done|]. rewrite Bz. destruct (Z.eqb_spec (b_size x) len) as [Heq|Hne].
  { apply sec_store; [done..|]. intros Hs1. apply sec_load; [done|]. apply sec_load; [done|]. apply sec_ret. known.
    rewrite V, Bo. apply HQ; [done| |].
    - intros l Hl. rewrite word_put, decide_False; [done|]. intros <-. cbn in Hl. by rewrite bool_decide_eq_true_2 in Hl.
    - split; [known; rewrite N, Hn, length_app; cbn; lia|]. intros b y Hy. unfold block_at. known.
      destruct (decide (b = length pre)) as [->|Hb].
      + rewrite lookup_at in Hy. injection Hy as <-. known. done.
      + known. apply B. rewrite Hblk. by rewrite <- (insert_at pre x _ post), list_lookup_insert_ne in Hy by done. }
  apply sec_load; [done|]. rewrite N. destruct (Nat.leb_spec MaxBlocks (length (c_blk c))) as [Hfull|Hroom].
  { destruct (Z.leb_spec (Z.of_nat MaxBlocks) (Z.of_nat (length (c_blk c)))); [by apply Hnext|lia]. }
  destruct (Z.leb_spec (Z.of_nat MaxBlocks) (Z.of_nat (length (c_blk c)))); [lia|].
  apply sec_bind; [done|]. rewrite Hblk in N, B, Hroom. apply (sec_split_block i w pre x post); [done|done|done| |lia|].
  { rewrite Hblk in Hsound. apply List.Forall_app in Hsound as [_ Hsound%List.Forall_cons_iff]. tauto. }
  intros w' Hs' Ho Hb. apply sec_load; [done|]. apply sec_load; [done|]. apply sec_ret.
  rewrite (Ho (Va i)), V by done. destruct Hb as [N' B'].
  assert (word w' (Blk FOff i (length pre)) = b_off x) as -> by apply (B' _ _ (lookup_at pre _ _)).
  by apply HQ.
Qed.

Lemma carve_ok_sound c : carve_ok c -> Forall block_sound (c_blk c).
Proof.
  intros [V P E B L]. rewrite list.Forall_forall. intros x Hx.
  destruct (blocks_ok_bounds _ _ _ _ _ B Hx) as (? & ? & ? & _). unfold block_sound. lia.
Qed.

Lemma sec_allocInLocked i c cs len w (Q : option Z -> table -> Prop) :
  table_sound w -> shows (word w) cs -> cs !! i = Some c -> carve_ok c -> 0 <= len ->
  match Mmap.allocInLocked c len with
  | Some (p, c') => forall w', table_sound w' -> shows (word w') (<[i := c']> cs) -> Q (Some p) w'
  | None => Q None w
  end ->
  sec (allocInLocked shuffle i len) w Q.
Proof.
  intros Hs Hsh Hi Hc Hlen HQ. unfold allocInLocked.
  apply (sec_alloc_scan i c len w [] (c_blk c) MaxBlocks);
    [done|by apply Hsh|done|by apply Hc|by apply carve_ok_sound|done|by apply Hc|].
  unfold Mmap.allocInLocked in HQ. destruct (alloc_blocks _ _ _) as [[off bs]|]; [|done].
  intros w' Hs' Ho Hb. apply HQ; [done|]. by eapply shows_blocks.
Qed.

Lemma sec_alloc_any len w pre post k (Q : option Z -> table -> Prop) :
  table_sound w -> shows (word w) (pre ++ post) -> Forall carve_ok (pre ++ post) -> 0 <= len -> (length post <= k)%nat ->
  match Mmap.alloc_any post len with
  | Some (p, post') => forall w', table_sound w' -> shows (word w') (pre ++ post') -> Q (Some p) w'
  | None => Q None w
  end ->
  sec (alloc_any shuffle len k (length pre)) w Q.
Proof.
  intros Hs Hsh Hok Hlen. pose proof (sh_count _ _ Hsh) as HN. rewrite length_app in HN.
  revert pre k Hsh Hok HN. induction post as [|c post IH]; intros pre k Hsh Hok HN Hk HQ; destruct k as [|k];
    cbn [alloc_any length] in *; apply sec_load; try done; rewrite HN;
    [destruct (Z.leb_spec (Z.of_nat (length pre + 0)) (Z.of_nat (length pre))); [by apply sec_ret|lia]..|lia|].
  destruct (Z.leb_spec (Z.of_nat (length pre + S (length post))) (Z.of_nat (length pre))); [lia|].
  apply sec_bind; [done|].
  assert ((pre ++ c :: post) !! length pre = Some c) as Hc by apply lookup_at.
  assert (carve_ok c) as Hokc by (by rewrite list.Forall_lookup in Hok; apply (Hok _ _ Hc)).
  apply (sec_allocInLocked _ _ _ _ _ _ Hs Hsh Hc Hokc Hlen). cbn [Mmap.alloc_any] in HQ.
  destruct (Mmap.allocInLocked c len) as [[p c']|].
  - intros w' Hs' Hsh'. apply sec_ret. rewrite insert_at in Hsh'. by apply HQ.
  - replace (S (length pre)) with (length (pre ++ [c])) by (rewrite length_app; cbn; lia).
    apply IH; [by rewrite <- app_assoc|by rewrite <- app_assoc|rewrite length_app; cbn; lia|lia|].
    destruct (Mmap.alloc_any post len) as [[p post']|]; [|done]. intros w' Hs' Hsh'. apply HQ; [done|].
    by rewrite <- app_assoc in Hsh'.
Qed.

(** ** Taking a carve-out *)

Lemma shows_snoc m m' cs va phys len :
  shows m cs ->
  (forall l, match l with Carves => False | Va i | Phys i | Size i | Count i | Blk _ i _ => i <> length cs end -> m' l = m l) ->
  m' Carves = Z.of_nat (S (length cs)) -> carve_at m' (length cs) (new_carve va phys len) ->
  shows m' (cs ++ [new_carve va phys len]).
Proof.
  intros [H1 H2] Hout Hn Hc. constructor; [rewrite length_app; cbn; rewrite Hn; lia|].
  intros i c Hi. destruct (decide (i = length cs)) as [->|Hne].
  - rewrite lookup_at in Hi. by injection Hi as <-.
  - assert (i < length cs)%nat by (apply lookup_lt_Some in Hi; rewrite length_app in Hi; cbn in Hi; lia).
    rewrite lookup_app_l in Hi by done. destruct (H2 _ _ Hi) as [V P S [N B]].
    constructor; rewrite ?Hout by done; try done. split; [by rewrite Hout|].
    intros b x Hx. unfold block_at. rewrite !Hout by done. by apply B.
Qed.

Lemma sec_addCarveLocked K `{!MapFresh K} s need w (Q : bool -> table -> Prop) :
  table_sound w -> shows (word w) (carve s) -> mm_ok s -> 0 < need < 2 ^ 63 + Page ->
  (forall w', table_sound w' -> shows (word w') (carve (Mmap.addCarveLocked K s need).1) ->
     Q (Mmap.addCarveLocked K s need).2 w') ->
  sec (addCarveLocked K s need) w Q.
Proof.
  intros Hs Hsh Hok Hneed HQ. unfold addCarveLocked. apply sec_load; [done|]. rewrite (sh_count _ _ Hsh).
  destruct (Z.leb_spec (Z.of_nat MaxCarves) (Z.of_nat (length (carve s)))) as [Hmax|Hmax].
  { apply sec_ret. unfold Mmap.addCarveLocked in HQ. destruct (Nat.leb_spec MaxCarves (length (carve s))); [|lia].
    by apply HQ. }
  destruct (Mmap.addCarveLocked K s need) as [s1 ok] eqn:Hadd.
  destruct (addCarveLocked_spec K s need Hok Hneed s1 ok Hadd) as (Hok1 & _ & _ & _ & Hcase). destruct ok.
  2: { apply sec_ret. apply HQ; [done|]. cbn. by rewrite (proj1 Hcase). }
  destruct Hcase as (va & phys & Ec & _). cbn in HQ. rewrite Ec in HQ |- *. rewrite list.last_snoc. cbn [c_va c_phys c_size new_carve].
  assert (carve_ok (new_carve va phys (carve_len need))) as [V _ E _ _].
  { pose proof (to_carves _ (ok_table _ Hok1)) as T. rewrite Ec in T. apply List.Forall_app in T as [_ T]. by inversion T. }
  cbn in V, E. pose proof (carve_len_bounds need Hneed) as (B1 & B2 & _). unfold MaxCarves in Hmax.
  apply sec_load; [done|]. rewrite (sh_count _ _ Hsh), Nat2Z.id. pose proof (sh_count _ _ Hsh) as HN.
  do 3 (apply sec_store; [done|cbn [allowed]; known; lia|]; intros ?). do 4 (apply sec_store; [done..|]; intros ?).
  apply sec_load; [done|].
  match goal with |- context [u32 ?n] => assert (u32 n = Z.of_nat (S (length (carve s)))) as -> end.
  { known. rewrite HN. rewrite u32_small by lia. lia. }
  apply sec_store; [done| |]; [|intros ?; apply sec_ret, HQ; [done|]].
  - cbn [allowed]. split; [known; lia|]. split; [known; unfold MaxCarves; lia|]. intros i. known. intros Hi.
    destruct (decide (i = length (carve s))) as [->|Hne]; known; [lia|]. destruct Hs as [_ Hs]. apply Hs. lia.
  - apply (shows_snoc (word w)); [done| |by known|].
    + intros l Hl. destruct l; try done; by known.
    + constructor; try by known. split; [by known|]. intros [|b] x; [|done]. intros [= <-]. unfold block_at. by known.
Qed.

Lemma sec_mapOwned K `{!MapFresh K} s want w (Q : option Z -> table -> Prop) :
  table_sound w -> shows (word w) (carve s) -> mm_ok s -> 0 < want < 2 ^ 63 + Page ->
  (forall w', table_sound w' -> shows (word w') (carve (mapOwned_locked K s want).1) ->
     Q (mapOwned_locked K s want).2 w') ->
  sec (mapOwned K shuffle s want) w Q.
Proof.
  intros Hs Hsh Hok Hwant HQ. pose proof (ok_table _ Hok) as [T1 _ T3]. unfold mapOwned. apply sec_bind; [done|].
  apply (sec_alloc_any want w [] (carve s)); [done..|lia|lia|]. unfold mapOwned_locked in HQ.
  destruct (Mmap.alloc_any (carve s) want) as [[p cs]|].
  { intros w' Hs' Hsh'. apply sec_ret. by apply HQ. }
  apply sec_bind; [done|]. apply sec_addCarveLocked; [done..|]. intros w1 Hs1 Hsh1.
  destruct (Mmap.addCarveLocked K s want) as [s1 ok] eqn:Hadd. cbn [fst snd] in *.
  destruct (addCarveLocked_spec K s want Hok ltac:(lia) s1 ok Hadd) as (Hok1 & _ & _ & _ & Hcase).
  assert (forall t, carve (fall_back t want).1 = carve t) as Hfall.
  { intros t. unfold fall_back. by destruct (fallbackLogged (cnt t) <? LogCap). }
  destruct ok; cbn [fst snd] in *; [|apply sec_ret, HQ; [done|by rewrite Hfall]].
  apply sec_load; [done|]. rewrite (sh_count _ _ Hsh1).
  destruct Hcase as (va & phys & Ec & _).
  assert (Z.to_nat (Z.of_nat (length (carve s1)) - 1) = pred (length (carve s1))) as -> by (rewrite Ec, length_app; cbn; lia).
  assert (exists c, carve s1 !! pred (length (carve s1)) = Some c) as [c Hc].
  { rewrite Ec, length_app, Nat.add_comm. cbn. rewrite lookup_at. eauto. }
  pose proof (to_carves _ (ok_table _ Hok1)) as T. rewrite list.Forall_lookup in T.
  apply (sec_allocInLocked _ _ _ _ _ _ Hs1 Hsh1 Hc (T _ _ Hc)); [lia|]. unfold alloc_last in HQ. rewrite Hc in HQ.
  destruct (Mmap.allocInLocked c want) as [[p c']|].
  - intros w' Hs' Hsh'. by apply HQ.
  - apply HQ; [done|]. by rewrite Hfall.
Qed.

(** ** Giving a block back *)

Lemma sec_search i off bs fuel lo hi p w (Q : nat -> table -> Prop) :
  table_sound w -> blocks_at (word w) i bs ->
  while fuel
    (fun p : nat * nat => Ok (p.1 <? p.2)%nat)
    (fun p => let m := ((p.1 + p.2) / 2)%nat in
       match bs !! m with
       | Some b => if b_off b <? off then Ok (m + 1, p.2)%nat else Ok (p.1, m)
       | None => Fault
       end) (lo, hi) = Ok p ->
  Q p.1 w -> sec (search fuel i off lo hi) w Q.
Proof.
  intros Hs [_ B]. revert lo hi. induction fuel as [|fuel IH]; intros lo hi; [done|].
  rewrite while_step, bind_ok. cbn [search fst snd]. destruct (lo <? hi)%nat; [|intros [= <-] HQ; by apply sec_ret].
  destruct (bs !! ((lo + hi) / 2)%nat) as [b|] eqn:Hb; [|done]. destruct (B _ _ Hb) as (Bo & _ & _).
  intros Hp HQ. apply sec_load; [done|]. rewrite Bo.
  destruct (b_off b <? off); rewrite bind_ok in Hp; by apply IH.
Qed.

Lemma only_blocks_trans i m1 m2 m3 : only_blocks i m1 m2 -> only_blocks i m2 m3 -> only_blocks i m1 m3.
Proof. intros H1 H2 l Hl. by rewrite H2, H1. Qed.

Definition merged (a b : block) : block := mk_block (b_off a) (b_size a + b_size b) (b_used a).

Lemma sec_absorb i w pre a b post (Q : unit -> table -> Prop) :
  table_sound w -> blocks_at (word w) i (pre ++ a :: b :: post) -> (length (pre ++ a :: b :: post) <= MaxBlocks)%nat ->
  0 <= b_size a + b_size b < 2 ^ 64 ->
  (forall w', table_sound w' -> only_blocks i (word w) (word w') ->
     blocks_at (word w') i (pre ++ merged a b :: post) -> Q tt w') ->
  sec (absorb shuffle i (length pre)) w Q.
Proof.
  intros Hs [N B] Hmax Hsum HQ. rewrite length_app in Hmax, N. cbn [length] in Hmax, N.
  assert (block_at (word w) i (length pre) a) as (Ao & Az & Au) by apply B, lookup_at.
  assert (block_at (word w) i (length pre + 1) b) as (_ & Bz & _).
  { apply B. rewrite Nat.add_1_r, lookup_after. done. }
  unfold absorb. do 2 (apply sec_load; [done|]). rewrite Az, Bz, u64_small by done.
  apply sec_store; [done..|]. intros Hs1. set (w1 := put _ _ _). apply sec_load; [done|].
  assert (word w1 (Count i) = word w (Count i)) as -> by by (unfold w1; known).
  rewrite N. replace (Z.to_nat _) with (length post) by lia.
  apply sec_bind; [done|]. apply sec_memmove; [done|]. intros w2 Hs2 Hw2.
  apply sec_load; [done|]. rewrite Hw2. cbn [moved].
  assert (word w1 (Count i) = word w (Count i)) as -> by by (unfold w1; known).
  rewrite N, u32_small by (unfold MaxBlocks in *; lia). apply sec_store_end; [done..|]. intros Hs3. apply HQ; [done| |].
  - apply only_blocks_put; [cbn; by rewrite bool_decide_eq_true_2|].
    apply (only_blocks_trans _ _ (word w1)).
    + apply only_blocks_put; [cbn; by rewrite bool_decide_eq_true_2|]. by intros l _.
    + intros l Hl. rewrite Hw2. destruct l as [| | | | |f j c]; try done. cbn [moved]. rewrite decide_False; [done|].
      intros [-> _]. cbn in Hl. by rewrite bool_decide_eq_true_2 in Hl.
  - split; [known; rewrite length_app; cbn; lia|]. intros c y Hy. unfold block_at. known. rewrite !Hw2. cbn [moved].
    unfold w1. destruct (Nat.lt_trichotomy c (length pre)) as [Hc|[->|Hc]].
    + rewrite lookup_app_l in Hy by done. rewrite !decide_False by lia. known. apply B. by rewrite lookup_app_l.
    + rewrite lookup_at in Hy. injection Hy as <-. rewrite !decide_False by lia. by known.
    + rewrite lookup_app_r in Hy by lia. destruct (c - length pre)%nat as [|k] eqn:E; [lia|]. cbn in Hy.
      assert (Hk := lookup_lt_Some _ _ _ Hy). rewrite !decide_True by lia. known. apply B.
      rewrite lookup_app_r by lia. by replace (length pre + 2 + (c - (length pre + 1)) - length pre)%nat with (S (S k)) by lia.
Qed.

Lemma sec_coalesce_forward i w pre a post (Q : unit -> table -> Prop) :
  table_sound w -> blocks_at (word w) i (pre ++ a :: post) -> (length (pre ++ a :: post) <= MaxBlocks)%nat ->
  0 <= b_size a /\ (forall b, head post = Some b -> 0 <= b_size b /\ b_size a + b_size b < 2 ^ 64) ->
  (forall w', table_sound w' -> only_blocks i (word w) (word w') ->
     blocks_at (word w') i (pre ++ glue_right a post) -> Q tt w') ->
  sec (coalesce_forward shuffle i (length pre)) w Q.
Proof.
  intros Hs Hb Hmax Hsz HQ. pose proof Hb as [N B]. unfold coalesce_forward. apply sec_load; [done|]. rewrite N, length_app.
  destruct post as [|b post]; cbn [length glue_right] in *.
  { destruct (Z.ltb_spec (Z.of_nat (length pre) + 1) (Z.of_nat (length pre + 1))); [lia|]. apply sec_ret. by apply HQ. }
  destruct (Z.ltb_spec (Z.of_nat (length pre) + 1) (Z.of_nat (length pre + S (S (length post))))); [|lia].
  apply sec_load; [done|].
  assert (block_at (word w) i (length pre + 1) b) as (_ & _ & ->).
  { apply B. rewrite Nat.add_1_r, lookup_after. done. }
  unfold glue in HQ. destruct (b_used b =? 0); [|apply sec_ret; by apply HQ].
  apply (sec_absorb _ _ _ a b post); [done..| |done]. destruct Hsz as [? Hsz]. specialize (Hsz b eq_refl). lia.
Qed.

Lemma sec_coalesce_back i w lo bs (Q : unit -> table -> Prop) :
  table_sound w -> blocks_at (word w) i bs -> (length bs <= MaxBlocks)%nat -> (lo < length bs)%nat ->
  (forall j a b, bs !! j = Some a -> bs !! S j = Some b -> 0 <= b_size a + b_size b < 2 ^ 64) ->
  (forall w', table_sound w' -> only_blocks i (word w) (word w') ->
     blocks_at (word w') i (swallow_back lo bs) -> Q tt w') ->
  sec (coalesce_back shuffle i lo) w Q.
Proof.
  intros Hs Hb Hmax Hlo Hsz HQ. destruct lo as [|j]; cbn [coalesce_back swallow_back] in *; [apply sec_ret; by apply HQ|].
  destruct (lookup_lt_is_Some_2 bs j) as [a Ha]; [lia|]. destruct (lookup_lt_is_Some_2 bs (S j)) as [b Hb']; [done|].
  pose proof Hb as [_ B]. apply sec_load; [done|]. destruct (B _ _ Ha) as (_ & _ & ->). rewrite Ha, Hb' in HQ.
  destruct (b_used a =? 0); [|apply sec_ret; by apply HQ].
  specialize (Hsz _ _ _ Ha Hb'). apply list_elem_of_split_length in Ha as (pre & post & -> & ->).
  rewrite lookup_after in Hb'. destruct post as [|b' post]; [done|]. injection Hb' as ->.
  rewrite delete_after, insert_at in HQ. by apply (sec_absorb _ _ _ a b post).
Qed.

Definition sizes_ok (bs : list block) : Prop := Forall (fun b => 0 <= b_size b) bs /\ zsum b_size bs < 2 ^ 64.

Lemma sizes_app xs ys : sizes_ok (xs ++ ys) <->
  Forall (fun b => 0 <= b_size b) xs /\ Forall (fun b => 0 <= b_size b) ys /\ zsum b_size xs + zsum b_size ys < 2 ^ 64.
Proof. unfold sizes_ok. rewrite List.Forall_app, zsum_app. tauto. Qed.

Lemma sizes_sum_nonneg bs : Forall (fun b => 0 <= b_size b) bs -> 0 <= zsum b_size bs.
Proof. induction 1; cbn; lia. Qed.

Lemma sizes_neighbours bs j a b : sizes_ok bs -> bs !! j = Some a -> bs !! S j = Some b -> 0 <= b_size a /\ 0 <= b_size b /\ b_size a + b_size b < 2 ^ 64.
Proof.
  intros Hsz Ha Hb. apply list_elem_of_split_length in Ha as (pre & post & -> & ->). rewrite lookup_after in Hb.
  destruct post as [|b' post]; [done|]. injection Hb as ->. apply sizes_app in Hsz as (H1 & H2 & H3).
  apply List.Forall_cons_iff in H2 as [Ha H2]. apply List.Forall_cons_iff in H2 as [Hb H2].
  pose proof (sizes_sum_nonneg _ H1). pose proof (sizes_sum_nonneg _ H2). cbn in H3. lia.
Qed.

Lemma blocks_ok_sizes f lo hi bs : blocks_ok f lo hi bs -> Forall (fun b => 0 <= b_size b) bs /\ zsum b_size bs = hi - lo.
Proof.
  revert f lo. induction bs as [|b bs IH]; cbn; intros f lo; [intros ->; split; [constructor|lia]|].
  intros (_ & H1 & _ & _ & H2). destruct (IH _ _ H2) as [H3 H4]. split; [constructor; [lia|done]|lia].
Qed.

Lemma sizes_same_sum xs ys zs : Forall (fun b => 0 <= b_size b) zs -> zsum b_size zs = zsum b_size ys ->
  sizes_ok (xs ++ ys) -> sizes_ok (xs ++ zs).
Proof. intros H1 H2. rewrite !sizes_app. intuition lia. Qed.

Lemma sec_names_live i lo off len bs w (Q : bool -> table -> Prop) :
  table_sound w -> blocks_at (word w) i bs ->
  Q (match bs !! lo with Some b => exact b off len | None => false end) w ->
  sec (names_live i lo off len) w Q.
Proof.
  intros Hs [N B] HQ. unfold names_live. apply sec_load; [done|]. rewrite N.
  destruct (Z.leb_spec (Z.of_nat (length bs)) (Z.of_nat lo)).
  { rewrite lookup_ge_None_2 in HQ by lia. by apply sec_ret. }
  destruct (lookup_lt_is_Some_2 bs lo) as [b Hb]; [lia|]. rewrite Hb in HQ. destruct (B _ _ Hb) as (Bo & Bz & Bu).
  unfold exact in HQ. apply sec_load; [done|]. rewrite Bo.
  destruct (b_off b =? off); cbn [negb andb] in *; [|by apply sec_ret]. apply sec_load; [done|]. rewrite Bu.
  destruct (b_used b =? 0); cbn [negb andb] in *; [by apply sec_ret|]. apply sec_load; [done|]. rewrite Bz. by apply sec_ret.
Qed.

Lemma blocks_at_free i w pre b post :
  blocks_at (word w) i (pre ++ b :: post) ->
  blocks_at (word (put w (Blk FUsed i (length pre)) 0)) i (pre ++ mk_block (b_off b) (b_size b) 0 :: post).
Proof.
  intros [N B]. split; [known; rewrite N, !length_app; done|]. intros j x Hj. unfold block_at. known.
  destruct (decide (j = length pre)) as [->|Hne].
  - rewrite lookup_at in Hj. injection Hj as <-. known. destruct (B _ _ (lookup_at pre b post)) as (-> & -> & _). done.
  - known. apply B. by rewrite <- (insert_at pre b), list_lookup_insert_ne in Hj by done.
Qed.

Lemma sec_freeInLocked fuel s s' ok i c p len w (Q : bool -> table -> Prop) :
  table_sound w -> shows (word w) (carve s) -> carve s !! i = Some c -> carve_ok c ->
  Mmap.freeInLocked fuel s i c p len = Ok (s', ok) ->
  (forall w', table_sound w' -> shows (word w') (carve s') -> Q ok w') ->
  sec (freeInLocked fuel shuffle i p len) w Q.
Proof.
  intros Hs Hsh Hi [V P E B L] Hfree HQ. destruct (sh_carve _ _ Hsh _ _ Hi) as [Cva _ _ Cblk].
  unfold freeInLocked. apply sec_load; [done|]. apply sec_load; [done|]. rewrite Cva.
  pose proof Cblk as [N _]. rewrite N, Nat2Z.id. apply sec_bind; [done|].
  unfold Mmap.freeInLocked in Hfree. apply bind_ok_inv in Hfree as (lo & Hse & Hfree).
  unfold Mmap.search in Hse. apply bind_ok_inv in Hse as (q & Hse & [= <-]).
  apply (sec_search i _ (c_blk c) fuel 0 (length (c_blk c)) q w); [done..|].
  apply sec_bind; [done|]. apply (sec_names_live _ _ _ _ (c_blk c)); [done..|].
  assert (forall t, carve t = carve s -> Ok (t, false) = Ok (s', ok) -> sec (Ret false) w Q) as Hno.
  { intros t Ht [= <- <-]. apply sec_ret, HQ; [done|]. by rewrite Ht. }
  destruct (c_blk c !! q.1) as [b|] eqn:Hb.
  2: { eapply Hno; [|exact Hfree]. by destruct (anomalyLogged (cnt s) <? LogCap). }
  destruct (exact b (u64 (p - c_va c)) len).
  2: { eapply Hno; [|exact Hfree]. by destruct (anomalyLogged (cnt s) <? LogCap). }
  injection Hfree as <- <-. apply list_elem_of_split_length in Hb as (pre & post & Ebs & Elo). rewrite Ebs in *. rewrite Elo in *.
  rewrite insert_at, swallow_spec in HQ. set (a := mk_block (b_off b) (b_size b) 0) in *.
  destruct (blocks_ok_sizes _ _ _ _ B) as [Z1 Z2].
  assert (sizes_ok (pre ++ a :: post)) as Z3.
  { apply (sizes_same_sum _ (b :: post)); [|done|split; [done|lia]].
    apply List.Forall_app in Z1 as [_ Z1]. apply List.Forall_cons_iff in Z1. destruct Z1. by constructor. }
  apply sec_store; [done..|]. intros Hs1. apply blocks_at_free in Cblk. fold a in Cblk.
  apply sec_bind; [done|]. apply (sec_coalesce_forward i _ pre a post); [done|done|by rewrite length_app in *| |].
  { apply sizes_app in Z3 as Z4. destruct Z4 as (_ & [Z4 _]%List.Forall_cons_iff & _). split; [done|]. intros b' Hb'.
    destruct (sizes_neighbours _ (length pre) a b' Z3 (lookup_at _ _ _)) as (? & ? & ?); [|lia].
    rewrite lookup_after. by destruct post. }
  intros w2 Hs2 Ho2 Hb2. apply sec_bind; [done|].
  assert (length (glue_right a post) <= S (length post))%nat as Hgl by apply glue_right_length.
  assert (sizes_ok (pre ++ glue_right a post)) as Z5.
  { apply (sizes_same_sum _ (a :: post)); [| |done]; apply sizes_app in Z3 as (_ & Z3 & _);
      destruct post as [|x post]; try done; cbn [glue_right]; unfold glue; destruct (b_used x =? 0); cbn in *; try done; try lia.
    inversion Z3 as [|?? ? Z6]. inversion Z6. subst. constructor; [cbn in *; lia|done]. }
  apply (sec_coalesce_back i w2 (length pre) (pre ++ glue_right a post)); [done|done| | |intros j x y Hx Hy; pose proof (sizes_neighbours _ j x y Z5 Hx Hy); lia|].
  - rewrite length_app in *. cbn in L. lia.
  - destruct (glue_right_head a post) as (z & rest & ->). rewrite length_app. cbn. lia.
  - intros w3 Hs3 Ho3 Hb3. apply sec_ret, HQ; [done|]. cbn.
    apply (shows_blocks (word w)); [done|done| |done].
    eapply only_blocks_trans; [|exact Ho3]. eapply only_blocks_trans; [|exact Ho2].
    apply only_blocks_put; [cbn; by rewrite bool_decide_eq_true_2|]. by intros l _.
Qed.

Lemma sec_carveOfLocked p w pre post k (Q : option nat -> table -> Prop) :
  table_sound w -> shows (word w) (pre ++ post) -> (length post <= k)%nat ->
  Q (match Mmap.carveOfLocked post p with Some (j, _) => Some (length pre + j)%nat | None => None end) w ->
  sec (carveOfLocked p k (length pre)) w Q.
Proof.
  intros Hs Hsh. pose proof (sh_count _ _ Hsh) as HN. rewrite length_app in HN.
  revert pre k Hsh HN. induction post as [|c post IH]; intros pre k Hsh HN Hk HQ; destruct k as [|k];
    cbn [carveOfLocked length] in *; apply sec_load; try done; rewrite HN;
    [destruct (Z.leb_spec (Z.of_nat (length pre + 0)) (Z.of_nat (length pre))); [by apply sec_ret|lia]..|lia|].
  destruct (Z.leb_spec (Z.of_nat (length pre + S (length post))) (Z.of_nat (length pre))); [lia|].
  destruct (sh_carve _ _ Hsh _ _ (lookup_at pre c post)) as [V _ S _].
  assert (in_carve p c = false -> sec (carveOfLocked p k (Datatypes.S (length pre))) w Q) as Hnext.
  { intros Hout. replace (Datatypes.S (length pre)) with (length (pre ++ [c])) by (rewrite length_app; cbn; lia).
    apply IH; [by rewrite <- app_assoc|rewrite length_app; cbn; lia|lia|]. cbn [Mmap.carveOfLocked] in HQ. rewrite Hout in HQ.
    destruct (Mmap.carveOfLocked post p) as [[j d]|]; [|done].
    rewrite length_app. cbn. by replace (length pre + 1 + j)%nat with (length pre + Datatypes.S j)%nat by lia. }
  unfold in_carve in Hnext. apply sec_load; [done|]. rewrite V.
  destruct (Z.ltb_spec p (c_va c)); [apply Hnext; lia|]. do 2 (apply sec_load; [done|]). rewrite V, S.
  destruct (Z.ltb_spec p (c_va c + c_size c)); [|apply Hnext; lia]. apply sec_ret.
  cbn [Mmap.carveOfLocked] in HQ. unfold in_carve in HQ. destruct ((c_va c <=? p) && _) eqn:E; [|lia].
  by rewrite Nat.add_0_r in HQ.
Qed.

(** Run store by store, a section leaves the table and the verdict of the one
    step [MmapLock.inside] takes for it. *)
Lemma section_correct K `{!MapFresh K} fuel s c s' v w (Q : MmapLock.verdict -> table -> Prop) :
  table_sound w -> shows (word w) (carve s) -> mm_ok s -> MmapLock.call_ok c ->
  MmapLock.inside K fuel s c = Ok (s', v) ->
  (forall w', table_sound w' -> shows (word w') (carve s') -> Q v w') ->
  sec (section K fuel shuffle s c) w Q.
Proof.
  intros Hs Hsh Hok Hc Hin HQ. pose proof (ok_table _ Hok) as [T1 _ T3].
  destruct c as [addr len prot flags fd off|addr len|addr len advice]; cbn [MmapLock.inside section MmapLock.call_ok] in *.
  - rewrite alignUp_page in Hin |- * by lia. pose proof (pages_bounds len Hc). unfold Page in *.
    apply sec_bind; [done|]. apply sec_mapOwned; [done..|unfold Page; lia|]. intros w' Hs' Hsh'. apply sec_ret.
    destruct (mapOwned_locked K s (pages len)) as [s1 out]. injection Hin as <- <-. by apply HQ.
  - apply sec_bind; [done|]. apply (sec_carveOfLocked addr w [] (carve s)); [done..|].
    destruct (Mmap.carveOfLocked (carve s) addr) as [[i c]|] eqn:Hof.
    2: { injection Hin as <- <-. apply sec_ret. by apply HQ. }
    apply bind_ok_inv in Hin as ([s1 ok] & Hfree & Hin).
    destruct (carveOfLocked_some _ _ _ _ Hof) as (pre & post & Ec & -> & _).
    assert (carve s !! length pre = Some c) as Hi by (rewrite Ec; apply lookup_at).
    rewrite list.Forall_lookup in T1. apply sec_bind; [done|].
    apply (sec_freeInLocked fuel s s1 ok (length pre) c addr (alignUp len Page) w); [done..|by eapply T1|done|].
    intros w' Hs' Hsh'. apply sec_ret. destruct ok; injection Hin as <- <-; by apply HQ.
  - injection Hin as <- <-. apply sec_bind; [done|]. apply (sec_carveOfLocked addr w [] (carve s)); [done..|].
    destruct (Mmap.carveOfLocked (carve s) addr) as [[i c]|]; apply sec_ret; by apply HQ.
Qed.
End sections.

(** ** Sections end *)

Lemma finite_load_all ls : finite (load_all ls).
Proof. induction ls as [|l ls IH]; cbn [load_all]; [done|]. intros v.
  change (finite (bind (load_all ls) (fun vs => Ret (v :: vs)))). by apply finite_bind.
Qed.

Lemma finite_store_all ws : finite (store_all ws).
Proof. induction ws as [|[l v] ws IH]; cbn [store_all]; [done|]. by intros []. Qed.

Lemma finite_memmove shuffle i dst src n : finite (memmove shuffle i dst src n).
Proof. apply finite_bind; [apply finite_load_all|]. intros vs. apply finite_store_all. Qed.

(** Goes through a program, test by test. *)
Ltac ends := repeat
  match goal with
  | |- finite (bind _ _) => apply finite_bind
  | |- finite (memmove _ _ _ _ _) => apply finite_memmove
  | |- finite (load _) => intros ?; exact I
  | |- finite (store _ _) => intros ?; exact I
  | |- finite (Ret _) => exact I
  | |- finite Undefined => exact I
  | |- finite (match ?x with _ => _ end) => destruct x
  | |- forall _, finite _ => intros ?
  end.

Lemma finite_alloc shuffle i len k b : finite (alloc_scan shuffle i len k b).
Proof. revert b. induction k as [|k IH]; intros b; cbn [alloc_scan]; unfold split_block; ends; apply IH. Qed.

Lemma finite_alloc_any shuffle want k i : finite (alloc_any shuffle want k i).
Proof.
  revert i. induction k as [|k IH]; intros i; cbn [alloc_any]; ends; [|apply IH].
  exact (finite_alloc shuffle i want MaxBlocks 0).
Qed.

Lemma finite_search k i off lo hi : finite (search k i off lo hi).
Proof. revert lo hi. induction k as [|k IH]; intros lo hi; cbn [search]; ends; apply IH. Qed.

Lemma finite_carveOf p k i : finite (carveOfLocked p k i).
Proof. revert i. induction k as [|k IH]; intros i; cbn [carveOfLocked]; ends; apply IH. Qed.

Lemma section_finite K fuel shuffle s c : finite (section K fuel shuffle s c).
Proof.
  destruct c; cbn [section]; unfold mapOwned, addCarveLocked, allocInLocked, freeInLocked, names_live,
    coalesce_forward, coalesce_back, absorb; ends;
    match goal with
    | |- finite (alloc_any _ _ _ _) => apply finite_alloc_any
    | |- finite (alloc_scan _ _ _ _ _) => apply finite_alloc
    | |- finite (search _ _ _ _ _) => apply finite_search
    | |- finite (carveOfLocked _ _ _) => apply finite_carveOf
    end.
Qed.
