(* ===== verification/MmapRace.v ===== *)
(** The crash handler's look at the carve-out table of [src/orbis_mmap.cpp].
    [mmapDirectDescribe] takes no lock: it loads words while a section that has
    the lock stores others ([MmapTable]), or was interrupted in the middle by
    the very fault that is being reported.  Here any number of handlers run
    among the threads of [MmapLock], every load and store a step of its own.
    Stores are seen in program order, as on the console's x86 cores. *)
From stdpp Require Import prelude list numbers relations functions.
From S2P Require Import Prelude Effects Mmap MmapBlocks MmapRun MmapLock MmapTable.
Import MmapTable.
Open Scope Z_scope.
Open Scope prog_scope.

Module MmapRace.

(** ** [mmapDirectDescribe], load by load *)

(** The loop over the blocks, [k] of them from [b] on: whether the block found
    is used, its offset, its size. *)
Fixpoint describe_blocks (i : nat) (off : Z) (k b : nat) : prog answer (option (bool * Z * Z)) :=
  match k with
  | O => Ret None
  | S k =>
      let* o := load (Blk FOff i b) in
      if off <? o then describe_blocks i off k (S b) else
      let* o := load (Blk FOff i b) in
      let* z := load (Blk FSize i b) in
      if u64 (o + z) <=? off then describe_blocks i off k (S b) else
      let* u := load (Blk FUsed i b) in
      let* o := load (Blk FOff i b) in
      let* z := load (Blk FSize i b) in
      Ret (Some (negb (u =? 0), o, z))
  end.

Definition describe_block (i : nat) (off : Z) : prog answer (option (bool * Z * Z)) :=
  let* bn := load (Count i) in
  describe_blocks i off (Nat.min (Z.to_nat bn) MaxBlocks) 0.

Definition span_of (i : nat) (base size off : Z) (b : option (bool * Z * Z)) : span :=
  match b with
  | Some (u, o, z) => mk_mspan (Z.of_nat i + 1) base size off true u o z
  | None => mk_mspan (Z.of_nat i + 1) base size off false false 0 0
  end.

Fixpoint describe_carves (p : Z) (k i : nat) : prog answer (option span) :=
  match k with
  | O => Ret None
  | S k =>
      let* va := load (Va i) in
      if va =? 0 then describe_carves p k (S i) else
      let* va := load (Va i) in
      if p <? va then describe_carves p k (S i) else
      let* va := load (Va i) in
      let* z := load (Size i) in
      if va + z <=? p then describe_carves p k (S i) else
      let* base := load (Va i) in
      let* size := load (Size i) in
      let* va := load (Va i) in
      let* b := describe_block i (u64 (p - va)) in
      Ret (Some (span_of i base size (u64 (p - va)) b))
  end.

Definition mmapDirectDescribe (p : Z) : prog answer (option span) :=
  let* n := load Carves in
  describe_carves p (Nat.min (Z.to_nat n) MaxCarves) 0.

(** ** Threads and handlers *)

(** A fault at [h_addr], handled from the state [h_st] and the table [h_from]
    on; [h_quiet]: no section was under way.  [h_loads] counts its loads. *)
Record handler := mk_handler {
  h_addr : Z; h_st : mm; h_from : table; h_quiet : bool; h_loads : nat; h_prog : prog answer (option span) }.

Record report := mk_report {
  r_handler : handler; r_st : mm; r_to : table; r_answer : option span }.

(** [tbl]: the words of the table.  [running]: the thread whose section is
    under way, with what is left of it. *)
Record race := mk_race {
  base : MmapLock.world; tbl : table; running : option (nat * prog answer MmapLock.verdict);
  handlers : list handler; reports : list report }.

Definition initial (m : Z -> Z) : race := mk_race (MmapLock.initial m) zeroed None [] [].

Definition faulted (p : Z) (r : race) : handler :=
  mk_handler p (MmapLock.st (base r)) (tbl r) (bool_decide (running r = None)) 0 (mmapDirectDescribe p).

Definition looked (h : handler) (p : prog answer (option span)) : handler :=
  mk_handler (h_addr h) (h_st h) (h_from h) (h_quiet h) (S (h_loads h)) p.

Definition set_tbl (r : race) w p := mk_race (base r) w p (handlers r) (reports r).
Definition set_handlers (r : race) hs rs := mk_race (base r) (tbl r) (running r) hs rs.

Section steps.
Context (K : kernel) (fuel : nat) (shuffle : list (loc * Z) -> list (loc * Z)).

(** The step of [MmapLock] for a thread that got the lock: its state has the
    result of the section from the start, the table follows store by store. *)
Definition decided (w : MmapLock.world) (t : nat) (c : MmapLock.call) (mine : bool) (s' : mm) (v : MmapLock.verdict)
    : MmapLock.world :=
  MmapLock.mk_world (MmapLock.lockFlag w) s' (<[t := MmapLock.Releasing c v]> (MmapLock.pcs w)) (MmapLock.held w)
    (MmapLock.misused w || (MmapLock.unmapped c v && negb mine)) (MmapLock.answers w).

Inductive step : race -> race -> Prop :=
  (** Outside of sections, the steps of [MmapLock]. *)
  | step_thread r w' :
      MmapLock.step K fuel (base r) w' ->
      (forall t c mine, MmapLock.pcs (base r) t = MmapLock.Inside c mine -> MmapLock.pcs w' t = MmapLock.Inside c mine) ->
      (forall t p, running r = Some (t, p) -> MmapLock.pcs w' t = MmapLock.pcs (base r) t) ->
      step r (mk_race w' (tbl r) (running r) (handlers r) (reports r))
  | step_enter r t c mine s' v :
      MmapLock.pcs (base r) t = MmapLock.Inside c mine -> running r = None ->
      MmapLock.inside K fuel (MmapLock.st (base r)) c = Ok (s', v) ->
      step r (mk_race (decided (base r) t c mine s' v) (tbl r)
                (Some (t, section K fuel shuffle (MmapLock.st (base r)) c)) (handlers r) (reports r))
  | step_section r t p w' p' :
      running r = Some (t, p) -> pstep act tt (tbl r) tt p = Some (w', tt, p') ->
      step r (set_tbl r w' (Some (t, p')))
  | step_leave r t v :
      running r = Some (t, Ret v) -> step r (set_tbl r (tbl r) None)
  | step_fault r p : step r (set_handlers r (handlers r ++ [faulted p r]) (reports r))
  | step_look r hs1 h hs2 w' p' :
      handlers r = hs1 ++ h :: hs2 -> pstep act tt (tbl r) tt (h_prog h) = Some (w', tt, p') ->
      step r (mk_race (base r) w' (running r) (hs1 ++ looked h p' :: hs2) (reports r))
  | step_report r hs1 h hs2 d :
      handlers r = hs1 ++ h :: hs2 -> h_prog h = Ret d ->
      step r (set_handlers r (hs1 ++ hs2) (reports r ++ [mk_report h (MmapLock.st (base r)) (tbl r) d])).
End steps.

End MmapRace.

Import MmapRace.

(** ** Programs that only load *)

(** At most [n] loads, of words in [P]. *)
Fixpoint loads_in {A : Set} (P : loc -> Prop) (n : nat) (p : prog answer A) {struct p} : Prop :=
  match p with
  | Ret _ => True
  | Act e k =>
      match n with
      | O => False
      | S n => match e with Load l => P l | Store _ _ => False end /\ forall r, loads_in P n (k r)
      end
  | Undefined | Until _ _ _ => False
  end.

Lemma loads_ret {A : Set} P n (a : A) : loads_in P n (Ret a).
Proof. exact I. Qed.

Lemma loads_mono {A : Set} P n m (p : prog answer A) : (n <= m)%nat -> loads_in P n p -> loads_in P m p.
Proof.
  revert n m. induction p as [A a|A|A e k IH|A S B body IHb s k IH]; intros n m Hle H; [apply loads_ret|done| |done].
  cbn in *. destruct n as [|n]; [done|]. destruct m as [|m]; [lia|]. destruct H as [He Hk]. split; [done|]. intros r. apply (IH r n); [lia|done].
Qed.

Lemma loads_weaken {A : Set} (P P' : loc -> Prop) n (p : prog answer A) :
  (forall l, P l -> P' l) -> loads_in P n p -> loads_in P' n p.
Proof.
  intros HP. revert n. induction p as [A a|A|A e k IH|A S B body IHb s k IH]; intros n H; [apply loads_ret|done| |done].
  cbn in *. destruct n as [|n]; [done|]. destruct H as [He Hk]. destruct e; [|done]. auto.
Qed.

Lemma loads_load {C : Set} (P : loc -> Prop) n l (f : Z -> prog answer C) :
  P l -> (forall v, loads_in P n (f v)) -> loads_in P (S n) (bind (load l) f).
Proof. done. Qed.

Lemma loads_bind {A C : Set} P n m (p : prog answer A) (f : A -> prog answer C) :
  loads_in P n p -> (forall a, loads_in P m (f a)) -> loads_in P (n + m) (bind p f).
Proof.
  intros Hp Hf. revert n Hp. induction p as [A a|A|A e k IH|A S B body IHb s k IH]; intros n Hp; cbn in *; try done.
  - eapply loads_mono; [|apply Hf]. lia.
  - destruct n as [|n]; [done|]. destruct Hp as [He Hk]. split; [done|]. intros r. by apply IH.
Qed.

(** What such a program answers when nothing changes. *)
Fixpoint eval {A : Set} (m : loc -> Z) (p : prog answer A) : option A :=
  match p with
  | Ret a => Some a
  | Act e k =>
      (match e return (answer e -> option A) -> option A with
       | Load l => fun f => f (m l)
       | Store _ _ => fun _ => None
       end) (fun r => eval m (k r))
  | Undefined | Until _ _ _ => None
  end.

Lemma eval_load {C : Set} m l (f : Z -> prog answer C) : eval m (bind (load l) f) = eval m (f (m l)).
Proof. done. Qed.

Lemma eval_bind {A C : Set} m (p : prog answer A) (f : A -> prog answer C) a :
  eval m p = Some a -> eval m (bind p f) = eval m (f a).
Proof.
  induction p as [A b|A|A e k IH|A S B body IHb s k IH]; cbn; try done; [by intros [= ->]|].
  destruct e as [l|l v]; [apply IH|done].
Qed.

(** ** A handler among stores *)

(** What others do while a handler runs it can only see as [evolves]. *)
Local Abbreviation look p w Q := (wp act table_sound evolves evolves p w tt (fun a w1 _ => Q a w1)) (only parsing).

Lemma look_load {C : Set} l (f : Z -> prog answer C) w (Q : C -> table -> Prop) :
  (forall w1, evolves w w1 -> table_sound w1 -> look (f (word w1 l)) w1 Q) -> look (bind (load l) f) w Q.
Proof.
  intros H w1 He Hs c r w2 t2 [= <- <- <-]. split; [done|]. split; [reflexivity|]. by apply H.
Qed.

(** As long as [same] holds the words in [P] are those of [w0]; if it still
    holds in the end, the answer is the one [w0] gives. *)
Lemma look_same {A : Set} (P : loc -> Prop) (same : table -> Prop) n (p : prog answer A) w0 w :
  loads_in P n p ->
  (forall w w1, evolves w0 w -> evolves w w1 -> same w1 -> same w) ->
  (forall w l, evolves w0 w -> same w -> P l -> word w l = word w0 l) ->
  evolves w0 w -> table_sound w ->
  look p w (fun a w1 => evolves w w1 /\ table_sound w1 /\ (same w1 -> eval (word w0) p = Some a)).
Proof.
  intros Hp Hback Hsame He Hs. revert n w Hp He Hs.
  induction p as [A a|A|A e k IH|A S B body IHb s k IH]; intros n w Hp He Hs; cbn in Hp; try done.
  destruct n as [|n]; [done|]. destruct Hp as [HP Hk]. destruct e as [l|]; [|done].
  intros w1 He1 Hs1 c r w2 t2 [= <- <- <-]. split; [done|]. split; [reflexivity|].
  eapply wp_mono; [|apply (IH (word w1 l) n w1); [apply Hk|by etrans|done]].
  intros a w3 _ _ (He3 & Hs3 & Heval). split; [by etrans|]. split; [done|]. intros H3. cbn.
  rewrite <- (Hsame w1 l); [by apply Heval|by etrans| |done].
  apply (Hback w1 w3); [by etrans|done|done].
Qed.

Lemma loads_describe_blocks i off k b :
  loads_in (fun l => of_blocks i l = true) (3 * k + 3) (describe_blocks i off k b).
Proof.
  revert b. induction k as [|k IH]; intros b; cbn [describe_blocks]; [apply loads_ret|].
  replace (3 * S k + 3)%nat with (S (S (S (3 * k + 3))))%nat by lia.
  assert (forall f, of_blocks i (Blk f i b) = true) as Hb by (intros f; cbn; by rewrite bool_decide_eq_true_2).
  apply loads_load; [apply Hb|]. intros o. destruct (off <? o).
  { eapply loads_mono; [|apply IH]. lia. }
  do 2 (apply loads_load; [apply Hb|]; intros ?). case_match; [apply IH|].
  eapply loads_mono; [|do 3 (apply loads_load; [apply Hb|]; intros ?); apply (loads_ret _ 0)]. lia.
Qed.

Definition block_loads : nat := 1 + (3 * MaxBlocks + 3).

Lemma loads_describe_block i off : loads_in (fun l => of_blocks i l = true) block_loads (describe_block i off).
Proof.
  apply loads_load; [cbn; by rewrite bool_decide_eq_true_2|]. intros n.
  eapply loads_mono; [|apply loads_describe_blocks]. lia.
Qed.

Definition all_loads : nat := 1 + (4 * MaxCarves + (3 + block_loads)).
Arguments all_loads : simpl never.

Lemma loads_describe_carves p k i : loads_in (fun _ => True) (4 * k + (3 + block_loads)) (describe_carves p k i).
Proof.
  revert i. induction k as [|k IH]; intros i; cbn [describe_carves]; [apply loads_ret|].
  replace (4 * S k + _)%nat with (S (S (S (S (4 * k + (3 + block_loads))))))%nat by lia.
  assert (forall j, loads_in (fun _ => True) (S (4 * k + (3 + block_loads))) (describe_carves p k j) /\
    loads_in (fun _ => True) (S (S (4 * k + (3 + block_loads)))) (describe_carves p k j) /\
    loads_in (fun _ => True) (S (S (S (4 * k + (3 + block_loads))))) (describe_carves p k j)) as Hmore.
  { intros j. repeat split; (eapply loads_mono; [|apply IH]; lia). }
  apply loads_load; [done|]. intros v1. destruct (v1 =? 0); [apply Hmore|].
  apply loads_load; [done|]. intros v2. destruct (p <? v2); [apply Hmore|].
  do 2 (apply loads_load; [done|]; intros ?). case_match; [apply IH|].
  apply (loads_mono _ (S (S (S (block_loads + 0))))); [lia|].
  do 3 (apply loads_load; [done|]; intros ?). apply loads_bind; [|intros; apply loads_ret].
  by eapply loads_weaken, loads_describe_block.
Qed.

Lemma loads_describe p : loads_in (fun _ => True) all_loads (mmapDirectDescribe p).
Proof.
  apply loads_load; [done|]. intros n. eapply loads_mono; [|apply loads_describe_carves].
  pose proof (Nat.le_min_r (Z.to_nat n) MaxCarves). lia.
Qed.

(** ** What a handler finds *)

(** [w0] is the table when it began, [w] when it was done. *)
Definition found (w0 : table) (p : Z) (r : option span) (w : table) : Prop :=
  match r with
  | None => forall i, Z.of_nat i < word w0 Carves -> ~ (word w0 (Va i) <= p < word w0 (Va i) + word w0 (Size i))
  | Some d => exists i b, Z.of_nat i < word w Carves /\ word w (Va i) <= p < word w (Va i) + word w (Size i) /\
      d = span_of i (word w (Va i)) (word w (Size i)) (p - word w (Va i)) b /\
      (changes w i = changes w0 i -> eval (word w0) (describe_block i (p - word w (Va i))) = Some b)
  end.

Lemma found_evolves w0 p r w w1 : evolves w0 w -> evolves w w1 -> found w0 p r w -> found w0 p r w1.
Proof.
  intros He He1. destruct r as [d|]; [|done]. intros (i & b & Hi & Hp & -> & Hb). exists i, b.
  destruct (ev_place _ _ He1 i Hi) as [-> ->]. pose proof (ev_carves _ _ He1). split; [lia|]. do 2 (split; [done|]).
  intros Hc. apply Hb. pose proof (ev_changes _ _ He i). pose proof (ev_changes _ _ He1 i). lia.
Qed.

Lemma look_describe_block w0 i off w :
  evolves w0 w -> table_sound w ->
  look (describe_block i off) w (fun b w1 => evolves w w1 /\ table_sound w1 /\
    (changes w1 i = changes w0 i -> eval (word w0) (describe_block i off) = Some b)).
Proof.
  intros He Hs. eapply (look_same (fun l => of_blocks i l = true) (fun w => changes w i = changes w0 i));
    [apply loads_describe_block| | |done|done].
  - intros w1 w2 H1 H2 Hc. pose proof (ev_changes _ _ H1 i). pose proof (ev_changes _ _ H2 i). lia.
  - intros w1 l H1 H2 Hl. by eapply ev_blocks.
Qed.

Lemma look_describe_carves w0 p k i w :
  evolves w0 w -> table_sound w -> Z.of_nat (i + k) <= word w Carves -> word w0 Carves <= Z.of_nat (i + k) ->
  (forall j, (j < i)%nat -> ~ (word w (Va j) <= p < word w (Va j) + word w (Size j))) ->
  look (describe_carves p k i) w (found w0 p).
Proof.
  revert i w. induction k as [|k IH]; intros i w He Hs Hn H0 Hout; cbn [describe_carves].
  { intros w1 He1 _ j Hj. destruct (ev_place _ _ He j Hj) as [<- <-]. apply Hout. lia. }
  assert (Z.of_nat i < word w Carves) as Hi by lia. destruct Hs as [Hs1 Hs2]. destruct (Hs2 i Hi) as (V1 & V2 & V3).
  set (va := word w (Va i)) in *. set (z := word w (Size i)) in *.
  assert (forall w1, evolves w w1 -> word w1 (Va i) = va /\ word w1 (Size i) = z) as Hsame.
  { intros w1 He1. apply (ev_place _ _ He1 i Hi). }
  assert (forall w1, evolves w w1 -> table_sound w1 -> ~ (va <= p < va + z) ->
    look (describe_carves p k (S i)) w1 (found w0 p)) as Hnext.
  { intros w1 He1 Hs Hp. pose proof (ev_carves _ _ He1). apply IH; [by etrans|done|lia|lia|].
    intros j Hj. destruct (ev_place _ _ He1 j) as [-> ->]; [lia|]. destruct (decide (j = i)) as [->|]; [done|]. apply Hout. lia. }
  apply look_load. intros w1 He1 S1. rewrite (proj1 (Hsame w1 He1)). destruct (Z.eqb_spec va 0); [lia|].
  apply look_load. intros w2 He2 S2. assert (evolves w w2) as He2' by by etrans. rewrite (proj1 (Hsame w2 He2')).
  destruct (Z.ltb_spec p va); [apply Hnext; [done|done|lia]|].
  apply look_load. intros w3 He3 S3. assert (evolves w w3) as He3' by by etrans. rewrite (proj1 (Hsame w3 He3')).
  apply look_load. intros w4 He4 S4. assert (evolves w w4) as He4' by by etrans. rewrite (proj2 (Hsame w4 He4')).
  destruct (Z.leb_spec (va + z) p); [apply Hnext; [done|done|lia]|].
  apply look_load. intros w5 He5 S5. assert (evolves w w5) as He5' by by etrans. rewrite (proj1 (Hsame w5 He5')).
  apply look_load. intros w6 He6 S6. assert (evolves w w6) as He6' by by etrans. rewrite (proj2 (Hsame w6 He6')).
  apply look_load. intros w7 He7 S7. assert (evolves w w7) as He7' by by etrans. rewrite (proj1 (Hsame w7 He7')).
  rewrite u64_small by lia. apply wp_bind; [apply _|done|].
  eapply wp_mono; [|apply (look_describe_block w0); [by etrans|done]]. intros b w8 [] _ (He8 & S8 & Hb).
  assert (found w0 p (Some (span_of i va z (p - va) b)) w8) as Hf.
  { exists i, b. assert (evolves w w8) as He8' by by etrans. destruct (Hsame w8 He8') as [-> ->].
    pose proof (ev_carves _ _ He8'). split; [lia|]. split; [lia|]. done. }
  intros w9 He9 S9. eapply found_evolves; [|exact He9|exact Hf]. etrans; [exact He|]. by etrans.
Qed.

(** A handler reads whatever the others do and finds what is there. *)
Lemma look_describe p w : table_sound w -> look (mmapDirectDescribe p) w (found w p).
Proof.
  intros Hs. apply look_load. intros w1 He1 S1. pose proof (ev_carves _ _ He1). destruct S1 as [S1 S1'].
  rewrite Nat.min_l by lia. apply look_describe_carves; [done|done|cbn; lia|cbn; lia|lia].
Qed.

(** ** The answer in terms of the lists *)

Lemma eval_describe_blocks m i off pre post :
  blocks_at m i (pre ++ post) -> Forall block_sound (pre ++ post) ->
  eval m (describe_blocks i off (length post) (length pre)) =
    Some (match block_of post off with Some x => Some (negb (b_used x =? 0), b_off x, b_size x) | None => None end).
Proof.
  intros Hb. revert pre Hb. induction post as [|x post IH]; intros pre [N B] Hs; [done|].
  cbn [length describe_blocks block_of].
  destruct (B _ _ (lookup_at pre x post)) as (Bo & Bz & Bu).
  assert (block_sound x) as (S1 & S2 & S3) by (apply List.Forall_app in Hs as [_ Hs%List.Forall_cons_iff]; tauto).
  assert (eval m (describe_blocks i off (length post) (S (length pre))) =
    Some (match block_of post off with Some x => Some (negb (b_used x =? 0), b_off x, b_size x) | None => None end)) as Hnext.
  { replace (S (length pre)) with (length (pre ++ [x])) by (rewrite length_app; cbn; lia).
    apply IH; rewrite <- app_assoc; done. }
  rewrite eval_load, Bo. destruct (off <? b_off x); cbn [orb]; [done|].
  rewrite !eval_load, Bo, Bz, u64_small by lia. destruct (b_off x + b_size x <=? off); [done|].
  by rewrite !eval_load, Bo, Bz, Bu.
Qed.

Lemma describe_from_at i cs p j c :
  Forall carve_ok cs -> pairwise apart_c cs -> cs !! j = Some c -> c_va c <= p < c_va c + c_size c ->
  describe_from i cs p = Some (match block_of (take MaxBlocks (c_blk c)) (p - c_va c) with
    | Some b => mk_mspan (i + Z.of_nat j + 1) (c_va c) (c_size c) (p - c_va c) true (negb (b_used b =? 0)) (b_off b) (b_size b)
    | None => mk_mspan (i + Z.of_nat j + 1) (c_va c) (c_size c) (p - c_va c) false false 0 0
    end).
Proof.
  revert i j. induction cs as [|d cs IH]; intros i j Hok Hap Hj Hp; [done|].
  destruct Hap as [Hd Hap].
  apply List.Forall_cons_iff in Hok as [[V P E B L] Hok]. cbn [describe_from]. destruct j as [|j]; cbn in Hj.
  - injection Hj as ->. destruct ((c_va c =? 0) || (p <? c_va c) || (c_va c + c_size c <=? p)) eqn:Hout; [lia|].
    rewrite u64_small by lia. by replace (i + Z.of_nat 0 + 1) with (i + 1) by lia.
  - rewrite list.Forall_lookup in Hd. specialize (Hd _ _ Hj). unfold apart_c, apart2 in Hd.
    destruct ((c_va d =? 0) || (p <? c_va d) || (c_va d + c_size d <=? p)) eqn:Hout; [|lia].
    rewrite (IH (i + 1) j) by done. by replace (i + Z.of_nat (S j) + 1) with (i + 1 + Z.of_nat j + 1) by lia.
Qed.

Lemma describe_exact m s p j c b :
  table_ok (carve s) -> carve s !! j = Some c -> c_va c <= p < c_va c + c_size c -> carve_at m j c ->
  eval m (describe_block j (p - c_va c)) = Some b ->
  Mmap.mmapDirectDescribe s p = Some (span_of j (c_va c) (c_size c) (p - c_va c) b).
Proof.
  intros [T1 T2 T3] Hj Hp [_ _ _ Hb] Hev. unfold Mmap.mmapDirectDescribe. rewrite take_ge by done.
  rewrite (describe_from_at 0 _ _ _ _ T1 T2 Hj Hp). rewrite list.Forall_lookup in T1. pose proof (T1 _ _ Hj) as Hc.
  rewrite take_ge by apply Hc. unfold describe_block in Hev. rewrite eval_load, (proj1 Hb), Nat2Z.id, Nat.min_l in Hev by apply Hc.
  rewrite (eval_describe_blocks m j _ [] (c_blk c)) in Hev; [|done|by apply carve_ok_sound].
  injection Hev as <-. by destruct (block_of (c_blk c) (p - c_va c)).
Qed.

(** ** The invariant of threads and handlers *)

(** Carve-outs are only added. *)
Definition extends (cs cs' : list carve_out) : Prop :=
  ((fun c => (c_va c, c_size c)) <$> cs) `prefix_of` ((fun c => (c_va c, c_size c)) <$> cs').

#[export] Instance extends_preorder : PreOrder extends.
Proof. split; [intros cs|intros c1 c2 c3 H1 H2]; unfold extends in *; [done|by etrans]. Qed.

Lemma extends_lookup cs cs' i c : extends cs cs' -> cs !! i = Some c ->
  exists c', cs' !! i = Some c' /\ c_va c' = c_va c /\ c_size c' = c_size c.
Proof.
  intros He Hi. assert (((fun c => (c_va c, c_size c)) <$> cs') !! i = Some (c_va c, c_size c)) as H.
  { eapply prefix_lookup_Some; [|exact He]. by rewrite list_lookup_fmap, Hi. }
  rewrite list_lookup_fmap in H. destruct (cs' !! i) as [c'|]; [|done]. injection H as H1 H2. eauto.
Qed.

Lemma inside_extends K `{!MapFresh K} fuel s c s' v :
  mm_ok s -> MmapLock.call_ok c -> MmapLock.inside K fuel s c = Ok (s', v) -> extends (carve s) (carve s').
Proof.
  intros Hok Hc Hin.
  assert (forall cs cs' len p, table_ok cs -> served cs len p cs' -> extends cs cs') as Hserved.
  { intros cs cs' len p Ht Hsv. unfold extends. by rewrite (served_regions cs cs' len p Ht Hsv). }
  destruct c as [addr len prot flags fd off|addr len|addr len advice]; cbn [MmapLock.inside MmapLock.call_ok] in *.
  - rewrite alignUp_page in Hin by lia. pose proof (pages_bounds len Hc) as (B1 & B2 & B3). unfold mapOwned_locked in Hin.
    destruct (Mmap.alloc_any (carve s) (pages len)) as [[p cs]|] eqn:Ha.
    { injection Hin as <- _. eapply Hserved; [apply Hok|by apply alloc_any_served]. }
    destruct (Mmap.addCarveLocked K s (pages len)) as [s1 ok] eqn:Hadd.
    destruct (addCarveLocked_spec K s (pages len) Hok ltac:(unfold Page in *; lia) s1 ok Hadd) as (Hok1 & _ & _ & _ & Hcase).
    assert (extends (carve s) (carve s1)) as H1.
    { destruct ok; [destruct Hcase as (va & phys & -> & _)|rewrite (proj1 Hcase); reflexivity].
      unfold extends. rewrite fmap_app. by apply prefix_app_r. }
    assert (carve (fall_back s1 (pages len)).1 = carve s1) as Hfall by (unfold fall_back; by destruct (fallbackLogged (cnt s1) <? LogCap)).
    destruct ok; [destruct (alloc_last (carve s1) (pages len)) as [[p cs]|] eqn:Hl|].
    + injection Hin as <- _. cbn. pose proof (ok_table _ Hok1) as T. destruct Hcase as (va & phys & Ec & _).
      rewrite Ec in Hl, H1, T. etrans; [exact H1|]. eapply Hserved; [done|by eapply alloc_last_served].
    + destruct (fall_back s1 (pages len)). injection Hin as <- _. by rewrite <- Hfall in H1.
    + destruct (fall_back s1 (pages len)). injection Hin as <- _. by rewrite <- Hfall in H1.
  - destruct (Mmap.carveOfLocked (carve s) addr) as [[i c]|] eqn:Hof; [|injection Hin as <- _; reflexivity].
    apply bind_ok_inv in Hin as ([s1 ok] & Hfree & Hin).
    assert (carve s' = carve s1) as -> by (by destruct ok; injection Hin as <- _).
    unfold Mmap.freeInLocked in Hfree. apply bind_ok_inv in Hfree as (lo & _ & Hfree).
    destruct (carveOfLocked_some _ _ _ _ Hof) as (pre & post & Ec & -> & _).
    assert (forall t, carve t = carve s -> Ok (t, false) = Ok (s1, ok) -> extends (carve s) (carve s1)) as Hno
      by (intros t Et [= <- _]; rewrite Et; reflexivity).
    destruct (c_blk c !! lo) as [b|]; [destruct (exact _ _ _)|];
      [|eapply Hno; [|exact Hfree]; by destruct (anomalyLogged (cnt s) <? LogCap)..].
    injection Hfree as <- _. cbn. unfold extends. by rewrite Ec, insert_at, !fmap_app.
  - injection Hin as <- _. reflexivity.
Qed.

(** Carve-outs that are visible are those of the list. *)
Definition visible (w : table) (cs : list carve_out) : Prop :=
  word w Carves <= Z.of_nat (length cs) /\
  forall i c, Z.of_nat i < word w Carves -> cs !! i = Some c -> word w (Va i) = c_va c /\ word w (Size i) = c_size c.

Lemma shows_visible w cs : shows (word w) cs -> visible w cs.
Proof. intros [H1 H2]. split; [lia|]. intros i c _ Hi. destruct (H2 _ _ Hi). done. Qed.

Lemma visible_evolves w w' cs : evolves w w' -> visible w' cs -> visible w cs.
Proof.
  intros He [H1 H2]. pose proof (ev_carves _ _ He). split; [lia|]. intros i c Hi Hc.
  destruct (ev_place _ _ He i Hi) as [<- <-]. apply H2; [lia|done].
Qed.

Section run.
Context (K : kernel) `{!MapFresh K} (fuel : nat) (shuffle : list (loc * Z) -> list (loc * Z)).
Hypothesis Hfuel : (MaxBlocks < fuel)%nat.
Hypothesis shuffle_perm : forall ws, shuffle ws ≡ₚ ws.
Local Abbreviation rstep := (MmapRace.step K fuel shuffle).
Local Abbreviation st := MmapLock.st.
Local Abbreviation pcs := MmapLock.pcs.

(** Outside of sections nothing touches the table. *)
Lemma thread_same w w' :
  MmapLock.step K fuel w w' -> inv w ->
  (forall t c mine, pcs w t = MmapLock.Inside c mine -> pcs w' t = MmapLock.Inside c mine) ->
  carve (st w') = carve (st w).
Proof.
  intros Hs Hinv Hin. destruct Hs as [t c l s p h b r Ht Hco|t c mine u us l s p h b r Ht|t c mine l s p h b r Ht
    |t c mine spins spurious l l' spins' w s p h b r Ht Ha|t c mine s' v l s p h b r Ht Hi|t c v l s p h b r Ht
    |t c q want k l s p h b r Ht Hk|t c q want k l s p h b r Ht Hk|t c u us l s p h b r Ht|t c s' x l s p h b r Ht Hf
    |t a v l s p h b r Ht Ha]; try reflexivity; cbn in *.
  - pose proof (i_pc _ Hinv t) as Hp. cbn in Hp. rewrite Ht in Hp. destruct Hp as [_ [Hu _]%List.Forall_cons_iff].
    apply (Hu s).
  - specialize (Hin _ _ _ Ht). rewrite fn_lookup_insert in Hin. done.
  - pose proof (i_pc _ Hinv t) as Hp. cbn in Hp. rewrite Ht in Hp. destruct Hp as [_ [Hu _]%List.Forall_cons_iff].
    apply (Hu s).
  - unfold MmapLock.forward in Hf. destruct c; [destruct (MmapLock.owned _)|..]; by injection Hf as <- _.
Qed.

(** What a handler's account of its beginning is worth. *)
Record begun (h : handler) : Prop := {
  bg_ok : mm_ok (h_st h);
  bg_sound : table_sound (h_from h);
  bg_visible : visible (h_from h) (carve (h_st h));
  bg_quiet : h_quiet h = true -> shows (word (h_from h)) (carve (h_st h)) }.

Record handler_ok (w : table) (s : mm) (h : handler) : Prop := {
  ho_begun : begun h;
  ho_evolves : evolves (h_from h) w;
  ho_extends : extends (carve (h_st h)) (carve s);
  ho_loads : (h_loads h <= all_loads)%nat /\ loads_in (fun _ => True) (all_loads - h_loads h) (h_prog h);
  ho_wp : look (h_prog h) w (found (h_from h) (h_addr h)) }.

Record report_ok (x : report) : Prop := {
  rp_begun : begun (r_handler x);
  rp_evolves : evolves (h_from (r_handler x)) (r_to x);
  rp_extends : extends (carve (h_st (r_handler x))) (carve (r_st x));
  rp_visible : visible (r_to x) (carve (r_st x));
  rp_loads : (h_loads (r_handler x) <= all_loads)%nat;
  rp_found : found (h_from (r_handler x)) (h_addr (r_handler x)) (r_answer x) (r_to x) }.

(** The section of thread [t], or no section. *)
Definition section_ok (b : MmapLock.world) (w : table) (run : option (nat * prog answer MmapLock.verdict)) : Prop :=
  match run with
  | None => shows (word w) (carve (st b))
  | Some (t, p) => finite p /\ exists c v, pcs b t = MmapLock.Releasing c v /\
      wp act table_sound eq evolves p w tt (fun v' w1 _ => v' = v /\ shows (word w1) (carve (st b)))
  end.

Record race_ok (r : race) : Prop := {
  ro_base : inv (base r);
  ro_sound : table_sound (tbl r);
  ro_section : section_ok (base r) (tbl r) (running r);
  ro_handlers : Forall (handler_ok (tbl r) (st (base r))) (handlers r);
  ro_reports : Forall report_ok (reports r) }.

Lemma act_total e w t : is_Some (act e tt w t).
Proof. destruct e; cbn; eauto. Qed.

Lemma rtc_evolves w w' : rtc evolves w w' -> evolves w w'.
Proof. induction 1; [reflexivity|by etrans]. Qed.

(** A section gets to its end, and what is visible on the way is of the list
    it will leave. *)
Lemma section_finishes b w t p :
  table_sound w -> section_ok b w (Some (t, p)) ->
  exists c v w', pcs b t = MmapLock.Releasing c v /\ psteps act tt (w, tt, p) (w', tt, Ret v) /\
    table_sound w' /\ evolves w w' /\ shows (word w') (carve (st b)).
Proof.
  intros Hs (Hf & c & v & Hpc & Hwp).
  destruct (wp_finishes act table_sound eq evolves tt p w tt _ act_total Hf Hs Hwp)
    as (v' & w' & [] & Hrun & Hs' & He & -> & Hsh).
  exists c, v, w'. do 3 (split; [done|]). split; [by apply rtc_evolves|done].
Qed.

Lemma section_visible b w run : table_sound w -> section_ok b w run -> visible w (carve (st b)).
Proof.
  destruct run as [[t p]|]; intros Hs Hok; [|by apply shows_visible].
  destruct (section_finishes _ _ _ _ Hs Hok) as (_ & _ & w' & _ & _ & _ & He & Hsh).
  eapply visible_evolves; [exact He|by apply shows_visible].
Qed.

Lemma handler_ok_mono w w' s s' h :
  evolves w w' -> table_sound w' -> extends (carve s) (carve s') -> handler_ok w s h -> handler_ok w' s' h.
Proof.
  intros He Hs Hx [A B C D E]. constructor; [done|by etrans|by etrans|done|].
  eapply wp_rely; [apply _|exact He|exact Hs|exact E].
Qed.

Lemma handlers_mono w w' s s' hs :
  evolves w w' -> table_sound w' -> extends (carve s) (carve s') ->
  Forall (handler_ok w s) hs -> Forall (handler_ok w' s') hs.
Proof. intros He Hs Hx. apply List.Forall_impl. intros h. by apply handler_ok_mono. Qed.

(** A step of a program that only loads. *)
Lemma loads_step {A : Set} P n (p p' : prog answer A) w w' :
  loads_in P n p -> pstep act tt w tt p = Some (w', tt, p') -> w' = w /\ exists m, n = S m /\ loads_in P m p'.
Proof.
  destruct p as [a| |e k|S B body s k]; cbn; try done. destruct n as [|n]; [done|]. intros [He Hk].
  destruct e as [l|]; [|done]. cbn. intros [= <- <-]. eauto.
Qed.

Lemma finite_step {A : Set} (p p' : prog answer A) w w' : finite p -> pstep act tt w tt p = Some (w', tt, p') -> finite p'.
Proof.
  destruct p as [a| |e k|S B body s k]; cbn; try done. intros Hf. destruct e; cbn; intros [= <- <-]; apply Hf.
Qed.

Lemma inv_decided b t c mine s' v :
  pcs b t = MmapLock.Inside c mine -> MmapLock.inside K fuel (st b) c = Ok (s', v) -> inv b ->
  MmapLock.step K fuel b (decided b t c mine s' v) /\ inv (decided b t c mine s' v).
Proof.
  intros Ht Hin Hb. assert (MmapLock.step K fuel b (decided b t c mine s' v)) as Hs.
  { destruct b as [l s p h bb r]. unfold decided. cbn in *. by apply MmapLock.step_inside. }
  split; [done|]. by eapply inv_step.
Qed.

Lemma race_ok_step r r' : rstep r r' -> race_ok r -> race_ok r'.
Proof.
  intros Hstep [Hb Hs Hsec Hh Hr]. pose proof (i_mm _ Hb) as Hmm.
  destruct Hstep as [r w' Hw Hin Hrun|r t c mine s' v Ht Hrun Hin|r t p w' p' Hrun Hp|r t v Hrun|r p
    |r hs1 h hs2 w' p' Hhs Hp|r hs1 h hs2 d Hhs Hp]; cbn in *.
  - pose proof (thread_same _ _ Hw Hb Hin) as Ec. constructor; cbn; [by eapply inv_step|done| | |done].
    + unfold section_ok in *. destruct (running r) as [[t p]|]; [|by rewrite Ec].
      destruct Hsec as (Hf & c & v & Hpc & Hwp). split; [done|]. exists c, v. rewrite (Hrun t p eq_refl), Ec. done.
    + eapply handlers_mono; [reflexivity|done| |exact Hh]. rewrite Ec. reflexivity.
  - destruct (inv_decided _ _ _ _ _ _ Ht Hin Hb) as [Hw Hb']. pose proof (i_pc _ Hb t) as Hpc. rewrite Ht in Hpc.
    destruct Hpc as [Hc _]. rewrite Hrun in Hsec. constructor; cbn; [done|done| | |done].
    + split; [apply section_finite|]. exists c, v. split; [by rewrite fn_lookup_insert|].
      by apply (section_correct shuffle shuffle_perm K fuel (st (base r)) c s' v).
    + eapply handlers_mono; [reflexivity|done| |exact Hh]. by eapply inside_extends.
  - rewrite Hrun in Hsec. destruct Hsec as (Hf & c & v & Hpc & Hwp).
    destruct (wp_step _ _ _ _ p p' tt _ _ tt tt _ Hs Hwp Hp) as (Hs' & He & Hwp').
    assert (evolves (tbl r) w') as He' by (destruct He as [| ->]; [done|reflexivity]).
    constructor; cbn; [done|done| | |done].
    + split; [by eapply finite_step|]. by exists c, v.
    + by eapply handlers_mono.
  - rewrite Hrun in Hsec. destruct Hsec as (_ & c & v' & _ & Hwp). constructor; cbn; try done. by apply Hwp.
  - constructor; cbn; try done. apply List.Forall_app. split; [done|]. constructor; [|constructor].
    constructor; cbn; [constructor; cbn|reflexivity|reflexivity| |by apply look_describe].
    + done.
    + done.
    + by eapply section_visible.
    + intros Hq%bool_decide_eq_true. by rewrite Hq in Hsec.
    + split; [lia|]. rewrite Nat.sub_0_r. apply loads_describe.
  - rewrite Hhs in Hh. apply List.Forall_app in Hh as [Hh1 Hh]. apply List.Forall_cons_iff in Hh as [[A B C [D1 D2] E] Hh2].
    destruct (loads_step _ _ _ _ _ _ D2 Hp) as [-> (m & Em & Hm)].
    destruct (wp_step _ _ _ _ _ _ tt _ _ tt tt _ Hs E Hp) as (_ & _ & E').
    constructor; cbn; try done. apply List.Forall_app. split; [done|]. constructor; [|done]. constructor; cbn; try done; [by destruct A|].
    split; [lia|]. by replace (all_loads - S (h_loads h))%nat with m by lia.
  - rewrite Hhs in Hh. apply List.Forall_app in Hh as [Hh1 Hh]. apply List.Forall_cons_iff in Hh as [[A B C [D1 D2] E] Hh2].
    constructor; cbn; try done; [by apply List.Forall_app|]. apply List.Forall_app. split; [done|]. constructor; [|constructor].
    constructor; cbn; try done; [by eapply section_visible|]. rewrite Hp in E. by apply E.
Qed.

Lemma race_ok_run m r : rtc rstep (initial m) r -> race_ok r.
Proof.
  intros Hrun. assert (race_ok (initial m)) as H0.
  { constructor; cbn; [by apply (inv_run K fuel Hfuel m), rtc_refl| | |constructor|constructor].
    - split; [cbn; lia|]. cbn. intros i Hi. lia.
    - by constructor. }
  induction Hrun as [|r1 r2 r3 Hs _ IH]; [done|]. by apply IH, (race_ok_step r1).
Qed.

(** The threads do what they do in [MmapLock]. *)
Lemma base_run r r' : rtc rstep r r' -> race_ok r -> rtc (MmapLock.step K fuel) (base r) (base r').
Proof.
  induction 1 as [|r1 r2 r3 Hs _ IH]; intros Hok; [apply rtc_refl|]. pose proof (race_ok_step _ _ Hs Hok) as Hok2.
  specialize (IH Hok2). destruct Hs as [r w' Hw Hin Hrun|r t c mine s' v Ht Hrun Hin| | | | |]; try exact IH; cbn in *.
  - by eapply rtc_l.
  - eapply rtc_l; [|exact IH]. apply inv_decided; [done|done|by apply ro_base].
Qed.

(** C16: [src/orbis_mmap.cpp] store by store is [MmapLock]: whatever threads and
    handlers do in any interleaving, the threads take steps of [MmapLock]; with
    no section under way the words of the table are those of its lists; and a
    section under way, left to itself, ends without undefined access with the
    verdict [MmapLock] gave it and leaves the words of the lists [MmapLock] has
    for it. *)
Theorem mmap_sections_refine m r (Hrun : rtc rstep (initial m) r) :
  rtc (MmapLock.step K fuel) (MmapLock.initial m) (base r) /\
  match running r with
  | None => shows (word (tbl r)) (carve (st (base r)))
  | Some (t, p) => exists c v w', pcs (base r) t = MmapLock.Releasing c v /\
      psteps act tt (tbl r, tt, p) (w', tt, Ret v) /\ shows (word w') (carve (st (base r)))
  end.
Proof.
  pose proof (race_ok_run _ _ Hrun) as [Hb Hs Hsec _ _].
  split; [by apply (base_run (initial m) r), (race_ok_run m), rtc_refl|].
  destruct (running r) as [[t p]|]; [|exact Hsec].
  destruct (section_finishes _ _ _ _ Hs Hsec) as (c & v & w' & ? & ? & _ & _ & ?). eauto 8.
Qed.

(** C17: what a crash handler reports about an address is right although it
    takes no lock: a carve-out it names exists, is numbered from one, and holds
    the address at the offset it says; an address it knows nothing of was in
    none of the carve-outs that were visible when it began; and when nobody
    stored to the block list of the carve-out meanwhile, and nobody had begun
    to, the whole answer is that of the table at rest. *)
Theorem crash_reports_right m r (Hrun : rtc rstep (initial m) r) x (Hx : x ∈ reports r) :
  let h := r_handler x in
  let p := h_addr h in
  (h_quiet h = true -> shows (word (h_from h)) (carve (h_st h))) /\
  match r_answer x with
  | Some d => exists j c, carve (r_st x) !! j = Some c /\
      ms_index d = Z.of_nat j + 1 /\ ms_base d = c_va c /\ ms_size d = c_size c /\
      c_va c <= p < c_va c + c_size c /\ ms_offset d = p - c_va c /\
      (forall c0, carve (h_st h) !! j = Some c0 -> carve_at (word (h_from h)) j c0 ->
         changes (r_to x) j = changes (h_from h) j -> Mmap.mmapDirectDescribe (h_st h) p = Some d)
  | None => forall j c, Z.of_nat j < word (h_from h) Carves -> carve (h_st h) !! j = Some c ->
      ~ (c_va c <= p < c_va c + c_size c)
  end.
Proof.
  pose proof (ro_reports _ (race_ok_run _ _ Hrun)) as Hr. rewrite list.Forall_forall in Hr.
  destruct (Hr x Hx) as [[Hok _ [V1 V2] Hq] He Hext [W1 W2] _ Hf]. cbn zeta. split; [exact Hq|].
  destruct (r_answer x) as [d|]; cbn [found] in Hf.
  - destruct Hf as (j & b & Hj & Hp & -> & Hb).
    destruct (lookup_lt_is_Some_2 (carve (r_st x)) j) as [c Hc]; [lia|]. exists j, c. split; [done|].
    destruct (W2 j c Hj Hc) as [Ev Ez]. rewrite Ev, Ez in *.
    do 3 (split; [by destruct b as [[[]]|]|]). split; [done|]. split; [by destruct b as [[[]]|]|].
    intros c0 Hc0 Hat Hch. destruct (extends_lookup _ _ _ _ Hext Hc0) as (c' & Hc' & E1 & E2).
    assert (c' = c) as -> by congruence. rewrite E1, E2 in *.
    eapply describe_exact; [by apply Hok|done|lia|exact Hat|by apply Hb].
  - intros j c Hj Hc. destruct (V2 j c Hj Hc) as [<- <-]. by apply Hf.
Qed.

(** C18: a crash handler cannot be held up: whatever the threads have stopped in
    the middle of, its next step is always possible and stores nothing, and
    after at most 4,664 loads it has its answer. *)
Theorem crash_handler_returns m r (Hrun : rtc rstep (initial m) r) :
  all_loads = 4664%nat /\
  (forall x, x ∈ reports r -> (h_loads (r_handler x) <= all_loads)%nat) /\
  (forall hs1 h hs2, handlers r = hs1 ++ h :: hs2 ->
     (h_loads h <= all_loads)%nat /\
     ((exists d, h_prog h = Ret d /\
         rstep r (set_handlers r (hs1 ++ hs2) (reports r ++ [mk_report h (st (base r)) (tbl r) d]))) \/
      ((h_loads h < all_loads)%nat /\ exists p',
         rstep r (mk_race (base r) (tbl r) (running r) (hs1 ++ looked h p' :: hs2) (reports r))))).
Proof.
  pose proof (race_ok_run _ _ Hrun) as [_ _ _ Hh Hr]. split; [reflexivity|]. split.
  - intros x Hx. rewrite list.Forall_forall in Hr. by apply (Hr x Hx).
  - intros hs1 h hs2 Ehs. rewrite Ehs in Hh. apply List.Forall_app in Hh as [_ [Hh _]%List.Forall_cons_iff].
    destruct Hh as [_ _ _ [Hle Hl] _]. split; [done|].
    destruct (h_prog h) as [d| |e k|S B body s k] eqn:Ep; [left|done|right|done].
    + exists d. split; [done|]. by apply step_report.
    + cbn in Hl. destruct (all_loads - h_loads h)%nat eqn:En; [done|]. destruct Hl as [He Hl]. split; [lia|].
      destruct e as [l|]; [|done]. exists (k (word (tbl r) l)). apply step_look; [done|]. by rewrite Ep.
Qed.
End run.

(** ** Concrete runs *)

Section demo.

(** [n] steps of one program, nobody else moving. *)
Fixpoint advance {A : Set} (n : nat) (x : table * prog answer A) : table * prog answer A :=
  match n with
  | O => x
  | S n => match pstep act tt x.1 tt x.2 with Some (w, _, p) => advance n (w, p) | None => x end
  end.

Context (K : kernel) (fuel : nat) (shuffle : list (loc * Z) -> list (loc * Z)).
Local Abbreviation rstep := (MmapRace.step K fuel shuffle).

Lemma advance_section n b w t p hs rs :
  let x := advance n (w, p) in
  rtc rstep (mk_race b w (Some (t, p)) hs rs) (mk_race b x.1 (Some (t, x.2)) hs rs).
Proof.
  revert w p. induction n as [|n IH]; intros w p; cbn [advance]; [apply rtc_refl|]. cbn [fst snd].
  destruct (pstep act tt w tt p) as [[[w' []] p']|] eqn:E; [|apply rtc_refl].
  eapply rtc_l; [apply (step_section K fuel shuffle _ t p w' p'); [reflexivity|exact E]|]. apply IH.
Qed.

Lemma advance_handler n b w run a s f q k p rs :
  let x := advance n (w, p) in
  exists k', rtc rstep (mk_race b w run [mk_handler a s f q k p] rs) (mk_race b x.1 run [mk_handler a s f q k' x.2] rs).
Proof.
  revert w k p. induction n as [|n IH]; intros w k p; cbn [advance fst snd]; [eexists; apply rtc_refl|].
  destruct (pstep act tt w tt p) as [[[w' []] p']|] eqn:E; [|eexists; apply rtc_refl].
  destruct (IH w' (S k) p') as [k' Hk]. exists k'. cbn in Hk.
  eapply rtc_l; [|exact Hk]. set (h := mk_handler a s f q k p).
  by apply (step_look K fuel shuffle (mk_race b w run [h] rs) [] h [] w' p').
Qed.

Lemma reports_at b w run a s f q k d rs :
  MmapLock.st b = s ->
  rstep (mk_race b w run [mk_handler a s f q k (Ret d)] rs)
    (mk_race b w run [] (rs ++ [mk_report (mk_handler a s f q k (Ret d)) s w d])).
Proof.
  intros <-. set (h := mk_handler _ _ _ _ _ _).
  exact (step_report K fuel shuffle (mk_race b w run [h] rs) [] h [] d eq_refl eq_refl).
Qed.
End demo.

(** A used block, a free one, a used one at 32 KiB, and the rest. *)
Definition demo_table : mm :=
  let map s := (__mmap console s 0 16384 3 0x1002 (-1) 0).1 in
  match __munmap console 1600 (map (map (map (Mmap.initial (fun _ => 5))))) (2 ^ 32 + 16384) 16384 with
  | Ok (s, _) => s
  | _ => Mmap.initial (fun _ => 5)
  end.

Definition words_of (cs : list carve_out) : table :=
  mk_table (fun l => match l with
    | Carves => Z.of_nat (length cs)
    | Va i => match cs !! i with Some c => c_va c | None => 0 end
    | Phys i => match cs !! i with Some c => c_phys c | None => 0 end
    | Size i => match cs !! i with Some c => c_size c | None => 0 end
    | Count i => match cs !! i with Some c => Z.of_nat (length (c_blk c)) | None => 0 end
    | Blk f i b =>
        match cs !! i with
        | Some c => match c_blk c !! b, f with
                    | Some x, FOff => b_off x
                    | Some x, FSize => b_size x
                    | Some x, FUsed => b_used x
                    | None, _ => 0
                    end
        | None => 0
        end
    end) (fun _ => O).

Lemma words_of_shows cs : shows (word (words_of cs)) cs.
Proof.
  constructor; [done|]. intros i c Hi. constructor; cbn; rewrite ?Hi; try done.
  split; [cbn; by rewrite Hi|]. intros b x Hx. unfold block_at. cbn. by rewrite Hi, Hx.
Qed.

(** The block line of a crash report may be wrong about more than an offset.
    The address is in a block that is live before, during and after another
    thread's [munmap] of the first block; between the handler's test of the
    block and its load of [used] the blocks move, and the handler says that
    the address is in memory that was freed. *)
Example torn_look :
  let x := 2 ^ 32 + 32768 in
  let freeing := section console 1600 id demo_table (MmapLock.CMunmap (2 ^ 32) 16384) in
  let h := advance 18 (words_of (carve demo_table), mmapDirectDescribe (x + 5)) in
  let w := advance 100 (h.1, freeing) in
  live (carve demo_table) x 16384 /\ w.2 = Ret MmapLock.Answer /\
  (exists s', MmapLock.inside console 1600 demo_table (MmapLock.CMunmap (2 ^ 32) 16384) = Ok (s', MmapLock.Answer) /\
     live (carve s') x 16384 /\
     option_map ms_used (Mmap.mmapDirectDescribe s' (x + 5)) = Some true) /\
  option_map ms_used (Mmap.mmapDirectDescribe demo_table (x + 5)) = Some true /\
  (advance 100 (w.1, h.2)).2 = Ret (Some (mk_mspan 1 (2 ^ 32) CarveBytes 32773 true false 49152 (CarveBytes - 49152))).
Proof.
  cbn zeta. split; [|split; [|split; [|split]]].
  - assert (carve demo_table = [mk_carve (2 ^ 32) (2 ^ 32) CarveBytes
      [mk_block 0 16384 1; mk_block 16384 16384 0; mk_block 32768 16384 1; mk_block 49152 (CarveBytes - 49152) 0]]) as ->
      by (vm_compute; reflexivity).
    eexists. split; [by apply list_elem_of_here|]. exists (mk_block 32768 16384 1). split; [set_solver|done].
  - vm_compute. reflexivity.
  - pose (cs := [mk_carve (2 ^ 32) (2 ^ 32) CarveBytes
      [mk_block 0 32768 0; mk_block 32768 16384 1; mk_block 49152 (CarveBytes - 49152) 0]]).
    assert (match MmapLock.inside console 1600 demo_table (MmapLock.CMunmap (2 ^ 32) 16384) with
            | Ok (s', v) => Some (carve s', v) | _ => None end = Some (cs, MmapLock.Answer)) as E by (vm_compute; reflexivity).
    destruct (MmapLock.inside _ _ _ _) as [[s' v]| |]; try done. injection E as Ec ->. exists s'. split; [done|].
    unfold Mmap.mmapDirectDescribe. rewrite Ec. split; [|vm_compute; reflexivity].
    eexists. split; [by apply list_elem_of_here|]. exists (mk_block 32768 16384 1). split; [set_solver|done].
  - vm_compute. reflexivity.
  - vm_compute. reflexivity.
Qed.

(** Two threads map a block each; while the second one splits the free block,
    a handler looks at an address in the first one's. *)
Section demo_run.
Import MmapLock.
Local Abbreviation rstep := (MmapRace.step console 1600 id).

(** Thread [t] calls and gets the free lock. *)
Lemma gets_in t s p h b r w hs rs :
  p t = Out ->
  exists p', rtc rstep (mk_race (mk_world 0 s p h b r) w None hs rs)
    (mk_race (mk_world 1 (run_updates (updates demo_call) s) p' h b r) w None hs rs) /\
    p' t = MmapLock.Inside demo_call false /\ forall u, u <> t -> p' u = p u.
Proof.
  intros Ht.
  assert (forall (p1 : nat -> pc) P l l' s s',
    MmapLock.step console 1600 (mk_world l s p1 h b r) (mk_world l' s' (<[t := P]> p1) h b r) ->
    (forall c mine, p1 t <> Inside c mine) ->
    rstep (mk_race (mk_world l s p1 h b r) w None hs rs) (mk_race (mk_world l' s' (<[t := P]> p1) h b r) w None hs rs)) as Hmove.
  { intros p1 P l l' s1 s' Hs Hin. apply (step_thread console 1600 id (mk_race (mk_world l s1 p1 h b r) w None hs rs)); [exact Hs| |done].
    cbn. intros u c mine Hu. destruct (decide (t = u)) as [<-|Hne]; [by destruct (Hin c mine)|by rewrite fn_lookup_insert_ne]. }
  eexists. split; [|split].
  - eapply rtc_l; [apply Hmove; [apply (step_call _ _ t demo_call); [exact Ht|done]|intros c mine; by rewrite Ht]|].
    do 3 (eapply rtc_l; [apply Hmove; [apply (MmapLock.step_update _ _ t demo_call false); apply fn_lookup_insert|intros c mine; by rewrite fn_lookup_insert]|]).
    eapply rtc_l; [apply Hmove; [apply (MmapLock.step_enter _ _ t demo_call false); apply fn_lookup_insert|intros c mine; by rewrite fn_lookup_insert]|].
    eapply rtc_l; [apply Hmove; [apply (MmapLock.step_acquire _ _ t demo_call false 0 false _ 1 0 Got); [apply fn_lookup_insert|reflexivity]|intros c mine; by rewrite fn_lookup_insert]|].
    apply rtc_refl.
  - apply fn_lookup_insert.
  - intros u Hu. by rewrite !fn_lookup_insert_ne by done.
Qed.

Definition state_of (s : mm) (o : outcome (mm * verdict)) : mm := match o with Ok (s, _) => s | _ => s end.
Definition verdict_of (o : outcome (mm * verdict)) : option verdict := match o with Ok (_, v) => Some v | _ => None end.

Lemma outcome_of s o v : verdict_of o = Some v -> o = Ok (state_of s o, v).
Proof. destruct o as [[s' v']| |]; cbn; congruence. Qed.

Definition demo_s0 : mm := run_updates (updates demo_call) (Mmap.initial (fun _ => 5)).
Definition demo_s1 : mm := state_of demo_s0 (inside console 1600 demo_s0 demo_call).
Definition demo_s2 : mm := run_updates (updates demo_call) demo_s1.
Definition demo_s3 : mm := state_of demo_s2 (inside console 1600 demo_s2 demo_call).
Definition demo_w1 := advance 200 (zeroed, section console 1600 id demo_s0 demo_call).
Definition demo_w2 := advance 16 (demo_w1.1, section console 1600 id demo_s2 demo_call).
Definition demo_answer : span := mk_mspan 1 demo_block CarveBytes 5 true true 0 16384.
Definition demo_end : table := (advance 100 (demo_w2.1, MmapRace.mmapDirectDescribe (demo_block + 5))).1.

Lemma handler_demo_reached : exists r k,
  rtc rstep (MmapRace.initial (fun _ => 5)) r /\ running r = Some (1%nat, demo_w2.2) /\ handlers r = [] /\
  reports r = [mk_report (mk_handler (demo_block + 5) demo_s3 demo_w2.1 false k (Ret (Some demo_answer)))
    demo_s3 demo_end (Some demo_answer)].
Proof.
  destruct (gets_in 0 (Mmap.initial (fun _ => 5)) (fun _ => Out) ∅ false [] zeroed [] [] eq_refl) as (p0 & R0 & H0 & E0).
  destruct (gets_in 1 demo_s1 (<[0%nat := Zeroing demo_call demo_block 16384 0]> (<[0%nat := Releasing demo_call (Serve demo_block)]> p0))
    ∅ false [] demo_w1.1 [] []) as (p1 & R1 & H1 & E1).
  { rewrite !fn_lookup_insert_ne by done. by rewrite E0. }
  set (p2 := <[1%nat := Releasing demo_call (Serve (demo_block + 16384))]> p1).
  assert (exists b2, b2 = mk_world 1 demo_s3 p2 ∅ false [] /\ st b2 = demo_s3) as (b2 & Eb & Est) by (eexists; split; reflexivity).
  destruct (advance_handler console 1600 id 100 b2 demo_w2.1 (Some (1%nat, demo_w2.2)) (demo_block + 5) demo_s3 demo_w2.1 false 0
    (MmapRace.mmapDirectDescribe (demo_block + 5)) []) as [k Rh].
  assert ((advance 100 (demo_w2.1, MmapRace.mmapDirectDescribe (demo_block + 5))).2 = Ret (Some demo_answer)) as L2
    by (vm_compute; reflexivity).
  assert ((advance 100 (demo_w2.1, MmapRace.mmapDirectDescribe (demo_block + 5))).1 = demo_end) as L3 by (unfold demo_end; reflexivity).
  rewrite L2, L3 in Rh. clear L2 L3.
  assert (demo_w1.2 = Ret (Serve demo_block)) as L1 by (vm_compute; reflexivity).
  assert (forall b, rtc rstep (mk_race b zeroed (Some (0%nat, section console 1600 id demo_s0 demo_call)) [] [])
    (mk_race b demo_w1.1 (Some (0%nat, demo_w1.2)) [] [])) as S0 by (intros b; exact (advance_section console 1600 id 200 b _ _ _ _ _)).
  assert (forall b, rtc rstep (mk_race b demo_w1.1 (Some (1%nat, section console 1600 id demo_s2 demo_call)) [] [])
    (mk_race b demo_w2.1 (Some (1%nat, demo_w2.2)) [] [])) as S1 by (intros b; exact (advance_section console 1600 id 16 b _ _ _ _ _)).
  set (x := mk_report (mk_handler (demo_block + 5) demo_s3 demo_w2.1 false k (Ret (Some demo_answer)))
    demo_s3 demo_end (Some demo_answer)).
  exists (mk_race b2 demo_end (Some (1%nat, demo_w2.2)) [] [x]), k. split; [|exact (conj eq_refl (conj eq_refl eq_refl))].
  - etrans; [exact R0|]. eapply rtc_l.
    { apply (MmapRace.step_enter console 1600 id _ 0 demo_call false demo_s1 (Serve demo_block)); [exact H0|done|].
      apply outcome_of. vm_compute. reflexivity. }
    etrans; [apply S0|]. eapply rtc_l.
    { apply (step_leave console 1600 id _ 0 (Serve demo_block)). cbn [running]. rewrite L1. reflexivity. }
    eapply rtc_l.
    { apply (step_thread console 1600 id _ (mk_world 0 demo_s1
          (<[0%nat := Zeroing demo_call demo_block 16384 0]> (<[0%nat := Releasing demo_call (Serve demo_block)]> p0)) ∅ false []));
        cbn [base running set_tbl]; [|..|done].
      - exact (MmapLock.step_release console 1600 0 demo_call (Serve demo_block) 1 demo_s1 _ ∅ false []
          (fn_lookup_insert p0 0%nat (Releasing demo_call (Serve demo_block)))).
      - cbn. intros t c mine Ht. destruct (decide (0%nat = t)) as [<-|Hne]; [by rewrite fn_lookup_insert in Ht|].
        by rewrite fn_lookup_insert_ne. }
    etrans; [exact R1|]. eapply rtc_l.
    { apply (MmapRace.step_enter console 1600 id _ 1 demo_call false demo_s3 (Serve (demo_block + 16384))); [exact H1|done|].
      apply outcome_of. vm_compute. reflexivity. }
    etrans; [apply S1|].
    eapply rtc_l; [apply (step_fault console 1600 id _ (demo_block + 5))|].
    rewrite Eb in Rh. etrans; [exact Rh|]. rewrite <- Eb. apply rtc_once.
    exact (reports_at console 1600 id b2 demo_end (Some (1%nat, demo_w2.2)) (demo_block + 5) demo_s3 demo_w2.1 false k
      (Some demo_answer) [] Est).
Qed.

Lemma demo_fuel : (MaxBlocks < 1600)%nat. Proof. unfold MaxBlocks. lia. Qed.
Lemma demo_order (ws : list (loc * Z)) : id ws ≡ₚ ws. Proof. reflexivity. Qed.

Lemma mmap_sections_refine_witness :
  exists r p, rtc rstep (MmapRace.initial (fun _ => 5)) r /\ running r = Some (1%nat, p) /\
    exists c v w', pcs (base r) 1 = Releasing c v /\
      psteps act tt (tbl r, tt, p) (w', tt, Ret v) /\ shows (word w') (carve (st (base r))).
Proof.
  destruct handler_demo_reached as (r & k & Hr & Hrun & _). exists r, demo_w2.2. split; [exact Hr|]. split; [exact Hrun|].
  pose proof (proj2 (mmap_sections_refine console 1600 id demo_fuel demo_order (fun _ => 5) r Hr)) as H.
  rewrite Hrun in H. exact H.
Defined.

Lemma crash_reports_right_witness :
  exists r x, rtc rstep (MmapRace.initial (fun _ => 5)) r /\ x ∈ reports r /\ r_answer x = Some demo_answer /\
    exists j c, carve (r_st x) !! j = Some c /\ 1 = Z.of_nat j + 1 /\ demo_block = c_va c /\
      c_va c <= demo_block + 5 < c_va c + c_size c.
Proof.
  destruct handler_demo_reached as (r & k & Hr & _ & _ & Hx).
  eassert (_ ∈ reports r) as Hin by (rewrite Hx; apply list_elem_of_here).
  eexists r, _. split; [exact Hr|]. split; [exact Hin|]. split; [reflexivity|].
  destruct (proj2 (crash_reports_right console 1600 id demo_fuel demo_order (fun _ => 5) r Hr _ Hin))
    as (j & c & Hc & H1 & H2 & _ & H3 & _).
  exists j, c. split; [exact Hc|]. split; [exact H1|]. split; [exact H2|exact H3].
Defined.

(** Another fault, while thread 1 is stopped in the middle of its split. *)
Lemma crash_handler_returns_witness :
  exists r h, rtc rstep (MmapRace.initial (fun _ => 5)) r /\ running r = Some (1%nat, demo_w2.2) /\ handlers r = [h] /\
    exists r', rstep r r'.
Proof.
  destruct handler_demo_reached as (r & k & Hr & Hrun & Hh & _).
  pose (r2 := set_handlers r [faulted 7 r] (reports r)).
  assert (rtc rstep (MmapRace.initial (fun _ => 5)) r2) as Hr2.
  { eapply rtc_r; [exact Hr|]. pose proof (step_fault console 1600 id r 7) as Hs. rewrite Hh in Hs. exact Hs. }
  exists r2, (faulted 7 r). split; [exact Hr2|]. split; [exact Hrun|]. split; [reflexivity|].
  destruct (crash_handler_returns console 1600 id demo_fuel demo_order (fun _ => 5) r2 Hr2) as (_ & _ & H).
  destruct (H [] (faulted 7 r) [] eq_refl) as (_ & [(d & _ & Hs)|(_ & p' & Hs)]); eexists; exact Hs.
Defined.
End demo_run.

(** The line that announces a carve-out numbers it from zero, the description
    of an address in it from one. *)
Example banner_number :
  Taken 0 CarveBytes (2 ^ 32) (2 ^ 32) CarveBytes ∈ lines demo_state /\
  option_map ms_index (Mmap.mmapDirectDescribe demo_state (2 ^ 32)) = Some 1.
Proof.
  split; [|vm_compute; reflexivity].
  assert (lines demo_state = [Taken 0 CarveBytes (2 ^ 32) (2 ^ 32) CarveBytes; Active]) as -> by (vm_compute; reflexivity).
  apply list_elem_of_here.
Qed.
