(* ===== verification/Env.v ===== *)
(** [src/orbis_env.cpp]: knobs read from files of [KEY=VALUE] lines, for an
    image whose own environment the operator cannot reach.

    Strings are lists of bytes without the terminator; the four files and
    [getenv] are parameters.  [load_file] works in place on a 512-byte line;
    its effect on the table is what is modelled. *)
From Stdlib Require Import String.
From stdpp Require Import prelude list numbers.
From S2P Require Import Prelude Report.
Open Scope Z_scope.

Module Env.

Definition kMaxEntries : nat := 64.
Definition kMaxLine : nat := 512.
Definition key_size : nat := 64.
Definition val_size : nat := 256.

Record entry := mk_entry { key : list Z; val : list Z }.

Record env := mk_env { g_entry : list entry; g_loaded : bool }.

Definition initial : env := mk_env [] false.

(** The files on /data and the process's own environment. *)
Record host := mk_host { file : string -> option (list Z); getenv : list Z -> option (list Z) }.

Definition is_blank (c : Z) : bool := (c =? 32) || (c =? 9).
Definition is_tail (c : Z) : bool := (c =? 32) || (c =? 9) || (c =? 10) || (c =? 13).

Fixpoint trim_front (s : list Z) : list Z :=
  match s with [] => [] | c :: r => if is_blank c then trim_front r else s end.

(** The loop runs down from the end of the string. *)
Fixpoint trim_end (r : list Z) : list Z :=
  match r with [] => [] | c :: q => if is_tail c then trim_end q else r end.
Definition trim_back (s : list Z) : list Z := rev (trim_end (rev s)).

(** [strcmp(a, b) == 0] *)
Definition streq (a b : list Z) : bool := bool_decide (a = b).

(** [snprintf(dst, n, "%s", s)] *)
Definition fit (n : nat) (s : list Z) : list Z := take (n - 1) s.
Arguments fit : simpl never.

(** The loop of [store]: [None] when no entry has the key. *)
Fixpoint replace (es : list entry) (k v : list Z) : option (list entry) :=
  match es with
  | [] => None
  | e :: r =>
      if streq (key e) k then Some (mk_entry (key e) (fit val_size v) :: r)
      else match replace r k v with Some r' => Some (e :: r') | None => None end
  end.

Definition store (es : list entry) (k v : list Z) : list entry :=
  match replace es k v with
  | Some es' => es'
  | None =>
      if (kMaxEntries <=? length es)%nat then es
      else es ++ [mk_entry (fit key_size k) (fit val_size v)]
  end.

(** [fgets] with room for [n] bytes besides the terminator: the bytes stored
    and the rest of the file. *)
Fixpoint fgets (n : nat) (data : list Z) : list Z * list Z :=
  match n, data with
  | O, _ | _, [] => ([], data)
  | S n, c :: r => if c =? 10 then ([c], r) else let '(l, q) := fgets n r in (c :: l, q)
  end.

(** The C string at the start of a buffer. *)
Fixpoint cstr (s : list Z) : list Z :=
  match s with [] => [] | c :: r => if c =? 0 then [] else c :: cstr r end.

(** [strchr(key, '=')]: what is before it and what is behind. *)
Fixpoint split_eq (s : list Z) : option (list Z * list Z) :=
  match s with
  | [] => None
  | c :: r => if c =? 61 then Some ([], r)
              else match split_eq r with Some (a, b) => Some (c :: a, b) | None => None end
  end.

(** The body of the loop of [load_file], up to the call of [store]. *)
Definition parse_line (line : list Z) : option (list Z * list Z) :=
  let k := trim_front (cstr line) in
  match k with
  | [] => None
  | c :: _ =>
      if (c =? 35) || (c =? 10) || (c =? 13) then None else
      match split_eq k with
      | None => None
      | Some (k, v) =>
          let v := trim_front v in
          let k := trim_back k in
          let v := trim_back v in
          match k with [] => None | _ => Some (k, v) end
      end
  end.

Definition load_file (H : host) (fuel : nat) (es : list entry) (path : string) : outcome (list entry) :=
  match file H path with
  | None => Ok es
  | Some data =>
      p ← while fuel
            (fun p : list Z * list entry => Ok (negb (bool_decide (p.1 = []))))
            (fun p => let '(line, rest) := fgets (kMaxLine - 1) p.1 in
               Ok (rest, match parse_line line with
                         | Some (k, v) => store p.2 k v
                         | None => p.2
                         end))
            (data, es);
      Ok p.2
  end.

Definition env_paths : list string :=
  ["/data/orbis-env.txt"; "/data/tempest-env.txt"; "/data/retroarch-env.txt";
   "/data/retroarch-glcore-env.txt"]%string.

Fixpoint load_files (H : host) (fuel : nat) (es : list entry) (paths : list string)
    : outcome (list entry) :=
  match paths with
  | [] => Ok es
  | p :: ps => es ← load_file H fuel es p; load_files H fuel es ps
  end.

Definition load_once (H : host) (fuel : nat) (g : env) : outcome env :=
  if g_loaded g then Ok g
  else es ← load_files H fuel (g_entry g) env_paths; Ok (mk_env es true).

Fixpoint find_entry (es : list entry) (name : list Z) : option (list Z) :=
  match es with
  | [] => None
  | e :: r => if streq (key e) name then Some (val e) else find_entry r name
  end.

(** The table afterwards and the answer; [name] is [None] for a null pointer. *)
Definition orbis_env_get (H : host) (fuel : nat) (g : env) (name : option (list Z))
    : outcome (env * option (list Z)) :=
  match name with
  | None | Some [] => Ok (g, None)
  | Some n =>
      match getenv H n with
      | Some (c :: v) => Ok (g, Some (c :: v))
      | _ => g ← load_once H fuel g; Ok (g, find_entry (g_entry g) n)
      end
  end.

End Env.
Export Env.

(** ** Types of the table *)

(** What the two arrays of an entry can hold. *)
Record entry_ok (e : entry) : Prop := {
  eo_key : (0 < length (key e) < key_size)%nat;
  eo_val : (length (val e) < val_size)%nat;
  eo_key_chars : Forall (fun c => c <> 0 /\ c <> 61) (key e);
  eo_val_chars : Forall (fun c => c <> 0) (val e) }.

Definition table_ok (es : list entry) : Prop :=
  (length es <= kMaxEntries)%nat /\ Forall entry_ok es.

Lemma fit_length n s : (0 < n)%nat -> (length (fit n s) < n)%nat.
Proof. unfold fit. rewrite length_take. lia. Qed.

Lemma trim_front_suffix s : exists p, s = p ++ trim_front s /\ Forall (fun c => is_blank c = true) p.
Proof.
  induction s as [|c s (p & IH & Hp)]; cbn; [by exists []|].
  destruct (is_blank c) eqn:E; [|by exists []].
  exists (c :: p). split; [by rewrite IH at 1|by constructor].
Qed.

Lemma trim_end_suffix r : exists q, r = q ++ trim_end r /\ Forall (fun c => is_tail c = true) q.
Proof.
  induction r as [|c r (q & IH & Hq)]; cbn; [by exists []|].
  destruct (is_tail c) eqn:E; [|by exists []].
  exists (c :: q). split; [by rewrite IH at 1|by constructor].
Qed.

Lemma trim_back_prefix s : exists q, s = trim_back s ++ q.
Proof.
  unfold trim_back. destruct (trim_end_suffix (rev s)) as (q & Hq & _). exists (rev q).
  rewrite <- rev_app_distr, <- Hq. by rewrite rev_involutive.
Qed.

Lemma trim_front_Forall (P : Z -> Prop) s : Forall P s -> Forall P (trim_front s).
Proof. destruct (trim_front_suffix s) as (p & E & _). intros H. rewrite E in H. apply List.Forall_app in H. tauto. Qed.
Lemma trim_back_Forall (P : Z -> Prop) s : Forall P s -> Forall P (trim_back s).
Proof. destruct (trim_back_prefix s) as (q & E). intros H. rewrite E in H. apply List.Forall_app in H. tauto. Qed.
Lemma cstr_Forall s : Forall (fun c => c <> 0) (cstr s).
Proof. induction s as [|c s IH]; cbn; [constructor|]. destruct (Z.eqb_spec c 0); by constructor. Qed.

Lemma split_eq_spec s a b : split_eq s = Some (a, b) <-> s = a ++ 61 :: b /\ Forall (fun c => c <> 61) a.
Proof.
  revert a. induction s as [|c s IH]; intros a; cbn.
  - split; [done|]. intros [H _]. by destruct a.
  - destruct (Z.eqb_spec c 61) as [->|Hne].
    + split; [intros [= <- <-]; by split|].
      intros [H Ha]. destruct a as [|d a]; cbn in H; [congruence|].
      apply List.Forall_cons_iff in Ha as [Ha _]. congruence.
    + destruct (split_eq s) as [[a' b']|].
      * split.
        { intros [= <- <-]. destruct (proj1 (IH a')) as [-> Ha]; [done|]. split; [done|by constructor]. }
        { intros [H Ha]. destruct a as [|d a]; cbn in H; [congruence|]. injection H as -> H.
          apply List.Forall_cons_iff in Ha as [_ Ha]. specialize (proj2 (IH a) (conj H Ha)). congruence. }
      * split; [done|]. intros [H Ha]. destruct a as [|d a]; cbn in H; [congruence|]. injection H as -> H.
        apply List.Forall_cons_iff in Ha as [_ Ha]. specialize (proj2 (IH a) (conj H Ha)). congruence.
Qed.

Lemma parse_line_types line k v :
  parse_line line = Some (k, v) ->
  k <> [] /\ Forall (fun c => c <> 0 /\ c <> 61) k /\ Forall (fun c => c <> 0) v.
Proof.
  unfold parse_line. pose proof (trim_front_Forall _ _ (cstr_Forall line)) as H0.
  destruct (trim_front (cstr line)) as [|c r]; [done|].
  destruct ((c =? 35) || (c =? 10) || (c =? 13)); [done|].
  destruct (split_eq (c :: r)) as [[a b]|] eqn:E; [|done].
  apply split_eq_spec in E as [E Ha]. rewrite E in H0. apply List.Forall_app in H0 as [Ha0 Hb].
  apply List.Forall_cons_iff in Hb as [_ Hb].
  destruct (trim_back a) as [|d t] eqn:Et; [done|]. intros [= <- <-]. split; [done|].
  rewrite <- Et. split; [apply trim_back_Forall, List.Forall_and; done|].
  by apply trim_back_Forall, trim_front_Forall.
Qed.

Lemma replace_types es k v es' :
  replace es k v = Some es' -> Forall (fun c => c <> 0) v -> table_ok es -> table_ok es'.
Proof.
  intros H Hv [Hl Hes]. assert (length es' = length es /\ Forall entry_ok es') as [E ?]; [|split; [lia|done]].
  clear Hl. revert es' H. induction Hes as [|e es He Hes IH]; intros es'; cbn; [done|].
  destruct (streq (key e) k).
  - intros [= <-]. split; [done|]. constructor; [|done]. destruct He as [K V C D]. constructor; cbn [key val]; try done.
    + apply fit_length. unfold val_size. lia.
    + by apply Forall_take.
  - destruct (replace es k v) as [r|]; [|done]. intros [= <-].
    destruct (IH _ eq_refl). cbn. split; [lia|by constructor].
Qed.

Lemma store_types es k v :
  k <> [] -> Forall (fun c => c <> 0 /\ c <> 61) k -> Forall (fun c => c <> 0) v ->
  table_ok es -> table_ok (store es k v).
Proof.
  intros Hk Hkc Hv Hes. unfold store. destruct (replace es k v) as [es'|] eqn:E.
  { by eapply replace_types. }
  destruct Hes as [Hl Hes]. destruct (Nat.leb_spec kMaxEntries (length es)); [done|].
  split; [rewrite length_app; cbn; lia|]. apply List.Forall_app. split; [done|].
  constructor; [|constructor]. constructor; cbn [key val].
  - split; [|apply fit_length; unfold key_size; lia]. destruct k; [done|]. unfold fit, key_size. cbn. lia.
  - apply fit_length. unfold val_size. lia.
  - by apply Forall_take.
  - by apply Forall_take.
Qed.

Lemma fgets_length n data line rest :
  fgets n data = (line, rest) -> (length line + length rest = length data)%nat.
Proof.
  revert data line. induction n as [|n IH]; intros data line; cbn; [by intros [= <- <-]|].
  destruct data as [|c data]; [by intros [= <- <-]|].
  destruct (c =? 10); [by intros [= <- <-]|].
  destruct (fgets n data) as [l q] eqn:E. intros [= <- <-]. cbn. by rewrite (IH _ _ E).
Qed.

Lemma fgets_progress n data line rest :
  (0 < n)%nat -> data <> [] -> fgets n data = (line, rest) -> (length rest < length data)%nat.
Proof.
  intros Hn Hd H. pose proof (fgets_length _ _ _ _ H). destruct line; [|cbn in *; lia].
  destruct n; [lia|]. destruct data as [|c data]; [done|]. cbn in H.
  destruct (c =? 10); [done|]. by destruct (fgets n data).
Qed.

(** The rule for [load_file]: what holds of the table before and is kept by
    every line that assigns holds afterwards. *)
Lemma load_file_total (P : list entry -> Prop) H fuel es path :
  (forall es line k v, P es -> parse_line line = Some (k, v) -> P (store es k v)) ->
  P es -> (length (default [] (file H path)) < fuel)%nat -> runs (load_file H fuel es path) P.
Proof.
  intros Hstep Hes Hf. unfold load_file. destruct (file H path) as [data|]; [|done]. cbn in Hf.
  rewrite runs_bind.
  apply (while_total (fun p : list Z * list entry => P p.2) (fun p => length p.1)); [|done|done].
  intros [d t] HP. cbn [fst snd] in *. case_bool_decide as Hd; cbn [negb]; [done|].
  destruct (fgets (kMaxLine - 1) d) as [line rest] eqn:E. cbn [runs fst snd].
  apply fgets_progress in E; [|unfold kMaxLine; lia|done]. split; [|done].
  destruct (parse_line line) as [[k v]|] eqn:Ep; [|done]. by eapply Hstep.
Qed.

Definition enough (H : host) (fuel : nat) : Prop :=
  Forall (fun p => (length (default [] (file H p)) < fuel)%nat) env_paths.

Lemma load_files_total (P : list entry -> Prop) H fuel es paths :
  (forall es line k v, P es -> parse_line line = Some (k, v) -> P (store es k v)) ->
  P es -> Forall (fun p => (length (default [] (file H p)) < fuel)%nat) paths ->
  runs (load_files H fuel es paths) P.
Proof.
  intros Hstep. revert es. induction paths as [|p ps IH]; intros es Hes Hf; cbn [load_files]; [done|].
  apply List.Forall_cons_iff in Hf as [Hp Hf]. rewrite runs_bind.
  eapply runs_mono; [by apply (load_file_total P)|]. intros t Ht. by apply IH.
Qed.

(** C40: whatever bytes the files hold, loading them returns, and every entry
    of the table fits its arrays: at most 64 entries, keys of 1 to 63 bytes
    without NUL or [=], values of at most 255 bytes without NUL. *)
Theorem load_once_typed (H : host) (fuel : nat) (g : env) :
  enough H fuel -> table_ok (g_entry g) ->
  runs (load_once H fuel g) (fun g' => g_loaded g' = true /\ table_ok (g_entry g')).
Proof.
  intros Hf Hg. unfold load_once. destruct (g_loaded g) eqn:E; [done|].
  rewrite runs_bind. eapply runs_mono.
  - apply (load_files_total table_ok); [|exact Hg|exact Hf].
    intros es line k v Hes Hp. destruct (parse_line_types _ _ _ Hp) as (H1 & H2 & H3). by apply store_types.
  - intros es Hes. by split.
Qed.

(** ** The format, written *)

(** A line as the format's description has it: an assignment with blanks
    around key and value, a comment, or nothing; lines end in LF or CR LF. *)
Inductive source_line :=
  | Assign (b1 k b2 b3 v b4 : list Z)
  | Comment (b1 text : list Z)
  | Empty (b1 : list Z) (cr : bool).

Definition render (l : source_line) : list Z :=
  match l with
  | Assign b1 k b2 b3 v b4 => b1 ++ k ++ b2 ++ 61 :: b3 ++ v ++ b4
  | Comment b1 text => b1 ++ 35 :: text
  | Empty b1 cr => b1 ++ (if cr then [13] else [])
  end.

Definition render_file (ls : list source_line) : list Z := concat ((fun l => render l ++ [10]) <$> ls).

Definition meaning (l : source_line) : option (list Z * list Z) :=
  match l with Assign _ k _ _ v _ => Some (k, v) | _ => None end.

Definition first_not (P : Z -> bool) (s : list Z) : bool :=
  match s with [] => true | c :: _ => negb (P c) end.

Definition blanks (b : list Z) : bool := forallb is_blank b.
Definition no_chars (cs : list Z) (s : list Z) : bool :=
  forallb (fun c => negb (existsb (Z.eqb c) cs)) s.

Definition line_ok (l : source_line) : bool :=
  (length (render l) <? kMaxLine - 1)%nat &&
  match l with
  | Assign b1 k b2 b3 v b4 =>
      blanks b1 && blanks b2 && blanks b3 && forallb (fun c => is_blank c || (c =? 13)) b4 &&
      negb (bool_decide (k = [])) && no_chars [0; 10; 61] k && no_chars [0; 10] v &&
      first_not (fun c => is_blank c || (c =? 35) || (c =? 13)) k && first_not is_tail (rev k) &&
      first_not is_blank v && first_not is_tail (rev v)
  | Comment b1 text => blanks b1 && no_chars [10] text
  | Empty b1 _ => blanks b1
  end.

Lemma trim_front_blanks b s : blanks b = true -> trim_front (b ++ s) = trim_front s.
Proof. induction b as [|c b IH]; cbn; [done|]. intros [-> Hb]%andb_prop. auto. Qed.
Lemma trim_front_fixed s : first_not is_blank s = true -> trim_front s = s.
Proof. destruct s as [|c s]; cbn; [done|]. by destruct (is_blank c). Qed.
Lemma trim_end_tails b s : forallb is_tail b = true -> trim_end (b ++ s) = trim_end s.
Proof. induction b as [|c b IH]; cbn; [done|]. intros [-> Hb]%andb_prop. auto. Qed.
Lemma forallb_rev {A} (f : A -> bool) l : forallb f (rev l) = forallb f l.
Proof. induction l as [|x l IH]; cbn; [done|]. rewrite forallb_app, IH. cbn. rewrite andb_true_r. apply andb_comm. Qed.
Lemma trim_back_tails b s : forallb is_tail b = true -> trim_back (s ++ b) = trim_back s.
Proof. intros Hb. unfold trim_back. rewrite rev_app_distr, trim_end_tails; [done|]. by rewrite forallb_rev. Qed.
Lemma trim_back_fixed s : first_not is_tail (rev s) = true -> trim_back s = s.
Proof.
  unfold trim_back. intros H. rewrite <- (rev_involutive s) at 2. f_equal.
  destruct (rev s) as [|c r]; cbn in *; [done|]. by destruct (is_tail c).
Qed.
Lemma cstr_app a b : Forall (fun c => c <> 0) a -> cstr (a ++ b) = a ++ cstr b.
Proof. induction 1 as [|c a Hc _ IH]; cbn; [done|]. destruct (Z.eqb_spec c 0); [done|]. by rewrite IH. Qed.
Lemma cstr_id a : Forall (fun c => c <> 0) a -> cstr a = a.
Proof. intros H. rewrite <- (app_nil_r a) at 1. by rewrite cstr_app, app_nil_r. Qed.
Lemma no_chars_Forall cs s : no_chars cs s = true -> Forall (fun c => c ∉ cs) s.
Proof.
  unfold no_chars. rewrite forallb_forall. intros H. apply list.Forall_forall. intros c Hc%list_elem_of_In Hin.
  specialize (H c Hc). apply negb_true_iff, not_true_iff_false in H. apply H, existsb_exists.
  exists c. split; [by apply list_elem_of_In|apply Z.eqb_refl].
Qed.
Lemma blanks_tails b : blanks b = true -> forallb is_tail b = true.
Proof. unfold blanks. rewrite !forallb_forall. unfold is_blank, is_tail. intros H c Hc. specialize (H c Hc). lia. Qed.
Lemma blanks_Forall b : blanks b = true -> Forall (fun c => c = 32 \/ c = 9) b.
Proof.
  unfold blanks, is_blank. rewrite forallb_forall, Forall_forall. intros H c Hc. specialize (H c Hc). lia.
Qed.

(** Reading a written line gives what it means. *)
Lemma parse_line_assign b1 k b2 b3 v b4 :
  line_ok (Assign b1 k b2 b3 v b4) = true ->
  parse_line (render (Assign b1 k b2 b3 v b4) ++ [10]) = Some (k, v).
Proof.
  unfold line_ok. rewrite !andb_true_iff. intros (_ & ((((((((((B1 & B2) & B3) & B4) & K) & Kc) & Vc) & Kf) & Kl) & Vf) & Vl)).
  apply no_chars_Forall in Kc, Vc.
  assert (forallb is_tail (b4 ++ [10]) = true) as T4.
  { rewrite forallb_app, andb_true_iff. split; [|done]. revert B4. rewrite !forallb_forall.
    intros H c Hc. specialize (H c Hc). unfold is_blank, is_tail in *. lia. }
  unfold parse_line. cbn [render].
  assert (Hcs : cstr ((b1 ++ k ++ b2 ++ 61 :: b3 ++ v ++ b4) ++ [10]) =
    b1 ++ k ++ b2 ++ 61 :: b3 ++ v ++ b4 ++ [10]).
  { rewrite cstr_id; [by rewrite <- ?app_assoc; cbn; rewrite <- ?app_assoc|].
    rewrite !List.Forall_app, List.Forall_cons_iff, !List.Forall_app.
    pose proof (blanks_Forall _ B1) as F1. pose proof (blanks_Forall _ B2) as F2. pose proof (blanks_Forall _ B3) as F3.
    repeat split; try (eapply Forall_impl; [eassumption|]; set_solver by lia);
      try (eapply List.Forall_impl; [|eassumption]; cbn; set_solver by lia).
    all: try (repeat constructor; done).
    apply List.Forall_forall. intros c Hc. rewrite forallb_forall in B4. specialize (B4 c Hc).
    unfold is_blank in B4. lia. }
  rewrite Hcs, trim_front_blanks by done. clear Hcs.
  case_bool_decide as Hk; [done|]. destruct k as [|c k']; [done|]. cbn [app].
  cbn in Kf. rewrite trim_front_fixed; [|cbn; by destruct (is_blank c)].
  destruct ((c =? 35) || (c =? 10) || (c =? 13)) eqn:Hc.
  { apply List.Forall_cons_iff in Kc as [Kc _].
    assert (c <> 10) by set_solver. unfold is_blank in Kf. lia. }
  rewrite app_comm_cons. rewrite app_assoc.
  assert (split_eq (((c :: k') ++ b2) ++ 61 :: b3 ++ v ++ b4 ++ [10]) = Some ((c :: k') ++ b2, b3 ++ v ++ b4 ++ [10])) as ->.
  { apply split_eq_spec. split; [done|]. apply List.Forall_app. split.
    - eapply List.Forall_impl; [|exact Kc]. cbn. set_solver.
    - eapply List.Forall_impl; [|exact (blanks_Forall _ B2)]. cbn. lia. }
  rewrite trim_back_tails by by apply blanks_tails. rewrite (trim_back_fixed (c :: k')) by done.
  rewrite trim_front_blanks by done. f_equal. f_equal.
  destruct v as [|d v'].
  - cbn [app]. clear -T4. destruct (trim_front_suffix (b4 ++ [10])) as (p & E & _).
    rewrite E, forallb_app, andb_true_iff in T4. destruct T4 as [_ T4].
    rewrite <- (app_nil_l (trim_front _)). by rewrite trim_back_tails.
  - rewrite trim_front_fixed by done. by rewrite trim_back_tails, trim_back_fixed.
Qed.

Lemma parse_line_none l :
  line_ok l = true -> meaning l = None -> parse_line (render l ++ [10]) = None.
Proof.
  unfold line_ok. rewrite andb_true_iff. intros [_ Hl]. destruct l as [|b1 text|b1 cr]; [done|..]; intros _;
    unfold parse_line; cbn [render].
  - apply andb_prop in Hl as [Hb _]. rewrite <- app_assoc, cstr_app.
    2:{ eapply List.Forall_impl; [|exact (blanks_Forall _ Hb)]. cbn. lia. }
    by rewrite trim_front_blanks.
  - rewrite <- app_assoc, cstr_app.
    2:{ eapply List.Forall_impl; [|exact (blanks_Forall _ Hl)]. cbn. lia. }
    rewrite trim_front_blanks by done. by destruct cr.
Qed.

Lemma parse_line_render l : line_ok l = true -> parse_line (render l ++ [10]) = meaning l.
Proof.
  intros H. destruct (meaning l) as [[k v]|] eqn:E; [|by apply parse_line_none].
  destruct l as [b1 k' b2 b3 v' b4| |]; try done. injection E as -> ->. by apply parse_line_assign.
Qed.

Lemma no10_app a b : Forall (fun c => c <> 10) a -> Forall (fun c => c <> 10) b -> Forall (fun c : Z => c <> 10) (a ++ b).
Proof. intros. by apply List.Forall_app. Qed.

Lemma blanks_no10 b : blanks b = true -> Forall (fun c => c <> 10) b.
Proof. intros H. eapply List.Forall_impl; [|exact (blanks_Forall _ H)]. cbn. lia. Qed.

Lemma no_chars_no10 cs s : 10 ∈ cs -> no_chars cs s = true -> Forall (fun c => c <> 10) s.
Proof. intros Hi H%no_chars_Forall. eapply List.Forall_impl; [|exact H]. cbn. intros c Hc ->. done. Qed.

Lemma render_one_line l : line_ok l = true -> Forall (fun c => c <> 10) (render l).
Proof.
  unfold line_ok. rewrite andb_true_iff. intros [_ Hl]. destruct l as [b1 k b2 b3 v b4|b1 text|b1 cr]; cbn [render].
  - rewrite !andb_true_iff in Hl. destruct Hl as ((((((((((B1 & B2) & B3) & B4) & _) & Kc) & Vc) & _) & _) & _) & _).
    apply no10_app; [by apply blanks_no10|]. apply no10_app; [by eapply no_chars_no10; [|exact Kc]; set_solver|].
    apply no10_app; [by apply blanks_no10|]. constructor; [done|].
    apply no10_app; [by apply blanks_no10|]. apply no10_app; [by eapply no_chars_no10; [|exact Vc]; set_solver|].
    apply List.Forall_forall. intros c Hc. rewrite forallb_forall in B4. specialize (B4 c Hc).
    unfold is_blank in B4. lia.
  - apply andb_prop in Hl as [Hb Ht]. apply no10_app; [by apply blanks_no10|].
    constructor; [done|]. by eapply no_chars_no10; [|exact Ht]; set_solver.
  - apply no10_app; [by apply blanks_no10|]. destruct cr; repeat constructor; done.
Qed.

Lemma fgets_line n s rest :
  Forall (fun c => c <> 10) s -> (length s < n)%nat -> fgets n (s ++ 10 :: rest) = (s ++ [10], rest).
Proof.
  intros Hs. revert n. induction Hs as [|c s Hc _ IH]; intros [|n] Hn; cbn [length] in *; try lia; cbn [app fgets].
  - done.
  - destruct (Z.eqb_spec c 10); [done|]. rewrite IH by lia. done.
Qed.

(** What a file of assignments does to the table. *)
Definition apply_lines (es : list entry) (kvs : list (list Z * list Z)) : list entry :=
  fold_left (fun es kv => store es kv.1 kv.2) kvs es.

Lemma load_file_lines H fuel es path ls :
  file H path = Some (render_file ls) -> forallb line_ok ls = true ->
  (length (render_file ls) < fuel)%nat ->
  load_file H fuel es path = Ok (apply_lines es (omap meaning ls)).
Proof.
  intros Hfile. unfold load_file. rewrite Hfile. clear Hfile path. revert es fuel.
  induction ls as [|l ls IH]; intros es fuel Hok Hf.
  { destruct fuel; [cbn in Hf; lia|]. by rewrite while_stop. }
  cbn [forallb] in Hok. apply andb_prop in Hok as [Hl Hok].
  assert (render_file (l :: ls) = render l ++ 10 :: render_file ls) as E.
  { unfold render_file. cbn. by rewrite <- app_assoc. }
  rewrite E in *. rewrite length_app in Hf. cbn [length] in Hf. destruct fuel as [|fuel]; [lia|].
  rewrite (while_go _ _ _ _ (render_file ls, match meaning l with Some (k, v) => store es k v | None => es end)).
  - destruct (meaning l) as [[k v]|] eqn:Em; cbn [omap list_omap]; rewrite Em; rewrite IH by (done || lia); done.
  - case_bool_decide as Hd; [|done]. cbn in Hd. by destruct (render l).
  - cbn [fst snd]. rewrite fgets_line; [|by apply render_one_line|].
    + by rewrite parse_line_render.
    + unfold line_ok in Hl. apply andb_prop in Hl as [Hl _]. by apply Nat.ltb_lt in Hl.
Qed.

(** ** The table as a map *)

(** The value the last assignment to [n] gives. *)
Fixpoint last_of (n : list Z) (kvs : list (list Z * list Z)) : option (list Z) :=
  match kvs with
  | [] => None
  | (k, v) :: r => match last_of n r with Some w => Some w | None => if streq k n then Some v else None end
  end.

Lemma replace_some es k v es' :
  replace es k v = Some es' ->
  key <$> es' = key <$> es /\
  forall n, find_entry es' n = if streq k n then Some (fit val_size v) else find_entry es n.
Proof.
  revert es'. induction es as [|e es IH]; intros es'; cbn [replace]; [done|].
  unfold streq at 1. case_bool_decide as He.
  - intros [= <-]. split; [done|]. intros n. cbn. rewrite He. by destruct (streq k n).
  - destruct (replace es k v) as [r|]; [|done]. intros [= <-]. destruct (IH _ eq_refl) as [K F].
    split; [cbn; by rewrite K|]. intros n. cbn. rewrite F. unfold streq.
    case_bool_decide as H1; case_bool_decide as H2; congruence.
Qed.

Lemma replace_none es k v : replace es k v = None -> k ∉ (key <$> es).
Proof.
  induction es as [|e es IH]; cbn [replace]; [set_solver|].
  unfold streq. case_bool_decide as He; [done|].
  destruct (replace es k v); [done|]. intros _. cbn. set_solver.
Qed.

Lemma find_snoc es e n :
  find_entry (es ++ [e]) n =
    match find_entry es n with Some v => Some v | None => if streq (key e) n then Some (val e) else None end.
Proof. induction es as [|d es IH]; cbn; [done|]. by destruct (streq (key d) n). Qed.

Lemma find_none es n : n ∉ (key <$> es) -> find_entry es n = None.
Proof.
  induction es as [|e es IH]; cbn; [done|]. intros Hn. unfold streq. case_bool_decide; [set_solver|].
  apply IH. set_solver.
Qed.

Lemma fit_id n s : (length s < n)%nat -> fit n s = s.
Proof. intros. unfold fit. apply take_ge. lia. Qed.

(** One store, while there is room. *)
Lemma store_spec es k v :
  (length k < key_size)%nat -> (k ∈ (key <$> es) \/ (length es < kMaxEntries)%nat) ->
  (forall n, find_entry (store es k v) n = if streq k n then Some (fit val_size v) else find_entry es n) /\
  (key <$> store es k v = key <$> es /\ k ∈ (key <$> es) \/
   key <$> store es k v = (key <$> es) ++ [k] /\ k ∉ (key <$> es)).
Proof.
  intros Hk Hroom. unfold store. destruct (replace es k v) as [es'|] eqn:E.
  - destruct (replace_some _ _ _ _ E) as [K F]. split; [done|]. left. split; [done|].
    destruct (decide (k ∈ (key <$> es))) as [|Hn]; [done|]. exfalso. clear -E Hn. revert es' E.
    induction es as [|e es IH]; intros es'; cbn [replace]; [done|]. cbn in Hn. unfold streq.
    case_bool_decide; [set_solver|]. destruct (replace es k v); [|done]. intros _.
    apply (IH ltac:(set_solver) l). done.
  - apply replace_none in E as Hn. destruct Hroom as [|Hroom]; [done|].
    destruct (Nat.leb_spec kMaxEntries (length es)); [lia|]. rewrite (fit_id key_size) by done. split.
    + intros n. rewrite find_snoc. cbn. unfold streq. case_bool_decide as Hkn; [|by destruct (find_entry es n)].
      subst n. by rewrite find_none.
    + right. by rewrite fmap_app.
Qed.

Lemma apply_lines_spec (all : list (list Z)) kvs es :
  NoDup (key <$> es) -> (key <$> es) ⊆ all -> kvs.*1 ⊆ all -> (length (remove_dups all) <= kMaxEntries)%nat ->
  Forall (fun k => (length k < key_size)%nat) (kvs.*1) ->
  forall n, find_entry (apply_lines es kvs) n =
    match last_of n kvs with Some v => Some (fit val_size v) | None => find_entry es n end.
Proof.
  revert es. induction kvs as [|[k v] kvs IH]; intros es Hnd Hes Hkv Hmax Hlen n; cbn; [done|].
  cbn in Hkv, Hlen. apply List.Forall_cons_iff in Hlen as [Hk Hlen].
  assert (k ∈ (key <$> es) \/ (length es < kMaxEntries)%nat) as Hroom.
  { destruct (decide (k ∈ (key <$> es))) as [|Hn]; [by left|right].
    assert (k :: (key <$> es) ⊆+ remove_dups all) as Hsub%submseteq_length.
    { apply NoDup_submseteq; [by constructor|]. intros x Hx. apply elem_of_remove_dups. set_solver. }
    cbn in Hsub. rewrite length_fmap in Hsub. lia. }
  destruct (store_spec es k v Hk Hroom) as [F K].
  fold (apply_lines (store es k v) kvs). rewrite IH; try done.
  - rewrite F. destruct (last_of n kvs); [done|]. by destruct (streq k n).
  - destruct K as [[-> _]|[-> Hn]]; [done|]. apply list.NoDup_app. split; [done|].
    split; [set_solver|apply list.NoDup_singleton].
  - destruct K as [[-> _]|[-> Hn]]; set_solver.
  - set_solver.
Qed.

(** ** The whole *)

(** The files hold the written lines. *)
Definition written (H : host) (src : string -> option (list source_line)) : Prop :=
  forall p, p ∈ env_paths -> file H p = render_file <$> src p /\ forallb line_ok (default [] (src p)) = true.

(** All assignments, in the order the files are read. *)
Definition assignments (src : string -> option (list source_line)) : list (list Z * list Z) :=
  concat ((fun p => omap meaning (default [] (src p))) <$> env_paths).

Lemma load_files_lines H src fuel es paths :
  (forall p, p ∈ paths -> file H p = render_file <$> src p /\ forallb line_ok (default [] (src p)) = true) ->
  Forall (fun p => (length (default [] (file H p)) < fuel)%nat) paths ->
  load_files H fuel es paths =
    Ok (apply_lines es (concat ((fun p => omap meaning (default [] (src p))) <$> paths))).
Proof.
  revert es. induction paths as [|p ps IH]; intros es Hw Hf; cbn [load_files]; [done|].
  apply List.Forall_cons_iff in Hf as [Hp Hf]. destruct (Hw p) as [Hfile Hok]; [set_solver|].
  assert (load_file H fuel es p = Ok (apply_lines es (omap meaning (default [] (src p))))) as ->.
  { destruct (src p) as [ls|]; cbn in *.
    - rewrite Hfile in Hp. by apply load_file_lines.
    - unfold load_file. by rewrite Hfile. }
  rewrite bind_ok, IH; [|intros q Hq; apply Hw; set_solver|done].
  cbn. unfold apply_lines. by rewrite fold_left_app.
Qed.

(** C14: a knob reads as what the operator wrote.  A nonempty value of the
    process's own environment wins; otherwise the answer is the value of the
    last assignment to that name, a later file overriding an earlier one, cut
    to 255 bytes, and NULL when no line assigns it.  Comments, blank lines, CR
    line ends and white space around name and value do not matter.  The files
    are read once: later answers do not depend on them. *)
Theorem orbis_env_get_correct (H H' : host) (src : string -> option (list source_line)) (fuel : nat) (name : list Z) :
  written H src -> enough H fuel -> name <> [] -> getenv H' = getenv H ->
  Forall (fun k => (length k < key_size)%nat) ((assignments src).*1) ->
  (length (remove_dups ((assignments src).*1)) <= kMaxEntries)%nat ->
  let answer := match getenv H name with
                | Some (c :: v) => Some (c :: v)
                | _ => fit val_size <$> last_of name (assignments src)
                end in
  exists g, orbis_env_get H fuel initial (Some name) = Ok (g, answer) /\
    forall f', getenv H name = None \/ getenv H name = Some [] ->
      orbis_env_get H' f' g (Some name) = Ok (g, answer).
Proof.
  intros Hw Hf Hn He Hk Hmax. destruct name as [|c0 nm]; [done|]. cbn zeta. unfold orbis_env_get. rewrite He.
  assert (load_once H fuel initial = Ok (mk_env (apply_lines [] (assignments src)) true)) as Hload.
  { unfold load_once. cbn [g_loaded initial]. by rewrite (load_files_lines H src). }
  pose proof (apply_lines_spec ((assignments src).*1) (assignments src) [] ltac:(constructor)
    ltac:(set_solver) ltac:(done) Hmax Hk (c0 :: nm)) as Hfind.
  assert (find_entry (apply_lines [] (assignments src)) (c0 :: nm) =
    fit val_size <$> last_of (c0 :: nm) (assignments src)) as Ha.
  { rewrite Hfind. by destruct (last_of _ _). }
  destruct (getenv H (c0 :: nm)) as [[|c v]|].
  - exists (mk_env (apply_lines [] (assignments src)) true). split; [by rewrite Hload, bind_ok; cbn [g_entry]; rewrite Ha|].
    intros f' _. unfold load_once. cbn [g_loaded]. rewrite bind_ok. cbn [g_entry]. by rewrite Ha.
  - exists initial. split; [done|]. by intros f' [|].
  - exists (mk_env (apply_lines [] (assignments src)) true). split; [by rewrite Hload, bind_ok; cbn [g_entry]; rewrite Ha|].
    intros f' _. unfold load_once. cbn [g_loaded]. rewrite bind_ok. cbn [g_entry]. by rewrite Ha.
Qed.

(** ** A console with two files *)

Definition demo_src (p : string) : option (list source_line) :=
  if String.eqb p "/data/orbis-env.txt" then
    Some [Comment [] (bytes " knobs"); Assign [] (bytes "ORBIS_NCPU") [32] [32] (bytes "5") [32; 13];
          Empty [] true; Assign [] (bytes "MODE") [] [] (bytes "a = b") []]
  else if String.eqb p "/data/retroarch-env.txt" then Some [Assign [9] (bytes "ORBIS_NCPU") [] [] (bytes "1") []]
  else None.

Definition demo_host : host := mk_host (fun p => render_file <$> demo_src p) (fun _ => None).

Lemma demo_written : written demo_host demo_src.
Proof.
  intros p Hp. split; [done|]. unfold env_paths in Hp.
  repeat (apply elem_of_cons in Hp as [->|Hp]; [vm_compute; reflexivity|]).
  by apply not_elem_of_nil in Hp.
Qed.

Lemma demo_enough : enough demo_host 100.
Proof. unfold enough, env_paths. repeat constructor; apply Nat.ltb_lt; vm_compute; reflexivity. Qed.

Lemma orbis_env_get_witness :
  exists g, orbis_env_get demo_host 100 initial (Some (bytes "ORBIS_NCPU")) = Ok (g, Some (bytes "1")) /\
    orbis_env_get (mk_host (fun _ => None) (fun _ => None)) 1 g (Some (bytes "ORBIS_NCPU")) = Ok (g, Some (bytes "1")).
Proof.
  destruct (orbis_env_get_correct demo_host (mk_host (fun _ => None) (fun _ => None)) demo_src 100 (bytes "ORBIS_NCPU")
    demo_written demo_enough ltac:(done) ltac:(done)
    ltac:(apply List.Forall_forall; intros k Hk; vm_compute in Hk; repeat (destruct Hk as [<-|Hk]; [vm_compute; lia|]); done)
    ltac:(vm_compute; lia)) as (g & H1 & H2).
  exists g. split; [exact H1|]. apply H2. by left.
Defined.

Lemma load_once_typed_witness :
  runs (load_once demo_host 100 initial) (fun g' => g_loaded g' = true /\ table_ok (g_entry g')).
Proof.
  apply (load_once_typed demo_host 100 initial demo_enough).
  split; [cbn; unfold kMaxEntries; lia|constructor].
Defined.
