(* ===== verification/Printf.v ===== *)
(** Wide formatting in [src/orbis_wchar32.c]: [vswprintf], in the pieces the
    source's own comments name (flags, width, precision, length, conversion).

    The format, the destination and the wide string arguments lie in the
    memory [wm], the narrow string arguments and what [%n] stores to in [bm].
    An argument list holds 64-bit integer slots, pointers and floating point
    values; taking an argument of another kind is undefined.  The narrow
    [snprintf], which formats every number, and [malloc] are parameters: a
    number's text is whatever [snprintf] makes of the format [cf] that this
    function builds for it. *)
From stdpp Require Import prelude gmap list numbers.
From S2P Require Import Prelude Memory WcString Utf8.
Open Scope Z_scope.

Module Printf.

Definition INT_MAX : Z := 2 ^ 31 - 1.
Definition W32_MB_LEN_MAX : Z := 4.
Definition s8 (z : Z) : Z := (z + 2 ^ 7) mod 2 ^ 8 - 2 ^ 7.
Definition s16 (z : Z) : Z := (z + 2 ^ 15) mod 2 ^ 16 - 2 ^ 15.

Inductive arg := AInt (z : Z) | APtr (p : Z) | AFlt (x : Z) | ALFlt (x : Z).

(** What a numeric conversion hands to [snprintf]. *)
Inductive value := VInt (v : Z) | VUint (v : Z) | VPtr (v : Z) | VFlt (x : Z) | VLFlt (x : Z).

Record libc := mk_libc {
  snprintf : list Z -> list Z -> value -> option (list Z);   (* cf, the stars, the value; [None]: negative *)
  mallocs : Z -> bool }.

(** [struct w32_out]: [s] and [cap] do not change. *)
Record w32_out := mk_out { o_s : Z; o_cap : Z; o_len : Z }.

Inductive why := Stop | Inval | Overflow | Fail (e : option errno_t).

Record state := mk_state { wm : mem; bm : mem; o : w32_out; aq : list arg; f : Z }.

Definition set_o (st : state) w out := mk_state w (bm st) out (aq st) (f st).
Definition set_f (st : state) p := mk_state (wm st) (bm st) (o st) (aq st) p.
Definition set_aq (st : state) l := mk_state (wm st) (bm st) (o st) l (f st).
Definition set_bm (st : state) b := mk_state (wm st) b (o st) (aq st) (f st).

Definition w32_put (st : state) (c : Z) : outcome state :=
  let out := o st in
  w ← (if o_len out <? o_cap out then Memory.st (wm st) (o_s out + o_len out) c else Ok (wm st));
  Ok (set_o st w (mk_out (o_s out) (o_cap out) (u64 (o_len out + 1)))).

(** [while (k--) w32_put(o, ' ');] *)
Fixpoint pad_n (st : state) (k : nat) : outcome state :=
  match k with O => Ok st | S k => st ← w32_put st 32; pad_n st k end.
Definition w32_pad (st : state) (k : Z) : outcome state := pad_n st (Z.to_nat (u64 k)).

(** [for (i < k) w32_put(&o, text[i]);] *)
Fixpoint put_all (st : state) (text : list Z) : outcome state :=
  match text with [] => Ok st | c :: r => st ← w32_put st c; put_all st r end.
(** [for (size_t i = 0; i < l; i++) w32_put(&o, a[i]);] *)
Fixpoint put_wide (st : state) (a : Z) (l : nat) : outcome state :=
  match l with
  | O => Ok st
  | S l => c ← ld (wm st) a; st ← w32_put st c; put_wide st (a + 1) l
  end.

Definition is_digit (c : Z) : bool := u32 (c - 48) <? 10.

Definition w32_getint (fuel : nat) (w : mem) (p : Z) : outcome (Z * Z) :=
  loop fuel (fun '(i, p) =>
    c ← ld w p;
    if is_digit c then
      Ok (inl (if (u32 i >? INT_MAX / 10) || (c - 48 >? INT_MAX - 10 * i) then -1
               else if 0 <=? i then 10 * i + (c - 48) else i, p + 1))
    else Ok (inr (i, p))) (0, p).

(** [const w32_t *q = f; while (digit) q++; q != f && *q == '$'] *)
Definition positional (fuel : nat) (w : mem) (p : Z) : outcome bool :=
  q ← while fuel (fun q => c ← ld w q; Ok (is_digit c)) (fun q => Ok (q + 1)) p;
  if negb (q =? p) then c ← ld w q; Ok (c =? 36) else Ok false.

Definition is_flag (c : Z) : bool :=
  (c =? 45) || (c =? 43) || (c =? 32) || (c =? 35) || (c =? 48) || (c =? 39).

(** One turn of the flags loop; [sizeof flags - 1] is 7. *)
Definition add_flag (flags : list Z) (c : Z) : list Z :=
  if (Z.of_nat (length flags) <? 7) && negb (bool_decide (c ∈ flags)) then flags ++ [c] else flags.

Definition read_flags (fuel : nat) (w : mem) (p : Z) : outcome (list Z * bool * Z) :=
  loop fuel (fun '(flags, lj, p) =>
    c ← ld w p;
    if negb (is_flag c) then Ok (inr (flags, lj, p))
    else Ok (inl (add_flag flags c, lj || (c =? 45), p + 1))) ([], false, p).

Definition va_int (l : list arg) : outcome (Z * list arg) :=
  match l with AInt z :: l => Ok (s32 z, l) | _ => Fault end.
Definition va_slot (l : list arg) : outcome (Z * list arg) :=
  match l with AInt z :: l => Ok (z, l) | _ => Fault end.
Definition va_ptr (l : list arg) : outcome (Z * list arg) :=
  match l with APtr p :: l => Ok (p, l) | _ => Fault end.

Definition INT_MIN : Z := - 2 ^ 31.

(** Width: [inr Overflow] is the [goto]. *)
Definition read_width (fuel : nat) (st : state) (flags : list Z) (lj : bool)
    : outcome ((Z * list Z * bool * state) + why) :=
  c ← ld (wm st) (f st);
  if c =? 42 then
    '(w, l) ← va_int (aq st);
    let st := set_f (set_aq st l) (f st + 1) in
    if w <? 0 then
      if w =? INT_MIN then Ok (inr Overflow)
      else Ok (inl (- w, if negb lj && (Z.of_nat (length flags) <? 7) then flags ++ [45] else flags,
                    true, st))
    else Ok (inl (w, flags, lj, st))
  else
    '(w, p) ← w32_getint fuel (wm st) (f st);
    if w <? 0 then Ok (inr Overflow) else Ok (inl (w, flags, lj, set_f st p)).

(** Precision: -1 means none. *)
Definition read_prec (fuel : nat) (st : state) : outcome ((Z * state) + why) :=
  c ← ld (wm st) (f st);
  if negb (c =? 46) then Ok (inl (-1, st)) else
  d ← ld (wm st) (f st + 1);
  if d =? 42 then
    '(p, l) ← va_int (aq st);
    Ok (inl (if p <? 0 then -1 else p, set_f (set_aq st l) (f st + 2)))
  else
    '(p, q) ← w32_getint fuel (wm st) (f st + 1);
    if p <? 0 then Ok (inr Overflow) else Ok (inl (p, set_f st q)).

Inductive len_t := LEN_NONE | LEN_HH | LEN_H | LEN_L | LEN_LL | LEN_BIGL | LEN_J | LEN_Z | LEN_T.

#[export] Instance len_t_eq_dec : EqDecision len_t.
Proof. solve_decision. Defined.

Definition read_len (w : mem) (p : Z) : outcome (len_t * Z) :=
  c ← ld w p;
  if c =? 104 then d ← ld w (p + 1); Ok (if d =? 104 then (LEN_HH, p + 2) else (LEN_H, p + 1))
  else if c =? 108 then d ← ld w (p + 1); Ok (if d =? 108 then (LEN_LL, p + 2) else (LEN_L, p + 1))
  else if c =? 76 then Ok (LEN_BIGL, p + 1)
  else if c =? 113 then Ok (LEN_LL, p + 1)
  else if c =? 106 then Ok (LEN_J, p + 1)
  else if c =? 122 then Ok (LEN_Z, p + 1)
  else if c =? 116 then Ok (LEN_T, p + 1)
  else Ok (LEN_NONE, p).

(** [conv] after the two folds of [%lc] and [%ls]. *)
Definition fold_conv (conv : Z) (len : len_t) : Z :=
  if (conv =? 99) && bool_decide (len = LEN_L) then 67
  else if (conv =? 115) && bool_decide (len = LEN_L) then 83 else conv.

(** [lj] is the source's [left].  Padding around [k] characters that [body] puts. *)
Definition padded (st : state) (lj : bool) (w k : Z) (body : state -> outcome state) : outcome state :=
  st ← (if (u64 w >? k) && negb lj then w32_pad st (w - k) else Ok st);
  st ← body st;
  if (u64 w >? k) && lj then w32_pad st (w - k) else Ok st.

(** [case 'n'] *)
Definition n_bytes (len : len_t) : option nat :=
  match len with
  | LEN_NONE => Some 4 | LEN_HH => Some 1 | LEN_H => Some 2
  | LEN_L | LEN_LL | LEN_J | LEN_Z | LEN_T => Some 8
  | LEN_BIGL => None
  end%nat.

Fixpoint store_bytes (b : mem) (p : Z) (bs : list Z) : outcome mem :=
  match bs with [] => Ok b | x :: r => b ← Memory.st b p x; store_bytes b (p + 1) r end.

Definition conv_n (st : state) (len : len_t) : outcome (state + why) :=
  '(p, l) ← va_ptr (aq st);
  match n_bytes len with
  | Some k => b ← store_bytes (bm st) p (le_bytes k (o_len (o st))); Ok (inl (set_bm (set_aq st l) b))
  | None => Ok (inr Inval)
  end.

(** [case 'c': case 'C':] *)
Definition conv_c (st : state) (conv w : Z) (lj : bool) : outcome (state + why) :=
  '(z, l) ← va_int (aq st);
  let c := if conv =? 67 then z else s32 (btowc z) in
  let st := set_aq st l in
  let w := if w <? 1 then 1 else w in
  st ← (if negb lj then w32_pad st (w - 1) else Ok st);
  st ← w32_put st c;
  st ← (if lj then w32_pad st (w - 1) else Ok st);
  Ok (inl st).

Definition null_text : list Z := [40; 110; 117; 108; 108; 41].

(** [case 'S':]; the static text for a null pointer is a list here. *)
Definition conv_S (fuel : nat) (st : state) (w p : Z) (lj : bool) : outcome (state + why) :=
  '(a, l) ← va_ptr (aq st);
  let st := set_aq st l in
  if a =? 0 then
    let text := take (if p <? 0 then 6 else Z.to_nat p) null_text in
    st ← padded st lj w (Z.of_nat (length text)) (fun st => put_all st text); Ok (inl st)
  else
    k ← wcsnlen fuel (wm st) a (if p <? 0 then INT_MAX else p);
    more ← (if p <? 0 then c ← ld (wm st) (a + k); Ok (negb (c =? 0)) else Ok false);
    if more : bool then Ok (inr Overflow)
    else st ← padded st lj w k (fun st => put_wide st a (Z.to_nat k)); Ok (inl st).

(** The two walks of [case 's':] over the narrow string. *)
Definition count_s (fuel : nat) (b : mem) (a lim : Z) : outcome (Z * Z * Z) :=
  loop fuel (fun '(bs, l, i) =>
    if l <? lim then
      r ← mbtowc b bs W32_MB_LEN_MAX;
      if mb_ret r >? 0 then Ok (inl (bs + mb_ret r, l + 1, mb_ret r)) else Ok (inr (bs, l, mb_ret r))
    else Ok (inr (bs, l, i))) (a, 0, 0).

Fixpoint put_s (st : state) (a : Z) (l : nat) : outcome state :=
  match l with
  | O => Ok st
  | S l =>
      r ← mbtowc (bm st) a W32_MB_LEN_MAX;
      match mb_wc r with
      | Some c => st ← w32_put st c; put_s st (a + mb_ret r) l
      | None => Fault
      end
  end.

Definition conv_s (fuel : nat) (st : state) (w p : Z) (lj : bool) : outcome (state + why) :=
  '(a, l) ← va_ptr (aq st);
  let st := set_aq st l in
  if a =? 0 then
    let text := take (if p <? 0 then 6 else Z.to_nat p) null_text in
    st ← padded st lj w (Z.of_nat (length text)) (fun st => put_all st text); Ok (inl st)
  else
    '(bs, k, i) ← count_s fuel (bm st) a (if p <? 0 then INT_MAX else p);
    if i <? 0 then Ok (inr (Fail (Some EILSEQ))) else
    more ← (if p <? 0 then c ← ld (bm st) bs; Ok (negb (c =? 0)) else Ok false);
    if more : bool then Ok (inr Overflow)
    else st ← padded st lj w k (fun st => put_s st a (Z.to_nat k)); Ok (inl st).

(** The [va_arg] of [%d %i], and of [%o %u %x %X], at each length. *)
Definition int_value (len : len_t) (z : Z) : option Z :=
  match len with
  | LEN_HH => Some (s8 z) | LEN_H => Some (s16 z) | LEN_NONE => Some (s32 z)
  | LEN_L | LEN_LL | LEN_J | LEN_Z | LEN_T => Some (s64 z)
  | LEN_BIGL => None
  end.
Definition uint_value (len : len_t) (z : Z) : option Z :=
  match len with
  | LEN_HH => Some (u8 z) | LEN_H => Some (u16 z) | LEN_NONE => Some (u32 z)
  | LEN_L | LEN_LL | LEN_J | LEN_Z | LEN_T => Some (u64 z)
  | LEN_BIGL => None
  end.

(** [snprintf(cf, sizeof cf, "%%%s...%c", flags, ..., conv)]: [cf] has 32 bytes. *)
Definition cf_text (flags tail : list Z) : list Z := take 31 (37 :: flags ++ tail).

(** [snprintf] into [nb], or into a block when the text is longer, and the
    copy into the output. *)
Definition emit (C : libc) (st : state) (cf stars : list Z) (v : value) : outcome (state + why) :=
  match snprintf C cf stars v with
  | None => Ok (inr (Fail None))
  | Some text =>
      if (Z.of_nat (length text) >=? 256) && negb (mallocs C (Z.of_nat (length text) + 1))
      then Ok (inr (Fail None))
      else st ← put_all st (u8 <$> text); Ok (inl st)
  end.

Definition conv_int (C : libc) (st : state) (flags : list Z) (len : len_t) (conv w p : Z) : outcome (state + why) :=
  match aq st with
  | AInt z :: l =>
      match int_value len z with
      | Some v => emit C (set_aq st l) (cf_text flags [42; 46; 42; 106; u8 conv]) [w; p] (VInt v)
      | None => Ok (inr Inval)
      end
  | _ => if bool_decide (len = LEN_BIGL) then Ok (inr Inval) else Fault
  end.

Definition conv_uint (C : libc) (st : state) (flags : list Z) (len : len_t) (conv w p : Z) : outcome (state + why) :=
  match aq st with
  | AInt z :: l =>
      match uint_value len z with
      | Some v => emit C (set_aq st l) (cf_text flags [42; 46; 42; 106; u8 conv]) [w; p] (VUint v)
      | None => Ok (inr Inval)
      end
  | _ => if bool_decide (len = LEN_BIGL) then Ok (inr Inval) else Fault
  end.

Definition conv_p (C : libc) (st : state) (flags : list Z) (w : Z) : outcome (state + why) :=
  '(v, l) ← va_ptr (aq st);
  emit C (set_aq st l) (cf_text flags [42; 112]) [w] (VPtr v).

Definition conv_flt (C : libc) (st : state) (flags : list Z) (len : len_t) (conv w p : Z) : outcome (state + why) :=
  match len with
  | LEN_BIGL =>
      match aq st with
      | ALFlt x :: l => emit C (set_aq st l) (cf_text flags [42; 46; 42; 76; u8 conv]) [w; p] (VLFlt x)
      | _ => Fault
      end
  | LEN_NONE | LEN_L =>
      match aq st with
      | AFlt x :: l => emit C (set_aq st l) (cf_text flags [42; 46; 42; u8 conv]) [w; p] (VFlt x)
      | _ => Fault
      end
  | _ => Ok (inr Inval)
  end.

Definition is_one_of (c : Z) (cs : list Z) : bool := bool_decide (c ∈ cs).

(** The [switch (conv)]. *)
Definition convert (C : libc) (fuel : nat) (st : state) (flags : list Z) (lj : bool)
    (w p : Z) (len : len_t) (conv : Z) : outcome (state + why) :=
  if conv =? 110 then conv_n st len
  else if is_one_of conv [99; 67] then conv_c st conv w lj
  else if conv =? 83 then conv_S fuel st w p lj
  else if conv =? 115 then conv_s fuel st w p lj
  else if is_one_of conv [100; 105] then conv_int C st flags len conv w p
  else if is_one_of conv [111; 117; 120; 88] then conv_uint C st flags len conv w p
  else if conv =? 112 then conv_p C st flags w
  else if is_one_of conv [97; 65; 101; 69; 102; 70; 103; 71] then conv_flt C st flags len conv w p
  else Ok (inr Inval).

(** One directive: from the precision on, and from behind the [%]. *)
Definition from_prec (C : libc) (fuel : nat) (st : state) (flags : list Z) (lj : bool) (w : Z)
    : outcome (state + why) :=
  r ← read_prec fuel st;
  match r with
  | inr e => Ok (inr e)
  | inl (p, st) =>
      '(len, q) ← read_len (wm st) (f st);
      c ← ld (wm st) q;
      convert C fuel (set_f st (q + 1)) flags lj w p len (fold_conv c len)
  end.

Definition directive (C : libc) (fuel : nat) (st : state) : outcome (state + why) :=
  pos ← positional fuel (wm st) (f st);
  if pos : bool then Ok (inr Inval) else
  '(flags, lj, p) ← read_flags fuel (wm st) (f st);
  r ← read_width fuel (set_f st p) flags lj;
  match r with
  | inr e => Ok (inr e)
  | inl (w, flags, lj, st) => from_prec C fuel st flags lj w
  end.

(** One turn of [while ( *f )]. *)
Definition turn (C : libc) (fuel : nat) (st : state) : outcome (state + (state * why)) :=
  c ← ld (wm st) (f st);
  if c =? 0 then Ok (inr (st, if o_len (o st) >? INT_MAX then Overflow else Stop)) else
  if o_len (o st) >? INT_MAX then Ok (inr (st, Overflow)) else
  if negb (c =? 37) then st' ← w32_put st c; Ok (inl (set_f st' (f st + 1))) else
  d ← ld (wm st) (f st + 1);
  if d =? 37 then st' ← w32_put st 37; Ok (inl (set_f st' (f st + 2))) else
  r ← directive C fuel (set_f st (f st + 1));
  match r with inl st' => Ok (inl st') | inr e => Ok (inr (st, e)) end.

Record result := mk_result { r_wm : mem; r_bm : mem; r_ret : Z; r_errno : option errno_t }.

Definition finish (n : Z) (st : state) (e : why) : outcome result :=
  let out := o st in
  let ret := match e with Stop => if o_len out >=? n then -1 else o_len out | _ => -1 end in
  let err := match e with Inval => Some EINVAL | Overflow => Some EOVERFLOW | Fail e => e | Stop => None end in
  w ← Memory.st (wm st) (o_s out + (if o_len out <? o_cap out then o_len out else o_cap out)) 0;
  Ok (mk_result w (bm st) ret err).

Definition vswprintf (C : libc) (fuel : nat) (w b : mem) (s n fmt : Z) (ap : list arg) : outcome result :=
  if n =? 0 then Ok (mk_result w b (-1) None) else
  '(st, e) ← loop fuel (turn C fuel) (mk_state w b (mk_out s (n - 1) 0) ap fmt);
  finish n st e.

(** The variadic call hands its arguments over as a list. *)
Definition swprintf := vswprintf.

End Printf.
Export Printf.
