(* ===== verification/PrintfProps.v ===== *)
(** What [Printf] promises: directives as data with their printed form, the
    text each stands for, and [vswprintf] on a printed format. *)
From stdpp Require Import prelude gmap list numbers.
From S2P Require Import Prelude Memory WcString Utf8Spec Utf8 WcConv Printf.
Open Scope Z_scope.

(** ** Output *)

Section Output.
  Context (w0 : mem) (s n : Z).
  Hypothesis Hn : 0 < n.
  Hypothesis Hs : mapped w0 s n.

(** The state after [text] has been produced: what fits is stored. *)
Definition stored (text : list Z) : mem := write w0 s (take (Z.to_nat (n - 1)) text).
Definition at_ (b : mem) (text : list Z) (l : list arg) (p : Z) : state :=
  mk_state (stored text) b (mk_out s (n - 1) (zlen text)) l p.

Lemma w32_put_at b (text : list Z) l p c :
  zlen text < 2 ^ 63 -> w32_put (at_ b text l p) c = Ok (at_ b (text ++ [c]) l p).
Proof.
  intros Hl. unfold w32_put, at_, set_o. cbn [o o_len o_cap o_s wm bm aq f].
  rewrite u64_small by lia. rewrite length_app. cbn [length].
  replace (Z.of_nat (length text) + 1) with (Z.of_nat (length text + 1)) by lia.
  unfold stored. destruct (Z.ltb_spec (zlen text) (n - 1)) as [Hlt|Hge].
  - rewrite st_ok; [cbn|].
    2:{ apply mapped_write with (q := s) (n := n); [done|lia]. }
    rewrite !take_ge by (rewrite ?length_app; cbn; lia). by rewrite write_snoc.
  - cbn. by rewrite take_app_le by lia.
Qed.

Lemma put_all_at b (text : list Z) l p (xs : list Z) :
  zlen text + zlen xs < 2 ^ 63 -> put_all (at_ b text l p) xs = Ok (at_ b (text ++ xs) l p).
Proof.
  revert text. induction xs as [|c xs IH]; intros text Hl; cbn [put_all]; [by rewrite app_nil_r|].
  cbn [length] in Hl. rewrite w32_put_at, bind_ok by lia.
  rewrite IH by (rewrite length_app; cbn; lia). by rewrite <- app_assoc.
Qed.

Lemma pad_n_at b (text : list Z) l p k :
  zlen text + Z.of_nat k < 2 ^ 63 -> pad_n (at_ b text l p) k = Ok (at_ b (text ++ replicate k 32) l p).
Proof.
  revert text. induction k as [|k IH]; intros text Hl; cbn [pad_n replicate]; [by rewrite app_nil_r|].
  rewrite w32_put_at, bind_ok by lia.
  rewrite IH by (rewrite length_app; cbn; lia). by rewrite <- app_assoc.
Qed.

Lemma w32_pad_at b (text : list Z) l p k :
  0 <= k -> zlen text + k < 2 ^ 63 ->
  w32_pad (at_ b text l p) k = Ok (at_ b (text ++ replicate (Z.to_nat k) 32) l p).
Proof. intros H1 H2. unfold w32_pad. rewrite u64_small by lia. apply pad_n_at. lia. Qed.

(** Wide memory away from the destination reads as it did at the start. *)
Definition away (q k : Z) : Prop := apart s n q k.

Lemma stored_len (text : list Z) : zlen (take (Z.to_nat (n - 1)) text) <= n.
Proof. rewrite length_take. lia. Qed.

Lemma zstr_stored text q (xs : list Z) : away q (zlen xs + 1) -> zstr w0 q xs -> zstr (stored text) q xs.
Proof.
  intros Ha. apply zstr_write_apart. pose proof (stored_len text). unfold away, apart in *. lia.
Qed.

Lemma array_stored text q (xs : list Z) : away q (zlen xs) -> array w0 q xs -> array (stored text) q xs.
Proof.
  intros Ha. apply array_write_apart. pose proof (stored_len text). unfold away, apart in *. lia.
Qed.

Lemma put_wide_at b (text : list Z) l p a (xs : list Z) :
  away a (zlen xs) -> array w0 a xs -> zlen text + zlen xs < 2 ^ 63 ->
  put_wide (at_ b text l p) a (length xs) = Ok (at_ b (text ++ xs) l p).
Proof.
  revert a text. induction xs as [|c xs IH]; intros a text Ha Hx Hl; cbn [put_wide length].
  { by rewrite app_nil_r. }
  assert (ld (wm (at_ b text l p)) a = Ok c) as ->.
  { apply ld_ok. apply (array_cons _ _ _ xs). by apply array_stored. }
  cbn [length] in *. rewrite bind_ok, w32_put_at, bind_ok by lia.
  apply array_cons in Hx as [_ Hx]. rewrite IH; [by rewrite <- app_assoc| |done|rewrite length_app; cbn; lia].
  unfold away, apart in *. lia.
Qed.

(** A field: text padded with spaces to the width, on the left unless [lj]. *)
Definition field (lj : bool) (w : Z) (text : list Z) : list Z :=
  let pad := replicate (Z.to_nat (w - zlen text)) 32 in
  if lj then text ++ pad else pad ++ text.

Lemma field_length lj w text : zlen (field lj w text) = Z.max w (zlen text).
Proof. unfold field. destruct lj; rewrite length_app, length_replicate; lia. Qed.

Lemma padded_at b (text : list Z) l p lj w (xs : list Z) body :
  0 <= w -> zlen text + Z.max w (zlen xs) < 2 ^ 63 ->
  (forall t, zlen t + zlen xs < 2 ^ 63 -> body (at_ b t l p) = Ok (at_ b (t ++ xs) l p)) ->
  padded (at_ b text l p) lj w (zlen xs) body = Ok (at_ b (text ++ field lj w xs) l p).
Proof.
  intros Hw Hl Hbody. unfold padded, field. rewrite u64_small by lia.
  destruct (Z.gtb_spec w (zlen xs)) as [Hgt|Hle]; cbn [andb].
  - destruct lj; cbn [negb].
    + rewrite bind_ok, Hbody, bind_ok by lia. rewrite w32_pad_at by (rewrite ?length_app; lia).
      by rewrite <- app_assoc.
    + rewrite w32_pad_at, bind_ok by lia.
      rewrite Hbody by (rewrite length_app, length_replicate; lia). rewrite bind_ok.
      by rewrite <- app_assoc.
  - replace (Z.to_nat (w - zlen xs)) with 0%nat by lia. cbn [replicate].
    rewrite bind_ok, Hbody, bind_ok by lia. destruct lj; [by rewrite app_nil_r|done].
Qed.

End Output.

(** ** Reading the format *)

Lemma ld_head w p xs : zstr w p xs -> ld w p = Ok (hd 0 xs).
Proof.
  intros H. apply ld_ok. destruct xs as [|x xs]; [by apply zstr_nil in H|]. by apply zstr_cons in H as [? _].
Qed.

Lemma zstr_tail w p x xs : zstr w p (x :: xs) -> zstr w (p + 1) xs.
Proof. intros H. by apply zstr_cons in H as (_ & _ & ?). Qed.

Lemma zstr_suffix w p xs ys : zstr w p (xs ++ ys) -> zstr w (p + zlen xs) ys.
Proof.
  intros H. apply (zstr_drop _ _ _ (length xs)) in H; [|rewrite length_app; lia].
  by rewrite drop_app_length in H.
Qed.

Definition digit (c : Z) : Prop := 48 <= c <= 57.
Definition not_digit (c : Z) : Prop := is_digit c = false.
(** Characters are 32-bit. *)
Definition char32 (c : Z) : Prop := - 2 ^ 31 <= c < 2 ^ 31.

Lemma digit_true c : digit c -> is_digit c = true.
Proof. unfold digit, is_digit. intros. rewrite u32_small; lia. Qed.

(** The number a digit string denotes, on top of [i]. *)
Definition dec_from (i : Z) (ds : list Z) : Z := fold_left (fun i c => 10 * i + (c - 48)) ds i.
Definition dec : list Z -> Z := dec_from 0.

Lemma dec_from_ge ds i : 0 <= i -> Forall digit ds -> i <= dec_from i ds.
Proof.
  revert i. induction ds as [|d ds IH]; intros i Hi Hd; cbn; [lia|].
  apply List.Forall_cons_iff in Hd as [Hd Hds]. unfold digit in Hd.
  specialize (IH (10 * i + (d - 48)) ltac:(lia) Hds). unfold dec_from in IH. lia.
Qed.

Lemma w32_getint_from fuel w p i ds rest :
  zstr w p (ds ++ rest) -> Forall digit ds -> not_digit (hd 0 rest) -> 0 <= i ->
  dec_from i ds <= INT_MAX -> (length ds < fuel)%nat ->
  loop fuel (fun '(i, p) =>
    c ← ld w p;
    if is_digit c then
      Ok (inl (if (u32 i >? INT_MAX / 10) || (c - 48 >? INT_MAX - 10 * i) then -1
               else if 0 <=? i then 10 * i + (c - 48) else i, p + 1))
    else Ok (inr (i, p))) (i, p) = Ok (dec_from i ds, p + zlen ds).
Proof.
  revert p i fuel. induction ds as [|d ds IH]; intros p i fuel Hz Hd Hr Hi Hm Hf; (destruct fuel as [|fuel]; [cbn in Hf; lia|]);
    rewrite loop_step, (ld_head _ _ _ Hz), bind_ok; cbn [hd app].
  - cbn in Hr. rewrite Hr. cbn. by rewrite Z.add_0_r.
  - apply List.Forall_cons_iff in Hd as [Hd Hds]. rewrite digit_true by done. rewrite bind_ok.
    cbn [dec_from fold_left] in Hm. fold (dec_from (10 * i + (d - 48)) ds) in Hm.
    unfold digit in Hd. pose proof (dec_from_ge ds (10 * i + (d - 48)) ltac:(lia) Hds) as Hge. unfold INT_MAX in *.
    rewrite u32_small by dlia.
    destruct (Z.gtb_spec i ((2 ^ 31 - 1) / 10)); [dlia|].
    destruct (Z.gtb_spec (d - 48) (2 ^ 31 - 1 - 10 * i)); [lia|]. cbn [orb].
    destruct (Z.leb_spec 0 i); [|lia].
    rewrite IH; [|by apply zstr_tail in Hz|done|done|lia|done|cbn in Hf; lia].
    cbn [length]. do 2 f_equal. lia.
Qed.

Lemma w32_getint_ok fuel w p ds rest :
  zstr w p (ds ++ rest) -> Forall digit ds -> not_digit (hd 0 rest) -> dec ds <= INT_MAX ->
  (length ds < fuel)%nat -> w32_getint fuel w p = Ok (dec ds, p + zlen ds).
Proof. intros. unfold w32_getint. by apply (w32_getint_from fuel w p 0 ds rest). Qed.

Lemma dec_nonneg ds : Forall digit ds -> 0 <= dec ds.
Proof. apply dec_from_ge. lia. Qed.

(** A directive without [$] is not positional. *)
Lemma positional_false fuel w p body rest :
  zstr w p (body ++ rest) -> Forall (fun c => c <> 36) body -> Exists not_digit body ->
  (length body < fuel)%nat -> positional fuel w p = Ok false.
Proof.
  intros Hz Hd He Hf. unfold positional.
  assert (exists q, while fuel (fun q => c ← ld w q; Ok (is_digit c)) (fun q => Ok (q + 1)) p = Ok q /\
    (q = p \/ exists c, ld w q = Ok c /\ c <> 36)) as (q & -> & Hq).
  { assert (forall body p, zstr w p (body ++ rest) -> Forall (fun c => c <> 36) body -> Exists not_digit body ->
      forall fuel, (length body < fuel)%nat ->
      exists q c, while fuel (fun q => c ← ld w q; Ok (is_digit c)) (fun q => Ok (q + 1)) p = Ok q /\
        ld w q = Ok c /\ c <> 36) as Hg.
    { clear. intros body. induction body as [|c body IH]; intros p Hz Hd He fuel Hf; [by apply Exists_nil in He|].
      destruct fuel as [|fuel]; [cbn in Hf; lia|]. pose proof (ld_head _ _ _ Hz) as Hc. cbn in Hc.
      apply List.Forall_cons_iff in Hd as [Hc36 Hd].
      destruct (is_digit c) eqn:Ec.
      - apply Exists_cons in He as [He|He]; [by unfold not_digit in He; congruence|].
        rewrite (while_go _ _ _ _ (p + 1)); [|by rewrite Hc, bind_ok, Ec|done].
        apply IH; [by apply zstr_tail in Hz|done|done|cbn in Hf; lia].
      - exists p, c. rewrite while_stop; [done|]. by rewrite Hc, bind_ok, Ec. }
    destruct (Hg body p Hz Hd He fuel Hf) as (q & c & H1 & H2 & H3). exists q. split; [done|]. right. by exists c. }
  rewrite bind_ok. destruct (Z.eqb_spec q p) as [->|Hne]; cbn [negb]; [done|].
  destruct Hq as [?|(c & -> & Hc)]; [done|]. rewrite bind_ok. by destruct (Z.eqb_spec c 36).
Qed.

(** *** Flags *)

(** The flags given, each once, in the order of their first occurrence. *)
Fixpoint distinct (seen fl : list Z) : list Z :=
  match fl with
  | [] => seen
  | c :: fl => distinct (if bool_decide (c ∈ seen) then seen else seen ++ [c]) fl
  end.

Definition the_flags : list Z := [45; 43; 32; 35; 48; 39].

Lemma is_flag_in c : is_flag c = true <-> c ∈ the_flags.
Proof. unfold is_flag, the_flags. rewrite !elem_of_cons, elem_of_nil. lia. Qed.

Lemma flags_short seen : NoDup seen -> seen ⊆ the_flags -> (length seen <= 6)%nat.
Proof. intros Hd Hs. change 6%nat with (length the_flags). by apply submseteq_length, NoDup_submseteq. Qed.

Lemma distinct_spec fl seen :
  NoDup seen -> seen ⊆ the_flags -> fl ⊆ the_flags ->
  NoDup (distinct seen fl) /\ distinct seen fl ⊆ the_flags /\ fold_left add_flag fl seen = distinct seen fl.
Proof.
  revert seen. induction fl as [|c fl IH]; intros seen Hd Hs Hf; cbn; [done|].
  assert (add_flag seen c = if bool_decide (c ∈ seen) then seen else seen ++ [c]) as E.
  { unfold add_flag. pose proof (flags_short seen Hd Hs). destruct (Z.ltb_spec (zlen seen) 7); [|lia].
    by case_bool_decide. }
  rewrite E. apply IH; [| |set_solver].
  - case_bool_decide as Hc; [done|]. apply list.NoDup_app. split; [done|].
    split; [set_solver|apply list.NoDup_singleton].
  - case_bool_decide as Hc; set_solver.
Qed.

Lemma read_flags_from fuel w p fl rest seen lj :
  zstr w p (fl ++ rest) -> fl ⊆ the_flags -> is_flag (hd 0 rest) = false -> (length fl < fuel)%nat ->
  loop fuel (fun '(flags, lj, p) =>
    c ← ld w p;
    if negb (is_flag c) then Ok (inr (flags, lj, p))
    else Ok (inl (add_flag flags c, lj || (c =? 45), p + 1))) (seen, lj, p) =
    Ok (fold_left add_flag fl seen, lj || bool_decide (45 ∈ fl), p + zlen fl).
Proof.
  revert p fuel seen lj. induction fl as [|c fl IH]; intros p fuel seen lj Hz Hf Hr Hl; (destruct fuel as [|fuel]; [cbn in Hl; lia|]);
    rewrite loop_step, (ld_head _ _ _ Hz), bind_ok; cbn [hd app].
  - cbn in Hr. rewrite Hr. cbn. rewrite Z.add_0_r, orb_false_r. done.
  - rewrite (proj2 (is_flag_in c)) by set_solver. cbn [negb]. rewrite bind_ok.
    rewrite IH; [|by apply zstr_tail in Hz|set_solver|done|cbn in Hl; lia].
    cbn [fold_left length]. do 2 f_equal; [|lia]. f_equal. rewrite <- orb_assoc. f_equal.
    repeat case_bool_decide; destruct (Z.eqb_spec c 45); set_solver.
Qed.

Lemma read_flags_ok fuel w p fl rest :
  zstr w p (fl ++ rest) -> fl ⊆ the_flags -> is_flag (hd 0 rest) = false -> (length fl < fuel)%nat ->
  read_flags fuel w p = Ok (distinct [] fl, bool_decide (45 ∈ fl), p + zlen fl).
Proof.
  intros Hz Hf Hr Hl. unfold read_flags. rewrite (read_flags_from fuel w p fl rest) by done.
  destruct (distinct_spec fl [] ltac:(constructor) ltac:(set_solver) Hf) as (_ & _ & ->). done.
Qed.

(** ** String arguments *)

(** [xs] is what a string conversion with precision [p] (negative: none)
    takes: the whole string when it is short enough, else its first [p]
    elements.  [whole] says the terminator follows [xs], [part] that nothing
    is known of what follows. *)
Definition upto (p k : Z) (whole part : Prop) : Prop :=
  (whole /\ (p < 0 /\ k <= INT_MAX \/ k <= p)) \/ (part /\ k = p).

Lemma wcsnlen_ok m fuel a lim xs :
  array m a xs -> Forall (fun x => x <> 0) xs -> (length xs < fuel)%nat ->
  zlen xs <= lim -> (zlen xs = lim \/ m !! (a + zlen xs) = Some 0) ->
  a <> 0 -> 0 < a -> wcsnlen fuel m a lim = Ok (zlen xs).
Proof.
  intros Ha Hx Hf Hl Hend Ha0 Hpos.
  assert (while fuel
    (fun '(n, s) => nonzero n &&& (x ← ld m s; Ok (negb (x =? 0))))%c
    (fun '(n, s) => Ok (n - 1, s + 1)) (lim, a) = Ok (lim - zlen xs, a + zlen xs)) as H.
  { clear Ha0. revert fuel a lim Ha Hf Hl Hend Hpos. induction Hx as [|x xs Hx Hxs IH]; intros fuel a lim Ha Hf Hl Hend Hpos; fuel_succ fuel.
    - cbn [length] in *. change (Z.of_nat 0) with 0 in *. rewrite Z.add_0_r in *. rewrite while_stop; [by rewrite Z.sub_0_r|].
      unfold nonzero. destruct (Z.eqb_spec lim 0); [done|]. cbn. destruct Hend as [<-|Hend]; [done|].
      by rewrite (ld_ok _ _ _ Hend).
    - apply array_cons in Ha as [Hax Ha]. cbn [length] in *.
      erewrite while_go; [| |done].
      2:{ rewrite nonzero_true by lia. cbn. by rewrite (ld_ok _ _ _ Hax), bind_ok, (proj2 (Z.eqb_neq _ _) Hx). }
      rewrite IH; [tuple_eq|done|lia|lia| |lia].
      destruct Hend as [Hend|Hend]; [left; lia|right]. by replace (a + 1 + zlen xs) with (a + Z.of_nat (S (length xs))) by lia. }
  unfold wcsnlen, wmemchr. rewrite H, bind_ok. unfold nonzero, NULL.
  destruct (Z.eqb_spec (lim - zlen xs) 0); cbn [negb].
  - rewrite bind_ok. cbn. f_equal. lia.
  - rewrite bind_ok. destruct (Z.eqb_spec (a + zlen xs) 0); [lia|]. cbn. f_equal. lia.
Qed.

Lemma mbtowc_char b a w :
  0 < a -> scalar w -> array b a (utf8 w) ->
  mbtowc b a W32_MB_LEN_MAX = Ok (mk_mbr (if w =? 0 then 0 else zlen (utf8 w)) (Some w) 0 None).
Proof.
  intros Ha Hw Hx. rewrite (mbtowc_ok b a _ (utf8 w) (Done w (length (utf8 w)))); try done; try lia.
  - by apply utf8_byte.
  - pose proof (decode_utf8 w [] Hw) as H. by rewrite app_nil_r in H.
  - unfold W32_MB_LEN_MAX. assert (length (utf8 w) <= 4)%nat by (unfold utf8; repeat case_match; cbn; lia). lia.
Qed.

Lemma utf8_zero : utf8 0 = [0].
Proof. done. Qed.

Lemma count_s_from b fuel a lim l i cs :
  0 < a -> Forall wide cs -> array b a (utf8s cs) -> (length cs < fuel)%nat -> 0 <= i ->
  l + zlen cs <= lim -> (l + zlen cs = lim \/ b !! (a + zlen (utf8s cs)) = Some 0) ->
  exists j, 0 <= j /\ loop fuel (fun '(bs, l, i) =>
    if l <? lim then
      r ← mbtowc b bs W32_MB_LEN_MAX;
      if mb_ret r >? 0 then Ok (inl (bs + mb_ret r, l + 1, mb_ret r)) else Ok (inr (bs, l, mb_ret r))
    else Ok (inr (bs, l, i))) (a, l, i) = Ok (a + zlen (utf8s cs), l + zlen cs, j).
Proof.
  intros Ha Hcs. revert fuel a l i Ha. induction Hcs as [|w cs [Hw Hw0] Hcs IH]; intros fuel a l i Ha Hx Hf Hi Hl Hend; fuel_succ fuel;
    rewrite loop_step; cbn [length utf8s] in *.
  - rewrite Z.add_0_r in *. destruct (Z.ltb_spec l lim).
    + destruct Hend as [|Hend]; [lia|]. rewrite Z.add_0_r in Hend.
      rewrite (mbtowc_char b a 0); [|done|left; lia|].
      * rewrite !bind_ok. cbn. exists 0. split; [lia|]. tuple_eq.
      * rewrite utf8_zero. apply array_cons. split; [done|apply array_nil].
    + cbn. exists i. split; [done|]. tuple_eq.
  - apply array_app in Hx as [Hx Hxs]. destruct (Z.ltb_spec l lim); [|lia].
    rewrite (mbtowc_char b a w Ha Hw Hx), !bind_ok. cbn [mb_ret].
    destruct (Z.eqb_spec w 0); [done|]. pose proof (utf8_nonempty w).
    assert (1 <= length (utf8 w))%nat by (destruct (utf8 w); [done|cbn; lia]).
    destruct (Z.gtb_spec (zlen (utf8 w)) 0); [|lia]. rewrite bind_ok. rewrite length_app in *.
    destruct (IH fuel (a + zlen (utf8 w)) (l + 1) (zlen (utf8 w))) as (j & Hj & ->); [lia|done|lia|lia|lia| |].
    + destruct Hend as [|Hend]; [left; lia|right].
      by replace (a + zlen (utf8 w) + zlen (utf8s cs)) with (a + Z.of_nat (length (utf8 w) + length (utf8s cs))) by lia.
    + exists j. split; [done|]. tuple_eq.
Qed.

(** ** Directives as data *)

Inductive width := WNone | WNum (ds : list Z) | WStar.
Inductive prec := PNone | PNum (ds : list Z) | PStar.

Record dir := mk_dir {
  d_flags : list Z; d_width : width; d_prec : prec; d_len : len_t; d_conv : Z }.

Inductive item := Lit (c : Z) | Percent | Dir (d : dir).

Definition print_len (l : len_t) : list Z :=
  match l with
  | LEN_NONE => [] | LEN_HH => [104; 104] | LEN_H => [104] | LEN_L => [108] | LEN_LL => [108; 108]
  | LEN_BIGL => [76] | LEN_J => [106] | LEN_Z => [122] | LEN_T => [116]
  end.
Definition print_width (w : width) : list Z :=
  match w with WNone => [] | WNum ds => ds | WStar => [42] end.
Definition print_prec (p : prec) : list Z :=
  match p with PNone => [] | PNum ds => 46 :: ds | PStar => [46; 42] end.
Definition print_dir (d : dir) : list Z :=
  d_flags d ++ print_width (d_width d) ++ print_prec (d_prec d) ++ print_len (d_len d) ++ [d_conv d].
Definition print_item (i : item) : list Z :=
  match i with Lit c => [c] | Percent => [37; 37] | Dir d => 37 :: print_dir d end.
Definition print_items (is_ : list item) : list Z := concat (print_item <$> is_).

(** The conversion letters. *)
Definition convs : list Z := [99; 67; 83; 115; 100; 105; 111; 117; 120; 88; 112; 97; 65; 101; 69; 102; 70; 103; 71].

(** A width starts with a nonzero digit (a zero is a flag) and fits an int. *)
Definition width_ok (w : width) : Prop :=
  match w with
  | WNum ds => Forall digit ds /\ dec ds <= INT_MAX /\ match ds with [] => False | c :: _ => c <> 48 end
  | _ => True
  end.
Definition prec_ok (p : prec) : Prop :=
  match p with PNum ds => Forall digit ds /\ dec ds <= INT_MAX | _ => True end.

Record dir_ok (d : dir) : Prop := {
  do_flags : d_flags d ⊆ the_flags;
  do_width : width_ok (d_width d);
  do_prec : prec_ok (d_prec d);
  do_conv : d_conv d ∈ convs }.

Definition item_ok (i : item) : Prop :=
  match i with Lit c => c <> 0 /\ c <> 37 | Percent => True | Dir d => dir_ok d end.

(** ** What a directive stands for *)

Record field_spec := mk_fs { fs_w : Z; fs_p : Z; fs_lj : bool; fs_flags : list Z }.

(** Width, precision and flags with the stars taken from the arguments; a
    negative width argument means left justification. *)
Definition resolve_prec (d : dir) (w : Z) (lj : bool) (fl : list Z) (l : list arg)
    : option (field_spec * list arg) :=
  match d_prec d with
  | PNone => Some (mk_fs w (-1) lj fl, l)
  | PNum ds => Some (mk_fs w (dec ds) lj fl, l)
  | PStar => match l with
             | AInt z :: l => Some (mk_fs w (if s32 z <? 0 then -1 else s32 z) lj fl, l)
             | _ => None
             end
  end.

Definition resolve (d : dir) (l : list arg) : option (field_spec * list arg) :=
  let fl := distinct [] (d_flags d) in
  let lj := bool_decide (45 ∈ d_flags d) in
  match d_width d with
  | WNone => resolve_prec d 0 lj fl l
  | WNum ds => resolve_prec d (dec ds) lj fl l
  | WStar => match l with
             | AInt z :: l =>
                 if s32 z =? INT_MIN then None
                 else if s32 z <? 0 then resolve_prec d (- s32 z) true (if lj then fl else fl ++ [45]) l
                 else resolve_prec d (s32 z) lj fl l
             | _ => None
             end
  end.

Section Meaning.
  Context (C : libc) (w0 b : mem) (s n : Z).

(** The text [snprintf] gives for a number, when it can be had. *)
Definition number (fl tail stars : list Z) (v : value) (text : list Z) : Prop :=
  exists t, snprintf C (37 :: fl ++ tail) stars v = Some t /\ text = u8 <$> t /\
    (zlen t < 256 \/ mallocs C (zlen t + 1) = true).

Definition null_prefix (p : Z) : list Z := if p <? 0 then null_text else take (Z.to_nat p) null_text.

Definition wide_arg (p a : Z) (xs : list Z) : Prop :=
  0 < a /\ apart s n a (zlen xs + 1) /\ Forall (fun x => x <> 0) xs /\
  upto p (zlen xs) (zstr w0 a xs) (array w0 a xs).

Definition narrow_arg (p a : Z) (cs : list Z) : Prop :=
  0 < a /\ Forall wide cs /\ upto p (zlen cs) (zstr b a (utf8s cs)) (array b a (utf8s cs)).

(** [expands d l text l']: directive [d] takes its arguments from [l], stands
    for [text], and leaves [l']. *)
Inductive converts (fs : field_spec) (len : len_t) (conv : Z) : list arg -> list Z -> list arg -> Prop :=
  | cv_c z l :
      conv = 99 -> len <> LEN_L ->
      converts fs len conv (AInt z :: l) (field (fs_lj fs) (fs_w fs) [s32 (btowc (s32 z))]) l
  | cv_C z l :
      conv = 67 \/ conv = 99 /\ len = LEN_L ->
      converts fs len conv (AInt z :: l) (field (fs_lj fs) (fs_w fs) [s32 z]) l
  | cv_S a xs l :
      conv = 83 \/ conv = 115 /\ len = LEN_L -> wide_arg (fs_p fs) a xs ->
      converts fs len conv (APtr a :: l) (field (fs_lj fs) (fs_w fs) xs) l
  | cv_s a cs l :
      conv = 115 -> len <> LEN_L -> narrow_arg (fs_p fs) a cs ->
      converts fs len conv (APtr a :: l) (field (fs_lj fs) (fs_w fs) cs) l
  | cv_null l :
      conv = 83 \/ conv = 115 ->
      converts fs len conv (APtr 0 :: l) (field (fs_lj fs) (fs_w fs) (null_prefix (fs_p fs))) l
  | cv_int z v text l :
      conv ∈ [100; 105] -> int_value len z = Some v ->
      number (fs_flags fs) [42; 46; 42; 106; conv] [fs_w fs; fs_p fs] (VInt v) text ->
      converts fs len conv (AInt z :: l) text l
  | cv_uint z v text l :
      conv ∈ [111; 117; 120; 88] -> uint_value len z = Some v ->
      number (fs_flags fs) [42; 46; 42; 106; conv] [fs_w fs; fs_p fs] (VUint v) text ->
      converts fs len conv (AInt z :: l) text l
  | cv_p a text l :
      conv = 112 -> number (fs_flags fs) [42; 112] [fs_w fs] (VPtr a) text ->
      converts fs len conv (APtr a :: l) text l
  | cv_flt x text l :
      conv ∈ [97; 65; 101; 69; 102; 70; 103; 71] -> len = LEN_NONE \/ len = LEN_L ->
      number (fs_flags fs) [42; 46; 42; conv] [fs_w fs; fs_p fs] (VFlt x) text ->
      converts fs len conv (AFlt x :: l) text l
  | cv_lflt x text l :
      conv ∈ [97; 65; 101; 69; 102; 70; 103; 71] -> len = LEN_BIGL ->
      number (fs_flags fs) [42; 46; 42; 76; conv] [fs_w fs; fs_p fs] (VLFlt x) text ->
      converts fs len conv (ALFlt x :: l) text l.

Inductive expands : item -> list arg -> list Z -> list arg -> Prop :=
  | ex_lit c l : expands (Lit c) l [c] l
  | ex_percent l : expands Percent l [37] l
  | ex_dir d l fs l1 text l2 :
      resolve d l = Some (fs, l1) -> converts fs (d_len d) (d_conv d) l1 text l2 ->
      expands (Dir d) l text l2.

Inductive expands_all : list item -> list arg -> list Z -> list arg -> Prop :=
  | ea_nil l : expands_all [] l [] l
  | ea_cons i is_ l t l1 ts l2 :
      expands i l t l1 -> expands_all is_ l1 ts l2 -> expands_all (i :: is_) l (t ++ ts) l2.

End Meaning.

(** ** Reading a printed directive *)

(** The letters a directive goes on with behind flags and width, and behind
    the precision. *)
Definition len_letters : list Z := [104; 108; 76; 106; 122; 116].
Definition stops : list Z := 46 :: len_letters ++ convs.

Lemma in_forallb (f : Z -> bool) (l : list Z) c : forallb f l = true -> c ∈ l -> f c = true.
Proof. rewrite forallb_forall. intros H Hc. apply H. by apply list_elem_of_In. Qed.

Lemma stops_facts c : c ∈ stops ->
  not_digit c /\ is_flag c = false /\ c <> 42 /\ c <> 36 /\ c <> 48.
Proof.
  intros Hc. pose proof (in_forallb (fun c => negb (is_digit c) && negb (is_flag c) &&
    negb (c =? 42) && negb (c =? 36) && negb (c =? 48)) stops c ltac:(vm_compute; reflexivity) Hc) as H.
  cbn in H. unfold not_digit. destruct (is_digit c), (is_flag c); try done. lia.
Qed.

Lemma conv_facts c : c ∈ convs ->
  c <> 46 /\ c <> 104 /\ c <> 108 /\ c <> 76 /\ c <> 113 /\ c <> 106 /\ c <> 122 /\ c <> 116 /\ c <> 110 /\ u8 c = c.
Proof.
  intros Hc. pose proof (in_forallb (fun c => negb (existsb (Z.eqb c) [46; 104; 108; 76; 113; 106; 122; 116; 110]) &&
    (u8 c =? c)) convs c ltac:(vm_compute; reflexivity) Hc) as H.
  cbn [existsb] in H. lia.
Qed.

Lemma len_head len conv rest : conv ∈ convs -> hd 0 (print_len len ++ conv :: rest) ∈ len_letters ++ convs.
Proof. intros Hc. destruct len; cbn; unfold len_letters; set_solver by lia. Qed.

Lemma len_head_46 len conv rest : conv ∈ convs -> hd 0 (print_len len ++ conv :: rest) <> 46.
Proof. intros Hc. pose proof (conv_facts conv Hc). destruct len; cbn; lia. Qed.

Lemma prec_head pr len conv rest :
  conv ∈ convs -> hd 0 (print_prec pr ++ print_len len ++ conv :: rest) ∈ stops.
Proof.
  intros Hc. destruct pr; cbn; [|set_solver..]. unfold stops. apply elem_of_cons. right. by apply len_head.
Qed.

Lemma digit_facts c : digit c -> c <> 48 -> is_flag c = false /\ c <> 42.
Proof. unfold digit, is_flag. lia. Qed.

Section Reading.
  Context (w0 : mem) (s n : Z).
  Hypothesis Hn : 0 < n.
  Hypothesis Hs : mapped w0 s n.

Definition text_at (p : Z) (xs : list Z) : Prop := zstr w0 p xs /\ apart s n p (zlen xs + 1).

Lemma text_at_suffix p xs ys : text_at p (xs ++ ys) -> text_at (p + zlen xs) ys.
Proof.
  intros [Hz Ha]. split; [by apply zstr_suffix|]. rewrite length_app in Ha. unfold apart in *. lia.
Qed.

Lemma text_at_tail p x ys : text_at p (x :: ys) -> text_at (p + 1) ys.
Proof. apply (text_at_suffix p [x]). Qed.

Lemma text_stored text p xs : text_at p xs -> zstr (stored w0 s n text) p xs.
Proof. intros [Hz Ha]. by apply zstr_stored. Qed.

Lemma ld_text b text l q p xs : text_at p xs -> ld (wm (at_ w0 s n b text l q)) p = Ok (hd 0 xs).
Proof. intros H. by apply ld_head, text_stored. Qed.

Section One.
  Context (b : mem) (text : list Z) (d : dir) (rest : list Z) (fuel : nat).
  Hypothesis Hd : dir_ok d.
  Hypothesis Hfuel : (length (print_dir d) < fuel)%nat.
Let conv := d_conv d.

(** Width, from behind the flags. *)
Lemma read_width_ok l p fl lj :
  text_at p (print_width (d_width d) ++ print_prec (d_prec d) ++ print_len (d_len d) ++ conv :: rest) ->
  (length fl <= 6)%nat ->
  match d_width d with
  | WStar => exists z l1, l = AInt z :: l1
  | _ => True
  end ->
  read_width fuel (at_ w0 s n b text l p) fl lj =
    match d_width d with
    | WNone => Ok (inl (0, fl, lj, at_ w0 s n b text l p))
    | WNum ds => Ok (inl (dec ds, fl, lj, at_ w0 s n b text l (p + zlen ds)))
    | WStar => match l with
               | AInt z :: l1 =>
                   if s32 z =? INT_MIN then Ok (inr Overflow)
                   else if s32 z <? 0
                   then Ok (inl (- s32 z, if lj then fl else fl ++ [45], true, at_ w0 s n b text l1 (p + 1)))
                   else Ok (inl (s32 z, fl, lj, at_ w0 s n b text l1 (p + 1)))
               | _ => Fault
               end
    end.
Proof.
  intros Ht Hfl Hargs. destruct Hd as [_ Hw _ Hc].
  pose proof (prec_head (d_prec d) (d_len d) conv rest Hc) as Hstop.
  apply stops_facts in Hstop as (Hnd & _ & H42 & _ & _).
  unfold read_width. change (f (at_ w0 s n b text l p)) with p. rewrite (ld_text _ _ _ _ _ _ Ht), bind_ok.
  unfold print_dir in Hfuel. rewrite !length_app in Hfuel.
  destruct (d_width d) as [|ds|]; cbn [print_width app hd] in *.
  - destruct (Z.eqb_spec (hd 0 (print_prec (d_prec d) ++ print_len (d_len d) ++ conv :: rest)) 42); [done|].
    rewrite (w32_getint_ok fuel _ p [] (print_prec (d_prec d) ++ print_len (d_len d) ++ conv :: rest));
      [|by apply text_stored|constructor|done|unfold INT_MAX; cbn; lia|cbn; lia].
    rewrite bind_ok. cbn. by rewrite Z.add_0_r.
  - destruct Hw as (Hds & Hm & Hne). destruct ds as [|c ds]; [done|]. cbn [app hd].
    apply List.Forall_cons_iff in Hds as Hds'. destruct (digit_facts c) as [_ Hc42]; [tauto|done|].
    destruct (Z.eqb_spec c 42); [done|].
    rewrite (w32_getint_ok fuel _ p (c :: ds) (print_prec (d_prec d) ++ print_len (d_len d) ++ conv :: rest));
      [|by apply text_stored|done|done|done|lia].
    rewrite bind_ok. pose proof (dec_nonneg (c :: ds) Hds).
    by destruct (Z.ltb_spec (dec (c :: ds)) 0); [lia|].
  - destruct Hargs as (z & l1 & ->). cbn [va_int aq at_ mbind]. rewrite Z.eqb_refl, bind_ok.
    destruct (Z.ltb_spec (s32 z) 0); [|by destruct (Z.eqb_spec (s32 z) INT_MIN); [unfold INT_MIN in *; lia|]].
    destruct (s32 z =? INT_MIN); [done|]. destruct (Z.ltb_spec (zlen fl) 7); [|lia].
    by destruct lj.
Qed.

Lemma read_prec_ok l p :
  text_at p (print_prec (d_prec d) ++ print_len (d_len d) ++ conv :: rest) ->
  match d_prec d with PStar => exists z l1, l = AInt z :: l1 | _ => True end ->
  read_prec fuel (at_ w0 s n b text l p) =
    match d_prec d with
    | PNone => Ok (inl (-1, at_ w0 s n b text l p))
    | PNum ds => Ok (inl (dec ds, at_ w0 s n b text l (p + (1 + zlen ds))))
    | PStar => match l with
               | AInt z :: l1 => Ok (inl (if s32 z <? 0 then -1 else s32 z, at_ w0 s n b text l1 (p + 2)))
               | _ => Fault
               end
    end.
Proof.
  intros Ht Hargs. destruct Hd as [_ _ Hp Hc].
  pose proof (len_head_46 (d_len d) conv rest Hc) as H46.
  assert (hd 0 (print_len (d_len d) ++ conv :: rest) ∈ stops) as Hstop.
  { unfold stops. apply elem_of_cons. right. by apply len_head. }
  apply stops_facts in Hstop as (Hnd & _ & H42 & _ & _).
  unfold print_dir in Hfuel. rewrite !length_app in Hfuel.
  unfold read_prec. change (f (at_ w0 s n b text l p)) with p. rewrite (ld_text _ _ _ _ _ _ Ht), bind_ok.
  destruct (d_prec d) as [|ds|]; cbn [print_prec app hd] in *.
  - by destruct (Z.eqb_spec (hd 0 (print_len (d_len d) ++ conv :: rest)) 46).
  - apply text_at_tail in Ht as Ht1. rewrite (ld_text _ _ _ _ _ _ Ht1), bind_ok. cbn [Z.eqb negb].
    destruct Hp as [Hds Hm].
    assert (hd 0 (ds ++ print_len (d_len d) ++ conv :: rest) <> 42) as Hne.
    { destruct ds as [|c ds]; [done|]. apply List.Forall_cons_iff in Hds as [Hc1 _]. unfold digit in Hc1. cbn. lia. }
    rewrite (proj2 (Z.eqb_neq _ _) Hne). cbn [length] in Hfuel.
    rewrite (w32_getint_ok fuel _ (p + 1) ds (print_len (d_len d) ++ conv :: rest));
      [|by apply text_stored|done|done|done|lia].
    rewrite bind_ok. pose proof (dec_nonneg ds Hds). destruct (Z.ltb_spec (dec ds) 0); [lia|].
    by rewrite Z.add_assoc.
  - destruct Hargs as (z & l1 & ->). apply text_at_tail in Ht as Ht1.
    rewrite (ld_text _ _ _ _ _ _ Ht1), bind_ok. done.
Qed.

Lemma read_len_ok p l q :
  text_at p (print_len (d_len d) ++ conv :: rest) ->
  read_len (wm (at_ w0 s n b text l q)) p = Ok (d_len d, p + zlen (print_len (d_len d))) /\
  ld (wm (at_ w0 s n b text l q)) (p + zlen (print_len (d_len d))) = Ok conv.
Proof.
  intros Ht. destruct Hd as [_ _ _ Hc]. pose proof (conv_facts conv Hc) as Hf.
  split; [|by rewrite (ld_text _ _ _ _ _ _ (text_at_suffix _ _ _ Ht))].
  unfold read_len. rewrite (ld_text _ _ _ _ _ _ Ht), bind_ok.
  destruct (d_len d); cbn [print_len app hd length] in *; cbn [Z.eqb Pos.eqb];
    try (apply text_at_tail in Ht; rewrite (ld_text _ _ _ _ _ _ Ht), bind_ok; cbn [hd]);
    cbn [Pos.eqb];
    repeat match goal with |- context [conv =? ?k] => rewrite (proj2 (Z.eqb_neq conv k)) by lia end;
    cbn; by rewrite ?Z.add_0_r.
Qed.

End One.
End Reading.

(** ** Converting *)

Lemma s32_range z : - 2 ^ 31 <= s32 z < 2 ^ 31.
Proof. unfold s32. pose proof (Z.mod_pos_bound (z + 2 ^ 31) (2 ^ 32)). lia. Qed.

Lemma resolve_facts d l fs l1 :
  dir_ok d -> resolve d l = Some (fs, l1) ->
  0 <= fs_w fs <= INT_MAX /\ -1 <= fs_p fs <= INT_MAX /\ (length (fs_flags fs) <= 7)%nat.
Proof.
  intros [Hf Hw Hp _]. unfold resolve.
  destruct (distinct_spec (d_flags d) [] ltac:(constructor) ltac:(set_solver) Hf) as (Hd & Hs & _).
  pose proof (flags_short _ Hd Hs) as Hl. set (fl := distinct [] (d_flags d)) in *.
  assert (forall w lj fl' l', 0 <= w <= INT_MAX -> (length fl' <= 7)%nat ->
    resolve_prec d w lj fl' l' = Some (fs, l1) ->
    0 <= fs_w fs <= INT_MAX /\ -1 <= fs_p fs <= INT_MAX /\ (length (fs_flags fs) <= 7)%nat) as Hprec.
  { unfold resolve_prec. intros w lj fl' l' Hw' Hl'. destruct (d_prec d) as [|ds|].
    - intros [= <- _]. cbn. unfold INT_MAX in *. lia.
    - intros [= <- _]. cbn. destruct Hp as [Hds Hm]. pose proof (dec_nonneg ds Hds). lia.
    - destruct l' as [|[z| | |] l']; try done. intros [= <- _]. cbn. pose proof (s32_range z).
      unfold INT_MAX in *. destruct (Z.ltb_spec (s32 z) 0); lia. }
  destruct (d_width d) as [|ds|].
  - apply Hprec; unfold INT_MAX; lia.
  - destruct Hw as (Hds & Hm & _). apply Hprec; [|lia]. pose proof (dec_nonneg ds Hds). lia.
  - destruct l as [|[z| | |] l]; try done. pose proof (s32_range z).
    destruct (Z.eqb_spec (s32 z) INT_MIN); [done|]. unfold INT_MIN in *.
    destruct (Z.ltb_spec (s32 z) 0); apply Hprec; unfold INT_MAX in *; try lia.
    case_bool_decide; rewrite ?length_app; cbn; lia.
Qed.

Ltac each_letter H := repeat (apply elem_of_cons in H as [->|H]; [reflexivity|]); by apply not_elem_of_nil in H.

Section Dispatch.
  Context (C : libc) (fuel : nat) (st : state) (fl : list Z) (lj : bool) (w p : Z) (len : len_t) (conv : Z).
  Local Abbreviation go := (convert C fuel st fl lj w p len (fold_conv conv len)).

Lemma fold_conv_id : conv <> 99 -> conv <> 115 -> fold_conv conv len = conv.
Proof. intros. unfold fold_conv. by rewrite !(proj2 (Z.eqb_neq conv _)) by done. Qed.
Lemma go_c : conv = 99 -> len <> LEN_L -> go = conv_c st 99 w lj.
Proof. intros -> H. by destruct len. Qed.
Lemma go_C : conv = 67 \/ conv = 99 /\ len = LEN_L -> go = conv_c st 67 w lj.
Proof. intros [->|[-> ->]]; done. Qed.
Lemma go_S : conv = 83 \/ conv = 115 /\ len = LEN_L -> go = conv_S fuel st w p lj.
Proof. intros [->|[-> ->]]; done. Qed.
Lemma go_s : conv = 115 -> len <> LEN_L -> go = conv_s fuel st w p lj.
Proof. intros -> H. by destruct len. Qed.
Lemma go_int : conv ∈ [100; 105] -> go = conv_int C st fl len conv w p.
Proof. intros H. each_letter H. Qed.
Lemma go_uint : conv ∈ [111; 117; 120; 88] -> go = conv_uint C st fl len conv w p.
Proof. intros H. each_letter H. Qed.
Lemma go_p : conv = 112 -> go = conv_p C st fl w.
Proof. by intros ->. Qed.
Lemma go_flt : conv ∈ [97; 65; 101; 69; 102; 70; 103; 71] -> go = conv_flt C st fl len conv w p.
Proof. intros H. each_letter H. Qed.

End Dispatch.

Section Converting.
  Context (C : libc) (w0 b : mem) (s n : Z) (fuel : nat).
  Hypothesis Hn : 0 < n.
  Hypothesis Hs : mapped w0 s n.
  Local Abbreviation at' := (at_ w0 s n b).

Lemma conv_c_at text z l p conv w lj :
  0 <= w -> let c := if conv =? 67 then s32 z else s32 (btowc (s32 z)) in
  zlen text + zlen (field lj w [c]) < 2 ^ 62 ->
  conv_c (at' text (AInt z :: l) p) conv w lj = Ok (inl (at' (text ++ field lj w [c]) l p)).
Proof.
  intros Hw c Hl. rewrite field_length in Hl. cbn [length] in Hl.
  unfold conv_c. cbn [aq at_ va_int]. rewrite bind_ok. fold c.
  change (set_aq (at' text (AInt z :: l) p) l) with (at' text l p).
  assert (Hpad : Z.to_nat ((if w <? 1 then 1 else w) - 1) = Z.to_nat (w - zlen [c])).
  { cbn [length]. destruct (Z.ltb_spec w 1); lia. }
  assert (0 <= (if w <? 1 then 1 else w) - 1 <= w) by (destruct (Z.ltb_spec w 1); lia).
  unfold field. destruct lj; cbn [negb].
  - rewrite bind_ok, (w32_put_at _ _ _ Hn Hs), bind_ok by lia.
    rewrite (w32_pad_at _ _ _ Hn Hs) by (rewrite ?length_app; cbn [length]; lia).
    rewrite bind_ok, Hpad. by rewrite <- app_assoc.
  - rewrite (w32_pad_at _ _ _ Hn Hs), bind_ok by lia.
    rewrite (w32_put_at _ _ _ Hn Hs) by (rewrite ?length_app, ?length_replicate; lia).
    rewrite !bind_ok, Hpad. by rewrite <- app_assoc.
Qed.

Lemma null_prefix_eq p : take (if p <? 0 then 6 else Z.to_nat p) null_text = null_prefix p.
Proof. unfold null_prefix. by destruct (p <? 0). Qed.

Lemma padded_text text l p w lj xs :
  0 <= w -> zlen text + zlen (field lj w xs) < 2 ^ 62 ->
  padded (at' text l p) lj w (zlen xs) (fun st => put_all st xs) = Ok (at' (text ++ field lj w xs) l p).
Proof.
  intros Hw Hl. rewrite field_length in Hl. apply (padded_at _ _ _ Hn Hs); [done|lia|].
  intros t Ht. by apply (put_all_at _ _ _ Hn Hs).
Qed.

Lemma conv_S_at text a l p w pr lj xs :
  0 <= w -> -1 <= pr <= INT_MAX -> wide_arg w0 s n pr a xs ->
  zlen text + zlen (field lj w xs) < 2 ^ 62 -> (length xs < fuel)%nat ->
  conv_S fuel (at' text (APtr a :: l) p) w pr lj = Ok (inl (at' (text ++ field lj w xs) l p)).
Proof.
  intros Hw Hpr (Ha & Hap & Hx & Hup) Hl Hf. rewrite field_length in Hl.
  unfold conv_S. cbn [aq at_ va_ptr]. rewrite bind_ok. destruct (Z.eqb_spec a 0); [lia|].
  change (set_aq (at' text (APtr a :: l) p) l) with (at' text l p).
  assert (array w0 a xs) as Harr.
  { destruct Hup as [[H _]|[H _]]; [by apply zstr_array|done]. }
  assert (away s n a (zlen xs)) as Haw by (unfold away, apart in *; lia).
  assert (Hend : zlen xs <= (if pr <? 0 then INT_MAX else pr) /\
    (pr < 0 -> stored w0 s n text !! (a + zlen xs) = Some 0) /\
    (zlen xs = (if pr <? 0 then INT_MAX else pr) \/ stored w0 s n text !! (a + zlen xs) = Some 0)).
  { destruct Hup as [[H Hle]|[H <-]].
    - apply (zstr_stored w0 s n Hn text) in H as Hz; [|done]. apply zstr_end in Hz.
      destruct (Z.ltb_spec pr 0); (split; [lia|]); auto.
    - destruct (Z.ltb_spec (zlen xs) 0); [lia|]. split; [lia|]. split; [lia|]. by left. }
  destruct Hend as (E1 & E2 & E3).
  rewrite (wcsnlen_ok _ fuel a _ xs); try done; [|by apply array_stored].
  rewrite bind_ok. destruct (Z.ltb_spec pr 0) as [Hneg|Hpos].
  - cbn [wm at_]. rewrite (ld_ok _ _ _ (E2 Hneg)), !bind_ok. cbn [Z.eqb negb].
    rewrite (padded_at _ _ _ Hn Hs b text l p lj w xs); [done|done|lia|].
    intros t Ht. rewrite Nat2Z.id. by apply (put_wide_at _ _ _ Hn Hs).
  - rewrite bind_ok. rewrite (padded_at _ _ _ Hn Hs b text l p lj w xs); [done|done|lia|].
    intros t Ht. rewrite Nat2Z.id. by apply (put_wide_at _ _ _ Hn Hs).
Qed.

Lemma put_s_at t l p a cs :
  0 < a -> Forall wide cs -> array b a (utf8s cs) -> zlen t + zlen cs < 2 ^ 63 ->
  put_s (at' t l p) a (length cs) = Ok (at' (t ++ cs) l p).
Proof.
  intros Ha Hcs. revert t a Ha. induction Hcs as [|w cs [Hw Hw0] _ IH]; intros t a Ha Hx Hl; cbn [put_s length utf8s] in *.
  { by rewrite app_nil_r. }
  apply array_app in Hx as [Hx Hxs]. cbn [bm at_]. rewrite (mbtowc_char b a w Ha Hw Hx), bind_ok. cbn [mb_wc mb_ret].
  rewrite (w32_put_at _ _ _ Hn Hs), bind_ok by lia. destruct (Z.eqb_spec w 0); [done|].
  rewrite IH; [by rewrite <- app_assoc|lia|done|rewrite length_app; cbn; lia].
Qed.

Lemma conv_s_at text a l p w pr lj cs :
  0 <= w -> -1 <= pr <= INT_MAX -> narrow_arg b pr a cs ->
  zlen text + zlen (field lj w cs) < 2 ^ 62 -> (length cs < fuel)%nat ->
  conv_s fuel (at' text (APtr a :: l) p) w pr lj = Ok (inl (at' (text ++ field lj w cs) l p)).
Proof.
  intros Hw Hpr (Ha & Hc & Hup) Hl Hf. rewrite field_length in Hl.
  unfold conv_s. cbn [aq at_ va_ptr]. rewrite bind_ok. destruct (Z.eqb_spec a 0); [lia|].
  change (set_aq (at' text (APtr a :: l) p) l) with (at' text l p).
  assert (Hend : array b a (utf8s cs) /\ zlen cs <= (if pr <? 0 then INT_MAX else pr) /\
    (pr < 0 -> b !! (a + zlen (utf8s cs)) = Some 0) /\
    (zlen cs = (if pr <? 0 then INT_MAX else pr) \/ b !! (a + zlen (utf8s cs)) = Some 0)).
  { destruct Hup as [[H Hle]|[H <-]].
    - apply zstr_end in H as Hz. apply zstr_array in H. split; [done|].
      destruct (Z.ltb_spec pr 0); (split; [lia|]); auto.
    - split; [done|]. destruct (Z.ltb_spec (zlen cs) 0); [lia|]. split; [lia|]. split; [lia|]. by left. }
  destruct Hend as (E0 & E1 & E2 & E3).
  destruct (count_s_from b fuel a (if pr <? 0 then INT_MAX else pr) 0 0 cs Ha Hc E0 Hf ltac:(lia) E1 E3)
    as (j & Hj & Hcount).
  unfold count_s. cbn [bm at_]. rewrite Hcount, bind_ok. destruct (Z.ltb_spec j 0); [lia|]. rewrite Z.add_0_l.
  destruct (Z.ltb_spec pr 0) as [Hneg|Hpos].
  - rewrite (ld_ok _ _ _ (E2 Hneg)), !bind_ok. cbn [Z.eqb negb].
    rewrite (padded_at _ _ _ Hn Hs b text l p lj w cs); [done|done|lia|].
    intros t Ht. rewrite Nat2Z.id. by apply put_s_at.
  - rewrite bind_ok. rewrite (padded_at _ _ _ Hn Hs b text l p lj w cs); [done|done|lia|].
    intros t Ht. rewrite Nat2Z.id. by apply put_s_at.
Qed.

Lemma emit_at text l p fl tail stars v t :
  (length fl <= 7)%nat -> (length tail <= 5)%nat -> number C fl tail stars v t ->
  zlen text + zlen t < 2 ^ 62 ->
  emit C (at' text l p) (cf_text fl tail) stars v = Ok (inl (at' (text ++ t) l p)).
Proof.
  intros Hfl Ht (raw & Hraw & -> & Hm) Hl. unfold emit, cf_text.
  rewrite take_ge by (cbn [length]; rewrite length_app; lia). rewrite Hraw.
  rewrite length_fmap in Hl.
  assert ((zlen raw >=? 256) && negb (mallocs C (zlen raw + 1)) = false) as ->.
  { destruct Hm as [Hm| ->]; [|by rewrite andb_false_r]. destruct (Z.geb_spec (zlen raw) 256); [lia|done]. }
  rewrite (put_all_at _ _ _ Hn Hs) by (rewrite ?length_fmap; lia). done.
Qed.

Lemma convert_at fs len conv l1 t l2 text p :
  converts C w0 b s n fs len conv l1 t l2 -> conv ∈ convs ->
  0 <= fs_w fs <= INT_MAX -> -1 <= fs_p fs <= INT_MAX -> (length (fs_flags fs) <= 7)%nat ->
  zlen text + zlen t < 2 ^ 62 -> (length t < fuel)%nat ->
  convert C fuel (at' text l1 p) (fs_flags fs) (fs_lj fs) (fs_w fs) (fs_p fs) len (fold_conv conv len) =
    Ok (inl (at' (text ++ t) l2 p)).
Proof.
  intros Hcv Hin Hw Hp Hfl Hl Hf. destruct (conv_facts conv Hin) as (_ & _ & _ & _ & _ & _ & _ & _ & _ & Hu8).
  destruct Hcv as [z l Hc Hlen|z l Hc|a xs l Hc Ha|a cs l Hc Hlen Ha|l Hc|z v t l Hc Hv Ht|z v t l Hc Hv Ht|a t l Hc Ht|x t l Hc Hlen Ht|x t l Hc Hlen Ht].
  - rewrite go_c by done. apply (conv_c_at text z l p 99); [lia|exact Hl].
  - rewrite go_C by done. apply (conv_c_at text z l p 67); [lia|exact Hl].
  - rewrite go_S by done. pose proof (field_length (fs_lj fs) (fs_w fs) xs). apply conv_S_at; try done; lia.
  - rewrite go_s by done. pose proof (field_length (fs_lj fs) (fs_w fs) cs). apply conv_s_at; try done; lia.
  - assert (conv = 83 \/ conv = 115 /\ len = LEN_L \/ conv = 115 /\ len <> LEN_L) as Hcase.
    { destruct (decide (len = LEN_L)); tauto. }
    destruct Hcase as [Hc'|[Hc'|Hc']]; [rewrite go_S by tauto|rewrite go_S by tauto|rewrite go_s by tauto];
      (unfold conv_S || unfold conv_s); cbn [aq at_ va_ptr]; rewrite bind_ok; cbn [Z.eqb]; cbv zeta;
      rewrite null_prefix_eq; change (set_aq (at' text (APtr 0 :: l) p) l) with (at' text l p);
      by rewrite padded_text by (done || lia).
  - rewrite go_int by done. unfold conv_int. cbn [aq at_]. rewrite Hv, Hu8.
    change (set_aq (at' text (AInt z :: l) p) l) with (at' text l p). by apply emit_at.
  - rewrite go_uint by done. unfold conv_uint. cbn [aq at_]. rewrite Hv, Hu8.
    change (set_aq (at' text (AInt z :: l) p) l) with (at' text l p). by apply emit_at.
  - rewrite go_p by done. unfold conv_p. cbn [aq at_ va_ptr]. rewrite bind_ok.
    change (set_aq (at' text (APtr a :: l) p) l) with (at' text l p). apply emit_at; try done. cbn. lia.
  - rewrite go_flt by done. unfold conv_flt. rewrite Hu8.
    destruct Hlen as [-> | ->]; cbn [aq at_];
      change (set_aq (at' text (AFlt x :: l) p) l) with (at' text l p); apply emit_at; try done; cbn; lia.
  - rewrite go_flt by done. unfold conv_flt. rewrite Hu8. subst len. cbn [aq at_].
    change (set_aq (at' text (ALFlt x :: l) p) l) with (at' text l p). by apply emit_at.
Qed.

End Converting.

(** ** The whole format *)

Lemma digits_no36 ds : Forall digit ds -> Forall (fun c => c <> 36) ds.
Proof. intros H. eapply List.Forall_impl; [|exact H]. unfold digit. cbn. lia. Qed.

Lemma print_dir_plain d : dir_ok d ->
  Forall (fun c => c <> 36) (print_dir d) /\ Exists not_digit (print_dir d).
Proof.
  intros [Hf Hw Hp Hc].
  assert (d_conv d ∈ stops) as Hst by (unfold stops, len_letters; set_solver).
  destruct (stops_facts _ Hst) as (Hnd & _ & _ & H36 & _). unfold print_dir. split.
  - rewrite !List.Forall_app. split; [|split; [|split; [|split]]].
    + apply list.Forall_forall. intros c Hc'. apply Hf in Hc'. unfold the_flags in Hc'. intros ->. set_solver by lia.
    + destruct (d_width d) as [|ds|]; cbn; [constructor|apply digits_no36, Hw|by repeat constructor].
    + destruct (d_prec d) as [|ds|]; cbn; [constructor|constructor; [done|apply digits_no36, Hp]|by repeat constructor].
    + destruct (d_len d); by repeat constructor.
    + by repeat constructor.
  - rewrite !Exists_app. do 4 right. by constructor.
Qed.

(** Positions of a list followed by the rest of the format. *)
Lemma zlen_app {A} (xs ys : list A) : zlen (xs ++ ys) = zlen xs + zlen ys.
Proof. rewrite length_app. lia. Qed.

Section Format.
  Context (C : libc) (w0 b : mem) (s n : Z) (fuel : nat).
  Hypothesis Hn : 0 < n.
  Hypothesis Hs : mapped w0 s n.
  Local Abbreviation at' := (at_ w0 s n b).

Lemma width_head wd pr len conv rest :
  width_ok wd -> conv ∈ convs ->
  is_flag (hd 0 (print_width wd ++ print_prec pr ++ print_len len ++ conv :: rest)) = false.
Proof.
  intros Hw Hc. destruct wd as [|ds|]; cbn [print_width app hd].
  - by destruct (stops_facts _ (prec_head pr len conv rest Hc)) as (_ & ? & _).
  - destruct Hw as (Hds & _ & Hne). destruct ds as [|c ds]; [done|]. cbn.
    apply List.Forall_cons_iff in Hds as [Hd _]. by destruct (digit_facts c Hd Hne).
  - done.
Qed.

Section OneDirective.
  Context (d : dir) (fs : field_spec) (l1 : list arg) (t : list Z) (l2 : list arg) (text rest : list Z).
  Hypothesis Hd : dir_ok d.
  Hypothesis Hcv : converts C w0 b s n fs (d_len d) (d_conv d) l1 t l2.
  Hypothesis Hfs : 0 <= fs_w fs <= INT_MAX /\ -1 <= fs_p fs <= INT_MAX /\ (length (fs_flags fs) <= 7)%nat.
  Hypothesis Hf : (length (print_dir d) + length t < fuel)%nat.
  Hypothesis Hl : zlen text + zlen t < 2 ^ 62.

Lemma from_prec_at w lj fl l p :
  resolve_prec d w lj fl l = Some (fs, l1) ->
  text_at w0 s n p (print_prec (d_prec d) ++ print_len (d_len d) ++ d_conv d :: rest) ->
  from_prec C fuel (at' text l p) fl lj w =
    Ok (inl (at' (text ++ t) l2 (p + zlen (print_prec (d_prec d) ++ print_len (d_len d) ++ [d_conv d])))).
Proof.
  intros Hr Ht. destruct Hfs as (Fw & Fp & Ffl). unfold from_prec. unfold resolve_prec in Hr.
  assert (Hstar : match d_prec d with PStar => exists z l', l = AInt z :: l' | _ => True end).
  { destruct (d_prec d); try done. destruct l as [|[z| | |] l']; try done. by exists z, l'. }
  rewrite (read_prec_ok w0 s n Hn b text d rest fuel Hd ltac:(lia) l p Ht Hstar).
  set (pq := p + zlen (print_prec (d_prec d))).
  assert (match d_prec d with
      | PNone => Ok (inl (-1, at' text l p))
      | PNum ds => Ok (inl (dec ds, at' text l (p + (1 + zlen ds))))
      | PStar => match l with
                 | AInt z :: l1 => Ok (inl (if s32 z <? 0 then -1 else s32 z, at' text l1 (p + 2)))
                 | _ => Fault
                 end
      end = Ok (inl (fs_p fs, at' text l1 pq)) /\ fs_w fs = w /\ fs_lj fs = lj /\ fs_flags fs = fl) as (-> & <- & <- & <-).
  { unfold pq. destruct (d_prec d) as [|ds|]; cbn [print_prec length].
    - injection Hr as <- <-. cbn. by rewrite Z.add_0_r.
    - injection Hr as <- <-. cbn [fs_p]. by rewrite Nat2Z.inj_succ, <- Z.add_1_l.
    - destruct l as [|[z| | |] l']; try done. by injection Hr as <- <-. }
  rewrite bind_ok. apply text_at_suffix in Ht. fold pq in Ht.
  destruct (read_len_ok w0 s n Hn b text d rest fuel Hd ltac:(lia) pq l1 pq Ht) as [H1 H2].
  change (f (at' text l1 pq)) with pq. rewrite H1, bind_ok, H2, bind_ok.
  set (q' := pq + zlen (print_len (d_len d)) + 1). change (set_f (at' text l1 pq) q') with (at' text l1 q').
  rewrite !zlen_app. cbn [length].
  replace (p + (zlen (print_prec (d_prec d)) + (zlen (print_len (d_len d)) + Z.of_nat 1))) with q' by (unfold q', pq; lia).
  apply (convert_at C w0 b s n fuel Hn Hs); try done; [apply Hd|lia].
Qed.

Lemma directive_at l p :
  resolve d l = Some (fs, l1) -> text_at w0 s n p (print_dir d ++ rest) ->
  directive C fuel (at' text l p) = Ok (inl (at' (text ++ t) l2 (p + zlen (print_dir d)))).
Proof.
  intros Hr Ht. unfold directive. cbn [wm at_ f].
  destruct (print_dir_plain d Hd) as [H36 Hex].
  rewrite (positional_false fuel _ p (print_dir d) rest (text_stored w0 s n Hn text _ _ Ht) H36 Hex) by lia.
  rewrite bind_ok. pose proof Hd as [Hfl Hw _ Hc].
  assert (Hlen : zlen (print_dir d) = zlen (d_flags d) + (zlen (print_width (d_width d)) +
    zlen (print_prec (d_prec d) ++ print_len (d_len d) ++ [d_conv d]))).
  { unfold print_dir. by rewrite !zlen_app. }
  unfold print_dir in Ht. rewrite <- !app_assoc in Ht. cbn [app] in Ht.
  rewrite (read_flags_ok fuel _ p (d_flags d) _ (text_stored w0 s n Hn text _ _ Ht) Hfl);
    [|by apply width_head|lia].
  rewrite bind_ok. apply text_at_suffix in Ht. rewrite Hlen, Z.add_assoc.
  destruct (distinct_spec (d_flags d) [] ltac:(constructor) ltac:(set_solver) Hfl) as (Hdd & Hds & _).
  change (set_f (at' text l p) (p + zlen (d_flags d))) with (at' text l (p + zlen (d_flags d))).
  set (p1 := p + zlen (d_flags d)) in *.
  assert (Hstar : match d_width d with WStar => exists z l', l = AInt z :: l' | _ => True end).
  { unfold resolve in Hr. destruct (d_width d); try done. destruct l as [|[z| | |] l']; try done. by exists z, l'. }
  rewrite (read_width_ok w0 s n Hn b text d rest fuel Hd ltac:(lia) l p1 _ _ Ht (flags_short _ Hdd Hds) Hstar).
  apply text_at_suffix in Ht. unfold resolve in Hr. rewrite Z.add_assoc.
  destruct (d_width d) as [|ds|]; cbn [print_width length] in *.
  - rewrite bind_ok. rewrite Z.add_0_r in *. by apply from_prec_at.
  - rewrite bind_ok. by apply from_prec_at.
  - destruct l as [|[z| | |] l']; try done. destruct (s32 z =? INT_MIN); [done|].
    destruct (s32 z <? 0); rewrite bind_ok; by apply from_prec_at.
Qed.

End OneDirective.

Lemma print_dir_head d : dir_ok d -> forall rest, hd 0 (print_dir d ++ rest) <> 37.
Proof.
  intros [Hf Hw Hp Hc] rest. unfold print_dir. destruct (d_flags d) as [|c fl]; cbn [app].
  - rewrite <- !app_assoc. cbn [app].
    destruct (d_width d) as [|ds|]; cbn [print_width app]; [| |done].
    + pose proof (prec_head (d_prec d) (d_len d) (d_conv d) rest Hc) as H.
      intros E. rewrite E in H. vm_compute in H. set_solver by lia.
    + destruct Hw as (Hds & _ & Hne). destruct ds as [|c ds]; [done|]. cbn.
      apply List.Forall_cons_iff in Hds as [Hd _]. unfold digit in Hd. lia.
  - cbn. assert (c ∈ the_flags) as Hin by (apply Hf; set_solver). unfold the_flags in Hin. set_solver by lia.
Qed.

Lemma print_item_pos i : (1 <= length (print_item i))%nat.
Proof. destruct i as [c| |d]; cbn; lia. Qed.

Lemma turn_item i l t l1 text p rest :
  item_ok i -> expands C w0 b s n i l t l1 -> text_at w0 s n p (print_item i ++ rest) ->
  (length (print_item i) + length t < fuel)%nat -> zlen text + zlen t <= INT_MAX ->
  turn C fuel (at' text l p) = Ok (inl (at' (text ++ t) l1 (p + zlen (print_item i)))).
Proof.
  intros Hi He Ht Hf Hl. assert (zlen text <= INT_MAX) by lia. assert (INT_MAX < 2 ^ 62) by done.
  unfold turn. change (f (at' text l p)) with p. rewrite (ld_text w0 s n Hn b text l p p _ Ht), bind_ok.
  change (o_len (o (at' text l p))) with (zlen text).
  destruct He as [c l|l|d l fs l1 t l2 Hr Hcv]; cbn [print_item app hd length] in *.
  - destruct Hi as [Hc0 Hc37]. destruct (Z.eqb_spec c 0); [done|].
    destruct (Z.gtb_spec (zlen text) INT_MAX); [lia|]. destruct (Z.eqb_spec c 37); [done|]. cbn [negb].
    by rewrite (w32_put_at w0 s n Hn Hs), bind_ok by lia.
  - cbn [Z.eqb negb Pos.eqb]. destruct (Z.gtb_spec (zlen text) INT_MAX); [lia|].
    apply text_at_tail in Ht as Ht1. rewrite (ld_text w0 s n Hn b text l p _ _ Ht1), bind_ok. cbn [hd Z.eqb Pos.eqb].
    by rewrite (w32_put_at w0 s n Hn Hs), bind_ok by lia.
  - cbn [Z.eqb negb Pos.eqb]. destruct (Z.gtb_spec (zlen text) INT_MAX); [lia|].
    apply text_at_tail in Ht as Ht1. rewrite (ld_text w0 s n Hn b text l p _ _ Ht1), bind_ok.
    rewrite (proj2 (Z.eqb_neq _ _) (print_dir_head d Hi rest)).
    change (set_f (at' text l p) (p + 1)) with (at' text l (p + 1)).
    rewrite (directive_at d fs l1 t l2 text rest); try done; [|by apply (resolve_facts d l fs l1)|lia|lia].
    rewrite bind_ok. do 3 f_equal. lia.
Qed.

Lemma items_at items l t l1 : expands_all C w0 b s n items l t l1 ->
  forall text p rest k, Forall item_ok items -> text_at w0 s n p (print_items items ++ rest) ->
  (length (print_items items) + length t < fuel)%nat -> zlen text + zlen t <= INT_MAX ->
  loop (length items + k) (turn C fuel) (at' text l p) =
    loop k (turn C fuel) (at' (text ++ t) l1 (p + zlen (print_items items))).
Proof.
  induction 1 as [l|i items l t l1 ts l2 He _ IH]; intros text p rest k Hok Ht Hf Hl.
  { cbn. by rewrite app_nil_r, Z.add_0_r. }
  apply List.Forall_cons_iff in Hok as [Hi Hok]. unfold print_items in Ht, Hf |- *. cbn [fmap list_fmap concat] in *.
  fold (print_items items) in *. rewrite <- app_assoc in Ht. rewrite !length_app in Hf. rewrite zlen_app in Hl.
  cbn [length Nat.add]. rewrite loop_step.
  rewrite (turn_item i l t l1 text p _ Hi He Ht) by lia. rewrite bind_ok.
  rewrite (IH _ _ rest); [|done|by apply text_at_suffix in Ht|lia|rewrite zlen_app; lia].
  rewrite <- app_assoc, zlen_app. by rewrite Z.add_assoc.
Qed.

Lemma items_count items : (length items <= length (print_items items))%nat.
Proof.
  induction items as [|i items IH]; [done|]. unfold print_items. cbn [fmap list_fmap concat length].
  fold (print_items items). rewrite length_app. pose proof (print_item_pos i). lia.
Qed.

Lemma finish_at text l p e :
  finish n (at' text l p) e = Ok (mk_result (write w0 s (take (Z.to_nat (n - 1)) text ++ [0])) b
    (match e with Stop => if zlen text <? n then zlen text else -1 | _ => -1 end)
    (match e with Inval => Some EINVAL | Overflow => Some EOVERFLOW | Fail e => e | Stop => None end)).
Proof.
  unfold finish. cbn [o at_ o_len o_cap o_s wm bm].
  assert (s + (if zlen text <? n - 1 then zlen text else n - 1) = s + zlen (take (Z.to_nat (n - 1)) text)) as ->.
  { rewrite length_take. destruct (Z.ltb_spec (zlen text) (n - 1)); lia. }
  rewrite st_ok.
  - rewrite bind_ok. unfold stored. rewrite <- write_snoc. do 2 f_equal.
    destruct e; try done. destruct (Z.geb_spec (zlen text) n), (Z.ltb_spec (zlen text) n); try done; lia.
  - apply mapped_write with (q := s) (n := n); [done|]. rewrite length_take. lia.
Qed.

End Format.

Lemma at_start w b s n l p : mk_state w b (mk_out s (n - 1) 0) l p = at_ w s n b [] l p.
Proof. unfold at_, stored. by rewrite take_nil. Qed.

Lemma turn_end C w b s n fuel text l p :
  0 < n -> text_at w s n p [] -> zlen text <= INT_MAX ->
  turn C fuel (at_ w s n b text l p) = Ok (inr (at_ w s n b text l p, Stop)).
Proof.
  intros Hn Ht Hl. unfold turn. change (f (at_ w s n b text l p)) with p.
  rewrite (ld_text w s n Hn b text l p p [] Ht), bind_ok. cbn [hd Z.eqb].
  change (o_len (o (at_ w s n b text l p))) with (zlen text).
  by destruct (Z.gtb_spec (zlen text) INT_MAX); [lia|].
Qed.

(** C6: [vswprintf] on a format of literals, [%%] and directives produces the
    concatenation of their texts: flags without repetition, width and
    precision from the format or from the arguments, a negative width argument
    justifying left, strings cut to the precision in characters and padded,
    numbers as the narrow [snprintf] prints them under the rebuilt format.  It
    stores the first [n-1] characters and a terminator and nothing else, and
    returns the length, or -1 when the text did not fit. *)
Theorem vswprintf_correct (C : libc) (fuel : nat) (w b : mem) (s n fmt : Z)
    (items : list item) (ap rest : list arg) (text : list Z) :
  0 < n -> mapped w s n -> Forall item_ok items -> text_at w s n fmt (print_items items) ->
  expands_all C w b s n items ap text rest -> zlen text <= INT_MAX ->
  (length (print_items items) + length text < fuel)%nat ->
  vswprintf C fuel w b s n fmt ap =
    Ok (mk_result (write w s (take (Z.to_nat (n - 1)) text ++ [0])) b
          (if zlen text <? n then zlen text else -1) None).
Proof.
  intros Hn Hs Hok Ht He Hl Hf. unfold vswprintf. destruct (Z.eqb_spec n 0); [lia|].
  rewrite (at_start w b s n ap fmt).
  pose proof (items_count items). replace fuel with (length items + S (fuel - length items - 1))%nat at 1 by lia.
  rewrite (items_at C w b s n fuel Hn Hs items ap text rest He [] fmt []); [|done|by rewrite app_nil_r|lia|done].
  rewrite <- (app_nil_r (print_items items)) in Ht. apply text_at_suffix in Ht. cbn [app].
  rewrite loop_step, (turn_end C w b s n fuel text rest _ Hn Ht Hl), !bind_ok. by rewrite (finish_at w b s n Hn Hs).
Qed.

(** What cannot continue a directive, the end of the format included. *)
Definition bad_letter (c : Z) : Prop :=
  not_digit c /\ is_flag c = false /\ c ∉ [42; 37; 113; 110] ++ stops.

Lemma directive_bad C w b s n fuel text l p tail :
  0 < n -> text_at w s n p tail -> bad_letter (hd 0 tail) -> (0 < fuel)%nat ->
  directive C fuel (at_ w s n b text l p) = Ok (inr Inval).
Proof.
  intros Hn Ht (Hd & Hfl & Hc) Hf. unfold stops, len_letters in Hc. set (c := hd 0 tail) in *.
  pose proof (text_stored w s n Hn text p tail Ht) as Hz. pose proof (ld_head _ _ _ Hz) as Hld. fold c in Hld.
  destruct fuel as [|fuel]; [lia|].
  assert (positional (S fuel) (stored w s n text) p = Ok false) as Hpos.
  { unfold positional. rewrite while_stop; [|by rewrite Hld, bind_ok, Hd]. by rewrite bind_ok, Z.eqb_refl. }
  assert (read_flags (S fuel) (stored w s n text) p = Ok ([], false, p)) as Hrf.
  { rewrite (read_flags_ok _ _ p [] tail); [by rewrite Z.add_0_r|done|set_solver|done|cbn; lia]. }
  assert (read_width (S fuel) (at_ w s n b text l p) [] false = Ok (inl (0, [], false, at_ w s n b text l p))) as Hrw.
  { unfold read_width. change (f (at_ w s n b text l p)) with p. change (wm (at_ w s n b text l p)) with (stored w s n text).
    rewrite Hld, bind_ok. rewrite (proj2 (Z.eqb_neq c 42)) by set_solver.
    rewrite (w32_getint_ok _ _ p [] tail); [|done|constructor|done|unfold INT_MAX; cbn; lia|cbn; lia].
    rewrite bind_ok. cbn. by rewrite Z.add_0_r. }
  unfold directive. change (f (at_ w s n b text l p)) with p. change (wm (at_ w s n b text l p)) with (stored w s n text).
  rewrite Hpos, bind_ok, Hrf, bind_ok. change (set_f (at_ w s n b text l p) p) with (at_ w s n b text l p).
  rewrite Hrw, bind_ok. unfold from_prec, read_prec. change (f (at_ w s n b text l p)) with p.
  change (wm (at_ w s n b text l p)) with (stored w s n text). rewrite Hld, !bind_ok.
  rewrite (proj2 (Z.eqb_neq c 46)) by set_solver. cbn [negb]. rewrite bind_ok.
  change (f (at_ w s n b text l p)) with p. change (wm (at_ w s n b text l p)) with (stored w s n text).
  assert (read_len (stored w s n text) p = Ok (LEN_NONE, p)) as ->.
  { unfold read_len. rewrite Hld, bind_ok.
    repeat match goal with |- context [c =? ?k] => rewrite (proj2 (Z.eqb_neq c k)) by set_solver end. done. }
  rewrite bind_ok, Hld, bind_ok. unfold convs in Hc.
  assert (c <> 99 /\ c <> 115 /\ c <> 110 /\ c <> 83 /\ c <> 112) as (n1 & n2 & n3 & n4 & n5) by set_solver.
  rewrite fold_conv_id by done. unfold convert, is_one_of.
  repeat match goal with |- context [c =? ?k] => rewrite (proj2 (Z.eqb_neq c k)) by done end.
  repeat (rewrite bool_decide_false by set_solver). done.
Qed.

Lemma turn_bad C w b s n fuel text l p tail :
  0 < n -> text_at w s n p (37 :: tail) -> bad_letter (hd 0 tail) -> zlen text <= INT_MAX -> (0 < fuel)%nat ->
  turn C fuel (at_ w s n b text l p) = Ok (inr (at_ w s n b text l p, Inval)).
Proof.
  intros Hn Ht Hbad Hl Hf. apply text_at_tail in Ht as Ht1. unfold turn.
  change (f (at_ w s n b text l p)) with p.
  rewrite (ld_text w s n Hn b text l p p _ Ht), bind_ok. cbn [hd Z.eqb Pos.eqb negb].
  change (o_len (o (at_ w s n b text l p))) with (zlen text).
  destruct (Z.gtb_spec (zlen text) INT_MAX); [lia|].
  rewrite (ld_text w s n Hn b text l p _ _ Ht1), bind_ok.
  destruct (Z.eqb_spec (hd 0 tail) 37) as [E|_]; [destruct Hbad as (_ & _ & Hc); set_solver|].
  change (set_f (at_ w s n b text l p) (p + 1)) with (at_ w s n b text l (p + 1)).
  by rewrite (directive_bad C w b s n fuel text l (p + 1) tail).
Qed.

(** A directive that is no directive, or a [%] at the end of the format,
    ends the call with -1 and EINVAL; what was produced before it is stored
    and terminated. *)
Theorem vswprintf_invalid (C : libc) (fuel : nat) (w b : mem) (s n fmt : Z)
    (items : list item) (tail : list Z) (ap rest : list arg) (text : list Z) :
  0 < n -> mapped w s n -> Forall item_ok items ->
  text_at w s n fmt (print_items items ++ 37 :: tail) -> bad_letter (hd 0 tail) ->
  expands_all C w b s n items ap text rest -> zlen text <= INT_MAX ->
  (length (print_items items) + length text < fuel)%nat ->
  vswprintf C fuel w b s n fmt ap =
    Ok (mk_result (write w s (take (Z.to_nat (n - 1)) text ++ [0])) b (-1) (Some EINVAL)).
Proof.
  intros Hn Hs Hok Ht Hbad He Hl Hf. unfold vswprintf. destruct (Z.eqb_spec n 0); [lia|].
  rewrite (at_start w b s n ap fmt).
  pose proof (items_count items). replace fuel with (length items + S (fuel - length items - 1))%nat at 1 by lia.
  rewrite (items_at C w b s n fuel Hn Hs items ap text rest He [] fmt (37 :: tail)); [|done|done|lia|done].
  apply text_at_suffix in Ht. cbn [app].
  rewrite loop_step, (turn_bad C w b s n fuel text rest _ tail), !bind_ok by (done || lia).
  by rewrite (finish_at w b s n Hn Hs).
Qed.

(** ** An example *)

(** A narrow [snprintf] of one-digit numbers. *)
Definition demo_libc : libc :=
  mk_libc (fun _ _ v => match v with VInt z => Some [48 + z mod 10] | _ => None end) (fun _ => false).

(** [x=%-*s|%d%%] with arguments 5, a narrow string in two bytes for its
    second character, and 7. *)
Definition demo_items : list item :=
  [Lit 120; Lit 61; Dir (mk_dir [45] WStar PNone LEN_NONE 115); Lit 124;
   Dir (mk_dir [] WNone PNone LEN_NONE 100); Percent].
Definition demo_wide (tail : list Z) : mem := write (write ∅ 100 (print_items demo_items ++ tail ++ [0])) 200 (replicate 12 7).
Definition demo_narrow : mem := write ∅ 500 [104; 0xc3; 0xa9; 0].
Definition demo_args : list arg := [AInt 5; APtr 500; AInt 7].
Definition demo_text : list Z := [120; 61; 104; 233; 32; 32; 32; 124; 55; 37].

Lemma demo_items_ok : Forall item_ok demo_items.
Proof.
  assert (forall fl wd c, fl ⊆ the_flags -> width_ok wd -> bool_decide (c ∈ convs) = true ->
    dir_ok (mk_dir fl wd PNone LEN_NONE c)) as H.
  { intros fl wd c H1 H2 H3. constructor; try done. by apply bool_decide_eq_true in H3. }
  apply List.Forall_cons_iff. split; [by split|]. apply List.Forall_cons_iff. split; [by split|].
  apply List.Forall_cons_iff. split; [apply H; [unfold the_flags; set_solver|done|vm_compute; reflexivity]|].
  apply List.Forall_cons_iff. split; [by split|].
  apply List.Forall_cons_iff. split; [apply H; [set_solver|done|vm_compute; reflexivity]|].
  by repeat constructor.
Qed.

Lemma demo_expands w n : expands_all demo_libc w demo_narrow 200 n demo_items demo_args demo_text [].
Proof.
  apply (ea_cons _ _ _ _ _ _ _ demo_args [120] demo_args [61; 104; 233; 32; 32; 32; 124; 55; 37]); [constructor|].
  apply (ea_cons _ _ _ _ _ _ _ demo_args [61] demo_args [104; 233; 32; 32; 32; 124; 55; 37]); [constructor|].
  apply (ea_cons _ _ _ _ _ _ _ demo_args [104; 233; 32; 32; 32] [AInt 7] [124; 55; 37]).
  { apply (ex_dir _ _ _ _ _ _ _ (mk_fs 5 (-1) true [45]) [APtr 500; AInt 7]); [done|].
    apply (cv_s demo_libc w demo_narrow 200 n (mk_fs 5 (-1) true [45]) LEN_NONE 115 500 [104; 233] [AInt 7]); [done|done|].
    split; [lia|]. split; [repeat constructor; unfold scalar; lia|]. left. split; [layout|].
    left. cbn. unfold INT_MAX. lia. }
  apply (ea_cons _ _ _ _ _ _ _ [AInt 7] [124] [AInt 7] [55; 37]); [constructor|].
  apply (ea_cons _ _ _ _ _ _ _ [AInt 7] [55] [] [37]).
  { apply (ex_dir _ _ _ _ _ _ _ (mk_fs 0 (-1) false []) [AInt 7]); [done|].
    apply (cv_int demo_libc w demo_narrow 200 n (mk_fs 0 (-1) false []) LEN_NONE 100 7 7 [55] []); [by constructor|done|]. exists [55]. repeat split; try done. by left. }
  apply (ea_cons _ _ _ _ _ _ _ [] [37] [] []); [constructor|constructor].
Qed.

Lemma demo_text_at tail : zstr_b (demo_wide tail) 100 (print_items demo_items ++ tail) = true ->
  (length tail <= 8)%nat -> text_at (demo_wide tail) 200 11 100 (print_items demo_items ++ tail).
Proof.
  intros Hz Hl. split; [by apply zstr_check|]. rewrite length_app. unfold apart. right. cbn. lia.
Qed.

Lemma vswprintf_witness :
  vswprintf demo_libc 40 (demo_wide []) demo_narrow 200 11 100 demo_args =
    Ok (mk_result (write (demo_wide []) 200 (demo_text ++ [0])) demo_narrow 10 None).
Proof.
  apply (vswprintf_correct demo_libc 40 (demo_wide []) demo_narrow 200 11 100 demo_items demo_args [] demo_text);
    [lia|layout|exact demo_items_ok| |apply demo_expands|unfold INT_MAX; cbn; lia|cbn; lia].
  apply (demo_text_at []); [vm_compute; reflexivity|cbn; lia].
Defined.

Lemma vswprintf_invalid_witness :
  vswprintf demo_libc 40 (demo_wide [37; 33]) demo_narrow 200 11 100 demo_args =
    Ok (mk_result (write (demo_wide [37; 33]) 200 (demo_text ++ [0])) demo_narrow (-1) (Some EINVAL)).
Proof.
  apply (vswprintf_invalid demo_libc 40 (demo_wide [37; 33]) demo_narrow 200 11 100 demo_items [33] demo_args [] demo_text);
    [lia|layout|exact demo_items_ok| | |apply demo_expands|unfold INT_MAX; cbn; lia|cbn; lia].
  - apply (demo_text_at [37; 33]); [vm_compute; reflexivity|cbn; lia].
  - split; [done|]. split; [done|]. apply not_elem_of_app. unfold stops, len_letters, convs. cbn [hd app]. split; set_solver by lia.
Defined.
