(* ===== verification/Paths.v ===== *)
(** [src/orbis_paths.cpp] and [src/orbis_stat.cpp]: relative paths anchored at
    a title's own directory, and the kernel's [struct stat] translated into
    the SDK's.

    Paths are lists of bytes without the terminator, [None] is the null
    pointer.  The kernel is a parameter that answers from the history of
    calls; so are the flag values of the SDK's <fcntl.h>.  The texts of log
    lines are left out, the flag of [anchorSayOnce] is kept. *)
From Stdlib Require Import String.
From stdpp Require Import prelude list numbers.
From S2P Require Import Prelude Memory Report UmtxTime.
Open Scope Z_scope.

Module Paths.

Abbreviation path := (list Z).

Definition EIO : Z := 5.
Definition EFAULT : Z := 14.
Definition EEXIST : Z := 17.
Definition ENOSYS : Z := 78.
Definition AT_FDCWD : Z := -100.

Inductive kcall :=
  | KAppInfo | KMkdir (p : path)
  | KOpen (p : option path) (flags mode : Z) | KCloexec (fd : Z)
  | KUnlink (p : option path) | KRename (a b : option path) | KRmdir (p : option path)
  | KStat (p : option path) | KFstat (fd : Z).

Record host := mk_host {
  O_CREAT : Z; O_TMPFILE : option Z; O_CLOEXEC : option Z;
  sceKernelGetAppInfo : list kcall -> Z * list Z;         (* the code and the 10 bytes of TitleId *)
  mkdir : list kcall -> path -> option Z;                   (* errno, or success *)
  _open : list kcall -> option path -> Z -> Z -> Z;
  sceKernelUnlink : list kcall -> option path -> Z;
  sceKernelRename : list kcall -> option path -> option path -> Z;
  sceKernelRmdir : list kcall -> option path -> Z;
  sceKernelStat : list kcall -> option path -> Z * list Z; (* the code and the bytes written *)
  _fstat : list kcall -> Z -> Z * list Z;
  (** the errno the latest call left, when it is one that reports there *)
  left_errno : list kcall -> option Z }.

(** The statics of the two files; [root] is the function static of
    [anchorRoot], [said] the one of [anchorSayOnce]. *)
Record state := mk_state {
  s_rootDecided : bool; s_rootOverride : path; root : option path; said : bool;
  errno : Z; hist : list kcall }.

Definition initial : state := mk_state false [] None false 0 [].

Definition set_errno (s : state) e := mk_state (s_rootDecided s) (s_rootOverride s) (root s) (said s) e (hist s).
Definition did (s : state) k := mk_state (s_rootDecided s) (s_rootOverride s) (root s) (said s) (errno s) (k :: hist s).
Definition did_errno (H : host) (s : state) k :=
  match left_errno H (k :: hist s) with Some e => set_errno (did s k) e | None => did s k end.
Definition set_override (s : state) p := mk_state (s_rootDecided s) p (root s) (said s) (errno s) (hist s).
Definition set_root (s : state) p := mk_state true (s_rootOverride s) (Some p) (said s) (errno s) (hist s).
Definition set_said (s : state) := mk_state (s_rootDecided s) (s_rootOverride s) (root s) true (errno s) (hist s).

Definition slash : Z := 47.

(** ** The anchor *)

Definition is_alnum (c : Z) : bool :=
  ((65 <=? c) && (c <=? 90)) || ((97 <=? c) && (c <=? 122)) || ((48 <=? c) && (c <=? 57)).

(** The loop of [titleIdLooksReal]; [n] is the index reached. *)
Fixpoint looks_real_from (n : Z) (id : list Z) : bool :=
  match id with
  | [] => 0 <? n
  | c :: r =>
      if c =? 0 then 0 <? n
      else if 9 <=? n then false
      else if negb (is_alnum c) then false
      else looks_real_from (n + 1) r
  end.
Definition titleIdLooksReal (id : list Z) : bool := looks_real_from 0 id.

(** The C string at the start of [id]. *)
Fixpoint cstr (id : list Z) : path :=
  match id with [] => [] | c :: r => if c =? 0 then [] else c :: cstr r end.

(** [id] is nine bytes of the field and a terminator; the empty string means
    the call did not answer. *)
Definition titleIdRoot (H : host) (s : state) : state * path :=
  let '(rc, title) := sceKernelGetAppInfo H (hist s) in
  let s := did s KAppInfo in
  let id := take 9 (title ++ replicate 10 0) ++ [0] in
  if negb (rc =? 0) then (s, [])
  else if negb (titleIdLooksReal id) then (s, [])
  else (s, bytes "/data/" ++ cstr id ++ [slash]).

Definition back (p : path) : Z := List.last p 0.

(** [anchorRoot]: the first call decides, and makes the directory. *)
Definition anchorRoot (H : host) (s : state) : state * path :=
  match root s with
  | Some r => (s, r)
  | None =>
      let r := s_rootOverride s in
      let '(s, r) := if bool_decide (r = []) then titleIdRoot H s else (s, r) in
      let r := if bool_decide (r = []) then bytes "/data/orbis-compat/" else r in
      let dir := take (length r - 1) r in
      let s' := did (set_root s r) (KMkdir dir) in
      (match mkdir H (hist s) dir with Some e => set_errno s' e | None => s' end, r)
  end.

Definition orbis_set_anchor_root (s : state) (p : option path) : state :=
  match p with
  | Some (c :: q) =>
      if negb (c =? slash) then s
      else if s_rootDecided s then s
      else set_override s (if back (c :: q) =? slash then c :: q else (c :: q) ++ [slash])
  | _ => s
  end.

(** The path that is passed on. *)
Definition anchorPath (H : host) (s : state) (p : option path) (bufSize : Z) : state * option path :=
  match p with
  | None | Some [] => (s, p)
  | Some (c :: q) =>
      if c =? slash then (s, p)
      else
        let '(s, r) := anchorRoot H s in
        let n := Z.of_nat (length (c :: q)) in
        if Z.of_nat (length r) + n + 1 >? bufSize then (s, p)
        else (set_said s, Some (r ++ c :: q))
  end.

(** ** Translated [struct stat] *)

Record stat_t := mk_stat {
  st_dev : Z; st_ino : Z; st_mode : Z; st_nlink : Z; st_uid : Z; st_gid : Z; st_rdev : Z;
  st_size : Z; st_blocks : Z; st_blksize : Z; st_flags : Z; st_gen : Z;
  st_atim : timespec; st_mtim : timespec; st_ctim : timespec; st_birthtim : timespec }.

Definition kDev : nat := 0x00.
Definition kIno : nat := 0x04.
Definition kMode : nat := 0x08.
Definition kNlink : nat := 0x0a.
Definition kUid : nat := 0x0c.
Definition kGid : nat := 0x10.
Definition kRdev : nat := 0x14.
Definition kAtim : nat := 0x18.
Definition kMtim : nat := 0x28.
Definition kCtim : nat := 0x38.
Definition kSize : nat := 0x48.
Definition kBlocks : nat := 0x50.
Definition kBlksize : nat := 0x58.
Definition kFlags : nat := 0x5c.
Definition kGen : nat := 0x60.
Definition kBirth : nat := 0x68.
Definition kScratch : nat := 256.

Fixpoint le_val (bs : list Z) : Z := match bs with [] => 0 | b :: r => b + 256 * le_val r end.

(** [fieldAt<T>] for an unsigned type of [n] bytes, and for [int64_t]. *)
Definition fieldAt (n : nat) (raw : list Z) (off : nat) : Z := le_val (take n (drop off raw)).
Definition fieldAt_s64 (raw : list Z) (off : nat) : Z := s64 (fieldAt 8 raw off).
Definition sonyStatQword (raw : list Z) (off : nat) : Z := fieldAt_s64 raw off.

Definition readTimespec (raw : list Z) (off : nat) : timespec :=
  mk_ts (fieldAt_s64 raw off) (fieldAt_s64 raw (off + 8)).

(** The casts go to the SDK's field types, which hold the kernel's.  The last
    store of [translate] puts the size at byte 0x48 of the caller's
    struct, which the static assertion says is [st_ctim.tv_nsec]. *)
Definition translate (raw : list Z) : stat_t :=
  let ctim := readTimespec raw kCtim in
  mk_stat (fieldAt 4 raw kDev) (fieldAt 4 raw kIno) (fieldAt 2 raw kMode) (fieldAt 2 raw kNlink)
    (fieldAt 4 raw kUid) (fieldAt 4 raw kGid) (fieldAt 4 raw kRdev)
    (fieldAt_s64 raw kSize) (fieldAt_s64 raw kBlocks) (fieldAt 4 raw kBlksize)
    (fieldAt 4 raw kFlags) (fieldAt 4 raw kGen)
    (readTimespec raw kAtim) (readTimespec raw kMtim)
    (mk_ts (tv_sec ctim) (fieldAt_s64 raw kSize)) (readTimespec raw kBirth).

(** The scratch buffer after the kernel has written [bs] into it. *)
Definition scratch (bs : list Z) : list Z := take kScratch (bs ++ replicate kScratch 0).

(** [0x8002_0000 | errno], or EIO for a code that is not of this form. *)
Definition sce_errno (rc : Z) : Z :=
  if Z.shiftr (u32 rc) 16 =? 0x8002 then Z.land rc 0xFFFF else EIO.

Definition sceFailure (s : state) (rc : Z) : state * Z := (set_errno s (sce_errno rc), -1).

Definition kSonyStatSize : nat := 120.

(** [orbis::rawKernelFstat]: the kernel's bytes as they are. *)
Definition rawKernelFstat (H : host) (s : state) (fd : Z) : state * Z * list Z :=
  let '(rc, bs) := _fstat H (hist s) fd in
  (did_errno H s (KFstat fd), rc, take kSonyStatSize (bs ++ replicate kSonyStatSize 0)).

Definition fstat (H : host) (s : state) (fd : Z) (has_out : bool) : state * Z * option stat_t :=
  if negb has_out then (set_errno s EFAULT, -1, None) else
  let '(rc, bs) := _fstat H (hist s) fd in
  let s := did_errno H s (KFstat fd) in
  if negb (rc =? 0) then (s, rc, None) else (s, 0, Some (translate (scratch bs))).

Definition stat (H : host) (s : state) (p : option path) (has_out : bool) : state * Z * option stat_t :=
  if bool_decide (p = None) || negb has_out then (set_errno s EFAULT, -1, None) else
  let '(s, a) := anchorPath H s p 512 in
  let '(rc, bs) := sceKernelStat H (hist s) a in
  let s := did s (KStat a) in
  if negb (rc =? 0) then (set_errno s (sce_errno rc), -1, None)
  else (s, 0, Some (translate (scratch bs))).

Definition lstat := stat.

Definition fstatat (H : host) (s : state) (fd : Z) (p : option path) (has_out : bool) (flag : Z)
    : state * Z * option stat_t :=
  if bool_decide (p = None) || negb has_out then (set_errno s EFAULT, -1, None)
  else if (match p with Some (c :: _) => c =? slash | _ => false end) || (fd =? AT_FDCWD)
  then stat H s p has_out
  else (set_errno s ENOSYS, -1, None).

(** ** The calls that take a path *)

(** [mode] is the variadic argument, when the caller passed one. *)
Definition wants_mode (H : host) (flags : Z) : bool :=
  negb (Z.land flags (O_CREAT H) =? 0) ||
  match O_TMPFILE H with Some t => Z.land flags t =? t | None => false end.

Definition open (H : host) (s : state) (p : option path) (flags : Z) (mode : option Z) : outcome (state * Z) :=
  m ← (if wants_mode H flags then match mode with Some m => Ok m | None => Fault end else Ok 0);
  let '(s, a) := anchorPath H s p 512 in
  let fd := _open H (hist s) a flags m in
  let s := did_errno H s (KOpen a flags m) in
  let cloexec := match O_CLOEXEC H with Some c => (0 <=? fd) && negb (Z.land flags c =? 0) | None => false end in
  Ok (if cloexec then did_errno H s (KCloexec fd) else s, fd).

Definition unlink (H : host) (s : state) (p : option path) : state * Z :=
  let '(s, a) := anchorPath H s p 512 in
  let rc := sceKernelUnlink H (hist s) a in
  let s := did s (KUnlink a) in
  if negb (rc =? 0) then sceFailure s rc else (s, 0).

Definition rename (H : host) (s : state) (from to_ : option path) : state * Z :=
  let '(s, f) := anchorPath H s from 512 in
  let '(s, t) := anchorPath H s to_ 512 in
  let rc := sceKernelRename H (hist s) f t in
  let s := did s (KRename f t) in
  if negb (rc =? 0) then sceFailure s rc else (s, 0).

(** [S_ISDIR] *)
Definition s_isdir (mode : Z) : bool := Z.land mode 0xF000 =? 0x4000.

Definition remove (H : host) (s : state) (p : option path) : state * Z :=
  match stat H s p true with
  | (s, 0, Some st) =>
      if negb (s_isdir (st_mode st)) then unlink H s p
      else
        let '(s, a) := anchorPath H s p 512 in
        let rc := sceKernelRmdir H (hist s) a in
        let s := did s (KRmdir a) in
        if negb (rc =? 0) then sceFailure s rc else (s, 0)
  | (s, _, _) => (s, -1)
  end.

End Paths.
Export Paths.
