(* ===== verification/PathsRun.v ===== *)
(** What [Paths] promises over a whole run: whatever calls the program makes,
    every path the kernel is given is the caller's own or lies under one
    root, chosen once; and every call gives the caller what the kernel answered
    to exactly the calls it makes. *)
From Stdlib Require Import String.
From stdpp Require Import prelude list numbers.
From S2P Require Import Prelude Memory Report UmtxTime Paths.
Open Scope Z_scope.

(** ** Calls *)

Inductive call :=
  | SetRoot (p : option path)
  | Anchor (p : option path) (bufSize : Z)
  | Open (p : option path) (flags : Z) (mode : option Z)
  | Unlink (p : option path)
  | Rename (a b : option path)
  | Remove (p : option path)
  | Stat (p : option path) (has_out : bool)
  | Fstat (fd : Z) (has_out : bool)
  | Fstatat (fd : Z) (p : option path) (has_out : bool) (flag : Z).

Inductive ret :=
  | RNone
  | RPath (p : option path)
  | RInt (z : Z)
  | RStat (z : Z) (st : option stat_t).

Definition step (H : host) (s : state) (c : call) : outcome (state * ret) :=
  match c with
  | SetRoot p => Ok (orbis_set_anchor_root s p, RNone)
  | Anchor p n => let '(s, a) := anchorPath H s p n in Ok (s, RPath a)
  | Open p f m => '(s, fd) ← open H s p f m; Ok (s, RInt fd)
  | Unlink p => let '(s, z) := unlink H s p in Ok (s, RInt z)
  | Rename a b => let '(s, z) := rename H s a b in Ok (s, RInt z)
  | Remove p => let '(s, z) := remove H s p in Ok (s, RInt z)
  | Stat p o => let '(s, z, st) := stat H s p o in Ok (s, RStat z st)
  | Fstat fd o => let '(s, z, st) := fstat H s fd o in Ok (s, RStat z st)
  | Fstatat fd p o f => let '(s, z, st) := fstatat H s fd p o f in Ok (s, RStat z st)
  end.

(** Each call's result, and errno after it. *)
Fixpoint run (H : host) (s : state) (cs : list call) : outcome (state * list (ret * Z)) :=
  match cs with
  | [] => Ok (s, [])
  | c :: cs => '(s, x) ← step H s c; '(s', xs) ← run H s cs; Ok (s', (x, errno s) :: xs)
  end.

(** ** What a call may do, given the root *)

(** A path as the kernel sees it under the root [r]. *)
Definition seen (r : path) (n : Z) (p : option path) : option path :=
  match p with
  | Some (c :: q) =>
      if (c =? slash) || (n <? Z.of_nat (length r) + Z.of_nat (length (c :: q)) + 1) then p
      else Some (r ++ c :: q)
  | _ => p
  end.

Definition refused (p : option path) (has_out : bool) : bool := bool_decide (p = None) || negb has_out.
Definition here (fd : Z) (p : option path) : bool :=
  (match p with Some (c :: _) => c =? slash | _ => false end) || (fd =? AT_FDCWD).

(** What a call reports of an SCE code: 0, or -1 and the errno in the code. *)
Definition sce_done (rc : Z) (x : ret) (er : Z) : Prop :=
  if rc =? 0 then x = RInt 0 else x = RInt (-1) /\ er = sce_errno rc.
Definition stat_done (answer : Z * list Z) (x : ret) (er : Z) : Prop :=
  let '(rc, bs) := answer in
  if rc =? 0 then x = RStat 0 (Some (translate (scratch bs))) else x = RStat (-1) None /\ er = sce_errno rc.
Definition cloexec (H : host) (flags fd : Z) : bool :=
  match O_CLOEXEC H with Some c => (0 <=? fd) && negb (Z.land flags c =? 0) | None => false end.

(** One call, the kernel having been asked [h] before: the kernel calls it
    makes, newest first, its result and the errno it leaves.  Whatever it
    reports is what the kernel answered to those very calls. *)
Definition emits (H : host) (r : path) (h : list kcall) (c : call) (evs : list kcall) (x : ret) (er : Z) : Prop :=
  match c with
  | SetRoot _ => evs = [] /\ x = RNone
  | Anchor p n => evs = [] /\ x = RPath (seen r n p)
  | Open p f m =>
      let a := seen r 512 p in
      let md := if wants_mode H f then default 0 m else 0 in
      let fd := _open H h a f md in
      x = RInt fd /\ evs = (if cloexec H f fd then [KCloexec fd] else []) ++ [KOpen a f md]
  | Unlink p => let a := seen r 512 p in evs = [KUnlink a] /\ sce_done (sceKernelUnlink H h a) x er
  | Rename p q =>
      let a := seen r 512 p in let b := seen r 512 q in
      evs = [KRename a b] /\ sce_done (sceKernelRename H h a b) x er
  | Remove p =>
      if bool_decide (p = None) then evs = [] /\ x = RInt (-1) /\ er = EFAULT else
      let a := seen r 512 p in
      let '(rc, bs) := sceKernelStat H h a in
      if negb (rc =? 0) then evs = [KStat a] /\ x = RInt (-1) /\ er = sce_errno rc
      else if s_isdir (st_mode (translate (scratch bs)))
      then evs = [KRmdir a; KStat a] /\ sce_done (sceKernelRmdir H (KStat a :: h) a) x er
      else evs = [KUnlink a; KStat a] /\ sce_done (sceKernelUnlink H (KStat a :: h) a) x er
  | Stat p o =>
      if refused p o then evs = [] /\ x = RStat (-1) None /\ er = EFAULT
      else let a := seen r 512 p in evs = [KStat a] /\ stat_done (sceKernelStat H h a) x er
  | Fstat fd o =>
      if o then evs = [KFstat fd] /\
        x = (let '(rc, bs) := _fstat H h fd in if rc =? 0 then RStat 0 (Some (translate (scratch bs))) else RStat rc None)
      else evs = [] /\ x = RStat (-1) None /\ er = EFAULT
  | Fstatat fd p o _ =>
      if refused p o then evs = [] /\ x = RStat (-1) None /\ er = EFAULT
      else if here fd p then let a := seen r 512 p in evs = [KStat a] /\ stat_done (sceKernelStat H h a) x er
      else evs = [] /\ x = RStat (-1) None /\ er = ENOSYS
  end.

(** The kernel calls that choose the root and make its directory. *)
Definition is_mkdir (k : kcall) : bool := match k with KMkdir _ => true | _ => false end.
Definition is_other (k : kcall) : bool := match k with KMkdir _ | KAppInfo => false | _ => true end.
Definition anchors (h : list kcall) : Prop := Forall (fun k => is_other k = false) h.
Definition mkdirs (s : state) : list kcall := filter (fun k => is_mkdir k = true) (hist s).

(** A whole run, from the history [h] to [h']: before its own kernel calls a
    call may have the root chosen. *)
Inductive behaves (H : host) (r : path) : list kcall -> list call -> list (ret * Z) -> list kcall -> Prop :=
  | behaves_nil h : behaves H r h [] [] h
  | behaves_cons h anc evs c x er cs xs h' :
      anchors anc -> emits H r (anc ++ h) c evs x er -> behaves H r (evs ++ anc ++ h) cs xs h' ->
      behaves H r h (c :: cs) ((x, er) :: xs) h'.

(** ** Roots *)

(** The nine bytes of the title id that are looked at, and a terminator. *)
Definition id_field (title : list Z) : list Z := take 9 (title ++ replicate 10 0) ++ [0].

(** "A real title id is nine characters of A-Z0-9", and a console whose ids the
    code's check takes and refuses as that says. *)
Definition real_title (id : list Z) : bool :=
  (length (cstr id) =? 9)%nat &&
  forallb (fun c => ((65 <=? c) && (c <=? 90)) || ((48 <=? c) && (c <=? 57))) (cstr id).
Definition titles_agree (H : host) : Prop :=
  forall h title, sceKernelGetAppInfo H h = (0, title) -> titleIdLooksReal (id_field title) = real_title (id_field title).

Section Host.
Context (H : host) (Htitles : titles_agree H).

(** The fallback, or the directory of the title the console reports. *)
Definition chosen (r : path) : Prop :=
  r = bytes "/data/orbis-compat/" \/
  exists h title, sceKernelGetAppInfo H h = (0, title) /\ real_title (id_field title) = true /\
    r = bytes "/data/" ++ cstr (id_field title) ++ [slash].
Definition with_slash (p : path) : path := if back p =? slash then p else p ++ [slash].
Definition named (p : path) (r : path) : Prop := exists q, p = slash :: q /\ r = with_slash p.
Definition root_of (over : path) (r : path) : Prop := if bool_decide (over = []) then chosen r else r = over.

Definition dir_of (r : path) : path := take (length r - 1) r.

(** The statics agree: the root exists when it is decided, its directory was
    made once, and the override is empty or absolute with a slash at its end. *)
Record ok (s : state) : Prop := {
  ok_decided : s_rootDecided s = bool_decide (root s <> None);
  ok_mkdir : mkdirs s = match root s with Some r => [KMkdir (dir_of r)] | None => [] end;
  ok_override : s_rootOverride s = [] \/ exists p, named p (s_rootOverride s);
  ok_root : forall r, root s = Some r -> root_of (s_rootOverride s) r }.

Definition agrees (s : state) (r : path) : Prop := root s = None \/ root s = Some r.

(** [grows s s']: what stays true from [s] to [s']; [later] when no root was
    named between them. *)
Definition grows (s s' : state) : Prop := ok s' /\ (forall r, root s = Some r -> root s' = Some r).
Definition later (s s' : state) : Prop := grows s s' /\ s_rootOverride s' = s_rootOverride s.

(** ** Steps *)

Lemma titleIdRoot_spec s : forall s' r, titleIdRoot H s = (s', r) ->
  s' = did s KAppInfo /\ (r = [] \/ chosen r).
Proof.
  unfold titleIdRoot. destruct (sceKernelGetAppInfo H (hist s)) as [rc title] eqn:Ei.
  intros s' r. destruct (Z.eqb_spec rc 0) as [-> |]; cbn [negb]; [| intros [= <- <-]; auto].
  fold (id_field title). pose proof (Htitles _ _ Ei) as Ht.
  destruct (titleIdLooksReal _); cbn [negb]; intros [= <- <-]; [| auto].
  split; [reflexivity |]. right. right. exists (hist s), title. auto.
Qed.

Lemma grows_agrees s s' r : grows s s' -> agrees s' r -> agrees s r.
Proof.
  intros [_ Hl] Ha. destruct (root s) as [q |] eqn:E; [| left; exact E].
  right. pose proof (Hl q eq_refl). destruct Ha as [Ha | Ha]; congruence.
Qed.

Lemma agrees_anti s s' r : later s s' -> agrees s' r -> agrees s r.
Proof. intros [Hg _]. apply grows_agrees, Hg. Qed.

Lemma later_ok s s' : later s s' -> ok s'.
Proof. intros [[Ho _] _]. exact Ho. Qed.

Lemma later_refl s : ok s -> later s s.
Proof. intros Ho. repeat split; auto; apply Ho. Qed.

Lemma grows_trans a b c : grows a b -> grows b c -> grows a c.
Proof. intros [_ H1] [Hc H2]. split; auto. Qed.

Lemma later_trans a b c : later a b -> later b c -> later a c.
Proof. intros [G1 E1] [G2 E2]. split; [eapply grows_trans; eassumption | congruence]. Qed.

(** Everything but the kernel's history and errno is as before. *)
Definition same_statics (s s' : state) : Prop :=
  s_rootDecided s' = s_rootDecided s /\ s_rootOverride s' = s_rootOverride s /\ root s' = root s.

Lemma ok_same s s' : same_statics s s' -> mkdirs s' = mkdirs s -> ok s -> later s s'.
Proof.
  intros (H1 & H2 & H3) Hm [A B C D]. split; [split | exact H2]; [| intros r Hr; congruence].
  split; rewrite ?H1, ?H2, ?H3, ?Hm; auto.
Qed.

Lemma later_did s k : is_mkdir k = false -> ok s -> later s (did s k).
Proof.
  intros Hk. apply ok_same; [repeat split |]. unfold mkdirs; simpl.
  rewrite filter_cons_False; [reflexivity | congruence].
Qed.

Lemma later_errno s e : ok s -> later s (set_errno s e).
Proof. apply ok_same; [repeat split | reflexivity]. Qed.

Lemma later_did_errno s k : is_mkdir k = false -> ok s -> later s (did_errno H s k).
Proof.
  intros Hk Ho. unfold did_errno. destruct (left_errno H _); [| apply later_did; assumption].
  eapply later_trans; [apply later_did; eassumption |]. apply later_errno.
  apply later_did; assumption.
Qed.

(** From [s] to [s'] the kernel was asked [evs]. *)
Definition asked (evs : list kcall) (s s' : state) : Prop := hist s' = evs ++ hist s.

Lemma asked_did_errno s k : asked [k] s (did_errno H s k).
Proof. unfold did_errno, asked. destruct (left_errno H _); reflexivity. Qed.

(** The root after the first call that needs it. *)
Lemma anchorRoot_spec s : forall s' r, ok s -> anchorRoot H s = (s', r) ->
  later s s' /\ root s' = Some r /\ exists anc, anchors anc /\ asked anc s s'.
Proof.
  intros s' r Ho. unfold anchorRoot.
  destruct (root s) as [q |] eqn:Er.
  { intros [= <- <-]. split; [apply later_refl, Ho |]. split; [exact Er |]. exists []. split; [constructor | reflexivity]. }
  destruct Ho as [_ Hm Hov _]. rewrite Er in Hm.
  set (o := s_rootOverride s) in *.
  destruct (if bool_decide (o = []) then titleIdRoot H s else (s, o)) as [s1 r1] eqn:E1.
  assert (Hs1 : same_statics s s1 /\ mkdirs s1 = [] /\ (exists anc, anchors anc /\ asked anc s s1) /\
                (if bool_decide (o = []) then r1 = [] \/ chosen r1 else r1 = o)).
  { case_bool_decide.
    - apply titleIdRoot_spec in E1 as [-> Hc]. split; [repeat split |]. split; [exact Hm |].
      split; [| exact Hc]. exists [KAppInfo]. split; [repeat constructor | reflexivity].
    - injection E1 as <- <-. split; [repeat split |]. split; [exact Hm |].
      split; [| reflexivity]. exists []. split; [constructor | reflexivity]. }
  destruct Hs1 as ((S1 & S2 & S3) & M1 & (anc & A1 & O1) & R1).
  set (r2 := if bool_decide (r1 = []) then bytes "/data/orbis-compat/" else r1).
  assert (R2 : root_of o r2).
  { unfold root_of, r2. case_bool_decide as Eo.
    - case_bool_decide; [left; reflexivity | destruct R1; [contradiction | assumption]].
    - subst r1. rewrite bool_decide_eq_false_2 by exact Eo. reflexivity. }
  assert (Hok : forall e, ok (mk_state true (s_rootOverride s1) (Some r2) (said s1) e
                                (KMkdir (dir_of r2) :: hist s1))).
  { intros e. split; cbn [s_rootDecided s_rootOverride root].
    - symmetry. apply bool_decide_eq_true_2. discriminate.
    - unfold mkdirs; cbn [hist]. rewrite filter_cons_True by reflexivity.
      unfold mkdirs in M1. rewrite M1. reflexivity.
    - rewrite S2. exact Hov.
    - intros q [= <-]. rewrite S2. exact R2. }
  intros E. assert (Hs' : r = r2 /\ exists e, s' = mk_state true (s_rootOverride s1) (Some r2) (said s1) e
                                (KMkdir (dir_of r2) :: hist s1)).
  { destruct (mkdir H (hist s1) _) in E; injection E as <- <-; split; eauto. }
  destruct Hs' as [-> [e ->]]. split; [split; [split; [apply Hok | congruence] | exact S2] |].
  split; [reflexivity |]. exists (KMkdir (dir_of r2) :: anc). split; [constructor; [reflexivity | exact A1] |].
  unfold asked in *. cbn [hist]. rewrite O1. reflexivity.
Qed.

Lemma anchorPath_spec s : forall p n s' a, ok s -> anchorPath H s p n = (s', a) ->
  later s s' /\ (exists anc, anchors anc /\ asked anc s s') /\ forall r, agrees s' r -> a = seen r n p.
Proof.
  intros p n s' a Ho. unfold anchorPath.
  assert (N : exists anc, anchors anc /\ asked anc s s) by (exists []; split; [constructor | reflexivity]).
  destruct p as [[| c q] |]; [intros [= <- <-]; split; [apply later_refl, Ho | auto] | |
    intros [= <- <-]; split; [apply later_refl, Ho | auto]].
  destruct (c =? slash) eqn:Ec.
  { intros [= <- <-]. split; [apply later_refl, Ho |]. split; [exact N |].
    intros r _. simpl. rewrite Ec. reflexivity. }
  destruct (anchorRoot H s) as [s1 r1] eqn:E1.
  destruct (anchorRoot_spec _ _ _ Ho E1) as (Hl & Hr & Hanc).
  rewrite Z.gtb_ltb. intros E.
  assert (Hroot : root s' = Some r1 /\ later s1 s' /\ hist s' = hist s1).
  { destruct (n <? _) in E; injection E as <- _.
    - split; [exact Hr |]. split; [apply later_refl, Hl | reflexivity].
    - split; [exact Hr |]. split; [| reflexivity].
      apply ok_same; [repeat split | reflexivity | apply (later_ok _ _ Hl)]. }
  destruct Hroot as (Hr' & Hl' & Ho').
  split; [eapply later_trans; eassumption |]. split.
  { destruct Hanc as (anc & A & O). exists anc. split; [exact A |]. unfold asked in *. congruence. }
  intros r [Hn | Hn]; [congruence |]. assert (r = r1) by congruence. subst r1.
  cbn [seen]. rewrite Ec. cbn [orb]. destruct (n <? _) in E |- *; injection E; congruence.
Qed.

(** Once a path is anchored, anchoring it again asks nothing. *)
Lemma anchor_again s p s1 a : anchorPath H s p 512 = (s1, a) ->
  forall t, root t = root s1 -> said t = said s1 -> anchorPath H t p 512 = (t, a).
Proof.
  unfold anchorPath. destruct p as [[| c q] |]; try (intros [= <- <-] t _ _; reflexivity).
  destruct (c =? slash); [intros [= <- <-] t _ _; reflexivity |].
  destruct (anchorRoot H s) as [s2 r] eqn:E. intros Es t Ht Hsaid.
  assert (R : root s2 = Some r).
  { unfold anchorRoot in E. destruct (root s) eqn:Er; [injection E as <- <-; exact Er |].
    destruct (if bool_decide _ then _ else _) as [s3 r3]. cbv zeta in E.
    destruct (mkdir H _ _); injection E as <- <-; reflexivity. }
  rewrite Z.gtb_ltb in Es. destruct (512 <? _) eqn:Eb in Es; injection Es as <- <-; cbn [set_said root said] in Ht, Hsaid;
    unfold anchorRoot; rewrite Ht, R, Z.gtb_ltb, Eb; [reflexivity |].
  f_equal. unfold set_said. rewrite <- Hsaid. destruct t; reflexivity.
Qed.

(** ** Calls *)

(** What is shown of each call. *)
Definition does (c : call) (s s' : state) (x : ret) : Prop :=
  exists anc evs, anchors anc /\ hist s' = evs ++ anc ++ hist s /\
    forall r, agrees s' r -> emits H r (anc ++ hist s) c evs x (errno s').

Lemma does_nothing c s s' x : hist s' = hist s -> (forall r, emits H r (hist s) c [] x (errno s')) -> does c s s' x.
Proof. intros Hh He. exists [], []. split; [constructor |]. split; [exact Hh |]. intros r _. apply He. Qed.

(** A kernel call that reports an SCE code. *)
Lemma sce_call_spec s k rc s' z :
  is_mkdir k = false -> ok s ->
  (if negb (rc =? 0) then sceFailure (did s k) rc else (did s k, 0)) = (s', z) ->
  later s s' /\ asked [k] s s' /\ sce_done rc (RInt z) (errno s').
Proof.
  intros Hm Ho. pose proof (later_did s k Hm Ho) as Hl. unfold sce_done, asked.
  destruct (rc =? 0); cbn [negb]; intros [= <- <-]; [auto |].
  split; [eapply later_trans; [exact Hl | apply later_errno, (later_ok _ _ Hl)] | auto].
Qed.

(** A call with one path that reports an SCE code. *)
Lemma sce_path_spec c s p (K : option path -> kcall) (f : list kcall -> option path -> Z) s' z :
  (forall a, is_mkdir (K a) = false) -> ok s ->
  (forall r h er, sce_done (f h (seen r 512 p)) (RInt z) er -> emits H r h c [K (seen r 512 p)] (RInt z) er) ->
  (let '(s, a) := anchorPath H s p 512 in
   let rc := f (hist s) a in
   let s := did s (K a) in
   if negb (rc =? 0) then sceFailure s rc else (s, 0)) = (s', z) ->
  later s s' /\ does c s s' (RInt z).
Proof.
  intros Hm Ho He. destruct (anchorPath H s p 512) as [s1 a] eqn:E1.
  destruct (anchorPath_spec _ _ _ _ _ Ho E1) as (L1 & (anc & N1 & O1) & A1).
  intros E. apply sce_call_spec in E as (L2 & O2 & Z2); [| apply Hm | apply (later_ok _ _ L1)].
  split; [eapply later_trans; eassumption |]. unfold asked in *. exists anc, [K a].
  split; [exact N1 |]. split; [rewrite O2, O1; reflexivity |].
  intros r Ha. pose proof (A1 r (agrees_anti _ _ _ L2 Ha)) as ->. apply He. rewrite <- O1. exact Z2.
Qed.

Lemma unlink_spec s p s' z : ok s -> unlink H s p = (s', z) -> later s s' /\ does (Unlink p) s s' (RInt z).
Proof. intros Ho. apply (sce_path_spec (Unlink p) s p KUnlink (sceKernelUnlink H)); auto. split; auto. Qed.

Lemma rename_spec s p q s' z : ok s -> rename H s p q = (s', z) -> later s s' /\ does (Rename p q) s s' (RInt z).
Proof.
  intros Ho. unfold rename. destruct (anchorPath H s p 512) as [s1 a] eqn:E1.
  destruct (anchorPath_spec _ _ _ _ _ Ho E1) as (L1 & (anc1 & N1 & O1) & A1).
  destruct (anchorPath H s1 q 512) as [s2 b] eqn:E2.
  destruct (anchorPath_spec _ _ _ _ _ (later_ok _ _ L1) E2) as (L2 & (anc2 & N2 & O2) & A2).
  intros E. apply sce_call_spec in E as (L3 & O3 & Z3); [| reflexivity | apply (later_ok _ _ L2)].
  assert (L23 := later_trans _ _ _ L2 L3).
  split; [eapply later_trans; eassumption |]. unfold asked in *. exists (anc2 ++ anc1), [KRename a b].
  split; [apply List.Forall_app; auto |]. split; [rewrite O3, O2, O1, <- app_assoc; reflexivity |].
  intros r Ha. cbn [emits]. pose proof (A1 r (agrees_anti _ _ _ L23 Ha)) as ->.
  pose proof (A2 r (agrees_anti _ _ _ L3 Ha)) as ->. split; [reflexivity |].
  rewrite O2, O1, app_assoc in Z3. exact Z3.
Qed.

(** A null path or struct. *)
Lemma refused_spec c s : ok s -> (forall r h, emits H r h c [] (RStat (-1) None) EFAULT) ->
  later s (set_errno s EFAULT) /\ does c s (set_errno s EFAULT) (RStat (-1) None).
Proof. intros Ho He. split; [apply later_errno, Ho | apply does_nothing; [reflexivity | intros r; apply He]]. Qed.

(** A stat that is not refused. *)
Lemma stat_asks s p s' z st : ok s -> p <> None -> stat H s p true = (s', z, st) ->
  later s s' /\ exists anc a, anchors anc /\ hist s' = KStat a :: anc ++ hist s /\
    (forall r, agrees s' r -> a = seen r 512 p) /\ anchorPath H s' p 512 = (s', a) /\
    stat_done (sceKernelStat H (anc ++ hist s) a) (RStat z st) (errno s').
Proof.
  intros Ho Hp. unfold stat. rewrite bool_decide_eq_false_2 by exact Hp. cbn [orb negb].
  destruct (anchorPath H s p 512) as [s1 a] eqn:E1.
  destruct (anchorPath_spec _ _ _ _ _ Ho E1) as (L1 & (anc & N1 & O1) & A1). unfold asked in O1.
  destruct (sceKernelStat H (hist s1) a) as [rc bs] eqn:Er. intros E.
  assert (L2 : later s1 (did s1 (KStat a))) by (apply later_did; [reflexivity | apply (later_ok _ _ L1)]).
  pose proof (anchor_again _ _ _ _ E1) as Again.
  assert (F : later s1 s' /\ hist s' = KStat a :: hist s1 /\ anchorPath H s' p 512 = (s', a) /\
    stat_done (rc, bs) (RStat z st) (errno s')).
  { unfold stat_done. destruct (rc =? 0); cbn [negb] in E; injection E as <- <- <-; [split; [exact L2 | auto] |].
    split; [eapply later_trans; [exact L2 | apply later_errno, (later_ok _ _ L2)] | auto]. }
  destruct F as (F1 & F2 & F4 & F3). split; [eapply later_trans; eassumption |]. exists anc, a.
  rewrite <- O1. split; [exact N1 |]. split; [exact F2 |]. split; [| rewrite Er; auto].
  intros r Ha. apply A1. eapply agrees_anti; eassumption.
Qed.

Lemma stat_spec c s p o s' z st : ok s -> stat H s p o = (s', z, st) ->
  (forall r h evs x er, (if refused p o then evs = [] /\ x = RStat (-1) None /\ er = EFAULT
      else evs = [KStat (seen r 512 p)] /\ stat_done (sceKernelStat H h (seen r 512 p)) x er) ->
    emits H r h c evs x er) ->
  later s s' /\ does c s s' (RStat z st).
Proof.
  intros Ho E He. destruct (refused p o) eqn:Er.
  - unfold stat in E. fold (refused p o) in E. rewrite Er in E. injection E as <- <- <-.
    apply refused_spec; [exact Ho |]. intros r h. apply He. auto.
  - unfold refused in Er. apply orb_false_iff in Er as [Ep Eo]. apply bool_decide_eq_false in Ep.
    apply negb_false_iff in Eo. subst o. apply stat_asks in E as (L & anc & a & N & O & A & _ & D); [| exact Ho | exact Ep].
    split; [exact L |]. exists anc, [KStat a]. split; [exact N |]. split; [exact O |].
    intros r Ha. apply He. rewrite <- (A r Ha). auto.
Qed.

Lemma remove_spec s p s' z : ok s -> remove H s p = (s', z) -> later s s' /\ does (Remove p) s s' (RInt z).
Proof.
  intros Ho E. destruct (decide (p = None)) as [-> | Hp].
  { unfold remove, stat in E. simpl in E. injection E as <- <-.
    split; [apply later_errno, Ho |]. apply does_nothing; [reflexivity |]. intros r. cbn. auto. }
  unfold remove in E. destruct (stat H s p true) as [[s1 z1] st1] eqn:E1.
  apply stat_asks in E1 as (L1 & anc & a & N & O & A & A1 & D); [| exact Ho | exact Hp].
  unfold stat_done in D. destruct (sceKernelStat H (anc ++ hist s) a) as [rc bs] eqn:Er.
  destruct (rc =? 0) eqn:Erc.
  2: { destruct D as [[= -> ->] De]. injection E as <- <-. split; [exact L1 |]. exists anc, [KStat a].
       split; [exact N |]. split; [exact O |]. intros r Ha. cbn [emits]. rewrite bool_decide_eq_false_2 by exact Hp.
       rewrite <- (A r Ha), Er, Erc. cbn [negb]. auto. }
  injection D as -> ->.
  assert (F : forall (K : option path -> kcall) (f : list kcall -> option path -> Z) s' z,
    is_mkdir (K a) = false ->
    (if negb (f (hist s1) a =? 0) then sceFailure (did s1 (K a)) (f (hist s1) a) else (did s1 (K a), 0)) = (s', z) ->
    later s1 s' /\ hist s' = [K a; KStat a] ++ anc ++ hist s /\ (forall r, agrees s' r -> a = seen r 512 p) /\
    sce_done (f (KStat a :: anc ++ hist s) a) (RInt z) (errno s')).
  { intros K f t y Hk Ek. apply sce_call_spec in Ek as (L2 & O2 & Z2); [| exact Hk | apply (later_ok _ _ L1)].
    unfold asked in O2. rewrite O in O2, Z2. split; [exact L2 |]. split; [exact O2 |]. split; [| exact Z2].
    intros r Ha. apply A. eapply agrees_anti; eassumption. }
  destruct (s_isdir (st_mode (translate (scratch bs)))) eqn:Ed; cbn [negb] in E.
  - rewrite A1 in E. destruct (F KRmdir (sceKernelRmdir H) s' z eq_refl E) as (L2 & O2 & A2 & Z2).
    split; [eapply later_trans; eassumption |]. exists anc, [KRmdir a; KStat a]. split; [exact N |].
    split; [exact O2 |]. intros r Ha. cbn [emits]. rewrite bool_decide_eq_false_2 by exact Hp.
    rewrite <- (A2 r Ha), Er, Erc. cbn [negb]. rewrite Ed. auto.
  - unfold unlink in E. rewrite A1 in E. destruct (F KUnlink (sceKernelUnlink H) s' z eq_refl E) as (L2 & O2 & A2 & Z2).
    split; [eapply later_trans; eassumption |]. exists anc, [KUnlink a; KStat a]. split; [exact N |].
    split; [exact O2 |]. intros r Ha. cbn [emits]. rewrite bool_decide_eq_false_2 by exact Hp.
    rewrite <- (A2 r Ha), Er, Erc. cbn [negb]. rewrite Ed. auto.
Qed.

Lemma open_spec s p f m s' fd : ok s -> open H s p f m = Ok (s', fd) -> later s s' /\ does (Open p f m) s s' (RInt fd).
Proof.
  intros Ho. unfold open. set (mm := if wants_mode H f then _ else _).
  destruct mm as [md | |] eqn:Em; cbn [mbind outcome_bind]; try discriminate.
  assert (Hmd : md = if wants_mode H f then default 0 m else 0).
  { unfold mm in Em. destruct (wants_mode H f); [destruct m |]; simplify_eq; reflexivity. }
  destruct (anchorPath H s p 512) as [s1 a] eqn:E1.
  destruct (anchorPath_spec _ _ _ _ _ Ho E1) as (L1 & (anc & N1 & O1) & A1).
  fold (cloexec H f (_open H (hist s1) a f md)). set (fd' := _open H (hist s1) a f md).
  pose proof (later_did_errno s1 (KOpen a f md) eq_refl (later_ok _ _ L1)) as L2.
  pose proof (asked_did_errno s1 (KOpen a f md)) as O2. set (s2 := did_errno H s1 (KOpen a f md)) in *.
  pose proof (later_did_errno s2 (KCloexec fd') eq_refl (later_ok _ _ L2)) as L3.
  pose proof (asked_did_errno s2 (KCloexec fd')) as O3. unfold asked in *.
  intros [= <- <-]. assert (L12 := later_trans _ _ _ L1 L2).
  set (s3 := if cloexec H f fd' then did_errno H s2 (KCloexec fd') else s2).
  assert (L23 : later s2 s3) by (unfold s3; destruct (cloexec H f fd'); [exact L3 | apply later_refl, (later_ok _ _ L2)]).
  split; [exact (later_trans _ _ _ L12 L23) |]. exists anc, ((if cloexec H f fd' then [KCloexec fd'] else []) ++ [KOpen a f md]).
  split; [exact N1 |]. split.
  { unfold s3. destruct (cloexec H f fd'); rewrite ?O3, O2, O1; reflexivity. }
  intros r Ha. pose proof (A1 r (agrees_anti _ _ _ (later_trans _ _ _ L2 L23) Ha)) as Ea. cbn [emits].
  rewrite <- Ea, <- Hmd, <- O1. fold fd'. auto.
Qed.

Lemma set_root_spec s p : ok s -> grows s (orbis_set_anchor_root s p) /\
  hist (orbis_set_anchor_root s p) = hist s /\
  (s_rootOverride (orbis_set_anchor_root s p) = s_rootOverride s \/
   exists q, p = Some q /\ named q (s_rootOverride (orbis_set_anchor_root s p))).
Proof.
  intros Ho. unfold orbis_set_anchor_root.
  destruct p as [[| c q] |]; try (split; [apply (later_refl s Ho) | auto]).
  destruct (Z.eqb_spec c slash) as [-> | Hc]; cbn [negb]; [| split; [apply (later_refl s Ho) | auto]].
  destruct (s_rootDecided s) eqn:Ed; [split; [apply (later_refl s Ho) | auto] |].
  assert (N : named (slash :: q) (with_slash (slash :: q))) by (exists q; auto).
  change (if back (slash :: q) =? slash then slash :: q else (slash :: q) ++ [slash])
    with (with_slash (slash :: q)).
  destruct Ho as [Hd Hm Hov Hr]. rewrite Ed in Hd.
  assert (Hn : root s = None).
  { destruct (root s); [| reflexivity]. case_bool_decide; congruence. }
  split; [| split; [reflexivity | right; exists (slash :: q); split; [reflexivity | exact N]]].
  split; [| congruence].
  split; cbn; [rewrite Ed; exact Hd | exact Hm | eauto | congruence].
Qed.

Lemma fstat_spec s fd o s' z st : ok s -> fstat H s fd o = (s', z, st) ->
  later s s' /\ does (Fstat fd o) s s' (RStat z st).
Proof.
  intros Ho. unfold fstat. destruct o; cbn [negb]; [| intros [= <- <- <-]; apply refused_spec; [exact Ho | intros r h; cbn [emits]; auto]].
  destruct (_fstat H (hist s) fd) as [rc bs] eqn:Ef.
  pose proof (later_did_errno s (KFstat fd) eq_refl Ho) as L. pose proof (asked_did_errno s (KFstat fd)) as O.
  intros E. assert (Hs : s' = did_errno H s (KFstat fd) /\
    RStat z st = if rc =? 0 then RStat 0 (Some (translate (scratch bs))) else RStat rc None).
  { destruct (rc =? 0); cbn [negb] in E; injection E as <- <- <-; auto. }
  destruct Hs as [-> ->]. split; [exact L |]. exists [], [KFstat fd]. split; [constructor |]. split; [exact O |].
  intros r _. cbn [emits app]. rewrite Ef. auto.
Qed.

Lemma fstatat_spec s fd p o f s' z st : ok s -> fstatat H s fd p o f = (s', z, st) ->
  later s s' /\ does (Fstatat fd p o f) s s' (RStat z st).
Proof.
  intros Ho. unfold fstatat. fold (refused p o). fold (here fd p).
  destruct (refused p o) eqn:Er.
  { intros [= <- <- <-]. apply refused_spec; [exact Ho |]. intros r h. cbn [emits]. rewrite Er. auto. }
  destruct (here fd p) eqn:Eh.
  - intros E. apply (stat_spec (Fstatat fd p o f)) in E; [exact E | exact Ho |].
    intros r h evs x er. cbn [emits]. rewrite Er, Eh. auto.
  - intros [= <- <- <-]. split; [apply later_errno, Ho |]. apply does_nothing; [reflexivity |].
    intros r. cbn [emits]. rewrite Er, Eh. auto.
Qed.

Definition set_by (cs : list call) (q : path) : Prop := exists p, In (SetRoot (Some p)) cs /\ named p q.

Lemma later_grows s s' c : later s s' ->
  grows s s' /\ (s_rootOverride s' = s_rootOverride s \/ set_by [c] (s_rootOverride s')).
Proof. intros [G E]. auto. Qed.

Lemma paths_step_spec s c s' x : ok s -> step H s c = Ok (s', x) ->
  (grows s s' /\ (s_rootOverride s' = s_rootOverride s \/ set_by [c] (s_rootOverride s'))) /\ does c s s' x.
Proof.
  assert (G : forall s s' x, later s s' /\ does c s s' x ->
    (grows s s' /\ (s_rootOverride s' = s_rootOverride s \/ set_by [c] (s_rootOverride s'))) /\ does c s s' x).
  { intros t t' y [L D]. split; [apply later_grows, L | exact D]. }
  intros Ho. destruct c; cbn [step].
  - intros [= <- <-]. destruct (set_root_spec s p Ho) as (L & O & N). split; [split; [exact L |] |].
    + destruct N as [N | (q & -> & N)]; [auto |]. right. exists q. split; [left; reflexivity | exact N].
    + apply does_nothing; [exact O |]. intros r. cbn. auto.
  - destruct (anchorPath H s p bufSize) as [s1 a] eqn:E. intros [= <- <-].
    destruct (anchorPath_spec _ _ _ _ _ Ho E) as (L & (anc & N & O) & A). apply G. split; [exact L |].
    exists anc, []. split; [exact N |]. split; [exact O |]. intros r Ha. cbn [emits]. rewrite (A r Ha). auto.
  - destruct (open H s p flags mode) as [[s1 fd] | |] eqn:E; try discriminate. intros [= <- <-]. apply G, open_spec; assumption.
  - destruct (unlink H s p) as [s1 z] eqn:E. intros [= <- <-]. apply G, unlink_spec; assumption.
  - destruct (rename H s a b) as [s1 z] eqn:E. intros [= <- <-]. apply G, rename_spec; assumption.
  - destruct (remove H s p) as [s1 z] eqn:E. intros [= <- <-]. apply G, remove_spec; assumption.
  - destruct (stat H s p has_out) as [[s1 z] st] eqn:E. intros [= <- <-]. apply G, (stat_spec _ s p has_out); auto.
  - destruct (fstat H s fd has_out) as [[s1 z] st] eqn:E. intros [= <- <-]. apply G, fstat_spec; assumption.
  - destruct (fstatat H s fd p has_out flag) as [[s1 z] st] eqn:E. intros [= <- <-]. apply G, fstatat_spec; assumption.
Qed.

(** ** Runs *)

Lemma paths_run_spec cs : forall s s' xs, ok s -> run H s cs = Ok (s', xs) ->
  (grows s s' /\ (s_rootOverride s' = s_rootOverride s \/ set_by cs (s_rootOverride s'))) /\
  forall r, agrees s' r -> behaves H r (hist s) cs xs (hist s').
Proof.
  induction cs as [| c cs IH]; intros s s' xs Ho; cbn [run].
  { intros [= <- <-]. split; [split; [apply (later_refl s Ho) | auto] |]. intros r _. constructor. }
  destruct (step H s c) as [[s1 x] | |] eqn:E1; try discriminate. cbn [mbind outcome_bind].
  destruct (run H s1 cs) as [[s2 xs2] | |] eqn:E2; try discriminate. intros [= <- <-].
  destruct (paths_step_spec _ _ _ _ Ho E1) as ((G1 & V1) & (anc & evs & N & O & M)).
  destruct (IH _ _ _ (proj1 G1) E2) as ((G2 & V2) & A2). split.
  - split; [eapply grows_trans; eassumption |].
    destruct V2 as [V2 | (p & Hp & V2)]; [rewrite V2 | right; exists p; split; [right; exact Hp | exact V2]].
    destruct V1 as [V1 | (p & [-> | []] & V1)]; [auto |]. right. exists p. split; [left; reflexivity | exact V1].
  - intros r Ha. apply (behaves_cons _ _ _ anc evs); [exact N | apply M; eapply grows_agrees; eassumption |].
    rewrite <- O. exact (A2 r Ha).
Qed.

Lemma paths_initial_ok : ok initial.
Proof. split; [reflexivity | reflexivity | left; reflexivity | discriminate]. Qed.

(** C7: Whatever sequence of calls a program makes, there is one directory
    for the whole life of the process: an absolute path the program named, the
    directory under /data of the title the console reports, or the fallback,
    always ended by a slash; it is made once, and only if a path needed it.
    Each call then makes exactly the kernel calls it should, every path in
    them being the caller's own when that is absolute, empty, null or too
    long, and otherwise that directory followed by the caller's path, and it
    returns what the kernel answered to those calls: the descriptor, the
    record, 0, or -1 with the kernel's errno.  (For title ids of nine
    characters A-Z0-9, or such that are refused; the code's check also takes
    shorter ones and lower case, see the findings.) *)
Theorem paths_one_root (cs : list call) (s : state) (xs : list (ret * Z))
  (Hrun : run H initial cs = Ok (s, xs)) :
  exists r,
    (chosen r \/ set_by cs r) /\ (root s = None \/ root s = Some r) /\
    mkdirs s = (match root s with Some r => [KMkdir (dir_of r)] | None => [] end) /\
    behaves H r [] cs xs (hist s).
Proof.
  destruct (paths_run_spec _ _ _ _ paths_initial_ok Hrun) as ((G & V) & A).
  destruct G as [Hok _].
  set (r := default (bytes "/data/orbis-compat/") (root s)).
  assert (Ha : agrees s r).
  { unfold agrees, r. destruct (root s); auto. }
  exists r. split; [| split; [exact Ha |]; split; [apply Hok | exact (A r Ha)]].
  destruct (root s) as [q |] eqn:Er; subst r; cbn [default]; [| left; left; reflexivity].
  pose proof (ok_root s Hok q Er) as R. unfold root_of in R.
  case_bool_decide as En; [left; exact R |]. subst q. right.
  destruct V as [V | V]; [contradiction | exact V].
Qed.

End Host.

(** A console with one title and no files. *)
Definition console : host :=
  mk_host 0x200 None (Some 0x100000) (fun _ => (0, bytes "CUSA00001")) (fun _ _ => None)
    (fun _ _ _ _ => 3) (fun _ _ => -2147352574) (fun _ _ _ => 0) (fun _ _ => 0)
    (fun _ _ => (0, replicate 9 0 ++ [64])) (fun _ _ => (0, [])) (fun _ => None).

Definition calls : list call :=
  [SetRoot (Some (bytes "saves")); Open (Some (bytes "a.sav")) 0x100200 (Some 0x1FF);
   SetRoot (Some (bytes "/data/late")); Unlink (Some (bytes "b")); Remove (Some (bytes "dir"));
   Rename (Some (bytes "/x")) (Some (bytes "y"))].

Lemma console_titles : titles_agree console.
Proof. intros h title [= <-]. vm_compute. reflexivity. Qed.

Lemma paths_one_root_witness :
  exists s xs, run console initial calls = Ok (s, xs) /\
    root s = Some (bytes "/data/CUSA00001/") /\
    map fst xs = [RNone; RInt 3; RNone; RInt (-1); RInt 0; RInt 0] /\
    exists r,
      (chosen console r \/ set_by calls r) /\ (root s = None \/ root s = Some r) /\
      mkdirs s = (match root s with Some r => [KMkdir (dir_of r)] | None => [] end) /\
      behaves console r [] calls xs (hist s).
Proof.
  eexists. eexists. split; [vm_compute; reflexivity |].
  split; [reflexivity |]. split; [reflexivity |].
  apply (paths_one_root console console_titles calls). vm_compute. reflexivity.
Defined.

(** A title id of five characters, in lower case, is taken. *)
Example short_title_taken :
  titleIdLooksReal (id_field (bytes "local")) = true /\ real_title (id_field (bytes "local")) = false.
Proof. split; reflexivity. Qed.
