(* ===== verification/PathsStat.v ===== *)
(** The kernel's [struct stat] and its error codes: [Paths] on a kernel that
    answers with a record or an errno, written down the way the header's
    measured layout has them. *)
From Stdlib Require Import String.
From stdpp Require Import prelude list numbers.
From S2P Require Import Prelude Memory Report UmtxTime Paths PathsRun.
Open Scope Z_scope.

(** ** The kernel's layout *)

Definition time_bytes (t : timespec) : list Z :=
  le_bytes 8 (u64 (tv_sec t)) ++ le_bytes 8 (u64 (tv_nsec t)).

(** The 120 bytes of the kernel's struct, four of them padding. *)
Definition encode (k : stat_t) : list Z :=
  le_bytes 4 (st_dev k) ++ le_bytes 4 (st_ino k) ++ le_bytes 2 (st_mode k) ++ le_bytes 2 (st_nlink k) ++
  le_bytes 4 (st_uid k) ++ le_bytes 4 (st_gid k) ++ le_bytes 4 (st_rdev k) ++
  time_bytes (st_atim k) ++ time_bytes (st_mtim k) ++ time_bytes (st_ctim k) ++
  le_bytes 8 (u64 (st_size k)) ++ le_bytes 8 (u64 (st_blocks k)) ++ le_bytes 4 (st_blksize k) ++
  le_bytes 4 (st_flags k) ++ le_bytes 4 (st_gen k) ++ [0; 0; 0; 0] ++ time_bytes (st_birthtim k).

Definition in_u16 (z : Z) : Prop := 0 <= z < 2 ^ 16.
Definition in_u32 (z : Z) : Prop := 0 <= z < 2 ^ 32.
Definition in_s64 (z : Z) : Prop := - 2 ^ 63 <= z < 2 ^ 63.
Definition time_ok (t : timespec) : Prop := in_s64 (tv_sec t) /\ in_s64 (tv_nsec t).

Definition stat_fits (k : stat_t) : Prop :=
  Forall in_u32 [st_dev k; st_ino k; st_uid k; st_gid k; st_rdev k; st_blksize k; st_flags k; st_gen k] /\
  Forall in_u16 [st_mode k; st_nlink k] /\ Forall in_s64 [st_size k; st_blocks k] /\
  Forall time_ok [st_atim k; st_mtim k; st_ctim k; st_birthtim k].

(** What a caller reads: the kernel's record, but the size where the
    nanoseconds of the change time would be. *)
Definition sdk_view (k : stat_t) : stat_t :=
  mk_stat (st_dev k) (st_ino k) (st_mode k) (st_nlink k) (st_uid k) (st_gid k) (st_rdev k)
    (st_size k) (st_blocks k) (st_blksize k) (st_flags k) (st_gen k) (st_atim k) (st_mtim k)
    (mk_ts (tv_sec (st_ctim k)) (st_size k)) (st_birthtim k).

Lemma le_val_bytes n : forall v, le_val (le_bytes n v) = v mod 256 ^ Z.of_nat n.
Proof.
  induction n as [| n IH]; intros v; [symmetry; apply Z.mod_1_r |].
  cbn [le_bytes le_val]. rewrite IH, Nat2Z.inj_succ, Z.pow_succ_r by lia.
  rewrite Z.rem_mul_r by lia. reflexivity.
Qed.

Lemma s64_u64 z : in_s64 z -> s64 (u64 z) = z.
Proof.
  intros Hz. unfold s64, u64, in_s64 in *. rewrite Zplus_mod_idemp_l, Z.mod_small; lia.
Qed.

Lemma le_val_s64 v : in_s64 v -> s64 (le_val (le_bytes 8 (u64 v))) = v.
Proof.
  intros Hv. rewrite le_val_bytes. change (256 ^ Z.of_nat 8) with (2 ^ 64).
  unfold u64. rewrite Zmod_mod. apply (s64_u64 v Hv).
Qed.
Lemma le_val_u32 v : in_u32 v -> le_val (le_bytes 4 v) = v.
Proof. intros Hv. rewrite le_val_bytes. apply Z.mod_small, Hv. Qed.
Lemma le_val_u16 v : in_u16 v -> le_val (le_bytes 2 v) = v.
Proof. intros Hv. rewrite le_val_bytes. apply Z.mod_small, Hv. Qed.

Definition time_val (t : timespec) : timespec :=
  mk_ts (s64 (le_val (le_bytes 8 (u64 (tv_sec t))))) (s64 (le_val (le_bytes 8 (u64 (tv_nsec t))))).
Lemma time_val_id t : time_ok t -> time_val t = t.
Proof. intros [H1 H2]. unfold time_val. rewrite !le_val_s64 by assumption. destruct t; reflexivity. Qed.

(** [translate] finds each field where the layout has it. *)
Lemma translate_bytes k ys : translate (encode k ++ ys) =
  let v4 z := le_val (le_bytes 4 z) in let v2 z := le_val (le_bytes 2 z) in
  let v8 z := s64 (le_val (le_bytes 8 (u64 z))) in
  mk_stat (v4 (st_dev k)) (v4 (st_ino k)) (v2 (st_mode k)) (v2 (st_nlink k)) (v4 (st_uid k))
    (v4 (st_gid k)) (v4 (st_rdev k)) (v8 (st_size k)) (v8 (st_blocks k)) (v4 (st_blksize k))
    (v4 (st_flags k)) (v4 (st_gen k)) (time_val (st_atim k)) (time_val (st_mtim k))
    (mk_ts (tv_sec (time_val (st_ctim k))) (v8 (st_size k))) (time_val (st_birthtim k)).
Proof. reflexivity. Qed.

Lemma scratch_encode k : exists ys, scratch (encode k) = encode k ++ ys.
Proof.
  assert (L : length (encode k) = 120%nat).
  { unfold encode, time_bytes. rewrite !length_app, !le_bytes_length. reflexivity. }
  unfold scratch, kScratch. exists (replicate 136 0).
  rewrite take_app_ge by lia. rewrite L, take_replicate. reflexivity.
Qed.

Lemma translate_encode k : stat_fits k -> translate (scratch (encode k)) = sdk_view k.
Proof.
  intros (H4 & H2 & H8 & Ht). destruct (scratch_encode k) as [ys ->].
  rewrite translate_bytes. cbv zeta.
  repeat match goal with H : Forall _ (_ :: _) |- _ => apply list.Forall_cons in H as [? H] end.
  rewrite !le_val_u32, !le_val_u16, !le_val_s64, !time_val_id by assumption. reflexivity.
Qed.

(** ** Error codes *)

(** The 32-bit code of an SCE call that fails with [e]. *)
Definition code (e : Z) : Z := s32 (0x80020000 + e).

Lemma sce_errno_code e : in_u16 e -> code e <> 0 /\ sce_errno (code e) = e.
Proof.
  unfold in_u16. intros He. assert (Hc : code e = e - 0x7FFE0000).
  { unfold code, s32. rewrite <- (Z.mod_add _ (-1)) by lia. rewrite Z.mod_small; lia. }
  split; [lia |]. unfold sce_errno. rewrite Hc.
  rewrite u32_sub_borrow by lia. rewrite Z.shiftr_div_pow2 by lia.
  replace ((e - 0x7FFE0000 + 2 ^ 32) / 2 ^ 16) with 0x8002 by (apply Z.div_unique with e; lia).
  rewrite Z.eqb_refl. change 0xFFFF with (Z.ones 16). rewrite Z.land_ones by lia.
  symmetry. apply Z.mod_unique with (-0x7FFE); lia.
Qed.

(** ** A kernel that answers with records and errnos *)

Record fs := mk_fs {
  fs_stat : list kcall -> option path -> Z + stat_t;
  fs_unlink : list kcall -> option path -> option Z;
  fs_rmdir : list kcall -> option path -> option Z;
  fs_rename : list kcall -> option path -> option path -> option Z }.

Definition code_of (e : option Z) : Z := match e with Some e => code e | None => 0 end.
Definition err_fits (e : option Z) : Prop := match e with Some e => in_u16 e | None => True end.

(** [H] reports what [F] says in the kernel's encodings. *)
Record serves (H : host) (F : fs) : Prop := {
  sv_stat : forall h p, match fs_stat F h p with
    | inl e => in_u16 e /\ fst (sceKernelStat H h p) = code e
    | inr k => stat_fits k /\ sceKernelStat H h p = (0, encode k) end;
  sv_unlink : forall h p, err_fits (fs_unlink F h p) /\ sceKernelUnlink H h p = code_of (fs_unlink F h p);
  sv_rmdir : forall h p, err_fits (fs_rmdir F h p) /\ sceKernelRmdir H h p = code_of (fs_rmdir F h p);
  sv_rename : forall h p q, err_fits (fs_rename F h p q) /\ sceKernelRename H h p q = code_of (fs_rename F h p q) }.

(** The POSIX result of an answer: 0, or -1 and the errno. *)
Definition posix (s : state) (e : option Z) : state * Z :=
  match e with Some e => (set_errno s e, -1) | None => (s, 0) end.

Lemma posix_spec s e : err_fits e ->
  (if negb (code_of e =? 0) then sceFailure s (code_of e) else (s, 0)) = posix s e.
Proof.
  destruct e as [e |]; [| reflexivity]. cbn [err_fits code_of posix]. intros He.
  destruct (sce_errno_code e He) as [Hn Hs]. apply Z.eqb_neq in Hn. rewrite Hn.
  unfold sceFailure. rewrite Hs. reflexivity.
Qed.

Section Kernel.
Context (H : host) (F : fs) (Hsv : serves H F).

Lemma stat_answer s p s1 a : p <> None -> anchorPath H s p 512 = (s1, a) ->
  stat H s p true =
    match fs_stat F (hist s1) a with
    | inl e => (set_errno (did s1 (KStat a)) e, -1, None)
    | inr k => (did s1 (KStat a), 0, Some (sdk_view k))
    end.
Proof.
  intros Hp Ha. unfold stat. rewrite bool_decide_eq_false_2 by exact Hp. cbn [orb negb].
  rewrite Ha. pose proof (sv_stat _ _ Hsv (hist s1) a) as S.
  destruct (fs_stat F (hist s1) a) as [e | k].
  - destruct S as [He S]. destruct (sce_errno_code e He) as [Hn Hs]. apply Z.eqb_neq in Hn.
    destruct (sceKernelStat H (hist s1) a) as [rc bs]. cbn [fst] in S. subst rc.
    rewrite Hn, Hs. reflexivity.
  - destruct S as [Hk S]. rewrite S. cbn [Z.eqb negb]. rewrite translate_encode by exact Hk. reflexivity.
Qed.

(** C35: On a kernel that answers with a record or an errno, [stat] gives the
    caller exactly the kernel's record, whatever it holds, but for the
    nanoseconds of the change time, which hold the file size; on failure it
    gives -1 and the kernel's errno, and no record.  The path the kernel is
    asked about is the anchored one, a null path or struct is refused with
    EFAULT before the kernel is asked, and [lstat] and [fstatat] answer
    alike where they answer. *)
Theorem stat_correct (s s1 : state) (p a : option path) (fd flag : Z) (Ha : anchorPath H s p 512 = (s1, a)) :
  stat H s p true =
    (if bool_decide (p = None) then (set_errno s EFAULT, -1, None)
     else match fs_stat F (hist s1) a with
          | inl e => (set_errno (did s1 (KStat a)) e, -1, None)
          | inr k => (did s1 (KStat a), 0, Some (sdk_view k))
          end) /\
  stat H s p false = (set_errno s EFAULT, -1, None) /\ lstat H s p true = stat H s p true /\
  fstatat H s fd p true flag =
    (if bool_decide (p = None) || here fd p then stat H s p true else (set_errno s ENOSYS, -1, None)).
Proof.
  split; [| split; [| split; [reflexivity |]]].
  - case_bool_decide as E; [subst p; reflexivity | apply stat_answer; assumption].
  - unfold stat. rewrite orb_true_r. reflexivity.
  - unfold fstatat. fold (here fd p). rewrite orb_false_r.
    case_bool_decide as E; [subst p; reflexivity |]. destruct (here fd p); reflexivity.
Qed.

(** C39: The calls that the kernel answers with a SCE code report as POSIX
    calls do: 0, or -1 with exactly the errno the kernel encoded.  [remove]
    asks for the kind of the file first, removes a directory with rmdir and
    anything else with unlink, under the same anchored path, and does neither
    when the file cannot be asked about. *)
Theorem removal_correct (s s1 : state) (p a : option path) (Hp : p <> None) (Ha : anchorPath H s p 512 = (s1, a)) :
  unlink H s p = posix (did s1 (KUnlink a)) (fs_unlink F (hist s1) a) /\
  (forall q s2 b, anchorPath H s1 q 512 = (s2, b) ->
     rename H s p q = posix (did s2 (KRename a b)) (fs_rename F (hist s2) a b)) /\
  remove H s p =
    let s2 := did s1 (KStat a) in
    match fs_stat F (hist s1) a with
    | inl e => (set_errno s2 e, -1)
    | inr k =>
        if s_isdir (st_mode k) then posix (did s2 (KRmdir a)) (fs_rmdir F (hist s2) a)
        else posix (did s2 (KUnlink a)) (fs_unlink F (hist s2) a)
    end.
Proof.
  assert (U : forall s s1, anchorPath H s p 512 = (s1, a) ->
    unlink H s p = posix (did s1 (KUnlink a)) (fs_unlink F (hist s1) a)).
  { intros t t1 E. unfold unlink. rewrite E. destruct (sv_unlink _ _ Hsv (hist t1) a) as [Hf ->].
    apply posix_spec, Hf. }
  split; [apply U, Ha |]. split.
  - intros q s2 b Hb. unfold rename. rewrite Ha, Hb.
    destruct (sv_rename _ _ Hsv (hist s2) a b) as [Hf ->]. apply posix_spec, Hf.
  - cbv zeta. unfold remove. rewrite (stat_answer _ _ _ _ Hp Ha).
    destruct (fs_stat F (hist s1) a) as [e | k]; [reflexivity |].
    change (st_mode (sdk_view k)) with (st_mode k).
    pose proof (anchor_again _ _ _ _ _ Ha (did s1 (KStat a)) eq_refl eq_refl) as Hb.
    destruct (s_isdir (st_mode k)); cbn [negb].
    + rewrite Hb. destruct (sv_rmdir _ _ Hsv (hist (did s1 (KStat a))) a) as [Hf ->]. apply posix_spec, Hf.
    + apply U, Hb.
Qed.

End Kernel.

(** ** A kernel with one directory and one file *)

Definition demo_time : timespec := mk_ts 1700000000 5.
Definition demo_dir : stat_t :=
  mk_stat 1 2 0x41FF 2 0 0 0 512 1 4096 0 7 demo_time demo_time demo_time demo_time.
Definition demo_file : stat_t :=
  mk_stat 1 3 0x81A4 1 0 0 0 722595072 1411320 4096 0 7 demo_time demo_time demo_time (mk_ts (-1) 0).

Definition demo_fs : fs :=
  mk_fs (fun _ p => if bool_decide (p = Some (bytes "/data/orbis-compat/d")) then inr demo_dir
                    else if bool_decide (p = Some (bytes "/v.vdf")) then inr demo_file else inl 2)
    (fun _ _ => Some 1) (fun _ _ => None) (fun _ _ _ => Some 18).

Definition host_of (F : fs) : host :=
  mk_host 0x200 None None (fun _ => (-1, [])) (fun _ _ => Some EEXIST) (fun _ _ _ _ => 3)
    (fun h p => code_of (fs_unlink F h p)) (fun h p q => code_of (fs_rename F h p q))
    (fun h p => code_of (fs_rmdir F h p))
    (fun h p => match fs_stat F h p with inl e => (code e, []) | inr k => (0, encode k) end)
    (fun _ _ => (0, [])) (fun _ => None).

Lemma demo_serves : serves (host_of demo_fs) demo_fs.
Proof.
  assert (T : time_ok demo_time /\ time_ok (mk_ts (-1) 0)) by (unfold time_ok, in_s64; cbn; lia).
  assert (K : stat_fits demo_dir /\ stat_fits demo_file).
  { split; unfold stat_fits, in_u32, in_u16, in_s64; repeat first [apply conj | apply List.Forall_cons | apply List.Forall_nil];
      cbn; try lia; apply T. }
  split; cbn; unfold in_u16.
  - intros _ p. case_bool_decide; [split; [apply K | reflexivity] |].
    case_bool_decide; [split; [apply K | reflexivity] | split; [lia | reflexivity]].
  - intros. split; [lia | reflexivity].
  - intros. split; [exact I | reflexivity].
  - intros. split; [lia | reflexivity].
Qed.

Definition asked : state * option path := anchorPath (host_of demo_fs) initial (Some (bytes "/v.vdf")) 512.

Lemma stat_correct_witness :
  serves (host_of demo_fs) demo_fs /\
  let s1 := fst asked in let a := snd asked in let p := Some (bytes "/v.vdf") in
  let H := host_of demo_fs in
  snd (stat H initial p true) = Some (sdk_view demo_file) /\
  (stat H initial p true =
    (if bool_decide (p = None) then (set_errno initial EFAULT, -1, None)
     else match fs_stat demo_fs (hist s1) a with
          | inl e => (set_errno (did s1 (KStat a)) e, -1, None)
          | inr k => (did s1 (KStat a), 0, Some (sdk_view k))
          end) /\
  stat H initial p false = (set_errno initial EFAULT, -1, None) /\ lstat H initial p true = stat H initial p true /\
  fstatat H initial 5 p true 0 =
    (if bool_decide (p = None) || here 5 p then stat H initial p true else (set_errno initial ENOSYS, -1, None))).
Proof.
  split; [exact demo_serves |]. cbv zeta. split; [vm_compute; reflexivity |].
  apply (stat_correct (host_of demo_fs) demo_fs demo_serves initial (fst asked) (Some (bytes "/v.vdf")) (snd asked)).
  vm_compute. reflexivity.
Defined.

Definition rel_dir : option path := Some (bytes "d").
Definition asked_dir : state * option path := anchorPath (host_of demo_fs) initial rel_dir 512.

Lemma removal_correct_witness :
  serves (host_of demo_fs) demo_fs /\ rel_dir <> None /\
  let H := host_of demo_fs in let s1 := fst asked_dir in let a := snd asked_dir in
  snd (remove H initial rel_dir) = 0 /\
  (unlink H initial rel_dir = posix (did s1 (KUnlink a)) (fs_unlink demo_fs (hist s1) a) /\
  (forall q s2 b, anchorPath H s1 q 512 = (s2, b) ->
     rename H initial rel_dir q = posix (did s2 (KRename a b)) (fs_rename demo_fs (hist s2) a b)) /\
  remove H initial rel_dir =
    let s2 := did s1 (KStat a) in
    match fs_stat demo_fs (hist s1) a with
    | inl e => (set_errno s2 e, -1)
    | inr k =>
        if s_isdir (st_mode k) then posix (did s2 (KRmdir a)) (fs_rmdir demo_fs (hist s2) a)
        else posix (did s2 (KUnlink a)) (fs_unlink demo_fs (hist s2) a)
    end).
Proof.
  split; [exact demo_serves |]. split; [discriminate |]. cbv zeta. split; [vm_compute; reflexivity |].
  apply (removal_correct (host_of demo_fs) demo_fs demo_serves initial (fst asked_dir) rel_dir (snd asked_dir)).
  - discriminate.
  - vm_compute. reflexivity.
Defined.
