(* ===== verification/Sigev.v ===== *)
(** [src/orbis_sigev.cpp]: timers that notify on a thread, and the five timer
    calls around them.

    Every critical section of a slot's lock with the kernel calls before it,
    and every return from a wait, is one [act]; a list of acts is an interleaving of any
    number of callers and of the threads that serve the slots.  The handle of
    slot [i] is the address [slot_addr i]; any other handle is a kernel timer's
    id.

    A condition variable: a thread in a wait is asleep until it is signalled or,
    in a timed wait, until the wait runs out; it may also return for no reason.
    A wait that has run out is over: the thread contends for the lock, a signal
    no longer reaches it, and it returns [ETIMEDOUT].  A signalled wait does
    not run out.

    Callers keep POSIX's rule for handles: a timer is used after its creation
    returned and before its deletion began.  A call may come from a timer's
    callback.  [timer_delete] joins the thread it would then run on when the
    timer is its own; what [pthread_join] does then is the platform's: it never
    returns, or it fails at once ([JoinSelf]), and [timer_delete] goes on and
    gives the slot away while its thread ([strays]) runs on. *)
From stdpp Require Import prelude list numbers.
From S2P Require Import Prelude UmtxTime.
Open Scope Z_scope.

Module Sigev.

Definition kMaxTimers : nat := 8.

Definition SIGEV_NONE : Z := 1.
Definition SIGEV_THREAD : Z := 2.
Definition TIMER_ABSTIME : Z := 1.
Definition ETIMEDOUT : Z := 60.
Definition EAGAIN : Z := 35.
Definition ENOTSUP : Z := 45.

Record sigevent := mk_sigevent {
  sigev_notify : Z; sigev_signo : Z; sigev_value : Z; sigev_notify_function : option Z }.

Record KSigevent := mk_ksigevent { k_value : Z; k_signo : Z; k_notify : Z; k_zero : Z; k_pad : Z }.

Record itimerspec := mk_its { it_interval : timespec; it_value : timespec }.

Definition zero_ts : timespec := mk_ts 0 0.

Record Slot := mk_slot {
  used : bool; under : Z; fn : option Z; val : Z; armed : bool; stop : bool;
  value : timespec; interval : timespec }.

Definition fresh_slot : Slot := mk_slot false (-1) None 0 false false zero_ts zero_ts.

Definition set_used (s : Slot) b := mk_slot b (under s) (fn s) (val s) (armed s) (stop s) (value s) (interval s).
Definition set_armed (s : Slot) b := mk_slot (used s) (under s) (fn s) (val s) b (stop s) (value s) (interval s).
Definition set_value (s : Slot) v := mk_slot (used s) (under s) (fn s) (val s) (armed s) (stop s) v (interval s).

Definition isZero (t : timespec) : bool := (tv_sec t =? 0) && (tv_nsec t =? 0).

(** Both fields are signed 64-bit words; the language leaves their overflow
    undefined and the machine's addition wraps. *)
Definition addTo (t d : timespec) : timespec :=
  let sec := s64 (tv_sec t + tv_sec d) in
  let nsec := s64 (tv_nsec t + tv_nsec d) in
  if 1000000000 <=? nsec then mk_ts (s64 (sec + 1)) (nsec - 1000000000) else mk_ts sec nsec.

Definition before (a b : timespec) : bool :=
  (tv_sec a <? tv_sec b) || ((tv_sec a =? tv_sec b) && (tv_nsec a <? tv_nsec b)).

(** What [enabled] makes of the answer of [orbis_env_get]. *)
Definition enabled (e : option (list Z)) : bool :=
  negb (match e with Some (c :: _) => c =? 48 | _ => false end).

Definition toKernel (ev : option sigevent) : KSigevent :=
  match ev with
  | None => mk_ksigevent 0 0 0 0 0
  | Some ev => mk_ksigevent (sigev_value ev) (sigev_signo ev) (sigev_notify ev) 0 0
  end.

(** ** The world *)

(** Where the thread of a slot is: not there, in the untimed wait, in the
    timed wait for the deadline it entered it with, past a timed wait that ran
    out, past the unlock with the callback it read, in the callback, or
    returned.  A wait has been signalled or not. *)
Inductive worker :=
  | WNone | WWait (signalled : bool) | WTimed (until : timespec) (signalled : bool) | WExpired
  | WTaken (f : option Z) (v : Z) | WBusy | WDone.

Definition pthread_cond_signal (k : worker) : worker :=
  match k with WWait _ => WWait true | WTimed d _ => WTimed d true | _ => k end.

(** Which call holds the slot: none; [timer_create] after its claim and after
    its kernel timer; the timer's user; [timer_delete] before and after its
    join, called by the callback of slot [who] or by another thread. *)
Inductive phase :=
  | Free | Claimed (clk : Z) (ev : sigevent) | Made | Live | Stopping (who : option nat) | Joined (who : option nat).

(** The calls of libkernel's timer layer. *)
Inductive kreq :=
  | KCreate (clk : Z) (k : option KSigevent) | KSettime (id flags : Z) (it : option itimerspec)
  | KGettime (id : Z) | KGetoverrun (id : Z) | KDelete (id : Z).

Inductive event :=
  | EK (r : kreq)
  | ERefused (errno : Z)
  | ECreated (g : nat) (f : option Z) (v : Z)
  | EArmed (g : nat) (d iv : timespec)
  | EDisarmed (g : nat) (ran_out : bool)
  | EDue (g : nat) (now d : timespec)
  | ECall (g : nat) (f v : Z)
  | EDeleted (g : nat).

(** [gen] numbers the timers in the order of their creation. *)
Record cell := mk_cell { sl : Slot; wk : worker; ph : phase; gen : nat }.

(** [ktimers] are the kernel's live timers; [log] is newest first; [strays] are
    the threads left behind on a slot that was given away. *)
Record world := mk_world {
  g_slot : list cell; g_fired : Z; ktimers : list Z; next_gen : nat; log : list event;
  strays : list (nat * worker) }.

Definition init : world := mk_world (replicate kMaxTimers (mk_cell fresh_slot WNone Free 0)) 0 [] 0 [] [].

Definition put (w : world) i c := mk_world (<[i := c]> (g_slot w)) (g_fired w) (ktimers w) (next_gen w) (log w) (strays w).
Definition notes (w : world) es := mk_world (g_slot w) (g_fired w) (ktimers w) (next_gen w) (es ++ log w) (strays w).
Definition note (w : world) e := notes w [e].
Definition set_ktimers (w : world) l := mk_world (g_slot w) (g_fired w) l (next_gen w) (log w) (strays w).
Definition count_fired (w : world) n := mk_world (g_slot w) (g_fired w + n) (ktimers w) (next_gen w) (log w) (strays w).
Definition next (w : world) := mk_world (g_slot w) (g_fired w) (ktimers w) (S (next_gen w)) (log w) (strays w).
Definition set_strays (w : world) l := mk_world (g_slot w) (g_fired w) (ktimers w) (next_gen w) (log w) l.

Definition drop_timer (id : Z) (l : list Z) : list Z := filter (fun k => k <> id) l.

(** ** Handles *)

Section Table.
Context (base size : Z).

Definition slot_addr (i : nat) : Z := base + Z.of_nat i * size.

Definition slotOf (w : world) (t : Z) : option nat :=
  if (base <=? t) && (t <? slot_addr kMaxTimers) then
    let i := Z.to_nat ((t - base) / size) in
    match g_slot w !! i with Some c => if used (sl c) then Some i else None | None => None end
  else None.

Definition idOf (t : Z) : Z := s32 t.
Definition handleOf (id : Z) : Z := id.

(** ** The thread of a slot *)

(** The head of [body]'s loop, up to the wait it enters. *)
Definition head (s : Slot) : worker :=
  if stop s then WDone else if armed s then WTimed (value s) false else WWait false.

(** After [pthread_cond_timedwait] returned [rc], up to the next wait or the
    unlock before the callback. *)
Definition timed_out (s : Slot) (rc : Z) (now : timespec) : Slot * worker :=
  if stop s then (s, WDone)
  else if negb (rc =? ETIMEDOUT) then (s, head s)
  else if before now (value s) then (s, head s)
  else
    let s' := if isZero (interval s) then set_armed s false else set_value s (addTo (value s) (interval s)) in
    (s', WTaken (fn s) (val s)).

(** What a thread does next: its wait returns, it runs out, the callback is
    called or it returns. *)
Inductive tact := Wake (rc : Z) (now : timespec) | Expire | Call | Return.

(** One such act of the thread [k] that serves the timer [g] in slot [s]: the
    slot and the thread after it, what happened, and the notifications it
    adds to [g_fired]. *)
Definition thread_act (g : nat) (s : Slot) (k : worker) (a : tact) : option (Slot * worker * list event * Z) :=
  match a, k with
  | Wake _ _, WWait _ => Some (s, head s, [], 0)
  | Wake rc now, WTimed _ _ =>
      if rc =? ETIMEDOUT then None else let '(s', k') := timed_out s rc now in Some (s', k', [], 0)
  | Wake rc now, WExpired =>
      if rc =? ETIMEDOUT then
        let '(s', k') := timed_out s rc now in
        Some (s', k', match k' with WTaken _ _ => [EDue g now (value s)] | _ => [] end, 0)
      else None
  | Expire, WTimed _ false => Some (s, WExpired, [], 0)
  | Call, WTaken (Some f) v => Some (s, WBusy, [ECall g f v], 0)
  | Call, WTaken None _ => Some (s, head s, [], 0)
  | Return, WBusy => Some (s, head s, [], 1)
  | _, _ => None
  end.

(** ** One act *)

Inductive act :=
  | CreatePass (clk : Z) (ev : option sigevent) (rc id : Z)
  | Claim (clk : Z) (ev : sigevent)
  | Make (i : nat) (rc id : Z)
  | Start (i : nat) (rc : Z)
  | Settime (t flags : Z) (it : option itimerspec) (now : timespec)
  | Gettime (t : Z)
  | Getoverrun (t : Z)
  | Stop (who : option nat) (t : Z)
  | Join (i : nat)
  | JoinSelf (i : nat)
  | Release (i : nat)
  | Thread (i : nat) (a : tact)
  | Stray (n : nat) (a : tact).

(** The first slot that is not used. *)
Fixpoint find_free (l : list cell) : option nat :=
  match l with
  | [] => None
  | c :: r => if used (sl c) then S <$> find_free r else Some 0%nat
  end.

(** [timer_create] of an ordinary timer. *)
Definition create_pass (w : world) (clk : Z) (ev : option sigevent) (rc id : Z) : world :=
  let w := note w (EK (KCreate clk (match ev with Some _ => Some (toKernel ev) | None => None end))) in
  if rc =? 0 then set_ktimers w (handleOf id :: ktimers w) else w.

(** The rest of [timer_create]: the switch and the claim of a slot; the
    kernel timer under it and the stores; the thread. *)
Definition claim (switch : option (list Z)) (w : world) (clk : Z) (ev : sigevent) : world :=
  if negb (enabled switch) then note w (ERefused ENOTSUP)
  else match find_free (g_slot w) with
       | None => note w (ERefused EAGAIN)
       | Some i =>
           match g_slot w !! i with
           | Some c => next (put w i (mk_cell (set_used (sl c) true) (wk c) (Claimed clk ev) (next_gen w)))
           | None => w
           end
       end.

Definition make (w : world) (i : nat) (c : cell) (clk : Z) (ev : sigevent) (rc id : Z) : world :=
  let w := note w (EK (KCreate clk (Some (mk_ksigevent 0 0 SIGEV_NONE 0 0)))) in
  if negb (rc =? 0) then put w i (mk_cell (set_used (sl c) false) (wk c) Free (gen c))
  else
    let s := mk_slot (used (sl c)) id (sigev_notify_function ev) (sigev_value ev) false false zero_ts zero_ts in
    set_ktimers (put w i (mk_cell s (wk c) Made (gen c))) (id :: ktimers w).

Definition start (w : world) (i : nat) (c : cell) (rc : Z) : world :=
  if negb (rc =? 0) then
    let id := under (sl c) in
    let w := set_ktimers (note w (EK (KDelete id))) (drop_timer id (ktimers w)) in
    note (put w i (mk_cell (set_used (sl c) false) (wk c) Free (gen c))) (ERefused EAGAIN)
  else
    note (put w i (mk_cell (sl c) (head (sl c)) Live (gen c))) (ECreated (gen c) (fn (sl c)) (val (sl c))).

(** The critical section of [timer_settime]. *)
Definition deadline_of (flags : Z) (it : itimerspec) (now : timespec) : timespec :=
  if negb (Z.land flags TIMER_ABSTIME =? 0) then it_value it else addTo now (it_value it).

Definition settime (s : Slot) (k : worker) (flags : Z) (it : option itimerspec) (now : timespec) : Slot * worker :=
  let s := match it with
           | Some it =>
               if isZero (it_value it) then set_armed s false
               else mk_slot (used s) (under s) (fn s) (val s) true (stop s) (deadline_of flags it now) (it_interval it)
           | None => set_armed s false
           end in
  (s, pthread_cond_signal k).

Definition set_event (g : nat) (k : worker) (flags : Z) (it : option itimerspec) (now : timespec) : event :=
  let off := EDisarmed g (match k with WExpired => true | _ => false end) in
  match it with
  | Some it => if isZero (it_value it) then off else EArmed g (deadline_of flags it now) (it_interval it)
  | None => off
  end.

Definition timer_settime (w : world) (t flags : Z) (it : option itimerspec) (now : timespec) : option world :=
  match slotOf w t with
  | None => Some (note w (EK (KSettime (idOf t) flags it)))
  | Some i =>
      match g_slot w !! i with
      | Some (mk_cell s k Live g) =>
          let w := note w (EK (KSettime (under s) flags it)) in
          let '(s', k') := settime s k flags it now in
          Some (note (put w i (mk_cell s' k' Live g)) (set_event g k flags it now))
      | _ => None
      end
  end.

(** The kernel timer a handle stands for. *)
Definition kernel_id (w : world) (t : Z) : Z :=
  match slotOf w t with
  | Some i => match g_slot w !! i with Some c => under (sl c) | None => idOf t end
  | None => idOf t
  end.

Definition timer_gettime (w : world) (t : Z) : world := note w (EK (KGettime (kernel_id w t))).
Definition timer_getoverrun (w : world) (t : Z) : world := note w (EK (KGetoverrun (kernel_id w t))).

(** [timer_delete] up to its join, and after it. *)
Definition delete_stop (w : world) (who : option nat) (t : Z) : option world :=
  match slotOf w t with
  | None =>
      Some (set_ktimers (note w (EK (KDelete (idOf t)))) (drop_timer (idOf t) (ktimers w)))
  | Some i =>
      match g_slot w !! i with
      | Some (mk_cell s k Live g) =>
          let s := mk_slot (used s) (under s) (fn s) (val s) false true (value s) (interval s) in
          Some (put w i (mk_cell s (pthread_cond_signal k) (Stopping who) g))
      | _ => None
      end
  end.

(** The slot is given away; a thread that has not ended stays behind. *)
Definition delete_release (w : world) (i : nat) (c : cell) : world :=
  let id := under (sl c) in
  let s := mk_slot false (-1) None (val (sl c)) (armed (sl c)) (stop (sl c)) (value (sl c)) (interval (sl c)) in
  let left := match wk c with WDone => [] | k => [(i, k)] end in
  let w := set_strays w (strays w ++ left) in
  note (put (set_ktimers (note w (EK (KDelete id))) (drop_timer id (ktimers w))) i
          (mk_cell s WNone Free (gen c))) (EDeleted (gen c)).

(** Whether the callback of slot [i] is inside a [timer_delete]. *)
Definition deletes (i : nat) (p : phase) : bool :=
  match p with Stopping (Some j) | Joined (Some j) => (j =? i)%nat | _ => false end.
Definition deleting (w : world) (i : nat) : bool := existsb (fun c => deletes i (ph c)) (g_slot w).

(** Whether a call can come from [who]: from the callback of a slot only while
    that runs and is in no other call that waits. *)
Definition may_call (w : world) (who : option nat) : bool :=
  match who with
  | None => true
  | Some j => match g_slot w !! j with Some c => match wk c with WBusy => negb (deleting w j) | _ => false end | None => false end
  end.

(** An act of the thread of slot [i], and of one left behind, which works on
    whatever timer is in its slot now. *)
Definition thread_step (w : world) (i : nat) (c : cell) (a : tact) : option world :=
  if match a with Return => deleting w i | _ => false end then None else
  '(s, k, es, n) ← thread_act (gen c) (sl c) (wk c) a;
  Some (count_fired (notes (put w i (mk_cell s k (ph c) (gen c))) es) n).

Definition stray_step (w : world) (n : nat) (a : tact) : option world :=
  '(i, k) ← strays w !! n;
  c ← g_slot w !! i;
  '(s, k, es, m) ← thread_act (gen c) (sl c) k a;
  Some (set_strays (count_fired (notes (put w i (mk_cell s (wk c) (ph c) (gen c))) es) m) (<[n := (i, k)]> (strays w))).

(** [None] when the act is not possible now.  A new kernel timer's id is none
    of the live ones' and no handle of ours. *)
Definition new_id (w : world) (id : Z) : bool :=
  bool_decide (id ∉ ktimers w) && negb ((base <=? id) && (id <? slot_addr kMaxTimers)).

(** Callers delete the ordinary timers they created, which are not the ones
    under a slot. *)
Definition holds (p : phase) : bool := match p with Free | Claimed _ _ => false | _ => true end.
Definition is_under (w : world) (id : Z) : bool :=
  existsb (fun c => holds (ph c) && (under (sl c) =? id)) (g_slot w).

Definition step (switch : option (list Z)) (w : world) (a : act) : option world :=
  match a with
  | CreatePass clk ev rc id =>
      if match ev with Some e => sigev_notify e =? SIGEV_THREAD | None => false end then None
      else if (rc =? 0) && negb (new_id w id) then None else Some (create_pass w clk ev rc id)
  | Claim clk ev => if sigev_notify ev =? SIGEV_THREAD then Some (claim switch w clk ev) else None
  | Make i rc id =>
      match g_slot w !! i with
      | Some c => match ph c with
                  | Claimed clk ev =>
                      if (rc =? 0) && negb (new_id w id) then None else Some (make w i c clk ev rc id)
                  | _ => None end
      | None => None
      end
  | Start i rc =>
      match g_slot w !! i with
      | Some c => match ph c with Made => Some (start w i c rc) | _ => None end
      | None => None
      end
  | Settime t flags it now => timer_settime w t flags it now
  | Gettime t => Some (timer_gettime w t)
  | Getoverrun t => Some (timer_getoverrun w t)
  | Stop who t =>
      if negb (may_call w who) || match slotOf w t with None => is_under w (idOf t) | Some _ => false end then None
      else delete_stop w who t
  | Join i =>
      match g_slot w !! i with
      | Some (mk_cell s WDone (Stopping who) g) => Some (put w i (mk_cell s WDone (Joined who) g))
      | _ => None
      end
  | JoinSelf i =>
      match g_slot w !! i with
      | Some (mk_cell s WBusy (Stopping (Some j)) g) =>
          if (j =? i)%nat then Some (put w i (mk_cell s WBusy (Joined (Some j)) g)) else None
      | _ => None
      end
  | Release i =>
      match g_slot w !! i with
      | Some c => match ph c with Joined _ => Some (delete_release w i c) | _ => None end
      | None => None
      end
  | Thread i a => match g_slot w !! i with Some c => thread_step w i c a | None => None end
  | Stray n a => stray_step w n a
  end.

Fixpoint run (switch : option (list Z)) (w : world) (acts : list act) : option world :=
  match acts with [] => Some w | a :: r => w ← step switch w a; run switch w r end.

(** [orbis::timerCounts] *)
Definition timerCounts (w : world) : Z * Z :=
  (Z.of_nat (length (filter (fun c => used (sl c) = true) (g_slot w))), g_fired w).

End Table.

End Sigev.
Export Sigev.
