(* ===== verification/SigevRun.v ===== *)
(** What [Sigev] promises over every interleaving of its acts: who is called
    back, when, how often, and that deleting a timer ends it. *)
From stdpp Require Import prelude list numbers.
From S2P Require Import Prelude UmtxTime Sigev.
Open Scope Z_scope.

(** ** What the log says of a timer *)

Definition ev_gen (e : event) : option nat :=
  match e with
  | EK _ | ERefused _ => None
  | ECreated g _ _ | EArmed g _ _ | EDisarmed g _ | EDue g _ _ | ECall g _ _ | EDeleted g => Some g
  end.

(** The last arming, the number of times the timer came due since, and, when
    it was disarmed since, how often it may still come due: once if its
    thread's wait had run out before, else never. *)
Fixpoint arm_hist (g : nat) (l : list event) : option (timespec * timespec * nat * option nat) :=
  match l with
  | [] => None
  | EArmed g' d iv :: r => if decide (g' = g) then Some (d, iv, 0%nat, None) else arm_hist g r
  | EDisarmed g' ran_out :: r =>
      if decide (g' = g) then
        (fun '(d, iv, k, _) => (d, iv, k, Some (if ran_out : bool then 1%nat else 0%nat))) <$> arm_hist g r
      else arm_hist g r
  | EDue g' _ _ :: r =>
      if decide (g' = g) then (fun '(d, iv, k, off) => (d, iv, S k, option_map Nat.pred off)) <$> arm_hist g r else arm_hist g r
  | _ :: r => arm_hist g r
  end.

Definition is_due (g : nat) (e : event) : bool := match e with EDue g' _ _ => bool_decide (g' = g) | _ => false end.
Definition is_call (g : nat) (e : event) : bool := match e with ECall g' _ _ => bool_decide (g' = g) | _ => false end.
Definition count (f : event -> bool) (l : list event) : nat := length (filter (fun e => f e = true) l).
Definition dues (g : nat) (l : list event) : nat := count (is_due g) l.
Definition calls (g : nat) (l : list event) : nat := count (is_call g) l.

(** The [k]-th deadline of an arming, and the next one there is. *)
Definition nth_deadline (d iv : timespec) (k : nat) : timespec := Nat.iter k (fun t => addTo t iv) d.
Definition due_next (g : nat) (l : list event) : option timespec :=
  match arm_hist g l with
  | Some (_, _, _, Some 0%nat) => None
  | Some (d, iv, k, _) =>
      if isZero iv then (if decide (k = 0%nat) then Some d else None) else Some (nth_deadline d iv k)
  | None => None
  end.

Definition silent (g : nat) (l : list event) : Prop := Forall (fun e => ev_gen e <> Some g) l.

(** A history in which every timer behaves: it comes due at its deadlines
    only, in order and not before the clock reads them, and not while it is
    disarmed, but for the one deadline its thread's wait had run out for; it is called back
    once each time it came due, with the function and value it was created
    with, between its creation and the return of its deletion, and every
    time it came due it was called back before that return. *)
Fixpoint log_ok (l : list event) : Prop :=
  match l with
  | [] => True
  | e :: h =>
      log_ok h /\
      match e with
      | ECreated g _ _ => silent g h
      | EDue g now d => due_next g h = Some d /\ before now d = false /\ ~ In (EDeleted g) h
      | ECall g f v => In (ECreated g (Some f) v) h /\ ~ In (EDeleted g) h /\ (calls g h < dues g h)%nat
      | EDeleted g =>
          ~ In (EDeleted g) h /\
          exists f v, In (ECreated g f v) h /\ match f with Some _ => calls g h = dues g h | None => calls g h = 0%nat end
      | _ => True
      end
  end.

(** ** The invariant *)

Definition taken (k : worker) : nat := match k with WTaken _ _ => 1 | _ => 0 end.
Definition is_timed (k : worker) : bool := match k with WTimed _ _ | WExpired => true | _ => false end.

(** No wakeup is lost: a thread that is asleep and was not signalled has
    nothing to do yet, and waits for the deadline the slot has. *)
Definition heard (s : Slot) (k : worker) : Prop :=
  match k with
  | WWait signalled => signalled = true \/ (armed s = false /\ stop s = false)
  | WTimed d signalled => signalled = true \/ (armed s = true /\ stop s = false /\ d = value s)
  | _ => True
  end.

(** The thread of a disarmed timer: told of it, unless its wait had run out. *)
Definition told (off : option nat) (s : Slot) (k : worker) : Prop :=
  match off with
  | None => True
  | Some n => armed s = false /\ match k with WTimed _ signalled => signalled = true | WExpired => n = 1%nat | _ => True end
  end.

(** The slot of a timer and what the log says of it. *)
Definition served (l : list event) (c : cell) : Prop :=
  In (ECreated (gen c) (fn (sl c)) (val (sl c))) l /\ ~ In (EDeleted (gen c)) l /\
  (forall f v, wk c = WTaken f v -> f = fn (sl c) /\ v = val (sl c)) /\
  match fn (sl c) with
  | Some _ => dues (gen c) l = (calls (gen c) l + taken (wk c))%nat
  | None => calls (gen c) l = 0%nat
  end /\
  match arm_hist (gen c) l with
  | None => armed (sl c) = false /\ is_timed (wk c) = false
  | Some (d, iv, k, off) =>
      interval (sl c) = iv /\ told off (sl c) (wk c) /\
      if isZero iv
      then value (sl c) = d /\ (k = 0%nat \/ (armed (sl c) = false /\ is_timed (wk c) = false))
      else value (sl c) = nth_deadline d iv k
  end /\
  heard (sl c) (wk c).

Definition cell_inv (l : list event) (c : cell) : Prop :=
  match ph c with
  | Free => used (sl c) = false /\ wk c = WNone
  | Claimed _ _ => used (sl c) = true /\ wk c = WNone /\ silent (gen c) l
  | Made => used (sl c) = true /\ wk c = WNone /\ armed (sl c) = false /\ stop (sl c) = false /\ silent (gen c) l
  | Live => used (sl c) = true /\ stop (sl c) = false /\ wk c <> WNone /\ wk c <> WDone /\ served l c
  | Stopping _ => used (sl c) = true /\ stop (sl c) = true /\ armed (sl c) = false /\ wk c <> WNone /\ served l c
  | Joined _ => used (sl c) = true /\ stop (sl c) = true /\ wk c = WDone /\ served l c
  end.

Definition gens_apart (l : list cell) : Prop :=
  forall i j a b, l !! i = Some a -> l !! j = Some b -> ph a <> Free -> ph b <> Free -> gen a = gen b -> i = j.

Record ok (w : world) : Prop := {
  ok_len : length (g_slot w) = kMaxTimers;
  ok_cells : forall i c, g_slot w !! i = Some c -> cell_inv (log w) c;
  ok_gens : gens_apart (g_slot w);
  ok_next : forall i c, g_slot w !! i = Some c -> ph c <> Free -> (gen c < next_gen w)%nat;
  ok_events : Forall (fun e => forall g, ev_gen e = Some g -> (g < next_gen w)%nat) (log w);
  ok_log : log_ok (log w);
  ok_strays : strays w = [] }.

(** ** Frames *)

Lemma ev_gen_dec (e : event) (g : nat) : {ev_gen e = Some g} + {ev_gen e <> Some g}.
Proof. exact (decide (ev_gen e = Some g)). Qed.

Lemma frame_one g e l : ev_gen e <> Some g ->
  arm_hist g (e :: l) = arm_hist g l /\ dues g (e :: l) = dues g l /\ calls g (e :: l) = calls g l.
Proof.
  intros H. unfold dues, calls, count. rewrite !filter_cons.
  destruct e; cbn in H |- *; repeat case_decide; try congruence; auto;
    (exfalso; match goal with H : bool_decide _ = true |- _ => apply bool_decide_eq_true in H end; congruence).
Qed.

Lemma served_frame e l c : ev_gen e <> Some (gen c) -> served l c -> served (e :: l) c.
Proof.
  intros H (A & B & C & D & E). destruct (frame_one _ e l H) as (F1 & F2 & F3).
  unfold served. rewrite F1, F2, F3. split; [right; exact A |]. split; [| auto].
  intros [-> | HB]; [apply H; reflexivity | exact (B HB)].
Qed.

Lemma cell_frame e l c : (ph c <> Free -> ev_gen e <> Some (gen c)) -> cell_inv l c -> cell_inv (e :: l) c.
Proof.
  intros H. unfold cell_inv. destruct (ph c) eqn:E; [tauto | | | | |];
    (assert (Hg : ev_gen e <> Some (gen c)) by (apply H; discriminate)); intros I;
    repeat match goal with
           | H : _ /\ _ |- _ => destruct H
           | |- served _ _ => apply served_frame; assumption
           | |- silent _ _ => constructor; assumption
           | |- _ /\ _ => split
           end; assumption.
Qed.

Lemma cell_frames es l c : Forall (fun e => ph c <> Free -> ev_gen e <> Some (gen c)) es ->
  cell_inv l c -> cell_inv (es ++ l) c.
Proof.
  induction 1 as [| e es He Hes IH]; intros I; [exact I |]. apply cell_frame; [exact He | apply IH, I].
Qed.

(** One slot changes, and events of its own timer are logged. *)
Definition about (g : nat) (e : event) : Prop := forall g', ev_gen e = Some g' -> g' = g.

Lemma ok_upd w i c c' es kt fired : ok w -> g_slot w !! i = Some c -> ph c <> Free -> gen c' = gen c ->
  Forall (about (gen c)) es -> cell_inv (es ++ log w) c' -> log_ok (es ++ log w) ->
  ok (mk_world (<[i := c']> (g_slot w)) fired kt (next_gen w) (es ++ log w) (strays w)).
Proof.
  intros [A B C D E F G] Hi Hp Hg He Hc Hl. split; cbn [g_slot next_gen log strays]; [| | | | | exact Hl | exact G].
  - rewrite length_insert. exact A.
  - intros j d Hj. destruct (decide (i = j)) as [<- | Hij].
    { rewrite list_lookup_insert_eq in Hj by (eapply lookup_lt_Some; eassumption). congruence. }
    rewrite list_lookup_insert_ne in Hj by exact Hij. apply cell_frames; [| apply (B _ _ Hj)].
    eapply List.Forall_impl; [| exact He]. intros e Ha Hd Hg'. apply Ha in Hg'.
    apply Hij. eapply (C i j); eauto.
  - assert (Hu : forall j a, <[i := c']> (g_slot w) !! j = Some a -> ph a <> Free ->
      exists a0, g_slot w !! j = Some a0 /\ ph a0 <> Free /\ gen a0 = gen a).
    { intros j a Hj Ha. destruct (decide (i = j)) as [<- | Hij].
      - rewrite list_lookup_insert_eq in Hj by (eapply lookup_lt_Some; eassumption).
        exists c. split; [exact Hi |]. split; [exact Hp | congruence].
      - rewrite list_lookup_insert_ne in Hj by exact Hij. eauto. }
    intros j k a b Hj Hk Ha Hb Hab. destruct (Hu j a Hj Ha) as (a0 & X1 & X2 & X3).
    destruct (Hu k b Hk Hb) as (b0 & Y1 & Y2 & Y3). eapply C; eauto; congruence.
  - intros j d Hj Hd. destruct (decide (i = j)) as [<- | Hij].
    + rewrite list_lookup_insert_eq in Hj by (eapply lookup_lt_Some; eassumption).
      injection Hj as <-. rewrite Hg. exact (D _ _ Hi Hp).
    + rewrite list_lookup_insert_ne in Hj by exact Hij. exact (D _ _ Hj Hd).
  - apply List.Forall_app. split; [| exact E]. eapply List.Forall_impl; [| exact He].
    intros e Ha g Hg'. rewrite (Ha g Hg'). exact (D _ _ Hi Hp).
Qed.

Lemma ok_note w e kt : ok w -> ev_gen e = None -> log_ok [e] ->
  ok (mk_world (g_slot w) (g_fired w) kt (next_gen w) (e :: log w) (strays w)).
Proof.
  intros [A B C D E F G] He Hl. split; cbn [g_slot next_gen log strays]; auto.
  - intros i c Hi. apply cell_frame; [congruence | exact (B _ _ Hi)].
  - constructor; [congruence | exact E].
  - destruct e; try discriminate; split; [exact F | exact I | exact F | exact I].
Qed.

Lemma ok_kt w kt : ok w -> ok (mk_world (g_slot w) (g_fired w) kt (next_gen w) (log w) (strays w)).
Proof. intros [A B C D E F G]. split; assumption. Qed.

(** ** The thread of a slot *)

Definition runs_thread (k : worker) : Prop := k <> WNone /\ k <> WDone.

(** A thread that is not finished serves a timer that is live or being
    deleted. *)
Lemma thread_served l c : cell_inv l c -> runs_thread (wk c) ->
  served l c /\ used (sl c) = true /\
  ((ph c = Live /\ stop (sl c) = false) \/ ((exists who, ph c = Stopping who) /\ stop (sl c) = true /\ armed (sl c) = false)).
Proof.
  unfold cell_inv, runs_thread. intros I [H1 H2].
  destruct (ph c); repeat match goal with H : _ /\ _ |- _ => destruct H end; try contradiction; eauto 10.
Qed.

Lemma thread_inv l c s k :
  served l (mk_cell s k (ph c) (gen c)) -> used s = true -> k <> WNone ->
  ((ph c = Live /\ stop s = false /\ k <> WDone) \/ ((exists who, ph c = Stopping who) /\ stop s = true /\ armed s = false)) ->
  cell_inv l (mk_cell s k (ph c) (gen c)).
Proof. intros S U N [(E & A & B) | ([who E] & A & B)]; unfold cell_inv; cbn; rewrite E in *; tauto. Qed.

Lemma head_spec s : head s <> WNone /\ taken (head s) = 0%nat /\
  (armed s = false -> is_timed (head s) = false) /\ (stop s = false -> head s <> WDone) /\ heard s (head s).
Proof. unfold head, heard. destruct (stop s) eqn:?, (armed s) eqn:?; repeat split; try congruence; auto. Qed.

Lemma told_head off s k : told off s k -> told off s (head s).
Proof. unfold told, head. destruct off; [| auto]. intros [A _]. rewrite A. destruct (stop s); auto. Qed.

Lemma signal_spec k : is_timed (pthread_cond_signal k) = is_timed k /\ taken (pthread_cond_signal k) = taken k /\
  (forall f v, pthread_cond_signal k = WTaken f v -> k = WTaken f v) /\
  (pthread_cond_signal k = WNone -> k = WNone) /\ (pthread_cond_signal k = WDone -> k = WDone) /\
  forall s, heard s (pthread_cond_signal k).
Proof. destruct k; repeat split; intros; try congruence; cbn in *; try discriminate; auto. Qed.

Lemma cell_head l c : cell_inv l c -> runs_thread (wk c) ->
  (taken (wk c) = 0%nat \/ fn (sl c) = None) ->
  cell_inv l (mk_cell (sl c) (head (sl c)) (ph c) (gen c)).
Proof.
  intros I R T. destruct (thread_served _ _ I R) as ((A & B & C & D & E & G) & U & P).
  destruct (head_spec (sl c)) as (H1 & H2 & H3 & H4 & H5).
  apply thread_inv; [| exact U | exact H1 | destruct P as [[P1 P2] | P]; auto].
  unfold served; cbn [sl wk gen]. split; [exact A |]. split; [exact B |]. split.
  { intros f v Hk. rewrite Hk in H2. discriminate. }
  split.
  { destruct (fn (sl c)); [| exact D]. destruct T as [T | T]; [| discriminate]. rewrite H2, <- T. exact D. }
  split; [| exact H5].
  destruct (arm_hist (gen c) l) as [[[[d iv] k] off] |]; [| destruct E; auto].
  destruct E as (E1 & E0 & E2). split; [exact E1 |]. split; [exact (told_head _ _ _ E0) |].
  destruct (isZero iv); [| exact E2]. destruct E2 as [E2 [E3 | [E3 E4]]]; auto.
Qed.

(** The timed wait runs out. *)
Lemma cell_expired l c d : cell_inv l c -> wk c = WTimed d false -> cell_inv l (mk_cell (sl c) WExpired (ph c) (gen c)).
Proof.
  intros I Hk. assert (R : runs_thread (wk c)) by (rewrite Hk; split; discriminate).
  destruct (thread_served _ _ I R) as ((A & B & C & D & E & G) & U & P). rewrite Hk in D, E. cbn [is_timed taken] in *.
  apply thread_inv; [| exact U | discriminate | destruct P as [[P1 P2] | P]; [left; repeat split; auto; discriminate | auto]].
  unfold served; cbn [sl wk gen taken is_timed]. do 2 (split; [assumption |]). split; [discriminate |]. split; [exact D |].
  split; [| exact Logic.I]. destruct (arm_hist (gen c) l) as [[[[d' iv] k] off] |]; [| exact E].
  destruct E as (E1 & E0 & E2). split; [exact E1 |]. split; [| exact E2].
  destruct off; [| exact Logic.I]. destruct E0. discriminate.
Qed.

(** The timer comes due. *)
Lemma cell_due l c now s k : cell_inv l c -> wk c = WExpired -> stop (sl c) = false ->
  before now (value (sl c)) = false -> log_ok l ->
  (s = if isZero (interval (sl c)) then set_armed (sl c) false
       else set_value (sl c) (addTo (value (sl c)) (interval (sl c)))) ->
  k = WTaken (fn (sl c)) (val (sl c)) ->
  let l' := EDue (gen c) now (value (sl c)) :: l in
  cell_inv l' (mk_cell s k (ph c) (gen c)) /\ log_ok l'.
Proof.
  intros I Hk Hs Hb Hl Es Ek. assert (R : runs_thread (wk c)) by (rewrite Hk; split; discriminate).
  destruct (thread_served _ _ I R) as ((A & B & C & D & E & _) & U & P). rewrite Hk in E, D. cbn [is_timed taken] in *.
  destruct P as [[P _] | (_ & P & _)]; [| congruence].
  destruct (arm_hist (gen c) l) as [[[[d iv] n] off] |] eqn:Ea; [| destruct E; discriminate].
  destruct E as (E1 & E0 & E2).
  assert (Hn : due_next (gen c) l = Some (value (sl c))).
  { unfold due_next. rewrite Ea.
    assert (F : (if isZero iv then if decide (n = 0%nat) then Some d else None else Some (nth_deadline d iv n)) = Some (value (sl c))).
    { destruct (isZero iv); [| congruence].
      destruct E2 as [E2 [-> | [_ E3]]]; [| discriminate]. rewrite decide_True by reflexivity. congruence. }
    destruct off as [m |]; [| exact F]. destruct E0 as [_ ->]. exact F. }
  cbv zeta. split; [| split; [exact Hl | auto]].
  assert (Fs : fn s = fn (sl c) /\ val s = val (sl c) /\ interval s = interval (sl c) /\
               used s = used (sl c) /\ stop s = stop (sl c)).
  { subst s. destruct (isZero (interval (sl c))); repeat split; reflexivity. }
  destruct Fs as (F1 & F2 & F3 & F4 & F5).
  apply thread_inv; [| congruence | subst k; discriminate | left; split; [exact P |]; subst k; split; [congruence | discriminate]].
  unfold served; cbn [sl wk gen]. rewrite F1, F2, F3. split; [right; exact A |].
  split; [intros [H | H]; [discriminate | exact (B H)] |]. split; [subst k; intros f v [= <- <-]; auto |]. split.
  - subst k. cbn [taken]. unfold dues, calls, count in *. rewrite !filter_cons. cbn [is_due is_call].
    rewrite bool_decide_eq_true_2 by reflexivity. rewrite decide_True by reflexivity.
    rewrite decide_False by discriminate. cbn [length]. destruct (fn (sl c)); lia.
  - split; [| subst k; exact Logic.I]. cbn [arm_hist]. rewrite decide_True by reflexivity. rewrite Ea. cbn. split; [exact E1 |].
    rewrite E1 in Es. split.
    { subst k. unfold told in *. destruct off as [m |]; [| exact Logic.I]. cbn. destruct E0 as [E0 _]. split; [| exact Logic.I].
      subst s. destruct (isZero iv); [reflexivity | exact E0]. }
    subst s k. destruct (isZero iv).
    + split; [apply E2 |]. right. split; reflexivity.
    + cbn [value set_value]. rewrite E2. reflexivity.
Qed.

(** The callback is called. *)
Lemma cell_call l c f v : cell_inv l c -> wk c = WTaken (Some f) v -> log_ok l ->
  let l' := ECall (gen c) f v :: l in
  cell_inv l' (mk_cell (sl c) WBusy (ph c) (gen c)) /\ log_ok l'.
Proof.
  intros I Hk Hl. assert (R : runs_thread (wk c)) by (rewrite Hk; split; discriminate).
  destruct (thread_served _ _ I R) as ((A & B & C & D & E & _) & U & P).
  destruct (C _ _ Hk) as [Cf Cv]. rewrite Hk, <- Cf in D. rewrite Hk in E. cbn [taken is_timed] in *.
  cbv zeta. split.
  - apply thread_inv; [| exact U | discriminate | destruct P as [[P1 P2] | P]; [left; repeat split; auto; discriminate | auto]].
    unfold served; cbn [sl wk gen]. split; [right; exact A |].
    split; [intros [H | H]; [discriminate | exact (B H)] |]. split; [discriminate |].
    split; [| split; [exact E | exact Logic.I]]. rewrite <- Cf. unfold dues, calls, count in *. rewrite !filter_cons. cbn [is_due is_call].
    rewrite bool_decide_eq_true_2 by reflexivity. rewrite (decide_True (P := true = true)) by reflexivity.
    rewrite decide_False by discriminate. cbn [length taken]. lia.
  - split; [exact Hl |]. rewrite Cf, Cv. split; [exact A |]. split; [exact B | lia].
Qed.

(** The timer is armed or disarmed. *)
Lemma cell_set l c flags it now : cell_inv l c -> ph c = Live -> log_ok l ->
  let l' := set_event (gen c) (wk c) flags it now :: l in
  let '(s, k) := settime (sl c) (wk c) flags it now in
  cell_inv l' (mk_cell s k Live (gen c)) /\ log_ok l'.
Proof.
  intros I Hp Hl. unfold cell_inv in I. rewrite Hp in I.
  destruct I as (U & S & N1 & N2 & A & B & C & D & E & _). cbv zeta.
  destruct (signal_spec (wk c)) as (G1 & G2 & G3 & G4 & G5 & G6).
  assert (K : forall e, is_due (gen c) e = false -> is_call (gen c) e = false -> e <> EDeleted (gen c) ->
    dues (gen c) (e :: l) = dues (gen c) l /\ calls (gen c) (e :: l) = calls (gen c) l /\ ~ In (EDeleted (gen c)) (e :: l)).
  { intros e H1 H2 H3. unfold dues, calls, count. rewrite !filter_cons, H1, H2.
    rewrite !decide_False by discriminate. split; [reflexivity |]. split; [reflexivity |].
    intros [H | H]; [exact (H3 H) | exact (B H)]. }
  (* what the slot and the thread keep, whatever is set *)
  assert (J : forall s e, used s = true -> stop s = false -> fn s = fn (sl c) -> val s = val (sl c) ->
    is_due (gen c) e = false -> is_call (gen c) e = false -> e <> EDeleted (gen c) ->
    match arm_hist (gen c) (e :: l) with
    | None => armed s = false /\ is_timed (wk c) = false
    | Some (d, iv, k, off) =>
        interval s = iv /\ told off s (pthread_cond_signal (wk c)) /\
        if isZero iv then value s = d /\ (k = 0%nat \/ (armed s = false /\ is_timed (wk c) = false))
        else value s = nth_deadline d iv k
    end -> cell_inv (e :: l) (mk_cell s (pthread_cond_signal (wk c)) Live (gen c))).
  { intros s e H1 H2 H3 H4 H5 H6 H7 H8. destruct (K e H5 H6 H7) as (K1 & K2 & K3).
    unfold cell_inv, served; cbn [sl wk gen ph]. rewrite H3, H4, K1, K2, G1, G2.
    do 2 (split; [assumption |]). split; [auto |]. split; [auto |]. split; [right; exact A |]. split; [exact K3 |].
    split; [intros f v Hf; apply C, G3, Hf |]. split; [exact D |]. split; [exact H8 | apply G6]. }
  set (off := EDisarmed (gen c) (match wk c with WExpired => true | _ => false end)).
  assert (J1 : cell_inv (off :: l) (mk_cell (set_armed (sl c) false) (pthread_cond_signal (wk c)) Live (gen c))).
  { unfold off. apply J; try reflexivity; try assumption; try discriminate. cbn [arm_hist set_armed armed interval value].
    rewrite decide_True by reflexivity. destruct (arm_hist (gen c) l) as [[[[d iv] k] o] |]; [| destruct E; cbn; auto].
    cbn. destruct E as (E1 & _ & E2). split; [exact E1 |]. split; [| destruct (isZero iv); tauto].
    split; [reflexivity |]. destruct (wk c); try reflexivity; exact Logic.I. }
  unfold set_event, settime. fold off. destruct it as [it |]; [destruct (isZero (it_value it)) |];
    cbv iota zeta; (split; [| split; [exact Hl | exact Logic.I]]); [exact J1 | | exact J1].
  apply J; try reflexivity; try assumption; try discriminate. cbn [arm_hist interval value armed].
  rewrite decide_True by reflexivity. split; [reflexivity |]. split; [exact Logic.I |]. destruct (isZero _); [auto | reflexivity].
Qed.

(** The deletion returns. *)
Lemma cell_deleted l c who : cell_inv l c -> ph c = Joined who -> log_ok l -> log_ok (EDeleted (gen c) :: l).
Proof.
  intros I Hp Hl. unfold cell_inv in I. rewrite Hp in I. destruct I as (U & S & K & A & B & C & D & E & _).
  rewrite K in D. split; [exact Hl |]. split; [exact B |]. exists (fn (sl c)), (val (sl c)).
  split; [exact A |]. destruct (fn (sl c)); [cbn in D; lia | exact D].
Qed.

(** ** Every act keeps the invariant *)

Lemma find_free_spec l i : find_free l = Some i -> exists c, l !! i = Some c /\ used (sl c) = false.
Proof.
  revert i. induction l as [| c l IH]; intros i; [discriminate |]. cbn [find_free].
  destruct (used (sl c)) eqn:E.
  - destruct (find_free l) as [j |]; [| discriminate]. intros [= <-]. exact (IH j eq_refl).
  - intros [= <-]. exists c. auto.
Qed.

Lemma unused_free l c : cell_inv l c -> used (sl c) = false -> ph c = Free.
Proof. unfold cell_inv. destruct (ph c); intros I U; try reflexivity; destruct I; congruence. Qed.

Lemma about_nil g : Forall (about g) [].
Proof. constructor. Qed.
Lemma about_one g e : ev_gen e = Some g -> Forall (about g) [e].
Proof. constructor; [intros g'; congruence | constructor]. Qed.
#[local] Hint Resolve about_nil about_one : core.

(** A cell that changes and leaves the log alone. *)
Lemma ok_cell w i c c' : ok w -> g_slot w !! i = Some c -> ph c <> Free -> gen c' = gen c ->
  cell_inv (log w) c' -> ok (put w i c').
Proof.
  intros O Hi Hp Hg Hc. exact (ok_upd w i c c' [] (ktimers w) (g_fired w) O Hi Hp Hg (about_nil _) Hc (ok_log _ O)).
Qed.

Lemma claim_ok switch w clk ev : ok w -> ok (claim switch w clk ev).
Proof.
  intros O. unfold claim. destruct (negb (enabled switch)); [apply ok_note; [exact O | reflexivity | repeat split] |].
  destruct (find_free (g_slot w)) as [i |] eqn:Ef; [| apply ok_note; [exact O | reflexivity | repeat split]].
  destruct (find_free_spec _ _ Ef) as (c & Hi & Hu). rewrite Hi.
  pose proof (unused_free _ _ (ok_cells _ O _ _ Hi) Hu) as Hp.
  pose proof (ok_cells _ O _ _ Hi) as Ic. unfold cell_inv in Ic. rewrite Hp in Ic. destruct Ic as [_ Hk].
  destruct O as [A B C D E F G]. set (c' := mk_cell _ _ _ _).
  assert (L : forall j d, <[i := c']> (g_slot w) !! j = Some d -> d = c' \/ (i <> j /\ g_slot w !! j = Some d)).
  { intros j d Hj. destruct (decide (i = j)) as [<- | Hij].
    - rewrite list_lookup_insert_eq in Hj by (eapply lookup_lt_Some; eassumption). left. congruence.
    - rewrite list_lookup_insert_ne in Hj by exact Hij. auto. }
  split; cbn [next put g_slot next_gen log strays]; [rewrite length_insert; exact A | | | | | exact F | exact G].
  - intros j d Hj. destruct (L j d Hj) as [-> | [_ Hj']]; [| exact (B _ _ Hj')].
    split; [reflexivity |]. split; [exact Hk |]. eapply List.Forall_impl; [| exact E].
    intros e He Hg. apply He in Hg. cbn in Hg. lia.
  - intros j k a b Hj Hk' Ha Hb Hab.
    destruct (L j a Hj) as [-> | [Hij Hj']], (L k b Hk') as [-> | [Hik Hk2]].
    + destruct (decide (i = j)) as [<- | Hij]; [| rewrite list_lookup_insert_ne in Hj by exact Hij;
        pose proof (D _ _ Hj Ha) as X; cbn in X; lia].
      destruct (decide (i = k)) as [<- | Hik]; [reflexivity | rewrite list_lookup_insert_ne in Hk' by exact Hik;
        pose proof (D _ _ Hk' Hb) as X; cbn in X; lia].
    + pose proof (D _ _ Hk2 Hb) as X. cbn in Hab. lia.
    + pose proof (D _ _ Hj' Ha) as X. cbn in Hab. lia.
    + eapply C; eauto.
  - intros j d Hj Hd. destruct (L j d Hj) as [-> | [_ Hj']]; [cbn; lia | pose proof (D _ _ Hj' Hd); lia].
  - eapply List.Forall_impl; [| exact E]. intros e He g Hg. specialize (He g Hg). lia.
Qed.

Lemma make_ok w i c clk ev rc id : ok w -> g_slot w !! i = Some c -> ph c = Claimed clk ev ->
  ok (make w i c clk ev rc id).
Proof.
  intros O Hi Hp. unfold make. set (e := EK _).
  assert (O1 : ok (note w e)) by (apply (ok_note w e (ktimers w)); [exact O | reflexivity | repeat split]).
  pose proof (ok_cells _ O1 i c Hi) as I. unfold cell_inv in I. rewrite Hp in I. destruct I as (U & K & S).
  destruct (negb (rc =? 0)).
  - eapply (ok_cell (note w e)); [exact O1 | exact Hi | congruence | reflexivity |]. split; [reflexivity | exact K].
  - apply (ok_kt (put (note w e) i _)). eapply (ok_cell (note w e)); [exact O1 | exact Hi | congruence | reflexivity |].
    unfold cell_inv; cbn. auto.
Qed.

Lemma silent_not_in g l e : silent g l -> ev_gen e = Some g -> ~ In e l.
Proof. intros S H Hin. unfold silent in S. rewrite List.Forall_forall in S. exact (S _ Hin H). Qed.

Lemma silent_hist g l : silent g l -> arm_hist g l = None /\ dues g l = 0%nat /\ calls g l = 0%nat.
Proof.
  induction 1 as [| e l H _ (IH1 & IH2 & IH3)]; [auto |].
  destruct (frame_one g e l H) as (-> & -> & ->). auto.
Qed.

Lemma start_ok w i c rc : ok w -> g_slot w !! i = Some c -> ph c = Made -> ok (start w i c rc).
Proof.
  intros O Hi Hp. unfold start. pose proof (ok_cells _ O _ _ Hi) as I. unfold cell_inv in I. rewrite Hp in I.
  destruct I as (U & K & A & S & Q). destruct (negb (rc =? 0)).
  - set (e := EK _). set (w1 := set_ktimers (note w e) _).
    assert (O1 : ok w1) by (apply (ok_note w e); [exact O | reflexivity | repeat split]).
    apply (ok_note _ (ERefused EAGAIN) (ktimers w1)); [| reflexivity | repeat split].
    eapply ok_cell; [exact O1 | exact Hi | congruence | reflexivity |]. split; [reflexivity | exact K].
  - set (c' := mk_cell _ _ _ _). set (e := ECreated _ _ _).
    apply (ok_upd w i c c' [e] (ktimers w) (g_fired w)); auto; [congruence | | split; [apply ok_log, O | exact Q]].
    unfold c', cell_inv, head; cbn. rewrite S, A. split; [exact U |]. split; [reflexivity |].
    split; [discriminate |]. split; [discriminate |].
    destruct (silent_hist _ _ Q) as (Q1 & Q2 & Q3). unfold served; cbn [sl wk gen app arm_hist].
    split; [left; reflexivity |].
    split; [intros [H | H]; [discriminate | revert H; apply (silent_not_in _ _ _ Q); reflexivity] |].
    split; [discriminate |]. rewrite Q1. split; [| split; [split; [exact A | reflexivity] | right; split; assumption]].
    unfold dues, calls, count in *. rewrite !filter_cons. unfold e; cbn [is_due is_call].
    rewrite !decide_False by discriminate. rewrite Q2, Q3. destruct (fn (sl c)); reflexivity.
Qed.

Section Table.
Context (base size : Z) (switch : option (list Z)).

Lemma settime_ok w t flags it now w' : ok w -> timer_settime base size w t flags it now = Some w' -> ok w'.
Proof.
  intros O. unfold timer_settime. destruct (slotOf base size w t) as [i |]; [| intros [= <-]; apply ok_note; auto; repeat split].
  destruct (g_slot w !! i) as [[s k p g] |] eqn:Hi; [| discriminate]. destruct p; try discriminate.
  set (e := EK _). assert (O1 : ok (note w e)) by (apply (ok_note w e (ktimers w)); [exact O | reflexivity | repeat split]).
  pose proof (cell_set _ _ flags it now (ok_cells _ O1 _ _ Hi) eq_refl (ok_log _ O1)) as X. cbn [sl wk gen] in X.
  destruct (settime s k flags it now) as [s' k']. destruct X as [X Y]. intros [= <-].
  refine (ok_upd (note w e) i _ _ [_] (ktimers w) (g_fired w) O1 Hi _ _ _ X Y); [discriminate | reflexivity |].
  apply about_one. unfold set_event. destruct it as [it |]; [destruct (isZero _) |]; reflexivity.
Qed.

Lemma stop_ok w who t w' : ok w -> delete_stop base size w who t = Some w' -> ok w'.
Proof.
  intros O. unfold delete_stop. destruct (slotOf base size w t) as [i |];
    [| intros [= <-]; apply (ok_note w (EK (KDelete (idOf t)))); auto; repeat split].
  destruct (g_slot w !! i) as [[s k p g] |] eqn:Hi; [| discriminate]. destruct p; try discriminate. intros [= <-].
  eapply ok_cell; [exact O | exact Hi | discriminate | reflexivity |].
  pose proof (ok_cells _ O _ _ Hi) as (U & S & N1 & N2 & A & B & C & D & E & _). cbn [sl wk gen] in *.
  destruct (signal_spec k) as (G1 & G2 & G3 & G4 & G5 & G6).
  unfold cell_inv, served; cbn [ph sl wk gen used stop armed fn val interval value]. rewrite G1, G2.
  do 6 (split; [first [assumption | reflexivity | auto] |]).
  split; [intros f v Hf; apply C, G3, Hf |]. split; [exact D |]. split; [| apply G6].
  destruct (arm_hist g (log w)) as [[[[d iv] n] off] |]; [| tauto]. destruct E as (E1 & E0 & E2). split; [exact E1 |].
  split; [| destruct (isZero iv); tauto]. unfold told in *. destruct off; [| exact Logic.I]. destruct E0 as [E0 E3].
  split; [reflexivity |]. destruct k; cbn in *; auto.
Qed.

Lemma slot_release_ok w i c who : ok w -> g_slot w !! i = Some c -> ph c = Joined who -> ok (delete_release w i c).
Proof.
  intros O Hi Hp. unfold delete_release. pose proof (ok_cells _ O _ _ Hi) as I. unfold cell_inv in I. rewrite Hp in I.
  destruct I as (_ & _ & Hk & _). rewrite Hk, app_nil_r. set (e := EK _).
  assert (O1 : ok (note w e)) by (apply (ok_note w e (ktimers w)); [exact O | reflexivity | repeat split]).
  refine (ok_upd (note w e) i c _ [_] _ (g_fired w) O1 Hi _ _ _ _ _); [congruence | reflexivity | | |].
  - apply about_one. reflexivity.
  - split; reflexivity.
  - exact (cell_deleted _ _ _ (ok_cells _ O1 _ _ Hi) Hp (ok_log _ O1)).
Qed.

Lemma not_free l c : cell_inv l c -> runs_thread (wk c) -> ph c <> Free.
Proof. intros I R Hp. destruct (thread_served _ _ I R) as (_ & _ & [[H _] | [[who H] _]]); congruence. Qed.

(** Where an act of a thread leads. *)
Lemma timed_out_cases s rc now :
  timed_out s rc now = (s, head s) \/
  (rc = ETIMEDOUT /\ stop s = false /\ before now (value s) = false /\
   timed_out s rc now = (if isZero (interval s) then set_armed s false else set_value s (addTo (value s) (interval s)),
                         WTaken (fn s) (val s))).
Proof.
  unfold timed_out. destruct (stop s) eqn:Es; [left; unfold head; rewrite Es; reflexivity |].
  destruct (Z.eqb_spec rc ETIMEDOUT) as [-> |]; cbn [negb]; [| auto].
  destruct (before now (value s)) eqn:Eb; [auto |]. right. auto.
Qed.

(** What an act of a thread does: it goes to its loop's head; its wait runs
    out; the timer comes due; the callback is called. *)
Lemma thread_act_cases g s k a s' k' es n : thread_act g s k a = Some (s', k', es, n) ->
  (s' = s /\ k' = head s /\ es = [] /\ runs_thread k /\ (taken k = 0%nat \/ exists v, k = WTaken None v) /\
     n = (if match k with WBusy => true | _ => false end then 1 else 0)) \/
  (exists d, k = WTimed d false /\ s' = s /\ k' = WExpired /\ es = [] /\ n = 0) \/
  (exists now, k = WExpired /\ stop s = false /\ before now (value s) = false /\
     s' = (if isZero (interval s) then set_armed s false else set_value s (addTo (value s) (interval s))) /\
     k' = WTaken (fn s) (val s) /\ es = [EDue g now (value s)] /\ n = 0) \/
  (exists f v, k = WTaken (Some f) v /\ s' = s /\ k' = WBusy /\ es = [ECall g f v] /\ n = 0).
Proof.
  assert (R : forall k, k <> WNone -> k <> WDone -> runs_thread k) by (split; assumption).
  destruct a as [rc now | | |], k as [| sig | d sig | | [f |] v | |]; cbn [thread_act]; try discriminate.
  - intros [= <- <- <- <-]. left. repeat split; auto; discriminate.
  - destruct (Z.eqb_spec rc ETIMEDOUT); [discriminate |].
    destruct (timed_out_cases s rc now) as [-> | (? & _)]; [| contradiction].
    intros [= <- <- <- <-]. left. repeat split; auto; discriminate.
  - destruct (Z.eqb_spec rc ETIMEDOUT); [| discriminate].
    destruct (timed_out_cases s rc now) as [-> | (_ & E1 & E2 & ->)].
    + destruct (head_spec s) as (_ & T & _). intros H. left.
      assert (E : Some (s, head s, [], 0) = Some (s', k', es, n)) by (revert T H; destruct (head s); intros T H; try exact H; discriminate T).
      injection E as <- <- <- <-. do 3 (split; [reflexivity |]). split; [apply R; discriminate | auto].
    + intros [= <- <- <- <-]. right. right. left. exists now. repeat split; auto.
  - destruct sig; [discriminate |]. intros [= <- <- <- <-]. right. left. exists d. auto.
  - intros [= <- <- <- <-]. right. right. right. exists f, v. auto.
  - intros [= <- <- <- <-]. left. repeat split; eauto; discriminate.
  - intros [= <- <- <- <-]. left. repeat split; auto; discriminate.
Qed.

Lemma thread_ok w i c a w' : ok w -> g_slot w !! i = Some c -> thread_step w i c a = Some w' -> ok w'.
Proof.
  intros O Hi. unfold thread_step. destruct (match a with Return => _ | _ => _ end); [discriminate |].
  destruct (thread_act (gen c) (sl c) (wk c) a) as [[[[s k] es] n] |] eqn:Ea; [| discriminate].
  cbn [mbind option_bind]. intros [= <-]. pose proof (ok_cells _ O _ _ Hi) as I.
  assert (G : forall c', gen c' = gen c -> runs_thread (wk c) -> Forall (about (gen c)) es -> cell_inv (es ++ log w) c' ->
    log_ok (es ++ log w) -> ok (count_fired (notes (put w i c') es) n)).
  { intros c' Hg R Ha Hc Hl. exact (ok_upd w i c c' es (ktimers w) (g_fired w + n) O Hi (not_free _ _ I R) Hg Ha Hc Hl). }
  destruct (thread_act_cases _ _ _ _ _ _ _ _ Ea) as
    [(-> & -> & -> & R & T & _) | [(d & Hk & -> & -> & -> & _) | [(now & Hk & Hs & Hb & Es & Ek & -> & _) | (f & v & Hk & -> & -> & -> & _)]]].
  - apply G; auto; [| exact (ok_log _ O)]. apply cell_head; [exact I | exact R |].
    destruct T as [T | [v T]]; [auto |]. right.
    destruct (thread_served _ _ I R) as ((_ & _ & C & _) & _). destruct (C _ _ T). congruence.
  - apply G; try reflexivity; [rewrite Hk; split; discriminate | apply about_nil | exact (cell_expired _ _ _ I Hk) | exact (ok_log _ O)].
  - destruct (cell_due _ _ _ _ _ I Hk Hs Hb (ok_log _ O) Es Ek) as [X Y].
    apply G; try reflexivity; try assumption; [rewrite Hk; split; discriminate | apply about_one; reflexivity].
  - destruct (cell_call _ _ _ _ I Hk (ok_log _ O)) as [X Y].
    apply G; try reflexivity; try assumption; [rewrite Hk; split; discriminate | apply about_one; reflexivity].
Qed.

(** No callback's deletion of its own timer gets past its join. *)
Definition no_self_join (a : act) : Prop := match a with JoinSelf _ => False | _ => True end.

Lemma step_ok w a w' : ok w -> no_self_join a -> step base size switch w a = Some w' -> ok w'.
Proof.
  intros O Hj. destruct a; cbn [step]; cbn [no_self_join] in Hj; try contradiction.
  - destruct (match ev with Some e => _ | None => _ end); [discriminate |]. destruct (_ && _); [discriminate |].
    intros [= <-]. unfold create_pass. set (e := EK _).
    assert (O1 : ok (note w e)) by (apply (ok_note w e (ktimers w)); [exact O | reflexivity | repeat split]).
    destruct (rc =? 0); [apply (ok_kt (note w e) _ O1) | exact O1].
  - destruct (_ =? _); [| discriminate]. intros [= <-]. apply claim_ok, O.
  - destruct (g_slot w !! i) as [c |] eqn:Hi; [| discriminate]. destruct (ph c) eqn:Hp; try discriminate.
    destruct (_ && _); [discriminate |]. intros [= <-]. apply make_ok; assumption.
  - destruct (g_slot w !! i) as [c |] eqn:Hi; [| discriminate]. destruct (ph c) eqn:Hp; try discriminate.
    intros [= <-]. apply start_ok; assumption.
  - apply settime_ok, O.
  - intros [= <-]. apply ok_note; auto; repeat split.
  - intros [= <-]. apply ok_note; auto; repeat split.
  - destruct (negb _ || _); [discriminate |]. apply stop_ok, O.
  - destruct (g_slot w !! i) as [[s k p g] |] eqn:Hi; [| discriminate]. destruct k; try discriminate.
    destruct p; try discriminate. intros [= <-].
    eapply ok_cell; [exact O | exact Hi | discriminate | reflexivity |].
    pose proof (ok_cells _ O _ _ Hi) as (U & S & A & N & V). unfold cell_inv; cbn. auto.
  - destruct (g_slot w !! i) as [c |] eqn:Hi; [| discriminate]. destruct (ph c) eqn:Hp; try discriminate.
    intros [= <-]. eapply slot_release_ok; eassumption.
  - destruct (g_slot w !! i) as [c |] eqn:Hi; [| discriminate]. apply thread_ok; assumption.
  - unfold stray_step. rewrite (ok_strays _ O). discriminate.
Qed.

Lemma init_ok : ok init.
Proof.
  split; cbn [init g_slot next_gen log]; [reflexivity | | | | constructor | exact Logic.I | reflexivity].
  - intros i c Hi. apply lookup_replicate in Hi as [-> _]. split; reflexivity.
  - intros i j a b Hi _ Ha. apply lookup_replicate in Hi as [-> _]. contradiction.
  - intros i c Hi Hc. apply lookup_replicate in Hi as [-> _]. contradiction.
Qed.

Lemma run_ok acts : forall w w', ok w -> Forall no_self_join acts -> run base size switch w acts = Some w' -> ok w'.
Proof.
  induction acts as [| a acts IH]; intros w w' O Hj; cbn [run]; [intros [= <-]; exact O |].
  apply List.Forall_cons_iff in Hj as [Hj Hjs].
  destruct (step base size switch w a) as [w1 |] eqn:E; [| discriminate]. cbn. apply IH; [exact (step_ok _ _ _ O Hj E) | exact Hjs].
Qed.

End Table.
