(* ===== verification/SigevProps.v ===== *)
(** The properties of the SIGEV_THREAD timers, over every interleaving: what is
    notified and when, the table and its counts, and progress without a
    spurious wakeup. *)
From stdpp Require Import prelude list numbers.
From S2P Require Import Prelude UmtxTime Sigev SigevRun.
Open Scope Z_scope.

(** ** Kernel timers *)

Record kern (w : world) : Prop := {
  kn_nodup : NoDup (ktimers w);
  kn_live : forall i c, g_slot w !! i = Some c -> holds (ph c) = true -> under (sl c) ∈ ktimers w;
  kn_apart : forall i j a b, g_slot w !! i = Some a -> g_slot w !! j = Some b ->
    holds (ph a) = true -> holds (ph b) = true -> under (sl a) = under (sl b) -> i = j }.

(** A slot changes and keeps its kernel timer, or gives it up. *)
Lemma kern_put w i c c' fired ng l st : kern w -> g_slot w !! i = Some c ->
  (holds (ph c') = true -> holds (ph c) = true /\ under (sl c') = under (sl c)) ->
  kern (mk_world (<[i := c']> (g_slot w)) fired (ktimers w) ng l st).
Proof.
  intros [A B C] Hi H.
  assert (L : forall j d, <[i := c']> (g_slot w) !! j = Some d -> holds (ph d) = true ->
    exists d0, g_slot w !! j = Some d0 /\ holds (ph d0) = true /\ under (sl d0) = under (sl d)).
  { intros j d Hj Hd. destruct (decide (i = j)) as [<- | Hij].
    - rewrite list_lookup_insert_eq in Hj by (eapply lookup_lt_Some; eassumption). injection Hj as <-.
      destruct (H Hd). eauto.
    - rewrite list_lookup_insert_ne in Hj by exact Hij. eauto. }
  split; cbn [g_slot ktimers]; [exact A | |].
  - intros j d Hj Hd. destruct (L j d Hj Hd) as (d0 & X & Y & <-). exact (B _ _ X Y).
  - intros j k a b Hj Hk Ha Hb Hab. destruct (L j a Hj Ha) as (a0 & X & Y & Z).
    destruct (L k b Hk Hb) as (b0 & X' & Y' & Z'). eapply C; eauto; congruence.
Qed.

Lemma kern_same w fired ng l st : kern w -> kern (mk_world (g_slot w) fired (ktimers w) ng l st).
Proof. intros [A B C]. split; assumption. Qed.

Lemma elem_drop id x l : x ∈ drop_timer id l <-> x <> id /\ x ∈ l.
Proof. unfold drop_timer. rewrite list_elem_of_filter. tauto. Qed.

Lemma kern_drop w id fired ng l st : kern w ->
  (forall i c, g_slot w !! i = Some c -> holds (ph c) = true -> under (sl c) <> id) ->
  kern (mk_world (g_slot w) fired (drop_timer id (ktimers w)) ng l st).
Proof.
  intros [A B C] H. split; cbn [g_slot ktimers]; [apply list.NoDup_filter, A | | exact C].
  intros i c Hi Hc. apply elem_drop. split; [exact (H _ _ Hi Hc) | exact (B _ _ Hi Hc)].
Qed.

(** The slot [i] gives its kernel timer up, and it is deleted. *)
Lemma kern_give w i c c' fired ng l st : kern w -> g_slot w !! i = Some c -> holds (ph c) = true -> holds (ph c') = false ->
  kern (mk_world (<[i := c']> (g_slot w)) fired (drop_timer (under (sl c)) (ktimers w)) ng l st).
Proof.
  intros K Hi Hc Hc'.
  pose proof (kern_put w i c c' fired ng l st K Hi) as P.
  apply (kern_drop (mk_world (<[i := c']> (g_slot w)) fired (ktimers w) ng l st)); [apply P; congruence |].
  intros j d Hj Hd E. apply list_lookup_insert_Some in Hj as [(_ & <- & _) | [Hij Hj]]; [congruence |].
  apply Hij. exact (kn_apart _ K _ _ _ _ Hi Hj Hc Hd (eq_sym E)).
Qed.

(** No act of a thread touches the kernel timer of its slot. *)
Lemma thread_act_under g s k a s' k' es n : thread_act g s k a = Some (s', k', es, n) -> under s' = under s.
Proof.
  intros H. destruct (thread_act_cases _ _ _ _ _ _ _ _ H) as
    [(-> & _) | [(d & _ & -> & _) | [(now & _ & _ & _ & -> & _) | (f & v & _ & -> & _)]]]; try reflexivity.
  destruct (isZero _); reflexivity.
Qed.

Section Table.
Context (base size : Z) (switch : option (list Z)).

Lemma new_id_spec w id : new_id base size w id = true -> id ∉ ktimers w.
Proof. unfold new_id. intros H. apply andb_prop in H as [H _]. apply bool_decide_eq_true in H. exact H. Qed.

Lemma kern_step w a w' : kern w -> step base size switch w a = Some w' -> kern w'.
Proof.
  intros K. destruct a; cbn [step].
  - destruct (match ev with Some e => _ | None => _ end); [discriminate |].
    destruct ((rc =? 0) && negb (new_id base size w id)) eqn:En; [discriminate |].
    intros [= <-]. unfold create_pass. destruct (rc =? 0); [| apply kern_same, K].
    cbn [andb] in En. apply negb_false_iff, new_id_spec in En. destruct K as [A B C].
    split; cbn [g_slot ktimers set_ktimers note]; [constructor; assumption | | exact C].
    intros i c Hi Hc. right. exact (B _ _ Hi Hc).
  - destruct (_ =? _); [| discriminate]. intros [= <-]. unfold claim.
    destruct (negb (enabled switch)); [apply kern_same, K |]. destruct (find_free (g_slot w)) as [i |]; [| apply kern_same, K].
    destruct (g_slot w !! i) as [c |] eqn:Hi; [| exact K]. apply (kern_put w i c); [exact K | exact Hi | discriminate].
  - destruct (g_slot w !! i) as [c |] eqn:Hi; [| discriminate]. destruct (ph c) eqn:Hp; try discriminate.
    destruct ((rc =? 0) && negb (new_id base size w id)) eqn:En; [discriminate |].
    intros [= <-]. unfold make. destruct (rc =? 0); cbn [negb].
    2: { apply (kern_put w i c); [exact K | exact Hi | discriminate]. }
    cbn [andb] in En. apply negb_false_iff, new_id_spec in En. destruct K as [A B C].
    assert (L : forall j d, <[i := mk_cell (mk_slot (used (sl c)) id (sigev_notify_function ev) (sigev_value ev)
        false false zero_ts zero_ts) (wk c) Made (gen c)]> (g_slot w) !! j = Some d ->
      (j = i /\ under (sl d) = id) \/ (j <> i /\ g_slot w !! j = Some d)).
    { intros j d Hj. destruct (decide (i = j)) as [<- | Hij].
      - rewrite list_lookup_insert_eq in Hj by (eapply lookup_lt_Some; eassumption). injection Hj as <-. auto.
      - rewrite list_lookup_insert_ne in Hj by exact Hij. auto. }
    split; cbn [g_slot ktimers set_ktimers note put]; [constructor; assumption | |].
    + intros j d Hj Hd. destruct (L j d Hj) as [[_ ->] | [_ Hj']]; [left | right; exact (B _ _ Hj' Hd)].
    + intros j k a b Hj Hk Ha Hb Hab.
      destruct (L j a Hj) as [[-> Ea] | [Nj Hj']], (L k b Hk) as [[-> Eb] | [Nk Hk']]; [reflexivity | | | eapply C; eauto];
        exfalso; apply En; [rewrite <- Ea, Hab; exact (B _ _ Hk' Hb) | rewrite <- Eb, <- Hab; exact (B _ _ Hj' Ha)].
  - destruct (g_slot w !! i) as [c |] eqn:Hi; [| discriminate]. destruct (ph c) eqn:Hp; try discriminate.
    intros [= <-]. unfold start. destruct (negb (rc =? 0)).
    + apply (kern_give w i c); [exact K | exact Hi | rewrite Hp; reflexivity | reflexivity].
    + apply (kern_put w i c); [exact K | exact Hi | rewrite Hp; auto].
  - unfold timer_settime. destruct (slotOf base size w t) as [i |]; [| intros [= <-]; apply kern_same, K].
    destruct (g_slot w !! i) as [[s k p g] |] eqn:Hi; [| discriminate]. destruct p; try discriminate.
    unfold settime. intros [= <-]. apply (kern_put w i _ _ _ _ _ _ K Hi). cbn. intros _. split; [reflexivity |].
    destruct it as [it |]; [destruct (isZero _) |]; reflexivity.
  - intros [= <-]. apply kern_same, K.
  - intros [= <-]. apply kern_same, K.
  - destruct (negb _ || match slotOf base size w t with None => is_under w (idOf t) | Some _ => false end) eqn:Eg; [discriminate |].
    apply orb_false_iff in Eg as [_ Eu]. unfold delete_stop. destruct (slotOf base size w t) as [i |].
    + destruct (g_slot w !! i) as [[s k p g] |] eqn:Hi; [| discriminate]. destruct p; try discriminate. intros [= <-].
      apply (kern_put w i _ _ _ _ _ _ K Hi). auto.
    + intros [= <-]. apply (kern_drop w); [exact K |].
      intros i c Hi Hc E. assert (is_under w (idOf t) = true); [| congruence].
      unfold is_under. apply existsb_exists. exists c. split; [apply list_elem_of_In; eapply list_elem_of_lookup_2; exact Hi |].
      rewrite Hc, E, Z.eqb_refl. reflexivity.
  - destruct (g_slot w !! i) as [[s k p g] |] eqn:Hi; [| discriminate]. destruct k; try discriminate.
    destruct p; try discriminate. intros [= <-]. apply (kern_put w i _ _ _ _ _ _ K Hi). auto.
  - destruct (g_slot w !! i) as [[s k p g] |] eqn:Hi; [| discriminate]. destruct k; try discriminate.
    destruct p as [| | | | [j |] |]; try discriminate. destruct (_ =? _)%nat; [| discriminate].
    intros [= <-]. apply (kern_put w i _ _ _ _ _ _ K Hi). auto.
  - destruct (g_slot w !! i) as [c |] eqn:Hi; [| discriminate]. destruct (ph c) eqn:Hp; try discriminate.
    intros [= <-]. unfold delete_release. apply (kern_give w i c); [exact K | exact Hi | rewrite Hp; reflexivity | reflexivity].
  - destruct (g_slot w !! i) as [c |] eqn:Hi; [| discriminate]. unfold thread_step.
    destruct (match a with Return => _ | _ => _ end); [discriminate |].
    destruct (thread_act (gen c) (sl c) (wk c) a) as [[[[s k] es] n] |] eqn:Ea; [| discriminate].
    intros [= <-]. apply (kern_put w i c _ _ _ _ _ K Hi). cbn. intros H. split; [exact H | exact (thread_act_under _ _ _ _ _ _ _ _ Ea)].
  - unfold stray_step. destruct (strays w !! n) as [[i k] |]; [| discriminate]. cbn [mbind option_bind].
    destruct (g_slot w !! i) as [c |] eqn:Hi; [| discriminate]. cbn [mbind option_bind].
    destruct (thread_act (gen c) (sl c) k a) as [[[[s k'] es] m] |] eqn:Ea; [| discriminate].
    intros [= <-]. apply (kern_put w i c _ _ _ _ _ K Hi). cbn. intros H. split; [exact H | exact (thread_act_under _ _ _ _ _ _ _ _ Ea)].
Qed.

Lemma kern_init : kern init.
Proof.
  split; cbn [init g_slot ktimers]; [constructor | |].
  - intros i c Hi. apply lookup_replicate in Hi as [-> _]. discriminate.
  - intros i j a b Hi _ Ha. apply lookup_replicate in Hi as [-> _]. discriminate.
Qed.

Lemma kern_run acts : forall w w', kern w -> run base size switch w acts = Some w' -> kern w'.
Proof.
  induction acts as [| a acts IH]; intros w w' K; cbn [run]; [intros [= <-]; exact K |].
  destruct (step base size switch w a) as [w1 |] eqn:E; [| discriminate]. cbn. apply IH. exact (kern_step _ _ _ K E).
Qed.

End Table.

(** ** Deadlines in nanoseconds *)

Definition normal (t : timespec) : Prop := 0 <= tv_nsec t < giga.

(** Within the range of [time_t] the sum of two times is their sum; outside it
    [addTo] wraps (see [addTo_wraps] below). *)
Lemma addTo_ns t d : normal t -> normal d -> 0 <= tv_sec t -> 0 <= tv_sec d -> ns t + ns d < 2 ^ 63 * giga ->
  normal (addTo t d) /\ 0 <= tv_sec (addTo t d) /\ ns (addTo t d) = ns t + ns d.
Proof.
  unfold normal, ns, addTo, giga. intros Ht Hd Pt Pd Hb.
  rewrite (s64_small (tv_sec t + tv_sec d)), (s64_small (tv_nsec t + tv_nsec d)) by lia.
  destruct (1000000000 <=? tv_nsec t + tv_nsec d) eqn:E; cbn [tv_sec tv_nsec];
    [apply Z.leb_le in E; rewrite s64_small by lia | apply Z.leb_gt in E]; lia.
Qed.

Lemma nth_deadline_ns d iv k : normal d -> normal iv -> 0 <= tv_sec d -> 0 <= tv_sec iv ->
  ns d + Z.of_nat k * ns iv < 2 ^ 63 * giga ->
  normal (nth_deadline d iv k) /\ 0 <= tv_sec (nth_deadline d iv k) /\ ns (nth_deadline d iv k) = ns d + Z.of_nat k * ns iv.
Proof.
  intros Hd Hi Pd Pi. assert (Ni : 0 <= ns iv) by (unfold normal, ns, giga in *; lia).
  induction k as [| k IH]; [intros _; split; [exact Hd | cbn; lia] |].
  intros Hb. destruct IH as (IH1 & IH0 & IH2); [lia |].
  destruct (addTo_ns _ _ IH1 Hi IH0 Pi) as (X & Y & Z); [lia |]. split; [exact X |]. split; [exact Y |].
  change (nth_deadline d iv (S k)) with (addTo (nth_deadline d iv k) iv). lia.
Qed.

Lemma before_ns a b : normal a -> normal b -> before a b = (ns a <? ns b).
Proof.
  unfold normal, before, ns, giga. intros Ha Hb. apply eq_true_iff_eq.
  rewrite orb_true_iff, andb_true_iff, !Z.ltb_lt, Z.eqb_eq. nia.
Qed.

Lemma log_ok_suffix l : forall h1 h2, l = h1 ++ h2 -> log_ok l -> log_ok h2.
Proof.
  induction l as [| e l IH]; intros [| x h1] h2 E L; cbn in E; try discriminate; subst; try exact L.
  injection E as -> ->. exact (IH h1 h2 eq_refl (proj1 L)).
Qed.

(** ** Calls and counts *)

Definition any_call (e : event) : bool := match e with ECall _ _ _ => true | _ => false end.
Definition busy (c : cell) : bool := match wk c with WBusy => true | _ => false end.
Definition held (c : cell) : bool := match ph c with Free => false | _ => true end.
Definition number (f : cell -> bool) (l : list cell) : nat := length (filter (fun c => f c = true) l).
Abbreviation ones b := (if b : bool then 1%nat else 0%nat).

Lemma number_cons f c l : number f (c :: l) = (ones (f c) + number f l)%nat.
Proof. unfold number. rewrite filter_cons. case_decide as E; [rewrite E; reflexivity | destruct (f c); [congruence | reflexivity]]. Qed.

Lemma number_insert f l i c c' : l !! i = Some c ->
  (number f (<[i := c']> l) + ones (f c) = number f l + ones (f c'))%nat.
Proof.
  revert i. induction l as [| x l IH]; intros [| i] H; try discriminate; cbn in H.
  - injection H as ->. change (<[0%nat := c']> (c :: l)) with (c' :: l). rewrite !number_cons. lia.
  - change (<[S i := c']> (x :: l)) with (x :: <[i := c']> l). rewrite !number_cons. specialize (IH _ H). lia.
Qed.

Lemma count_app f a b : count f (a ++ b) = (count f a + count f b)%nat.
Proof. unfold count. rewrite list.filter_app, length_app. reflexivity. Qed.

(** Every call of a callback has returned and was counted, or runs. *)
Definition tally (w : world) : Prop :=
  g_fired w + Z.of_nat (number busy (g_slot w)) = Z.of_nat (count any_call (log w)).

(** A callback inside a [timer_delete] still runs. *)
Definition callers (w : world) : Prop :=
  forall i, deleting w i = true -> exists c, g_slot w !! i = Some c /\ wk c = WBusy.

Lemma deleting_iff w i : deleting w i = true <-> exists j c, g_slot w !! j = Some c /\ deletes i (ph c) = true.
Proof.
  unfold deleting. rewrite existsb_exists. split.
  - intros (c & Hc & E). apply list_elem_of_In, list_elem_of_lookup_1 in Hc as [j Hj]. eauto.
  - intros (j & c & Hj & E). exists c. split; [apply list_elem_of_In; eapply list_elem_of_lookup_2, Hj | exact E].
Qed.

Lemma busy_signal k s s' p p' g g' : busy (mk_cell s' (pthread_cond_signal k) p' g') = busy (mk_cell s k p g).
Proof. destruct k; reflexivity. Qed.

(** What an act changes of one cell, the log and [g_fired]. *)
Record changes (w : world) (i : nat) (c c' : cell) (es : list event) (n : Z) : Prop := {
  ch_calls : n + Z.of_nat (ones (busy c')) = Z.of_nat (ones (busy c)) + Z.of_nat (count any_call es);
  ch_busy : busy c = true -> busy c' = true \/ (deleting w i = false /\ ph c' = ph c);
  ch_stop : forall j, ph c = Stopping (Some j) -> ph c' = ph c \/ wk c = WDone;
  ch_who : forall j, deletes j (ph c') = true -> deletes j (ph c) = true \/ (ph c <> ph c' /\ may_call w (Some j) = true) }.

Definition effect (w w' : world) : Prop :=
  exists es n, log w' = es ++ log w /\ g_fired w' = g_fired w + n /\
    ((g_slot w' = g_slot w /\ n = Z.of_nat (count any_call es)) \/
     exists i c c', g_slot w !! i = Some c /\ g_slot w' = <[i := c']> (g_slot w) /\ changes w i c c' es n).

Lemma effect_log w e kt : any_call e = false ->
  effect w (mk_world (g_slot w) (g_fired w) kt (next_gen w) (e :: log w) (strays w)).
Proof.
  intros E. exists [e], 0. split; [reflexivity |]. split; [cbn; lia |]. left. split; [reflexivity |].
  unfold count. rewrite filter_cons, E. reflexivity.
Qed.

(** A cell changes while no callback of it runs, and no callback is called. *)
Lemma effect_cell w i c c' fired kt ng es st : g_slot w !! i = Some c -> busy c' = busy c ->
  fired = g_fired w -> count any_call es = 0%nat ->
  (forall j, ph c = Stopping (Some j) -> ph c' = ph c \/ wk c = WDone) ->
  (forall j, deletes j (ph c') = true -> deletes j (ph c) = true \/ (ph c <> ph c' /\ may_call w (Some j) = true)) ->
  effect w (mk_world (<[i := c']> (g_slot w)) fired kt ng (es ++ log w) st).
Proof.
  intros Hi Hb -> He Hs Hd. exists es, 0. split; [reflexivity |]. split; [cbn; lia |]. right. exists i, c, c'.
  split; [exact Hi |]. split; [reflexivity |]. split; [rewrite Hb, He; lia | | exact Hs | exact Hd].
  intros E. left. congruence.
Qed.

Lemma thread_effect w i c a w' : g_slot w !! i = Some c -> thread_step w i c a = Some w' -> effect w w'.
Proof.
  intros Hi. unfold thread_step. destruct (match a with Return => deleting w i | _ => false end) eqn:Ed; [discriminate |].
  destruct (thread_act (gen c) (sl c) (wk c) a) as [[[[s k] es] n] |] eqn:Ea; [| discriminate]. intros [= <-].
  exists es, n. split; [reflexivity |]. split; [reflexivity |]. right. exists i, c, (mk_cell s k (ph c) (gen c)).
  split; [exact Hi |]. split; [reflexivity |]. split; cbn [ph]; auto.
  - unfold busy; cbn [wk]. destruct (thread_act_cases _ _ _ _ _ _ _ _ Ea) as
      [(_ & -> & -> & _ & T & ->) | [(d & -> & _ & -> & -> & ->) | [(now & -> & _ & _ & _ & -> & -> & ->) | (f & v & -> & _ & -> & -> & ->)]]];
      try reflexivity.
    unfold head. destruct (wk c), (stop (sl c)), (armed (sl c)); reflexivity.
  - intros Hb. right. split; [| reflexivity]. unfold busy in Hb. destruct (wk c); try discriminate.
    destruct a; try discriminate. exact Ed.
Qed.

Section Table.
Context (base size : Z) (switch : option (list Z)).

Lemma step_effect w a w' : ok w -> no_self_join a -> step base size switch w a = Some w' -> effect w w'.
Proof.
  intros O Hj. destruct a; cbn [step]; cbn [no_self_join] in Hj; try contradiction.
  - destruct (match ev with Some e => _ | None => _ end); [discriminate |]. destruct (_ && _); [discriminate |].
    intros [= <-]. unfold create_pass. destruct (rc =? 0); apply (effect_log w); reflexivity.
  - destruct (_ =? _); [| discriminate]. intros [= <-]. unfold claim.
    destruct (negb (enabled switch)); [apply (effect_log w); reflexivity |].
    destruct (find_free (g_slot w)) as [i |] eqn:Ef; [| apply (effect_log w); reflexivity].
    destruct (find_free_spec _ _ Ef) as (c & Hi & Hu). rewrite Hi.
    pose proof (unused_free _ _ (ok_cells _ O _ _ Hi) Hu) as Hp.
    apply (effect_cell w i c _ _ _ _ []); auto; try discriminate. congruence.
  - destruct (g_slot w !! i) as [c |] eqn:Hi; [| discriminate]. destruct (ph c) eqn:Hp; try discriminate.
    destruct (_ && _); [discriminate |]. intros [= <-]. unfold make.
    destruct (negb (rc =? 0)); apply (effect_cell w i c _ _ _ _ [_]); auto; try discriminate; congruence.
  - destruct (g_slot w !! i) as [c |] eqn:Hi; [| discriminate]. destruct (ph c) eqn:Hp; try discriminate.
    intros [= <-]. pose proof (ok_cells _ O _ _ Hi) as I. unfold cell_inv in I. rewrite Hp in I.
    destruct I as (_ & K & A & S & _). unfold start.
    destruct (negb (rc =? 0)); [apply (effect_cell w i c _ _ _ _ [_; _]) | apply (effect_cell w i c _ _ _ _ [_])];
      auto; try discriminate; try congruence.
    unfold busy, head; cbn. rewrite K, A, S. reflexivity.
  - unfold timer_settime. destruct (slotOf base size w t) as [i |]; [| intros [= <-]; apply (effect_log w); reflexivity].
    destruct (g_slot w !! i) as [[s k p g] |] eqn:Hi; [| discriminate]. destruct p; try discriminate.
    unfold settime. intros [= <-]. apply (effect_cell w i _ _ _ _ _ [_; _] _ Hi); auto; try discriminate.
    + apply busy_signal.
    + unfold set_event. destruct it as [it |]; [destruct (isZero _) |]; reflexivity.
  - intros [= <-]. apply (effect_log w); reflexivity.
  - intros [= <-]. apply (effect_log w); reflexivity.
  - destruct (negb (may_call w who) || _) eqn:Eg; [discriminate |].
    apply orb_false_iff in Eg as [Em _]. apply negb_false_iff in Em. unfold delete_stop.
    destruct (slotOf base size w t) as [i |]; [| intros [= <-]; apply (effect_log w); reflexivity].
    destruct (g_slot w !! i) as [[s k p g] |] eqn:Hi; [| discriminate]. destruct p; try discriminate.
    intros [= <-]. apply (effect_cell w i _ _ _ _ _ [] _ Hi); auto; try discriminate; [apply busy_signal |].
    cbn. intros j Hd. right. split; [discriminate |]. destruct who as [k' |]; [| discriminate].
    apply Nat.eqb_eq in Hd. subst. exact Em.
  - destruct (g_slot w !! i) as [[s k p g] |] eqn:Hi; [| discriminate]. destruct k; try discriminate.
    destruct p as [| | | | who |]; try discriminate. intros [= <-].
    apply (effect_cell w i _ _ _ _ _ [] _ Hi); auto.
  - destruct (g_slot w !! i) as [c |] eqn:Hi; [| discriminate]. destruct (ph c) eqn:Hp; try discriminate.
    intros [= <-]. pose proof (ok_cells _ O _ _ Hi) as I. unfold cell_inv in I. rewrite Hp in I.
    destruct I as (_ & _ & K & _). apply (effect_cell w i c _ _ _ _ [_; _]); auto; try discriminate.
    unfold busy. rewrite K. reflexivity.
  - destruct (g_slot w !! i) as [c |] eqn:Hi; [| discriminate]. apply thread_effect, Hi.
  - unfold stray_step. rewrite (ok_strays _ O). discriminate.
Qed.

Lemma effect_tally w w' : effect w w' -> tally w -> tally w'.
Proof.
  intros (es & n & L & F & [[G N] | (i & c & c' & Hi & G & [B _ _ _])]) T; unfold tally in *; rewrite L, F, G, count_app; [lia |].
  pose proof (number_insert busy _ _ _ c' Hi). lia.
Qed.

Lemma effect_callers w w' : effect w w' -> callers w -> callers w'.
Proof.
  intros (es & n & _ & _ & [[G _] | (i & c & c' & Hi & G & [_ B _ W])]) T j Hd.
  - assert (Hd' : deleting w j = true) by (unfold deleting in *; rewrite <- G; exact Hd).
    destruct (T j Hd') as (d & Hj & Hk). exists d. rewrite G. auto.
  - assert (L : forall k d, g_slot w' !! k = Some d -> (k = i /\ d = c') \/ (k <> i /\ g_slot w !! k = Some d)).
    { intros k d Hk. rewrite G in Hk. apply list_lookup_insert_Some in Hk as [(-> & -> & _) | [Hn Hk]]; auto. }
    assert (K : forall d, g_slot w !! j = Some d -> wk d = WBusy -> (j = i -> busy c' = true) ->
      exists d', g_slot w' !! j = Some d' /\ wk d' = WBusy).
    { intros d Hj Hk Hb. destruct (decide (j = i)) as [-> | Hn].
      - exists c'. rewrite G. split; [apply list_lookup_insert_eq; eapply lookup_lt_Some, Hi |].
        specialize (Hb eq_refl). unfold busy in Hb. destruct (wk c'); try discriminate. reflexivity.
      - exists d. rewrite G, list_lookup_insert_ne by congruence. auto. }
    apply deleting_iff in Hd as (k & d & Hk & Hd).
    assert (X : deleting w j = true \/ (k = i /\ ph c <> ph c' /\ may_call w (Some j) = true)).
    { destruct (L _ _ Hk) as [[-> ->] | [_ Hk']]; [| left; apply deleting_iff; eauto].
      destruct (W j Hd) as [Hd' | Hd']; [left; apply deleting_iff; eauto | auto]. }
    destruct X as [X | (-> & Hp & Hm)].
    + destruct (T j X) as (e & Hj & Hw). apply (K e Hj Hw). intros ->. assert (e = c) as -> by congruence.
      destruct B as [B | [B _]]; [unfold busy; rewrite Hw; reflexivity | exact B | congruence].
    + cbn [may_call] in Hm. destruct (g_slot w !! j) as [e |] eqn:Hj; [| discriminate].
      destruct (wk e) eqn:Hw; try discriminate. apply (K e eq_refl Hw). intros ->. assert (e = c) as -> by congruence.
      destruct B as [B | [_ B]]; [unfold busy; rewrite Hw; reflexivity | exact B | congruence].
Qed.

Record counted (w : world) : Prop := { ct_ok : ok w; ct_tally : tally w; ct_callers : callers w }.

Lemma counted_init : counted init.
Proof.
  split; [exact init_ok | reflexivity |]. intros i Hd. apply deleting_iff in Hd as (j & c & Hj & Hd).
  apply lookup_replicate in Hj as [-> _]. discriminate.
Qed.

Lemma counted_run acts : forall w w', counted w -> Forall no_self_join acts -> run base size switch w acts = Some w' -> counted w'.
Proof.
  induction acts as [| a acts IH]; intros w w' O Hj; cbn [run]; [intros [= <-]; exact O |].
  apply List.Forall_cons_iff in Hj as [Hj Hjs].
  destruct (step base size switch w a) as [w1 |] eqn:E; [| discriminate]. cbn. apply IH; [| exact Hjs].
  destruct O as [O T C]. pose proof (step_effect _ _ _ O Hj E) as X.
  split; [exact (step_ok _ _ _ _ _ _ O Hj E) | exact (effect_tally _ _ X T) | exact (effect_callers _ _ X C)].
Qed.

(** A callback that deletes its own timer stays in the join. *)
Lemma self_delete_stays w i acts : forall w', counted w ->
  (exists c, g_slot w !! i = Some c /\ ph c = Stopping (Some i)) ->
  Forall no_self_join acts -> run base size switch w acts = Some w' ->
  exists c, g_slot w' !! i = Some c /\ ph c = Stopping (Some i).
Proof.
  revert w. induction acts as [| a acts IH]; intros w w' O H Hj; cbn [run]; [intros [= <-]; exact H |].
  pose proof Hj as Hjs. apply List.Forall_cons_iff in Hj as [Hj Hjs'].
  destruct (step base size switch w a) as [w1 |] eqn:E; [| discriminate]. cbn. intros R.
  apply (IH w1 w'); auto.
  - apply (counted_run [a] w w1 O); [auto |]. cbn. rewrite E. reflexivity.
  - destruct H as (c & Hi & Hp). destruct (step_effect _ _ _ (ct_ok _ O) Hj E) as (es & n & _ & _ & [[G _] | (j & d & d' & Hd & G & [_ _ S _])]).
    { exists c. rewrite G. auto. }
    destruct (decide (j = i)) as [-> | Hn]; [| exists c; rewrite G, list_lookup_insert_ne by exact Hn; auto].
    assert (d = c) as -> by congruence. exists d'. rewrite G. split; [apply list_lookup_insert_eq; eapply lookup_lt_Some, Hi |].
    destruct (S i Hp) as [-> | Hk]; [exact Hp |].
    destruct (ct_callers _ O i) as (e & Hi' & Hw); [| congruence].
    apply deleting_iff. exists i, c. rewrite Hp. split; [exact Hi | apply Nat.eqb_refl].
Qed.

Lemma held_used l : (forall i c, l !! i = Some c -> (used (sl c) = true <-> ph c <> Free)) ->
  length (filter (fun c => used (sl c) = true) l) = number held l.
Proof.
  induction l as [| c l IH]; intros H; [reflexivity |]. rewrite number_cons, filter_cons.
  rewrite <- IH by (intros i d Hi; exact (H (S i) d Hi)). pose proof (H 0%nat c eq_refl) as Hc. unfold held.
  case_decide as E; destruct (ph c); cbn [length]; try reflexivity; exfalso; tauto || (apply E, Hc; discriminate).
Qed.

End Table.

(** ** Progress *)

Lemma before_refl t : before t t = false.
Proof. unfold before. rewrite !Z.ltb_irrefl, andb_false_r. reflexivity. Qed.

Lemma before_trans a b c : before a b = false -> before b c = false -> before a c = false.
Proof.
  unfold before. rewrite !orb_false_iff, !andb_false_iff, !Z.ltb_ge, !Z.eqb_neq. lia.
Qed.

(** What a thread does next when nobody else does anything and the clock reads
    [now] or later: a wait that was signalled returns, one whose deadline is
    past runs out, and what has run out returns; the callback is called and
    returns.  A thread that is asleep, was not signalled and whose deadline is
    ahead does nothing. *)
Definition due_act (now : timespec) (k : worker) (a : tact) : Prop :=
  match k, a with
  | WWait true, Wake rc t | WTimed _ true, Wake rc t => rc = 0 /\ before t now = false
  | WTimed d false, Expire => before now d = false
  | WExpired, Wake rc t => rc = ETIMEDOUT /\ before t now = false
  | WTaken _ _, Call | WBusy, Return => True
  | _, _ => False
  end.

(** Such an act of the thread of slot [i], or the rest of a [timer_delete]
    that waits for it. *)
Definition prompt (i : nat) (now : timespec) (w : world) (a : act) : Prop :=
  match a with
  | Thread j t => j = i /\ exists c, g_slot w !! i = Some c /\ due_act now (wk c) t
  | Join j | Release j => j = i
  | _ => False
  end.

Section Table.
Context (base size : Z) (switch : option (list Z)).
Abbreviation run := (Sigev.run base size switch).
Abbreviation step := (Sigev.step base size switch).

(** [Q] within [n] prompt acts: it holds, or some such act is possible and
    every possible one leads nearer to it. *)
Fixpoint soon (i : nat) (now : timespec) (n : nat) (Q : world -> Prop) (w : world) : Prop :=
  Q w \/
  match n with
  | O => False
  | S n => (exists a w', prompt i now w a /\ step w a = Some w') /\
           forall a w', prompt i now w a -> step w a = Some w' -> soon i now n Q w'
  end.

Lemma soon_now i now n Q w : Q w -> soon i now n Q w.
Proof. destruct n; left; assumption. Qed.

Lemma soon_more i now n m Q w : (n <= m)%nat -> soon i now n Q w -> soon i now m Q w.
Proof.
  revert m w. induction n as [| n IH]; intros m w L; [intros [H | []]; apply soon_now, H |].
  destruct m as [| m]; [lia |]. intros [H | [E F]]; [left; exact H | right].
  split; [exact E |]. intros a w' Ha Hs. apply IH; [lia | exact (F a w' Ha Hs)].
Qed.

Lemma put_lookup w i c c' : g_slot w !! i = Some c -> g_slot (put w i c') !! i = Some c'.
Proof. intros Hi. apply list_lookup_insert_eq. eapply lookup_lt_Some; exact Hi. Qed.

Lemma deleting_put w i c c' fired kt ng l st j : g_slot w !! i = Some c -> ph c' = ph c ->
  deleting (mk_world (<[i := c']> (g_slot w)) fired kt ng l st) j = deleting w j.
Proof.
  intros Hi Hp. apply eq_true_iff_eq. rewrite !deleting_iff. cbn [g_slot]. split; intros (k & d & Hk & Hd).
  - apply list_lookup_insert_Some in Hk as [(-> & <- & _) | [_ Hk]]; [exists k, c; rewrite <- Hp; auto | eauto].
  - destruct (decide (i = k)) as [<- | Hn].
    + exists i, c'. rewrite list_lookup_insert_eq by (eapply lookup_lt_Some, Hi). rewrite Hp. split; congruence.
    + exists k, d. rewrite list_lookup_insert_ne by exact Hn. auto.
Qed.

(** The thread of slot [i] has an act to do; each leads to [soon] again. *)
Lemma soon_act w i s k p g n Q now a0 : g_slot w !! i = Some (mk_cell s k p g) -> (forall who, p <> Joined who) ->
  deleting w i = false -> due_act now k a0 ->
  (forall a, due_act now k a -> exists s' k' es m, thread_act g s k a = Some (s', k', es, m) /\
     forall w', g_slot w' !! i = Some (mk_cell s' k' p g) -> deleting w' i = false -> log w' = es ++ log w ->
       ktimers w' = ktimers w -> soon i now n Q w') ->
  soon i now (S n) Q w.
Proof.
  intros Hi Hp Hd H0 H. right.
  assert (X : forall a, due_act now k a -> exists w', step w (Thread i a) = Some w' /\ soon i now n Q w').
  { intros a Ha. destruct (H a Ha) as (s' & k' & es & m & E & F). cbn [Sigev.step]. rewrite Hi. unfold thread_step. cbn [gen sl wk].
    rewrite E. replace (match a with Return => deleting w i | _ => false end) with false by (destruct a; congruence).
    cbn [mbind option_bind]. eexists. split; [reflexivity |].
    apply F; [apply (put_lookup w i _ _ Hi) | | reflexivity | reflexivity].
    rewrite <- Hd. apply (deleting_put w i _ _ _ _ _ _ _ _ Hi). reflexivity. }
  split; [destruct (X a0 H0) as (w' & E & _); exists (Thread i a0), w'; split; [split; [reflexivity | eauto] | exact E] |].
  intros a w' Ha E. destruct a; cbn [prompt] in Ha; try contradiction.
  - subst i0. cbn [Sigev.step] in E. rewrite Hi in E. destruct k; try discriminate. destruct a0; contradiction.
  - subst i0. cbn [Sigev.step] in E. rewrite Hi in E. cbn [ph] in E. destruct p; try discriminate. destruct (Hp who eq_refl).
  - destruct Ha as [-> (c & Hc & Ha)]. assert (c = mk_cell s k p g) as -> by congruence.
    destruct (X a Ha) as (w2 & E2 & F). congruence.
Qed.

(** The timer of [s] came due at [now] or later, since [w0], and was called
    back. *)
Definition delivered (s : Slot) (g : nat) (now : timespec) (w0 w : world) : Prop :=
  exists t h, before t now = false /\
    log w = (match fn s with Some f => [ECall g f (val s)] | None => [] end) ++ EDue g t (value s) :: h ++ log w0.

Definition since (w0 w : world) : Prop := exists h, log w = h ++ log w0.

Section Deliver.
Context (i : nat) (s : Slot) (g : nat) (now : timespec) (w0 : world).
Hypotheses (Hs : stop s = false) (Ha : armed s = true) (Hn : before now (value s) = false).
Abbreviation there k w :=
  (g_slot w !! i = Some (mk_cell s k Live g) /\ deleting w i = false /\ since w0 w).
Abbreviation good n w := (soon i now n (delivered s g now w0) w).

Lemma since_app es w w' : since w0 w -> log w' = es ++ log w -> since w0 w'.
Proof. intros [h E] L. exists (es ++ h). rewrite L, E. apply app_assoc. Qed.

Lemma deliver_expired w : there WExpired w -> good 2 w.
Proof.
  intros (Hi & Hd & [h Hh]). apply (soon_act w i s WExpired Live g _ _ now (Wake ETIMEDOUT now) Hi); [intros; discriminate | exact Hd | |].
  { split; [reflexivity | apply before_refl]. }
  intros [rc t | | |] A; try contradiction. destruct A as [-> At]. cbn [thread_act]. rewrite Z.eqb_refl.
  unfold timed_out. rewrite Hs, (before_trans _ _ _ At Hn). cbn [negb Z.eqb].
  do 4 eexists. split; [reflexivity |]. intros w1 H1 D1 L1 _. destruct (fn s) as [f |] eqn:Ef.
  2: { apply soon_now. exists t, h. rewrite Ef, L1, Hh. auto. }
  eapply (soon_act w1 i _ _ _ _ _ _ now Call H1); [intros; discriminate | exact D1 | exact Logic.I |].
  intros [| | |] B; try contradiction. cbn [thread_act]. do 4 eexists. split; [reflexivity |].
  intros w2 _ _ L2 _. apply soon_now. exists t, h. rewrite Ef, L2, L1, Hh. auto.
Qed.

Lemma deliver_timed w : there (WTimed (value s) false) w -> good 3 w.
Proof.
  intros (Hi & Hd & Hw). apply (soon_act w i s _ Live g _ _ now Expire Hi); [intros; discriminate | exact Hd | exact Hn |].
  intros [| | |] A; try contradiction. cbn [thread_act]. do 4 eexists. split; [reflexivity |].
  intros w1 H1 D1 L1 _. apply deliver_expired. split; [exact H1 |]. split; [exact D1 | exact (since_app _ _ _ Hw L1)].
Qed.

Lemma head_timed : head s = WTimed (value s) false.
Proof. unfold head. rewrite Hs, Ha. reflexivity. Qed.

(** Every act that ends at the loop's head leads on. *)
Lemma deliver_head w k a0 : there k w -> due_act now k a0 ->
  (forall a, due_act now k a -> exists es m, thread_act g s k a = Some (s, head s, es, m)) -> good 4 w.
Proof.
  intros (Hi & Hd & Hw) H0 H. apply (soon_act w i s k Live g _ _ now a0 Hi); [intros; discriminate | exact Hd | exact H0 |].
  intros a A. destruct (H a A) as (es & m & E). do 4 eexists. split; [exact E |].
  intros w1 H1 D1 L1 _. rewrite head_timed in H1. apply deliver_timed.
  split; [exact H1 |]. split; [exact D1 | exact (since_app _ _ _ Hw L1)].
Qed.

Lemma deliver_any w k : there k w -> k <> WNone -> k <> WDone -> heard s k -> good 5 w.
Proof.
  intros T N1 N2 Hh. assert (G : forall v, heard s (WTimed v true) -> timed_out s 0 v = (s, head s)).
  { intros. unfold timed_out. rewrite Hs. reflexivity. }
  destruct k as [| sig | d sig | | f v | |]; try contradiction.
  - destruct Hh as [-> | [? _]]; [| congruence]. apply (soon_more _ _ 4); [lia |].
    apply (deliver_head w _ (Wake 0 now) T); [split; [reflexivity | apply before_refl] |].
    intros [rc t | | |] A; try contradiction. do 2 eexists. reflexivity.
  - destruct sig.
    + apply (soon_more _ _ 4); [lia |]. apply (deliver_head w _ (Wake 0 now) T); [split; [reflexivity | apply before_refl] |].
      intros [rc t | | |] A; try contradiction. destruct A as [-> _]. do 2 eexists.
      cbn [thread_act]. unfold timed_out. rewrite Hs. reflexivity.
    + destruct Hh as [? | (_ & _ & ->)]; [discriminate |]. apply (soon_more _ _ 3); [lia | apply deliver_timed, T].
  - apply (soon_more _ _ 2); [lia | apply deliver_expired, T].
  - destruct T as (Hi & Hd & Hw). apply (soon_act w i s _ Live g _ _ now Call Hi); [intros; discriminate | exact Hd | exact Logic.I |].
    intros [| | |] A; try contradiction. cbn [thread_act].
    destruct f as [f |]; do 4 eexists; (split; [reflexivity |]); intros w1 H1 D1 L1 _.
    + apply (deliver_head w1 WBusy Return); [| exact Logic.I |].
      * split; [exact H1 |]. split; [exact D1 | exact (since_app _ _ _ Hw L1)].
      * intros [| | |] B; try contradiction. do 2 eexists. reflexivity.
    + rewrite head_timed in H1. apply (soon_more _ _ 3); [lia |]. apply deliver_timed.
      split; [exact H1 |]. split; [exact D1 | exact (since_app _ _ _ Hw L1)].
  - apply (soon_more _ _ 4); [lia |]. apply (deliver_head w WBusy Return T); [exact Logic.I |].
    intros [| | |] A; try contradiction. do 2 eexists. reflexivity.
Qed.

End Deliver.

(** The timer of [s] is deleted: its slot is free again, and its kernel timer
    was the last thing to be deleted. *)
Definition deleted (i : nat) (s : Slot) (g : nat) (w0 w : world) : Prop :=
  exists c h, g_slot w !! i = Some c /\ ph c = Free /\ used (sl c) = false /\ wk c = WNone /\
    log w = EDeleted g :: EK (KDelete (under s)) :: h ++ log w0 /\ under s ∉ ktimers w.

Section Delete.
Context (i : nat) (s : Slot) (g : nat) (who : option nat) (now : timespec) (w0 : world).
Hypothesis (Hs : stop s = true).
Abbreviation there k p w := (g_slot w !! i = Some (mk_cell s k p g) /\ since w0 w).
Abbreviation good n w := (soon i now n (deleted i s g w0) w).

Lemma delete_joined w : there WDone (Joined who) w -> good 1 w.
Proof.
  intros (Hi & [h Hh]). right. split.
  { eexists (Release i), _. split; [reflexivity |]. cbn [Sigev.step]. rewrite Hi. reflexivity. }
  intros a w' A. destruct a; cbn [prompt] in A; try contradiction.
  - subst i0. cbn [Sigev.step]. rewrite Hi. discriminate.
  - subst i0. cbn [Sigev.step]. rewrite Hi. intros [= <-]. apply soon_now.
    eexists _, h. split; [apply (put_lookup w i _ _ Hi) |]. do 3 (split; [reflexivity |]).
    split; [cbn; rewrite Hh; reflexivity |].
    cbn [delete_release ktimers note notes put set_ktimers set_strays sl wk]. rewrite elem_drop. tauto.
  - destruct A as [-> (c & Hc & A)]. assert (c = mk_cell s WDone (Joined who) g) as -> by congruence. destruct a; contradiction.
Qed.

Lemma delete_done w : there WDone (Stopping who) w -> good 2 w.
Proof.
  intros (Hi & Hw). right. split.
  { eexists (Join i), _. split; [reflexivity |]. cbn [Sigev.step]. rewrite Hi. reflexivity. }
  intros a w' A. destruct a; cbn [prompt] in A; try contradiction.
  - subst i0. cbn [Sigev.step]. rewrite Hi. intros [= <-]. apply delete_joined. split; [apply (put_lookup w i _ _ Hi) | exact Hw].
  - subst i0. cbn [Sigev.step]. rewrite Hi. discriminate.
  - destruct A as [-> (c & Hc & A)]. assert (c = mk_cell s WDone (Stopping who) g) as -> by congruence. destruct a; contradiction.
Qed.

Lemma head_done : head s = WDone.
Proof. unfold head. rewrite Hs. reflexivity. Qed.

Lemma delete_head w k a0 : there k (Stopping who) w -> deleting w i = false -> due_act now k a0 ->
  (forall a, due_act now k a -> exists es m, thread_act g s k a = Some (s, WDone, es, m)) -> good 3 w.
Proof.
  intros (Hi & Hw) Hd H0 H. apply (soon_act w i s k _ g _ _ now a0 Hi); [intros; discriminate | exact Hd | exact H0 |].
  intros a A. destruct (H a A) as (es & m & E). do 4 eexists. split; [exact E |].
  intros w1 H1 D1 L1 _. apply delete_done. split; [exact H1 | exact (since_app _ _ _ _ Hw L1)].
Qed.

Lemma delete_any w k : there k (Stopping who) w -> deleting w i = false -> k <> WNone -> heard s k -> good 4 w.
Proof.
  intros T Hd N Hh. assert (W : forall rc t, timed_out s rc t = (s, WDone)) by (intros; unfold timed_out; rewrite Hs; reflexivity).
  destruct k as [| sig | d sig | | f v | |]; try contradiction.
  - destruct Hh as [-> | [_ ?]]; [| congruence]. apply (soon_more _ _ 3); [lia |].
    apply (delete_head w _ (Wake 0 now) T Hd); [split; [reflexivity | apply before_refl] |].
    intros [rc t | | |] A; try contradiction. do 2 eexists. cbn [thread_act]. rewrite head_done. reflexivity.
  - destruct Hh as [-> | (_ & ? & _)]; [| congruence]. apply (soon_more _ _ 3); [lia |].
    apply (delete_head w _ (Wake 0 now) T Hd); [split; [reflexivity | apply before_refl] |].
    intros [rc t | | |] A; try contradiction. destruct A as [-> _]. do 2 eexists. cbn [thread_act]. rewrite W. reflexivity.
  - apply (soon_more _ _ 3); [lia |].
    apply (delete_head w _ (Wake ETIMEDOUT now) T Hd); [split; [reflexivity | apply before_refl] |].
    intros [rc t | | |] A; try contradiction. destruct A as [-> _]. do 2 eexists. cbn [thread_act]. rewrite W, Z.eqb_refl. reflexivity.
  - destruct T as (Hi & Hw). apply (soon_act w i s _ _ g _ _ now Call Hi); [intros; discriminate | exact Hd | exact Logic.I |].
    intros [| | |] A; try contradiction. cbn [thread_act].
    destruct f as [f |]; do 4 eexists; (split; [reflexivity |]); intros w1 H1 D1 L1 _.
    + apply (delete_head w1 WBusy Return); [| exact D1 | exact Logic.I |].
      * split; [exact H1 | exact (since_app _ _ _ _ Hw L1)].
      * intros [| | |] B; try contradiction. do 2 eexists. cbn [thread_act]. rewrite head_done. reflexivity.
    + rewrite head_done in H1. apply (soon_more _ _ 2); [lia |]. apply delete_done.
      split; [exact H1 | exact (since_app _ _ _ _ Hw L1)].
  - apply (soon_more _ _ 3); [lia |]. apply (delete_head w WBusy Return T Hd); [exact Logic.I |].
    intros [| | |] A; try contradiction. do 2 eexists. cbn [thread_act]. rewrite head_done. reflexivity.
  - apply (soon_more _ _ 2); [lia | apply delete_done, T].
Qed.

End Delete.


(** C21: In every interleaving the table stays consistent: a slot is used
    exactly while a call or a user holds it; it has a running thread exactly
    while its timer is live or being deleted, a live timer's thread never
    stopping by itself; each timer that was given out has a kernel timer of
    its own, still alive and shared with no other; and [timerCounts] answers
    how many of the eight slots are held, and how many callbacks were called
    and are over. *)
Theorem sigev_table (acts : list act) (w : world) (Hjoin : Forall no_self_join acts) (Hrun : run init acts = Some w) :
  (forall i c, g_slot w !! i = Some c ->
     (used (sl c) = true <-> ph c <> Free) /\ (runs_thread (wk c) -> ph c = Live \/ exists who, ph c = Stopping who) /\
     (ph c = Live -> runs_thread (wk c) /\ stop (sl c) = false) /\
     (holds (ph c) = true -> under (sl c) ∈ ktimers w)) /\
  NoDup (ktimers w) /\
  (forall i j a b, g_slot w !! i = Some a -> g_slot w !! j = Some b ->
     holds (ph a) = true -> holds (ph b) = true -> under (sl a) = under (sl b) -> i = j) /\
  (number held (g_slot w) <= 8)%nat /\
  timerCounts w = (Z.of_nat (number held (g_slot w)),
                   Z.of_nat (count any_call (log w)) - Z.of_nat (number busy (g_slot w))).
Proof.
  pose proof (counted_run _ _ _ _ _ _ counted_init Hjoin Hrun) as [O T _].
  pose proof (kern_run _ _ _ _ _ _ kern_init Hrun) as [A B C].
  assert (U : forall i c, g_slot w !! i = Some c -> (used (sl c) = true <-> ph c <> Free)).
  { intros i c Hi. pose proof (ok_cells _ O _ _ Hi) as I. unfold cell_inv in I. destruct (ph c); destruct I as [U _]; split; congruence. }
  split; [| split; [exact A | split; [exact C | split]]].
  - intros i c Hi. pose proof (ok_cells _ O _ _ Hi) as I. split; [exact (U _ _ Hi) | split; [| split; [| exact (B _ _ Hi)]]].
    + intros R. destruct (thread_served _ _ I R) as (_ & _ & [[P _] | [P _]]); auto.
    + intros P. unfold cell_inv in I. rewrite P in I. unfold runs_thread. tauto.
  - pose proof (list.length_filter (fun c => held c = true) (g_slot w)) as L.
    rewrite (ok_len _ O) in L. exact L.
  - unfold timerCounts. rewrite (held_used _ U). f_equal. unfold tally in T. lia.
Qed.

(** C37: A timer that is armed and not disarmed is served: once the clock
    reads its deadline, wherever its thread is, the thread is awake or will
    be (no wakeup is lost), and at most five acts of it make the timer come due and
    call its callback.  Each of those acts is one that must come: a signalled
    or run out wait returns, the callback is called and returns (it is not
    inside a [timer_delete], which waits for another thread); a thread that
    nobody signalled is not counted on to wake. *)
Theorem sigev_delivers (acts : list act) (w : world) (i : nat) (c : cell) (now : timespec)
  (Hjoin : Forall no_self_join acts) (Hrun : run init acts = Some w)
  (Hi : g_slot w !! i = Some c) (Hp : ph c = Live) (Ha : armed (sl c) = true)
  (Hnow : before now (value (sl c)) = false) (Hd : deleting w i = false) :
  soon i now 5 (delivered (sl c) (gen c) now w) w.
Proof.
  pose proof (run_ok _ _ _ _ _ _ init_ok Hjoin Hrun) as O. pose proof (ok_cells _ O _ _ Hi) as I.
  unfold cell_inv in I. rewrite Hp in I. destruct I as (_ & Hs & N1 & N2 & _ & _ & _ & _ & _ & Hh).
  destruct c as [s k p g]. cbn in *. subst p.
  apply (deliver_any i s g now w Hs Ha Hnow w k); [| exact N1 | exact N2 | exact Hh].
  split; [exact Hi |]. split; [exact Hd |]. exists []. reflexivity.
Qed.

(** A periodic timer does not drift: the deadline of its k-th
    notification after an arming is exactly the armed one plus k intervals,
    whatever the delays of the thread, and the clock has reached it; while
    that deadline is a time the clock's type can hold. *)
Theorem sigev_no_drift (acts : list act) (w : world) (h1 h2 : list event) (g k : nat) (now d d0 iv : timespec) (off : option nat)
  (Hjoin : Forall no_self_join acts) (Hrun : run init acts = Some w) (Hlog : log w = h1 ++ EDue g now d :: h2)
  (Harm : arm_hist g h2 = Some (d0, iv, k, off)) (Hd : normal d0) (Hi : normal iv) (Hn : normal now)
  (Pd : 0 <= tv_sec d0) (Pi : 0 <= tv_sec iv) (Hr : ns d0 + Z.of_nat k * ns iv < 2 ^ 63 * giga) :
  ns d = ns d0 + Z.of_nat k * ns iv /\ ns d <= ns now.
Proof.
  pose proof (ok_log _ (run_ok _ _ _ _ _ _ init_ok Hjoin Hrun)) as L.
  destruct (log_ok_suffix _ _ _ Hlog L) as (_ & Hdue & Hb & _).
  assert (E : d = nth_deadline d0 iv k).
  { unfold due_next in Hdue. rewrite Harm in Hdue.
    destruct (isZero iv), off as [[| n] |]; try discriminate; try congruence;
      (case_decide as Ek; [| discriminate]); subst k; cbn; congruence. }
  destruct (nth_deadline_ns d0 iv k Hd Hi Pd Pi Hr) as (X & _ & Y). rewrite <- E in X, Y. split; [exact Y |].
  rewrite before_ns in Hb by assumption. apply Z.ltb_ge, Hb.
Qed.


End Table.

(** ** A periodic timer, its deletion, and a full round *)

Definition demo_ev : sigevent := mk_sigevent SIGEV_THREAD 0 77 (Some 4096).
Definition demo_it : itimerspec := mk_its (mk_ts 0 50000000) (mk_ts 0 50000000).
Definition base0 : Z := 2 ^ 32.
Definition size0 : Z := 128.

Definition demo_start : list act :=
  [CreatePass 0 None 0 2; Claim 0 demo_ev; Make 0 0 3; Start 0 0; Settime base0 0 (Some demo_it) (mk_ts 10 970000000)].
Definition demo_due (sec nsec : Z) : list act :=
  [Thread 0 Expire; Thread 0 (Wake ETIMEDOUT (mk_ts sec nsec)); Thread 0 Call].
Definition demo_acts : list act :=
  demo_start ++ Thread 0 (Wake 0 zero_ts) :: demo_due 11 30000000 ++ Thread 0 Return :: demo_due 11 75000000.
Definition demo_stop : list act := demo_acts ++ [Stop None base0].

Definition after (acts : list act) : world := default init (Sigev.run base0 size0 None init acts).
Definition cell0 (acts : list act) : cell := default (mk_cell fresh_slot WNone Free 0) (g_slot (after acts) !! 0%nat).

Ltac solve_acts := repeat (apply List.Forall_cons; [exact Logic.I |]); apply List.Forall_nil.


Lemma sigev_table_witness :
  Sigev.run base0 size0 None init demo_acts = Some (after demo_acts) /\ timerCounts (after demo_acts) = (1, 1) /\
  NoDup (ktimers (after demo_acts)).
Proof.
  split; [vm_compute; reflexivity |]. split; [vm_compute; reflexivity |].
  apply (sigev_table base0 size0 None demo_acts); [solve_acts | vm_compute; reflexivity].
Defined.

(** The thread is in the untimed wait and [timer_settime] signalled it. *)
Lemma sigev_delivers_witness :
  wk (cell0 demo_start) = WWait true /\
  soon base0 size0 None 0 (mk_ts 12 0) 5 (delivered (sl (cell0 demo_start)) 0 (mk_ts 12 0) (after demo_start)) (after demo_start).
Proof.
  split; [vm_compute; reflexivity |].
  refine (sigev_delivers base0 size0 None demo_start (after demo_start) 0 (cell0 demo_start) (mk_ts 12 0) _ _ _ _ _ _ _);
    [solve_acts | ..]; vm_compute; reflexivity.
Defined.

Lemma sigev_no_drift_witness :
  exists h1 h2 k, log (after demo_acts) = h1 ++ EDue 0 (mk_ts 11 75000000) (mk_ts 11 70000000) :: h2 /\ k = 1%nat /\
    ns (mk_ts 11 70000000) = ns (mk_ts 11 20000000) + Z.of_nat k * ns (mk_ts 0 50000000) /\
    ns (mk_ts 11 70000000) <= ns (mk_ts 11 75000000).
Proof.
  exists [ECall 0 4096 77], (drop 2 (log (after demo_acts))), 1%nat.
  split; [vm_compute; reflexivity |]. split; [reflexivity |].
  apply (sigev_no_drift base0 size0 None demo_acts (after demo_acts) [ECall 0 4096 77] (drop 2 (log (after demo_acts))) 0 1
           (mk_ts 11 75000000) (mk_ts 11 70000000) (mk_ts 11 20000000) (mk_ts 0 50000000) None);
    [solve_acts | vm_compute; reflexivity | vm_compute; reflexivity | vm_compute; reflexivity | ..]; unfold normal, ns, giga; cbn; lia.
Defined.


(** The thread does not look at [armed] after its timed wait, so a timer that
    was disarmed after the wait ran out is called back once more. *)
Example sigev_fires_after_disarm :
  exists h, log (after (demo_start ++ [Thread 0 (Wake 0 zero_ts); Thread 0 Expire; Settime base0 0 None zero_ts;
                                       Thread 0 (Wake ETIMEDOUT (mk_ts 11 30000000)); Thread 0 Call]))
    = ECall 0 4096 77 :: EDue 0 (mk_ts 11 30000000) (mk_ts 11 20000000) :: EDisarmed 0 true :: h.
Proof. eexists. vm_compute. reflexivity. Qed.

(** A callback deletes its own timer and the join fails: its thread stays
    behind, and when the slot is given to the next timer, which has a thread of
    its own, both serve it: a timer armed for one deadline is called back
    twice. *)
Example sigev_self_delete_doubles :
  let one := mk_its zero_ts (mk_ts 1 0) in
  let again := [Claim 0 demo_ev; Make 0 0 4; Start 0 0; Settime base0 TIMER_ABSTIME (Some one) zero_ts] in
  let wait := [Thread 0 (Wake 0 zero_ts); Stray 0 Return; Thread 0 Expire; Stray 0 Expire] in
  let call := [Thread 0 (Wake ETIMEDOUT (mk_ts 20 0)); Stray 0 (Wake ETIMEDOUT (mk_ts 20 0)); Thread 0 Call; Stray 0 Call] in
  calls 1 (log (after (demo_acts ++ [Stop (Some 0%nat) base0; JoinSelf 0; Release 0] ++ again ++ wait ++ call))) = 2%nat.
Proof. vm_compute. reflexivity. Qed.

(** A relative arming with a huge [tv_sec] overflows: its deadline is a time
    in the past, and the timer comes due at once. *)
Example addTo_wraps :
  let now := mk_ts 1700000000 0 in before now (addTo now (mk_ts (2 ^ 63 - 1) 0)) = false.
Proof. reflexivity. Qed.
