(* ===== verification/Thread.v ===== *)
(** [src/orbis_thread.cpp]: [pthread_create] with a floor under the stack size
    and an alternate signal stack for every thread.

    libkernel's calls answer from the history of events; an attribute object
    is the part of it this file reads and writes.  The payload of the
    trampoline lives on a heap of numbered blocks, and giving back a block
    that is not live is [Fault].  A thread that was started is pending until
    it runs; creations and the starts of threads come in any order, each of
    them as one step (the counters they share are atomic). *)
From stdpp Require Import prelude list numbers.
From S2P Require Import Prelude.
Open Scope Z_scope.

Module Thread.

Record attr := mk_attr { a_stack : Z; a_detach : Z; a_guard : Z }.

Inductive entry := Direct (fn arg : Z) | Trampoline (sa : nat).

Inductive failing := attr_init_failed | create_failed.

Inductive event :=
  | AttrInit | AttrGetNp | AttrGetStack | AttrGetDetach | AttrGetGuard
  | AttrSetDetach | AttrSetGuard | AttrSetStack | AttrDestroy
  | Create (a : option attr) (e : entry)
  | SigAltGet | SigAltSet
  | Ran (fn arg : Z) (alt : bool)
  | ReportFailure (what : failing) (rc n : Z) | ReportAlt | Census.

Record host := mk_host {
  rc_of : list event -> event -> Z;
  self_stack : list event -> Z;
  malloc_works : list event -> bool;
  orbis_log_enabled : list event -> bool;
  attr_default : attr;
  PTHREAD_STACK_MIN : Z }.

(** [g_floor] is [~0] before it is resolved. *)
Record state := mk_state {
  g_created : Z; g_raised : Z; g_createFailed : Z; g_attrFailed : Z; g_floor : Z;
  g_altOk : Z; g_altFailed : Z; g_altSkipped : Z; g_altReported : bool;
  heap : list (nat * (Z * Z)); next_sa : nat; pending : list entry; hist : list event }.

Definition initial : state := mk_state 0 0 0 0 SIZE_MAX 0 0 0 false [] 0 [] [].

Definition log (s : state) e := mk_state (g_created s) (g_raised s) (g_createFailed s) (g_attrFailed s) (g_floor s)
  (g_altOk s) (g_altFailed s) (g_altSkipped s) (g_altReported s) (heap s) (next_sa s) (pending s) (e :: hist s).
Definition set_counts (s : state) c r cf af := mk_state c r cf af (g_floor s)
  (g_altOk s) (g_altFailed s) (g_altSkipped s) (g_altReported s) (heap s) (next_sa s) (pending s) (hist s).
Definition set_floor (s : state) f := mk_state (g_created s) (g_raised s) (g_createFailed s) (g_attrFailed s) f
  (g_altOk s) (g_altFailed s) (g_altSkipped s) (g_altReported s) (heap s) (next_sa s) (pending s) (hist s).
Definition set_alt (s : state) o f k r := mk_state (g_created s) (g_raised s) (g_createFailed s) (g_attrFailed s)
  (g_floor s) o f k r (heap s) (next_sa s) (pending s) (hist s).
Definition set_heap (s : state) h n := mk_state (g_created s) (g_raised s) (g_createFailed s) (g_attrFailed s)
  (g_floor s) (g_altOk s) (g_altFailed s) (g_altSkipped s) (g_altReported s) h n (pending s) (hist s).
Definition set_pending (s : state) l := mk_state (g_created s) (g_raised s) (g_createFailed s) (g_attrFailed s)
  (g_floor s) (g_altOk s) (g_altFailed s) (g_altSkipped s) (g_altReported s) (heap s) (next_sa s) l (hist s).

Definition count_created (s : state) := set_counts s (g_created s + 1) (g_raised s) (g_createFailed s) (g_attrFailed s).
Definition count_raised (s : state) := set_counts s (g_created s) (g_raised s + 1) (g_createFailed s) (g_attrFailed s).
Definition count_createFailed (s : state) :=
  set_counts s (g_created s) (g_raised s) (g_createFailed s + 1) (g_attrFailed s).
Definition count_attrFailed (s : state) :=
  set_counts s (g_created s) (g_raised s) (g_createFailed s) (g_attrFailed s + 1).

Section Host.
Context (H : host).

(** A call of libkernel and its answer. *)
Definition ask (s : state) (e : event) : state * Z := (log s e, rc_of H (hist s) e).

Definition powerOfTwo (n : Z) : bool := negb (n =? 0) && (Z.land n (n - 1) =? 0).

Definition reportPoolFailure (s : state) (what : failing) (rc n : Z) : state :=
  if negb (powerOfTwo n) || negb (orbis_log_enabled H (hist s)) then s else log s (ReportFailure what rc n).

Definition attr_failed (s : state) (rc : Z) : state :=
  reportPoolFailure (count_attrFailed s) attr_init_failed rc (g_attrFailed s + 1).

(** The code and the size. *)
Definition stackOfSelf (s : state) : state * Z * Z :=
  let '(s, rcInit) := ask s AttrInit in
  if negb (rcInit =? 0) then (attr_failed s rcInit, rcInit, 0)
  else
    let '(s, rcGet) := ask s AttrGetNp in
    let sz := self_stack H (hist s) in
    let '(s, rcOut, sz) :=
      if rcGet =? 0 then
        let '(s, rc) := ask s AttrGetStack in (s, rc, if rc =? 0 then sz else 0)
      else (s, rcGet, 0) in
    (log s AttrDestroy, rcOut, sz).

Definition mainThreadStack (s : state) : state * Z :=
  let '(s, rc, sz) := stackOfSelf s in (s, if rc =? 0 then sz else 0).

Definition resolveFloor (s : state) : state * Z :=
  if negb (g_floor s =? SIZE_MAX) then (s, g_floor s)
  else
    let '(s, v) := mainThreadStack s in
    let v := if negb (v =? 0) && (v <? PTHREAD_STACK_MIN H) then 0 else v in
    (set_floor s v, v).

(** ** Payloads *)

Definition malloc_sa (s : state) (fn arg : Z) : state * nat :=
  (set_heap s ((next_sa s, (fn, arg)) :: heap s) (S (next_sa s)), next_sa s).

Definition read_sa (s : state) (sa : nat) : outcome (Z * Z) :=
  match list_find (fun b => fst b = sa) (heap s) with Some (_, (_, p)) => Ok p | None => Fault end.

Definition free_sa (s : state) (sa : nat) : outcome state :=
  match list_find (fun b => fst b = sa) (heap s) with
  | Some (i, _) => Ok (set_heap s (delete i (heap s)) (next_sa s))
  | None => Fault
  end.

(** ** Creation *)

(** libkernel's call; a thread that starts is pending. *)
Definition scePthreadCreate (s : state) (a : option attr) (e : entry) : state * Z :=
  let '(s, rc) := ask s (Create a e) in
  if rc =? 0 then (set_pending s (pending s ++ [e]), rc) else (s, rc).

Definition createThread (s : state) (a : option attr) (e : entry) (sa : option nat) : outcome (state * Z) :=
  let '(s, rc) := scePthreadCreate s a e in
  if negb (rc =? 0) then
    s ← (match sa with Some id => free_sa s id | None => Ok s end);
    Ok (reportPoolFailure (count_createFailed s) create_failed rc (g_createFailed s + 1), rc)
  else Ok (s, rc).

(** What the caller's attributes ask for. *)
Definition want_of (s : state) (a : option attr) : state * Z :=
  match a with
  | Some a => let '(s, rc) := ask s AttrGetStack in (s, if rc =? 0 then a_stack a else 0)
  | None => (s, 0)
  end.

(** The carried attributes. *)
Definition carry_detach (s : state) (a raised : attr) : state * attr :=
  let '(s, g) := ask s AttrGetDetach in
  if g =? 0 then
    let '(s, r) := ask s AttrSetDetach in
    (s, if r =? 0 then mk_attr (a_stack raised) (a_detach a) (a_guard raised) else raised)
  else (s, raised).

Definition carry_guard (s : state) (a raised : attr) : state * attr :=
  let '(s, g) := ask s AttrGetGuard in
  if g =? 0 then
    let '(s, r) := ask s AttrSetGuard in
    (s, if r =? 0 then mk_attr (a_stack raised) (a_detach raised) (a_guard a) else raised)
  else (s, raised).

Definition carry (s : state) (a : option attr) (raised : attr) : state * attr :=
  match a with
  | Some a => let '(s, raised) := carry_detach s a raised in carry_guard s a raised
  | None => (s, raised)
  end.

Definition pthread_create (s : state) (a : option attr) (fn arg : Z) : outcome (state * Z) :=
  let s := count_created s in
  let '(s, e, sa) :=
    if malloc_works H (hist s) then
      let '(s, id) := malloc_sa s fn arg in (s, Trampoline id, Some id)
    else (s, Direct fn arg, None) in
  let '(s, floor) := resolveFloor s in
  if floor =? 0 then createThread s a e sa else
  let '(s, want) := want_of s a in
  if floor <=? want then createThread s a e sa else
  let '(s, rcAttr) := ask s AttrInit in
  if negb (rcAttr =? 0) then createThread (attr_failed s rcAttr) a e sa else
  let '(s, raised) := carry s a (attr_default H) in
  let '(s, rcSet) := ask s AttrSetStack in
  let with_floor := mk_attr floor (a_detach raised) (a_guard raised) in
  '(s, rc) ← createThread s (if rcSet =? 0 then Some with_floor else a) e sa;
  let s := if (rcSet =? 0) && (rc =? 0) then count_raised s else s in
  let s := log s AttrDestroy in
  let n := g_created s in
  Ok (if (rc =? 0) && (Z.land n (n - 1) =? 0) then log s Census else s, rc).

(** ** The thread *)

Definition kAltStackSize : Z := 64 * 1024.
Definition kAltStackMinThreadStack : Z := 4 * kAltStackSize.

(** The bytes of the alternate stack that are written before it is handed
    over. *)
Fixpoint touch_from (n : nat) (i : Z) : list Z :=
  match n with
  | O => []
  | S n => if i <? kAltStackSize then i :: touch_from n (i + 16 * 1024) else []
  end.
Definition touched : list Z := touch_from (Z.to_nat kAltStackSize) 0 ++ [kAltStackSize - 1].

Definition runOnItsOwnAltStack (s : state) (fn arg : Z) : state :=
  let '(s, _) := ask s SigAltGet in
  let '(s, rc) := ask s SigAltSet in
  let s := if rc =? 0 then set_alt s (g_altOk s + 1) (g_altFailed s) (g_altSkipped s) (g_altReported s)
           else set_alt s (g_altOk s) (g_altFailed s + 1) (g_altSkipped s) (g_altReported s) in
  let reported := g_altReported s in
  let s := set_alt s (g_altOk s) (g_altFailed s) (g_altSkipped s) true in
  let s := if negb reported && orbis_log_enabled H (hist s) then log s ReportAlt else s in
  log s (Ran fn arg (rc =? 0)).

Definition threadTrampoline (s : state) (sa : nat) : outcome state :=
  '(fn, arg) ← read_sa s sa;
  s ← free_sa s sa;
  let '(s, rc, sz) := stackOfSelf s in
  Ok (if (rc =? 0) && (kAltStackMinThreadStack <=? sz) then runOnItsOwnAltStack s fn arg
      else log (set_alt s (g_altOk s) (g_altFailed s) (g_altSkipped s + 1) (g_altReported s)) (Ran fn arg false)).

(** The [k]-th pending thread runs. *)
Definition start_thread (s : state) (k : nat) : outcome state :=
  match pending s !! k with
  | Some (Direct fn arg) => Ok (log (set_pending s (delete k (pending s))) (Ran fn arg false))
  | Some (Trampoline sa) => threadTrampoline (set_pending s (delete k (pending s))) sa
  | None => Ok s
  end.

(** ** Runs *)

Inductive act := ACreate (a : option attr) (fn arg : Z) | AStart (k : nat) | AFloor.

Definition step (s : state) (x : act) : outcome (state * list Z) :=
  match x with
  | ACreate a fn arg => '(s, rc) ← pthread_create s a fn arg; Ok (s, [rc])
  | AStart k => s ← start_thread s k; Ok (s, [])
  | AFloor => Ok (fst (resolveFloor s), [])
  end.

Fixpoint run (s : state) (xs : list act) : outcome (state * list (list Z)) :=
  match xs with
  | [] => Ok (s, [])
  | x :: xs => '(s, r) ← step s x; '(s, rs) ← run s xs; Ok (s, r :: rs)
  end.

(** ** What is reported *)

Definition threadCounts (s : state) : Z * Z := (g_created s, g_raised s).
Definition threadFailures (s : state) : Z * Z := (g_createFailed s, g_attrFailed s).
Definition threadAltStacks (s : state) : Z * Z * Z := (g_altOk s, g_altFailed s, g_altSkipped s).
Definition threadAltStackSize : Z := kAltStackSize.

(** The callers' addresses in a failure report, as far as they fit into
    [size] bytes; [texts] are the addresses as [snprintf] writes them. *)
Fixpoint callers_from (size : Z) (first : bool) (text : list Z) (texts : list (list Z)) : list Z :=
  match texts with
  | [] => text
  | t :: r =>
      let piece := (if first then [] else [32]) ++ t in
      if size - Z.of_nat (length text) <=? Z.of_nat (length piece)
      then text ++ take (Z.to_nat (size - Z.of_nat (length text) - 1)) piece
      else callers_from size false (text ++ piece) r
  end.
Definition callers (texts : list (list Z)) : list Z := callers_from (10 * 20 + 1) true [] texts.

End Host.

End Thread.
Export Thread.
