(* ===== verification/ThreadProps.v ===== *)
(** The properties of [pthread_create] and of the threads it starts. *)
From stdpp Require Import prelude list numbers.
From S2P Require Import Prelude Thread.
Open Scope Z_scope.

Section Host.
Context (H : host).

(** ** What the events amount to *)

(** The attribute objects that are initialised and not destroyed. *)
Fixpoint attrs_live (h : list event) : Z :=
  match h with
  | [] => 0
  | AttrInit :: r => (if rc_of H r AttrInit =? 0 then 1 else 0) + attrs_live r
  | AttrDestroy :: r => attrs_live r - 1
  | _ :: r => attrs_live r
  end.

(** What the threads ran, and the creation calls made with their answers. *)
Definition ran_of (e : event) : option (Z * Z) := match e with Ran fn arg _ => Some (fn, arg) | _ => None end.
Definition ran (s : state) : list (Z * Z) := omap ran_of (hist s).
Fixpoint creates (h : list event) : list (option attr * Z) :=
  match h with
  | [] => []
  | Create a e :: r => (a, rc_of H r (Create a e)) :: creates r
  | _ :: r => creates r
  end.

Definition sa_of (e : entry) : option nat := match e with Trampoline sa => Some sa | Direct _ _ => None end.
Definition direct (e : entry) : option (Z * Z) := match e with Direct fn arg => Some (fn, arg) | _ => None end.

(** What the threads that have not run yet are to run. *)
Definition owed (s : state) : list (Z * Z) := omap direct (pending s) ++ map snd (heap s).

(** Every payload belongs to exactly one thread that has not run. *)
Record ok (s : state) : Prop := {
  ok_owner : omap sa_of (pending s) ≡ₚ map fst (heap s);
  ok_nodup : NoDup (map fst (heap s));
  ok_fresh : Forall (fun b => (fst b < next_sa s)%nat) (heap s) }.

(** From [s] to [s'] only counters, the floor and events other than creations
    and runs changed, and [d] attribute objects more are live. *)
Record quiet (d : Z) (s s' : state) : Prop := {
  q_heap : heap s' = heap s; q_next : next_sa s' = next_sa s; q_pending : pending s' = pending s;
  q_created : g_created s' = g_created s; q_ran : ran s' = ran s; q_creates : creates (hist s') = creates (hist s);
  q_live : attrs_live (hist s') = attrs_live (hist s) + d }.

Lemma quiet_refl s : quiet 0 s s.
Proof. split; auto. lia. Qed.

Lemma quiet_trans d1 d2 d a b c : quiet d1 a b -> quiet d2 b c -> d = d1 + d2 -> quiet d a c.
Proof. intros [A1 A2 A3 A4 A5 A6 A7] [B1 B2 B3 B4 B5 B6 B7] ->. split; try congruence. lia. Qed.

Lemma quiet_if d (b : bool) s s1 s2 : quiet d s s1 -> quiet d s s2 -> quiet d s (if b then s1 else s2).
Proof. destruct b; auto. Qed.

Lemma quiet_counts d s s' c r cf af : quiet d s s' -> c = g_created s' -> quiet d s (set_counts s' c r cf af).
Proof. intros [A1 A2 A3 A4 A5 A6 A7] ->. split; auto. Qed.

Definition plain (e : event) : bool :=
  match e with AttrInit | AttrDestroy | Create _ _ | Ran _ _ _ => false | _ => true end.

Lemma quiet_log s e : plain e = true -> quiet 0 s (log s e).
Proof. intros He. destruct e; try discriminate; split; auto; cbn [log hist attrs_live]; lia. Qed.

Lemma quiet_ask s e s' rc : plain e = true -> ask H s e = (s', rc) -> quiet 0 s s'.
Proof. intros He [= <- _]. apply quiet_log, He. Qed.

Lemma quiet_init s : quiet (if rc_of H (hist s) AttrInit =? 0 then 1 else 0) s (log s AttrInit).
Proof. split; auto. cbn [log hist attrs_live]. lia. Qed.

Lemma quiet_destroy s : quiet (-1) s (log s AttrDestroy).
Proof. split; auto. Qed.

Lemma quiet_report s w rc n : quiet 0 s (reportPoolFailure H s w rc n).
Proof. unfold reportPoolFailure. destruct (_ || _); [apply quiet_refl | apply quiet_log; reflexivity]. Qed.

Lemma quiet_attr_failed s rc : quiet 0 s (attr_failed H s rc).
Proof.
  unfold attr_failed. eapply quiet_trans; [apply (quiet_counts 0 s s); [apply quiet_refl | reflexivity] | apply quiet_report | lia].
Qed.

Lemma quiet_self s s' rc sz : stackOfSelf H s = (s', rc, sz) -> quiet 0 s s'.
Proof.
  unfold stackOfSelf, ask. pose proof (quiet_init s) as Q. destruct (rc_of H (hist s) AttrInit =? 0); cbn [negb].
  - set (s1 := log s AttrInit) in *. set (s2 := log s1 AttrGetNp).
    assert (Q2 : quiet 1 s s2) by (eapply quiet_trans; [exact Q | apply quiet_log; reflexivity | lia]).
    destruct (rc_of H (hist s1) AttrGetNp =? 0); intros [= <- _ _];
      (eapply (quiet_trans 1 (-1)); [| apply quiet_destroy | reflexivity]); [| exact Q2].
    eapply quiet_trans; [exact Q2 | apply quiet_log; reflexivity | lia].
  - intros [= <- _ _]. eapply quiet_trans; [exact Q | apply quiet_attr_failed | lia].
Qed.

Lemma quiet_floor s s' v : resolveFloor H s = (s', v) -> quiet 0 s s'.
Proof.
  unfold resolveFloor, mainThreadStack. destruct (negb _); [intros [= <- _]; apply quiet_refl |].
  destruct (stackOfSelf H s) as [[s1 rc] sz] eqn:E. intros [= <- _].
  destruct (quiet_self _ _ _ _ E) as [A1 A2 A3 A4 A5 A6 A7]. split; auto.
Qed.

Lemma quiet_want s a s' v : want_of H s a = (s', v) -> quiet 0 s s'.
Proof.
  unfold want_of. destruct a; [| intros [= <- _]; apply quiet_refl].
  intros [= <- _]. apply quiet_log. reflexivity.
Qed.

Lemma quiet_carry s a r s' r' : carry H s a r = (s', r') -> quiet 0 s s'.
Proof.
  unfold carry, carry_detach, carry_guard, ask. destruct a as [a |]; [| intros [= <- _]; apply quiet_refl].
  assert (L : forall t e, plain e = true -> quiet 0 s t -> quiet 0 s (log t e)).
  { intros t e He Q. eapply quiet_trans; [exact Q | apply quiet_log, He | lia]. }
  destruct (rc_of H (hist s) AttrGetDetach =? 0);
    match goal with |- context [rc_of H (hist ?t) AttrGetGuard] => destruct (rc_of H (hist t) AttrGetGuard =? 0) end;
    intros [= <- _]; repeat (apply L; [reflexivity |]); apply quiet_refl.
Qed.

Lemma quiet_ok d s s' : quiet d s s' -> ok s -> ok s'.
Proof. intros [A1 A2 A3 _ _ _ _] [B1 B2 B3]. split; rewrite ?A1, ?A2, ?A3; assumption. Qed.

Lemma quiet_owed d s s' : quiet d s s' -> owed s' = owed s.
Proof. intros [A1 A2 A3 _ _ _ _]. unfold owed. congruence. Qed.

(** ** A creation *)

(** [made s0 s a rc fn arg s']: from [s0], before the payload was made, a
    creation with attributes [a] answered [rc]. *)
Record made (s0 : state) (a : option attr) (rc fn arg : Z) (s' : state) : Prop := {
  md_ok : ok s';
  md_owed : owed s' ≡ₚ (if rc =? 0 then [(fn, arg)] else []) ++ owed s0;
  md_ran : ran s' = ran s0;
  md_creates : creates (hist s') = (a, rc) :: creates (hist s0);
  md_created : g_created s' = g_created s0 + 1 }.

Lemma made_quiet d s0 a rc fn arg s s' : made s0 a rc fn arg s -> quiet d s s' -> made s0 a rc fn arg s'.
Proof.
  intros [A B C D E] Q. pose proof (quiet_ok _ _ _ Q A). pose proof (quiet_owed _ _ _ Q) as W.
  destruct Q as [_ _ _ Q4 Q5 Q6 _]. split; [assumption | rewrite W; exact B | congruence..].
Qed.

(** After the payload was made or could not be. *)
Record prepared (s0 s : state) (e : entry) (sa : option nat) (fn arg : Z) : Prop := {
  pr_heap : match sa with
            | Some id => e = Trampoline id /\ heap s = (id, (fn, arg)) :: heap s0 /\ next_sa s = S (next_sa s0) /\ id = next_sa s0
            | None => e = Direct fn arg /\ heap s = heap s0 /\ next_sa s = next_sa s0
            end;
  pr_pending : pending s = pending s0; pr_ran : ran s = ran s0;
  pr_creates : creates (hist s) = creates (hist s0); pr_created : g_created s = g_created s0 + 1 }.

Lemma prepared_quiet d s0 s s' e sa fn arg : prepared s0 s e sa fn arg -> quiet d s s' -> prepared s0 s' e sa fn arg.
Proof.
  intros [A B C D E] [F1 F2 F3 F4 F5 F6 F7]. split; try congruence. rewrite F1, F2. exact A.
Qed.

Lemma prepared_ok s0 s e sa fn arg : ok s0 -> prepared s0 s e sa fn arg -> ok (set_pending s (pending s ++ [e])).
Proof.
  intros [O1 O2 O3] [A B _ _ _].
  destruct sa as [id |]; [destruct A as (-> & Hh & Hn & ->) | destruct A as (-> & Hh & Hn)];
    split; cbn [set_pending pending heap next_sa]; rewrite ?omap_app, Hh, ?Hn, ?B; cbn [omap list_omap sa_of app map fst].
  - rewrite Permutation_app_comm. cbn. rewrite O1. reflexivity.
  - constructor; [| exact O2]. intros Hin. apply list_elem_of_fmap in Hin as (b & Hb & Hin).
    rewrite list.Forall_forall in O3. specialize (O3 b Hin). lia.
  - constructor; [cbn; lia |]. eapply List.Forall_impl; [| exact O3]. cbn. lia.
  - rewrite app_nil_r. exact O1.
  - exact O2.
  - exact O3.
Qed.

Lemma prepared_owed s0 s e sa fn arg : prepared s0 s e sa fn arg ->
  owed (set_pending s (pending s ++ [e])) ≡ₚ (fn, arg) :: owed s0.
Proof.
  intros [A B _ _ _]. unfold owed; cbn [set_pending pending heap]. rewrite omap_app, B.
  destruct sa as [id |]; [destruct A as (-> & Hh & _) | destruct A as (-> & Hh & _)]; rewrite Hh; cbn.
  - rewrite app_nil_r. symmetry. apply Permutation_middle.
  - rewrite <- app_assoc. symmetry. apply Permutation_middle.
Qed.

(** A creation that failed and gave the payload back. *)
Lemma failed_made s0 s a rc fn arg : ok s0 -> (rc =? 0) = false ->
  heap s = heap s0 -> (next_sa s0 <= next_sa s)%nat -> pending s = pending s0 -> ran s = ran s0 ->
  creates (hist s) = (a, rc) :: creates (hist s0) -> g_created s = g_created s0 + 1 ->
  made s0 a rc fn arg (reportPoolFailure H (count_createFailed s) create_failed rc (g_createFailed s + 1)) /\
  attrs_live (hist (reportPoolFailure H (count_createFailed s) create_failed rc (g_createFailed s + 1))) = attrs_live (hist s).
Proof.
  intros [O1 O2 O3] Er Hh Hn Hp Hr Hc Hg.
  pose proof (quiet_report (count_createFailed s) create_failed rc (g_createFailed s + 1)) as Q.
  split; [| rewrite (q_live _ _ _ Q); cbn; lia].
  apply (made_quiet 0 s0 a rc fn arg s); [| eapply quiet_trans; [apply (quiet_counts 0 s s); [apply quiet_refl | reflexivity] | exact Q | reflexivity]].
  split; auto.
  - split; rewrite ?Hp, ?Hh; [exact O1 | exact O2 |]. eapply List.Forall_impl; [| exact O3]. cbn. lia.
  - unfold owed. rewrite Er, Hp, Hh. reflexivity.
Qed.

Lemma createThread_spec s0 s a e sa fn arg : ok s0 -> prepared s0 s e sa fn arg ->
  exists s' rc, createThread H s a e sa = Ok (s', rc) /\ made s0 a rc fn arg s' /\
    attrs_live (hist s') = attrs_live (hist s).
Proof.
  intros O P. pose proof P as [A B C D E]. unfold createThread, scePthreadCreate, ask.
  set (rc := rc_of H (hist s) (Create a e)). set (s1 := log s (Create a e)).
  assert (Hc : creates (hist s1) = (a, rc) :: creates (hist s0)) by (cbn; rewrite D; reflexivity).
  destruct (rc =? 0) eqn:Er; cbv beta iota; rewrite Er; cbn [negb].
  - eexists _, _. split; [reflexivity |]. split; [| reflexivity].
    split; [| rewrite Er; apply (prepared_owed s0 s e sa fn arg P) | exact C | exact Hc | exact E].
    destruct (prepared_ok _ _ _ _ _ _ O P) as [X Y Z]. split; assumption.
  - destruct sa as [id |].
    + destruct A as (-> & Hh & Hn & ->). unfold free_sa. cbn [s1 log heap]. rewrite Hh. cbn [list_find].
      rewrite decide_True by reflexivity. cbn [delete list_delete mbind outcome_bind].
      eexists _, rc. split; [reflexivity |].
      set (s2 := set_heap s1 (heap s0) (next_sa s1)).
      destruct (failed_made s0 s2 a rc fn arg) as [X Y]; try assumption; try reflexivity; [cbn; lia |].
      split; [exact X | exact Y].
    + destruct A as (-> & Hh & Hn). cbn [mbind outcome_bind].
      eexists _, rc. split; [reflexivity |].
      destruct (failed_made s0 s1 a rc fn arg) as [X Y]; try assumption; try reflexivity; [cbn; lia |].
      split; [exact X | exact Y].
Qed.

(** Events of a call after the payload is made. *)
Lemma malloc_prepared s fn arg :
  let '(s', e, sa) :=
    if malloc_works H (hist s) then let '(s, id) := malloc_sa s fn arg in (s, Trampoline id, Some id)
    else (s, Direct fn arg, None) in
  forall s0, s = count_created s0 -> prepared s0 s' e sa fn arg /\ attrs_live (hist s') = attrs_live (hist s0).
Proof. destruct (malloc_works H (hist s)); cbn; intros s0 ->; (split; [split|]); auto. Qed.

(** [creation s a fn arg s' rc]: what every creation comes to. *)
Definition creation (s : state) (a : option attr) (fn arg : Z) (s' : state) (rc : Z) : Prop :=
  (exists a', made s a' rc fn arg s') /\ attrs_live (hist s') = attrs_live (hist s).

Lemma create_with s0 s a e sa fn arg : ok s0 -> prepared s0 s e sa fn arg -> attrs_live (hist s) = attrs_live (hist s0) ->
  exists s' rc, createThread H s a e sa = Ok (s', rc) /\ creation s0 a fn arg s' rc.
Proof.
  intros O P L. destruct (createThread_spec _ _ a _ _ _ _ O P) as (s' & rc & E & M & L').
  exists s', rc. split; [exact E |]. split; [eauto | congruence].
Qed.

Lemma pthread_create_total s a fn arg : ok s ->
  exists s' rc, pthread_create H s a fn arg = Ok (s', rc) /\ creation s a fn arg s' rc.
Proof.
  intros O. unfold pthread_create. cbv zeta. pose proof (malloc_prepared (count_created s) fn arg) as P.
  destruct (if malloc_works H (hist (count_created s)) then _ else _) as [[s1 e] sa].
  destruct (P s eq_refl) as [P1 L1]. clear P.
  destruct (resolveFloor H s1) as [s2 floor] eqn:E2. pose proof (quiet_floor _ _ _ E2) as Q2.
  pose proof (prepared_quiet _ _ _ _ _ _ _ _ P1 Q2) as P2. pose proof (q_live _ _ _ Q2) as L2. rewrite L1, Z.add_0_r in L2.
  destruct (floor =? 0); [apply create_with; assumption |].
  destruct (want_of H s2 a) as [s3 want] eqn:E3. pose proof (quiet_want _ _ _ _ E3) as Q3.
  pose proof (prepared_quiet _ _ _ _ _ _ _ _ P2 Q3) as P3. pose proof (q_live _ _ _ Q3) as L3. rewrite L2, Z.add_0_r in L3.
  destruct (floor <=? want); [apply create_with; assumption |].
  pose proof (quiet_init s3) as Q4. unfold ask at 1. set (s4 := log s3 AttrInit) in *.
  pose proof (prepared_quiet _ _ _ _ _ _ _ _ P3 Q4) as P4. pose proof (q_live _ _ _ Q4) as L4.
  destruct (rc_of H (hist s3) AttrInit =? 0); cbn [negb].
  - destruct (carry H s4 a (attr_default H)) as [s5 raised] eqn:E5. pose proof (quiet_carry _ _ _ _ _ E5) as Q5.
    pose proof (prepared_quiet _ _ _ _ _ _ _ _ P4 Q5) as P5. pose proof (q_live _ _ _ Q5) as L5.
    unfold ask. set (rcSet := rc_of H (hist s5) AttrSetStack).
    pose proof (quiet_log s5 AttrSetStack eq_refl) as Q6. set (s6 := log s5 AttrSetStack) in *.
    pose proof (prepared_quiet _ _ _ _ _ _ _ _ P5 Q6) as P6. pose proof (q_live _ _ _ Q6) as L6.
    set (a' := if rcSet =? 0 then _ else a).
    destruct (createThread_spec _ _ a' _ _ _ _ O P6) as (s7 & rc & -> & M & L7). cbn [mbind outcome_bind].
    set (s8 := if _ && _ then count_raised s7 else s7).
    assert (Q8 : quiet 0 s7 s8).
    { apply quiet_if; [apply (quiet_counts 0 s7 s7); [apply quiet_refl | reflexivity] | apply quiet_refl]. }
    set (s9 := log s8 AttrDestroy). set (s10 := if _ && _ then log s9 Census else s9).
    assert (Q10 : quiet 0 s9 s10) by (apply quiet_if; [apply quiet_log; reflexivity | apply quiet_refl]).
    assert (Q : quiet (-1) s7 s10).
    { eapply quiet_trans; [eapply quiet_trans; [exact Q8 | apply quiet_destroy | reflexivity] | exact Q10 | reflexivity]. }
    exists s10, rc. split; [reflexivity |]. split; [exists a'; exact (made_quiet _ _ _ _ _ _ _ _ M Q) |].
    rewrite (q_live _ _ _ Q). lia.
  - pose proof (quiet_attr_failed s4 (rc_of H (hist s3) AttrInit)) as Q5.
    apply create_with; [exact O | exact (prepared_quiet _ _ _ _ _ _ _ _ P4 Q5) |].
    rewrite (q_live _ _ _ Q5). lia.
Qed.

(** ** A thread that runs *)

Lemma quiet_alt s o f k r : quiet 0 s (set_alt s o f k r).
Proof. split; auto. cbn. lia. Qed.

(** A state that differs by one run. *)
Record ranit (s : state) (fn arg : Z) (s' : state) : Prop := {
  ri_heap : heap s' = heap s; ri_next : next_sa s' = next_sa s; ri_pending : pending s' = pending s;
  ri_created : g_created s' = g_created s; ri_ran : ran s' = (fn, arg) :: ran s;
  ri_creates : creates (hist s') = creates (hist s); ri_live : attrs_live (hist s') = attrs_live (hist s) }.

Lemma ranit_log s s1 fn arg b : quiet 0 s s1 -> ranit s fn arg (log s1 (Ran fn arg b)).
Proof.
  intros [A1 A2 A3 A4 A5 A6 A7].
  split; cbn [log heap next_sa pending g_created hist creates attrs_live]; auto; [| lia].
  change (ran (log s1 (Ran fn arg b))) with ((fn, arg) :: ran s1). congruence.
Qed.

Lemma alt_ran s fn arg : ranit s fn arg (runOnItsOwnAltStack H s fn arg).
Proof.
  unfold runOnItsOwnAltStack, ask. cbv zeta. apply ranit_log.
  assert (T : forall t o f k r, quiet 0 s t -> quiet 0 s (set_alt t o f k r)).
  { intros t o f k r Q. eapply quiet_trans; [exact Q | apply quiet_alt | reflexivity]. }
  assert (L : forall t e, plain e = true -> quiet 0 s t -> quiet 0 s (log t e)).
  { intros t e He Q. eapply quiet_trans; [exact Q | apply quiet_log, He | reflexivity]. }
  destruct (rc_of H _ SigAltSet =? 0); destruct (negb _ && _);
    repeat first [apply L; [reflexivity |] | apply T]; apply quiet_refl.
Qed.

Lemma read_free s sa : In sa (map fst (heap s)) ->
  exists p i, read_sa s sa = Ok p /\ free_sa s sa = Ok (set_heap s (delete i (heap s)) (next_sa s)) /\
    heap s !! i = Some (sa, p).
Proof.
  intros Hin. apply in_map_iff in Hin as ([sa' p] & Hsa & Hin). cbn in Hsa. subst sa'.
  unfold read_sa, free_sa. destruct (list_find (fun b => fst b = sa) (heap s)) as [[i [sa' p']] |] eqn:E.
  - apply list_find_Some in E as (E1 & E2 & _). cbn in E2. subst sa'. eauto.
  - apply list_find_None in E. rewrite List.Forall_forall in E. exfalso. exact (E _ Hin eq_refl).
Qed.

Lemma trampoline_spec s sa : In sa (map fst (heap s)) ->
  exists p i s', threadTrampoline H s sa = Ok s' /\ heap s !! i = Some (sa, p) /\
    ranit (set_heap s (delete i (heap s)) (next_sa s)) (fst p) (snd p) s'.
Proof.
  intros Hin. destruct (read_free _ _ Hin) as ([fn arg] & i & R & F & L). exists (fn, arg), i.
  unfold threadTrampoline. rewrite R. cbn [mbind outcome_bind]. rewrite F. cbn [mbind outcome_bind].
  set (s1 := set_heap _ _ _). destruct (stackOfSelf H s1) as [[s2 rc] sz] eqn:E.
  pose proof (quiet_self _ _ _ _ E) as Q. eexists. split; [reflexivity |]. split; [exact L |]. cbn [fst snd].
  destruct (_ && _).
  - destruct (alt_ran s2 fn arg) as [A1 A2 A3 A4 A5 A6 A7]. destruct Q as [B1 B2 B3 B4 B5 B6 B7].
    split; try congruence. lia.
  - apply ranit_log. eapply quiet_trans; [exact Q | apply quiet_alt | reflexivity].
Qed.

Lemma start_thread_spec s k : ok s ->
  exists s', start_thread H s k = Ok s' /\ ok s' /\ g_created s' = g_created s /\
    ran s' ++ owed s' ≡ₚ ran s ++ owed s /\ creates (hist s') = creates (hist s) /\
    attrs_live (hist s') = attrs_live (hist s).
Proof.
  intros O. unfold start_thread. destruct (pending s !! k) as [e |] eqn:Ek; [| eauto 10].
  pose proof (delete_Permutation _ _ _ Ek) as P. destruct O as [O1 O2 O3].
  set (rest := delete k (pending s)) in *.
  assert (Psa : omap sa_of (pending s) ≡ₚ omap sa_of (e :: rest)) by (rewrite P; reflexivity).
  assert (Pd : omap direct (pending s) ≡ₚ omap direct (e :: rest)) by (rewrite P; reflexivity).
  destruct e as [fn arg | sa]; cbn [omap list_omap sa_of direct] in Psa, Pd.
  - eexists. split; [reflexivity |]. split; [| split; [reflexivity | split; [| split; reflexivity]]].
    + split; [| exact O2 | exact O3]. cbn [log set_pending pending heap]. rewrite <- O1. symmetry. exact Psa.
    + change (ran (log _ _)) with ((fn, arg) :: ran s). unfold owed; cbn [log set_pending pending heap].
      fold rest. rewrite Pd. cbn. apply Permutation_middle.
  - assert (Hin : In sa (map fst (heap s))).
    { apply list_elem_of_In. rewrite <- O1, Psa. left. }
    set (s1 := set_pending s rest).
    destruct (trampoline_spec s1 sa Hin) as ([fn arg] & i & s' & E & Hi & R). exists s'. split; [exact E |].
    destruct R as [R1 R2 R3 R4 R5 R6 R7]. cbn [set_heap heap next_sa pending g_created hist s1 set_pending] in *.
    pose proof (delete_Permutation _ _ _ Hi) as Ph. set (hp := delete i (heap s)) in *.
    assert (Pk : map fst (heap s) ≡ₚ sa :: map fst hp) by (rewrite Ph; reflexivity).
    assert (Pv : map snd (heap s) ≡ₚ (fn, arg) :: map snd hp) by (rewrite Ph; reflexivity).
    split; [| split; [exact R4 | split; [| split; [exact R6 | exact R7]]]].
    + split; rewrite ?R1, ?R2, ?R3.
      * apply (Permutation_cons_inv (a := sa)). rewrite <- Pk, <- O1. symmetry. exact Psa.
      * rewrite Pk in O2. apply list.NoDup_cons in O2. apply O2.
      * rewrite Ph in O3. apply list.Forall_cons in O3. apply O3.
    + rewrite R5. unfold owed. rewrite R1, R3. cbn [fst snd]. fold rest.
      change (ran (set_heap s1 hp (next_sa s))) with (ran s).
      rewrite Pd, Pv. cbn [app]. rewrite !app_assoc. apply Permutation_middle.
Qed.

(** ** Runs *)

Definition is_create (x : act) : bool := match x with ACreate _ _ _ => true | _ => false end.

(** The threads the callers were told exist. *)
Fixpoint wanted (xs : list act) (rs : list (list Z)) : list (Z * Z) :=
  match xs, rs with
  | ACreate _ fn arg :: xs, [rc] :: rs => (if rc =? 0 then [(fn, arg)] else []) ++ wanted xs rs
  | _ :: xs, _ :: rs => wanted xs rs
  | _, _ => []
  end.

Lemma threads_step_spec s x : ok s ->
  exists s' r, step H s x = Ok (s', r) /\ ok s' /\
    g_created s' = g_created s + (if is_create x then 1 else 0) /\
    ran s' ++ owed s' ≡ₚ wanted [x] [r] ++ ran s ++ owed s /\
    map snd (creates (hist s')) = rev r ++ map snd (creates (hist s)) /\
    attrs_live (hist s') = attrs_live (hist s).
Proof.
  intros O. destruct x as [a fn arg | k |]; cbn [step is_create].
  - destruct (pthread_create_total s a fn arg O) as (s' & rc & -> & [(a' & [A B C D E]) L]). cbn [mbind outcome_bind].
    exists s', [rc]. split; [reflexivity |]. split; [exact A |]. split; [exact E |]. split; [| split; [rewrite D; reflexivity | exact L]].
    cbn [wanted]. rewrite app_nil_r, B, C. rewrite !app_assoc. apply Permutation_app_tail, Permutation_app_comm.
  - destruct (start_thread_spec s k O) as (s' & -> & A & B & C & D & E). cbn [mbind outcome_bind].
    exists s', []. split; [reflexivity |]. split; [exact A |]. split; [lia |]. split; [exact C |]. split; [rewrite D; reflexivity | exact E].
  - destruct (resolveFloor H s) as [s' v] eqn:E. pose proof (quiet_floor _ _ _ E) as Q.
    exists s', []. split; [reflexivity |]. split; [exact (quiet_ok _ _ _ Q O) |].
    pose proof (quiet_owed _ _ _ Q) as W. destruct Q as [_ _ _ Q4 Q5 Q6 Q7].
    split; [lia |]. split; [rewrite W, Q5; reflexivity |]. split; [rewrite Q6; reflexivity | lia].
Qed.

Lemma wanted_cons x xs r rs : wanted (x :: xs) (r :: rs) = wanted [x] [r] ++ wanted xs rs.
Proof. destruct x; cbn; try reflexivity. destruct r as [| rc [| ? ?]]; try reflexivity. rewrite app_nil_r. reflexivity. Qed.

Lemma threads_run_spec xs : forall s, ok s ->
  exists s' rs, run H s xs = Ok (s', rs) /\ ok s' /\
    g_created s' = g_created s + Z.of_nat (length (List.filter is_create xs)) /\
    ran s' ++ owed s' ≡ₚ wanted xs rs ++ ran s ++ owed s /\
    map snd (creates (hist s')) = rev (concat rs) ++ map snd (creates (hist s)) /\
    attrs_live (hist s') = attrs_live (hist s).
Proof.
  induction xs as [| x xs IH]; intros s O; cbn [run].
  - exists s, []. split; [reflexivity |]. split; [exact O |]. cbn. split; [lia |]. auto.
  - destruct (threads_step_spec s x O) as (s1 & r & -> & O1 & N1 & P1 & C1 & L1). cbn [mbind outcome_bind].
    destruct (IH s1 O1) as (s2 & rs & -> & O2 & N2 & P2 & C2 & L2). cbn [mbind outcome_bind].
    exists s2, (r :: rs). split; [reflexivity |]. split; [exact O2 |]. split; [cbn [List.filter]; destruct (is_create x); cbn [length]; lia |].
    split; [| split; [| congruence]].
    + rewrite wanted_cons, P2, P1. rewrite !app_assoc. do 2 apply Permutation_app_tail. apply Permutation_app_comm.
    + rewrite C2, C1. cbn [concat]. rewrite rev_app_distr, <- app_assoc. reflexivity.
Qed.

Lemma threads_initial_ok : ok initial.
Proof. split; constructor. Qed.

(** C10: Whatever libkernel answers, and however creations and the starts of
    threads follow one another, no payload is used after it was freed or
    freed twice: the payloads alive are exactly those of the threads that
    have not started, and none is left when all have.  Every creation makes
    one call to libkernel and returns its answer, each thread that was
    created runs the caller's function on the caller's argument once and
    nothing else runs, and every attribute object that was initialised was
    destroyed. *)
Theorem thread_payloads (xs : list act) :
  exists s rs, run H initial xs = Ok (s, rs) /\
    omap sa_of (pending s) ≡ₚ map fst (heap s) /\ NoDup (map fst (heap s)) /\
    ran s ++ owed s ≡ₚ wanted xs rs /\ (pending s = [] -> heap s = [] /\ ran s ≡ₚ wanted xs rs) /\
    map snd (creates (hist s)) = rev (concat rs) /\
    g_created s = Z.of_nat (length (List.filter is_create xs)) /\ attrs_live (hist s) = 0.
Proof.
  destruct (threads_run_spec xs initial threads_initial_ok) as (s & rs & E & [O1 O2 _] & N & P & C & L).
  change (ran initial ++ owed initial) with (@nil (Z * Z)) in P. rewrite app_nil_r in P. cbn in C. rewrite app_nil_r in C.
  exists s, rs. split; [exact E |]. split; [exact O1 |]. split; [exact O2 |]. split; [exact P |]. split; [| auto].
  intros Hp. assert (Hh : heap s = []).
  { rewrite Hp in O1. cbn in O1. apply Permutation_nil in O1. destruct (heap s); [reflexivity | discriminate]. }
  split; [exact Hh |]. rewrite <- P. unfold owed. rewrite Hp, Hh. cbn. rewrite app_nil_r. reflexivity.
Qed.

(** ** The size *)

(** The attributes a creation should ask for: the caller's with a stack of at
    least [m] bytes. *)
Definition requested (m : Z) (a : option attr) : attr :=
  match a with
  | Some t => mk_attr (Z.max m (a_stack t)) (a_detach t) (a_guard t)
  | None => mk_attr m (a_detach (attr_default H)) (a_guard (attr_default H))
  end.

Definition is_attr_call (e : event) : bool := match e with Create _ _ | SigAltGet | SigAltSet => false | _ => true end.

Section Answers.
Context (M : Z) (Hm : 0 < M < SIZE_MAX) (Hmin : PTHREAD_STACK_MIN H <= M).
Context (Hself : forall h, self_stack H h = M) (Hattr : forall h e, is_attr_call e = true -> rc_of H h e = 0).

Lemma floor_answer s : g_floor s = SIZE_MAX \/ g_floor s = M ->
  snd (resolveFloor H s) = M /\ g_floor (fst (resolveFloor H s)) = M.
Proof.
  unfold resolveFloor, mainThreadStack, stackOfSelf, ask. intros Hf.
  destruct (Z.eqb_spec (g_floor s) SIZE_MAX) as [E | E]; cbn [negb].
  2: { destruct Hf as [Hf | Hf]; [contradiction |]. split; exact Hf. }
  rewrite !Hattr by reflexivity. cbn [Z.eqb negb]. rewrite Hself.
  assert (T : (M =? 0) = false) by (apply Z.eqb_neq; lia).
  assert (T2 : (M <? PTHREAD_STACK_MIN H) = false) by (apply Z.ltb_ge; lia).
  cbn [Z.eqb]. rewrite T, T2. cbn. auto.
Qed.

Lemma createThread_floor s a e sa s' rc : createThread H s a e sa = Ok (s', rc) -> g_floor s' = g_floor s.
Proof.
  unfold createThread, scePthreadCreate, ask. destruct (rc_of H (hist s) (Create a e) =? 0) eqn:E; cbv beta iota; rewrite E; cbn [negb].
  - intros [= <- _]. reflexivity.
  - unfold reportPoolFailure. destruct sa as [id |]; [unfold free_sa; destruct (list_find _ _) as [[i b] |]; [| discriminate] |];
      cbn [mbind outcome_bind]; intros [= <- _]; destruct (_ || _); reflexivity.
Qed.

(** When the main thread's stack can be read, a new thread never gets
    less: the one call to libkernel asks for the caller's attributes with the
    stack raised to the main thread's size if it was smaller, and for the
    default ones with that size when the caller gave none. *)
Theorem pthread_create_stack (s : state) (a : option attr) (fn arg : Z)
  (Hok : ok s) (Hf : g_floor s = SIZE_MAX \/ g_floor s = M) :
  exists s' rc a', pthread_create H s a fn arg = Ok (s', rc) /\ g_floor s' = M /\
    creates (hist s') = (Some a', rc) :: creates (hist s) /\ a' = requested M a.
Proof.
  unfold pthread_create. cbv zeta. pose proof (malloc_prepared (count_created s) fn arg) as P.
  assert (F : g_floor (fst (fst (if malloc_works H (hist (count_created s)) then
      let '(s0, id) := malloc_sa (count_created s) fn arg in (s0, Trampoline id, Some id)
      else (count_created s, Direct fn arg, None)))) = g_floor s) by (destruct (malloc_works _ _); reflexivity).
  destruct (if malloc_works H (hist (count_created s)) then _ else _) as [[s1 e] sa].
  destruct (P s eq_refl) as [P1 _]. clear P. cbn [fst] in F. rewrite <- F in Hf.
  destruct (floor_answer s1 Hf) as [V2 F2].
  destruct (resolveFloor H s1) as [s2 floor] eqn:E2. cbn [fst snd] in V2, F2. subst floor.
  pose proof (prepared_quiet _ _ _ _ _ _ _ _ P1 (quiet_floor _ _ _ E2)) as P2.
  rewrite (proj2 (Z.eqb_neq M 0)) by lia.
  unfold want_of, ask. rewrite Hattr by reflexivity. cbn [Z.eqb].
  set (s3 := match a with Some _ => log s2 AttrGetStack | None => s2 end).
  set (want := match a with Some t => a_stack t | None => 0 end).
  replace (match a with Some a0 => (log s2 AttrGetStack, a_stack a0) | None => (s2, 0) end) with (s3, want)
    by (destruct a; reflexivity).
  assert (Q3 : quiet 0 s2 s3) by (unfold s3; destruct a; [apply quiet_log; reflexivity | apply quiet_refl]).
  pose proof (prepared_quiet _ _ _ _ _ _ _ _ P2 Q3) as P3.
  assert (F3 : g_floor s3 = M) by (unfold s3; destruct a; exact F2).
  destruct (Z.leb_spec M want) as [Hw | Hw].
  - destruct (createThread_spec _ _ a _ _ _ _ Hok P3) as (s4 & rc & E4 & [_ _ _ C4 _] & _).
    assert (Ha : a = Some (requested M a)).
    { unfold want in Hw. destruct a as [t |]; [| lia]. cbn. rewrite Z.max_r by exact Hw. destruct t; reflexivity. }
    exists s4, rc, (requested M a). split; [exact E4 |]. split; [rewrite (createThread_floor _ _ _ _ _ _ E4); exact F3 |].
    rewrite <- Ha. auto.
  - rewrite !Hattr by reflexivity. cbn [Z.eqb negb].
    set (s4 := log s3 AttrInit). pose proof (prepared_quiet _ _ _ _ _ _ _ _ P3 (quiet_init s3)) as P4.
    destruct (carry H s4 a (attr_default H)) as [s5 raised] eqn:E5.
    pose proof (prepared_quiet _ _ _ _ _ _ _ _ P4 (quiet_carry _ _ _ _ _ E5)) as P5.
    assert (R : g_floor s5 = M /\ mk_attr M (a_detach raised) (a_guard raised) = requested M a).
    { unfold carry, carry_detach, carry_guard, ask in E5. destruct a as [t |]; cbn in E5; repeat (rewrite !Hattr in E5 by reflexivity; cbn in E5); injection E5 as <- <-; (split; [exact F3 |]); [| reflexivity].
      unfold want in Hw. cbn. rewrite Z.max_l by lia. reflexivity. }
    destruct R as [F5 R]. rewrite Hattr by reflexivity. cbn [Z.eqb].
    set (s6 := log s5 AttrSetStack).
    pose proof (prepared_quiet _ _ _ _ _ _ _ _ P5 (quiet_log s5 AttrSetStack eq_refl)) as P6. rewrite R.
    destruct (createThread_spec _ _ (Some (requested M a)) _ _ _ _ Hok P6) as (s7 & rc & E7 & [_ _ _ C7 _] & _).
    pose proof (createThread_floor _ _ _ _ _ _ E7) as F7. fold s6 in E7, F7. rewrite E7. cbn [mbind outcome_bind].
    eexists _, rc, (requested M a). split; [reflexivity |].
    destruct (true && (rc =? 0)); (match goal with |- context [if ?b then _ else _] => destruct b end); cbn; rewrite ?F7; auto.
Qed.

End Answers.

End Host.

(** ** The alternate stack *)

(** Every page of the 64 KiB that a signal frame may use was written
    before the kernel was given them, wherever the array starts. *)
Theorem alt_stack_resident (alt page : Z) (Hpage : page < alt + kAltStackSize) (Hover : alt < page + 16 * 1024) :
  exists i, In i touched /\ 0 <= i < kAltStackSize /\ page <= alt + i < page + 16 * 1024.
Proof.
  assert (T : touched = [0; 16384; 32768; 49152; 65535]) by (vm_compute; reflexivity). rewrite T.
  unfold kAltStackSize in *. destruct (Z.le_gt_cases (alt + 49152) page) as [H1 | H1].
  { exists 65535. split; [cbn; tauto | lia]. }
  destruct (Z.le_gt_cases page alt) as [H2 | H2]; [exists 0; split; [cbn; tauto | lia] |].
  destruct (Z.le_gt_cases page (alt + 16384)) as [H3 | H3]; [exists 16384; split; [cbn; tauto | lia] |].
  destruct (Z.le_gt_cases page (alt + 32768)) as [H4 | H4]; [exists 32768; split; [cbn; tauto | lia] |].
  exists 49152. split; [cbn; tauto | lia].
Qed.

Lemma alt_stack_resident_witness :
  16384 < 100 + kAltStackSize /\ 100 < 16384 + 16 * 1024 /\
  exists i, In i touched /\ 0 <= i < kAltStackSize /\ 16384 <= 100 + i < 16384 + 16 * 1024.
Proof.
  split; [vm_compute; reflexivity |]. split; [vm_compute; reflexivity |].
  apply (alt_stack_resident 100 16384); vm_compute; reflexivity.
Defined.

(** ** A console *)

Definition console : host :=
  mk_host (fun _ e => match e with Create _ (Trampoline 2) => 35 | _ => 0 end) (fun _ => 2097152)
    (fun h => negb (bool_decide (length h = 0%nat))) (fun _ => true) (mk_attr 65536 0 4096) 2048.

Lemma pthread_create_stack_witness :
  ok initial /\ exists s' rc a', pthread_create console initial (Some (mk_attr 65536 1 8192)) 7 9 = Ok (s', rc) /\
    g_floor s' = 2097152 /\ creates console (hist s') = (Some a', rc) :: creates console (hist initial) /\
    a' = mk_attr 2097152 1 8192.
Proof.
  split; [exact threads_initial_ok |].
  apply (pthread_create_stack console 2097152).
  - split; vm_compute; reflexivity.
  - vm_compute. discriminate.
  - reflexivity.
  - intros h e He. destruct e; try reflexivity. discriminate.
  - exact threads_initial_ok.
  - left. reflexivity.
Defined.

(** The report of the callers stays inside its buffer. *)
Lemma callers_bound size texts : forall first text, Z.of_nat (length text) < size ->
  Z.of_nat (length (callers_from size first text texts)) < size.
Proof.
  induction texts as [| t texts IH]; intros first text Hl; cbn [callers_from]; [exact Hl |].
  set (piece := _ ++ t). destruct (Z.leb_spec (size - Z.of_nat (length text)) (Z.of_nat (length piece))) as [Hp | Hp].
  - rewrite length_app, length_take. lia.
  - apply IH. rewrite length_app. lia.
Qed.
