(* ===== verification/ThreadProbe.v ===== *)
(** The probe of thread stacks at boot in [src/orbis_thread.cpp].  It goes
    through [pthread_create] of [Thread] like any caller; the new thread's body
    reads its own stack while its creator waits in [pthread_join]. *)
From stdpp Require Import prelude list numbers.
From S2P Require Import Prelude Thread ThreadProps.
Open Scope Z_scope.

Module ThreadProbe.

Inductive verdict := TooSmall (kib : Z) | Raised (kib : Z) | Inconclusive (rc : Z).

Record report := mk_report {
  claimed : Z; rcFresh : Z; rcClaim : Z; self : Z; rcSelf : Z; viaNull : Z; rcNull : Z; viaAttr : Z; rcAttr : Z;
  floor_kib : Z; the_verdict : verdict }.

Section probe.
Context (H : host) (body : Z).

(** The result is the code and the size that [probeBody], at address [body],
    put into its [Result]. *)
Definition probeBody (s : state) : state * Z * Z := stackOfSelf H s.

Definition stackOfNewThread (s : state) (a : option attr) : outcome (state * Z * Z) :=
  '(s, rcCreate) ← pthread_create H s a body 0;
  if negb (rcCreate =? 0) then Ok (s, rcCreate, 0)
  else s ← start_thread H s (length (pending s) - 1); Ok (probeBody s).

Definition verdict_of (viaNull rcNull : Z) : verdict :=
  if negb (viaNull =? 0) && (viaNull <? 256 * 1024) then TooSmall (viaNull / 1024)
  else if negb (viaNull =? 0) then Raised (viaNull / 1024)
  else Inconclusive rcNull.

(** What a fresh attribute object claims, with the code. *)
Definition freshClaim (s : state) (rcFresh : Z) : state * Z * Z :=
  if rcFresh =? 0 then
    let '(s, rc) := ask H s AttrGetStack in (s, rc, if rc =? 0 then a_stack (attr_default H) else 0)
  else (s, rcFresh, 0).

Definition threadStackProbe (s : state) : outcome (state * option report) :=
  if negb (orbis_log_enabled H (hist s)) then Ok (s, None) else
  let '(s, rcFresh) := ask H s AttrInit in
  let '(s, rcClaim, claimed) := freshClaim s rcFresh in
  let '(s, rcSelf, self) := stackOfSelf H s in
  '(s, rcNull, viaNull) ← stackOfNewThread s None;
  '(s, rcAttr, viaAttr) ← (if rcFresh =? 0 then stackOfNewThread s (Some (attr_default H)) else Ok (s, 0, 0));
  let s := if rcFresh =? 0 then log s AttrDestroy else s in
  let '(s, floor) := resolveFloor H s in
  Ok (s, Some (mk_report claimed rcFresh rcClaim self rcSelf viaNull rcNull viaAttr rcAttr (floor / 1024)
                 (verdict_of viaNull rcNull))).

(** What [g_defaultStack] is after a probe. *)
Definition threadDefaultStack (r : option report) : Z := match r with Some r => viaNull r | None => 0 end.
Definition threadStackFloor (s : state) : state * Z := resolveFloor H s.

End probe.
End ThreadProbe.

Section probe_safety.
Import ThreadProbe.
Context (H : host) (body : Z).

(** [s'] comes after [s] with [n] more threads of the probe and [d] more
    attribute objects. *)
Record probed (n : nat) (d : Z) (s s' : state) : Prop := {
  pb_ok : ok s';
  pb_threads : ran s' ++ owed s' ≡ₚ replicate n (body, 0) ++ ran s ++ owed s;
  pb_attrs : attrs_live H (hist s') = attrs_live H (hist s) + d }.

Lemma probed_quiet n d d' s s1 s2 : probed n d s s1 -> quiet H d' s1 s2 -> probed n (d + d') s s2.
Proof.
  intros [A B C] Q. split; [by eapply quiet_ok|rewrite (quiet_owed _ _ _ _ Q), (q_ran _ _ _ _ Q); exact B|].
  rewrite (q_live _ _ _ _ Q). lia.
Qed.

Lemma probed_trans n1 n2 d1 d2 s s1 s2 : probed n1 d1 s s1 -> probed n2 d2 s1 s2 -> probed (n1 + n2) (d1 + d2) s s2.
Proof.
  intros [A B C] [A' B' C']. split; [done| |lia]. rewrite B', B, replicate_add, !app_assoc.
  do 2 apply Permutation_app_tail. apply Permutation_app_comm.
Qed.

Lemma stackOfNewThread_total s a : ok s ->
  exists s' rc sz n, stackOfNewThread H body s a = Ok (s', rc, sz) /\ probed n 0 s s' /\ (n <= 1)%nat.
Proof.
  intros O. unfold stackOfNewThread.
  destruct (pthread_create_total H s a body 0 O) as (s1 & rc & -> & [(a' & [A B C D E]) L]). rewrite bind_ok.
  destruct (rc =? 0) eqn:Erc; cbn [negb].
  - destruct (start_thread_spec H s1 (length (pending s1) - 1) A) as (s2 & -> & A2 & _ & P2 & _ & L2).
    rewrite bind_ok. unfold probeBody. destruct (stackOfSelf H s2) as [[s3 rc3] sz] eqn:Es.
    pose proof (quiet_self _ _ _ _ _ Es) as Q. exists s3, rc3, sz, 1%nat. split; [done|]. split; [|lia].
    apply (probed_quiet 1 0 0 s s2); [|exact Q]. split; [done| |lia].
    rewrite P2, B, C. cbn. rewrite Permutation_middle. done.
  - exists s1, rc, 0, 0%nat. split; [done|]. split; [|lia]. split; [done|by rewrite B, C|lia].
Qed.

(** The probe never faults and leaves the threads as it found them: it starts
    at most two threads of its own, every payload still belongs to exactly
    one thread that has not run, and no attribute object is left; a thread's
    stack is called too small exactly when it was read and is below 256 KiB. *)
Theorem threadStackProbe_correct s : ok s ->
  exists s' r n, threadStackProbe H body s = Ok (s', r) /\ probed n 0 s s' /\ (n <= 2)%nat /\
    match r with
    | None => s' = s
    | Some r => match the_verdict r with
                | TooSmall k => (viaNull r <> 0 /\ viaNull r < 256 * 1024) /\ k = viaNull r / 1024
                | Raised k => 256 * 1024 <= viaNull r /\ k = viaNull r / 1024
                | Inconclusive rc => viaNull r = 0 /\ rc = rcNull r
                end
    end.
Proof.
  intros O. unfold threadStackProbe.
  assert (probed 0 0 s s) as P0 by (split; [done|done|lia]).
  destruct (orbis_log_enabled H (hist s)); cbn [negb]; [|exists s, None, 0%nat; auto with lia].
  unfold ask at 1. pose proof (quiet_init H s) as Q1. set (s1 := log s AttrInit) in *.
  set (rcF := rc_of H (hist s) AttrInit) in *.
  destruct (freshClaim H s1 rcF) as [[s2 rcClaim] claimed0] eqn:E2.
  assert (quiet H 0 s1 s2) as Q2.
  { unfold freshClaim in E2. destruct (rcF =? 0); [|injection E2 as <- _ _; apply quiet_refl].
    unfold ask in E2. injection E2 as <- _ _. by apply quiet_log. }
  destruct (stackOfSelf H s2) as [[s3 rcS] self0] eqn:E3. pose proof (quiet_self _ _ _ _ _ E3) as Q3.
  pose proof (probed_quiet _ _ _ _ _ _ (probed_quiet _ _ _ _ _ _ (probed_quiet _ _ _ _ _ _ P0 Q1) Q2) Q3) as P3.
  destruct (stackOfNewThread_total s3 None (pb_ok _ _ _ _ P3)) as (s4 & rcN & viaN & n1 & -> & P4 & Hn1).
  rewrite bind_ok. pose proof (probed_trans _ _ _ _ _ _ _ P3 P4) as P34.
  assert (exists s5 rcA viaA n2, (if rcF =? 0 then stackOfNewThread H body s4 (Some (attr_default H)) else Ok (s4, 0, 0)) =
    Ok (s5, rcA, viaA) /\ probed n2 0 s4 s5 /\ (n2 <= 1)%nat) as (s5 & rcA & viaA & n2 & -> & P5 & Hn2).
  { destruct (rcF =? 0); [apply stackOfNewThread_total, P34|]. exists s4, 0, 0, 0%nat. split; [done|]. split; [|lia].
    split; [apply P34|done|lia]. }
  rewrite bind_ok. pose proof (probed_trans _ _ _ _ _ _ _ P34 P5) as P35.
  set (s6 := if rcF =? 0 then log s5 AttrDestroy else s5).
  assert (quiet H (if rcF =? 0 then -1 else 0) s5 s6) as Q6 by (unfold s6; destruct (rcF =? 0); [apply quiet_destroy|apply quiet_refl]).
  destruct (resolveFloor H s6) as [s7 fl] eqn:E7. pose proof (quiet_floor _ _ _ _ E7) as Q7.
  pose proof (probed_quiet _ _ _ _ _ _ (probed_quiet _ _ _ _ _ _ P35 Q6) Q7) as P7.
  eexists s7, (Some _), _. split; [reflexivity|]. split.
  { match type of P7 with probed ?n ?d _ _ => replace 0 with d; [exact P7|] end. destruct (rcF =? 0); lia. }
  split; [lia|]. cbn [the_verdict ThreadProbe.viaNull ThreadProbe.rcNull]. unfold verdict_of.
  destruct (Z.eqb_spec viaN 0); cbn [negb andb]; [done|]. destruct (Z.ltb_spec viaN (256 * 1024)); split; lia.
Qed.

End probe_safety.

Example probe_demo :
  match ThreadProbe.threadStackProbe console 77 initial with
  | Ok (s, Some r) => (ran s, ThreadProbe.viaNull r, ThreadProbe.the_verdict r) = ([(77, 0); (77, 0)], 2097152, ThreadProbe.Raised 2048)
  | _ => False
  end.
Proof. vm_compute. reflexivity. Qed.
