(* ===== verification/Clock.v ===== *)
(** [src/orbis_clock.cpp]: [clock_gettime] over the process's counter.

    The kernel's clocks are functions of the number of calls made to them so
    far.  The ids are those of the SDK's <time.h>.  The probe is in [ClockProbe]. *)
From stdpp Require Import prelude list numbers.
From S2P Require Import Prelude UmtxTime.
Open Scope Z_scope.

Module Clock.

Definition EFAULT : Z := 14.

Record ClockBase := mk_base { freq : Z; origin : Z }.

(** A console's clocks; [sceKernelGettimeofday] gives seconds and
    microseconds when it does not fail. *)
Record clocks := mk_clocks {
  sceKernelGetProcessTimeCounterFrequency : Z;
  sceKernelGetProcessTimeCounter : nat -> Z;
  sceKernelGetProcessTime : nat -> Z;
  sceKernelGettimeofday : nat -> option (Z * Z) }.

Record ids := mk_ids {
  CLOCK_REALTIME : Z; CLOCK_REALTIME_COARSE : Z; CLOCK_MONOTONIC : Z; CLOCK_MONOTONIC_RAW : Z;
  CLOCK_MONOTONIC_COARSE : Z; CLOCK_BOOTTIME : Z }.

Record state := mk_state {
  base : option ClockBase; asked : nat; clkMonotonic : Z; clkRealtime : Z;
  unknownId : Z; unknownIdSeen : bool; errno : Z }.

Definition initial : state := mk_state None 0 0 0 (-1) false 0.

Definition ask (s : state) := mk_state (base s) (S (asked s)) (clkMonotonic s) (clkRealtime s) (unknownId s) (unknownIdSeen s) (errno s).
Definition set_base (s : state) b := mk_state (Some b) (asked s) (clkMonotonic s) (clkRealtime s) (unknownId s) (unknownIdSeen s) (errno s).
Definition set_errno (s : state) e := mk_state (base s) (asked s) (clkMonotonic s) (clkRealtime s) (unknownId s) (unknownIdSeen s) e.
Definition count_mono (s : state) := mk_state (base s) (asked s) (u64 (clkMonotonic s + 1)) (clkRealtime s) (unknownId s) (unknownIdSeen s) (errno s).
Definition count_real (s : state) := mk_state (base s) (asked s) (clkMonotonic s) (u64 (clkRealtime s + 1)) (unknownId s) (unknownIdSeen s) (errno s).
Definition saw (s : state) id := mk_state (base s) (asked s) (clkMonotonic s) (clkRealtime s) id true (errno s).

Section Clocks.
Context (K : clocks) (I : ids).

Definition clockBase (s : state) : state * ClockBase :=
  match base s with
  | Some b => (s, b)
  | None =>
      let b := mk_base (sceKernelGetProcessTimeCounterFrequency K) (sceKernelGetProcessTimeCounter K (asked s)) in
      (set_base (ask s) b, b)
  end.

Definition monotonicNow (s : state) : state * timespec :=
  let '(s, b) := clockBase s in
  if freq b =? 0 then
    let us := sceKernelGetProcessTime K (asked s) in
    (ask s, mk_ts (us / 1000000) ((us mod 1000000) * 1000))
  else
    let d := u64 (sceKernelGetProcessTimeCounter K (asked s) - origin b) in
    (ask s, mk_ts (d / freq b) (u64 ((d mod freq b) * 1000000000) / freq b)).

Definition realtimeNow (s : state) : state * option timespec :=
  match sceKernelGettimeofday K (asked s) with
  | None => (ask s, None)
  | Some (sec, usec) => (ask s, Some (mk_ts sec (usec * 1000)))
  end.

Definition orbis_clock_counts (s : state) : Z * Z := (clkMonotonic s, clkRealtime s).

Definition is_mono (id : Z) : bool :=
  (id =? CLOCK_MONOTONIC I) || (id =? CLOCK_MONOTONIC_RAW I) || (id =? CLOCK_MONOTONIC_COARSE I) || (id =? CLOCK_BOOTTIME I).
Definition is_real (id : Z) : bool := (id =? CLOCK_REALTIME I) || (id =? CLOCK_REALTIME_COARSE I).

(** The code, and the time when it is 0. *)
Definition clock_gettime (s : state) (id : Z) (has_ts : bool) : state * Z * option timespec :=
  if negb has_ts then (set_errno s EFAULT, -1, None)
  else if is_mono id then let '(s, t) := monotonicNow (count_mono s) in (s, 0, Some t)
  else if is_real id then
    match realtimeNow (count_real s) with
    | (s, Some t) => (s, 0, Some t)
    | (s, None) => (s, -1, None)
    end
  else
    let s := if unknownIdSeen s then s else saw s id in
    let '(s, t) := monotonicNow s in (s, 0, Some t).

Fixpoint run (s : state) (calls : list (Z * bool)) : state * list (Z * option timespec) :=
  match calls with
  | [] => (s, [])
  | (id, o) :: r => let '(s, rc, t) := clock_gettime s id o in let '(s, ts) := run s r in (s, (rc, t) :: ts)
  end.

(** ** What the readings are *)

(** The counter never goes back, and a second of it is representable in
    nanoseconds. *)
Record steady : Prop := {
  st_freq : 0 <= sceKernelGetProcessTimeCounterFrequency K /\ sceKernelGetProcessTimeCounterFrequency K * giga < 2 ^ 64;
  st_counter : forall i j, (i <= j)%nat -> 0 <= sceKernelGetProcessTimeCounter K i <= sceKernelGetProcessTimeCounter K j;
  st_counter_64 : forall i, sceKernelGetProcessTimeCounter K i < 2 ^ 64;
  st_time : forall i j, (i <= j)%nat -> 0 <= sceKernelGetProcessTime K i <= sceKernelGetProcessTime K j }.

(** The reading after [n] questions when the first use was after [o]. *)
Definition elapsed (o n : nat) : Z :=
  if sceKernelGetProcessTimeCounterFrequency K =? 0 then sceKernelGetProcessTime K n * 1000
  else (sceKernelGetProcessTimeCounter K n - sceKernelGetProcessTimeCounter K o) * giga
         / sceKernelGetProcessTimeCounterFrequency K.

Definition based (s : state) (o : nat) : Prop :=
  base s = Some (mk_base (sceKernelGetProcessTimeCounterFrequency K) (sceKernelGetProcessTimeCounter K o)) /\ (o < asked s)%nat.

Lemma split_second d f : 0 <= d -> 0 < f -> f * giga < 2 ^ 64 ->
  let t := mk_ts (d / f) (u64 ((d mod f) * 1000000000) / f) in ns t = d * giga / f /\ 0 <= tv_nsec t < giga.
Proof.
  intros Hd Hf Hb. cbv zeta. unfold ns, giga in *. cbn [tv_sec tv_nsec].
  pose proof (Z.mod_pos_bound d f Hf) as Hm. rewrite u64_small by nia. split.
  - rewrite (Z.div_mod d f) at 3 by lia.
    replace ((f * (d / f) + d mod f) * 1000000000) with (d mod f * 1000000000 + (d / f * 1000000000) * f) by ring.
    rewrite Z.div_add by lia. lia.
  - split; [apply Z.div_pos; lia | apply Z.div_lt_upper_bound; nia].
Qed.

Lemma monotonicNow_spec s o : steady -> base s = None /\ o = asked s \/ based s o ->
  let '(s', t) := monotonicNow s in
  based s' o /\ (asked s < asked s')%nat /\ ns t = elapsed o (asked s' - 1) /\ 0 <= tv_nsec t < giga.
Proof.
  intros [[F1 F2] C1 C2 T1] Hb. unfold monotonicNow.
  assert (E : exists s1, clockBase s = (s1, mk_base (sceKernelGetProcessTimeCounterFrequency K) (sceKernelGetProcessTimeCounter K o)) /\
    based s1 o /\ (asked s <= asked s1)%nat).
  { unfold clockBase, based. destruct Hb as [[Hb ->] | [Hb Ho]]; rewrite Hb; (eexists; split; [reflexivity |]); cbn; [| rewrite Hb]; auto with lia. }
  destruct E as (s1 & -> & [B1 B2] & L). cbn [freq origin]. unfold elapsed.
  destruct (Z.eqb_spec (sceKernelGetProcessTimeCounterFrequency K) 0) as [E0 | E0].
  - split; [split; [exact B1 | cbn; lia] |]. split; [cbn; lia |]. cbn [ask asked]. rewrite Nat.sub_succ, Nat.sub_0_r.
    destruct (T1 (asked s1) (asked s1)) as [Tp _]; [lia |]. set (us := sceKernelGetProcessTime K (asked s1)) in *.
    unfold ns, giga. cbn [tv_sec tv_nsec].
    pose proof (Z.div_mod us 1000000 ltac:(lia)). pose proof (Z.mod_pos_bound us 1000000 ltac:(lia)). lia.
  - split; [split; [exact B1 | cbn; lia] |]. split; [cbn; lia |]. cbn [ask asked]. rewrite Nat.sub_succ, Nat.sub_0_r.
    pose proof (C1 o (asked s1) ltac:(lia)) as Hc. pose proof (C2 (asked s1)) as Hc2.
    rewrite u64_small by lia. apply split_second; lia.
Qed.

Lemma elapsed_mono o i j : steady -> (i <= j)%nat -> elapsed o i <= elapsed o j.
Proof.
  intros [[F1 F2] C1 C2 T1] Hij. unfold elapsed. destruct (Z.eqb_spec (sceKernelGetProcessTimeCounterFrequency K) 0).
  - pose proof (T1 i j Hij). lia.
  - apply Z.div_le_mono; [lia |]. apply Z.mul_le_mono_nonneg_r; [unfold giga; lia |]. pose proof (C1 i j Hij). lia.
Qed.

(** The times of the calls that ask for anything but the wall clock. *)
Definition steady_call (c : Z * bool) : bool := snd c && (is_mono (fst c) || negb (is_real (fst c))).
Fixpoint steady_times (calls : list (Z * bool)) (outs : list (Z * option timespec)) : list (option timespec) :=
  match calls, outs with
  | c :: cs, (_, t) :: os => if steady_call c then t :: steady_times cs os else steady_times cs os
  | _, _ => []
  end.

(** Each a normal time, none before the last. *)
Fixpoint rising (last : Z) (l : list (option timespec)) : Prop :=
  match l with
  | [] => True
  | Some t :: r => last <= ns t /\ 0 <= tv_nsec t < giga /\ rising (ns t) r
  | None :: _ => False
  end.

Lemma rising_weaken l : forall a b, a <= b -> rising b l -> rising a l.
Proof. destruct l as [| [t |] l]; intros a b Hab; cbn; [auto | | auto]. intros (H1 & H2 & H3). split; [lia | auto]. Qed.

(** Calls do not move the origin, nor the number of questions back. *)
Lemma call_other s id o : steady_call (id, o) = false ->
  let '(s', _, _) := clock_gettime s id o in base s' = base s /\ (asked s <= asked s')%nat.
Proof.
  unfold steady_call, clock_gettime; cbn [fst snd]. destruct o; cbn [andb negb]; [| cbn; auto].
  destruct (is_mono id); [discriminate |]. cbn [orb]. destruct (is_real id); [| discriminate]. intros _.
  unfold realtimeNow. destruct (sceKernelGettimeofday K (asked (count_real s))) as [[sec usec] |]; cbn; auto with lia.
Qed.

Lemma call_steady s id o n : steady -> steady_call (id, o) = true -> base s = None /\ n = asked s \/ based s n ->
  exists s' t, clock_gettime s id o = (s', 0, Some t) /\ based s' n /\ (asked s < asked s')%nat /\
    ns t = elapsed n (asked s' - 1) /\ 0 <= tv_nsec t < giga.
Proof.
  intros St Hc Hb. unfold steady_call in Hc; cbn [fst snd] in Hc. apply andb_prop in Hc as [-> Hc].
  unfold clock_gettime; cbn [negb]. destruct (is_mono id); cbn [orb] in Hc.
  - pose proof (monotonicNow_spec (count_mono s) n St Hb) as M. destruct (monotonicNow (count_mono s)) as [s' t].
    exists s', t. split; [reflexivity | exact M].
  - destruct (is_real id); [discriminate |].
    set (s1 := if unknownIdSeen s then s else saw s id).
    assert (E : base s1 = base s /\ asked s1 = asked s) by (unfold s1; destruct (unknownIdSeen s); auto).
    destruct E as [E1 E2]. unfold based in Hb. rewrite <- E1, <- E2 in Hb.
    pose proof (monotonicNow_spec s1 n St Hb) as M. rewrite E2 in M. destruct (monotonicNow s1) as [s' t].
    exists s', t. split; [reflexivity | exact M].
Qed.

Lemma run_rising calls : steady -> forall s n last, based s n -> last <= elapsed n (asked s) ->
  rising last (steady_times calls (snd (run s calls))).
Proof.
  intros St. induction calls as [| [id o] calls IH]; intros s n last Hb Hl; [exact Logic.I |]. cbn [run].
  destruct (steady_call (id, o)) eqn:Hc.
  - destruct (call_steady s id o n St Hc (or_intror Hb)) as (s' & t & -> & B & L & E & N).
    specialize (IH s' n (ns t) B). destruct (run s' calls) as [s2 ts]. cbn [snd steady_times] in *. rewrite Hc.
    assert (X : elapsed n (asked s) <= ns t) by (rewrite E; apply elapsed_mono; [exact St | lia]).
    assert (Y : ns t <= elapsed n (asked s')) by (rewrite E; apply elapsed_mono; [exact St | lia]).
    cbn [rising]. split; [lia |]. split; [exact N | apply IH, Y].
  - pose proof (call_other s id o Hc) as O. destruct (clock_gettime s id o) as [[s' rc] t]. destruct O as [O1 O2].
    specialize (IH s' n last). destruct (run s' calls) as [s2 ts]. cbn [snd steady_times] in *. rewrite Hc.
    apply IH; [destruct Hb as [B1 B2]; split; [congruence | lia] |].
    pose proof (elapsed_mono n _ _ St O2). lia.
Qed.

(** C24: As long as the console's counter does not go back, no sequence of
    calls ever sees time go back: each call that asks for anything but the
    wall clock succeeds and reads a normal time at or after the last such
    one, from zero on, and the readings are the counter's advance since the
    first use to the nanosecond, rounded down, without overflow. *)
Theorem clock_gettime_rises (calls : list (Z * bool)) (St : steady) :
  rising 0 (steady_times calls (snd (run initial calls))) /\
  forall s id o, steady_call (id, o) = true -> forall n, base s = None /\ n = asked s \/ based s n ->
    exists s' t, clock_gettime s id o = (s', 0, Some t) /\ based s' n /\ ns t = elapsed n (asked s' - 1).
Proof.
  split.
  - assert (G : forall s, base s = None -> rising 0 (steady_times calls (snd (run s calls)))); [| apply G; reflexivity].
    induction calls as [| [id o] r IH]; intros s Hs; [exact Logic.I |]. cbn [run].
    destruct (steady_call (id, o)) eqn:Hc.
    + destruct (call_steady s id o (asked s) St Hc (or_introl (conj Hs eq_refl))) as (s' & t & -> & B & L & E & N).
      assert (Y : ns t <= elapsed (asked s) (asked s')) by (rewrite E; apply elapsed_mono; [exact St | lia]).
      assert (Z0 : 0 <= ns t).
      { rewrite E. unfold elapsed. destruct (Z.eqb_spec (sceKernelGetProcessTimeCounterFrequency K) 0).
        - pose proof (st_time St (asked s' - 1) (asked s' - 1)). lia.
        - pose proof (st_counter St (asked s) (asked s' - 1)). pose proof (st_freq St).
          apply Z.div_pos; [unfold giga; lia | lia]. }
      pose proof (run_rising r St s' (asked s) (ns t) B Y) as R. destruct (run s' r) as [s2 ts].
      cbn [snd steady_times] in *. rewrite Hc. cbn [rising]. auto.
    + pose proof (call_other s id o Hc) as O. destruct (clock_gettime s id o) as [[s' rc] t]. destruct O as [O1 O2].
      specialize (IH s'). destruct (run s' r) as [s2 ts]. cbn [snd steady_times] in *. rewrite Hc. apply IH. congruence.
  - intros s id o Hc n Hb. destruct (call_steady s id o n St Hc Hb) as (s' & t & E & B & _ & N & _). eauto.
Qed.

End Clocks.

(** A counter of 1.6 GHz that is read 100 ticks apart, below its width. *)
Definition ps4_ids : ids := mk_ids 0 10 4 11 12 7.

Definition ps4_capped : clocks :=
  mk_clocks 1600000000 (fun n => Z.min (2 ^ 63) (5000 + 100 * Z.of_nat n)) (fun n => Z.of_nat n) (fun _ => None).

Lemma clock_gettime_rises_witness :
  steady ps4_capped /\
  steady_times ps4_ids [(4, true); (0, true); (15, true)] (snd (run ps4_capped ps4_ids initial [(4, true); (0, true); (15, true)]))
    = [Some (mk_ts 0 62); Some (mk_ts 0 187)] /\
  rising 0 (steady_times ps4_ids [(4, true); (0, true); (15, true)]
    (snd (run ps4_capped ps4_ids initial [(4, true); (0, true); (15, true)]))).
Proof.
  assert (S : steady ps4_capped).
  { split; cbn [sceKernelGetProcessTimeCounterFrequency sceKernelGetProcessTimeCounter sceKernelGetProcessTime ps4_capped]; unfold giga; lia. }
  split; [exact S |]. split; [vm_compute; reflexivity |].
  apply (clock_gettime_rises ps4_capped ps4_ids [(4, true); (0, true); (15, true)] S).
Defined.

End Clock.
Export Clock.
