(* ===== verification/Shims.v ===== *)
(** The small adapters between the SDK's headers and the console:
    [include/sys/sysctl.h] and [src/orbis_sysconf.cpp] (the number of
    processors, which a knob of [Env] overrides), [include/signal.h] (the
    layout of [stack_t]), [include/sys/ioccom.h] (the numbers of ioctl
    requests) and [src/orbis_cv_fix.cpp] (timed waits of C++). *)
From Stdlib Require Import String.
From stdpp Require Import prelude gmap list numbers.
From S2P Require Import Prelude Memory Report UmtxTime Endian Backtrace Env.
Open Scope Z_scope.

Module Shims.

(** ** Processors *)

Definition CTL_HW : Z := 6.
Definition HW_NCPU : Z := 3.

(** [atoi] of the C library: white space, a sign, digits; a value that is not
    an [int] is undefined. *)
Fixpoint skip_space (s : list Z) : list Z :=
  match s with c :: r => if (c =? 32) || ((9 <=? c) && (c <=? 13)) then skip_space r else s | [] => [] end.
Fixpoint digits (acc : Z) (s : list Z) : Z :=
  match s with c :: r => if (48 <=? c) && (c <=? 57) then digits (10 * acc + (c - 48)) r else acc | [] => acc end.
Definition atoi (s : list Z) : outcome Z :=
  let v := match skip_space s with
           | 45 :: r => - digits 0 r
           | 43 :: r => digits 0 r
           | r => digits 0 r
           end in
  if (- 2 ^ 31 <=? v) && (v <? 2 ^ 31) then Ok v else Fault.

Definition orbis_hw_ncpu (H : Env.host) (fuel : nat) (g : env) : outcome (env * Z) :=
  '(g, e) ← orbis_env_get H fuel g (Some (bytes "ORBIS_NCPU"));
  match e with
  | Some (c :: r) =>
      n ← atoi (c :: r);
      Ok (g, if 0 <? n then n else 6)
  | _ => Ok (g, 6)
  end.

(** What a query leaves: the knobs read, the result, the memory and the
    caller's [*oldlen]. *)
Record query := mk_query { q_env : env; q_ret : Z; q_mem : mem; q_len : option Z }.

(** [old] is the buffer, 0 when null; [oldlen] the value of [*oldlen]. *)
Definition orbis_sysctl_ncpu (H : Env.host) (fuel : nat) (g : env) (m : mem) (old : Z) (oldlen : option Z) : outcome query :=
  match oldlen with
  | Some l =>
      if (old =? 0) || (l <? 4) then Ok (mk_query g (-1) m oldlen)
      else
        '(g, n) ← orbis_hw_ncpu H fuel g;
        m ← st_le m old 4 (u32 n);
        Ok (mk_query g 0 m (Some 4))
  | None => Ok (mk_query g (-1) m oldlen)
  end.

Definition sysctl (H : Env.host) (fuel : nat) (g : env) (m : mem) (name : option (list Z)) (namelen old : Z)
    (oldlen : option Z) : outcome query :=
  let refused := Ok (mk_query g (-1) m oldlen) in
  match name with
  | Some xs =>
      if 2 <=? namelen then
        a ← (match xs !! 0%nat with Some a => Ok a | None => Fault end);
        if a =? CTL_HW then
          b ← (match xs !! 1%nat with Some b => Ok b | None => Fault end);
          if b =? HW_NCPU then orbis_sysctl_ncpu H fuel g m old oldlen else refused
        else refused
      else refused
  | None => refused
  end.

Definition sysctlbyname (H : Env.host) (fuel : nat) (g : env) (m : mem) (name : option (list Z)) (old : Z)
    (oldlen : option Z) : outcome query :=
  if bool_decide (name = Some (bytes "hw.ncpu")) then orbis_sysctl_ncpu H fuel g m old oldlen
  else Ok (mk_query g (-1) m oldlen).

(** The local [int n], and the SDK's numbers and [sysconf] as parameters. *)
Definition n_cell : mem := write ∅ 16 [0; 0; 0; 0].
Definition load_int (m : mem) (p : Z) : outcome Z := v ← le32dec m p; Ok (s32 v).

Definition orbis_sysconf (ONLN CONF : Z) (sysconf : Z -> Z) (H : Env.host) (fuel : nat) (g : env) (name : Z) : outcome (env * Z) :=
  if (name =? ONLN) || (name =? CONF) then
    r ← sysctlbyname H fuel g n_cell (Some (bytes "hw.ncpu")) 16 (Some 4);
    n ← load_int (q_mem r) 16;
    Ok (q_env r, if (q_ret r =? 0) && (0 <? n) then n else 1)
  else Ok (g, sysconf name).

(** ** Signal stacks *)

Definition SS_DISABLE : Z := 4.

(** [stack_t] of the SDK and of the kernel, and the kernel's bytes. *)
Record stack_t := mk_stack { ss_sp : Z; ss_flags : Z; ss_size : Z }.
Record orbis_stack_bsd := mk_bsd { b_sp : Z; b_size : Z; b_flags : Z; b_pad : Z }.

(** The padding of the SDK's struct, which nothing fills, is taken as zero. *)
Definition sdk_bytes (s : stack_t) : list Z :=
  le_bytes 8 (ss_sp s) ++ le_bytes 4 (u32 (ss_flags s)) ++ [0; 0; 0; 0] ++ le_bytes 8 (ss_size s).
Definition bsd_bytes (s : orbis_stack_bsd) : list Z :=
  le_bytes 8 (b_sp s) ++ le_bytes 8 (b_size s) ++ le_bytes 4 (u32 (b_flags s)) ++ le_bytes 4 (u32 (b_pad s)).

Definition zero_bsd : orbis_stack_bsd := mk_bsd 0 0 0 0.

(** [kernel] is the system call: what it is given for [ss] and for the old
    stack, and its code with what it writes. *)
Definition orbis_sigaltstack (kernel : option orbis_stack_bsd -> option orbis_stack_bsd -> Z * orbis_stack_bsd)
    (ss : option stack_t) (oss : bool) : Z * option stack_t :=
  let in_ := match ss with Some s => mk_bsd (ss_sp s) (ss_size s) (ss_flags s) 0 | None => zero_bsd end in
  let '(rc, out) := kernel (match ss with Some _ => Some in_ | None => None end) (if oss then Some zero_bsd else None) in
  (rc, if oss then Some (mk_stack (b_sp out) (b_flags out) (b_size out)) else None).

(** ** Request numbers *)

Definition IOCPARM_SHIFT : Z := 13.
Definition IOCPARM_MASK : Z := Z.shiftl 1 IOCPARM_SHIFT - 1.
Definition IOCPARM_LEN (x : Z) : Z := Z.land (Z.shiftr x 16) IOCPARM_MASK.
Definition IOCBASECMD (x : Z) : Z := Z.land x (Z.lnot (Z.shiftl IOCPARM_MASK 16)).
Definition IOCGROUP (x : Z) : Z := Z.land (Z.shiftr x 8) 0xff.
Definition IOC_VOID : Z := 0x20000000.
Definition IOC_OUT : Z := 0x40000000.
Definition IOC_IN : Z := 0x80000000.
Definition IOC_INOUT : Z := Z.lor IOC_IN IOC_OUT.
Definition IOC_DIRMASK : Z := Z.lor (Z.lor IOC_VOID IOC_OUT) IOC_IN.
Definition _IOC (inout group num len : Z) : Z :=
  Z.lor (Z.lor (Z.lor inout (Z.shiftl (Z.land len IOCPARM_MASK) 16)) (Z.shiftl group 8)) num.
Definition _IO (g n : Z) : Z := _IOC IOC_VOID g n 0.
Definition _IOWINT (g n : Z) : Z := _IOC IOC_VOID g n 4.
Definition _IOR (g n size : Z) : Z := _IOC IOC_OUT g n size.
Definition _IOW (g n size : Z) : Z := _IOC IOC_IN g n size.
Definition _IOWR (g n size : Z) : Z := _IOC IOC_INOUT g n size.

(** ** Timed waits *)

Definition EPERM : Z := 1.
Definition CV_ETIMEDOUT : Z := 60.
Definition far : Z := 0x59682F000000E941.
Definition ts_sec_max : Z := 2 ^ 63 - 1.

(** A call returns, or throws a [system_error] out of a function declared
    [_NOEXCEPT], which ends the process. *)
Inductive cv_result := Returned | Terminated (ec : Z).

(** The deadline of [__do_timed_wait]; [duration_cast] rounds to zero. *)
Definition cv_deadline (tp : Z) : timespec :=
  let d := if far <? tp then far else tp in
  let s := Z.quot d giga in
  if s <? ts_sec_max then mk_ts s (d - s * giga) else mk_ts ts_sec_max 999999999.

(** The C library's signal and broadcast, on a condition variable's state;
    their codes are dropped. *)
Definition notify_one {cv : Type} (signal : cv -> cv * Z) (c : cv) : cv := fst (signal c).
Definition notify_all {cv : Type} (broadcast : cv -> cv * Z) (c : cv) : cv := fst (broadcast c).

(** [timedwait] is the C library's wait. *)
Definition __do_timed_wait (timedwait : timespec -> Z) (owns_lock : bool) (tp : Z) : cv_result :=
  if negb owns_lock then Terminated EPERM
  else
    let ec := timedwait (cv_deadline tp) in
    if negb (ec =? 0) && negb (ec =? CV_ETIMEDOUT) then Terminated ec else Returned.

Definition cv_wait (wait_ : Z) (owns_lock : bool) : cv_result :=
  if negb owns_lock then Terminated EPERM else if negb (wait_ =? 0) then Terminated wait_ else Returned.

End Shims.
Export Shims.

(** ** Processors: one answer on every path *)

Lemma atoi_range s n : atoi s = Ok n -> - 2 ^ 31 <= n < 2 ^ 31.
Proof.
  unfold atoi. set (v := match skip_space s with 45 :: _ => _ | 43 :: _ => _ | _ => _ end). clearbody v.
  destruct (Z.leb_spec (- 2 ^ 31) v); cbn [andb]; [|done].
  destruct (Z.ltb_spec v (2 ^ 31)); [|done]. intros [= <-]. lia.
Qed.

Lemma orbis_hw_ncpu_range H fuel g g' n : orbis_hw_ncpu H fuel g = Ok (g', n) -> 1 <= n < 2 ^ 31.
Proof.
  unfold orbis_hw_ncpu. destruct (orbis_env_get _ _ _ _) as [[g1 e]| |]; [|done|done]. cbn [mbind outcome_bind].
  destruct e as [[|c r]|]; [intros [= <- <-]; lia| |intros [= <- <-]; lia].
  destruct (atoi (c :: r)) as [k| |] eqn:E; [|done|done]. cbn [mbind outcome_bind]. apply atoi_range in E.
  destruct (Z.ltb_spec 0 k); intros [= <- <-]; lia.
Qed.

Lemma load_int_written n : 0 <= n < 2 ^ 31 -> load_int (write n_cell 16 (le_bytes 4 n)) 16 = Ok n.
Proof.
  intros Hn. unfold load_int.
  destruct (codec_dec (mk_codec 4 be32dec le32dec be32enc le32enc) (write n_cell 16 (le_bytes 4 n)) 16 (le_bytes 4 n))
    as [_ H]; [right; by left|apply le_bytes_length|apply le_bytes_byte|apply array_write|].
  cbn [le_dec] in H. rewrite H. rewrite bind_ok. fold (be_bytes 4 n). rewrite be_value_bytes by (cbn; lia).
  f_equal. unfold s32. rewrite Z.mod_small; lia.
Qed.

Lemma le_bytes_app i j v : le_bytes (i + j) v = le_bytes i v ++ le_bytes j (v / 2 ^ (8 * Z.of_nat i)).
Proof.
  revert v. induction i as [|i IH]; intros v; cbn [Nat.add le_bytes app].
  - change (2 ^ (8 * Z.of_nat 0)) with 1. by rewrite Z.div_1_r.
  - rewrite IH. do 3 f_equal. rewrite Z.div_div by lia. f_equal.
    change 256 with (2 ^ 8). rewrite <- Z.pow_add_r by lia. f_equal. lia.
Qed.

Lemma orbis_sysctl_ncpu_ok H fuel g m old l g' n :
  orbis_hw_ncpu H fuel g = Ok (g', n) -> old <> 0 -> 4 <= l -> mapped m old 4 ->
  orbis_sysctl_ncpu H fuel g m old (Some l) = Ok (mk_query g' 0 (write m old (le_bytes 4 n)) (Some 4)).
Proof.
  intros E Ho Hl Hm. unfold orbis_sysctl_ncpu.
  destruct (Z.eqb_spec old 0); [done|]. destruct (Z.ltb_spec l 4); [lia|]. cbn [orb]. rewrite E. cbn [mbind outcome_bind].
  pose proof (orbis_hw_ncpu_range _ _ _ _ _ E) as Hn.
  rewrite st_le_ok by exact Hm. cbn [mbind outcome_bind].
  unfold u32. rewrite Z.mod_small by lia. done.
Qed.

Lemma le_bytes_mod n v : le_bytes n v = le_bytes n (v mod 2 ^ (8 * Z.of_nat n)).
Proof.
  revert v. induction n as [|n IH]; intros v; [done|]. cbn [le_bytes].
  replace (8 * Z.of_nat (S n)) with (8 + 8 * Z.of_nat n) by lia. rewrite Z.pow_add_r by lia.
  change (2 ^ 8) with 256. rewrite Z.rem_mul_r by lia. f_equal.
  - rewrite Z.mul_comm, Z.mod_add, Z.mod_mod by lia. done.
  - rewrite Z.add_comm, Z.mul_comm, Z.div_add_l, (Z.div_small (v mod 256)) by (try apply Z.mod_pos_bound; lia).
    by rewrite Z.add_0_r, <- IH.
Qed.

(** The same number answers by mib, by name and through [sysconf]; and it is
    positive. *)
Theorem processors_agree ONLN CONF sysconf H fuel g m old l g' n rest namelen :
  orbis_hw_ncpu H fuel g = Ok (g', n) -> old <> 0 -> 4 <= l -> mapped m old 4 -> 2 <= namelen ->
  let r := mk_query g' 0 (write m old (le_bytes 4 n)) (Some 4) in
  1 <= n /\
  sysctl H fuel g m (Some (CTL_HW :: HW_NCPU :: rest)) namelen old (Some l) = Ok r /\
  sysctlbyname H fuel g m (Some (bytes "hw.ncpu")) old (Some l) = Ok r /\
  orbis_sysconf ONLN CONF sysconf H fuel g ONLN = Ok (g', n) /\
  orbis_sysconf ONLN CONF sysconf H fuel g CONF = Ok (g', n).
Proof.
  intros E Ho Hl Hm Hlen r. pose proof (orbis_hw_ncpu_range _ _ _ _ _ E) as Hn.
  assert (sysctlbyname H fuel g n_cell (Some (bytes "hw.ncpu")) 16 (Some 4) =
          Ok (mk_query g' 0 (write n_cell 16 (le_bytes 4 n)) (Some 4))) as Hconf.
  { unfold sysctlbyname. rewrite bool_decide_true by done. apply orbis_sysctl_ncpu_ok; [done|lia|lia|].
    apply mapped_check. vm_compute. done. }
  assert (load_int (write n_cell 16 (le_bytes 4 n)) 16 = Ok n) as Hload by (apply load_int_written; lia).
  assert (orbis_sysconf ONLN CONF sysconf H fuel g ONLN = Ok (g', n) /\
          orbis_sysconf ONLN CONF sysconf H fuel g CONF = Ok (g', n)) as [H1 H2].
  { unfold orbis_sysconf. rewrite !Z.eqb_refl, orb_true_r. cbn [orb]. rewrite !Hconf. cbn [mbind outcome_bind q_mem q_env q_ret].
    rewrite Hload. cbn [mbind outcome_bind]. rewrite Z.eqb_refl. destruct (Z.ltb_spec 0 n); [done|lia]. }
  split; [lia|]. split; [|split; [|done]].
  - unfold sysctl. destruct (Z.leb_spec 2 namelen); [|lia]. cbn. by apply orbis_sysctl_ncpu_ok.
  - unfold sysctlbyname. rewrite bool_decide_true by done. by apply orbis_sysctl_ncpu_ok.
Qed.

(** ** Timed waits *)

(** The second branch of the clamp is never taken: the deadline is the one
    asked for, to the nanosecond, or the far end. *)
Theorem cv_deadline_exact tp :
  - 2 ^ 63 <= tp < 2 ^ 63 ->
  let t := cv_deadline tp in
  tv_sec t * giga + tv_nsec t = Z.min tp far /\ Z.abs (tv_nsec t) < giga /\ (0 <= tp -> 0 <= tv_nsec t).
Proof.
  intros Htp. unfold cv_deadline.
  replace (if far <? tp then far else tp) with (Z.min tp far) by (destruct (Z.ltb_spec far tp); lia).
  set (d := Z.min tp far). assert (d <= far) by lia.
  pose proof (Z.quot_rem' d giga) as Hd.
  assert (Z.abs (Z.rem d giga) < giga) as Hr by (apply (Z.rem_bound_abs d giga); unfold giga; lia).
  assert (0 <= d -> 0 <= Z.rem d giga) as Hr' by (intros; apply Z.rem_nonneg; [unfold giga; lia|lia]).
  assert (Z.quot d giga < ts_sec_max) as Hs by (unfold ts_sec_max, giga, far in *; lia).
  destruct (Z.ltb_spec (Z.quot d giga) ts_sec_max); [|lia]. cbn [tv_sec tv_nsec].
  replace (d - Z.quot d giga * giga) with (Z.rem d giga) by lia.
  split; [lia|]. split; [done|]. intros Hp. apply Hr'. unfold d, far. lia.
Qed.

(** A wait that times out returns; any other error ends the process. *)
Theorem timed_wait_returns timedwait owns_lock tp :
  __do_timed_wait timedwait owns_lock tp = Returned <->
  owns_lock = true /\ (timedwait (cv_deadline tp) = 0 \/ timedwait (cv_deadline tp) = CV_ETIMEDOUT).
Proof.
  unfold __do_timed_wait. destruct owns_lock; cbn [negb]; [|split; [done|by intros [? _]]].
  destruct (Z.eqb_spec (timedwait (cv_deadline tp)) 0); cbn [negb andb]; [tauto|].
  destruct (Z.eqb_spec (timedwait (cv_deadline tp)) CV_ETIMEDOUT); cbn [negb]; [tauto|].
  split; [done|intros [_ []]; done].
Qed.

(** ** Signal stacks *)

(** What the kernel reads out of the bytes of the SDK's struct: the size is
    the flags, and the flags the low half of the size. *)
Theorem stack_layouts_differ sp flags size :
  0 <= flags < 2 ^ 31 -> 0 <= size < 2 ^ 64 ->
  sdk_bytes (mk_stack sp flags size) = bsd_bytes (mk_bsd sp flags (size mod 2 ^ 32) (size / 2 ^ 32)).
Proof.
  intros Hf Hs. unfold sdk_bytes, bsd_bytes. cbn [ss_sp ss_flags ss_size b_sp b_size b_flags b_pad].
  unfold u32. rewrite !Z.mod_small by (try apply Z.mod_pos_bound; lia).
  pose proof (le_bytes_app 4 4 size) as H1. pose proof (le_bytes_app 4 4 flags) as H2.
  pose proof (le_bytes_mod 4 size) as H3. cbn [Nat.add] in H1, H2.
  change (2 ^ (8 * Z.of_nat 4)) with (2 ^ 32) in *. rewrite (Z.div_small flags) in H2 by lia.
  rewrite H1, H2, <- H3, <- !app_assoc.
  rewrite (Z.mod_small (size / 2 ^ 32)) by dlia. done.
Qed.

(** The shim: the kernel is given the three fields, and what it gives back
    comes in the SDK's order with the kernel's own code. *)
Theorem orbis_sigaltstack_fields kernel ss oss :
  orbis_sigaltstack kernel ss oss =
    (let r := kernel ((fun s => mk_bsd (ss_sp s) (ss_size s) (ss_flags s) 0) <$> ss)
                     (if oss then Some zero_bsd else None) in
     (r.1, if oss then Some (mk_stack (b_sp r.2) (b_flags r.2) (b_size r.2)) else None)).
Proof. unfold orbis_sigaltstack. destruct ss; cbn; by destruct (kernel _ _). Qed.

(** ** Request numbers *)

Lemma IOC_sum dir group num len :
  0 <= dir < 8 -> 0 <= group < 256 -> 0 <= num < 256 -> 0 <= len < 2 ^ 13 ->
  _IOC (dir * 2 ^ 29) group num len = dir * 2 ^ 29 + len * 2 ^ 16 + group * 2 ^ 8 + num.
Proof.
  intros Hd Hg Hn Hl. unfold _IOC. change IOCPARM_MASK with (Z.ones 13).
  rewrite Z.land_ones, Z.mod_small, !Z.shiftl_mul_pow2 by lia.
  rewrite (lor_prefix (dir * 2 ^ 29) (len * 2 ^ 16) 29) by (lia || dlia).
  rewrite (lor_prefix _ (group * 2 ^ 8) 16) by (lia || dlia).
  rewrite (lor_prefix _ num 8) by (lia || dlia). lia.
Qed.

(** A request number gives back the direction, the group, the number and the
    length it was made of; all four are apart. *)
Theorem ioc_fields dir group num len :
  In dir [IOC_VOID; IOC_OUT; IOC_IN; IOC_INOUT] ->
  0 <= group < 256 -> 0 <= num < 256 -> 0 <= len < 2 ^ 13 ->
  let x := _IOC dir group num len in
  0 <= x < 2 ^ 32 /\ Z.land x IOC_DIRMASK = dir /\ IOCGROUP x = group /\ IOCPARM_LEN x = len /\
  Z.land x 0xff = num /\ IOCBASECMD x = _IOC dir group num 0.
Proof.
  intros Hdir Hg Hn Hl.
  assert (exists d, dir = d * 2 ^ 29 /\ 0 <= d < 8) as (d & -> & Hd).
  { destruct Hdir as [<-|[<-|[<-|[<-|[]]]]]; [exists 1|exists 2|exists 4|exists 6]; (split; [done|lia]). }
  cbn zeta. unfold IOCGROUP, IOCPARM_LEN, IOCBASECMD. rewrite !IOC_sum by lia.
  set (x := d * 2 ^ 29 + len * 2 ^ 16 + group * 2 ^ 8 + num).
  change IOCPARM_MASK with (Z.ones 13). change 0xff with (Z.ones 8).
  assert (Hdiv : x / 2 ^ 29 = d) by (unfold x; dlia).
  split; [unfold x; lia|]. split.
  { change IOC_DIRMASK with (Z.shiftl 7 29).
    rewrite <- Hdiv, <- (Z.shiftl_mul_pow2 _ 29), <- (Z.shiftr_div_pow2 _ 29) by lia.
    transitivity (Z.shiftl (Z.land (Z.shiftr x 29) 7) 29).
    - apply Z.bits_inj'. intros i Hi. rewrite Z.land_spec, !Z.shiftl_spec, Z.land_spec by lia.
      destruct (decide (i < 29)).
      + rewrite !(Z.testbit_neg_r _ (i - 29)) by lia. by rewrite andb_false_r.
      + rewrite Z.shiftr_spec by lia. by replace (i - 29 + 29) with i by lia.
    - f_equal. change 7 with (Z.ones 3). rewrite Z.land_ones, Z.shiftr_div_pow2, Hdiv, Z.mod_small by lia. done. }
  rewrite !Z.land_ones, !Z.shiftr_div_pow2 by lia.
  split; [unfold x; dlia|]. split; [unfold x; dlia|]. split; [unfold x; dlia|].
  apply Z.bits_inj'. intros i Hi. rewrite Z.land_spec, Z.lnot_spec, Z.shiftl_spec by lia.
  set (y := d * 2 ^ 29 + 0 * 2 ^ 16 + group * 2 ^ 8 + num).
  destruct (decide (i < 16)); [|destruct (decide (i < 29))].
  - rewrite (Z.testbit_neg_r _ (i - 16)), andb_true_r by lia.
    rewrite <- (Z.mod_pow2_bits_low x 16 i), <- (Z.mod_pow2_bits_low y 16 i) by lia. f_equal. unfold x, y. dlia.
  - rewrite Z.ones_spec_low, andb_false_r by lia. symmetry.
    replace i with (i - 16 + 16) by lia. rewrite <- Z.div_pow2_bits by lia.
    replace (y / 2 ^ 16) with (d * 2 ^ 13) by (unfold y; dlia). by apply Z.mul_pow2_bits_low; lia.
  - rewrite Z.ones_spec_high, andb_true_r by lia.
    replace i with (i - 29 + 29) by lia. rewrite <- !Z.div_pow2_bits by lia. f_equal. unfold x, y. dlia.
Qed.
