(* ===== verification/Headers.v ===== *)
(** Headers whose macros are code: [include/sys/cpuset.h], sets of processors
    as bits of sixteen words, and [include/sys/ioctl.h], request numbers (the
    ones of [include/sys/ioccom.h] are in [Shims]). *)
From stdpp Require Import prelude list gmap numbers.
From S2P Require Import Prelude Shims.
Open Scope Z_scope.

(** ** Sets of processors *)

Module Cpuset.

(** [struct cpu_set_t]: [unsigned long __bits[128/sizeof(long)]]. *)
Abbreviation cpu_set_t := (list Z).
Definition __bits_len : nat := 16.

(** The argument is converted to [unsigned long] by the division. *)
Definition __CPU_BITS (i : Z) : Z := u64 i / (8 * 8).
Definition __CPU_MASK (i : Z) : Z := u64 (Z.shiftl 1 (u64 i mod (8 * 8))).
Definition CPU_SETSIZE : Z := 1024.

(** An access to [(s)->__bits[__CPU_BITS(i)]]. *)
Definition bits_at (s : cpu_set_t) (i : Z) : outcome Z :=
  match s !! Z.to_nat (__CPU_BITS i) with Some w => Ok w | None => Fault end.

(** [for (__i = 0; __i < 16; ++__i) __bits[__i] = 0], [k] rounds from [i] on. *)
Fixpoint zero_from (k i : nat) (s : cpu_set_t) : cpu_set_t :=
  match k with O => s | S k => zero_from k (S i) (<[i := 0]> s) end.
Definition CPU_ZERO (s : cpu_set_t) : cpu_set_t := zero_from __bits_len 0 s.

Definition CPU_SET (i : Z) (s : cpu_set_t) : outcome cpu_set_t :=
  w ← bits_at s i; Ok (<[Z.to_nat (__CPU_BITS i) := Z.lor w (__CPU_MASK i)]> s).
Definition CPU_CLR (i : Z) (s : cpu_set_t) : outcome cpu_set_t :=
  w ← bits_at s i; Ok (<[Z.to_nat (__CPU_BITS i) := Z.land w (u64 (Z.lnot (__CPU_MASK i)))]> s).
Definition CPU_ISSET (i : Z) (s : cpu_set_t) : outcome bool :=
  w ← bits_at s i; Ok (negb (Z.land w (__CPU_MASK i) =? 0)).

(** ** Uses of a set, and what they mean *)

Inductive use := Zero | Set_ (i : Z) | Clr (i : Z) | Isset (i : Z).

Definition use_ok (u : use) : Prop :=
  match u with Zero => True | Set_ i | Clr i | Isset i => 0 <= i < CPU_SETSIZE end.

Definition step (s : cpu_set_t) (u : use) : outcome (cpu_set_t * list bool) :=
  match u with
  | Zero => Ok (CPU_ZERO s, [])
  | Set_ i => s ← CPU_SET i s; Ok (s, [])
  | Clr i => s ← CPU_CLR i s; Ok (s, [])
  | Isset i => b ← CPU_ISSET i s; Ok (s, [b])
  end.

Fixpoint run (s : cpu_set_t) (us : list use) : outcome (cpu_set_t * list bool) :=
  match us with
  | [] => Ok (s, [])
  | u :: us => '(s, a) ← step s u; '(s, b) ← run s us; Ok (s, a ++ b)
  end.

(** The same uses of a finite set of numbers. *)
Definition spec_step (X : gset Z) (u : use) : gset Z * list bool :=
  match u with
  | Zero => (∅, [])
  | Set_ i => ({[ i ]} ∪ X, [])
  | Clr i => (X ∖ {[ i ]}, [])
  | Isset i => (X, [bool_decide (i ∈ X)])
  end.

Fixpoint spec_run (X : gset Z) (us : list use) : gset Z * list bool :=
  match us with
  | [] => (X, [])
  | u :: us => let '(X, a) := spec_step X u in let '(X, b) := spec_run X us in (X, a ++ b)
  end.

(** Bit [i mod 64] of word [i / 64] says whether [i] is a member. *)
Record stands_for (s : cpu_set_t) (X : gset Z) : Prop := {
  sf_words : length s = __bits_len;
  sf_range : Forall (fun w => 0 <= w < 2 ^ 64) s;
  sf_bits : forall i, 0 <= i < CPU_SETSIZE ->
    exists w, s !! Z.to_nat (i / 64) = Some w /\ Z.testbit w (i mod 64) = bool_decide (i ∈ X) }.

End Cpuset.

(** ** Request numbers *)

Module Ioctl.
Definition IOC_VOID : Z := 0x20000000.
Definition IOC_OUT : Z := 0x40000000.
Definition IOC_IN : Z := 0x80000000.
Definition IOC_INOUT : Z := Z.lor IOC_IN IOC_OUT.
Definition _IOC (inout group num len : Z) : Z :=
  Z.lor (Z.lor (Z.lor inout (Z.shiftl (Z.land len 0x1fff) 16)) (Z.shiftl group 8)) num.
Definition _IO (g n : Z) : Z := _IOC IOC_VOID g n 0.
Definition _IOR (g n size : Z) : Z := _IOC IOC_OUT g n size.
Definition _IOW (g n size : Z) : Z := _IOC IOC_IN g n size.
Definition _IOWR (g n size : Z) : Z := _IOC IOC_INOUT g n size.
(** ['f'] and [sizeof(int)]. *)
Definition FIONREAD : Z := _IOR 0x66 127 4.
Definition FIONBIO : Z := _IOW 0x66 126 4.
Definition FIOASYNC : Z := _IOW 0x66 125 4.
End Ioctl.

(** Whichever of the two headers a file got, it has the same numbers. *)
Lemma ioctl_agrees inout group num len : Ioctl._IOC inout group num len = Shims._IOC inout group num len.
Proof. reflexivity. Qed.

(** The numbers are the ones the header derives by hand from FreeBSD's scheme. *)
Example ioctl_numbers :
  (Ioctl.FIONREAD, Ioctl.FIONBIO, Ioctl.FIOASYNC) = (0x4004667f, 0x8004667e, 0x8004667d).
Proof. reflexivity. Qed.

Import Cpuset.

Lemma zero_from_spec k i s : (i + k = length s)%nat -> zero_from k i s = take i s ++ replicate k 0.
Proof.
  revert i s. induction k as [|k IH]; intros i s Hk; cbn [zero_from]; [rewrite app_nil_r, take_ge by lia; done|].
  rewrite IH by (rewrite length_insert; lia). rewrite (take_S_r _ _ 0); [|rewrite list_lookup_insert_eq by lia; done].
  rewrite take_insert_ge by lia. by rewrite <- app_assoc.
Qed.

(** Where [i] is, and what its mask is. *)
Lemma cpu_bits_small i : 0 <= i < CPU_SETSIZE -> __CPU_BITS i = i / 64 /\ __CPU_MASK i = 2 ^ (i mod 64) /\ (Z.to_nat (i / 64) < __bits_len)%nat.
Proof.
  intros Hi. unfold __CPU_BITS, __CPU_MASK, CPU_SETSIZE, __bits_len in *. rewrite (u64_small i) by lia. change (8 * 8) with 64.
  assert (0 <= i mod 64 < 64) by (apply Z.mod_pos_bound; lia).
  assert (0 < 2 ^ (i mod 64) < 2 ^ 64) by (split; [apply Z.pow_pos_nonneg; lia|apply Z.pow_lt_mono_r; lia]).
  rewrite Z.shiftl_1_l, u64_small by lia. split; [done|]. split; [done|].
  assert (i / 64 < 16) by (apply Z.div_lt_upper_bound; lia). assert (0 <= i / 64) by (apply Z.div_pos; lia). lia.
Qed.

Lemma testbit_set w k n : 0 <= k -> 0 <= n -> Z.testbit (Z.lor w (2 ^ k)) n = Z.testbit w n || (k =? n).
Proof. intros. by rewrite Z.lor_spec, Z.pow2_bits_eqb by done. Qed.

Lemma testbit_clear w k n : 0 <= k < 64 -> 0 <= n < 64 ->
  Z.testbit (Z.land w (u64 (Z.lnot (2 ^ k)))) n = Z.testbit w n && negb (k =? n).
Proof.
  intros. rewrite Z.land_spec. unfold u64. by rewrite Z.mod_pow2_bits_low, Z.lnot_spec, Z.pow2_bits_eqb by lia.
Qed.

Lemma land_pow2 w k : 0 <= k -> negb (Z.land w (2 ^ k) =? 0) = Z.testbit w k.
Proof.
  intros Hk. assert (Z.land w (2 ^ k) = if Z.testbit w k then 2 ^ k else 0) as ->.
  { apply Z.bits_inj'. intros n Hn. rewrite Z.land_spec, Z.pow2_bits_eqb by done.
    destruct (Z.eqb_spec k n) as [->|Hne].
    - destruct (Z.testbit w n); [by rewrite Z.pow2_bits_true|by rewrite Z.bits_0].
    - rewrite andb_false_r. destruct (Z.testbit w k); [by rewrite Z.pow2_bits_false|by rewrite Z.bits_0]. }
  destruct (Z.testbit w k); [|done]. destruct (Z.eqb_spec (2 ^ k) 0); [|done]. pose proof (Z.pow_pos_nonneg 2 k). lia.
Qed.

Lemma u64_lor a b : u64 (Z.lor a b) = Z.lor (u64 a) (u64 b).
Proof.
  unfold u64. apply Z.bits_inj'. intros n Hn. rewrite Z.lor_spec. destruct (decide (n < 64)).
  - by rewrite !Z.mod_pow2_bits_low, Z.lor_spec by lia.
  - by rewrite !Z.mod_pow2_bits_high by lia.
Qed.

Lemma u64_land a b : u64 (Z.land a b) = Z.land (u64 a) (u64 b).
Proof.
  unfold u64. apply Z.bits_inj'. intros n Hn. rewrite Z.land_spec. destruct (decide (n < 64)).
  - by rewrite !Z.mod_pow2_bits_low, Z.land_spec by lia.
  - by rewrite !Z.mod_pow2_bits_high by lia.
Qed.

(** One use on the words and on the set. *)
Lemma update_stands s X X' i w w' :
  stands_for s X -> 0 <= i < CPU_SETSIZE -> s !! Z.to_nat (i / 64) = Some w -> 0 <= w' < 2 ^ 64 ->
  (forall j, 0 <= j < CPU_SETSIZE -> j / 64 = i / 64 -> Z.testbit w' (j mod 64) = bool_decide (j ∈ X')) ->
  (forall j, j <> i -> j ∈ X' <-> j ∈ X) ->
  stands_for (<[Z.to_nat (i / 64) := w']> s) X'.
Proof.
  intros [H1 H2 H3] Hi Hw Hr Hsame Hother. constructor.
  - by rewrite length_insert.
  - apply Forall_insert; [done|]. lia.
  - intros j Hj. assert (0 <= i / 64) by (apply Z.div_pos; lia). assert (0 <= j / 64) by (apply Z.div_pos; lia).
    destruct (decide (j / 64 = i / 64)) as [E|Hne].
    + exists w'. rewrite E, list_lookup_insert_eq by by eapply lookup_lt_Some. auto.
    + destruct (H3 j Hj) as (v & Hv & Hb). exists v. rewrite list_lookup_insert_ne by lia. split; [done|].
      rewrite Hb. apply bool_decide_ext. symmetry. apply Hother. intros ->. lia.
Qed.

Lemma mod_inj i j : j / 64 = i / 64 -> i mod 64 = j mod 64 -> i = j.
Proof. intros H1 H2. rewrite (Z.div_mod i 64), (Z.div_mod j 64) by done. congruence. Qed.

Lemma zero_stands s : length s = __bits_len -> stands_for (CPU_ZERO s) ∅.
Proof.
  intros Hs. unfold CPU_ZERO. rewrite zero_from_spec by by rewrite Hs. rewrite take_0, app_nil_l.
  constructor; [by rewrite length_replicate|by apply Forall_replicate|]. intros i Hi. exists 0.
  destruct (cpu_bits_small i Hi) as (_ & _ & Hb). split; [by apply lookup_replicate_2|].
  rewrite Z.bits_0. symmetry. apply bool_decide_eq_false_2. set_solver.
Qed.

(** What a use of element [i] finds. *)
Lemma word_of s X i : stands_for s X -> 0 <= i < CPU_SETSIZE ->
  exists w, bits_at s i = Ok w /\ s !! Z.to_nat (i / 64) = Some w /\ u64 w = w /\ 0 <= i mod 64 < 64 /\
    __CPU_BITS i = i / 64 /\ __CPU_MASK i = 2 ^ (i mod 64) /\ u64 (2 ^ (i mod 64)) = 2 ^ (i mod 64) /\
    forall j, 0 <= j < CPU_SETSIZE -> j / 64 = i / 64 -> Z.testbit w (j mod 64) = bool_decide (j ∈ X).
Proof.
  intros [H1 H2 H3] Hi. destruct (H3 i Hi) as (w & Hw & Hb). destruct (cpu_bits_small i Hi) as (E1 & E2 & _).
  assert (0 <= i mod 64 < 64) by (apply Z.mod_pos_bound; lia). exists w. unfold bits_at. rewrite E1, Hw.
  rewrite list.Forall_lookup in H2. split; [done|]. split; [done|]. split; [by apply u64_small, (H2 _ _ Hw)|].
  split; [done|]. split; [done|]. split; [done|]. split.
  - apply u64_small. split; [apply Z.pow_nonneg; lia|apply Z.pow_lt_mono_r; lia].
  - intros j Hj E. destruct (H3 j Hj) as (v & Hv & <-). rewrite E in Hv. congruence.
Qed.

Lemma step_stands s X u : stands_for s X -> use_ok u ->
  exists s', step s u = Ok (s', (spec_step X u).2) /\ stands_for s' (spec_step X u).1.
Proof.
  intros Hst Hu. destruct u as [|i|i|i]; cbn [step spec_step fst snd use_ok] in *;
    [|destruct (word_of s X i Hst Hu) as (w & Hat & Hw & Rw & Hm & E1 & E2 & E3 & Hb);
      assert (forall j, j / 64 = i / 64 -> (i mod 64 =? j mod 64) = bool_decide (j = i)) as Hsame by
        (intros j E; destruct (Z.eqb_spec (i mod 64) (j mod 64)) as [Em|Em]; symmetry;
         [apply bool_decide_eq_true_2; by rewrite (mod_inj i j)|apply bool_decide_eq_false_2; congruence]);
      unfold CPU_SET, CPU_CLR, CPU_ISSET; rewrite Hat, ?E1, ?E2, !bind_ok; eexists; split..].
  - eexists. split; [done|]. by apply zero_stands, (sf_words s X).
  - done.
  - apply (update_stands s X _ i w); [done..| | |set_solver].
    + rewrite <- Rw, <- E3, <- u64_lor. apply u64_range.
    + intros j Hj E. rewrite testbit_set by (first [lia|apply Z.mod_pos_bound; lia]). rewrite Hb by done.
      rewrite (Hsame j) by done. repeat case_bool_decide; set_solver.
  - done.
  - apply (update_stands s X _ i w); [done..| | |set_solver].
    + assert (u64 (u64 (Z.lnot (2 ^ (i mod 64)))) = u64 (Z.lnot (2 ^ (i mod 64)))) as E4 by apply u64_small, u64_range.
      rewrite <- Rw, <- E4, <- u64_land. apply u64_range.
    + intros j Hj E. rewrite testbit_clear by (first [lia|apply Z.mod_pos_bound; lia]). rewrite Hb by done.
      rewrite (Hsame j) by done. repeat case_bool_decide; set_solver.
  - by rewrite land_pow2, (Hb i) by (try lia; done).
  - done.
Qed.

Lemma run_stands us : forall s X, stands_for s X -> Forall use_ok us ->
  exists s', run s us = Ok (s', (spec_run X us).2) /\ stands_for s' (spec_run X us).1.
Proof.
  induction us as [|u us IH]; intros s X Hst Hus; [by exists s|]. apply List.Forall_cons_iff in Hus as [Hu Hus].
  cbn [run spec_run]. destruct (step_stands s X u Hst Hu) as (s1 & -> & H1). rewrite bind_ok.
  destruct (spec_step X u) as [X1 a]. cbn [fst snd] in *. destruct (IH s1 X1 H1 Hus) as (s2 & -> & H2). rewrite bind_ok.
  destruct (spec_run X1 us) as [X2 b]. by exists s2.
Qed.

(** C20: whatever garbage a [cpuset_t] holds, from [CPU_ZERO] on it is a finite
    set of the processors 0 to 1023: any sequence of the four macros runs
    inside the array and [CPU_ISSET] answers as membership does; an element
    past 1023 or below 0 is an access outside the array. *)
Theorem cpuset_refines (s : cpu_set_t) (us : list use) (Hs : length s = __bits_len) :
  (Forall use_ok us -> exists s', run s (Zero :: us) = Ok (s', (spec_run ∅ us).2) /\ stands_for s' (spec_run ∅ us).1) /\
  (forall i, - 2 ^ 63 <= i < 2 ^ 63 -> ~ 0 <= i < CPU_SETSIZE ->
     CPU_SET i s = Fault /\ CPU_CLR i s = Fault /\ CPU_ISSET i s = Fault).
Proof.
  split.
  - intros Hus. pose proof (zero_stands s Hs) as H0.
    destruct (run_stands us _ _ H0 Hus) as (s' & E & H'). exists s'. cbn [run step]. rewrite bind_ok, E. done.
  - intros i Hr Hi. assert (bits_at s i = Fault) as E.
    { unfold bits_at, __CPU_BITS. rewrite lookup_ge_None_2; [done|]. rewrite Hs. change (8 * 8) with 64.
      unfold CPU_SETSIZE, __bits_len in *. assert (1024 <= u64 i) as Hu.
      { destruct (decide (i < 0)); [rewrite u64_sub_borrow by lia|rewrite u64_small by lia]; lia. }
      assert (16 <= u64 i / 64) by (apply Z.div_le_lower_bound; lia). lia. }
    unfold CPU_SET, CPU_CLR, CPU_ISSET. by rewrite E.
Qed.

Lemma cpuset_refines_witness :
  exists s', run (replicate 16 (-1)) [Zero; Set_ 3; Set_ 700; Set_ 3; Clr 3; Isset 3; Isset 700] = Ok (s', [false; true]) /\
    stands_for s' {[ 700 ]}.
Proof.
  destruct (proj1 (cpuset_refines (replicate 16 (-1)) [Set_ 3; Set_ 700; Set_ 3; Clr 3; Isset 3; Isset 700] eq_refl))
    as (s' & E & H).
  - repeat constructor; cbn; unfold CPU_SETSIZE; lia.
  - exists s'. split; [rewrite E; by vm_compute|].
    assert ({[ 700 ]} = (spec_run ∅ [Set_ 3; Set_ 700; Set_ 3; Clr 3; Isset 3; Isset 700]).1) as -> by (vm_compute; reflexivity).
    exact H.
Defined.
