(* ===== verification/Words.v ===== *)
(** The combinatorics of words behind the substring search of
    [src/orbis_wchar32.c]: periods, the maximal suffix of a word under an
    order of its letters, the algorithm that finds it, and why the larger of
    the maximal suffixes under an order and its converse is where a search may
    split the word.

    A word is a function from indices to letters together with its length. *)
From stdpp Require Import prelude numbers.
Open Scope Z_scope.

(** [x[i..j)] has period [p]: also for [p] beyond its length. *)
Definition per (x : Z -> Z) (i j p : Z) : Prop := forall k, i <= k -> k + p < j -> x k = x (k + p).

#[export] Instance Z_lt_trichotomy : Trichotomy Z.lt.
Proof. intros a b. destruct (Z.lt_trichotomy a b) as [?|[?|?]]; auto. Qed.
#[export] Instance Z_gt_trichotomy : Trichotomy (flip Z.lt).
Proof. intros a b. unfold flip. destruct (Z.lt_trichotomy a b) as [?|[?|?]]; auto. Qed.

Section order.
Context (R : relation Z) `{!StrictOrder R} `{!Trichotomy R}.
Context (x : Z -> Z).

(** The suffix at [a] is smaller than the one at [b]: at the first letter
    where they differ, which is before [n] in both. *)
Definition mis (n a b : Z) : Prop :=
  exists k, 0 <= k /\ a + k < n /\ b + k < n /\ (forall q, 0 <= q < k -> x (a + q) = x (b + q)) /\ R (x (a + k)) (x (b + k)).

Lemma R_irrefl a b : a = b -> ~ R a b.
Proof. intros ->. apply irreflexivity, _. Qed.
Lemma R_asym a b : R a b -> ~ R b a.
Proof. intros H1 H2. apply (R_irrefl a a); [done|]. by trans b. Qed.

Lemma mis_mono n n' a b : n <= n' -> mis n a b -> mis n' a b.
Proof. intros Hn (k & ? & ? & ? & ?). exists k. repeat split; try lia; tauto. Qed.

Lemma mis_trans n a b c : mis n a b -> mis n b c -> mis n a c.
Proof.
  intros (k & Hk & Ha & Hb & Hq & HR) (k' & Hk' & Hb' & Hc & Hq' & HR').
  destruct (Z.lt_trichotomy k k') as [Hlt|[->|Hlt]].
  - exists k. repeat split; try lia; [intros q H; rewrite Hq, Hq' by lia; done|]. by rewrite <- Hq' by lia.
  - exists k'. repeat split; try lia; [intros q H; rewrite Hq, Hq' by lia; done|]. by trans (x (b + k')).
  - exists k'. repeat split; try lia; [intros q H; rewrite Hq, Hq' by lia; done|]. by rewrite Hq by lia.
Qed.

Lemma mis_irrefl n a : ~ mis n a a.
Proof. intros (k & _ & _ & _ & _ & H). by apply (R_irrefl (x (a + k)) (x (a + k))). Qed.

Lemma mis_asym n a b : mis n a b -> ~ mis n b a.
Proof. intros H1 H2. apply (mis_irrefl n a). by apply mis_trans with b. Qed.

(** ** The maximal suffix *)

(** Among the suffixes of [x[i..n)] the whole is maximal: a later one is
    smaller at some letter, or a prefix of it. *)
Definition heads (i n : Z) : Prop := forall a, i < a < n -> mis n a i \/ per x i n (a - i).

Definition least_period (i n p : Z) : Prop :=
  0 < p <= n - i /\ per x i n p /\ forall d, 0 < d <= n - i -> per x i n d -> p <= d.

Record max_suffix (l c p : Z) : Prop := {
  max_start : 0 <= c < l;
  max_before : forall a, 0 <= a < c -> mis l a c;
  max_after : heads c l;
  max_period : least_period c l p }.

(** A suffix further on cannot be greater. *)
Lemma heads_no_greater c l a : heads c l -> c < a < l -> ~ mis l c a.
Proof.
  intros H Ha Hm. destruct (H a Ha) as [H'|H']; [by eapply mis_asym|].
  destruct Hm as (k & ? & ? & ? & _ & HR). apply (R_irrefl (x (c + k)) (x (a + k))); [|done].
  rewrite (H' (c + k)) by lia. f_equal. lia.
Qed.

(** ** The algorithm *)

(** [i] starts the candidate, [p] is its period, [j] its next repetition and
    [q] the letters of that which are read: [x[0..j + q)] is what was read. *)
Record scan (l i j q p : Z) : Prop := {
  scan_start : 0 <= i;
  scan_rep : exists e, 1 <= e /\ j = i + e * p;
  scan_read : 0 <= q < p /\ j + q <= l;
  scan_before : forall a, 0 <= a < i -> mis l a i;
  scan_heads : heads i (j + q);
  scan_period : least_period i (j + q) p }.

Lemma scan_le l i j q p : scan l i j q p -> 0 < p /\ i + p <= j.
Proof. intros [_ (e & He & ->) [? _] _ _ _]. nia. Qed.

(** The letter read next is also the one a period back. *)
Lemma scan_back l i j q p : scan l i j q p -> x (i + q) = x (j + q - p).
Proof.
  intros H. pose proof (scan_le _ _ _ _ _ H). destruct H as [_ (e & He & ->) [Hq _] _ _ [_ [Hp _]]].
  assert (forall f, 0 <= f -> f < e -> x (i + q) = x (i + f * p + q)) as Hf.
  { apply (natlike_ind (fun f => f < e -> _)); [intros _; f_equal; lia|].
    intros f Hf IH Hlt. rewrite IH by lia. rewrite (Hp (i + f * p + q)) by nia. f_equal. nia. }
  rewrite (Hf (e - 1)) by lia. f_equal. nia.
Qed.

(** A period other than the least one does not see a greater letter. *)
Lemma scan_other l i j q p d :
  scan l i j q p -> 0 < d <= j + q - i -> per x i (j + q) d ->
  d = p \/ p < d /\ ~ R (x (j + q - d)) (x (j + q - p)).
Proof.
  intros H Hd Hper. pose proof (scan_le _ _ _ _ _ H). destruct H as [_ _ _ _ Hh [Hr [Hp Hmin]]].
  set (n := j + q) in *. specialize (Hmin d Hd Hper).
  destruct (decide (d = p)) as [|Hne]; [by left|right]. split; [lia|].
  destruct (Hh (i + (d - p))) as [(k & Hk & Ha & Hb & Hq & HR)|H']; [lia| |].
  - assert (forall e, 0 <= e < n - d - i -> x (i + (d - p) + e) = x (i + e)) as Hag.
    { intros e He. rewrite (Hp (i + (d - p) + e)), (Hper (i + e)) by lia. f_equal. lia. }
    destruct (Z.lt_trichotomy k (n - d - i)) as [Hlt|[->|Hgt]].
    + exfalso. eapply R_irrefl; [|exact HR]. by apply Hag.
    + replace (i + (d - p) + (n - d - i)) with (n - p) in HR by lia.
      replace (i + (n - d - i)) with (n - d) in HR by lia. by apply R_asym.
    + apply R_irrefl. specialize (Hq (n - d - i)).
      replace (i + (d - p) + (n - d - i)) with (n - p) in Hq by lia.
      replace (i + (n - d - i)) with (n - d) in Hq by lia. rewrite Hq; [done|lia].
  - apply R_irrefl. rewrite (H' (n - d)) by lia. f_equal. lia.
Qed.

Lemma R_not_cases a b c : R a b -> ~ R c b -> R a c.
Proof. intros H1 H2. destruct (trichotomy R b c) as [?|[->|?]]; [by trans b|done|done]. Qed.

(** The last letter read decides for the suffixes that were prefixes. *)
Lemma heads_extend i n :
  heads i n ->
  (forall d, 0 < d <= n - i -> per x i n d -> x n = x (n - d) \/ R (x n) (x (n - d))) ->
  heads i (n + 1).
Proof.
  intros Hh Hd a Ha.
  assert (mis n a i \/ per x i n (a - i)) as [Hm|Hp].
  { destruct (decide (a = n)) as [->|]; [|apply Hh; lia]. right. intros k ? ?. lia. }
  - left. eapply mis_mono; [|done]. lia.
  - destruct (Hd (a - i)) as [He|HR]; [lia|done|right|left].
    + intros k Hk Hk'. destruct (decide (k + (a - i) = n)) as [E|]; [|apply Hp; lia].
      rewrite E, He. f_equal. lia.
    + exists (n - a). repeat split; try lia.
      * intros q Hq. rewrite (Hp (i + q)) by lia. f_equal. lia.
      * replace (a + (n - a)) with n by lia. by replace (i + (n - a)) with (n - (a - i)) by lia.
Qed.

(** Equal letters: the candidate goes on. *)
Lemma scan_equal l i j q p :
  scan l i j q p -> j + q < l -> x (i + q) = x (j + q) ->
  if decide (q + 1 = p) then scan l i (j + p) 0 p else scan l i j (q + 1) p.
Proof.
  intros H Hl He. pose proof (scan_le _ _ _ _ _ H) as Hp. pose proof (scan_back _ _ _ _ _ H) as Hb.
  pose proof (fun d => scan_other l i j q p d H) as Ho.
  destruct H as [Hi (e & He1 & Hj) Hr Hbef Hh (Hpr & Hper & Hmin)].
  assert (heads i (j + q + 1)) as Hh'.
  { apply heads_extend; [done|]. intros d Hd Hpd. destruct (Ho d) as [->|[? Hn]]; [done|done|left; congruence|].
    rewrite <- He, Hb. destruct (trichotomy R (x (j + q - p)) (x (j + q - d))) as [?|[?|?]]; auto; done. }
  assert (least_period i (j + q + 1) p) as Hp'.
  { split; [lia|]. split.
    - intros k Hk Hk'. destruct (decide (k + p = j + q)) as [E|]; [|apply Hper; lia].
      rewrite E, <- He, Hb. f_equal. lia.
    - intros d Hd Hpd. destruct (decide (d = j + q + 1 - i)); [lia|]. apply Hmin; [lia|].
      intros k Hk Hk'. apply Hpd; lia. }
  case_decide.
  - replace (j + q + 1) with (j + p + 0) in Hh', Hp' by lia.
    split; [done|exists (e + 1); nia|lia|done|done|done].
  - rewrite <- Z.add_assoc in Hh', Hp'. split; [done|by exists e|lia|done|done|done].
Qed.

(** A smaller letter: what was read is one period. *)
Lemma scan_smaller l i j q p :
  scan l i j q p -> j + q < l -> R (x (j + q)) (x (i + q)) ->
  scan l i (j + q + 1) 0 (j + q + 1 - i).
Proof.
  intros H Hl HR. pose proof (scan_le _ _ _ _ _ H) as Hp. pose proof (scan_back _ _ _ _ _ H) as Hb.
  pose proof (fun d => scan_other l i j q p d H) as Ho.
  destruct H as [Hi (e & He1 & Hj) Hr Hbef Hh (Hpr & Hper & Hmin)].
  assert (forall d, 0 < d <= j + q - i -> per x i (j + q) d -> R (x (j + q)) (x (j + q - d))) as Hd.
  { intros d Hd Hpd. rewrite Hb in HR. destruct (Ho d) as [->|[? Hn]]; [done|done|done|]. by eapply R_not_cases. }
  replace (j + q + 1 - i) with (j + q + 1 + 0 - i) by lia.
  split; [done|exists 1; lia|lia|done| |].
  - rewrite Z.add_0_r. apply heads_extend; [done|]. auto.
  - split; [lia|]. split; [intros k; lia|]. intros d Hd' Hpd.
    destruct (decide (d = j + q + 1 - i)); [lia|]. exfalso.
    assert (R (x (j + q)) (x (j + q - d))) as HR'.
    { apply Hd; [lia|]. intros k Hk Hk'. apply Hpd; lia. }
    eapply R_irrefl; [|exact HR']. rewrite (Hpd (j + q - d)) by lia. f_equal. lia.
Qed.

(** A greater letter: the candidate and all its shifts are beaten. *)
Lemma scan_greater l i j q p :
  scan l i j q p -> j + q < l -> R (x (i + q)) (x (j + q)) -> scan l j (j + 1) 0 1.
Proof.
  intros H Hl HR. pose proof (scan_le _ _ _ _ _ H) as Hp.
  destruct H as [Hi (e & He1 & Hj) Hr Hbef Hh (Hpr & Hper & Hmin)].
  assert (forall k, 0 <= k < q -> x (i + k) = x (j + k)) as Hrep.
  { intros k Hk. assert (forall f, 0 <= f -> f <= e -> x (i + k) = x (i + f * p + k)) as Hf.
    { apply (natlike_ind (fun f => f <= e -> _)); [intros _; f_equal; lia|].
      intros f Hf IH Hlt. rewrite IH by lia. rewrite (Hper (i + f * p + k)) by nia. f_equal. nia. }
    rewrite (Hf e) by lia. f_equal. nia. }
  assert (mis l i j) as Hij by (exists q; repeat split; try lia; [intros k Hk; by apply Hrep|done]).
  split; [lia|exists 1; lia|lia| | |].
  - intros a Ha. destruct (decide (a < i)); [apply mis_trans with i; [apply Hbef; lia|done]|].
    destruct (decide (a = i)) as [->|]; [done|].
    destruct (Hh a) as [Hm|Hpa]; [lia|apply mis_trans with i; [|done]; eapply mis_mono; [|done]; lia|].
    exists q. repeat split; try lia.
    + intros k Hk. rewrite <- Hrep by lia. rewrite (Hpa (i + k)) by lia. f_equal. lia.
    + replace (x (a + q)) with (x (i + q)); [done|]. rewrite (Hpa (i + q)) by lia. f_equal. lia.
  - intros a. lia.
  - split; [lia|]. split; [intros k; lia|]. intros. lia.
Qed.

Lemma scan_init l : 0 < l -> scan l 0 1 0 1.
Proof.
  intros Hl. split; [lia|exists 1; lia|lia|intros; lia|intros a; lia|].
  split; [lia|]. split; [intros k; lia|]. intros. lia.
Qed.

Lemma scan_done l i j q p : scan l i j q p -> l <= j + q -> max_suffix l i p.
Proof.
  intros H Hl. pose proof (scan_le _ _ _ _ _ H). destruct H as [Hi _ [Hq Hn] Hbef Hh Hp].
  assert (j + q = l) as E by lia. rewrite E in *. split; [lia|done|done|done].
Qed.

End order.

(** ** Where a search may split the word *)

(** The larger start [c] of the maximal suffixes under an order and its
    converse; [c'] is the other one. *)
Section split.
Context (R : relation Z) `{!StrictOrder R} `{!Trichotomy R}.
Context (x : Z -> Z) (l c p c' p' : Z).
Context (Hc : max_suffix R x l c p) (Hc' : max_suffix (flip R) x l c' p') (Hle : c' <= c).

(** A repetition around [c] no longer than the right part is a period of the
    word, and longer than the left part. *)
Lemma local_repetition t :
  0 < t <= l - c -> (forall j, 0 <= j -> c - t <= j < c -> x j = x (j + t)) -> c < t /\ per x 0 l t.
Proof.
  intros Ht Hrep. destruct Hc as [Hs Hbef Hh _]. destruct Hc' as [Hs' _ Hh' _].
  destruct (decide (t <= c)) as [Hsmall|]; [exfalso|split; [lia|]].
  - destruct (Hbef (c - t)) as (k & Hk & Ha & Hb & Hq & HR); [lia|].
    assert (t <= k) as Htk.
    { destruct (decide (t <= k)); [done|exfalso]. eapply (R_irrefl R); [|exact HR].
      rewrite (Hrep (c - t + k)) by lia. f_equal. lia. }
    apply (heads_no_greater R x c l (c + t) Hh ltac:(lia)).
    exists (k - t). repeat split; try lia.
    + intros q Hq'. specialize (Hq (q + t) ltac:(lia)).
      replace (c - t + (q + t)) with (c + q) in Hq by lia. by replace (c + (q + t)) with (c + t + q) in Hq by lia.
    + replace (c + (k - t)) with (c - t + k) by lia. by replace (c + t + (k - t)) with (c + k) by lia.
  - intros j. induction (Z.lt_wf 0 j) as [j _ IH]. intros Hj Hjl.
    destruct (decide (j < c)); [apply Hrep; lia|].
    destruct (trichotomy R (x j) (x (j + t))) as [HR|[?|HR]]; [exfalso|done|exfalso].
    + apply (heads_no_greater R x c l (c + t) Hh ltac:(lia)). exists (j - c). repeat split; try lia.
      * intros q Hq. rewrite (IH (c + q)) by lia. f_equal. lia.
      * replace (c + (j - c)) with j by lia. by replace (c + t + (j - c)) with (j + t) by lia.
    + apply (heads_no_greater (flip R) x c' l (c' + t) Hh' ltac:(lia)). exists (j - c'). repeat split; try lia.
      * intros q Hq. rewrite (IH (c' + q)) by lia. f_equal. lia.
      * unfold flip. replace (c' + (j - c')) with j by lia. by replace (c' + t + (j - c')) with (j + t) by lia.
Qed.

(** A period of the word no longer than the right part makes the least period
    of the right part one of the word's left part too. *)
Lemma short_period t : c < t <= l - c -> per x 0 l t -> forall j, 0 <= j < c -> x j = x (j + p).
Proof.
  destruct (max_period _ _ _ _ _ Hc) as (Hp & Hper & Hmin). pose proof (max_start _ _ _ _ _ Hc) as Hs.
  induction (Z.lt_wf 0 t) as [t _ IH]. intros Ht Hpt.
  assert (p <= t) as Hle1 by (apply Hmin; [lia|]; intros k ? ?; apply Hpt; lia).
  destruct (decide (t = p)) as [->|]; [intros j Hj; apply Hpt; lia|].
  destruct (local_repetition (t - p)) as [H1 H2]; [lia| |].
  - intros j Hj Hjc. rewrite (Hpt j) by lia. rewrite (Hper (j + (t - p))) by lia. f_equal. lia.
  - apply (IH (t - p)); [lia|lia|done].
Qed.

(** The word's occurrence at [s] within a window [g] placed at the word. *)
Definition occurs (g : Z -> Z) (s : Z) : Prop := forall j, 0 <= j < l -> x j = g (s + j).

Section window.
Context (g : Z -> Z) (s : Z) (Hocc : occurs g s).

(** After a mismatch at [k] in the right part no occurrence starts before
    [k - c + 1]. *)
Lemma right_shift k : c <= k < l -> (forall q, c <= q < k -> x q = g q) -> x k <> g k -> ~ 0 <= s <= k - c.
Proof.
  intros Hk Hq Hne Hsr. pose proof (max_start _ _ _ _ _ Hc) as Hs.
  destruct (decide (s = 0)) as [->|]; [apply Hne, (Hocc k); lia|].
  destruct (local_repetition s) as [_ Hp]; [lia| |].
  - intros j Hj Hjc. rewrite (Hocc j), (Hq (j + s)) by lia. f_equal. lia.
  - apply Hne. specialize (Hp (k - s) ltac:(lia) ltac:(lia)). replace (k - s + s) with k in Hp by lia.
    rewrite <- Hp, (Hocc (k - s)) by lia. f_equal. lia.
Qed.

Context (Hright : forall q, c <= q < l -> x q = g q).

Lemma right_matches_repeat j : 0 <= j -> c - s <= j < c -> s <= l - c -> x j = x (j + s).
Proof. intros. rewrite (Hocc j), (Hright (j + s)) by (pose proof (max_start _ _ _ _ _ Hc); lia). f_equal. lia. Qed.

(** When the right part matches, the next occurrence is at least its least
    period away, *)
Lemma left_shift_periodic : 0 < s -> p <= s.
Proof.
  intros Hs0. destruct (max_period _ _ _ _ _ Hc) as (Hp & Hper & Hmin). pose proof (max_start _ _ _ _ _ Hc) as Hs.
  destruct (decide (p <= s)); [done|exfalso].
  destruct (local_repetition s) as [_ H]; [lia|intros; apply right_matches_repeat; lia|].
  assert (p <= s); [|lia]. apply Hmin; [lia|]. intros k ? ?. apply H; lia.
Qed.

(** and further than either part when the left part does not continue it. *)
Lemma left_shift_far j0 : 0 <= j0 < c -> x j0 <> x (j0 + p) -> 0 < s -> Z.max c (l - c + 1) <= s.
Proof.
  intros Hj0 Hne Hs0. pose proof (max_start _ _ _ _ _ Hc) as Hs.
  destruct (decide (Z.max c (l - c + 1) <= s)) as [|Hlt]; [done|exfalso].
  destruct (decide (s <= l - c)).
  - destruct (local_repetition s) as [H1 H2]; [lia|intros; apply right_matches_repeat; lia|].
    apply Hne. by apply (short_period s); [lia| |].
  - destruct (max_before _ _ _ _ _ Hc (c - s)) as (k & Hk & Ha & Hb & _ & HR); [lia|].
    eapply (R_irrefl R); [|exact HR]. rewrite (Hocc (c - s + k)), (Hright (c + k)) by lia. f_equal. lia.
Qed.

End window.

(** When the left part continues the period the word has it, and it is longer
    than the left part: what the search remembers of a shift by it. *)
Lemma periodic_word : (forall j, 0 <= j < c -> x j = x (j + p)) -> c < p /\ per x 0 l p.
Proof.
  intros H. destruct (max_period _ _ _ _ _ Hc) as (Hp & _). apply local_repetition; [lia|].
  intros j ? ?. apply H. lia.
Qed.

End split.
