(* ===== verification/WcsStr.v ===== *)
(** The substring search of [src/orbis_wchar32.c]: [wcsstr], [wcswcs] and the
    two-way search [twoway_wcsstr], equal to a search at every place of the
    haystack, and never beyond the end of either string. *)
From stdpp Require Import prelude gmap list numbers.
From S2P Require Import Prelude Memory WcString Words.
Open Scope Z_scope.
Open Scope c_scope.

Module WcsStr.

(** The loop that computes a maximal suffix of the needle [n], written out
    twice in the source: [gt] is [>] and then [<].  [SIZE_MAX] is [ip = -1]. *)
Definition maximal_suffix (gt : Z -> Z -> bool) (fuel : nat) (m : mem) (n l : Z)
    : outcome (Z * Z * Z * Z) :=
  while fuel
    (fun '(ip, jp, k, p) => Ok (u64 (jp + k) <? l))
    (fun '(ip, jp, k, p) =>
       a ← ld m (n + u64 (ip + k)); b ← ld m (n + u64 (jp + k));
       if a =? b then
         Ok (if k =? p then (ip, u64 (jp + p), 1, p) else (ip, jp, u64 (k + 1), p))
       else if gt a b then
         let jp := u64 (jp + k) in Ok (ip, jp, 1, u64 (jp - ip))
       else Ok (jp, u64 (jp + 1), 1, 1))
    (SIZE_MAX, 0, 1, 1).

(** The incremental end of the haystack: [None] when it ends within [l]. *)
Definition extend (fuel : nat) (m : mem) (h z l : Z) : outcome (option Z) :=
  if u64 (z - h) <? l then
    let grow := Z.lor l 63 in
    z2 ← wmemchr fuel m z 0 grow;
    if nonzero z2 then Ok (if u64 (z2 - h) <? l then None else Some z2)
    else Ok (Some (z + grow))
  else Ok (Some z).

Definition compare_right (fuel : nat) (m : mem) (n h k : Z) : outcome Z :=
  while fuel
    (fun k => x ← ld m (n + k); nonzero x &&& (y ← ld m (h + k); Ok (x =? y)))
    (fun k => Ok (k + 1)) k.

Definition compare_left (fuel : nat) (m : mem) (n h mm k : Z) : outcome Z :=
  while fuel
    (fun k => (mm <? k) &&& (x ← ld m (n + (k - 1)); y ← ld m (h + (k - 1)); Ok (x =? y)))
    (fun k => Ok (k - 1)) k.

(** One round of the search loop: the next [h], [z] and [mem], or the answer. *)
Definition search_step (fuel : nat) (m : mem) (n l ms p mem0 : Z) '((h, z, mm) : Z * Z * Z)
    : outcome (Z * Z * Z + Z) :=
  e ← extend fuel m h z l;
  match e with
  | None => Ok (inr NULL)
  | Some z =>
      k ← compare_right fuel m n h (Z.max (u64 (ms + 1)) mm);
      x ← ld m (n + k);
      if nonzero x then Ok (inl (h + u64 (k - ms), z, 0))
      else
        k ← compare_left fuel m n h mm (u64 (ms + 1));
        Ok (if k <=? mm then inr h else inl (h + p, z, mem0))
  end.

Definition twoway_wcsstr (fuel : nat) (m : mem) (h n : Z) : outcome Z :=
  l ← while fuel
        (fun l => x ← ld m (n + l); nonzero x &&& (y ← ld m (h + l); Ok (nonzero y)))
        (fun l => Ok (l + 1)) 0;
  x ← ld m (n + l);
  if nonzero x then Ok NULL else
  '(ip, _, _, p0) ← maximal_suffix (fun a b => b <? a) fuel m n l;
  let ms := ip in
  '(ip, _, _, p) ← maximal_suffix Z.ltb fuel m n l;
  let '(ms, p) := if u64 (ms + 1) <? u64 (ip + 1) then (ip, p) else (ms, p0) in
  d ← wmemcmp fuel m n (n + p) (u64 (ms + 1));
  let '(p, mem0) :=
    if nonzero d then (u64 (Z.max ms (u64 (l - ms - 1)) + 1), 0) else (p, u64 (l - p)) in
  loop fuel (search_step fuel m n l ms p mem0) (h, h, 0).

Definition wcsstr (fuel : nat) (m : mem) (h n : Z) : outcome Z :=
  n0 ← ld m n;
  if negb (nonzero n0) then Ok h else
  h0 ← ld m h;
  if negb (nonzero h0) then Ok NULL else
  hh ← wcschr fuel m h n0;
  if negb (nonzero hh) then Ok hh else
  n1 ← ld m (n + 1);
  if negb (nonzero n1) then Ok hh else
  h1 ← ld m (hh + 1);
  if negb (nonzero h1) then Ok NULL else
  twoway_wcsstr fuel m hh n.

Definition wcswcs (fuel : nat) (m : mem) (haystack needle : Z) : outcome Z :=
  wcsstr fuel m haystack needle.

End WcsStr.
Export WcsStr.

(** ** What a substring search answers *)

(** The first place of [xs] at which [ns] stands. *)
Fixpoint wcs_find (ns xs : list Z) : option nat :=
  if bool_decide (ns `prefix_of` xs) then Some 0%nat
  else match xs with [] => None | _ :: xs => S <$> wcs_find ns xs end.

Example wcs_find_ex : wcs_find [2; 1] [2; 2; 1; 2; 1] = Some 1%nat /\ wcs_find [] [] = Some 0%nat /\ wcs_find [1] [] = None.
Proof. done. Qed.

(** A string as a function of its index. *)
Definition at_ (xs : list Z) (i : Z) : Z := nth (Z.to_nat i) xs 0.

Definition stands (ns xs : list Z) (s : Z) : Prop := forall j, 0 <= j < zlen ns -> at_ ns j = at_ xs (s + j).

Lemma at_cons x xs i : 0 < i -> at_ (x :: xs) i = at_ xs (i - 1).
Proof. intros. unfold at_. replace (Z.to_nat i) with (S (Z.to_nat (i - 1))) by lia. done. Qed.

Lemma stands_prefix ns xs :
  Forall (fun x => x <> 0) ns -> stands ns xs 0 <-> ns `prefix_of` xs.
Proof.
  intros Hn. revert xs. induction Hn as [|n ns Hn0 _ IH]; intros xs.
  - split; [intros _; apply prefix_nil|intros _ j; cbn; lia].
  - destruct xs as [|x xs].
    + split; [|by intros ?%prefix_nil_not]. intros H. specialize (H 0 ltac:(cbn; lia)).
      change (n = 0) in H. done.
    + split.
      * intros H. pose proof (H 0 ltac:(cbn; lia)) as H0. change (n = x) in H0. subst x.
        apply prefix_cons, IH. intros j Hj. specialize (H (j + 1) ltac:(cbn [length]; lia)).
        rewrite !at_cons in H by lia. replace (j + 1 - 1) with j in H by lia.
        rewrite H. f_equal. lia.
      * intros H. pose proof (prefix_cons_inv_1 _ _ _ _ H) as ->. apply prefix_cons_inv_2, IH in H.
        intros j Hj. destruct (decide (j = 0)) as [->|]; [done|].
        rewrite Z.add_0_l, !at_cons by lia. apply (H (j - 1)). cbn [length] in Hj. lia.
Qed.

Lemma stands_cons ns x xs s : 0 <= s -> stands ns (x :: xs) (s + 1) <-> stands ns xs s.
Proof.
  intros Hs. unfold stands. split; intros H j Hj; specialize (H j Hj).
  - rewrite at_cons in H by lia. by replace (s + 1 + j - 1) with (s + j) in H by lia.
  - rewrite at_cons by lia. by replace (s + 1 + j - 1) with (s + j) by lia.
Qed.

(** [wcs_find] is the least place at which the needle stands. *)
Lemma wcs_find_spec ns xs :
  Forall (fun x => x <> 0) ns ->
  match wcs_find ns xs with
  | Some k => (k <= length xs)%nat /\ stands ns xs (Z.of_nat k) /\ forall s, 0 <= s < Z.of_nat k -> ~ stands ns xs s
  | None => forall s, 0 <= s -> ~ stands ns xs s
  end.
Proof.
  intros Hn. induction xs as [|x xs IH].
  - cbn. case_bool_decide as Hp.
    + split; [done|]. split; [by apply stands_prefix|]. intros; lia.
    + intros s Hs H. apply Hp. apply stands_prefix; [done|]. intros j Hj. rewrite (H j Hj).
      unfold at_. by rewrite !nth_overflow by (cbn; lia).
  - cbn [wcs_find]. case_bool_decide as Hp.
    + split; [cbn; lia|]. split; [by apply stands_prefix|]. intros; lia.
    + assert (~ stands ns (x :: xs) 0) as H0 by by rewrite stands_prefix.
      destruct (wcs_find ns xs) as [k|]; cbn [fmap option_fmap option_map].
      * destruct IH as (Hk & Hs & Hl). split; [cbn; lia|]. split.
        { replace (Z.of_nat (S k)) with (Z.of_nat k + 1) by lia. apply stands_cons; [lia|done]. }
        intros s Hs'. destruct (decide (s = 0)) as [->|]; [done|].
        replace s with (s - 1 + 1) by lia. rewrite stands_cons by lia. apply Hl. lia.
      * intros s Hs. destruct (decide (s = 0)) as [->|]; [done|].
        replace s with (s - 1 + 1) by lia. rewrite stands_cons by lia. apply IH. lia.
Qed.

(** ** The steps of the search *)

(** The cells of a string, and where it ends. *)
Lemma ld_at m p zs i : zstr m p zs -> 0 <= i <= zlen zs -> ld m (p + i) = Ok (at_ zs i).
Proof.
  intros Hz Hi. unfold at_. rewrite <- (ld_zstr m p zs (Z.to_nat i) Hz) by lia. f_equal. lia.
Qed.

Lemma at_nonzero m p zs i : zstr m p zs -> 0 <= i -> at_ zs i <> 0 <-> i < zlen zs.
Proof.
  intros Hz Hi. unfold at_. destruct (decide (i < zlen zs)).
  - split; [done|intros _]. eapply zstr_nonzero; [done|lia].
  - rewrite nth_overflow by lia. lia.
Qed.

Lemma nonzero_at m p zs i : zstr m p zs -> 0 <= i -> nonzero (at_ zs i) = (i <? zlen zs).
Proof.
  intros Hz Hi. apply eq_true_iff_eq. rewrite nonzero_spec, Z.ltb_lt. by apply (at_nonzero m p).
Qed.

Section strings.
Context (m : mem) (fuel : nat) (n h0 : Z) (ns xs : list Z).
Context (Hn : zstr m n ns) (Hx : zstr m h0 xs) (Hns : in_space n (zlen ns + 1)) (Hxs : in_space h0 (zlen xs + 1)).
Context (Hl : 0 < zlen ns) (Hf : (2 * (length ns + length xs) + 4 < fuel)%nat).

Let l := zlen ns.
Let len := zlen xs.
Let x := at_ ns.
Let y := at_ xs.

Lemma needle_length :
  while fuel
    (fun l => x ← ld m (n + l); nonzero x &&& (y ← ld m (h0 + l); Ok (nonzero y)))
    (fun l => Ok (l + 1)) 0 = Ok (l `min` len).
Proof.
  apply runs_ok. apply (while_total (fun k => 0 <= k <= l `min` len) (fun k => Z.to_nat (l - k))); [|lia|lia].
  intros k Hk. rewrite (ld_at m n ns) by (done || lia). rewrite bind_ok, (nonzero_at m n) by (done || lia). fold l.
  destruct (Z.ltb_spec k l); cbn [c_and runs]; [|lia].
  rewrite (ld_at m h0 xs) by (done || lia). rewrite bind_ok, (nonzero_at m h0) by (done || lia). fold len. cbn [runs].
  destruct (Z.ltb_spec k len); cbn; lia.
Qed.

(** The machine's [ip], [jp] and [k] of a state of the algorithm. *)
Definition scan_state (R : relation Z) '((ip, jp, k, p) : Z * Z * Z * Z) : Prop :=
  exists i j q, ip = u64 (i - 1) /\ jp = j - 1 /\ k = q + 1 /\ scan R x l i j q p.

Lemma u64_pred i k : 0 <= i < 2 ^ 62 -> 1 <= k < 2 ^ 62 -> u64 (u64 (i - 1) + k) = i - 1 + k.
Proof.
  intros Hi Hk. destruct (decide (i = 0)) as [->|]; [|by rewrite !u64_small by (try rewrite u64_small; lia)].
  rewrite (u64_sub_borrow (0 - 1)) by lia. unfold u64.
  replace (0 - 1 + 2 ^ 64 + k) with (0 - 1 + k + 1 * 2 ^ 64) by lia. rewrite Z.mod_add by lia. rewrite Z.mod_small; lia.
Qed.

Lemma u64_back i j : 0 <= i <= j -> j < 2 ^ 62 -> u64 (j - 1 - u64 (i - 1)) = u64 (j - i).
Proof. intros Hi Hj. unfold u64. rewrite Zminus_mod_idemp_r. f_equal. lia. Qed.

Lemma maximal_suffix_ok (R : relation Z) `{!StrictOrder R} `{!Trichotomy R} gt :
  (forall a b, gt a b = true <-> R b a) ->
  exists c p k j, maximal_suffix gt fuel m n l = Ok (u64 (c - 1), j, k, p) /\ max_suffix R x l c p.
Proof.
  intros Hgt.
  assert (runs (maximal_suffix gt fuel m n l) (fun '(ip, jp, k, p) =>
    exists i j q, ip = u64 (i - 1) /\ scan R x l i j q p /\ l <= j + q)) as H.
  { apply (while_total (scan_state R) (fun '(ip, jp, k, p) => Z.to_nat (2 * l - (u64 (ip + 1) + jp + k)))).
    - intros [[[ip jp] k] p] (i & j & q & -> & -> & -> & Hs).
      pose proof (scan_le _ _ _ _ _ _ _ Hs) as [Hp Hij]. pose proof (scan_start _ _ _ _ _ _ _ Hs) as Hi.
      pose proof (scan_read _ _ _ _ _ _ _ Hs) as [Hq Hr]. unfold in_space in *. fold l in Hns.
      rewrite u64_small by lia. cbn [runs]. destruct (Z.ltb_spec (j - 1 + (q + 1)) l).
      2: { exists i, j, q. split; [done|]. split; [done|lia]. }
      rewrite u64_pred by lia. rewrite !(ld_at m n ns) by (done || lia). rewrite !bind_ok. fold x.
      replace (i - 1 + (q + 1)) with (i + q) by lia. replace (j - 1 + (q + 1)) with (j + q) in * by lia.
      destruct (Z.eqb_spec (x (i + q)) (x (j + q))) as [E|Hne].
      + cbn [runs]. pose proof (scan_equal R x l i j q p Hs ltac:(lia) E) as Hs'.
        destruct (Z.eqb_spec (q + 1) p); [rewrite decide_True in Hs' by done|rewrite decide_False in Hs' by done].
        * pose proof (scan_read _ _ _ _ _ _ _ Hs') as [_ Hr'].
          split; [exists i, (j + p), 0; split; [done|]; split; [rewrite u64_small by lia; lia|done]|].
          rewrite !u64_pred, (u64_small (j - 1 + p)) by lia. lia.
        * split; [exists i, j, (q + 1); split; [done|]; split; [lia|]; split; [rewrite u64_small by lia; lia|done]|].
          rewrite !u64_pred, (u64_small (q + 1 + 1)) by lia. lia.
      + destruct (gt (x (i + q)) (x (j + q))) eqn:Eg; cbn [runs].
        * apply Hgt in Eg. pose proof (scan_smaller R x l i j q p Hs ltac:(lia) Eg) as Hs'.
          replace (j + q) with (j + q + 1 - 1) by lia. rewrite u64_back, (u64_small (j + q + 1 - i)) by lia.
          split; [exists i, (j + q + 1), 0; split; [done|]; split; [lia|]; split; [lia|done]|].
          rewrite !u64_pred by lia. lia.
        * assert (R (x (i + q)) (x (j + q))) as HR.
          { destruct (trichotomy R (x (i + q)) (x (j + q))) as [?|[?|HR]]; [done|done|]. apply Hgt in HR. congruence. }
          pose proof (scan_greater R x l i j q p Hs ltac:(lia) HR) as Hs'.
          rewrite (u64_small (j - 1 + 1)) by lia.
          split; [exists j, (j + 1), 0; split; [rewrite u64_small; lia|]; split; [lia|]; split; [lia|done]|].
          rewrite !u64_pred by lia. lia.
    - exists 0, 1, 0. split; [done|]. split; [done|]. split; [done|]. by apply scan_init.
    - change (u64 (SIZE_MAX + 1)) with 0. assert (0 < l) by done. lia. }
  apply runs_elim in H as ([[[ip jp] k] p] & E & i & j & q & -> & Hs & Hd).
  exists i, p, k, jp. split; [done|]. by eapply scan_done.
Qed.

(** The split the two scans give: what the search relies on. *)
Definition critical (c p : Z) : Prop :=
  exists R, StrictOrder R /\ Trichotomy R /\
    max_suffix R x l c p /\ exists c' p', max_suffix (flip R) x l c' p' /\ c' <= c.

Lemma critical_ok :
  exists c p ip1 p1 j1 k1 ip2 p2 j2 k2,
    maximal_suffix (fun a b => b <? a) fuel m n l = Ok (ip1, j1, k1, p1) /\
    maximal_suffix Z.ltb fuel m n l = Ok (ip2, j2, k2, p2) /\
    (if u64 (ip1 + 1) <? u64 (ip2 + 1) then (ip2, p2) else (ip1, p1)) = (u64 (c - 1), p) /\
    critical c p.
Proof.
  destruct (maximal_suffix_ok Z.lt (fun a b => b <? a)) as (c1 & p1 & k1 & j1 & E1 & H1); [intros; apply Z.ltb_lt|].
  destruct (maximal_suffix_ok (flip Z.lt) Z.ltb) as (c2 & p2 & k2 & j2 & E2 & H2); [intros; unfold flip; apply Z.ltb_lt|].
  pose proof (max_start _ _ _ _ _ H1). pose proof (max_start _ _ _ _ _ H2). unfold in_space in *. fold l in Hns.
  rewrite E1, E2.
  destruct (Z.ltb_spec (u64 (u64 (c1 - 1) + 1)) (u64 (u64 (c2 - 1) + 1))) as [Hlt|Hlt];
    rewrite !u64_pred in Hlt by lia; rewrite ?(u64_small (c1 - 1 + 1)), ?(u64_small (c2 - 1 + 1)) in Hlt by lia.
  - exists c2, p2. do 8 eexists. split; [done|]. split; [done|].
    rewrite !u64_pred by lia. destruct (Z.ltb_spec (c1 - 1 + 1) (c2 - 1 + 1)); [|lia]. split; [done|].
    exists (flip Z.lt). split; [apply _|]. split; [apply _|]. split; [done|]. exists c1, p1. split; [exact H1|lia].
  - exists c1, p1. do 8 eexists. split; [done|]. split; [done|].
    rewrite !u64_pred by lia. destruct (Z.ltb_spec (c1 - 1 + 1) (c2 - 1 + 1)); [lia|]. split; [done|].
    exists Z.lt. split; [apply _|]. split; [apply _|]. split; [done|]. exists c2, p2. split; [exact H2|lia].
Qed.

(** [wmemcmp] is zero exactly on equal cells. *)
Lemma wmemcmp_zero p q k :
  0 <= p -> 0 <= q -> 0 <= k -> p + k <= l + 1 -> q + k <= l + 1 ->
  exists d, wmemcmp fuel m (n + p) (n + q) k = Ok d /\
    (if nonzero d then exists j, 0 <= j < k /\ x (p + j) <> x (q + j) else forall j, 0 <= j < k -> x (p + j) = x (q + j)).
Proof.
  intros Hp Hq Hk Hpk Hqk.
  assert (runs (while fuel
    (fun '(n, l, r) => nonzero n &&& (x ← ld m l; y ← ld m r; Ok (x =? y)))
    (fun '(n, l, r) => Ok (n - 1, l + 1, r + 1)) (k, n + p, n + q)) (fun '(e, a, b) =>
      exists j, 0 <= j <= k /\ e = k - j /\ a = n + (p + j) /\ b = n + (q + j) /\
        (forall i, 0 <= i < j -> x (p + i) = x (q + i)) /\ (j < k -> x (p + j) <> x (q + j)))) as H.
  { apply (while_total (fun '(e, a, b) =>
      exists j, 0 <= j <= k /\ e = k - j /\ a = n + (p + j) /\ b = n + (q + j) /\
        (forall i, 0 <= i < j -> x (p + i) = x (q + i))) (fun '(e, _, _) => Z.to_nat e)); [|by exists 0; repeat split; (lia || intros; lia)|].
    2: { unfold l in *. lia. }
    intros [[e a] b] (j & Hj & -> & -> & -> & Heq). destruct (decide (j = k)) as [->|].
    - replace (k - k) with 0 by lia. cbn. exists k. repeat split; try lia; done.
    - rewrite nonzero_true by lia. cbn [c_and].
      rewrite !(ld_at m n ns) by (done || (unfold l in *; lia)). rewrite !bind_ok. cbn [runs]. fold x.
      destruct (Z.eqb_spec (x (p + j)) (x (q + j))) as [E|E]; cbn [runs].
      + split; [|lia]. exists (j + 1). repeat split; try lia.
        intros i Hi. destruct (decide (i = j)) as [->|]; [done|apply Heq; lia].
      + exists j. repeat split; try lia; done. }
  apply runs_elim in H as ([[e a] b] & E & j & Hj & -> & -> & -> & Heq & Hne).
  unfold wmemcmp. rewrite E, bind_ok. destruct (decide (j = k)) as [->|].
  - replace (k - k) with 0 by lia. exists 0. split; [done|]. cbn. done.
  - rewrite nonzero_true by lia. rewrite !(ld_at m n ns) by (done || (unfold l in *; lia)). rewrite !bind_ok.
    eexists. split; [done|]. rewrite nonzero_true; [exists j; split; [lia|apply Hne; lia]|].
    rewrite cmp3_zero. apply Hne. lia.
Qed.

(** [wmemchr] for the terminator, from within the haystack. *)
Lemma wmemchr_end zz k :
  0 <= zz <= len -> 0 <= k ->
  wmemchr fuel m (h0 + zz) 0 k = Ok (if decide (len - zz < k) then h0 + len else NULL).
Proof.
  intros Hz Hk. unfold wmemchr.
  assert (runs (while fuel
    (fun '(n, s) => nonzero n &&& (x ← ld m s; Ok (negb (x =? 0))))
    (fun '(n, s) => Ok (n - 1, s + 1)) (k, h0 + zz)) (fun st =>
      st = let e := Z.min k (len - zz) in (k - e, h0 + zz + e))) as H.
  { apply (while_total (fun '(e, s) => exists j, 0 <= j <= Z.min k (len - zz) /\ e = k - j /\ s = h0 + (zz + j))
      (fun '(_, s) => Z.to_nat (h0 + len - s))); [|exists 0; split_and!; lia|unfold len in *; lia].
    intros [e s] (j & Hj & -> & ->). destruct (decide (j = k)) as [->|].
    - replace (k - k) with 0 by lia. cbn. f_equal; lia.
    - rewrite nonzero_true by lia. cbn [c_and]. rewrite (ld_at m h0 xs) by (done || (unfold len in *; lia)).
      rewrite bind_ok. change (negb (at_ xs (zz + j) =? 0)) with (nonzero (at_ xs (zz + j))).
      rewrite (nonzero_at m h0) by (done || lia). fold len. cbn [runs]. destruct (Z.ltb_spec (zz + j) len); cbn [runs].
      + split; [exists (j + 1); split_and!; lia|lia].
      + f_equal; lia. }
  apply runs_ok in H. rewrite H, bind_ok. cbn zeta. case_decide.
  - rewrite nonzero_true by lia. f_equal. lia.
  - by replace (k - Z.min k (len - zz)) with 0 by lia.
Qed.

Lemma lor_ge a b : 0 <= a -> 0 <= b -> a <= Z.lor a b.
Proof.
  intros Ha Hb. replace (Z.lor a b) with (a + Z.ldiff b a); [|].
  - assert (0 <= Z.ldiff b a) by (apply Z.ldiff_nonneg; auto). lia.
  - assert (Z.land a (Z.ldiff b a) = 0) as H0.
    { apply Z.bits_inj'. intros i Hi. rewrite Z.land_spec, Z.ldiff_spec, Z.bits_0. by destruct (Z.testbit a i), (Z.testbit b i). }
    rewrite Z.add_nocarry_lxor, Z.lxor_lor by done.
    apply Z.bits_inj'. intros i Hi. rewrite !Z.lor_spec, Z.ldiff_spec. by destruct (Z.testbit a i), (Z.testbit b i).
Qed.

(** The end of the haystack that is known is past the window. *)
Lemma extend_ok pos zz :
  0 <= pos <= zz -> zz <= len ->
  (exists z', extend fuel m (h0 + pos) (h0 + zz) l = Ok (Some (h0 + z')) /\ pos + l <= z' <= len) \/
  (extend fuel m (h0 + pos) (h0 + zz) l = Ok None /\ len < pos + l).
Proof.
  intros Hp Hz. unfold extend, in_space in *. fold l in Hns. fold len in Hxs.
  replace (h0 + zz - (h0 + pos)) with (zz - pos) by lia. rewrite u64_small by lia.
  destruct (Z.ltb_spec (zz - pos) l); [|left; exists zz; split; [done|lia]].
  pose proof (lor_ge l 63 ltac:(lia) ltac:(lia)) as Hg. rewrite wmemchr_end by lia. rewrite bind_ok.
  case_decide; cbn [nonzero NULL Z.eqb negb].
  - rewrite nonzero_true by lia. replace (h0 + len - (h0 + pos)) with (len - pos) by lia. rewrite u64_small by lia.
    destruct (Z.ltb_spec (len - pos) l); [right; split; [done|lia]|left; exists len; split; [done|lia]].
  - left. exists (zz + Z.lor l 63). split; [do 2 f_equal; lia|lia].
Qed.

Lemma compare_right_ok pos k0 :
  0 <= pos -> pos + l <= len -> 0 <= k0 <= l ->
  exists k, compare_right fuel m n (h0 + pos) k0 = Ok k /\ k0 <= k <= l /\
    (forall q, k0 <= q < k -> x q = y (pos + q)) /\ (k < l -> x k <> y (pos + k)).
Proof.
  intros Hp Hlen Hk0. apply runs_elim.
  apply (while_total (fun k => k0 <= k <= l /\ forall q, k0 <= q < k -> x q = y (pos + q)) (fun k => Z.to_nat (l - k)));
    [|split; [lia|intros; lia]|lia].
  intros k [Hk Hq]. rewrite (ld_at m n ns) by (done || lia). rewrite bind_ok, (nonzero_at m n) by (done || lia). fold l.
  destruct (Z.ltb_spec k l); cbn [c_and runs].
  - replace (h0 + pos + k) with (h0 + (pos + k)) by lia. rewrite (ld_at m h0 xs) by (done || lia).
    rewrite bind_ok. fold x y. cbn [runs]. destruct (Z.eqb_spec (x k) (y (pos + k))); cbn [runs].
    + split; [|lia]. split; [lia|]. intros q Hq'. destruct (decide (q = k)) as [->|]; [done|apply Hq; lia].
    + done.
  - split; [lia|]. split; [done|lia].
Qed.

Lemma compare_left_ok pos mm c :
  0 <= pos -> pos + l <= len -> 0 <= mm -> 0 <= c <= l ->
  exists k, compare_left fuel m n (h0 + pos) mm c = Ok k /\ k <= c /\
    (forall q, k <= q < c -> x q = y (pos + q)) /\ (mm < k -> x (k - 1) <> y (pos + (k - 1))).
Proof.
  intros Hp Hlen Hmm Hc. apply runs_elim.
  apply (while_total (fun k => Z.min mm c <= k <= c /\ forall q, k <= q < c -> x q = y (pos + q)) (fun k => Z.to_nat k));
    [|split; [lia|intros; lia]|lia].
  intros k [Hk Hq]. destruct (Z.ltb_spec mm k); cbn [c_and runs]; [|split; [lia|split; [done|lia]]].
  replace (h0 + pos + (k - 1)) with (h0 + (pos + (k - 1))) by lia.
  rewrite (ld_at m n ns), (ld_at m h0 xs) by (done || lia). rewrite !bind_ok. fold x y. cbn [runs].
  destruct (Z.eqb_spec (x (k - 1)) (y (pos + (k - 1)))); cbn [runs].
  - split; [|lia]. split; [lia|]. intros q Hq'. destruct (decide (q = k - 1)) as [->|]; [done|apply Hq; lia].
  - split; [lia|]. done.
Qed.

(** What the search needs of the start [c] of the right part, of the shift [p]
    and of what is remembered across it. *)
Record plan (c p mem0 : Z) : Prop := {
  plan_start : 0 <= c < l;
  plan_right : forall g s k, occurs x l g s -> c <= k < l -> (forall q, c <= q < k -> x q = g q) -> x k <> g k ->
    ~ 0 <= s <= k - c;
  plan_shift : 0 < p <= l;
  plan_left : forall g s, occurs x l g s -> (forall q, c <= q < l -> x q = g q) -> 0 < s -> p <= s;
  plan_mem : mem0 = 0 \/ c < p /\ per x 0 l p /\ mem0 = l - p }.

Lemma plan_ok c p :
  critical c p ->
  exists d, wmemcmp fuel m n (n + p) c = Ok d /\
    let '(p', mem0) :=
      if nonzero d then (u64 (Z.max (u64 (c - 1)) (u64 (l - u64 (c - 1) - 1)) + 1), 0) else (p, u64 (l - p)) in
    plan c p' mem0.
Proof.
  intros (R & HR & HT & H & c' & p' & H' & Hle). pose proof (max_start _ _ _ _ _ H) as Hs.
  destruct (max_period _ _ _ _ _ H) as (Hp & Hper & Hmin). unfold in_space in *. fold l in Hns.
  destruct (wmemcmp_zero 0 p c) as (d & Ed & Hd); [lia..|]. rewrite Z.add_0_r in Ed. exists d. split; [done|].
  assert (forall g s k, occurs x l g s -> c <= k < l -> (forall q, c <= q < k -> x q = g q) -> x k <> g k ->
    ~ 0 <= s <= k - c) as Hright by (intros g s k Ho; by eapply (right_shift R x l c p c' p')).
  destruct (nonzero d).
  - destruct Hd as (j0 & Hj0 & Hne). assert (u64 (c - 1) = c - 1) as -> by (apply u64_small; lia).
    rewrite (u64_small (l - _ - 1)), u64_small by lia.
    replace (Z.max (c - 1) (l - (c - 1) - 1) + 1) with (Z.max c (l - c + 1)) by lia.
    split; [done|done|lia| |by left]. intros g s Ho Hr.
    apply (left_shift_far R x l c p c' p' H H' Hle g s Ho Hr j0); [lia|].
    by replace (j0 + p) with (p + j0) by lia.
  - destruct (periodic_word R x l c p c' p' H H' Hle) as [Hcp Hpl].
    { intros j Hj. rewrite (Z.add_comm j p). by apply Hd. }
    rewrite u64_small by lia. split; [done|done|lia| |by right].
    intros g s Ho Hr. by eapply (left_shift_periodic R x l c p c' p').
Qed.

(** ** The search *)

(** Nothing stands before the window at [pos], and its first [mm] cells are
    known to match. *)
Definition searching '((h, z, mm) : Z * Z * Z) : Prop :=
  exists pos zz, h = h0 + pos /\ z = h0 + zz /\ 0 <= pos <= zz /\ zz <= len /\ 0 <= mm < l /\
    (forall s, 0 <= s < pos -> ~ stands ns xs s) /\ (forall j, 0 <= j < mm -> x j = y (pos + j)).

Definition answer (r : Z) : Prop :=
  (r = NULL /\ forall s, 0 <= s -> ~ stands ns xs s) \/
  (exists pos, r = h0 + pos /\ 0 <= pos /\ stands ns xs pos /\ forall s, 0 <= s < pos -> ~ stands ns xs s).

Lemma stands_at pos s : stands ns xs (pos + s) -> occurs x l (fun i => y (pos + i)) s.
Proof. intros H j Hj. unfold x, y. rewrite (H j Hj). f_equal. lia. Qed.

(** A shift by [d] that passes over no occurrence. *)
Lemma skip pos d :
  (forall s, 0 <= s < pos -> ~ stands ns xs s) -> (forall s, 0 <= s < d -> ~ stands ns xs (pos + s)) ->
  forall s, 0 <= s < pos + d -> ~ stands ns xs s.
Proof.
  intros H1 H2 s Hs. destruct (decide (s < pos)); [apply H1; lia|].
  replace s with (pos + (s - pos)) by lia. apply H2. lia.
Qed.

Lemma no_room pos : 0 <= pos -> len < pos + l -> ~ stands ns xs pos.
Proof.
  intros Hp Hlt H. set (j := Z.max 0 (len - pos)). specialize (H j ltac:(lia)).
  assert (at_ xs (pos + j) = 0) as E.
  { pose proof (nonzero_at m h0 xs (pos + j) Hx ltac:(lia)) as E. fold len in E.
    destruct (Z.ltb_spec (pos + j) len); [lia|]. unfold nonzero in E. destruct (Z.eqb_spec (at_ xs (pos + j)) 0); done. }
  rewrite E in H. pose proof (nonzero_at m n ns j Hn ltac:(lia)) as E'. rewrite H in E'. fold l in E'.
  destruct (Z.ltb_spec j l); [done|lia].
Qed.

Lemma search_step_ok c p mem0 :
  plan c p mem0 -> forall s, searching s ->
  runs (search_step fuel m n l (u64 (c - 1)) p mem0 s) (fun r =>
    match r with
    | inl s' => searching s' /\ (Z.to_nat (h0 + len - s'.1.1) < Z.to_nat (h0 + len - s.1.1))%nat
    | inr r => answer r
    end).
Proof.
  intros [Hc Hright Hp Hleft Hmem] [[h z] mm] (pos & zz & -> & -> & Hpos & Hzz & Hmm & Hno & Hknown).
  unfold in_space in *. fold l in Hns. fold len in Hxs. unfold search_step.
  destruct (extend_ok pos zz Hpos Hzz) as [(z' & -> & Hz')|[-> Hend]]; rewrite bind_ok.
  2: { left. split; [done|]. intros s Hs. destruct (decide (s < pos)); [apply Hno; lia|apply no_room; lia]. }
  rewrite u64_pred by lia. replace (c - 1 + 1) with c by lia.
  destruct (compare_right_ok pos (Z.max c mm)) as (k & -> & Hk & Hkq & Hkne); [lia..|]. rewrite bind_ok.
  assert (forall q, c <= q < k -> x q = y (pos + q)) as Hq.
  { intros q Hq. destruct (decide (q < mm)); [apply Hknown; lia|apply Hkq; lia]. }
  rewrite (ld_at m n ns) by (done || lia). rewrite bind_ok, (nonzero_at m n) by (done || lia). fold l.
  destruct (Z.ltb_spec k l).
  - replace (u64 (k - u64 (c - 1))) with (k - c + 1).
    2: { replace (k - u64 (c - 1)) with (k + 1 - 1 - u64 (c - 1)) by lia. rewrite u64_back by lia. rewrite u64_small by lia. lia. }
    cbn [runs]. split; [|cbn; lia].
    exists (pos + (k - c + 1)), z'. split_and!; try lia.
    apply skip; [done|]. intros s Hs Hst. apply stands_at in Hst.
    by apply (Hright _ _ k Hst ltac:(lia) Hq (Hkne ltac:(lia))); lia.
  - assert (k = l) as -> by lia.
    destruct (compare_left_ok pos mm c) as (k' & -> & Hk' & Hkq' & Hkne'); [lia..|]. rewrite bind_ok. cbn [runs].
    destruct (Z.leb_spec k' mm).
    + right. exists pos. split; [done|]. split; [lia|]. split; [|done]. intros j Hj. fold x y.
      destruct (decide (j < mm)); [apply Hknown; lia|]. destruct (decide (j < c)); [apply Hkq'; lia|apply Hq; lia].
    + split; [|cbn; lia]. exists (pos + p), z'. split_and!; try lia.
      * apply skip; [done|]. intros s Hs Hst. destruct (decide (s = 0)) as [->|].
        { apply (Hkne' ltac:(lia)). rewrite Z.add_0_r in Hst. apply (Hst (k' - 1)). lia. }
        apply stands_at in Hst. assert (p <= s); [|lia]. by apply (Hleft _ _ Hst Hq); lia.
      * intros j Hj. destruct Hmem as [->|(Hcp & Hper & ->)]; [lia|].
        rewrite (Hper j), (Hq (j + p)) by lia. f_equal. lia.
Qed.

Lemma twoway_ok : runs (twoway_wcsstr fuel m h0 n) answer.
Proof.
  unfold twoway_wcsstr. rewrite needle_length, bind_ok.
  rewrite (ld_at m n ns) by (done || lia). rewrite bind_ok, (nonzero_at m n) by (done || lia). fold l.
  destruct (Z.ltb_spec (l `min` len) l).
  { left. split; [done|]. intros s Hs. apply no_room; lia. }
  replace (l `min` len) with l by lia.
  destruct critical_ok as (c & p & ip1 & p1 & j1 & k1 & ip2 & p2 & j2 & k2 & -> & -> & E & Hc). rewrite !bind_ok.
  rewrite E. assert (0 <= c < l) as Hcl by (destruct Hc as (R & _ & _ & Hm & _); by apply (max_start _ _ _ _ _ Hm)).
  unfold in_space in *. fold l in Hns. rewrite u64_pred by lia. replace (c - 1 + 1) with c by lia.
  destruct (plan_ok c p Hc) as (d & -> & Hplan). rewrite bind_ok.
  destruct (if nonzero d then _ else _) as [p' mem0].
  apply (loop_total searching (fun s => Z.to_nat (h0 + len - s.1.1))).
  - intros s Hs. eapply runs_mono; [by apply (search_step_ok c p' mem0)|]. intros [s'|r]; done.
  - exists 0, 0. split_and!; try lia; intros; lia.
  - cbn. lia.
Qed.

End strings.

(** ** The entry points *)

Lemma at_drop xs k i : 0 <= i -> at_ (drop k xs) i = at_ xs (Z.of_nat k + i).
Proof.
  intros Hi. unfold at_. rewrite !nth_lookup, lookup_drop.
  by replace (Z.to_nat (Z.of_nat k + i)) with (k + Z.to_nat i)%nat by lia.
Qed.

Lemma stands_drop ns xs k s : 0 <= s -> stands ns (drop k xs) s <-> stands ns xs (Z.of_nat k + s).
Proof.
  intros Hs. unfold stands. apply forall_proper. intros j. split; intros H Hj; specialize (H Hj).
  - rewrite at_drop in H by lia. by rewrite <- Z.add_assoc.
  - rewrite at_drop by lia. by rewrite Z.add_assoc.
Qed.

(** The first letter of the needle is not met before its scan stops. *)
Lemma no_first n0 ns xs s :
  0 <= s < Z.of_nat (span_len (fun c => negb (c =? n0)) xs) -> ~ stands (n0 :: ns) xs s.
Proof.
  intros Hs H. specialize (H 0 ltac:(cbn; lia)). change (n0 = at_ xs (s + 0)) in H. rewrite Z.add_0_r in H.
  pose proof (span_len_before (fun c => negb (c =? n0)) xs (Z.to_nat s)) as Hb. cbn beta in Hb.
  unfold at_ in H. rewrite <- H, Z.eqb_refl in Hb. discriminate Hb. lia.
Qed.

(** An answer is the one of [wcs_find]. *)
Lemma answer_find h ns xs r :
  Forall (fun c => c <> 0) ns ->
  (r = NULL /\ (forall s, 0 <= s -> ~ stands ns xs s)) \/
  (exists pos, r = h + pos /\ 0 <= pos /\ stands ns xs pos /\ forall s, 0 <= s < pos -> ~ stands ns xs s) ->
  r = match wcs_find ns xs with Some k => h + Z.of_nat k | None => NULL end.
Proof.
  intros Hn H. pose proof (wcs_find_spec ns xs Hn) as Hf. destruct (wcs_find ns xs) as [k|].
  - destruct Hf as (_ & Hk & Hl). destruct H as [[_ H]|(pos & -> & Hpos & Hs & H)].
    + exfalso. apply (H (Z.of_nat k)); [lia|done].
    + destruct (Z.lt_trichotomy pos (Z.of_nat k)) as [?|[->|?]]; [|done|].
      * exfalso. by apply (Hl pos).
      * exfalso. apply (H (Z.of_nat k)); [lia|done].
  - destruct H as [[-> _]|(pos & _ & Hpos & Hs & _)]; [done|]. exfalso. by apply (Hf pos).
Qed.

(** C2: for every haystack and needle, [wcsstr] and [wcswcs] end and answer
    the first place at which the needle stands (null when there is none), as a
    comparison at every place would, and read no cell outside the two
    strings: the maximal suffixes, their periods and the shifts of the two-way
    search are right on every input. *)
Theorem wcsstr_correct m fuel h n xs ns
  (Hx : zstr m h xs) (Hn : zstr m n ns) (Hxs : in_space h (zlen xs + 1)) (Hns : in_space n (zlen ns + 1))
  (Hf : (2 * (length ns + length xs) + 4 < fuel)%nat) :
  let r := match wcs_find ns xs with Some k => h + Z.of_nat k | None => NULL end in
  wcsstr fuel m h n = Ok r /\ wcswcs fuel m h n = Ok r.
Proof.
  intros r. assert (wcsstr fuel m h n = Ok r) as H; [|by split]. unfold wcsstr, r. clear r.
  pose proof (proj2 Hn) as Hnz. destruct ns as [|n0 ns].
  { apply zstr_nil in Hn. rewrite (ld_ok _ _ _ Hn), bind_ok. cbn [nonzero Z.eqb negb]. f_equal.
    destruct xs; cbn; case_bool_decide as Hp; try lia; exfalso; by apply Hp, prefix_nil. }
  pose proof Hn as Hn'. apply zstr_cons in Hn' as (Hn0 & Hnn0 & Hn'). rewrite (ld_ok _ _ _ Hn0), bind_ok, nonzero_true by done. cbn [negb].
  destruct xs as [|x0 xs].
  { apply zstr_nil in Hx. rewrite (ld_ok _ _ _ Hx), bind_ok. cbn.
    case_bool_decide as Hp; [by apply prefix_nil_not in Hp|done]. }
  pose proof Hx as Hx'. apply zstr_cons in Hx' as (Hx0 & Hxn0 & _). rewrite (ld_ok _ _ _ Hx0), bind_ok, nonzero_true by done. cbn [negb].
  remember (x0 :: xs) as ys eqn:Hys. clear Hx0 Hxn0 Hys x0 xs.
  rewrite (wcschr_scan m fuel h ys n0 Hx Hnn0) by lia. rewrite bind_ok. set (k := span_len _ ys).
  destruct (decide (k < length ys)%nat) as [Hk|Hk].
  2: { cbn [nonzero NULL Z.eqb negb]. f_equal. apply (answer_find h); [done|]. left. split; [done|]. intros s Hs Hst.
       destruct (decide (s < Z.of_nat k)); [by apply (no_first n0 ns ys s)|].
       pose proof (span_len_le (fun c => negb (c =? n0)) ys) as Hle. fold k in Hle.
       by eapply (no_room m fuel n h (n0 :: ns) ys); [..|exact Hs| |exact Hst]; try done; cbn [length] in *; lia. }
  assert (Hfirst : forall s, 0 <= s < Z.of_nat k -> ~ stands (n0 :: ns) ys s) by (intros s; apply no_first).
  assert (Hk0 : at_ ys (Z.of_nat k) = n0).
  { pose proof (span_len_stop (fun c => negb (c =? n0)) ys Hk) as E. cbn beta in E. fold k in E.
    unfold at_. rewrite Nat2Z.id. destruct (Z.eqb_spec (nth k ys 0) n0); done. }
  pose proof (zstr_drop m h ys k ltac:(lia) Hx) as Hd. unfold in_space in *.
  rewrite nonzero_true by lia. cbn [negb].
  pose proof (ld_at m n (n0 :: ns) 1 Hn ltac:(cbn [length]; lia)) as E1. rewrite E1, bind_ok.
  rewrite (nonzero_at m n) by (done || lia). destruct (Z.ltb_spec 1 (zlen (n0 :: ns))) as [Hl|Hl]; cbn [negb].
  2: { f_equal. apply (answer_find h); [done|]. right. exists (Z.of_nat k). split; [done|]. split; [lia|]. split; [|done].
       intros j Hj. replace j with 0 by lia. rewrite Z.add_0_r, Hk0. done. }
  pose proof (ld_at m (h + Z.of_nat k) (drop k ys) 1 Hd) as E2. rewrite length_drop in E2. rewrite E2 by lia.
  rewrite bind_ok, (nonzero_at m (h + Z.of_nat k)) by (done || lia). rewrite length_drop.
  destruct (Z.ltb_spec 1 (Z.of_nat (length ys - k))) as [Hl2|Hl2]; cbn [negb].
  2: { f_equal. apply (answer_find h); [done|]. left. split; [done|]. intros s Hs Hst.
       destruct (decide (s < Z.of_nat k)); [by apply (Hfirst s)|].
       by eapply (no_room m fuel n h (n0 :: ns) ys); [..|exact Hs| |exact Hst]; try done; lia. }
  pose proof (twoway_ok m fuel n (h + Z.of_nat k) (n0 :: ns) (drop k ys) Hn Hd) as H.
  unfold in_space in H. rewrite length_drop in H.
  destruct (runs_elim _ _ (H ltac:(lia) ltac:(lia) ltac:(lia) ltac:(lia))) as (r & -> & Ha). clear H.
  f_equal. apply answer_find; [done|].
  destruct Ha as [[-> Hno]|(pos & -> & Hp & Hst & Hno)]; [left|right].
  - split; [done|]. intros s Hs. destruct (decide (s < Z.of_nat k)); [apply Hfirst; lia|].
    replace s with (Z.of_nat k + (s - Z.of_nat k)) by lia. rewrite <- stands_drop by lia. apply Hno. lia.
  - exists (Z.of_nat k + pos). split; [lia|]. split; [lia|]. split; [by apply stands_drop|].
    intros s Hs. destruct (decide (s < Z.of_nat k)); [apply Hfirst; lia|].
    replace s with (Z.of_nat k + (s - Z.of_nat k)) by lia. rewrite <- stands_drop by lia. apply Hno. lia.
Qed.

(** A periodic needle ([1 2 1 2 1]) after a near miss, and one whose halves do
    not agree. *)
Definition search_mem : mem :=
  write (write (write ∅ 100 [3; 1; 2; 1; 2; 2; 1; 2; 1; 2; 1; 9; 0]) 200 [1; 2; 1; 2; 1; 0]) 300 [2; 2; 1; 2; 0].

Lemma wcsstr_correct_witness :
  wcsstr 100 search_mem 100 200 = Ok 106 /\ wcsstr 100 search_mem 100 300 = Ok 104 /\
  wcsstr 100 search_mem 200 300 = Ok NULL.
Proof.
  split; [|split].
  - refine (proj1 (wcsstr_correct search_mem 100 100 200 [3; 1; 2; 1; 2; 2; 1; 2; 1; 2; 1; 9] [1; 2; 1; 2; 1] _ _ _ _ _));
      [layout|layout|split; cbn; lia|split; cbn; lia|cbn; lia].
  - refine (proj1 (wcsstr_correct search_mem 100 100 300 [3; 1; 2; 1; 2; 2; 1; 2; 1; 2; 1; 9] [2; 2; 1; 2] _ _ _ _ _));
      [layout|layout|split; cbn; lia|split; cbn; lia|cbn; lia].
  - refine (proj1 (wcsstr_correct search_mem 100 200 300 [1; 2; 1; 2; 1] [2; 2; 1; 2] _ _ _ _ _));
      [layout|layout|split; cbn; lia|split; cbn; lia|cbn; lia].
Defined.
