(* ===== verification/WcConvN.v ===== *)
(** The conversions of [src/orbis_wchar32.c] that are bounded on both sides,
    [mbsnrtowcs] and [wcsnrtombs]: at most so many bytes or characters are
    read, at most so many are written, and the input need not end in a
    terminator.  As in [WcConv] multibyte and wide strings are in two
    memories. *)
From stdpp Require Import prelude gmap list numbers.
From S2P Require Import Prelude Memory Utf8Spec Utf8 WcConv.
Open Scope Z_scope.
Open Scope c_scope.

Module ConvN.

(** The locals of [mbsnrtowcs], the caller's state ([None]: a null [st]) and
    the static state [mbrtowc] falls back on. *)
Record locals := mk_locals {
  n_mem : mem; n_ws : Z; n_s : Z; n_n : Z; n_wn : Z; n_cnt : Z;
  n_st : option Z; n_internal : Z; n_errno : option errno_t }.

(** The local [wbuf], at an address of its own. *)
Definition wbuf_len : Z := 256.
Definition wbuf : mem := write ∅ 16 (replicate 256 0).

Definition set_state (st_ : option Z) (internal c : Z) : option Z * Z :=
  match st_ with Some _ => (Some c, internal) | None => (None, c) end.

(** The first loop: whole pieces through [mbsrtowcs]; [in_wbuf]: [ws == wbuf]. *)
Definition pieces (fuel : nat) (mb : mem) (in_wbuf : bool) : locals -> outcome locals :=
  loop fuel (fun v =>
    let n2 := n_n v / 4 in
    if negb (n_s v =? 0) && negb (n_wn v =? 0) && ((n_wn v <=? n2) || (32 <? n2)) then
      let n2 := if n_wn v <=? n2 then n_wn v else n2 in
      let tmp_s := n_s v in
      r ← mbsrtowcs fuel mb (n_mem v) (n_ws v) (n_s v) n2 (n_st v);
      let l := cv_ret r in
      let s := cv_src r in
      if u64 (l + 1) =? 0 then
        Ok (inr (mk_locals (cv_mem r) (n_ws v) s (n_n v) 0 l (cv_st r) (n_internal v) (cv_errno r)))
      else
        let '(ws, wn) := if in_wbuf then (n_ws v, n_wn v) else (n_ws v + l, u64 (n_wn v - l)) in
        let n := if negb (s =? 0) then u64 (n_n v - (s - tmp_s)) else 0 in
        Ok (inl (mk_locals (cv_mem r) ws s n wn (u64 (n_cnt v + l)) (cv_st r) (n_internal v) (n_errno v)))
    else Ok (inr v)).

(** The second loop: one character at a time. *)
Definition characters (fuel : nat) (mb : mem) : locals -> outcome locals :=
  loop fuel (fun v =>
    if negb (n_wn v =? 0) && negb (n_n v =? 0) then
      r ← mbrtowc fuel mb (n_s v) (n_n v) (default (n_internal v) (n_st v));
      mw ← match mb_wc r with Some w => st (n_mem v) (n_ws v) w | None => Ok (n_mem v) end;
      let '(st_, internal) := set_state (n_st v) (n_internal v) (mb_st r) in
      let l := mb_ret r in
      if u64 (l + 2) <=? 2 then
        if u64 (l + 1) =? 0 then
          Ok (inr (mk_locals mw (n_ws v) (n_s v) (n_n v) (n_wn v) l st_ internal (mb_errno r)))
        else if l =? 0 then
          Ok (inr (mk_locals mw (n_ws v) 0 (n_n v) (n_wn v) (n_cnt v) st_ internal (n_errno v)))
        else
          match st_ with
          | None => Fault
          | Some _ => Ok (inr (mk_locals mw (n_ws v) (n_s v) (n_n v) (n_wn v) (n_cnt v) (Some 0) internal (n_errno v)))
          end
      else
        Ok (inl (mk_locals mw (n_ws v + 1) (n_s v + l) (u64 (n_n v - l)) (u64 (n_wn v - 1)) (u64 (n_cnt v + 1))
                   st_ internal (n_errno v)))
    else Ok (inr v)).

(** [src] is [*src] before the call and, in the result, after it. *)
Definition mbsnrtowcs (fuel : nat) (mb mw : mem) (wcs src n wn : Z) (st_ : option Z) (internal : Z) : outcome conv :=
  let in_wbuf := wcs =? 0 in
  let v := if in_wbuf then mk_locals wbuf 16 src n wbuf_len 0 st_ internal None
           else mk_locals mw wcs src n wn 0 st_ internal None in
  v ← pieces fuel mb in_wbuf v;
  v ← (if negb (n_s v =? 0) then characters fuel mb v else Ok v);
  Ok (mk_conv (n_cnt v) (if in_wbuf then mw else n_mem v) (if in_wbuf then src else n_s v) (n_st v) (n_errno v)).

(** [memcpy(dst, tmp, l)], from the local [tmp]. *)
Fixpoint memcpy (from mb : mem) (d s : Z) (l : nat) : outcome mem :=
  match l with
  | O => Ok mb
  | S l => x ← ld from s; mb ← st mb d x; memcpy from mb (d + 1) (s + 1) l
  end.

(** [W32_MB_LEN_MAX] and the local [tmp]. *)
Definition mb_len_max : Z := 4.
Definition tmp : mem := write ∅ 16 [0; 0; 0; 0].

(** [dst], [ws], [wn], [n] and [cnt] between rounds; [None] for a null [dst]. *)
Definition wcsn_loop (fuel : nat) (mw : mem)
    : mem * Z * Z * Z * Z * Z -> outcome (mem * Z * Z * option errno_t) :=
  loop fuel (fun '(mb, dst, ws, wn, n, cnt) =>
    if negb (ws =? 0) && negb (wn =? 0) then
      x ← ld mw ws;
      '(t, mb1, l, e) ←
        (if n <? mb_len_max then ('(t, l, e) ← wcrtomb tmp 16 x; Ok (t, mb, l, e))
         else ('(mb1, l, e) ← wcrtomb mb dst x; Ok (tmp, mb1, l, e)));
      if l =? SIZE_MAX then Ok (inr (mb1, ws, u64 (-1), e))
      else if negb (dst =? 0) && (n <? mb_len_max) && (n <? l) then Ok (inr (mb1, ws, cnt, None))
      else
        mb2 ← (if negb (dst =? 0) && (n <? mb_len_max) then memcpy t mb1 dst 16 (Z.to_nat l) else Ok mb1);
        let '(dst, n) := if negb (dst =? 0) then (dst + l, n - l) else (dst, n) in
        if x =? 0 then Ok (inr (mb2, 0, cnt, None))
        else Ok (inl (mb2, dst, ws + 1, wn - 1, n, u64 (cnt + l)))
    else Ok (inr (mb, ws, cnt, None))).

Definition wcsnrtombs (fuel : nat) (mw mb : mem) (dst wcs wn n : Z) : outcome conv :=
  let n := if dst =? 0 then 0 else n in
  '(mb, ws, cnt, e) ← wcsn_loop fuel mw (mb, dst, wcs, wn, n, 0);
  Ok (mk_conv cnt mb (if dst =? 0 then wcs else ws) None e).

End ConvN.
Export ConvN.

(** ** [wcsnrtombs] *)

Lemma memcpy_ok from xs : forall mb d s,
  array from s xs -> mapped mb d (zlen xs) -> memcpy from mb d s (length xs) = Ok (write mb d xs).
Proof.
  induction xs as [|x xs IH]; intros mb d s Ha Hm; [done|]. cbn [length memcpy write] in *.
  apply array_cons in Ha as [Hx Ha]. rewrite (ld_ok _ _ _ Hx), bind_ok, st_ok, bind_ok by (apply Hm; lia).
  apply IH; [done|]. apply mapped_insert. eapply mapped_sub; [exact Hm|lia|lia].
Qed.

(** The input is [xs], ended by its terminator ([term]) or by [wn]. *)
Definition wide_input (mw : mem) (ws wn : Z) (xs : list Z) (term : bool) : Prop :=
  Forall (fun w => wchar w /\ w <> 0) xs /\
  if term then array mw ws (xs ++ [0]) /\ zlen xs < wn else array mw ws xs /\ wn = zlen xs.

Lemma wide_input_cons mw ws wn w xs term :
  wide_input mw ws wn (w :: xs) term ->
  ld mw ws = Ok w /\ wchar w /\ w <> 0 /\ 0 < wn /\ wide_input mw (ws + 1) (wn - 1) xs term.
Proof.
  intros [[[Hw H0] Hxs]%List.Forall_cons_iff Hin].
  assert (m : mw !! ws = Some w /\ 0 < wn /\ if term then array mw (ws + 1) (xs ++ [0]) /\ zlen xs < wn - 1 else array mw (ws + 1) xs /\ wn - 1 = zlen xs).
  { destruct term; destruct Hin as [Ha Hn]; cbn [app length] in *; apply array_cons in Ha as [? ?]; split_and!; try done; lia. }
  destruct m as (Hld & Hwn & Hin'). split_and!; [by apply ld_ok|done|done|done|]. by split.
Qed.

(** What is made of [xs]: the encodings of the longest prefix that fits, the
    terminator when it fits too, and an error when it is stopped by a
    character that has no encoding. *)
Definition wcsn_result (mb : mem) (dst ws n cnt : Z) (xs : list Z) (term : bool) : mem * Z * Z * option errno_t :=
  let '(cs, rest) := fitting n xs in
  let l := zlen (utf8s cs) in
  match rest with
  | w :: _ =>
      if scalar_b w then (write mb dst (utf8s cs), ws + zlen cs, cnt + l, None)
      else (write mb dst (utf8s cs), ws + zlen cs, SIZE_MAX, Some EILSEQ)
  | [] =>
      if term && (l <? n) then (write mb dst (utf8s cs ++ [0]), 0, cnt + l, None)
      else (write mb dst (utf8s cs), ws + zlen cs, cnt + l, None)
  end.

(** The bytes it needs. *)
Definition wcsn_room (n : Z) (xs : list Z) (term : bool) : Z :=
  Z.min n (zlen (utf8s (fst (fitting n xs))) + Z.b2z term).

Lemma wcsn_result_char mb dst ws n cnt w xs term :
  scalar w -> zlen (utf8 w) <= n ->
  wcsn_result mb dst ws n cnt (w :: xs) term =
    wcsn_result (write mb dst (utf8 w)) (dst + zlen (utf8 w)) (ws + 1) (n - zlen (utf8 w)) (cnt + zlen (utf8 w)) xs term.
Proof.
  intros Hw Hn. unfold wcsn_result. cbn [fitting].
  rewrite (proj2 (scalar_b_spec w) Hw), (proj2 (Z.leb_le _ _) Hn). cbn [andb].
  destruct (fitting _ xs) as [cs rest]. cbn [utf8s]. rewrite <- !app_assoc, !write_app.
  replace (zlen (utf8 w ++ utf8s cs)) with (zlen (utf8 w) + zlen (utf8s cs)) by (rewrite length_app; lia).
  replace (zlen (w :: cs)) with (1 + zlen cs) by (cbn [length]; lia). rewrite !Z.add_assoc.
  replace (zlen (utf8 w) + zlen (utf8s cs) <? n) with (zlen (utf8s cs) <? n - zlen (utf8 w))
    by (apply eq_true_iff_eq; rewrite !Z.ltb_lt; lia). done.
Qed.

Lemma wcsn_room_char n w xs term :
  scalar w -> zlen (utf8 w) <= n ->
  wcsn_room n (w :: xs) term = zlen (utf8 w) + wcsn_room (n - zlen (utf8 w)) xs term.
Proof.
  intros Hw Hn. unfold wcsn_room. cbn [fitting].
  rewrite (proj2 (scalar_b_spec w) Hw), (proj2 (Z.leb_le _ _) Hn). cbn [andb].
  destruct (fitting _ xs) as [cs rest]. cbn [fst utf8s]. rewrite length_app. lia.
Qed.

Lemma wcrtomb_tmp w : scalar w -> wcrtomb tmp 16 w = Ok (write tmp 16 (utf8 w), zlen (utf8 w), None).
Proof.
  intros Hw. pose proof (utf8_size w). apply wcrtomb_ok; [done|lia|].
  apply (mapped_sub tmp 16 4); [by apply mapped_check|lia|lia].
Qed.

(** One character that fits, through [tmp] or directly, is stored; the rest of
    the round is the test for the terminator. *)
Lemma wcsn_char f mw mb dst ws wn n cnt w :
  ld mw ws = Ok w -> scalar w -> ws <> 0 -> 0 < wn -> 0 < dst -> zlen (utf8 w) <= n ->
  mapped mb dst (zlen (utf8 w)) -> 0 <= cnt -> cnt + 4 < 2 ^ 64 ->
  wcsn_loop (S f) mw (mb, dst, ws, wn, n, cnt) =
    if w =? 0 then Ok (write mb dst (utf8 w), 0, cnt, None)
    else wcsn_loop f mw (write mb dst (utf8 w), dst + zlen (utf8 w), ws + 1, wn - 1, n - zlen (utf8 w), cnt + zlen (utf8 w)).
Proof.
  intros Hld Hw Hws Hwn Hd Hn Hm Hc1 Hc2. pose proof (utf8_size w) as Hsz.
  unfold wcsn_loop at 1. rewrite loop_step. cbn beta iota.
  rewrite (proj2 (Z.eqb_neq ws 0)), (proj2 (Z.eqb_neq wn 0)), (proj2 (Z.eqb_neq dst 0)) by lia. cbn [negb andb].
  rewrite Hld, bind_ok. unfold mb_len_max.
  assert ((zlen (utf8 w) =? SIZE_MAX) = false) as Hne by (apply Z.eqb_neq; unfold SIZE_MAX; lia).
  destruct (Z.ltb_spec n 4).
  - rewrite wcrtomb_tmp, !bind_ok by done. cbn beta iota. rewrite Hne, (proj2 (Z.ltb_ge n _)) by lia.
    rewrite Nat2Z.id, memcpy_ok, bind_ok by (done || apply array_write). rewrite (u64_small (cnt + _)) by lia. by destruct (w =? 0).
  - rewrite wcrtomb_ok, !bind_ok by (done || lia). cbn beta iota. cbn [andb]. rewrite Hne, (u64_small (cnt + _)) by lia. by destruct (w =? 0).
Qed.

(** The ends: no encoding, and no room. *)
Lemma wcsn_bad f mw mb dst ws wn n cnt w :
  ld mw ws = Ok w -> wchar w -> ~ scalar w -> ws <> 0 -> 0 < wn -> (4 <= n -> dst <> 0) ->
  wcsn_loop (S f) mw (mb, dst, ws, wn, n, cnt) = Ok (mb, ws, SIZE_MAX, Some EILSEQ).
Proof.
  intros Hld Hw Hsc Hws Hwn Hd. unfold wcsn_loop. rewrite loop_step. cbn beta iota.
  rewrite (proj2 (Z.eqb_neq ws 0)), (proj2 (Z.eqb_neq wn 0)) by lia. cbn [negb andb].
  rewrite Hld, bind_ok. unfold mb_len_max. destruct (Z.ltb_spec n 4).
  - by rewrite (wcrtomb_bad tmp 16 w Hsc Hw ltac:(lia)).
  - by rewrite (wcrtomb_bad mb dst w Hsc Hw ltac:(lia)).
Qed.

Lemma wcsn_unfit f mw mb dst ws wn n cnt w :
  ld mw ws = Ok w -> scalar w -> n < zlen (utf8 w) -> ws <> 0 -> 0 < wn -> dst <> 0 ->
  wcsn_loop (S f) mw (mb, dst, ws, wn, n, cnt) = Ok (mb, ws, cnt, None).
Proof.
  intros Hld Hw Hn Hws Hwn Hd. pose proof (utf8_size w) as Hsz. unfold wcsn_loop. rewrite loop_step. cbn beta iota.
  rewrite (proj2 (Z.eqb_neq ws 0)), (proj2 (Z.eqb_neq wn 0)), (proj2 (Z.eqb_neq dst 0)) by lia. cbn [negb andb].
  rewrite Hld, bind_ok. unfold mb_len_max. rewrite (proj2 (Z.ltb_lt n 4)), wcrtomb_tmp, !bind_ok by (done || lia).
  cbn beta iota. rewrite (proj2 (Z.eqb_neq _ SIZE_MAX)), (proj2 (Z.ltb_lt n _)) by (unfold SIZE_MAX; lia). done.
Qed.

Lemma wcsn_stop f mw mb dst ws n cnt : wcsn_loop (S f) mw (mb, dst, ws, 0, n, cnt) = Ok (mb, ws, cnt, None).
Proof. unfold wcsn_loop. rewrite loop_step. cbn. by rewrite andb_false_r. Qed.

Lemma wcsn_ok xs : forall f mw mb dst ws wn n cnt term,
  wide_input mw ws wn xs term -> 0 < ws -> 0 < dst -> 0 <= n -> mapped mb dst (wcsn_room n xs term) ->
  0 <= cnt -> cnt + 4 * (zlen xs + 1) < 2 ^ 64 -> (length xs + 1 < f)%nat ->
  wcsn_loop f mw (mb, dst, ws, wn, n, cnt) = Ok (wcsn_result mb dst ws n cnt xs term).
Proof.
  induction xs as [|w xs IH]; intros f mw mb dst ws wn n cnt term Hin Hws Hd Hn Hm Hc Hcb Hf;
    (destruct f as [|f]; [exfalso; clear - Hf; lia|]).
  - destruct Hin as [_ Hin]. unfold wcsn_result, wcsn_room in *. cbn [fitting fst utf8s length] in *.
    change (Z.of_nat 0) with 0 in *. rewrite !Z.add_0_r in *. destruct term; cbn [andb Z.b2z] in *.
    + destruct Hin as [Ha Hwn]. apply array_cons in Ha as [Hx _]. apply ld_ok in Hx.
      assert (utf8 0 = [0]) as Hu by done. assert (scalar 0) as Hsc by (unfold scalar; lia).
      destruct (Z.ltb_spec 0 n).
      * rewrite wcsn_char with (w := 0) by (rewrite ?Hu; done || (cbn [length]; lia) || (eapply mapped_sub; [exact Hm|lia|cbn; lia])).
        done.
      * assert (n = 0) as -> by lia. rewrite wcsn_unfit with (w := 0) by (rewrite ?Hu; done || (cbn [length]; lia)). done.
    + destruct Hin as [_ ->]. by rewrite wcsn_stop.
  - destruct (wide_input_cons _ _ _ _ _ _ Hin) as (Hld & Hw & Hw0 & Hwn & Hin'). pose proof (utf8_size w) as Hsz.
    cbn [length] in Hcb, Hf. destruct (scalar_b w) eqn:Hsc.
    + pose proof (proj1 (scalar_b_spec w) Hsc) as Hs. destruct (Z.le_gt_cases (zlen (utf8 w)) n) as [Hfit|Hun].
      * rewrite (wcsn_room_char n w xs term Hs Hfit) in Hm.
        assert (0 <= wcsn_room (n - zlen (utf8 w)) xs term) by (unfold wcsn_room; destruct term; cbn [Z.b2z]; lia).
        rewrite wcsn_char with (w := w) by (done || lia || (eapply mapped_sub; [exact Hm|lia|lia])).
        rewrite (proj2 (Z.eqb_neq w 0) Hw0), wcsn_result_char by done.
        apply IH; try done; try lia. apply mapped_write. eapply mapped_sub; [exact Hm|lia|lia].
      * rewrite wcsn_unfit with (w := w) by (done || lia). unfold wcsn_result. cbn [fitting].
        rewrite Hsc, (proj2 (Z.leb_gt _ n)) by lia. cbn [andb]. rewrite Hsc. cbn. by rewrite !Z.add_0_r.
    + rewrite wcsn_bad with (w := w) by (done || lia || (rewrite <- scalar_b_spec; congruence)).
      unfold wcsn_result. cbn [fitting]. rewrite Hsc. cbn. by rewrite Hsc, Z.add_0_r.
Qed.

(** A null destination: [tmp] takes every character. *)
Lemma wcsn_count_ok xs : forall f mw mb ws wn cnt term,
  wide_input mw ws wn xs term -> 0 < ws -> 0 <= cnt -> cnt + 4 * (zlen xs + 1) < 2 ^ 64 -> (length xs + 1 < f)%nat ->
  exists ws', wcsn_loop f mw (mb, 0, ws, wn, 0, cnt) =
    Ok (if forallb scalar_b xs then (mb, ws', cnt + zlen (utf8s xs), None) else (mb, ws', SIZE_MAX, Some EILSEQ)).
Proof.
  induction xs as [|w xs IH]; intros f mw mb ws wn cnt term Hin Hws Hc Hcb Hf;
    (destruct f as [|f]; [exfalso; clear - Hf; lia|]).
  - destruct Hin as [_ Hin]. cbn [forallb utf8s length]. change (Z.of_nat 0) with 0. rewrite Z.add_0_r. destruct term.
    + destruct Hin as [Ha Hwn]. apply array_cons in Ha as [Hx _]. apply ld_ok in Hx.
      exists 0. unfold wcsn_loop. rewrite loop_step. cbn beta iota.
      rewrite (proj2 (Z.eqb_neq ws 0)), (proj2 (Z.eqb_neq wn 0)) by (cbn [length] in *; lia). cbn [negb andb].
      rewrite Hx, bind_ok. done.
    + destruct Hin as [_ ->]. exists ws. by rewrite wcsn_stop.
  - destruct (wide_input_cons _ _ _ _ _ _ Hin) as (Hld & Hw & Hw0 & Hwn & Hin'). pose proof (utf8_size w) as Hsz.
    cbn [length forallb utf8s] in *. destruct (scalar_b w) eqn:Hsc; cbn [andb].
    + pose proof (proj1 (scalar_b_spec w) Hsc) as Hs.
      destruct (IH f mw mb (ws + 1) (wn - 1) (cnt + zlen (utf8 w)) term) as (ws' & E); [done|lia|lia|lia|lia|].
      exists ws'. unfold wcsn_loop at 1. rewrite loop_step. cbn beta iota.
      rewrite (proj2 (Z.eqb_neq ws 0)), (proj2 (Z.eqb_neq wn 0)) by lia. cbn [negb andb Z.eqb].
      rewrite Hld, bind_ok. unfold mb_len_max. cbn [Z.ltb Z.compare]. rewrite wcrtomb_tmp, !bind_ok by done. cbn beta iota.
      rewrite (proj2 (Z.eqb_neq _ SIZE_MAX)) by (unfold SIZE_MAX; lia). cbn [andb]. rewrite ?bind_ok, (proj2 (Z.eqb_neq w 0) Hw0).
      rewrite (u64_small (cnt + _)) by lia. etransitivity; [exact E|]. by rewrite length_app, Nat2Z.inj_add, Z.add_assoc.
    + exists ws. rewrite wcsn_bad with (w := w) by (done || lia || (rewrite <- scalar_b_spec; congruence)). done.
Qed.

(** [wcsnrtombs] on any [wn] wide characters, or fewer when a terminator
    comes first: a null [dst] makes it return the bytes their encodings take,
    or [EILSEQ] when some character has none.  Otherwise it stores the
    encodings of the longest prefix that fits [n] bytes, never a part of one,
    with the terminator and a null source when that fits too; a character that
    has no encoding is [EILSEQ] with the source at it, even when no room is
    left.  Nothing behind the announced bytes is written and nothing behind
    the input is read. *)
Theorem wcsnrtombs_correct fuel mw mb dst ws wn n xs term
  (Hin : wide_input mw ws wn xs term) (Hws : 0 < ws) (Hn : 0 <= n) (Hb : 4 * (zlen xs + 1) < 2 ^ 64)
  (Hf : (length xs + 1 < fuel)%nat) :
  wcsnrtombs fuel mw mb 0 ws wn n =
    Ok (if forallb scalar_b xs then mk_conv (zlen (utf8s xs)) mb ws None None
        else mk_conv SIZE_MAX mb ws None (Some EILSEQ)) /\
  (0 < dst -> mapped mb dst (wcsn_room n xs term) ->
   wcsnrtombs fuel mw mb dst ws wn n =
     Ok (let '(mb', ws', cnt, e) := wcsn_result mb dst ws n 0 xs term in mk_conv cnt mb' ws' None e)).
Proof.
  split.
  - destruct (wcsn_count_ok xs fuel mw mb ws wn 0 term) as (ws' & E); [done|lia..|].
    unfold wcsnrtombs. cbn [Z.eqb]. rewrite E. by destruct (forallb _ _).
  - intros Hd Hm. unfold wcsnrtombs. rewrite (proj2 (Z.eqb_neq dst 0)) by lia.
    rewrite (wcsn_ok xs) with (term := term) by (done || lia).
    by destruct (wcsn_result _ _ _ _ _ _ _) as [[[? ?] ?] ?].
Qed.

Lemma wcsnrtombs_witness :
  wcsnrtombs 10 demo_mw demo_mb 0 100 2 0 = Ok (mk_conv 4 demo_mb 100 None None) /\
  wcsnrtombs 10 demo_mw demo_mb 200 100 9 3 = Ok (mk_conv 1 (write demo_mb 200 [65]) 101 None None).
Proof.
  split.
  - apply (wcsnrtombs_correct 10 demo_mw demo_mb 200 100 2 0 [65; 0x20ac] false);
      [split; [repeat constructor; unfold wchar; lia|split; [layout|done]]|lia|lia|cbn; lia|cbn; lia].
  - refine (proj2 (wcsnrtombs_correct 10 demo_mw demo_mb 200 100 9 3 [65; 0x20ac; 66] true _ _ _ _ _) _ _);
      [split; [repeat constructor; unfold wchar; lia|split; [layout|cbn; lia]]|lia|lia|cbn; lia|cbn; lia|lia|].
    by apply mapped_check.
Defined.

(** ** [mbsnrtowcs] *)

(** A run of bytes is the encoding of some wide characters and a tail at which
    none starts: it is empty, ill-formed, cut off inside a character, or
    starts with the terminator. *)
Definition ends (tail : list Z) : Prop := forall w len, decode tail = Some (Done w len) -> head tail = Some 0.

Lemma decode_done_nul tail w len : Forall byte tail -> decode tail = Some (Done w len) -> head tail = Some 0 -> w = 0.
Proof.
  intros Hby Hd Hh. destruct tail as [|b tail]; [done|]. injection Hh as ->. cbn in Hd. congruence.
Qed.

Lemma decompose_run bs :
  Forall byte bs -> exists cs tail, bs = utf8s cs ++ tail /\ Forall wide cs /\ ends tail.
Proof.
  remember (length bs) as n eqn:Hn. revert bs Hn. induction n as [n IH] using lt_wf_ind. intros bs -> Hby.
  destruct (decode bs) as [[w len|p|]|] eqn:Hd; [|exists [], bs; split_and!; [done|constructor|intros ? ? ?; congruence]..].
  destruct (decode_done bs w len Hby Hd) as (Hw & Hlen & rest & Heq). destruct (decide (w = 0)) as [->|Hw0].
  - exists [], bs. split_and!; [done|constructor|]. intros w' len' _. by rewrite Heq.
  - rewrite Heq in Hby |- *. apply Forall_app in Hby as [_ Hby]. pose proof (utf8_size w).
    destruct (IH (length rest)) with (bs := rest) as (cs & r & -> & Hcs & Hr); [rewrite Heq, length_app; lia|done|done|].
    exists (w :: cs), r. cbn. rewrite app_assoc. split_and!; [done| |done]. by constructor.
Qed.

(** Four bytes are enough to see what is there. *)
Lemma halts_long tail : Forall byte tail -> ends tail -> 4 <= zlen tail -> halts tail.
Proof.
  intros Hby He Hl. destruct (decode tail) as [[w len|p|]|] eqn:Hd; [left; by eapply He|exfalso|by right|].
  - destruct (decode_more tail p Hby Hd) as (w & t & _ & Ht & Hu). pose proof (utf8_size w) as Hsz.
    rewrite Hu, length_app in Hsz. destruct t; [done|]. cbn [length] in Hsz. lia.
  - destruct tail; [cbn in Hl; lia|done].
Qed.

Lemma halts_head tail : Forall byte tail -> halts tail -> ends tail ->
  match decode tail with
  | Some (Done w _) => w = 0 /\ bool_decide (head tail = Some 0) = true
  | Some Bad => bool_decide (head tail = Some 0) = false
  | _ => False
  end.
Proof.
  intros Hby Hh He. destruct Hh as [Hh|Hd].
  - destruct tail as [|b tail]; [done|]. injection Hh as ->. cbn. done.
  - rewrite Hd. apply bool_decide_false. intros Hh. destruct tail as [|b tail]; [done|]. injection Hh as ->. done.
Qed.

Lemma utf8s_size cs : zlen cs <= zlen (utf8s cs) <= 4 * zlen cs \/ ~ Forall wide cs.
Proof.
  induction cs as [|w cs IH]; [left; cbn; lia|]. cbn [utf8s length]. rewrite length_app. pose proof (utf8_size w).
  destruct IH as [IH|IH]; [left; lia|right]. by intros [_ ?]%wide_cons.
Qed.

Section mbsn.
Context (fuel : nat) (mb mw : mem) (in_wbuf : bool) (wcs src wn internal : Z) (cs tail : list Z).
Context (Ha : array mb src (utf8s cs ++ tail)) (Hcs : Forall wide cs) (Hby : Forall byte tail) (He : ends tail).
Context (Hsrc : 0 < src) (Hlen : zlen (utf8s cs ++ tail) < 2 ^ 62) (Hwn : 0 <= wn < 2 ^ 64).
Context (Hwcs : 0 < wcs) (Hm : if in_wbuf then True else mapped mw wcs (Z.min wn (zlen cs + 1))).
Context (Hf : (length (utf8s cs ++ tail) + 1 < fuel)%nat).

Let left_ (k : nat) : list Z := utf8s (drop k cs) ++ tail.
Let at_ (k : nat) : Z := src + zlen (utf8s (take k cs)).

Lemma left_length k : zlen (utf8s (take k cs)) + zlen (left_ k) = zlen (utf8s cs ++ tail).
Proof.
  unfold left_. rewrite <- (take_drop k cs) at 3. rewrite utf8s_app, !length_app. lia.
Qed.

Lemma left_array k : array mb (at_ k) (left_ k) /\ Forall byte (left_ k).
Proof.
  unfold left_, at_. split.
  - assert (utf8s cs = utf8s (take k cs) ++ utf8s (drop k cs)) as E by by rewrite <- utf8s_app, take_drop.
    rewrite E, <- app_assoc in Ha. by apply array_app in Ha as [_ ?].
  - apply tail_byte; [|done]. by apply Forall_drop.
Qed.

Lemma count_bounds : zlen cs <= zlen (utf8s cs) <= 4 * zlen cs.
Proof. by destruct (utf8s_size cs). Qed.

(** After the first [k] characters. *)
Record after (k : nat) (v : locals) : Prop := {
  af_k : (k <= length cs)%nat;
  af_s : n_s v = at_ k;
  af_n : n_n v = zlen (left_ k);
  af_cnt : n_cnt v = Z.of_nat k;
  af_st : n_st v = Some 0;
  af_errno : n_errno v = None;
  af_dst : if in_wbuf then mapped (n_mem v) 16 256 /\ 16 <= n_ws v /\ n_ws v + n_wn v = 272 /\ 0 <= n_wn v
           else n_mem v = write mw wcs (take k cs) /\ n_ws v = wcs + Z.of_nat k /\ n_wn v = wn - Z.of_nat k /\ Z.of_nat k <= wn }.

(** The three ends: at the terminator, at an ill-formed sequence, and where
    the room or the input is used up. *)
Record done_at (cnt s : Z) (e : option errno_t) (stored : list Z) (v : locals) : Prop := {
  do_cnt : n_cnt v = cnt;
  do_s : n_s v = s;
  do_st : n_st v = Some 0;
  do_errno : n_errno v = e;
  do_mem : in_wbuf = false -> n_mem v = write mw wcs stored }.

Definition room_left : Prop := in_wbuf = false -> zlen cs < wn.

Definition at_nul (v : locals) : Prop :=
  room_left /\ (exists w len, decode tail = Some (Done w len)) /\ done_at (zlen cs) 0 None (cs ++ [0]) v.
Definition at_bad (v : locals) : Prop :=
  room_left /\ decode tail = Some Bad /\ done_at SIZE_MAX (src + zlen (utf8s cs)) (Some EILSEQ) cs v.
Definition at_full (v : locals) : Prop :=
  in_wbuf = false /\ wn <= zlen cs /\ done_at wn (at_ (Z.to_nat wn)) None (take (Z.to_nat wn) cs) v.
Definition at_cut (v : locals) : Prop :=
  room_left /\ (decode tail = None \/ exists p, decode tail = Some (More p)) /\
  done_at (zlen cs) (src + zlen (utf8s cs)) None cs v.

Lemma at_all : at_ (length cs) = src + zlen (utf8s cs).
Proof. unfold at_. by rewrite take_ge. Qed.
Lemma left_all : left_ (length cs) = tail.
Proof. unfold left_. by rewrite drop_ge. Qed.
Lemma at_pos k : 0 < at_ k.
Proof. unfold at_. lia. Qed.

(** One piece: [n2] characters, or all there are and what stops them. *)
Lemma piece_ok v k n2 :
  after k v -> 0 < n2 -> n2 <= n_wn v -> 4 * n2 <= n_n v -> (in_wbuf = true -> n_ws v = 16) ->
  exists nul, mbsrtowcs fuel mb (n_mem v) (n_ws v) (n_s v) n2 (n_st v) =
    Ok (mbs_stored (n_mem v) (n_ws v) (n_s v) n2 (Some 0) (drop k cs) nul) /\
    (zlen (drop k cs) < n2 ->
      match decode tail with Some (Done _ _) => nul = true | Some Bad => nul = false | _ => False end).
Proof.
  intros [Hk Hs Hn Hc Hst Hee Hd] Hp Hw H4 Hws. exists (bool_decide (head tail = Some 0)).
  pose proof (left_length k) as Hll. pose proof (left_array k) as [Hla Hlb]. pose proof count_bounds.
  rewrite Hs, Hn, Hst in *.
  assert (zlen (drop k cs) < n2 -> halts tail) as Hh.
  { intros Hlt. apply halts_long; [done|done|]. unfold left_ in H4. rewrite length_app in H4.
    destruct (utf8s_size (drop k cs)) as [?|[]]; [lia|by apply Forall_drop]. }
  assert (Hdw : Forall wide (drop k cs)) by by apply Forall_drop.
  assert (Hnz : n_ws v <> 0).
  { destruct in_wbuf; [rewrite Hws by done; lia|]. destruct Hd as (_ & -> & _). lia. }
  assert (Hmap : mapped (n_mem v) (n_ws v) (Z.min n2 (zlen (drop k cs) + 1))).
  { rewrite length_drop. destruct in_wbuf.
    - destruct Hd as (Hmm & _ & ? & _). rewrite Hws in * by done. eapply mapped_sub; [exact Hmm|lia|lia].
    - destruct Hd as (-> & -> & E & _). apply mapped_write. eapply mapped_sub; [exact Hm|lia|lia]. }
  rewrite (length_app (utf8s cs) tail) in *. split.
  - apply mbsrtowcs_stored; try done; rewrite ?length_drop; lia.
  - intros Hlt. pose proof (halts_head tail Hby (Hh Hlt) He). by destruct (decode tail) as [[| |]|]; intuition.
Qed.



Lemma write_rest k ys : (k <= length cs)%nat ->
  write (write mw wcs (take k cs)) (wcs + Z.of_nat k) (drop k cs ++ ys) = write mw wcs (cs ++ ys).
Proof.
  intros Hk. rewrite <- (take_drop k cs) at 3. rewrite <- app_assoc, (write_app mw wcs (take k cs)).
  by rewrite length_take, Nat.min_l by lia.
Qed.

(** What the first loop leaves. *)
Definition pieced (v : locals) : Prop :=
  (exists k, after k v /\ (in_wbuf = true -> n_wn v = 256 /\ n_n v < 132)) \/ at_nul v \/ (at_bad v /\ n_wn v = 0).

Lemma after_advance k d v mw' :
  after k v -> (k + d <= length cs)%nat ->
  (if in_wbuf then mapped mw' 16 256 else Z.of_nat (k + d) <= wn /\ mw' = write (n_mem v) (n_ws v) (take d (drop k cs))) ->
  after (k + d) (mk_locals mw' (if in_wbuf then n_ws v else n_ws v + Z.of_nat d) (at_ (k + d)) (zlen (left_ (k + d)))
    (if in_wbuf then n_wn v else n_wn v - Z.of_nat d) (Z.of_nat (k + d)) (Some 0) (n_internal v) None).
Proof.
  intros [Hk Hs Hn Hc Hst Hee Hd] Hkd Hmem. split; try done. cbn [n_mem n_ws n_wn]. destruct in_wbuf.
  - destruct Hd as (_ & ? & ? & ?). split_and!; [done|lia..].
  - destruct Hd as (E & E1 & E2 & ?). destruct Hmem as [Hle ->]. split_and!; try lia.
    rewrite E, E1. rewrite <- take_take_drop, write_app, length_take, Nat.min_l by lia. done.
Qed.

Lemma at_add k d : at_ k + zlen (utf8s (take d (drop k cs))) = at_ (k + d).
Proof. unfold at_. rewrite <- take_take_drop, utf8s_app, length_app. lia. Qed.

Lemma pieces_ok v :
  after 0 v -> (in_wbuf = true -> n_ws v = 16) -> runs (pieces fuel mb in_wbuf v) pieced.
Proof.
  intros Hv Hv16. pose proof count_bounds as Hcb. pose proof Hf as Hf'. pose proof Hlen as Hlen'.
  rewrite (length_app (utf8s cs)) in Hf', Hlen'.
  apply (loop_total (fun v => (exists k, after k v /\ (in_wbuf = true -> n_ws v = 16)) \/ at_nul v)
    (fun v => if n_s v =? 0 then 0%nat else S (length cs - Z.to_nat (n_cnt v))));
    [|left; by exists 0%nat|destruct Hv as [_ _ _ -> _ _ _]; destruct (_ =? 0); lia].
  clear v Hv Hv16. intros v [(k & Hv & H16)|Hnul].
  2: { assert (n_s v = 0) as -> by (by destruct Hnul as (_ & _ & [])). cbn. right. by left. }
  pose proof Hv as [Hk Hs Hn Hc Hst Hee Hd]. pose proof (left_length k) as Hll. rewrite (length_app (utf8s cs)) in Hll.
  assert (0 <= n_wn v < 2 ^ 64) as Hwv by (destruct in_wbuf; destruct Hd as (_ & ? & ? & ?); lia).
  pose proof (at_pos k). rewrite (proj2 (Z.eqb_neq (n_s v) 0)) by lia. cbn [negb andb].
  destruct (Z.eqb_spec (n_wn v) 0) as [Hw0|Hw0]; cbn [negb andb].
  { left. exists k. split; [done|]. intros Hb. exfalso. rewrite Hb in Hd. rewrite (H16 Hb) in Hd. lia. }
  destruct ((n_wn v <=? n_n v / 4) || (32 <? n_n v / 4)) eqn:Hcond.
  2: { left. exists k. split; [done|]. intros Hb. rewrite Hb in Hd. rewrite (H16 Hb) in Hd.
       apply orb_false_iff in Hcond as [?%Z.leb_gt ?%Z.ltb_ge]. split; [lia|dlia]. }
  set (n2 := if n_wn v <=? n_n v / 4 then n_wn v else n_n v / 4).
  assert (0 < n2 /\ n2 <= n_wn v /\ 4 * n2 <= n_n v) as (Hn2 & Hn2w & Hn2n).
  { unfold n2. apply orb_true_iff in Hcond. rewrite Z.leb_le, Z.ltb_lt in Hcond.
    destruct (Z.leb_spec (n_wn v) (n_n v / 4)); dlia. }
  destruct (piece_ok v k n2 Hv Hn2 Hn2w Hn2n H16) as (nul & E & Hend). rewrite E, bind_ok. clear E Hcond.
  assert (Hcell : in_wbuf = true -> forall xs, mapped (write (n_mem v) (n_ws v) xs) 16 256).
  { intros Hb xs. apply mapped_write. rewrite Hb in Hd. tauto. }
  clearbody n2. unfold mbs_stored. rewrite length_drop in *. destruct (Z.leb_spec n2 (Z.of_nat (length cs - k))) as [Hle|Hgt].
  - cbn [cv_ret cv_src cv_mem cv_st]. rewrite (u64_small (n2 + 1)), (proj2 (Z.eqb_neq (n2 + 1) 0)) by lia.
    rewrite Hs, at_add. pose proof (at_pos (k + Z.to_nat n2)). rewrite (proj2 (Z.eqb_neq (at_ _) 0)) by lia. cbn [negb].
    pose proof (left_length (k + Z.to_nat n2)) as Hll2. rewrite (length_app (utf8s cs)) in Hll2.
    assert (u64 (n_n v - (at_ (k + Z.to_nat n2) - at_ k)) = zlen (left_ (k + Z.to_nat n2))) as ->.
    { unfold at_. rewrite u64_small by lia. lia. }
    assert (after (k + Z.to_nat n2) (mk_locals (write (n_mem v) (n_ws v) (take (Z.to_nat n2) (drop k cs)))
      (if in_wbuf then n_ws v else n_ws v + Z.of_nat (Z.to_nat n2)) (at_ (k + Z.to_nat n2)) (zlen (left_ (k + Z.to_nat n2)))
      (if in_wbuf then n_wn v else n_wn v - Z.of_nat (Z.to_nat n2)) (Z.of_nat (k + Z.to_nat n2)) (Some 0) (n_internal v) None)) as Hadv.
    { apply after_advance; [done|lia|]. destruct in_wbuf; [by apply Hcell|]. split; [lia|done]. }
    rewrite Z2Nat.id in Hadv by lia. rewrite Hc, Hee, (u64_small (Z.of_nat k + n2)), (u64_small (n_wn v - n2)) by lia.
    replace (Z.of_nat (k + Z.to_nat n2)) with (Z.of_nat k + n2) in Hadv by lia.
    destruct in_wbuf; cbn [runs]; (split; [left; exists (k + Z.to_nat n2)%nat; split; [exact Hadv|done]|]);
      cbn [n_s n_cnt]; rewrite (proj2 (Z.eqb_neq (at_ _) 0)) by lia; lia.
  - specialize (Hend Hgt).
    assert (room_left) as Hroom by (intros Hb; rewrite Hb in Hd; lia).
    destruct (decode tail) as [[w len|p|]|] eqn:Hdt; [| | |done]; try done; subst nul.
    + cbn [cv_ret cv_src cv_mem cv_st]. rewrite (u64_small (Z.of_nat _ + 1)), (proj2 (Z.eqb_neq (Z.of_nat _ + 1) 0)) by lia.
      cbn [Z.eqb negb]. rewrite Hc, (u64_small (Z.of_nat k + _)) by lia.
      replace (Z.of_nat k + Z.of_nat (length cs - k)) with (zlen cs) by lia.
      assert (in_wbuf = false -> write (n_mem v) (n_ws v) (drop k cs ++ [0]) = write mw wcs (cs ++ [0])) as Hw.
      { intros Hb. rewrite Hb in Hd. destruct Hd as (-> & -> & _). by apply write_rest. }
      assert (forall ws' wn', at_nul (mk_locals (write (n_mem v) (n_ws v) (drop k cs ++ [0])) ws' 0 0 wn' (zlen cs)
        (Some 0) (n_internal v) (n_errno v))) as Hnul.
      { intros ws' wn'. split; [exact Hroom|]. split; [by exists w, len|]. split; [done|done|done|exact Hee|exact Hw]. }
      destruct in_wbuf; cbn [runs]; (split; [right; apply Hnul|cbn; lia]).
    + cbn [cv_ret cv_src cv_mem cv_st cv_errno]. change (u64 (SIZE_MAX + 1) =? 0) with true. cbn [runs].
      right. right. split; [|done]. split; [exact Hroom|]. split; [done|]. split; try done; cbn [n_s n_mem].
      * rewrite Hs, <- at_all. replace (length cs) with (k + (length cs - k))%nat by lia. rewrite <- at_add.
        rewrite (take_ge (drop k cs)) by (rewrite length_drop; lia). done.
      * intros Hb. rewrite Hb in Hd. destruct Hd as (-> & -> & _). pose proof (write_rest k [] Hk) as E.
        by rewrite !app_nil_r in E.
Qed.



Definition finished (v : locals) : Prop := at_nul v \/ at_bad v \/ at_full v \/ at_cut v.

(** A cell for the next character. *)
Lemma after_cell k v : after k v -> n_wn v <> 0 -> is_Some (n_mem v !! n_ws v).
Proof.
  intros [Hk _ _ _ _ _ Hd] Hw. destruct in_wbuf.
  - destruct Hd as (Hmm & ? & ? & ?). apply Hmm. lia.
  - destruct Hd as (-> & -> & ? & ?). apply (mapped_write mw wcs (take k cs) _ _ Hm). lia.
Qed.

Lemma after_room k v : after k v -> k = length cs -> n_wn v <> 0 -> room_left.
Proof. intros [_ _ _ _ _ _ Hd] -> Hw Hb. rewrite Hb in Hd. lia. Qed.

Lemma after_mem k v : after k v -> k = length cs -> in_wbuf = false -> n_mem v = write mw wcs cs /\ n_ws v = wcs + zlen cs.
Proof. intros [_ _ _ _ _ _ Hd] -> Hb. rewrite Hb in Hd. rewrite take_ge in Hd by done. tauto. Qed.

Lemma characters_ok v k :
  after k v -> (in_wbuf = true -> n_n v < n_wn v) -> runs (characters fuel mb v) finished.
Proof.
  intros Hv Hv16. pose proof count_bounds as Hcb. pose proof Hf as Hf'. pose proof Hlen as Hlen'.
  rewrite (length_app (utf8s cs)) in Hf', Hlen'.
  apply (loop_total (fun v => exists k, after k v /\ (in_wbuf = true -> n_n v < n_wn v))
    (fun v => length cs - Z.to_nat (n_cnt v))%nat); [|by exists k|lia].
  clear v k Hv Hv16. intros v (k & Hv & H16).
  pose proof Hv as [Hk Hs Hn Hc Hst Hee Hd]. pose proof (left_length k) as Hll. rewrite (length_app (utf8s cs)) in Hll.
  assert (0 <= n_wn v < 2 ^ 64) as Hwv by (destruct in_wbuf; destruct Hd as (_ & ? & ? & ?); lia).
  pose proof (at_pos k). destruct (Z.eqb_spec (n_wn v) 0) as [Hw0|Hw0]; cbn [negb andb].
  { destruct in_wbuf eqn:Hb; [exfalso; specialize (H16 eq_refl); lia|].
    destruct Hd as (Hmem & _ & E & _). right. right. left. split; [done|]. split; [lia|].
    replace (Z.to_nat wn) with k by lia. split; [lia|done|done|done|]. by intros _. }
  destruct (Z.eqb_spec (n_n v) 0) as [Hn0|Hn0]; cbn [negb andb].
  { rewrite Hn in Hn0. unfold left_ in Hn0. rewrite length_app in Hn0. assert (tail = []) as Ht by (apply nil_length_inv; lia).
    assert (k = length cs) as Hkl.
    { destruct (utf8s_size (drop k cs)) as [Hz|[]]; [rewrite length_drop in Hz; lia|by apply Forall_drop]. }
    right. right. right. split; [by apply (after_room k v)|]. rewrite Ht. split; [by left|].
    split; [lia|by rewrite Hs, Hkl, at_all|done|done|]. intros Hb. by apply (after_mem k v). }
  destruct (left_array k) as [Hla Hlb].
  destruct (mbrtowc_start fuel mb (n_s v) (left_ k)) as (vd & Hdec & E); [lia|by rewrite Hs|done| |lia|].
  { intros He'. rewrite Hn, He' in Hn0. done. }
  rewrite Hst. cbn [set_state]. change (default (n_internal v) (Some 0)) with 0. rewrite Hn, E, bind_ok. clear E.
  pose proof (after_cell k v Hv Hw0) as Hcell.
  destruct (drop k cs) as [|w cs'] eqn:Hdrop.
  - assert (k = length cs) as Hkl by (apply (f_equal length) in Hdrop; rewrite length_drop in Hdrop; cbn in Hdrop; lia).
    assert (left_ k = tail) as Hlt by (unfold left_; by rewrite Hdrop). rewrite Hlt in *.
    pose proof (after_room k v Hv Hkl Hw0) as Hroom.
    assert (n_s v = src + zlen (utf8s cs)) as Hsall by (by rewrite Hs, Hkl, at_all).
    destruct vd as [w len|p|]; cbn [result_of mb_wc mb_ret mb_st mb_errno].
    + assert (w = 0) as -> by (eapply decode_done_nul; [done|done|by eapply He]).
      rewrite st_ok, bind_ok by done. cbn [runs Z.eqb]. left. split; [done|]. split; [by exists 0, len|].
      split; [cbn; lia|done|done|done|]. intros Hb. destruct (after_mem k v Hv Hkl Hb) as [E1 E2]. cbn [n_mem].
      by rewrite E1, E2, write_snoc.
    + rewrite bind_ok. change (u64 (u64 (-2) + 2) <=? 2) with true. change (u64 (u64 (-2) + 1) =? 0) with false.
      change (u64 (-2) =? 0) with false. cbn [runs]. right. right. right. split; [done|]. split; [right; by exists p|].
      split; [cbn; lia|done|done|done|]. intros Hb. by apply (after_mem k v).
    + rewrite bind_ok. change (u64 (u64 (-1) + 2) <=? 2) with true. change (u64 (u64 (-1) + 1) =? 0) with true.
      cbn [runs]. right. left. split; [done|]. split; [done|].
      split; [done|done|done|done|]. intros Hb. by apply (after_mem k v).
  - assert (wide w) as Hww by (pose proof (Forall_drop _ k _ Hcs) as Hcd; rewrite Hdrop in Hcd; by apply wide_cons in Hcd as [? _]).
    assert (left_ k = utf8 w ++ utf8s cs' ++ tail) as Hlt by (unfold left_; rewrite Hdrop; cbn [utf8s]; by rewrite app_assoc).
    rewrite Hlt, decode_utf8 in Hdec by apply Hww. injection Hdec as <-. pose proof (utf8_size w) as Hsz.
    assert (take 1 (drop k cs) = [w]) as Ht1 by by rewrite Hdrop.
    assert (S k <= length cs)%nat as Hk1 by (apply (f_equal length) in Hdrop; rewrite length_drop in Hdrop; cbn in Hdrop; lia).
    cbn [result_of mb_wc mb_ret mb_st mb_errno]. rewrite (proj2 (Z.eqb_neq w 0)) by apply Hww.
    rewrite st_ok, bind_ok by done. rewrite (u64_small (_ + 2)), (proj2 (Z.leb_gt _ 2)) by lia. cbn [runs].
    pose proof (at_add k 1) as Hat. rewrite Ht1 in Hat. cbn [utf8s] in Hat. rewrite app_nil_r in Hat.
    pose proof (left_length (k + 1)) as Hll2. rewrite (length_app (utf8s cs)) in Hll2. unfold at_ in Hat.
    rewrite (u64_small (zlen (left_ k) - _)), (u64_small (n_wn v - 1)), (u64_small (n_cnt v + 1)) by lia.
    assert (zlen (left_ k) - zlen (utf8 w) = zlen (left_ (k + 1))) as Hl1 by lia.
    assert (after (k + 1) (mk_locals (<[n_ws v := w]> (n_mem v)) (n_ws v + 1) (n_s v + zlen (utf8 w)) (zlen (left_ k) - zlen (utf8 w))
      (n_wn v - 1) (n_cnt v + 1) (Some 0) (n_internal v) (n_errno v))) as Hadv.
    { split; [lia|unfold at_; cbn [n_s]; rewrite Hs; unfold at_; lia|done|cbn; lia|done|done|]. cbn [n_mem n_ws n_wn].
      destruct in_wbuf.
      - destruct Hd as (Hmm & ? & ? & ?). split; [by apply mapped_insert|lia].
      - destruct Hd as (E1 & E2 & ? & ?). split_and!; try lia. rewrite <- take_take_drop, Ht1, write_snoc, <- E1.
        by rewrite length_take, Nat.min_l, <- E2 by lia. }
    split; [exists (k + 1)%nat; split; [exact Hadv|]|cbn; lia]. intros Hb. specialize (H16 Hb). cbn. lia.
Qed.

Lemma after_start m0 ws wn0 :
  (if in_wbuf then mapped m0 16 256 /\ 16 <= ws /\ ws + wn0 = 272 /\ 0 <= wn0
   else m0 = write mw wcs (take 0 cs) /\ ws = wcs + Z.of_nat 0 /\ wn0 = wn - Z.of_nat 0 /\ Z.of_nat 0 <= wn) ->
  after 0 (mk_locals m0 ws src (zlen (utf8s cs ++ tail)) wn0 0 (Some 0) internal None).
Proof.
  intros H. split; cbn [n_s n_n n_cnt n_st n_errno]; try done; [apply Nat.le_0_l|].
  unfold at_. rewrite take_0. symmetry. apply Z.add_0_r.
Qed.

(** The whole function. *)
Lemma mbsn_ok v :
  after 0 v -> (in_wbuf = true -> n_ws v = 16) ->
  runs (v ← pieces fuel mb in_wbuf v; if negb (n_s v =? 0) then characters fuel mb v else Ok v) finished.
Proof.
  intros Hv H16. rewrite runs_bind. eapply runs_mono; [by apply pieces_ok|].
  intros v' [(k & Hk & Hb)|[Hnul|[Hbad Hw]]].
  - pose proof (at_pos k). rewrite (af_s k v' Hk), (proj2 (Z.eqb_neq (at_ k) 0)) by lia. cbn [negb].
    apply (characters_ok v' k Hk). intros Hw. specialize (Hb Hw). lia.
  - assert (n_s v' = 0) as -> by (by destruct Hnul as (_ & _ & [])). cbn. by left.
  - assert (n_s v' = src + zlen (utf8s cs)) as Hs by (by destruct Hbad as (_ & _ & [])).
    rewrite Hs, (proj2 (Z.eqb_neq _ 0)) by lia. cbn [negb].
    unfold characters. destruct fuel as [|f]; [lia|]. rewrite loop_step. rewrite Hw. cbn. right. by left.
Qed.

End mbsn.

Definition mbsn_stored (mw : mem) (wcs src wn : Z) (cs tail : list Z) : conv :=
  if wn <=? zlen cs then
    mk_conv wn (write mw wcs (take (Z.to_nat wn) cs)) (src + zlen (utf8s (take (Z.to_nat wn) cs))) (Some 0) None
  else match decode tail with
    | Some (Done _ _) => mk_conv (zlen cs) (write mw wcs (cs ++ [0])) 0 (Some 0) None
    | Some Bad => mk_conv SIZE_MAX (write mw wcs cs) (src + zlen (utf8s cs)) (Some 0) (Some EILSEQ)
    | _ => mk_conv (zlen cs) (write mw wcs cs) (src + zlen (utf8s cs)) (Some 0) None
    end.

Definition mbsn_counted (mw : mem) (src : Z) (cs tail : list Z) : conv :=
  match decode tail with
  | Some Bad => mk_conv SIZE_MAX mw src (Some 0) (Some EILSEQ)
  | _ => mk_conv (zlen cs) mw src (Some 0) None
  end.

Lemma bind_through {A B C} (o : outcome A) (f : A -> outcome B) (g : B -> outcome C) (b : B) :
  o ≫= f = Ok b -> (o ≫= fun a => f a ≫= g) = Ok b ≫= g.
Proof. destruct o; cbn; [by intros ->|done|done]. Qed.

(** C31: [mbsnrtowcs], from the initial state of a caller's [st], on any [n]
    bytes, terminated or not: they are the encoding of some wide characters
    [cs] and a tail at which none starts.  A null [wcs] makes it count [cs],
    whatever their number.  With room for [wn] characters it stores the first
    [wn] of [cs], or all of them and then: the terminator and a null source,
    [EILSEQ] with the source at the ill-formed tail, or nothing more with the
    source at a tail that is cut off, whose bytes are not consumed, and the
    initial state.  It reads none but the [n] bytes although the pieces go
    through [mbsrtowcs], which knows no such bound, and its scratch buffer of
    256 characters is never overrun. *)
Theorem mbsnrtowcs_correct fuel mb mw wcs src n wn internal bs
  (Ha : array mb src bs) (Hby : Forall byte bs) (Hn : n = zlen bs) (Hsrc : 0 < src) (Hlen : n < 2 ^ 62)
  (Hwn : 0 <= wn < 2 ^ 64) (Hf : (length bs + 1 < fuel)%nat) :
  exists cs tail, bs = utf8s cs ++ tail /\ Forall wide cs /\ ends tail /\
    mbsnrtowcs fuel mb mw 0 src n wn (Some 0) internal = Ok (mbsn_counted mw src cs tail) /\
    (0 < wcs -> mapped mw wcs (Z.min wn (zlen cs + 1)) ->
     mbsnrtowcs fuel mb mw wcs src n wn (Some 0) internal = Ok (mbsn_stored mw wcs src wn cs tail)).
Proof.
  destruct (decompose_run bs Hby) as (cs & tail & -> & Hcs & He). exists cs, tail. split_and!; try done; subst n.
  - apply Forall_app in Hby as [_ Hby].
    assert (runs (v ← pieces fuel mb true (mk_locals wbuf 16 src (zlen (utf8s cs ++ tail)) wbuf_len 0 (Some 0) internal None);
                  if negb (n_s v =? 0) then characters fuel mb v else Ok v)
      (finished wbuf true 16 src wn cs tail)) as H.
    { apply mbsn_ok; try done; try lia. apply after_start.
      split; [by apply mapped_check|]. cbn. unfold wbuf_len. lia. }
    apply runs_elim in H as (v & E & Hv). unfold mbsnrtowcs. cbn [Z.eqb].
    rewrite (bind_through _ _ _ v E), bind_ok. f_equal. unfold mbsn_counted.
    destruct Hv as [(_ & (w & len & Hd) & Hv)|[(_ & Hd & Hv)|[(? & _)|(_ & Hd & Hv)]]]; [| |done|].
    + rewrite Hd. by destruct Hv as [-> _ -> -> _].
    + rewrite Hd. by destruct Hv as [-> _ -> -> _].
    + destruct Hd as [Hd|(p & Hd)]; rewrite Hd; by destruct Hv as [-> _ -> -> _].
  - intros Hw Hm. apply Forall_app in Hby as [_ Hby].
    assert (runs (v ← pieces fuel mb false (mk_locals mw wcs src (zlen (utf8s cs ++ tail)) wn 0 (Some 0) internal None);
                  if negb (n_s v =? 0) then characters fuel mb v else Ok v)
      (finished mw false wcs src wn cs tail)) as H.
    { apply mbsn_ok; try done; try lia. apply after_start. cbn. split_and!; [by destruct cs|lia..]. }
    apply runs_elim in H as (v & E & Hv). unfold mbsnrtowcs. rewrite (proj2 (Z.eqb_neq wcs 0)) by lia.
    rewrite (bind_through _ _ _ v E), bind_ok. f_equal. unfold mbsn_stored.
    destruct Hv as [(Hr & (w & len & Hd) & Hv)|[(Hr & Hd & Hv)|[(_ & Hr & Hv)|(Hr & Hd & Hv)]]].
    1, 2, 4: rewrite (proj2 (Z.leb_gt wn _)) by by apply Hr.
    + rewrite Hd. by destruct Hv as [-> -> -> -> ->].
    + rewrite Hd. by destruct Hv as [-> -> -> -> ->].
    + destruct Hd as [Hd|(p & Hd)]; rewrite Hd; by destruct Hv as [-> -> -> -> ->].
    + rewrite (proj2 (Z.leb_le wn _)) by done. by destruct Hv as [-> -> -> -> ->].
Qed.

(** With room for all but one of the characters, and cut inside the last. *)
Lemma mbsnrtowcs_correct_witness :
  mbsnrtowcs 10 demo_mb demo_mw 200 200 3 8 (Some 0) 0 =
    Ok (mk_conv 1 (write demo_mw 200 [65]) 201 (Some 0) None) /\
  exists cs tail, [65; 0xe2; 0x82; 0xac; 66; 0] = utf8s cs ++ tail /\ Forall wide cs /\ ends tail /\
    mbsnrtowcs 10 demo_mb demo_mw 0 100 6 8 (Some 0) 0 = Ok (mbsn_counted demo_mw 100 cs tail) /\
    (0 < 200 -> mapped demo_mw 200 (Z.min 8 (zlen cs + 1)) ->
     mbsnrtowcs 10 demo_mb demo_mw 200 100 6 8 (Some 0) 0 = Ok (mbsn_stored demo_mw 200 100 8 cs tail)).
Proof.
  split; [vm_compute; reflexivity|].
  apply (mbsnrtowcs_correct 10 demo_mb demo_mw 200 100 6 8 0 [65; 0xe2; 0x82; 0xac; 66; 0]);
    [layout|repeat constructor; unfold byte; lia|done|lia|lia|lia|cbn; lia].
Defined.

(** A null [st] where the input is cut off: the roll-back stores through it. *)
Example mbsnrtowcs_null_state : mbsnrtowcs 10 demo_mb demo_mw 200 200 3 8 None 0 = Fault.
Proof. vm_compute. reflexivity. Qed.
