(* ===== verification/WcFtime.v ===== *)
(** [wcsftime] and its locale variants ([src/orbis_wchar32.c]): the wide
    format is converted, the C library's [strftime] formats bytes, and what it
    wrote is converted back when it fits. *)
From stdpp Require Import prelude gmap list numbers.
From S2P Require Import Prelude Memory Utf8Spec Utf8 WcConv.
Open Scope Z_scope.

Module Ftime.

(** The characters of a string in memory, what [strftime] reads. *)
Fixpoint cstring (fuel : nat) (m : mem) (p : Z) : outcome (list Z) :=
  match fuel with
  | O => OutOfFuel
  | S f => x ← ld m p; if x =? 0 then Ok [] else (xs ← cstring f m (p + 1); Ok (x :: xs))
  end.

Definition fstack_len : Z := 256.
Definition ostack_len : Z := 512.

(** A local array or block of [k] bytes. *)
Definition block (k : Z) : mem := write ∅ 16 (replicate (Z.to_nat k) 0).

Definition capacity (n : Z) : Z := if 2 ^ 20 <? n then 4 * 2 ^ 20 + 1 else 4 * n + 1.

Section ftime.
(** [strftime] for the caller's [tm] on a capacity and a format: its result
    and what it stored, terminator included; [malloc] on the bytes asked for:
    whether it succeeds. *)
Context (strftime : Z -> list Z -> Z * list Z) (malloc : Z -> bool).

Definition __wcsftime_l (fuel : nat) (m : mem) (s n f : Z) : outcome (mem * Z) :=
  if n =? 0 then Ok (m, 0) else
  m ← st m s 0;
  c ← wcstombs fuel m ∅ 0 f 0;
  let fl := cv_ret c in
  if fl =? SIZE_MAX then Ok (m, 0)
  else if (fstack_len <=? fl) && negb (malloc (u64 (fl + 1))) then Ok (m, 0)
  else
    let nf := block (if fstack_len <=? fl then u64 (fl + 1) else fstack_len) in
    c ← wcstombs fuel m nf 16 f (u64 (fl + 1));
    let nf := cv_mem c in
    let cap := capacity n in
    if (ostack_len <? cap) && negb (malloc cap) then Ok (m, 0)
    else
      fmt ← cstring fuel nf 16;
      let '(k, stored) := strftime cap fmt in
      let out := write (block (Z.max cap ostack_len)) 16 stored in
      if negb (k =? 0) then
        c ← mbstowcs fuel out m 0 16 0;
        let wl := cv_ret c in
        if negb (wl =? SIZE_MAX) && (wl <? n) then
          c ← mbstowcs fuel out m s 16 n; Ok (cv_mem c, wl)
        else Ok (m, 0)
      else Ok (m, 0).

Definition wcsftime_l (fuel : nat) (m : mem) (s n f : Z) : outcome (mem * Z) := __wcsftime_l fuel m s n f.
Definition wcsftime (fuel : nat) (m : mem) (s n f : Z) : outcome (mem * Z) := __wcsftime_l fuel m s n f.
End ftime.

End Ftime.
Export Ftime.

Lemma cstring_ok xs : forall fuel m p,
  zstr m p xs -> (length xs < fuel)%nat -> cstring fuel m p = Ok xs.
Proof.
  induction xs as [|x xs IH]; intros fuel m p Hz Hf; (destruct fuel as [|fuel]; [exfalso; clear - Hf; lia|]); cbn [cstring].
  - apply zstr_nil in Hz. by rewrite (ld_ok _ _ _ Hz).
  - apply zstr_cons in Hz as (Hx & Hne & Hz). rewrite (ld_ok _ _ _ Hx), bind_ok, (proj2 (Z.eqb_neq x 0) Hne).
    rewrite IH; [done|done|cbn [length] in Hf; lia].
Qed.

Lemma block_mapped k : mapped (block k) 16 k.
Proof.
  intros a Ha. unfold block. rewrite lookup_write, decide_True by (rewrite length_replicate; lia).
  apply lookup_lt_is_Some_2. rewrite length_replicate. lia.
Qed.

Lemma utf8_nonzero w : wide w -> Forall (fun x => x <> 0) (utf8 w).
Proof.
  intros [Hs H0]. apply List.Forall_forall. intros x Hx ->. pose proof (utf8_byte w Hs) as Hb.
  destruct (scalar_shape w Hs) as [H|[(x & y & ? & ? & ->)|[(x & y & z & ? & ? & ? & ? & ? & ->)|(x & y & z & t & ? & ? & ? & ? & ? & ->)]]].
  - rewrite utf8_1 in Hx by lia. destruct Hx as [?|[]]; lia.
  - rewrite utf8_2 in Hx by lia. cbn in Hx. lia.
  - rewrite utf8_3 in Hx by lia. cbn in Hx. lia.
  - rewrite utf8_4 in Hx by lia. cbn in Hx. lia.
Qed.

Lemma utf8s_nonzero cs : Forall wide cs -> Forall (fun x => x <> 0) (utf8s cs).
Proof.
  induction cs as [|w cs IH]; intros H; [constructor|]. apply wide_cons in H as [Hw H].
  cbn [utf8s]. apply Forall_app. split; [by apply utf8_nonzero|by apply IH].
Qed.

(** What [strftime] is documented to do for a format whose expansion is
    [text]: it stores the text and returns its length when it fits, and
    returns zero otherwise. *)
Definition formats (strftime : Z -> list Z -> Z * list Z) (fmt text : list Z) : Prop :=
  forall cap, 0 < cap ->
    if zlen text <? cap then strftime cap fmt = (zlen text, text ++ [0]) else fst (strftime cap fmt) = 0.

(** The conversions it goes through, one way and the other. *)
Lemma utf8s_count4 cs : Forall wide cs -> zlen cs <= zlen (utf8s cs) <= 4 * zlen cs /\ zlen (utf8s cs) <= 4 * zlen cs.
Proof.
  induction cs as [|w cs IH]; intros H; [cbn; lia|]. apply wide_cons in H as [Hw H]. cbn [utf8s length].
  rewrite length_app. pose proof (utf8_size w). specialize (IH H). lia.
Qed.

Lemma wide_wchar xs : Forall wide xs -> Forall wchar xs.
Proof. intros H. eapply List.Forall_impl; [|exact H]. intros w Hr%wide_range. unfold wchar. lia. Qed.

Lemma count_ok fuel m f xs :
  zstr m f xs -> Forall wide xs -> 4 * zlen xs + 1 < 2 ^ 62 -> (length xs < fuel)%nat ->
  wcstombs fuel m ∅ 0 f 0 = Ok (mk_conv (zlen (utf8s xs)) ∅ f None None).
Proof.
  intros Hz Hx Hl Hf. unfold wcstombs.
  destruct (wcsrtombs_correct fuel m ∅ 0 f 0 xs Hz (wide_wchar xs Hx) ltac:(lia) ltac:(lia) Hf) as [-> _].
  replace (forallb scalar_b xs) with true; [done|]. symmetry. apply forallb_forall. intros w Hw.
  apply scalar_b_spec. rewrite List.Forall_forall in Hx. by apply Hx.
Qed.

Lemma narrow_ok fuel m f xs nf :
  zstr m f xs -> Forall wide xs -> 4 * zlen xs + 1 < 2 ^ 62 -> (length xs < fuel)%nat ->
  mapped nf 16 (zlen (utf8s xs) + 1) ->
  wcstombs fuel m nf 16 f (zlen (utf8s xs) + 1) = Ok (mk_conv (zlen (utf8s xs)) (write nf 16 (utf8s xs ++ [0])) 0 None None).
Proof.
  intros Hz Hx Hl Hf Hm. unfold wcstombs. pose proof (utf8s_count4 xs Hx).
  destruct (wcsrtombs_correct fuel m nf 16 f (zlen (utf8s xs) + 1) xs Hz (wide_wchar xs Hx) ltac:(lia) ltac:(lia) Hf) as [_ H'].
  rewrite H'; [|lia|]; clear H'.
  - unfold wcs_result. rewrite fitting_all by (done || lia). rewrite (proj2 (Z.eqb_neq _ _)) by lia. do 2 f_equal. lia.
  - unfold room. rewrite fitting_all by (done || lia). eapply mapped_sub; [exact Hm|lia|cbn [fst]; lia].
Qed.

Lemma widen_ok fuel out m ws wn cs :
  array out 16 (utf8s cs ++ [0]) -> Forall wide cs -> 4 * zlen cs + 1 < 2 ^ 62 -> (length cs < fuel)%nat ->
  0 <= wn < 2 ^ 64 -> (ws <> 0 -> mapped m ws (Z.min wn (zlen cs + 1))) ->
  mbstowcs fuel out m ws 16 wn = Ok (mbs_result m ws 16 wn None cs []).
Proof.
  intros Ha Hc Hl Hf Hwn Hm. unfold mbstowcs. apply mbsrtowcs_ok; try done; try lia. by left.
Qed.

Lemma write_first m s v xs x : write (<[s := v]> m) s (xs ++ [x]) = write m s (xs ++ [x]).
Proof. destruct xs; cbn [app write]; by rewrite insert_insert_eq. Qed.

(** From the call of [strftime] on. *)
Lemma format_ok strftime fuel m s n xs cs :
  formats strftime (utf8s xs) (utf8s cs) -> Forall wide cs -> 4 * zlen cs + 1 < 2 ^ 62 -> (length cs < fuel)%nat ->
  0 < n < 2 ^ 61 -> 0 < s -> mapped m s n -> m !! s = Some 0 ->
  (let '(k, stored) := strftime (capacity n) (utf8s xs) in
   let out := write (block (Z.max (capacity n) ostack_len)) 16 stored in
   if negb (k =? 0) then
     c ← mbstowcs fuel out m 0 16 0;
     if negb (cv_ret c =? SIZE_MAX) && (cv_ret c <? n) then
       c' ← mbstowcs fuel out m s 16 n; Ok (cv_mem c', cv_ret c)
     else Ok (m, 0)
   else Ok (m, 0)) =
  Ok (if decide (zlen cs < n /\ zlen (utf8s cs) <= 4 * 2 ^ 20) then (write m s (cs ++ [0]), zlen cs) else (m, 0)).
Proof.
  intros Hfmt Hc Hl Hf Hn Hs Hm H0. pose proof (utf8s_count4 cs Hc) as [Hc1 Hc4].
  assert (Hcap : 0 < capacity n /\ (zlen cs < n /\ zlen (utf8s cs) <= 4 * 2 ^ 20 -> zlen (utf8s cs) < capacity n) /\
    (zlen (utf8s cs) < capacity n -> zlen (utf8s cs) <= 4 * 2 ^ 20)).
  { unfold capacity. destruct (Z.ltb_spec (2 ^ 20) n); lia. }
  destruct Hcap as (Hcap & Hin & Hout). specialize (Hfmt (capacity n) Hcap).
  destruct (Z.ltb_spec (zlen (utf8s cs)) (capacity n)) as [Hlt|Hge].
  - rewrite Hfmt. destruct (Z.eqb_spec (zlen (utf8s cs)) 0) as [E|Hne]; cbn [negb].
    + assert (cs = []) as -> by (apply nil_length_inv; lia). cbn [app write length]. rewrite insert_id by done.
      by destruct (decide _).
    + set (out := write _ 16 _). assert (Ha : array out 16 (utf8s cs ++ [0])) by apply array_write.
      rewrite (widen_ok fuel out m 0 0 cs) by (done || lia).
      rewrite (widen_ok fuel out m s n cs) by (done || lia || (intros _; eapply mapped_sub; [exact Hm|lia|lia])).
      rewrite !bind_ok. unfold mbs_result. cbn [Z.eqb]. rewrite decide_True by done. cbn [cv_ret].
      rewrite (proj2 (Z.eqb_neq _ SIZE_MAX)), (proj2 (Z.eqb_neq s 0)) by (unfold SIZE_MAX; lia). cbn [negb andb].
      destruct (Z.ltb_spec (zlen cs) n).
      * rewrite (decide_True (P := zlen cs < n /\ _)) by (split; [done|by apply Hout]). by rewrite (proj2 (Z.leb_gt n _)) by lia.
      * by rewrite (decide_False (P := zlen cs < n /\ _)) by lia.
  - destruct (strftime _ _) as [k stored]. cbn [fst] in Hfmt. subst k. cbn [Z.eqb negb].
    rewrite decide_False; [done|]. intros Hw. specialize (Hin Hw). lia.
Qed.

(** [wcsftime] on any format of scalar values: when the text [strftime]
    makes of it, [cs] in wide characters, fits with its terminator in [n]
    characters and 4 MiB, it is stored and its length returned; the byte
    buffer is then large enough whatever the characters.  Otherwise, and when
    memory runs out, the result is zero and the first character is cleared. *)
Theorem wcsftime_correct strftime malloc fuel m s n f xs cs
  (Hx : zstr m f xs) (Hxs : Forall wide xs) (Hn : 0 <= n < 2 ^ 61) (Hs : 0 < s) (Hm : mapped m s n)
  (Hap : apart s n f (zlen xs + 1)) (Hl : 4 * zlen xs + 1 < 2 ^ 62) (Hc : Forall wide cs)
  (Hfmt : formats strftime (utf8s xs) (utf8s cs)) (Hcl : 4 * zlen cs + 1 < 2 ^ 62)
  (Hf : (4 * length xs + 4 * length cs + 1 < fuel)%nat) :
  let wide_enough := zlen cs < n /\ zlen (utf8s cs) <= 4 * 2 ^ 20 in
  let enough := (zlen (utf8s xs) < fstack_len \/ malloc (zlen (utf8s xs) + 1) = true) /\ (capacity n <= ostack_len \/ malloc (capacity n) = true) in
  wcsftime strftime malloc fuel m s n f = wcsftime_l strftime malloc fuel m s n f /\
  wcsftime strftime malloc fuel m s n f =
    Ok (if n =? 0 then (m, 0)
        else if decide (enough /\ wide_enough) then (write m s (cs ++ [0]), zlen cs) else (<[s := 0]> m, 0)).
Proof.
  intros we en. split; [done|]. unfold wcsftime, __wcsftime_l, we, en. clear we en.
  destruct (Z.eqb_spec n 0) as [|Hn0]; [done|]. rewrite st_ok, bind_ok by (apply Hm; lia).
  assert (Hz : zstr (<[s := 0]> m) f xs).
  { change (<[s := 0]> m) with (write m s [0]). apply zstr_write_apart; [|done]. unfold apart in *. cbn. lia. }
  destruct (utf8s_count4 xs Hxs) as [Hx1 Hx4]. destruct (utf8s_count4 cs Hc) as [Hc1 Hc4].
  rewrite (count_ok fuel (<[s := 0]> m) f xs) by (done || lia). rewrite bind_ok. cbn [cv_ret].
  rewrite (proj2 (Z.eqb_neq _ SIZE_MAX)), u64_small by (unfold SIZE_MAX; lia). unfold fstack_len, ostack_len in *.
  destruct (Z.leb_spec 256 (zlen (utf8s xs))); cbn [andb].
  1: destruct (malloc (zlen (utf8s xs) + 1)) eqn:Hma; cbn [negb]; [|rewrite decide_False; [done|intros [[[?|?] _] _]; [lia|congruence]]].
  all: (rewrite (narrow_ok fuel (<[s := 0]> m) f xs) by (done || (eapply mapped_sub; [apply block_mapped|lia|lia]) || lia));
    rewrite bind_ok; cbn [cv_mem].
  all: destruct ((512 <? capacity n) && negb (malloc (capacity n))) eqn:Hcap;
    [apply andb_true_iff in Hcap as [?%Z.ltb_lt ?%negb_true_iff]; rewrite decide_False; [done|intros [[_ [?|?]] _]; [lia|congruence]]|].
  all: rewrite (cstring_ok (utf8s xs)) by (lia || (split; [apply array_write|by apply utf8s_nonzero])); rewrite bind_ok.
  all: rewrite (format_ok strftime fuel (<[s := 0]> m) s n xs cs) by (done || lia || (by apply mapped_insert) || (by rewrite lookup_insert_eq)).
  all: destruct (decide (zlen cs < n /\ zlen (utf8s cs) <= 4 * 2 ^ 20)) as [Hw|Hw];
    [rewrite decide_True; [by rewrite write_first|]|rewrite decide_False; [done|tauto]].
  all: split; [|done]; split; [auto|apply andb_false_iff in Hcap as [?%Z.ltb_ge|?%negb_false_iff]; auto].
Qed.

(** A [strftime] that makes the same text of every format. *)
Definition demo_strftime (text : list Z) (cap : Z) (fmt : list Z) : Z * list Z :=
  if zlen text <? cap then (zlen text, text ++ [0]) else (0, []).

Lemma wcsftime_correct_witness :
  wcsftime (demo_strftime (utf8s [49; 0x20ac])) (fun _ => false) 30 demo_mw 200 8 100 =
    Ok (write demo_mw 200 [49; 0x20ac; 0], 2) /\
  wcsftime (demo_strftime (utf8s [49; 0x20ac])) (fun _ => false) 30 demo_mw 200 2 100 =
    Ok (<[200 := 0]> demo_mw, 0).
Proof.
  split.
  - refine (proj2 (wcsftime_correct _ (fun _ => false) 30 demo_mw 200 8 100 [65; 0x20ac; 66] [49; 0x20ac] _ _ _ _ _ _ _ _ _ _ _));
      [by apply zstr_check|repeat constructor; unfold scalar; lia|lia|lia|by apply mapped_check|unfold apart; cbn; lia|cbn; lia
      |repeat constructor; unfold scalar; lia| |cbn; lia|cbn; lia].
    intros cap Hcap. unfold demo_strftime. by destruct (_ <? _).
  - refine (proj2 (wcsftime_correct _ (fun _ => false) 30 demo_mw 200 2 100 [65; 0x20ac; 66] [49; 0x20ac] _ _ _ _ _ _ _ _ _ _ _));
      [by apply zstr_check|repeat constructor; unfold scalar; lia|lia|lia|by apply mapped_check|unfold apart; cbn; lia|cbn; lia
      |repeat constructor; unfold scalar; lia| |cbn; lia|cbn; lia].
    intros cap Hcap. unfold demo_strftime. by destruct (_ <? _).
Defined.
