(* ===== verification/MemPools.v ===== *)
(** The memory report of [src/orbis_mem.cpp]: the replaced [operator new]s,
    the announcement of a refused request, the census of the two pools and the
    probe of libkernel's internal memory.  Any thread may be in any of them,
    so they are programs of [Effects] over atomics.

    The atomics are accessed relaxed.  Of each one the shared state keeps
    every value it had, in modification order; a thread has a position in that
    order per atomic, and a load answers with the value at any position that
    is not before it.

    [memCensusBaseline] is called as its header says, early and by a thread that
    is alone: the calls before the other threads start may be any ([boot]), those
    of the threads that run at once are all but the baseline ([ordinary]). *)
From stdpp Require Import prelude list strings.
From S2P Require Import Prelude Effects.
Open Scope Z_scope.

Module MemPools.

(** ** Effects *)

Inductive loc := flexBoot | flexLow | biggestRequest | flexQueryErr | oomAnnounced.
#[global] Instance loc_eq_dec : EqDecision loc.
Proof. solve_decision. Defined.

(** What is logged, as its numbers. *)
Inductive line :=
  | CensusFlexFailed (where_ : string) (rc : Z)
  | CensusFlex (where_ : string) (avail boot low consumed : Z)
  | CensusDirectUnread (where_ : string) (total rc : Z)
  | CensusDirect (where_ : string) (total avail : Z)
  | OomWant (want align : Z)
  | OomFlex (avail rc boot low : Z)
  | OomDirect (total avail rc : Z)
  | OomLargest (bytes : Z)
  | CensusThreads (where_ : string) (created raised floor unreserved altOk altFailed altSkipped alt : Z)
  | ProbeUnresolved
  | ProbeStart (free : Z) (iterations : Z)
  | ProbeLine (what : string) (lost n each after : Z)
  | ProbeMmap (counts : list Z)
  | ProbeDone.

(** A call out of this file: what was asked and the answer; and a store to one
    of the atomics, with its place in the modification order. *)
Inductive event :=
  | EvStore (l : loc) (pos : nat) (v : Z)
  | EvAdd (old : Z)
  | EvFlex (rc v : Z)
  | EvDirectTotal (v : Z)
  | EvDirect (end_ align rc size : Z)
  | EvMalloc (n p : Z)
  | EvMemalign (align n rc p : Z)
  | EvFree (p : Z)
  | EvMmap (len p : Z)
  | EvMunmap (p len : Z)
  | EvTouch (p : Z)
  | EvLock | EvUnlock
  | EvTimedwait (sec nsec : Z)
  | EvClock (monotonic : bool)
  | EvUsleep (us : Z)
  | EvResolved (there : bool)
  | EvInternal (out ret : Z)
  | EvThreads (created raised : Z)
  | EvFloor (bytes : Z)
  | EvAltStacks (ok failed skipped : Z)
  | EvAltSize (bytes : Z)
  | EvMmapCounts (counts : list Z)
  | EvMmapReport (where_ : string)
  | EvStackProbe | EvTimerProbe
  | EvLogEnabled (b : bool)
  | EvEnv (name : string) (value : option (list Z))
  | EvLog (l : line).

Inductive eff : Set :=
  | Load (l : loc)
  | Store (l : loc) (v : Z)
  | CompareExchangeWeak (l : loc) (expected desired : Z)
  | FetchAdd (l : loc) (d : Z)
  | FlexibleAvailable
  | DirectTotal
  | DirectAvailable (end_ align : Z)
  | Malloc (n : Z)
  | PosixMemalign (align n : Z)
  | Free (p : Z)
  | MmapAnon (len : Z)
  | Munmap (p len : Z)
  | Touch (p : Z)
  | MutexLock | MutexUnlock
  | CondTimedwait (sec nsec : Z)
  | ClockGettime (monotonic : bool)
  | Usleep (us : Z)
  | InternalResolved
  | InternalAvailable
  | LogEnabled
  | EnvGet (name : string)
  | ThreadCounts | ThreadStackFloor | ThreadAltStacks | ThreadAltStackSize
  | MmapCounts
  | MmapDirectReport (where_ : string)
  | ThreadStackProbe | TimerProbe
  | Say (l : line).

Definition answer (e : eff) : Set :=
  match e with
  | Load _ | FetchAdd _ _ | DirectTotal | Malloc _ | MmapAnon _ | ThreadStackFloor | ThreadAltStackSize => Z
  | CompareExchangeWeak _ _ _ => bool * Z
  | FlexibleAvailable | DirectAvailable _ _ | PosixMemalign _ _ | InternalAvailable | ThreadCounts => Z * Z
  | ThreadAltStacks => Z * Z * Z
  | InternalResolved | LogEnabled => bool
  | EnvGet _ => option (list Z)
  | MmapCounts => list Z
  | _ => unit
  end.

(** ** What the effects do *)

Record shared := mk_shared { order_of : loc -> list Z; trace : list event }.
(** [past]: the events of the thread's earlier calls; [events]: of the one it is in. *)
Record local := mk_local { view : loc -> nat; past : list event; events : list event }.

Definition set_loc {V} (f : loc -> V) (l : loc) (v : V) : loc -> V := fun l' => if decide (l' = l) then v else f l'.

Definition sees (t : local) (l : loc) (i : nat) : local := mk_local (set_loc (view t) l i) (past t) (events t).

(** A new value at the end of the modification order, which the writer sees. *)
Definition write_to (w : shared) (t : local) (l : loc) (v : Z) : shared * local :=
  (mk_shared (set_loc (order_of w) l (order_of w l ++ [v])) (trace w), sees t l (length (order_of w l))).

Definition emit (w : shared) (t : local) (e : event) : shared * local :=
  (mk_shared (order_of w) (trace w ++ [e]), mk_local (view t) (past t) (events t ++ [e])).

Definition read_at (w : shared) (t : local) (l : loc) (i : nat) : option (Z * local) :=
  if bool_decide (view t l <= i)%nat then x ← order_of w l !! i; Some (x, sees t l i) else None.

(** What resolves an effect: a position to read, whether a weak exchange is
    tried, and the numbers the host answers with. *)
Record choice := mk_choice { ch_pos : nat; ch_try : bool; ch_nums : list Z }.

(** A size of memory, as a host reports it. *)
Definition size_ok (v : Z) : bool := (0 <=? v) && (v <? 2 ^ 63).
Definition s32_ok (v : Z) : bool := (- 2 ^ 31 <=? v) && (v <? 2 ^ 31).
Definition u64_ok (v : Z) : bool := (0 <=? v) && (v <? 2 ^ 64).

Definition act (e : eff) (c : choice) (w : shared) (t : local) : option (answer e * shared * local) :=
  let say {A} (a : A) (ev : event) := let '(w, t) := emit w t ev in Some (a, w, t) in
  match e return option (answer e * shared * local) with
  | Load l => '(x, t) ← read_at w t l (ch_pos c); Some (x, w, t)
  | Store l v =>
      let ev := EvStore l (length (order_of w l)) v in
      let '(w, t) := write_to w t l v in let '(w, t) := emit w t ev in Some (tt, w, t)
  | CompareExchangeWeak l expected desired =>
      if ch_try c && bool_decide (last (order_of w l) = Some expected) then
        let '(w, t) := write_to w t l desired in Some ((true, expected), w, t)
      else '(x, t) ← read_at w t l (ch_pos c); Some ((false, x), w, t)
  | FetchAdd l d =>
      old ← last (order_of w l);
      let '(w, t) := write_to w t l (s32 (old + d)) in
      let '(w, t) := emit w t (EvAdd old) in Some (old, w, t)
  | FlexibleAvailable =>
      match ch_nums c with
      | [rc; v] => if s32_ok rc && size_ok v then say (rc, v) (EvFlex rc v) else None
      | _ => None
      end
  | DirectTotal => match ch_nums c with [v] => if size_ok v then say v (EvDirectTotal v) else None | _ => None end
  | DirectAvailable end_ align =>
      match ch_nums c with
      | [rc; size] => if s32_ok rc && size_ok size then say (rc, size) (EvDirect end_ align rc size) else None
      | _ => None
      end
  | Malloc n => match ch_nums c with [p] => if u64_ok p then say p (EvMalloc n p) else None | _ => None end
  | PosixMemalign align n =>
      match ch_nums c with
      | [rc; p] => if u64_ok p && (negb (rc =? 0) || negb (p =? 0)) then say (rc, p) (EvMemalign align n rc p) else None
      | _ => None
      end
  | Free p => say tt (EvFree p)
  | MmapAnon len => match ch_nums c with [p] => if u64_ok p then say p (EvMmap len p) else None | _ => None end
  | Munmap p len => say tt (EvMunmap p len)
  | Touch p => say tt (EvTouch p)
  | MutexLock => say tt EvLock
  | MutexUnlock => say tt EvUnlock
  | CondTimedwait sec nsec => say tt (EvTimedwait sec nsec)
  | ClockGettime mono => say tt (EvClock mono)
  | Usleep us => say tt (EvUsleep us)
  | InternalResolved => say (ch_try c) (EvResolved (ch_try c))
  | InternalAvailable =>
      match ch_nums c with
      | [out; ret] => if size_ok out && size_ok ret then say (out, ret) (EvInternal out ret) else None
      | _ => None
      end
  | LogEnabled => say (ch_try c) (EvLogEnabled (ch_try c))
  | EnvGet name => let v := if ch_try c then Some (ch_nums c) else None in say v (EvEnv name v)
  | ThreadCounts => match ch_nums c with [a; b] => say (a, b) (EvThreads a b) | _ => None end
  | ThreadStackFloor => match ch_nums c with [a] => say a (EvFloor a) | _ => None end
  | ThreadAltStackSize => match ch_nums c with [a] => say a (EvAltSize a) | _ => None end
  | ThreadAltStacks => match ch_nums c with [a; b; d] => say (a, b, d) (EvAltStacks a b d) | _ => None end
  | MmapCounts => say (ch_nums c) (EvMmapCounts (ch_nums c))
  | MmapDirectReport where_ => say tt (EvMmapReport where_)
  | ThreadStackProbe => say tt EvStackProbe
  | TimerProbe => say tt EvTimerProbe
  | Say l => say tt (EvLog l)
  end.

(** ** The code *)

Open Scope prog_scope.
Local Abbreviation P := (prog answer).
Local Abbreviation call_ e := (do answer e).

Definition SIZE_KIB : Z := 1024.

(** The low-water loop: [low] between rounds. *)
Definition lower (v : Z) : Z -> P unit :=
  loop_prog (fun low =>
    if v <? low then
      let* (ok, low) := call_ (CompareExchangeWeak flexLow low v) in
      Ret (if ok : bool then inr tt else inl low)
    else Ret (inr tt)).

Definition flexAvailable : P Z :=
  let* (rc, v) := call_ FlexibleAvailable in
  call_ (Store flexQueryErr rc) ;;;
  if negb (rc =? 0) then Ret 0 else
  let* low := call_ (Load flexLow) in
  lower v low ;;;
  Ret v.

(** The result and [rc], its reference argument. *)
Definition directAvailable : P (Z * Z) :=
  let* total := call_ DirectTotal in
  let* (rc, sz) := call_ (DirectAvailable total 0x200000) in
  Ret (if rc =? 0 then sz else 0, rc).

(** [int64_t(boot) - int64_t(flex)], then [/1024]. *)
Definition consumed_kib (boot flex : Z) : P Z :=
  match i64 (s64 boot - s64 flex) with Ok d => Ret (Z.quot d SIZE_KIB) | _ => Undefined end.

Definition report (where_ : string) : P unit :=
  let* flex := flexAvailable in
  let* flexRc := call_ (Load flexQueryErr) in
  let* boot := call_ (Load flexBoot) in
  let* low := call_ (Load flexLow) in
  let* (dAvail, dRc) := directAvailable in
  let* dTotal := call_ DirectTotal in
  (if negb (flexRc =? 0) then call_ (Say (CensusFlexFailed where_ (u32 flexRc)))
   else
     let* consumed := consumed_kib boot flex in
     call_ (Say (CensusFlex where_ (flex / SIZE_KIB) (boot / SIZE_KIB) (low / SIZE_KIB) consumed))) ;;;
  (if negb (dRc =? 0) then call_ (Say (CensusDirectUnread where_ (dTotal / SIZE_KIB) (u32 dRc)))
   else call_ (Say (CensusDirect where_ (dTotal / SIZE_KIB) (dAvail / SIZE_KIB)))) ;;;
  call_ (MmapDirectReport where_).

Definition kMaxAnnounced : Z := 8.

Definition announceOom (want align : Z) : P unit :=
  let* announced := call_ (FetchAdd oomAnnounced 1) in
  if kMaxAnnounced <=? announced then Ret tt else
  let* flex := flexAvailable in
  let* flexRc := call_ (Load flexQueryErr) in
  let* (dAvail, dRc) := directAvailable in
  call_ (Say (OomWant want align)) ;;;
  let* boot := call_ (Load flexBoot) in
  let* low := call_ (Load flexLow) in
  call_ (Say (OomFlex (flex / SIZE_KIB) (u32 flexRc) (boot / SIZE_KIB) (low / SIZE_KIB))) ;;;
  let* total := call_ DirectTotal in
  call_ (Say (OomDirect (total / SIZE_KIB) (dAvail / SIZE_KIB) (u32 dRc))) ;;;
  let* biggest := call_ (Load biggestRequest) in
  call_ (Say (OomLargest biggest)).

Definition noteRequest (n : Z) : P unit :=
  let* biggest := call_ (Load biggestRequest) in
  if biggest <? n then call_ (Store biggestRequest n) else Ret tt.

Definition at_least_1 (n : Z) : Z := if negb (n =? 0) then n else 1.

Definition allocPlain (n : Z) : P Z :=
  noteRequest n ;;;
  call_ (Malloc (at_least_1 n)).

Definition sizeof_ptr : Z := 8.

Definition allocAligned (n align : Z) : P Z :=
  noteRequest n ;;;
  let align := if align <? sizeof_ptr then sizeof_ptr else align in
  let* (rc, p) := call_ (PosixMemalign align (at_least_1 n)) in
  if negb (rc =? 0) then Ret 0 else Ret p.

(** What an [operator new] does: a pointer, or [std::bad_alloc]. *)
Inductive outcome_new := Returned (p : Z) | Thrown.

(** The four forms that throw, by whether they take an alignment; the array
    forms have the same bodies. *)
Definition new_plain (n : Z) : P outcome_new :=
  let* p := allocPlain n in
  if negb (p =? 0) then Ret (Returned p) else
  announceOom n 0 ;;;
  Ret Thrown.

Definition new_aligned (n a : Z) : P outcome_new :=
  let* p := allocAligned n a in
  if negb (p =? 0) then Ret (Returned p) else
  announceOom n a ;;;
  Ret Thrown.

Definition new_plain_nothrow (n : Z) : P outcome_new :=
  let* p := allocPlain n in
  (if p =? 0 then announceOom n 0 else Ret tt) ;;;
  Ret (Returned p).

Definition new_aligned_nothrow (n a : Z) : P outcome_new :=
  let* p := allocAligned n a in
  (if p =? 0 then announceOom n a else Ret tt) ;;;
  Ret (Returned p).

Definition operator_new (throws : bool) (a : option Z) (n : Z) : P outcome_new :=
  match throws, a with
  | true, None => new_plain n
  | true, Some a => new_aligned n a
  | false, None => new_plain_nothrow n
  | false, Some a => new_aligned_nothrow n a
  end.

Definition memCensus (where_ : string) : P unit := report where_.

Definition memCensusThreads (where_ : string) : P unit :=
  let* (created, raised) := call_ ThreadCounts in
  let* (altOk, altFailed, altSkipped) := call_ ThreadAltStacks in
  let* floor := call_ ThreadStackFloor in
  let* floor1 := call_ ThreadStackFloor in
  let* above := (if 65536 <? floor1 then let* f := call_ ThreadStackFloor in Ret (f - 65536) else Ret 0) in
  let* alt := call_ ThreadAltStackSize in
  call_ (Say (CensusThreads where_ created raised (floor / SIZE_KIB) (u64 (raised * above) / SIZE_KIB)
                altOk altFailed altSkipped (u64 (altOk * alt) / SIZE_KIB))).

(** ** The probe of libkernel's internal memory *)

Definition internalFree : P Z :=
  let* there := call_ InternalResolved in
  if negb there then Ret 0 else
  let* (out, ret) := call_ InternalAvailable in
  Ret (if negb (out =? 0) then out else ret).

Definition kProbeIterations : nat := 2000.

Definition measureN (what : string) (body : P unit) (n : nat) : P unit :=
  let* before := internalFree in
  repeat_prog n body ;;;
  let* after := internalFree in
  match i64 (s64 before - s64 after) with
  | Ok lost =>
      call_ (Say (ProbeLine what lost (Z.of_nat n) (Z.quot lost (Z.of_nat n)) after))
  | _ => Undefined
  end.

Definition measure (what : string) (body : P unit) : P unit := measureN what body kProbeIterations.

(** The body's volatile counter is nobody else's. *)
Definition bodyNothing : P unit := Ret tt.
Definition bodyClockMonotonic : P unit := call_ (ClockGettime true).
Definition bodyClockRealtime : P unit := call_ (ClockGettime false).
Definition bodyMutexLock : P unit := call_ MutexLock ;;; call_ MutexUnlock.
Definition bodyCondTimedwaitExpired : P unit :=
  call_ MutexLock ;;; call_ (CondTimedwait 0 0) ;;; call_ MutexUnlock.
Definition bodyUsleep : P unit := call_ (Usleep 1).

Definition bodyMallocLarge : P unit :=
  let* p := call_ (Malloc (96 * 1024)) in
  if negb (p =? 0) then call_ (Touch p) ;;; call_ (Free p) else Ret tt.

Definition MAP_FAILED : Z := 2 ^ 64 - 1.
Definition bodyMmapPair : P unit :=
  let* p := call_ (MmapAnon (64 * 1024)) in
  if negb (p =? MAP_FAILED) && negb (p =? 0) then call_ (Touch p) ;;; call_ (Munmap p (64 * 1024)) else Ret tt.

Definition internalMemoryProbe : P unit :=
  let* enabled := call_ LogEnabled in
  if negb enabled then Ret tt else
  let* e := call_ (EnvGet "ORBIS_INTERNAL_MEM_PROBE") in
  match e with
  | None | Some [] => Ret tt
  | Some (x :: _) =>
  if x =? 48 then Ret tt else
  let* there := call_ InternalResolved in
  if negb there then call_ (Say ProbeUnresolved) else
  let* free := internalFree in
  call_ (Say (ProbeStart free (Z.of_nat kProbeIterations))) ;;;
  measure "control (nothing)" bodyNothing ;;;
  measure "clock_gettime MONOTONIC" bodyClockMonotonic ;;;
  measure "clock_gettime REALTIME" bodyClockRealtime ;;;
  measure "pthread_mutex lock+unlock" bodyMutexLock ;;;
  measure "sceKernelUsleep(1)" bodyUsleep ;;;
  measure "cond_timedwait EXPIRED" bodyCondTimedwaitExpired ;;;
  measure "malloc+free 96 KiB" bodyMallocLarge ;;;
  measureN "mmap+munmap 64 KiB" bodyMmapPair 500 ;;;
  (let* counts := call_ MmapCounts in call_ (Say (ProbeMmap counts))) ;;;
  call_ (Say ProbeDone)
  end.

Definition orbis_internal_memory_probe : P unit := internalMemoryProbe.

Definition memCensusBaseline : P unit :=
  let* (rc, v) := call_ FlexibleAvailable in
  call_ (Store flexQueryErr rc) ;;;
  (if rc =? 0 then call_ (Store flexBoot v) ;;; call_ (Store flexLow v) else Ret tt) ;;;
  report "boot" ;;;
  call_ ThreadStackProbe ;;;
  call_ TimerProbe ;;;
  internalMemoryProbe.

(** ** Threads *)

Inductive call :=
  | New (throws : bool) (a : option Z) (n : Z)
  | Census (where_ : string)
  | CensusOfThreads (where_ : string)
  | Probe
  | Baseline.

Definition body (c : call) : P outcome_new :=
  match c with
  | New throws a n => operator_new throws a n
  | Census where_ => memCensus where_ ;;; Ret (Returned 0)
  | CensusOfThreads where_ => memCensusThreads where_ ;;; Ret (Returned 0)
  | Probe => orbis_internal_memory_probe ;;; Ret (Returned 0)
  | Baseline => memCensusBaseline ;;; Ret (Returned 0)
  end.

(** The calls of a thread that is alone, and of the threads that run at once. *)
Definition boot (c : call) : bool := true.
Definition ordinary (c : call) : bool := match c with Baseline => false | _ => true end.

Definition begin (t : local) : local := mk_local (view t) (past t ++ events t) [].

(** The initial values of the atomics. *)
Definition initial_of (l : loc) : Z := match l with flexLow => 2 ^ 64 - 1 | _ => 0 end.
Definition initial : shared := mk_shared (fun l => [initial_of l]) [].
Definition fresh : local := mk_local (fun _ => O) [] [].
(** A thread that another starts has seen what that one had. *)
Definition spawned (t : local) : local := mk_local (view t) [] [].
Definition parked (t : local) : @thread eff answer local call outcome_new := mk_thread t None [].

End MemPools.
