(* ===== verification/MemLogic.v ===== *)
(** The invariant of the atomics of [MemPools], and the rules of its effects:
    what a thread may rely on while others run. *)
From stdpp Require Import prelude list strings.
From S2P Require Import Prelude Effects MemPools.
Open Scope Z_scope.
Import MemPools.

(** ** What a trace says of the mark and the baseline *)

(** The last store to an atomic, and its place. *)
Definition stored (l : loc) (es : list event) : option (nat * Z) :=
  foldl (fun o ev => match ev with EvStore l' i v => if decide (l' = l) then Some (i, v) else o | _ => o end) None es.

(** Where the mark was last stored without a comparison, and what was recorded
    as the figure the process started with. *)
Definition base (es : list event) : nat := from_option fst O (stored flexLow es).
Definition baseline (es : list event) : Z := from_option snd 0 (stored flexBoot es).

(** What the mark may be: the value last stored so, or its initial value, and
    the answers of the successful queries since. *)
Definition marks (es : list event) : list Z :=
  foldl (fun l ev => match ev with EvStore flexLow _ v => [v] | EvFlex 0 v => l ++ [v] | _ => l end) [2 ^ 64 - 1] es.
Definition answers (es : list event) : list Z := omap (fun ev => match ev with EvFlex 0 v => Some v | _ => None end) es.

(** No baseline is recorded. *)
Definition no_baseline (ev : event) : Prop :=
  match ev with EvStore flexLow _ _ | EvStore flexBoot _ _ => False | _ => True end.
Definition calm : list event -> Prop := Forall no_baseline.

Lemma stored_calm l tr es : l = flexLow \/ l = flexBoot -> calm es -> stored l (tr ++ es) = stored l tr.
Proof.
  intros Hl H. unfold stored. rewrite foldl_app. generalize (foldl (fun o ev => match ev with EvStore l' i v =>
    if decide (l' = l) then Some (i, v) else o | _ => o end) None tr). intros o.
  induction es as [|ev es IH] using rev_ind; [done|]. apply Forall_app in H as [H Hev]. rewrite Forall_singleton in Hev.
  rewrite foldl_snoc, IH by done. destruct ev; try done. case_decide; [|done]. subst. by destruct Hl as [-> | ->].
Qed.

Lemma base_calm tr es : calm es -> base (tr ++ es) = base tr.
Proof. intros H. unfold base. by rewrite stored_calm by auto. Qed.
Lemma baseline_calm tr es : calm es -> baseline (tr ++ es) = baseline tr.
Proof. intros H. unfold baseline. by rewrite stored_calm by auto. Qed.

Lemma marks_calm tr es : calm es -> marks (tr ++ es) = marks tr ++ answers es.
Proof.
  intros H. unfold marks. rewrite foldl_app. generalize (foldl (fun l ev => match ev with EvStore flexLow _ v => [v]
    | EvFlex 0 v => l ++ [v] | _ => l end) [2 ^ 64 - 1] tr). intros l. revert l.
  induction H as [|ev es Hev _ IH]; intros l; [by rewrite app_nil_r|]. cbn [foldl]. rewrite IH. unfold answers. cbn [omap list_omap].
  destruct ev; try done; case_match; try done. by rewrite <- app_assoc.
Qed.

(** Atomics and traces only grow, and no baseline is recorded. *)
Record ext (w w1 : shared) : Prop := {
  ext_order l : order_of w l `prefix_of` order_of w1 l;
  ext_trace : exists es, trace w1 = trace w ++ es /\ calm es;
  ext_boot : order_of w1 flexBoot = order_of w flexBoot }.

#[export] Instance ext_preorder : PreOrder ext.
Proof.
  split.
  - intros w. split; [done| |done]. exists []. split; [by rewrite app_nil_r|constructor].
  - intros w1 w2 w3 [H1 (e1 & T1 & C1) B1] [H2 (e2 & T2 & C2) B2]. split.
    + intros l; etrans; [apply H1|apply H2].
    + exists (e1 ++ e2). rewrite T2, T1, app_assoc. split; [done|by apply Forall_app].
    + by rewrite B2.
Qed.

Lemma ext_prefix w w1 : ext w w1 -> trace w `prefix_of` trace w1.
Proof. intros H. destruct (ext_trace _ _ H) as (es & -> & _). by apply prefix_app_r. Qed.
Lemma ext_base w w1 : ext w w1 -> base (trace w1) = base (trace w).
Proof. intros H. destruct (ext_trace _ _ H) as (es & -> & C). by apply base_calm. Qed.
Lemma ext_baseline w w1 : ext w w1 -> baseline (trace w1) = baseline (trace w).
Proof. intros H. destruct (ext_trace _ _ H) as (es & -> & C). by apply baseline_calm. Qed.
Lemma ext_marks w w1 x : ext w w1 -> x ∈ marks (trace w) -> x ∈ marks (trace w1).
Proof. intros H Hx. destruct (ext_trace _ _ H) as (es & -> & C). rewrite marks_calm by done. apply elem_of_app. by left. Qed.
Lemma ext_in w w1 ev : ext w w1 -> ev ∈ trace w -> ev ∈ trace w1.
Proof. intros H Hv. by eapply elem_of_prefix, ext_prefix. Qed.
Lemma ext_lookup w w1 l i x : ext w w1 -> order_of w l !! i = Some x -> order_of w1 l !! i = Some x.
Proof. intros H Hx. eapply prefix_lookup_Some; [done|apply H]. Qed.

Definition adds (es : list event) : list Z := omap (fun e => match e with EvAdd old => Some old | _ => None end) es.

(** From its last baseline on the mark only falls, to answers of queries; the
    baseline is the last one recorded; each stored code is a query's. *)
Record Inv (w : shared) : Prop := {
  inv_ne l : order_of w l <> [];
  inv_base : (base (trace w) < length (order_of w flexLow))%nat;
  inv_low i j x y : (base (trace w) <= i)%nat ->
    order_of w flexLow !! i = Some x -> order_of w flexLow !! j = Some y -> (i < j)%nat -> y < x;
  inv_from i x : (base (trace w) <= i)%nat -> order_of w flexLow !! i = Some x -> x ∈ marks (trace w);
  inv_boot : last (order_of w flexBoot) = Some (baseline (trace w));
  inv_size : 0 <= baseline (trace w) < 2 ^ 63;
  inv_err i x : (0 < i)%nat -> order_of w flexQueryErr !! i = Some x -> exists v, EvFlex x v ∈ trace w;
  inv_count i x : order_of w oomAnnounced !! i = Some x -> x = s32 (Z.of_nat i);
  inv_adds : adds (trace w) = removelast (order_of w oomAnnounced) }.

(** Since the last baseline the low-water mark is at most [v]. *)
Definition low_le (w : shared) (v : Z) : Prop :=
  exists i x, (base (trace w) <= i)%nat /\ order_of w flexLow !! i = Some x /\ x <= v.
(** ... and the thread has seen it so. *)
Definition low_seen (w : shared) (t : local) (v : Z) : Prop :=
  exists i x, (base (trace w) <= i <= view t flexLow)%nat /\ order_of w flexLow !! i = Some x /\ x <= v.

Definition settled (w : shared) (es : list event) : Prop := forall v, EvFlex 0 v ∈ es -> low_le w v.

(** A thread's positions are in the orders, and it has seen the last baseline. *)
Record views (w : shared) (t : local) : Prop := {
  views_in l : (view t l < length (order_of w l))%nat;
  views_base : (base (trace w) <= view t flexLow)%nat;
  views_boot : view t flexBoot = pred (length (order_of w flexBoot)) }.
Definition good (w : shared) (t : local) : Prop := Inv w /\ views w t.

(** From [w], [t] the thread came to [w1], [t1] with events [es]. *)
Record went (w : shared) (t : local) (w1 : shared) (t1 : local) (es : list event) : Prop := {
  went_good : good w1 t1;
  went_ext : ext w w1;
  went_view l : (view t l <= view t1 l)%nat;
  went_past : past t1 = past t;
  went_events : events t1 = events t ++ es }.

Definition after w t w1 t1 es : Prop := went w t w1 t1 es /\ settled w1 es.

Lemma low_le_ext w w1 v : ext w w1 -> low_le w v -> low_le w1 v.
Proof.
  intros He (i & x & Hb & Hx & Hv). exists i, x. rewrite (ext_base _ _ He). split; [done|]. split; [|done].
  by eapply ext_lookup.
Qed.

Lemma low_seen_le w t v : low_seen w t v -> low_le w v.
Proof. intros (i & x & [Hb _] & Hx & Hv). by exists i, x. Qed.

Lemma low_seen_went w t w1 t1 es v : went w t w1 t1 es -> low_seen w t v -> low_seen w1 t1 v.
Proof.
  intros Hw (i & x & Hi & Hx & Hv). exists i, x. rewrite (ext_base w w1) by apply Hw.
  split; [pose proof (went_view _ _ _ _ _ Hw flexLow); lia|]. split; [|done]. by eapply ext_lookup, Hx; apply Hw.
Qed.

Lemma settled_nil w : settled w [].
Proof. intros v H. by apply not_elem_of_nil in H. Qed.

Lemma settled_app w es1 es2 : settled w es1 -> settled w es2 -> settled w (es1 ++ es2).
Proof. intros H1 H2 v Hv. apply elem_of_app in Hv as [Hv|Hv]; auto. Qed.

Lemma settled_ext w w1 es : ext w w1 -> settled w es -> settled w1 es.
Proof. intros He H v Hv. by eapply low_le_ext, H. Qed.

Lemma went_trans w t w1 t1 w2 t2 es1 es2 :
  went w t w1 t1 es1 -> went w1 t1 w2 t2 es2 -> went w t w2 t2 (es1 ++ es2).
Proof.
  intros [I1 E1 V1 P1 H1] [I2 E2 V2 P2 H2]. split; [done|by etrans| |congruence|].
  - intros l. specialize (V1 l). specialize (V2 l). lia.
  - by rewrite H2, H1, app_assoc.
Qed.

Lemma after_trans w t w1 t1 w2 t2 es1 es2 :
  after w t w1 t1 es1 -> after w1 t1 w2 t2 es2 -> after w t w2 t2 (es1 ++ es2).
Proof.
  intros [W1 S1] [W2 S2]. split; [by eapply went_trans|]. apply settled_app; [|done].
  eapply settled_ext; [apply W2|done].
Qed.

Lemma views_ext w w1 t : ext w w1 -> views w t -> views w1 t.
Proof.
  intros He [H1 H2 H3]. split; [|by rewrite (ext_base _ _ He)|by rewrite (ext_boot _ _ He)].
  intros l. specialize (H1 l). pose proof (prefix_length _ _ (ext_order _ _ He l)). lia.
Qed.

Lemma good_ext w w1 t : ext w w1 -> Inv w1 -> good w t -> good w1 t.
Proof. intros He Hi [_ H]. split; [done|]. by eapply views_ext. Qed.

Lemma after_good w t w1 t1 es : after w t w1 t1 es -> good w1 t1.
Proof. intros [W _]. apply W. Qed.

Lemma after_ext w w1 t : good w t -> ext w w1 -> Inv w1 -> after w t w1 t [].
Proof.
  intros Hg He Hi. split; [|apply settled_nil]. split; try done; [by eapply good_ext|by rewrite app_nil_r].
Qed.

Lemma low_seen_read w t v x i :
  Inv w -> low_seen w t v -> order_of w flexLow !! i = Some x -> (view t flexLow <= i)%nat -> x <= v.
Proof.
  intros Hi (j & y & Hj & Hy & Hv) Hx Hle. destruct (decide (i = j)) as [->|].
  - rewrite Hx in Hy. by injection Hy as ->.
  - pose proof (inv_low w Hi j i y x ltac:(lia) Hy Hx ltac:(lia)). lia.
Qed.

(** ** Triples *)

Abbreviation wp_mem := (wp act Inv ext ext).

(** Whatever the others do, [p] ends (if it does) with its events and result in [Φ]. *)
Definition does {A : Set} (p : prog answer A) (Φ : A -> list event -> shared -> local -> Prop) : Prop :=
  forall w t, good w t -> wp_mem p w t (fun a w1 t1 => exists es, after w t w1 t1 es /\ Φ a es w1 t1).

Lemma does_bind {A C : Set} (p : prog answer A) (f : A -> prog answer C) Φ w t Q :
  does p Φ -> good w t ->
  (forall a es w1 t1, after w t w1 t1 es -> Φ a es w1 t1 -> wp_mem (f a) w1 t1 Q) ->
  wp_mem (bind p f) w t Q.
Proof.
  intros Hp Hg H. apply wp_bind; [apply _|apply Hg|]. eapply wp_mono; [|by apply Hp].
  intros a w1 t1 _ (es & Ha & Hphi). by eapply H.
Qed.

Lemma does_tail {A : Set} (p : prog answer A) Φ w t (Q : A -> shared -> local -> Prop) :
  does p Φ -> good w t -> (forall a es w1 t1, after w t w1 t1 es -> Φ a es w1 t1 -> Q a w1 t1) -> wp_mem p w t Q.
Proof. intros Hp Hi H. eapply wp_mono; [|by apply Hp]. intros a w1 t1 _ (es & Ha & Hphi). by eapply H. Qed.

Lemma does_ret {A : Set} (a : A) w t (Q : A -> shared -> local -> Prop) :
  good w t -> (forall w1, after w t w1 t [] -> Q a w1 t) -> wp_mem (Ret a) w t Q.
Proof. intros Hg H w1 Hr Hi. apply H. by apply after_ext. Qed.

(** ** The effects *)

(** What a call out of the file leaves in the trace. *)
Definition host_spec (e : eff) : answer e -> list event -> Prop :=
  match e return answer e -> list event -> Prop with
  | DirectTotal => fun v es => es = [EvDirectTotal v] /\ 0 <= v < 2 ^ 63
  | DirectAvailable end_ align => fun r es => es = [EvDirect end_ align r.1 r.2] /\ 0 <= r.2 < 2 ^ 63
  | Malloc n => fun p es => es = [EvMalloc n p] /\ 0 <= p < 2 ^ 64
  | PosixMemalign align n => fun r es => es = [EvMemalign align n r.1 r.2] /\ (r.1 = 0 -> r.2 <> 0)
  | Free p => fun _ es => es = [EvFree p]
  | MmapAnon len => fun p es => es = [EvMmap len p] /\ 0 <= p < 2 ^ 64
  | Munmap p len => fun _ es => es = [EvMunmap p len]
  | Touch p => fun _ es => es = [EvTouch p]
  | MutexLock => fun _ es => es = [EvLock]
  | MutexUnlock => fun _ es => es = [EvUnlock]
  | CondTimedwait sec nsec => fun _ es => es = [EvTimedwait sec nsec]
  | ClockGettime mono => fun _ es => es = [EvClock mono]
  | Usleep us => fun _ es => es = [EvUsleep us]
  | InternalAvailable => fun r es => es = [EvInternal r.1 r.2] /\ 0 <= r.1 < 2 ^ 63 /\ 0 <= r.2 < 2 ^ 63
  | MmapDirectReport where_ => fun _ es => es = [EvMmapReport where_]
  | ThreadStackProbe => fun _ es => es = [EvStackProbe]
  | TimerProbe => fun _ es => es = [EvTimerProbe]
  | Say l => fun _ es => es = [EvLog l]
  | LogEnabled => fun b es => es = [EvLogEnabled b]
  | EnvGet name => fun v es => es = [EvEnv name v]
  | Load _ | Store _ _ | CompareExchangeWeak _ _ _ | FetchAdd _ _ | FlexibleAvailable => fun _ _ => False
  | InternalResolved => fun b es => es = [EvResolved b]
  | ThreadCounts => fun r es => es = [EvThreads r.1 r.2]
  | ThreadStackFloor => fun v es => es = [EvFloor v]
  | ThreadAltStacks => fun r es => es = [EvAltStacks r.1.1 r.1.2 r.2]
  | ThreadAltStackSize => fun v es => es = [EvAltSize v]
  | MmapCounts => fun l es => es = [EvMmapCounts l]
  end.

Definition is_host (e : eff) : bool :=
  match e with
  | Load _ | Store _ _ | CompareExchangeWeak _ _ _ | FetchAdd _ _ | FlexibleAvailable => false
  | _ => true
  end.

Lemma size_ok_iff v : size_ok v = true -> 0 <= v < 2 ^ 63.
Proof. unfold size_ok. lia. Qed.

Definition plain (ev : event) : bool := match ev with EvStore _ _ _ | EvAdd _ | EvFlex _ _ => false | _ => true end.

(** An event that is neither a count nor a baseline leaves the invariant alone. *)
Lemma Inv_emit w t ev : Inv w -> adds [ev] = [] -> no_baseline ev -> Inv (emit w t ev).1.
Proof.
  intros [N B L F Bt S R C A] Hadd Hev. assert (calm [ev]) as Hc by by apply Forall_singleton.
  split; simpl; rewrite ?base_calm, ?baseline_calm by done; try done.
  - intros i x Hi Hx. rewrite marks_calm by done. apply elem_of_app. left. by eapply F.
  - intros i x Hi Hx. destruct (R i x Hi Hx) as (v & Hv). exists v. apply elem_of_app. by left.
  - unfold adds in *. by rewrite omap_app, Hadd, app_nil_r.
Qed.

Lemma ext_emit w t ev : no_baseline ev -> ext w (emit w t ev).1.
Proof. intros Hev. split; simpl; [done| |done]. exists [ev]. split; [done|by apply Forall_singleton]. Qed.

Lemma views_emit w t ev : no_baseline ev -> views w t -> views (emit w t ev).1 (emit w t ev).2.
Proof.
  intros Hev [V1 V2 V3]. split; simpl; [done| |done]. rewrite base_calm; [done|by apply Forall_singleton].
Qed.

Lemma went_emit w t ev :
  views w t -> no_baseline ev -> Inv (emit w t ev).1 -> went w t (emit w t ev).1 (emit w t ev).2 [ev].
Proof. intros Hv Hev Hi. split; simpl; [split; [done|by apply views_emit]|by apply (ext_emit w t)|done..]. Qed.

Lemma settled_1 w ev : (forall v, ev <> EvFlex 0 v) -> settled w [ev].
Proof. intros H v Hv. apply list_elem_of_singleton in Hv. by destruct (H v). Qed.

Lemma after_emit w t ev :
  good w t -> plain ev = true -> after w t (emit w t ev).1 (emit w t ev).2 [ev].
Proof.
  intros [Hi Hv] Hp. assert (no_baseline ev) by by destruct ev.
  split; [apply went_emit, Inv_emit; [done..|by destruct ev|done]|apply settled_1; by destruct ev].
Qed.

Lemma act_host e c w t r w2 t2 :
  is_host e = true -> good w t -> act e c w t = Some (r, w2, t2) ->
  exists es, after w t w2 t2 es /\ host_spec e r es.
Proof.
  intros Hh Hi Hact.
  assert (forall ev (P : list event -> Prop), plain ev = true -> P [ev] ->
    exists es, after w t (emit w t ev).1 (emit w t ev).2 es /\ P es) as Hev.
  { intros ev P H1 HP. exists [ev]. split; [by apply after_emit|done]. }
  assert (forall P : list event -> Prop, P [] -> exists es, after w t w t es /\ P es) as Hno.
  { intros P HP. exists []. split; [|done]. apply after_ext; [done|done|apply Hi]. }
  destruct e; try done; simpl in Hact;
    repeat (case_match; try done); simplify_eq;
    repeat match goal with H : _ && _ = true |- _ => apply andb_prop in H as [? ?] end;
    try (apply Hno; simpl; done);
    (eapply Hev; [reflexivity|]); simpl; try done;
    repeat match goal with H : size_ok _ = true |- _ => apply size_ok_iff in H end;
    repeat match goal with H : u64_ok _ = true |- _ => unfold u64_ok in H end; try lia;
    split; try done; lia.
Qed.

Lemma after_here w t w2 t2 w3 es : after w t w2 t2 es -> ext w2 w3 -> Inv w3 -> after w t w3 t2 es.
Proof.
  intros H He Hi. rewrite <- (app_nil_r es). eapply after_trans; [done|]. apply after_ext; [|done..].
  by eapply after_good.
Qed.

Lemma after_from w w1 t w2 t2 es : good w t -> ext w w1 -> Inv w1 -> after w1 t w2 t2 es -> after w t w2 t2 es.
Proof. intros Hg He Hi H. change es with ([] ++ es). eapply after_trans; [by apply after_ext|done]. Qed.

(** A rule for an effect from what its step does. *)
Lemma does_act e (Φ : answer e -> list event -> shared -> local -> Prop) :
  (forall c w t r w2 t2, good w t -> act e c w t = Some (r, w2, t2) ->
     exists es, after w t w2 t2 es /\ forall w3, ext w2 w3 -> Inv w3 -> Φ r es w3 t2) ->
  does (do answer e) Φ.
Proof.
  intros H w t Hg. apply wp_do. intros w1 Hr Hi1 c r w2 t2 Hact.
  destruct (H c w1 t r w2 t2 (good_ext _ _ _ Hr Hi1 Hg) Hact) as (es & Ha & Hphi).
  split; [apply Ha|]. split; [apply Ha|]. intros w3 Hr3 Hi3. exists es. split; [|by apply Hphi].
  eapply after_from; [done..|]. by eapply after_here.
Qed.

Lemma does_host e : is_host e = true -> does (do answer e) (fun r es _ _ => host_spec e r es).
Proof.
  intros Hh. apply does_act. intros c w t r w2 t2 Hg Hact.
  destruct (act_host e c w t r w2 t2 Hh Hg Hact) as (es & Ha & Hs). by exists es.
Qed.

Lemma sees_le t l i l' : (view t l <= i)%nat -> (view t l' <= view (sees t l i) l')%nat.
Proof. intros H. simpl. unfold set_loc. case_decide; subst; lia. Qed.

Lemma sees_same t l i : view (sees t l i) l = i.
Proof. simpl. unfold set_loc. by rewrite decide_True. Qed.

Lemma views_sees w t l i x :
  views w t -> (view t l <= i)%nat -> order_of w l !! i = Some x -> views w (sees t l i).
Proof.
  intros [V1 V2 V3] Hle Hx. apply lookup_lt_Some in Hx. split.
  - intros l'. simpl. unfold set_loc. case_decide; [by subst|done].
  - pose proof (sees_le t l i flexLow Hle). lia.
  - simpl. unfold set_loc. case_decide; [|done]. subst l. lia.
Qed.

Lemma read_at_spec w t l i x t2 :
  good w t -> read_at w t l i = Some (x, t2) ->
  t2 = sees t l i /\ (view t l <= i)%nat /\ order_of w l !! i = Some x /\ after w t w t2 [].
Proof.
  unfold read_at. intros Hi H. case_bool_decide as Hle; [|done].
  destruct (order_of w l !! i) as [y|] eqn:Hy; simpl in H; [|done]. injection H as -> <-.
  split_and!; [done..|]. split; [|apply settled_nil].
  split; [|done| |done|by rewrite app_nil_r]; [|intros l'; by apply sees_le].
  split; [apply Hi|]. eapply views_sees; [apply Hi|done..].
Qed.

Lemma does_load l :
  does (do answer (Load l)) (fun x es w t => es = [] /\ order_of w l !! view t l = Some x).
Proof.
  apply does_act. simpl. intros c w t r w2 t2 Hi H.
  destruct (read_at w t l (ch_pos c)) as [[x t']|] eqn:Hx; simpl in H; [|done]. injection H as <- <- <-.
  apply read_at_spec in Hx as (-> & Hle & Hx & Ha); [|done]. exists []. split; [done|].
  intros w3 He Hi3. split; [done|]. rewrite sees_same. by eapply prefix_lookup_Some, He.
Qed.

(** ** Writing an atomic at the end of its order *)

Lemma ext_write w t l v : l <> flexBoot -> ext w (write_to w t l v).1.
Proof.
  intros Hl. split; simpl.
  - intros l'. unfold set_loc. case_decide; subst; [by apply prefix_app_r|done].
  - exists []. split; [by rewrite app_nil_r|constructor].
  - unfold set_loc. by rewrite decide_False.
Qed.

Lemma views_write w t l v : l <> flexBoot -> views w t -> views (write_to w t l v).1 (write_to w t l v).2.
Proof.
  intros Hl [V1 V2 V3]. split; simpl.
  - intros l'. specialize (V1 l'). unfold set_loc. case_decide; [subst; rewrite length_app; simpl; lia|done].
  - pose proof (sees_le t l (length (order_of w l)) flexLow ltac:(specialize (V1 l); lia)). simpl in *. lia.
  - unfold set_loc. by rewrite !decide_False.
Qed.

Lemma went_write w t l v :
  l <> flexBoot -> views w t -> Inv (write_to w t l v).1 -> went w t (write_to w t l v).1 (write_to w t l v).2 [].
Proof.
  intros Hl Hv Hi. split; [split; [done|by apply views_write]|by apply ext_write| |done|by rewrite app_nil_r].
  intros l'. apply sees_le. pose proof (views_in _ _ Hv l). lia.
Qed.

Lemma set_loc_ne (f : loc -> list Z) l v l' : f l' <> [] -> set_loc f l (f l ++ [v]) l' <> [].
Proof. unfold set_loc. intros H. case_decide; [by destruct (f l)|done]. Qed.

(** The two atomics that keep no order among their values. *)
Definition loose (w : shared) (l : loc) (v : Z) : Prop :=
  l = biggestRequest \/ (l = flexQueryErr /\ exists x, EvFlex v x ∈ trace w).

Lemma Inv_write_loose w t l v : loose w l v -> Inv w -> Inv (write_to w t l v).1.
Proof.
  intros [-> | [-> Hq]] [N B L F Bt S R C A].
  - split; simpl; try done. intros l; apply set_loc_ne, N.
  - split; simpl; try done; [intros l; apply set_loc_ne, N|]. intros i x Hi Hx. unfold set_loc in Hx. simpl in Hx.
    apply lookup_app_Some in Hx as [Hx|[Hle Hx]]; [by eapply R|]. by apply list_lookup_singleton_Some in Hx as [_ <-].
Qed.

(** The value stored and its place, which the thread has now seen. *)
Definition stored_at (l : loc) (v : Z) (k : nat) (w : shared) (t : local) : Prop :=
  (0 < k)%nat /\ view t l = k /\ order_of w l !! k = Some v.

Lemma after_store w t l v : good w t -> loose w l v ->
  let k := length (order_of w l) in
  let w1 := (write_to w t l v).1 in let t1 := (write_to w t l v).2 in
  let ev := EvStore l k v in
  after w t (emit w1 t1 ev).1 (emit w1 t1 ev).2 [ev] /\ stored_at l v k (emit w1 t1 ev).1 (emit w1 t1 ev).2.
Proof.
  intros [Hi Hv] Hl k w1 t1 ev. assert (l <> flexBoot) as Hb by (destruct Hl as [-> |[-> _]]; done).
  assert (no_baseline ev) as Hev by (destruct Hl as [-> |[-> _]]; done).
  assert (went w t w1 t1 []) as H1 by (apply went_write; [done..|by apply Inv_write_loose]).
  assert (went w1 t1 (emit w1 t1 ev).1 (emit w1 t1 ev).2 [ev]) as H2.
  { apply went_emit; [apply H1|done|]. apply Inv_emit; [apply H1|done..]. }
  split; [split; [exact (went_trans _ _ _ _ _ _ _ _ H1 H2)|by apply settled_1]|].
  split; [pose proof (views_in _ _ Hv l); unfold k; lia|]. split; [apply sees_same|].
  simpl. unfold set_loc. rewrite decide_True by done. by apply list_lookup_middle.
Qed.

Lemma wp_store l v w t (Q : unit -> shared -> local -> Prop) :
  good w t -> loose w l v ->
  (forall k w1 t1, after w t w1 t1 [EvStore l k v] -> stored_at l v k w1 t1 -> Q tt w1 t1) ->
  wp_mem (do answer (Store l v)) w t Q.
Proof.
  intros Hg Hl HQ. apply wp_do. intros w1 Hr Hi1 c [] w2 t2 [= <- <-].
  assert (loose w1 l v) as Hl1.
  { destruct Hl as [|[? [x Hx]]]; [by left|right]. split; [done|]. exists x. by eapply ext_in. }
  destruct (after_store w1 t l v (good_ext _ _ _ Hr Hi1 Hg) Hl1) as [Ha (H1 & H2 & H3)]. simpl in Ha.
  split; [apply Ha|]. split; [apply Ha|]. intros w3 Hr3 Hi3. eapply HQ.
  - eapply after_from; [done..|]. by eapply after_here.
  - split; [done|]. split; [done|]. by eapply ext_lookup.
Qed.

Lemma s32_step x : s32 (s32 x + 1) = s32 (x + 1).
Proof.
  unfold s32. f_equal. replace ((x + 2 ^ 31) mod 2 ^ 32 - 2 ^ 31 + 1 + 2 ^ 31) with ((x + 2 ^ 31) mod 2 ^ 32 + 1) by lia.
  rewrite Zplus_mod_idemp_l. f_equal. lia.
Qed.

Lemma last_removelast {A} (l : list A) x : last l = Some x -> l = removelast l ++ [x].
Proof.
  intros H. destruct l as [|y l] using rev_ind; [done|]. rewrite last_snoc in H. injection H as ->.
  by rewrite removelast_last.
Qed.

Lemma does_fetch_add : does (do answer (FetchAdd oomAnnounced 1)) (fun x es _ _ => es = [EvAdd x]).
Proof.
  apply does_act. intros c w t r w2 t2 [Hi Hv] H. simpl in H.
  destruct (last (order_of w oomAnnounced)) as [old|] eqn:Hl; simpl in H; [|done].
  injection H as <- <- <-. exists [EvAdd old]. split; [|done].
  set (o := order_of w oomAnnounced) in *.
  split; [|by apply settled_1].
  assert (oomAnnounced <> flexBoot) as Hne by done.
  pose proof (views_emit _ _ (EvAdd old) Logic.I (views_write w t oomAnnounced (s32 (old + 1)) Hne Hv)) as Hv2.
  pose proof (transitivity (ext_write w t oomAnnounced (s32 (old + 1)) Hne) (ext_emit _ t (EvAdd old) Logic.I)) as He2.
  split; simpl; [split; [|exact Hv2]|exact He2| |done|done].
  - pose proof (last_removelast _ _ Hl) as Hsplit. destruct Hi as [N B L F Bt S R C A].
    assert (calm [EvAdd old]) as Hc by by apply Forall_singleton.
    split; simpl; rewrite ?base_calm, ?baseline_calm by done; try done.
    + intros l. apply set_loc_ne, N.
    + intros i x Hi Hx. rewrite marks_calm by done. apply elem_of_app. left. by eapply F.
    + intros i x Hi Hx. destruct (R i x Hi Hx) as (v & Hx'). exists v. apply elem_of_app. by left.
    + unfold set_loc. simpl. intros i x Hx. apply lookup_app_Some in Hx as [Hx|[Hle Hx]]; [by eapply C|].
      destruct (i - length o)%nat as [|] eqn:Hn; simpl in Hx; [|by rewrite lookup_nil in Hx]. injection Hx as <-.
      assert (o !! (length o - 1)%nat = Some old) as Ho by (by rewrite last_lookup in Hl; replace (length o - 1)%nat with (pred (length o)) by lia).
      pose proof (lookup_lt_Some _ _ _ Ho). rewrite (C _ _ Ho), s32_step. f_equal. lia.
    + unfold set_loc. simpl. unfold adds in *. rewrite omap_app, A, removelast_last.
      symmetry. exact Hsplit.
  - intros l. apply (sees_le t oomAnnounced). pose proof (views_in _ _ Hv oomAnnounced). fold o in H. lia.
Qed.

(** ** The low-water loop *)

Lemma Inv_write_low w t v low :
  Inv w -> last (order_of w flexLow) = Some low -> v < low -> v ∈ marks (trace w) ->
  Inv (write_to w t flexLow v).1.
Proof.
  intros [N B L F Bt S R C A] Hlast Hv Ht. rewrite last_lookup in Hlast. set (o := order_of w flexLow) in *.
  split; simpl; try done; [intros l; apply set_loc_ne, N| | |]; unfold set_loc; simpl; fold o.
  - rewrite length_app. simpl. lia.
  - intros i j x y Hi Hx Hy Hij. apply lookup_app_Some in Hy as [Hy|[Hle Hy]].
    { rewrite lookup_app_l in Hx by (apply lookup_lt_Some in Hy; lia). by eapply (L i j). }
    destruct (j - length o)%nat eqn:Hj; simpl in Hy; [|by rewrite lookup_nil in Hy].
    injection Hy as <-. rewrite lookup_app_l in Hx by lia.
    destruct (decide (i = pred (length o))) as [->|]; [congruence|].
    pose proof (L _ _ _ _ Hi Hx Hlast ltac:(lia)). lia.
  - intros i x Hi Hx. apply lookup_app_Some in Hx as [Hx|[_ Hx]]; [by eapply F|].
    by apply list_lookup_singleton_Some in Hx as [_ <-].
Qed.

Lemma lower_does v low0 w t :
  good w t -> v ∈ marks (trace w) -> low_seen w t low0 ->
  wp_mem (lower v low0) w t (fun _ w1 t1 => went w t w1 t1 [] /\ low_seen w1 t1 v).
Proof.
  intros Hg Ht Hlow. unfold lower, loop_prog.
  exists (fun low w1 t1 => went w t w1 t1 [] /\ low_seen w1 t1 low /\ v ∈ marks (trace w1)).
  assert (forall w1 w2 t1, ext w1 w2 -> Inv w2 -> went w t w1 t1 [] -> went w t w2 t1 [] /\ went w1 t1 w2 t1 []) as Hst.
  { intros w1 w2 t1 He Hi Hw.
    assert (went w1 t1 w2 t1 []) by (apply after_ext; [apply Hw|done|done]).
    split; [|done]. change [] with (@nil event ++ []). by eapply went_trans. }
  split; [|split].
  - intros low w1 w2 t1 He Hi (Hw & Hl & Htr). destruct (Hst w1 w2 t1 He Hi Hw) as [H1 H2].
    split; [done|]. split; [by eapply low_seen_went|]. by eapply ext_marks.
  - split; [|by split]. apply after_ext; [done|done|apply Hg].
  - intros low w1 t1 Hi (Hw & Hl & Htr).
    destruct (v <? low) eqn:Hlt.
    2: { simpl. intros w2 He2 Hi2 w3 He3 Hi3. destruct (Hst w1 w2 t1 He2 Hi2 Hw) as [H1 H2].
         destruct (Hst w2 w3 t1 He3 Hi3 H1) as [H3 H4]. split; [done|].
         destruct (low_seen_went _ _ _ _ _ _ (went_trans _ _ _ _ _ _ _ _ H2 H4) Hl) as (i & x & ? & ? & ?).
         exists i, x. split; [done|]. split; [done|lia]. }
    apply wp_bind; [apply _|done|]. apply wp_do. intros w2 He2 Hi2 c [ok seen] w3 t3 Hact.
    destruct (Hst w1 w2 t1 He2 Hi2 Hw) as [H1 H2]. simpl in Hact.
    assert (low_seen w2 t1 low) as Hl2 by (by eapply low_seen_went).
    assert (v ∈ marks (trace w2)) as Htr2 by (by eapply ext_marks).
    destruct (ch_try c && bool_decide (last (order_of w2 flexLow) = Some low)) eqn:Hc.
    + injection Hact as <- <- <- <-. apply andb_prop in Hc as [_ Hc]. apply bool_decide_eq_true in Hc.
      assert (went w2 t1 (write_to w2 t1 flexLow v).1 (write_to w2 t1 flexLow v).2 []) as Hwr.
      { apply went_write; [done|apply H1|]. apply (Inv_write_low w2 t1 v low); [done|done|lia|done]. }
      simpl in Hwr. split; [apply Hwr|]. split; [apply Hwr|]. intros w4 He4 Hi4 w5 He5 Hi5 w6 He6 Hi6.
      pose proof (went_trans _ _ _ _ _ _ _ _ H1 Hwr) as Hw3. simpl in Hw3.
      destruct (Hst _ w6 _ (transitivity (transitivity He4 He5) He6) Hi6 Hw3) as [H6 H7]. split; [done|].
      eapply low_seen_went; [exact H7|]. exists (length (order_of w2 flexLow)), v. simpl. unfold set_loc. simpl.
      split; [pose proof (inv_base w2 Hi2); lia|]. split; [|done]. by apply list_lookup_middle.
    + destruct (read_at w2 t1 flexLow (ch_pos c)) as [[x t4]|] eqn:Hrd; simpl in Hact; [|done].
      injection Hact as <- <- <- <-. apply read_at_spec in Hrd as (-> & Hle & Hx & [Hw3 _]); [|apply H1].
      split; [apply Hw3|]. split; [apply Hw3|]. intros w4 He4 Hi4 w5 He5 Hi5.
      pose proof (went_trans _ _ _ _ _ _ _ _ H1 Hw3) as Hw4. simpl in Hw4.
      destruct (Hst _ w5 _ (transitivity He4 He5) Hi5 Hw4) as [H6 H7]. split; [done|].
      split; [|eapply ext_marks; [|exact Htr2]; by etrans].
      eapply low_seen_went; [exact H7|]. exists (ch_pos c), x. rewrite sees_same.
      split; [pose proof (views_base _ _ (proj2 (went_good _ _ _ _ _ H1))); lia|done].
Qed.

Lemma does_flex_query w t Q :
  good w t ->
  (forall rc v w1 t1, went w t w1 t1 [EvFlex rc v] -> EvFlex rc v ∈ trace w1 -> (rc = 0 -> v ∈ marks (trace w1)) ->
     0 <= v < 2 ^ 63 -> Q (rc, v) w1 t1) ->
  wp_mem (do answer FlexibleAvailable) w t Q.
Proof.
  intros Hg HQ. apply wp_do. intros w1 Hr Hi1 c [rc v] w2 t2 Hact. simpl in Hact.
  destruct (ch_nums c) as [|rc' [|v' [|]]]; try done.
  destruct (s32_ok rc' && size_ok v') eqn:Hok; [|done]. injection Hact as <- <- <- <-.
  apply andb_prop in Hok as [_ Hv%size_ok_iff].
  pose proof (went_emit w1 t (EvFlex rc' v') (views_ext _ _ _ Hr (proj2 Hg)) Logic.I ltac:(by apply Inv_emit)) as Hw.
  split; [apply Hw|]. split; [apply Hw|]. intros w3 Hr3 Hi3. apply HQ.
  - destruct (after_ext _ _ _ Hg Hr Hi1) as [H0 _].
    assert (good (emit w1 t (EvFlex rc' v')).1 (emit w1 t (EvFlex rc' v')).2) as Hg2 by apply Hw.
    destruct (after_ext _ _ _ Hg2 Hr3 Hi3) as [H3 _].
    exact (went_trans _ _ _ _ _ _ _ _ (went_trans _ _ _ _ _ _ _ _ H0 Hw) H3).
  - eapply ext_in; [done|]. simpl. apply elem_of_app. right. by left.
  - intros ->. eapply ext_marks; [done|]. simpl. rewrite marks_calm by by apply Forall_singleton.
    apply elem_of_app. right. by left.
  - done.
Qed.

Lemma low_le_settled w rc v k c : (rc = 0 -> low_le w v) -> settled w [EvFlex rc v; EvStore flexQueryErr k c].
Proof. intros H v' [Hv|Hv]%elem_of_cons; [injection Hv as <- <-; by apply H|by apply list_elem_of_singleton in Hv]. Qed.

(** A value that is not older than the [k]-th. *)
Definition seen (w : shared) (l : loc) (k : nat) (x : Z) : Prop := exists j, (k <= j)%nat /\ order_of w l !! j = Some x.

Lemma seen_ext w w1 l k x : ext w w1 -> seen w l k x -> seen w1 l k x.
Proof. intros He (j & Hj & Hx). exists j. split; [done|by eapply ext_lookup]. Qed.

Lemma stored_went w t w1 t1 es l v k : went w t w1 t1 es -> stored_at l v k w t ->
  (0 < k <= view t1 l)%nat /\ order_of w1 l !! k = Some v.
Proof.
  intros Hw (H1 & H2 & H3). pose proof (went_view _ _ _ _ _ Hw l). split; [lia|]. by eapply ext_lookup, H3; apply Hw.
Qed.

(** The answer of a query, whose code was stored at [k], and that the mark the
    thread sees is at most it. *)
Definition flex_spec (v : Z) (es : list event) (w : shared) (t : local) : Prop :=
  exists rc x k, es = [EvFlex rc x; EvStore flexQueryErr k rc] /\ 0 <= x < 2 ^ 63 /\ v = (if rc =? 0 then x else 0) /\
    (rc = 0 -> low_seen w t x) /\ (0 < k <= view t flexQueryErr)%nat /\ order_of w flexQueryErr !! k = Some rc.

Lemma does_flexAvailable : does flexAvailable flex_spec.
Proof.
  intros w t Hg. unfold flexAvailable.
  apply wp_bind; [apply _|apply Hg|]. apply does_flex_query; [done|]. intros rc v w1 t1 H1 Htr Hm Hv.
  apply wp_bind; [apply _|apply H1|]. apply wp_store; [apply H1|right; eauto|]. intros k w2 t2 [H2 _] Hk.
  pose proof (went_trans _ _ _ _ _ _ _ _ H1 H2) as H12. simpl in H12.
  destruct (rc =? 0) eqn:Hrc; cbn [negb].
  2: { intros w3 Hr Hi. destruct (after_ext _ _ _ (went_good _ _ _ _ _ H12) Hr Hi) as [H3 _]. eexists. split.
       - split; [exact (went_trans _ _ _ _ _ _ _ _ H12 H3)|]. apply low_le_settled. intros ->. done.
       - exists rc, v, k. rewrite Hrc. split; [done|]. split; [done|]. split; [done|]. split; [lia|].
         by eapply stored_went. }
  eapply does_bind; [apply does_load|apply H12|]. intros low es w3 t3 [H3 _] [-> Hlow].
  pose proof (went_trans _ _ _ _ _ _ _ _ H12 H3) as H13. simpl in H13.
  assert (rc = 0) as -> by lia.
  assert (v ∈ marks (trace w3)) as Htr3.
  { eapply ext_marks; [|by apply Hm]. etrans; [apply H2|apply H3]. }
  apply wp_bind; [apply _|apply H13|].
  eapply wp_mono; [|apply lower_does; [apply H13|exact Htr3|]].
  2: { exists (view t3 flexLow), low. split; [|done]. split; [apply H13|done]. }
  intros [] w4 t4 _ [H4 Hl4]. simpl. intros w5 Hr Hi.
  pose proof (went_trans _ _ _ _ _ _ _ _ H13 H4) as H14. simpl in H14.
  destruct (after_ext _ _ _ (went_good _ _ _ _ _ H14) Hr Hi) as [H5 _].
  pose proof (went_trans _ _ _ _ _ _ _ _ H14 H5) as H15. simpl in H15.
  assert (low_seen w5 t4 v) by (eapply low_seen_went; [exact H5|done]).
  eexists. split; [split; [exact H15|]|].
  - apply low_le_settled. intros _. by eapply low_seen_le.
  - exists 0, v, k. split; [done|]. split; [done|]. split; [done|]. split; [done|].
    eapply stored_went, Hk. exact (went_trans _ _ _ _ _ _ _ _ H3 (went_trans _ _ _ _ _ _ _ _ H4 H5)).
Qed.

(** The mark read after a query is at most the query's answer. *)
Lemma low_read w t w1 t1 es v low :
  low_seen w t v -> after w t w1 t1 es -> order_of w1 flexLow !! view t1 flexLow = Some low -> low <= v.
Proof.
  intros Hs [H1 _] Hl. eapply (low_seen_read w1 t1); [apply H1|by eapply low_seen_went|done|lia].
Qed.
