(* ===== verification/MemRun.v ===== *)
(** What the allocation functions and the census of [MemPools] do, whatever
    the other threads do at the same time, and what holds of whole runs. *)
From stdpp Require Import prelude list strings relations sorting.
From S2P Require Import Prelude Effects MemPools MemLogic.
Open Scope Z_scope.
Import MemPools.

(** ** What each call is to do *)

Definition flex_answer (rc v : Z) : Z := if rc =? 0 then v else 0.

(** The code read back after a query that stored its own, [own], at place [k]:
    not an older one, and the code of some query. *)
Definition code_ok (w : shared) (k : nat) (own rc : Z) : Prop :=
  order_of w flexQueryErr !! k = Some own /\ seen w flexQueryErr k rc /\ exists v, EvFlex rc v ∈ trace w.

(** The mark read after a query that answered [rc], [v]. *)
Definition mark_ok (w : shared) (rc v low : Z) : Prop := low ∈ marks (trace w) /\ (rc = 0 -> low <= v).

(** The events of an announcement, given how many there were before and where
    in the order of [biggestRequest] the thread is. *)
Definition announce_spec (w : shared) (kb : nat) (want align : Z) (es : list event) : Prop :=
  exists old,
    (kMaxAnnounced <= old /\ es = [EvAdd old]) \/
    (old < kMaxAnnounced /\
     exists rc v k total rc2 size flexRc low total2 biggest,
       code_ok w k rc flexRc /\ mark_ok w rc v low /\ seen w biggestRequest kb biggest /\
       es = [EvAdd old; EvFlex rc v; EvStore flexQueryErr k rc; EvDirectTotal total; EvDirect total 0x200000 rc2 size;
             EvLog (OomWant want align);
             EvLog (OomFlex (flex_answer rc v / 1024) (u32 flexRc) (baseline (trace w) / 1024) (low / 1024));
             EvDirectTotal total2;
             EvLog (OomDirect (total2 / 1024) (flex_answer rc2 size / 1024) (u32 rc2));
             EvLog (OomLargest biggest)]).

(** The one call of the C library's allocator. *)
Definition alloc_event (a : option Z) (n p : Z) (ev : event) : Prop :=
  match a with
  | None => ev = EvMalloc (if n =? 0 then 1 else n) p
  | Some a => exists rc q, ev = EvMemalign (Z.max a 8) (if n =? 0 then 1 else n) rc q /\ p = (if rc =? 0 then q else 0)
  end.

(** The request is no larger than the value at place [kb], its own if it was
    stored. *)
Definition noted_at (w : shared) (n : Z) (kb : nat) (es : list event) : Prop :=
  exists b, order_of w biggestRequest !! kb = Some b /\ n <= b /\
    (es = [] \/ (b = n /\ es = [EvStore biggestRequest kb n])).

Definition new_spec (w : shared) (throws : bool) (a : option Z) (n : Z) (es : list event) (r : outcome_new) : Prop :=
  exists p ev kb noted, noted_at w n kb noted /\ alloc_event a n p ev /\
    ((p <> 0 /\ es = noted ++ [ev] /\ r = Returned p) \/
     (p = 0 /\ r = (if throws then Thrown else Returned 0) /\
      exists es', es = noted ++ ev :: es' /\ announce_spec w kb n (default 0 a) es')).

Definition census_spec (w : shared) (where_ : string) (es : list event) : Prop :=
  exists rc v k total rc2 size total2 flexRc low,
    code_ok w k rc flexRc /\ mark_ok w rc v low /\
    es = [EvFlex rc v; EvStore flexQueryErr k rc; EvDirectTotal total; EvDirect total 0x200000 rc2 size; EvDirectTotal total2;
          EvLog (if flexRc =? 0
                 then CensusFlex where_ (flex_answer rc v / 1024) (baseline (trace w) / 1024) (low / 1024)
                        (Z.quot (baseline (trace w) - flex_answer rc v) 1024)
                 else CensusFlexFailed where_ (u32 flexRc));
          EvLog (if rc2 =? 0 then CensusDirect where_ (total2 / 1024) (size / 1024)
                 else CensusDirectUnread where_ (total2 / 1024) (u32 rc2)); EvMmapReport where_].

(** What is true of an ended call stays true while others run. *)
Lemma code_ok_ext w w1 k own rc : ext w w1 -> code_ok w k own rc -> code_ok w1 k own rc.
Proof.
  intros He (Ho & H & v & Hv). split; [by eapply ext_lookup|]. split; [by eapply seen_ext|]. exists v. by eapply ext_in.
Qed.
Lemma mark_ok_ext w w1 rc v low : ext w w1 -> mark_ok w rc v low -> mark_ok w1 rc v low.
Proof. intros He [H1 H2]. split; [by eapply ext_marks|done]. Qed.
Lemma noted_at_ext w w1 n kb es : ext w w1 -> noted_at w n kb es -> noted_at w1 n kb es.
Proof. intros He (b & Hb & H). exists b. split; [by eapply ext_lookup|done]. Qed.
Lemma census_spec_ext w w1 where_ es : ext w w1 -> census_spec w where_ es -> census_spec w1 where_ es.
Proof.
  intros He (rc & v & k & total & rc2 & size & total2 & flexRc & low & Hc & Hm & ->).
  exists rc, v, k, total, rc2, size, total2, flexRc, low. rewrite (ext_baseline _ _ He).
  split; [by eapply code_ok_ext|]. split; [by eapply mark_ok_ext|done].
Qed.
Lemma announce_spec_ext w w1 kb want align es : ext w w1 -> announce_spec w kb want align es -> announce_spec w1 kb want align es.
Proof.
  intros He (old & [H|(Ho & rc & v & k & total & rc2 & size & flexRc & low & total2 & biggest & Hc & Hm & Hb & ->)]);
    exists old; [by left|right]. split; [done|]. exists rc, v, k, total, rc2, size, flexRc, low, total2, biggest.
  rewrite (ext_baseline _ _ He). split; [by eapply code_ok_ext|]. split; [by eapply mark_ok_ext|].
  split; [by eapply seen_ext|done].
Qed.
Lemma new_spec_ext w w1 throws a n es r : ext w w1 -> new_spec w throws a n es r -> new_spec w1 throws a n es r.
Proof.
  intros He (p & ev & kb & noted & Hn & Ha & H). exists p, ev, kb, noted. split; [by eapply noted_at_ext|]. split; [done|].
  destruct H as [H|(Hp & Hr & es' & -> & H)]; [by left|right]. split; [done|]. split; [done|].
  exists es'. split; [done|by eapply announce_spec_ext].
Qed.

(** ** The functions *)

(** A result whose events are in [Φ], among those of the caller. *)
Definition ends {A : Set} w t (Φ : A -> list event -> shared -> Prop) : A -> shared -> local -> Prop :=
  fun a w1 t1 => exists es, after w t w1 t1 es /\ Φ a es w1.

Lemma does_ends {A : Set} (p : prog answer A) (Φ : A -> list event -> shared -> Prop) :
  (forall w t, good w t -> wp_mem p w t (ends w t Φ)) -> does p (fun a es w _ => Φ a es w).
Proof. intros H w t Hg. by apply H. Qed.

(** How the world at one point of a call relates to a later one. *)
Ltac ext_all :=
  repeat first
    [ reflexivity | eassumption
    | match goal with H : after ?w _ _ _ _ |- ext ?w _ => etrans; [exact (went_ext _ _ _ _ _ (proj1 H))|] end ].

Ltac after_all :=
  repeat match goal with
  | H1 : after ?w ?t ?w1 ?t1 ?es1, H2 : after ?w1 ?t1 ?w2 ?t2 ?es2 |- after ?w ?t _ _ _ =>
      let H := fresh in
      pose proof (after_trans _ _ _ _ _ _ _ _ H1 H2) as H; clear H1; simpl in H
  end; try eassumption.

Tactic Notation "run" uconstr(l) :=
  eapply does_bind; [apply l; try reflexivity|first [done | by eapply after_good]|].
Tactic Notation "run_tail" uconstr(l) :=
  eapply does_tail; [apply l; try reflexivity|first [done | by eapply after_good]|].

Lemma does_noteRequest n :
  does (noteRequest n) (fun _ es w t => exists kb, noted_at w n kb es /\ (kb <= view t biggestRequest)%nat).
Proof.
  intros w t Hg. unfold noteRequest. run does_load. intros b es w1 t1 H1 [-> Hb].
  destruct (b <? n) eqn:Hlt.
  - apply wp_store; [by eapply after_good|by left|]. intros k w2 t2 H2 (Hk & Hv & Ho).
    eexists. split; [after_all|]. exists k. split; [|lia]. exists n. split; [done|]. split; [lia|]. right. done.
  - apply does_ret; [by eapply after_good|]. intros w2 H2. eexists. split; [after_all|].
    exists (view t1 biggestRequest). split; [|done]. exists b. split; [eapply ext_lookup, Hb; ext_all|]. split; [lia|by left].
Qed.

Lemma does_directAvailable :
  does directAvailable (fun r es _ _ => exists total size,
    es = [EvDirectTotal total; EvDirect total 0x200000 r.2 size] /\ r.1 = flex_answer r.2 size).
Proof.
  intros w t Hg. unfold directAvailable.
  run (does_host DirectTotal). intros total es w1 t1 H1 [-> _].
  run (does_host (DirectAvailable total 0x200000)). intros [rc sz] es w2 t2 H2 [-> _].
  apply does_ret; [by eapply after_good|]. intros w3 H3. eexists. split; [after_all|].
  by exists total, sz.
Qed.

Lemma consumed_ok boot flex :
  0 <= boot < 2 ^ 63 -> 0 <= flex < 2 ^ 63 -> consumed_kib boot flex = Ret (Z.quot (boot - flex) 1024).
Proof.
  intros Hb Hf. unfold consumed_kib. rewrite !s64_small by lia. unfold i64.
  destruct ((- 2 ^ 63 <=? boot - flex) && (boot - flex <? 2 ^ 63)) eqn:H; [done|lia].
Qed.

Lemma flex_answer_size rc x : 0 <= x < 2 ^ 63 -> 0 <= flex_answer rc x < 2 ^ 63.
Proof. unfold flex_answer. destruct (rc =? 0); lia. Qed.

(** What a load after a query answers with. *)
Lemma code_read w t w1 t1 es k rc c :
  (0 < k <= view t flexQueryErr)%nat /\ order_of w flexQueryErr !! k = Some rc -> after w t w1 t1 es ->
  order_of w1 flexQueryErr !! view t1 flexQueryErr = Some c -> code_ok w1 k rc c.
Proof.
  intros [Hk Ho] [H1 _] Hc. pose proof (went_view _ _ _ _ _ H1 flexQueryErr).
  split; [eapply ext_lookup, Ho; apply H1|]. split; [by eexists; split; [|exact Hc]; lia|].
  eapply (inv_err w1), Hc; [apply H1|lia].
Qed.

Lemma boot_read w t b : good w t -> order_of w flexBoot !! view t flexBoot = Some b -> b = baseline (trace w).
Proof.
  intros [Hi Hv] Hb. rewrite (views_boot _ _ Hv), <- last_lookup, (inv_boot _ Hi) in Hb. by injection Hb.
Qed.

Lemma mark_read w t w1 t1 es rc v low :
  (rc = 0 -> low_seen w t v) -> after w t w1 t1 es -> order_of w1 flexLow !! view t1 flexLow = Some low ->
  mark_ok w1 rc v low.
Proof.
  intros Hs H1 Hl. split; [|intros Hrc; by eapply low_read; [apply Hs|..]].
  destruct (after_good _ _ _ _ _ H1) as [Hi Hv]. eapply (inv_from w1 Hi), Hl. apply Hv.
Qed.

Lemma does_report where_ : does (report where_) (fun _ es w _ => census_spec w where_ es).
Proof.
  apply (does_ends _ (fun _ es w => census_spec w where_ es)). intros w t Hg. unfold report.
  run does_flexAvailable. intros flex es w1 t1 H1 (rc & x & k & -> & Hx & -> & Hseen & Hk).
  run (does_load flexQueryErr). intros flexRc es w2 t2 H2 [-> Hcode].
  pose proof (code_read _ _ _ _ _ _ _ _ Hk H2 Hcode) as Hc.
  run (does_load flexBoot). intros boot es w3 t3 H3 [-> Hboot].
  apply boot_read in Hboot; [|by eapply after_good]. pose proof (inv_size w3 ltac:(apply H3)) as Hsize.
  run (does_load flexLow). intros low es w4 t4 H4 [-> Hlow].
  assert (mark_ok w4 rc x low) as Hm.
  { eapply (mark_read w1 t1); [exact Hseen| |exact Hlow]. clear H1. after_all. }
  run does_directAvailable. intros [dAvail dRc] es w5 t5 H5 (total & size & -> & Hd). simpl in Hd. subst dAvail.
  run (does_host DirectTotal). intros total2 es w6 t6 H6 [-> _].
  change (if rc =? 0 then x else 0) with (flex_answer rc x).
  rewrite consumed_ok by (by rewrite Hboot || by apply flex_answer_size).
  set (flexLine := if flexRc =? 0 then CensusFlex where_ (flex_answer rc x / 1024) (boot / 1024) (low / 1024)
    (Z.quot (boot - flex_answer rc x) 1024) else CensusFlexFailed where_ (u32 flexRc)).
  eapply (does_bind _ _ (fun _ es _ _ => es = [EvLog flexLine])); [|by eapply after_good|].
  { unfold flexLine. destruct (flexRc =? 0); cbn [negb]; exact (does_host (Say _) eq_refl). }
  intros [] es w7 t7 H7 ->.
  eapply (does_bind _ _ (fun _ es _ _ => es = [EvLog (if dRc =? 0 then CensusDirect where_ (total2 / 1024) (size / 1024)
                 else CensusDirectUnread where_ (total2 / 1024) (u32 dRc))])); [|by eapply after_good|].
  { unfold flex_answer. destruct (dRc =? 0); cbn [negb]; exact (does_host (Say _) eq_refl). }
  intros [] es w8 t8 H8 ->.
  run_tail (does_host (MmapDirectReport where_)). intros [] es w9 t9 H9 ->.
  assert (ext w2 w9 /\ ext w3 w9 /\ ext w4 w9) as (E2 & E3 & E4) by (split_and!; ext_all).
  eexists. split; [after_all|]. exists rc, x, k, total, dRc, size, total2, flexRc, low.
  split; [exact (code_ok_ext _ _ _ _ _ E2 Hc)|]. split; [exact (mark_ok_ext _ _ _ _ _ E4 Hm)|].
  rewrite (ext_baseline _ _ E3). subst boot. done.
Qed.

Lemma does_announceOom kb want align w t :
  good w t -> (kb <= view t biggestRequest)%nat ->
  wp_mem (announceOom want align) w t (ends w t (fun _ es w => announce_spec w kb want align es)).
Proof.
  intros Hg Hkb. unfold announceOom.
  run does_fetch_add. intros old es w1 t1 H1 ->.
  destruct (kMaxAnnounced <=? old) eqn:Hold.
  { apply does_ret; [by eapply after_good|]. intros w2 H2. eexists. split; [after_all|]. exists old. left. split; [lia|done]. }
  run does_flexAvailable. intros flex es w2 t2 H2 (rc & x & k & -> & Hx & -> & Hseen & Hk).
  run (does_load flexQueryErr). intros flexRc es w3 t3 H3 [-> Hcode].
  pose proof (code_read _ _ _ _ _ _ _ _ Hk H3 Hcode) as Hc.
  run does_directAvailable. intros [dAvail dRc] es w4 t4 H4 (total & size & -> & Hd). simpl in Hd. subst dAvail.
  run (does_host (Say (OomWant want align))). intros [] es w5 t5 H5 ->.
  run (does_load flexBoot). intros boot es w6 t6 H6 [-> Hboot].
  apply boot_read in Hboot; [|by eapply after_good].
  run (does_load flexLow). intros low es w7 t7 H7 [-> Hlow].
  assert (mark_ok w7 rc x low) as Hm.
  { eapply (mark_read w2 t2); [exact Hseen| |exact Hlow]. clear H1 H2. after_all. }
  run (does_host (Say _)). intros [] es w8 t8 H8 ->.
  run (does_host DirectTotal). intros total2 es w9 t9 H9 [-> _].
  run (does_host (Say _)). intros [] es w10 t10 H10 ->.
  run (does_load biggestRequest). intros biggest es w11 t11 H11 [-> Hbig].
  run_tail (does_host (Say (OomLargest biggest))). intros [] es w12 t12 H12 ->.
  assert (ext w3 w12 /\ ext w6 w12 /\ ext w7 w12 /\ ext w11 w12) as (E3 & E6 & E7 & E11) by (split_and!; ext_all).
  assert (view t biggestRequest <= view t11 biggestRequest)%nat as Hv.
  { assert (exists es, after w t w11 t11 es) as (es' & [Hw _]) by (eexists; clear H12; after_all). apply Hw. }
  eexists. split; [after_all|]. exists old. right. split; [lia|].
  exists rc, x, k, total, dRc, size, flexRc, low, total2, biggest.
  split; [exact (code_ok_ext _ _ _ _ _ E3 Hc)|]. split; [exact (mark_ok_ext _ _ _ _ _ E7 Hm)|]. split.
  - eapply seen_ext; [exact E11|]. exists (view t11 biggestRequest). split; [lia|done].
  - rewrite (ext_baseline _ _ E6). by subst boot.
Qed.

Definition alloc_program (a : option Z) (n : Z) : prog answer Z :=
  match a with None => allocPlain n | Some a => allocAligned n a end.

Lemma does_alloc a n :
  does (alloc_program a n) (fun p es w t => exists noted kb ev, es = noted ++ [ev] /\ noted_at w n kb noted /\
    (kb <= view t biggestRequest)%nat /\ alloc_event a n p ev).
Proof.
  intros w t Hg. set (n1 := if n =? 0 then 1 else n).
  assert (at_least_1 n = n1) as Hmax by (unfold at_least_1, n1; by destruct (n =? 0)).
  assert (forall w1 t1 w2 t2 es kb noted ev p, after w t w1 t1 noted -> noted_at w1 n kb noted ->
    (kb <= view t1 biggestRequest)%nat -> after w1 t1 w2 t2 es -> es = [ev] -> alloc_event a n p ev ->
    exists es, after w t w2 t2 es /\ exists noted kb ev, es = noted ++ [ev] /\ noted_at w2 n kb noted /\
      (kb <= view t2 biggestRequest)%nat /\ alloc_event a n p ev) as Hend.
  { intros w1 t1 w2 t2 es kb noted ev p H1 Hn Hkb H2 -> Hev. exists (noted ++ [ev]). split; [by eapply after_trans|].
    exists noted, kb, ev. split; [done|]. split; [eapply noted_at_ext, Hn; ext_all|].
    split; [|done]. pose proof (went_view _ _ _ _ _ (proj1 H2) biggestRequest). lia. }
  destruct a as [a|]; unfold alloc_program, allocAligned, allocPlain;
    (run does_noteRequest; intros [] noted w1 t1 H1 (kb & Hn & Hkb)); rewrite Hmax.
  - set (a' := if a <? sizeof_ptr then sizeof_ptr else a).
    assert (a' = Z.max a 8) as Ha by (unfold a', sizeof_ptr; destruct (a <? 8) eqn:?; lia).
    run (does_host (PosixMemalign a' n1)). intros [rc q] es w2 t2 H2 [-> _].
    eapply (does_tail _ (fun p es _ _ => p = (if rc =? 0 then q else 0) /\ es = [])); [|by eapply after_good|].
    { intros w3 t3 Hg3. destruct (rc =? 0); cbn [negb]; apply does_ret; try done; intros w4 H4; by exists []. }
    intros p es w3 t3 H3 [-> ->]. eapply (Hend w1 t1); [done..|exact (after_trans _ _ _ _ _ _ _ _ H2 H3)|done|].
    unfold alloc_event. rewrite <- Ha. by exists rc, q.
  - run_tail (does_host (Malloc n1)). intros p es w2 t2 H2 [-> _]. by eapply (Hend w1 t1).
Qed.

Lemma does_operator_new throws a n :
  does (operator_new throws a n) (fun r es w _ => new_spec w throws a n es r).
Proof.
  apply (does_ends _ (fun r es w => new_spec w throws a n es r)). intros w t Hg.
  set (body := fun p => if p =? 0 then bind (announceOom n (default 0 a)) (fun _ => Ret (if throws then Thrown else Returned 0))
                        else Ret (Returned p)).
  assert (forall p kb w1 t1, good w1 t1 -> (kb <= view t1 biggestRequest)%nat -> wp_mem (body p) w1 t1 (ends w1 t1 (fun r es w =>
    (p <> 0 /\ es = [] /\ r = Returned p) \/
    (p = 0 /\ r = (if throws then Thrown else Returned 0) /\ announce_spec w kb n (default 0 a) es)))) as Hbody.
  { intros p kb w1 t1 Hg1 Hkb. unfold body. destruct (p =? 0) eqn:Hp.
    - apply wp_bind; [apply _|apply Hg1|]. eapply wp_mono; [|by apply (does_announceOom kb)].
      intros [] w2 t2 _ (es & H2 & Hes). apply does_ret; [by eapply after_good|]. intros w3 H3.
      eexists. split; [after_all|]. right. rewrite app_nil_r. split_and!; [lia|done|]. eapply announce_spec_ext, Hes. ext_all.
    - apply does_ret; [done|]. intros w3 H3. eexists. split; [done|]. left. split_and!; [lia|done..]. }
  assert (operator_new throws a n = bind (alloc_program a n) (fun p =>
    if throws then (if negb (p =? 0) then Ret (Returned p) else bind (announceOom n (default 0 a)) (fun _ => Ret Thrown))
    else bind (if p =? 0 then announceOom n (default 0 a) else Ret tt) (fun _ => Ret (Returned p)))) as ->
    by (by destruct throws, a).
  run does_alloc. intros p es w1 t1 H1 (noted & kb & ev & -> & Hn & Hkb & Hev).
  assert ((if throws then (if negb (p =? 0) then Ret (Returned p) else bind (announceOom n (default 0 a)) (fun _ => Ret Thrown))
    else bind (if p =? 0 then announceOom n (default 0 a) else Ret tt) (fun _ => Ret (Returned p))) = body p) as ->.
  { unfold body. destruct throws, (p =? 0) eqn:Hp; simpl; [done..| |done]. by rewrite (proj1 (Z.eqb_eq _ _) Hp). }
  eapply wp_mono; [|apply (Hbody p kb); [by eapply after_good|done]].
  intros r w2 t2 _ (es & H2 & Hr). eexists. split; [by eapply after_trans|]. exists p, ev, kb, noted.
  split; [eapply noted_at_ext, Hn; ext_all|]. split; [done|].
  destruct Hr as [(? & -> & ->)|(? & -> & ?)]; [left; by rewrite app_nil_r|right]. split_and!; [done..|].
  exists es. split; [by rewrite <- app_assoc|done].
Qed.

(** The answers in the order they were asked for, and the one line made of them. *)
Definition threads_spec (where_ : string) (es : list event) : Prop :=
  exists created raised altOk altFailed altSkipped floor floor1 floor2 alt,
    es = [EvThreads created raised; EvAltStacks altOk altFailed altSkipped; EvFloor floor; EvFloor floor1]
         ++ (if 65536 <? floor1 then [EvFloor floor2] else [])
         ++ [EvAltSize alt;
             EvLog (CensusThreads where_ created raised (floor / 1024)
                      (u64 (raised * (if 65536 <? floor1 then floor2 - 65536 else 0)) / 1024)
                      altOk altFailed altSkipped (u64 (altOk * alt) / 1024))].

Lemma does_memCensusThreads where_ :
  does (memCensusThreads where_) (fun _ es _ _ => threads_spec where_ es).
Proof.
  intros w t Hg. unfold memCensusThreads.
  run (does_host ThreadCounts). intros [created raised] es w1 t1 H1 ->.
  run (does_host ThreadAltStacks). intros [[altOk altFailed] altSkipped] es w2 t2 H2 ->.
  run (does_host ThreadStackFloor). intros floor es w3 t3 H3 ->.
  run (does_host ThreadStackFloor). intros floor1 es w4 t4 H4 ->.
  eapply (does_bind _ _ (fun above es _ _ => exists floor2, es = (if 65536 <? floor1 then [EvFloor floor2] else []) /\
    above = (if 65536 <? floor1 then floor2 - 65536 else 0))); [|by eapply after_good|].
  { intros w5 t5 Hg5. destruct (65536 <? floor1).
    - run (does_host ThreadStackFloor). intros f es w6 t6 H6 ->. apply does_ret; [by eapply after_good|].
      intros w7 H7. eexists. split; [after_all|]. by exists f.
    - apply does_ret; [done|]. intros w7 H7. eexists. split; [done|]. by exists 0. }
  intros above es w5 t5 H5 (floor2 & -> & ->).
  run (does_host ThreadAltStackSize). intros alt es w6 t6 H6 ->.
  run_tail (does_host (Say _)). intros [] es w7 t7 H7 ->. eexists. split; [after_all|].
  exists created, raised, altOk, altFailed, altSkipped, floor, floor1, floor2, alt. by destruct (65536 <? floor1).
Qed.

(** ** The probe *)

Definition lines (es : list event) : list line := omap (fun e => match e with EvLog l => Some l | _ => None end) es.

Lemma adds_app es1 es2 : adds (es1 ++ es2) = adds es1 ++ adds es2.
Proof. apply omap_app. Qed.
Lemma lines_app es1 es2 : lines (es1 ++ es2) = lines es1 ++ lines es2.
Proof. apply omap_app. Qed.

Lemma does_repeat body n (Φ : list event -> Prop) :
  does body (fun _ es _ _ => Φ es) ->
  does (repeat_prog n body) (fun _ es _ _ => exists ess, es = concat ess /\ length ess = n /\ Forall Φ ess).
Proof.
  intros Hb. induction n as [|n IH]; intros w t Hg; cbn [repeat_prog].
  { apply does_ret; [done|]. intros w1 H1. exists []. split; [done|]. by exists []. }
  eapply does_bind; [exact Hb|done|]. intros [] es w1 t1 H1 Hes.
  eapply does_tail; [exact IH|by eapply after_good|]. intros [] es2 w2 t2 H2 (ess & -> & <- & Hall).
  eexists. split; [after_all|]. exists (es :: ess). by repeat constructor.
Qed.

(** A reading of the pool. *)
Definition reading (v : Z) (es : list event) : Prop :=
  (es = [EvResolved false] /\ v = 0) \/
  exists out ret, es = [EvResolved true; EvInternal out ret] /\ v = (if out =? 0 then ret else out).

Lemma does_internalFree : does internalFree (fun v es _ _ => reading v es /\ 0 <= v < 2 ^ 63).
Proof.
  intros w t Hg. unfold internalFree. run (does_host InternalResolved). intros there es w1 t1 H1 ->.
  destruct there; cbn [negb].
  - run (does_host InternalAvailable). intros [out ret] es w2 t2 H2 (-> & Ho & Hr). simpl in Ho, Hr.
    apply does_ret; [by eapply after_good|]. intros w3 H3. eexists. split; [after_all|].
    split; [|destruct (out =? 0); simpl; lia]. right. exists out, ret. split; [done|]. by destruct (out =? 0).
  - apply does_ret; [by eapply after_good|]. intros w3 H3. eexists. split; [after_all|]. split; [by left|lia].
Qed.

(** Exactly [n] runs of the primitive [Φ] between two readings, and a line with
    their difference, whole and per call. *)
Definition measured (what : string) (n : nat) (Φ : list event -> Prop) (es : list event) : Prop :=
  exists before es1 ess after es2, reading before es1 /\ length ess = n /\ Forall Φ ess /\ reading after es2 /\
    es = es1 ++ concat ess ++ es2 ++
         [EvLog (ProbeLine what (before - after) (Z.of_nat n) (Z.quot (before - after) (Z.of_nat n)) after)].

Lemma does_measureN what body n Φ :
  does body (fun _ es _ _ => Φ es) -> does (measureN what body n) (fun _ es _ _ => measured what n Φ es).
Proof.
  intros Hb w t Hg. unfold measureN.
  run does_internalFree. intros before es1 w1 t1 H1 (R1 & B1).
  eapply does_bind; [by apply does_repeat|by eapply after_good|]. intros [] es w2 t2 H2 (ess & -> & Hn & Hq).
  run does_internalFree. intros after_ es2 w3 t3 H3 (R2 & B2).
  rewrite !s64_small by lia. unfold i64.
  destruct ((- 2 ^ 63 <=? before - after_) && (before - after_ <? 2 ^ 63)) eqn:Hr; [|lia].
  run_tail (does_host (Say _)). intros [] es w4 t4 H4 ->. eexists. split; [after_all|].
  exists before, es1, ess, after_, es2. by rewrite <- !app_assoc.
Qed.

(** What each primitive asks of the host: a block, a mapping or a lock is given
    back where it was got. *)
Definition one (ev : event) (es : list event) : Prop := es = [ev].
Definition nothing (es : list event) : Prop := es = [].
Definition lock_pair (es : list event) : Prop := es = [EvLock; EvUnlock].
Definition expired_wait (es : list event) : Prop := es = [EvLock; EvTimedwait 0 0; EvUnlock].
Definition block_pair (es : list event) : Prop :=
  exists p, es = EvMalloc 98304 p :: if p =? 0 then [] else [EvTouch p; EvFree p].
Definition mapping_pair (es : list event) : Prop :=
  exists p, es = EvMmap 65536 p :: if (p =? MAP_FAILED) || (p =? 0) then [] else [EvTouch p; EvMunmap p 65536].

Lemma does_bodyMallocLarge : does bodyMallocLarge (fun _ es _ _ => block_pair es).
Proof.
  intros w t Hg. unfold bodyMallocLarge. run (does_host (Malloc (96 * 1024))). intros p es w1 t1 H1 [-> _].
  destruct (p =? 0) eqn:Hp; cbn [negb].
  - apply does_ret; [by eapply after_good|]. intros w2 H2. eexists. split; [after_all|]. exists p. by rewrite Hp.
  - run (does_host (Touch p)). intros [] es w2 t2 H2 ->. run_tail (does_host (Free p)). intros [] es w3 t3 H3 ->.
    eexists. split; [after_all|]. exists p. by rewrite Hp.
Qed.

Lemma does_bodyMmapPair : does bodyMmapPair (fun _ es _ _ => mapping_pair es).
Proof.
  intros w t Hg. unfold bodyMmapPair. run (does_host (MmapAnon (64 * 1024))). intros p es w1 t1 H1 [-> _].
  destruct (negb (p =? MAP_FAILED) && negb (p =? 0)) eqn:Hp; rewrite <- negb_orb in Hp.
  - run (does_host (Touch p)). intros [] es w2 t2 H2 ->. run_tail (does_host (Munmap p (64 * 1024))). intros [] es w3 t3 H3 ->.
    eexists. split; [after_all|]. exists p. by rewrite (proj1 (negb_true_iff _) Hp).
  - apply does_ret; [by eapply after_good|]. intros w2 H2. eexists. split; [after_all|]. exists p.
    by rewrite (proj1 (negb_false_iff _) Hp).
Qed.

Lemma does_bodyMutexLock : does bodyMutexLock (fun _ es _ _ => lock_pair es).
Proof.
  intros w t Hg. unfold bodyMutexLock. run (does_host MutexLock). intros [] es w1 t1 H1 ->.
  run_tail (does_host MutexUnlock). intros [] es w2 t2 H2 ->. eexists. by split; [after_all|].
Qed.

Lemma does_bodyCondTimedwaitExpired : does bodyCondTimedwaitExpired (fun _ es _ _ => expired_wait es).
Proof.
  intros w t Hg. unfold bodyCondTimedwaitExpired. run (does_host MutexLock). intros [] es w1 t1 H1 ->.
  run (does_host (CondTimedwait 0 0)). intros [] es w2 t2 H2 ->.
  run_tail (does_host MutexUnlock). intros [] es w3 t3 H3 ->. eexists. by split; [after_all|].
Qed.

Lemma does_bodyNothing : does bodyNothing (fun _ es _ _ => nothing es).
Proof. intros w t Hg. apply does_ret; [done|]. intros w1 H1. exists []. by split. Qed.

Lemma does_one e ev : is_host e = true -> (forall a es, host_spec e a es -> es = [ev]) ->
  does (do answer e) (fun _ es _ _ => one ev es).
Proof.
  intros He Hs w t Hg. eapply does_tail; [by apply does_host|done|]. intros a es w1 t1 H1 ->%Hs.
  eexists. by split; [after_all|].
Qed.

Definition candidates : list (string * nat * (list event -> Prop)) :=
  [("control (nothing)", 2000%nat, nothing); ("clock_gettime MONOTONIC", 2000%nat, one (EvClock true));
   ("clock_gettime REALTIME", 2000%nat, one (EvClock false)); ("pthread_mutex lock+unlock", 2000%nat, lock_pair);
   ("sceKernelUsleep(1)", 2000%nat, one (EvUsleep 1)); ("cond_timedwait EXPIRED", 2000%nat, expired_wait);
   ("malloc+free 96 KiB", 2000%nat, block_pair); ("mmap+munmap 64 KiB", 500%nat, mapping_pair)]%string.

Definition measured_as '((what, n, Φ) : string * nat * (list event -> Prop)) (es : list event) : Prop := measured what n Φ es.

(** The traffic counters, and the last two lines. *)
Definition sayings (c : list Z) : list event := [EvMmapCounts c; EvLog (ProbeMmap c); EvLog ProbeDone].

Definition measured_all (ms : list (string * nat * (list event -> Prop))) (es : list event) : Prop :=
  exists ess c, Forall2 measured_as ms ess /\ es = concat ess ++ sayings c.

(** Nothing but the questions when there is no logger or the knob is unset,
    empty or starts with 0; otherwise one measurement of each candidate, or a
    line that says there is nothing to measure with. *)
Definition probe_spec (es : list event) : Prop :=
  es = [EvLogEnabled false] \/
  exists e rest, es = EvLogEnabled true :: EvEnv "ORBIS_INTERNAL_MEM_PROBE" e :: rest /\
    match e with
    | Some (x :: _) =>
        (x = 48 /\ rest = []) \/
        (x <> 48 /\
         (rest = [EvResolved false; EvLog ProbeUnresolved] \/
          exists free es0 es1, reading free es0 /\ measured_all candidates es1 /\
            rest = EvResolved true :: es0 ++ EvLog (ProbeStart free 2000) :: es1))
    | _ => rest = []
    end.

Lemma does_probe_end :
  does (bind (let* counts := do answer MmapCounts in do answer (Say (ProbeMmap counts)))%prog
             (fun _ => do answer (Say ProbeDone)))
    (fun _ es _ _ => measured_all [] es).
Proof.
  intros w t Hg.
  eapply (does_bind _ _ (fun _ es _ _ => exists c, es = [EvMmapCounts c; EvLog (ProbeMmap c)])); [|done|].
  { intros w1 t1 Hg1. run (does_host MmapCounts). intros c es w2 t2 H2 ->.
    run_tail (does_host (Say (ProbeMmap c))). intros [] es w3 t3 H3 ->. eexists. split; [after_all|]. by exists c. }
  intros [] es w1 t1 H1 (c & ->). run_tail (does_host (Say ProbeDone)). intros [] es w2 t2 H2 ->.
  eexists. split; [after_all|]. exists [], c. by split; [constructor|].
Qed.

Lemma does_measure_then what n body Φ ms (rest : prog answer unit) :
  does body (fun _ es _ _ => Φ es) ->
  does rest (fun _ es _ _ => measured_all ms es) ->
  does (bind (measureN what body n) (fun _ => rest)) (fun _ es _ _ => measured_all ((what, n, Φ) :: ms) es).
Proof.
  intros Hb Hr w t Hg. run does_measureN; [done|]. intros [] es w1 t1 H1 Hm.
  eapply does_tail; [exact Hr|by eapply after_good|]. intros [] es2 w2 t2 H2 (ess & c & Hms & ->).
  eexists. split; [after_all|]. exists (es :: ess), c. split; [by constructor|]. simpl. by rewrite <- app_assoc.
Qed.

Lemma does_probe : does orbis_internal_memory_probe (fun _ es _ _ => probe_spec es).
Proof.
  apply (does_ends _ (fun _ es _ => probe_spec es)). intros w t Hg. unfold orbis_internal_memory_probe, internalMemoryProbe.
  run (does_host LogEnabled). intros b es w1 t1 H1 Hes. simpl in Hes. subst es. destruct b; cbn [negb].
  2: { apply does_ret; [by eapply after_good|]. intros w2 H2. eexists. split; [after_all|]. by left. }
  run (does_host (EnvGet _)). intros e es w2 t2 H2 Hes. simpl in Hes. subst es.
  assert (forall w3 t3, after w2 t2 w3 t3 [] -> match e with None | Some [] => True | Some (x :: _) => x = 48 end ->
    ends w t (fun _ es _ => probe_spec es) tt w3 t3) as Hno.
  { intros w3 t3 H3 He. eexists. split; [after_all|]. right. eexists e, []. split; [done|].
    destruct e as [[|x e]|]; auto. }
  destruct e as [[|x e]|]; [apply does_ret; [by eapply after_good|auto]..| |apply does_ret; [by eapply after_good|auto]].
  destruct (x =? 48) eqn:Hx; [apply does_ret; [by eapply after_good|]; intros w3 H3; apply Hno; [done|lia]|].
  clear Hno. eapply (does_tail _ (fun _ rest _ _ => rest = [EvResolved false; EvLog ProbeUnresolved] \/
          exists free es0 es1, reading free es0 /\ measured_all candidates es1 /\
            rest = EvResolved true :: es0 ++ EvLog (ProbeStart free 2000) :: es1)); [|by eapply after_good|].
  2: { intros [] rest w3 t3 H3 Hrest. eexists. split; [after_all|]. right. eexists _, rest. split; [done|]. right.
       split; [lia|done]. }
  clear w t Hg w1 t1 H1 w2 t2 H2. intros w t Hg.
  run (does_host InternalResolved). intros there es w1 t1 H1 ->. destruct there; cbn [negb].
  2: { run_tail (does_host (Say ProbeUnresolved)). intros [] es w2 t2 H2 ->. eexists. split; [after_all|]. by left. }
  run does_internalFree. intros free es0 w2 t2 H2 (R0 & _).
  run (does_host (Say _)). intros [] es3 w3 t3 H3 ->.
  eapply does_tail; [|by eapply after_good|].
  { eapply (does_measure_then "control (nothing)"); [apply does_bodyNothing|].
    eapply does_measure_then; [apply (does_one _ (EvClock true)); done|].
    eapply does_measure_then; [apply (does_one _ (EvClock false)); done|].
    eapply does_measure_then; [apply does_bodyMutexLock|].
    eapply does_measure_then; [apply (does_one _ (EvUsleep 1)); done|].
    eapply does_measure_then; [apply does_bodyCondTimedwaitExpired|].
    eapply does_measure_then; [apply does_bodyMallocLarge|]. eapply does_measure_then; [apply does_bodyMmapPair|].
    apply does_probe_end. }
  intros [] es4 w4 t4 H4 Hm. eexists. split; [after_all|]. right. exists free, es0, es4. split; [done|]. split; [exact Hm|].
  simpl. by rewrite <- app_assoc.
Qed.
