(* ===== verification/MemProps.v ===== *)
(** The properties of [MemPools] over runs: a thread that is alone makes any
    calls, baselines among them; then any number of threads make any calls but
    that, in any interleaving; the host answers anything. *)
From stdpp Require Import prelude list strings relations sorting.
From S2P Require Import Prelude Effects MemPools MemLogic MemRun.
Open Scope Z_scope.
Import MemPools.

(** ** Calls *)

Definition log_of (t : local) : list event := past t ++ events t.

(** The query and its stores, the census and the probes. *)
Definition baseline_spec (w : shared) (es : list event) : Prop :=
  exists rc v k i j es1 es2, census_spec w "boot" es1 /\ probe_spec es2 /\
    es = EvFlex rc v :: EvStore flexQueryErr k rc ::
         (if rc =? 0 then [EvStore flexBoot i v; EvStore flexLow j v] else []) ++
         es1 ++ EvStackProbe :: EvTimerProbe :: es2.

(** What a finished call of a thread did. *)
Definition call_spec (w : shared) (c : call) (t : local) (r : outcome_new) : Prop :=
  match c with
  | New throws a n => new_spec w throws a n (events t) r
  | Census where_ => census_spec w where_ (events t)
  | CensusOfThreads where_ => threads_spec where_ (events t)
  | Probe => probe_spec (events t)
  | Baseline => baseline_spec w (events t)
  end.
Definition did (w : shared) (d : call * local * outcome_new) : Prop := let '(c, t, r) := d in call_spec w c t r.

Lemma did_ext w w1 d : ext w w1 -> Inv w1 -> did w d -> did w1 d.
Proof.
  intros He _. destruct d as [[[throws a n|where_|where_| |] t] r]; simpl; try done.
  - by apply new_spec_ext.
  - by apply census_spec_ext.
  - intros (rc & v & k & i & j & es1 & es2 & H & H2). exists rc, v, k, i, j, es1, es2.
    split; [by eapply census_spec_ext|done].
Qed.

Definition resting (w : shared) (t : local) : Prop := views w t /\ settled w (log_of t).

Lemma resting_ext w w1 t : ext w w1 -> Inv w1 -> resting w t -> resting w1 t.
Proof. intros He _ [Hv Hs]. split; [by eapply views_ext|by eapply settled_ext]. Qed.

Lemma views_begin w t : views w t -> views w (begin t).
Proof. intros [V1 V2 V3]. by split. Qed.

Lemma rests w t w1 t1 es : resting w t -> after w (begin t) w1 t1 es -> resting w1 t1 /\ events t1 = es.
Proof.
  intros [Hv Hs] [Hw Hes]. assert (events t1 = es) as He by apply Hw. split; [|done]. split; [apply Hw|].
  unfold log_of. rewrite He, (went_past _ _ _ _ _ Hw). apply settled_app; [|done]. by eapply settled_ext, Hs; apply Hw.
Qed.

Lemma body_does c : ordinary c = true ->
  does (body c) (fun r es w _ => forall t, events t = es -> call_spec w c t r).
Proof.
  intros Hc.
  assert (forall (p : prog answer unit) (Ψ : list event -> shared -> Prop),
    (forall es w w1, ext w w1 -> Ψ es w -> Ψ es w1) -> does p (fun _ es w _ => Ψ es w) ->
    does (bind p (fun _ => Ret (Returned 0))) (fun (_ : outcome_new) es w _ => Ψ es w)) as Hunit.
  { intros p Ψ Hext Hp w t Hg. eapply does_bind; [exact Hp|done|]. intros [] es w1 t1 H1 He.
    apply does_ret; [by eapply after_good|]. intros w2 H2. eexists. split; [after_all|]. rewrite app_nil_r.
    eapply Hext; [|exact He]. ext_all. }
  assert (forall (Ψ : outcome_new -> list event -> shared -> Prop) p, does p (fun r es w _ => Ψ r es w) ->
    (forall r t w, Ψ r (events t) w -> call_spec w c t r) ->
    does p (fun r es w _ => forall t, events t = es -> call_spec w c t r)) as Hspec.
  { intros Ψ p Hp Himp w t Hg. eapply does_tail; [exact Hp|done|]. intros r es w1 t1 H1 Hr. exists es. split; [done|].
    intros t2 <-. by apply Himp. }
  destruct c as [throws a n|where_|where_| |]; cbn [body]; [..|done].
  - by apply (Hspec (fun r es w => new_spec w throws a n es r) _ (does_operator_new throws a n)).
  - apply (Hspec (fun _ es w => census_spec w where_ es)); [|done].
    apply (Hunit _ (fun es w => census_spec w where_ es)); [|apply does_report]. intros es w w1. apply census_spec_ext.
  - by apply (Hspec (fun _ es _ => threads_spec where_ es) _ (Hunit _ (fun es _ => threads_spec where_ es) ltac:(done) (does_memCensusThreads where_))).
  - by apply (Hspec (fun _ es _ => probe_spec es) _ (Hunit _ (fun es _ => probe_spec es) ltac:(done) does_probe)).
Qed.

Lemma calls_keep c w t : ordinary c = true ->
  Inv w -> resting w t -> wp_mem (body c) w (begin t) (fun r w t => resting w t /\ did w (c, t, r)).
Proof.
  intros Hc Hi Hr. eapply does_tail; [by apply body_does|split; [done|apply views_begin, Hr]|]. intros r es w1 t1 H1 Hs.
  apply rests in H1 as [H2 He]; [|done]. split; [done|]. by apply Hs.
Qed.

(** ** A thread that is alone *)

(** An effect adds the same events to the trace and to the thread's. *)
Definition grew (w : shared) (t : local) (w2 : shared) (t2 : local) : Prop :=
  exists es, trace w2 = trace w ++ es /\ past t2 = past t /\ events t2 = events t ++ es.

Lemma grew_emit w t ev : grew w t (emit w t ev).1 (emit w t ev).2.
Proof. by exists [ev]. Qed.
Lemma grew_same w t w2 t2 : trace w2 = trace w -> past t2 = past t -> events t2 = events t -> grew w t w2 t2.
Proof. intros H1 H2 H3. exists []. by rewrite !app_nil_r. Qed.

Lemma act_grew e c w t r w2 t2 : act e c w t = Some (r, w2, t2) -> grew w t w2 t2.
Proof.
  intros H.
  assert (forall l i x t3, read_at w t l i = Some (x, t3) -> grew w t w t3) as Hread.
  { intros l i x t3 Hr. unfold read_at in Hr. case_bool_decide; [|done].
    destruct (order_of w l !! i); simpl in Hr; [|done]. injection Hr as _ <-. by apply grew_same. }
  destruct e; simpl in H; repeat (case_match; try done); simplify_eq;
    try (apply grew_emit || by apply grew_same);
    repeat match goal with
    | H : (_ ≫= _) = Some _ |- _ => apply bind_Some in H as (? & ? & H)
    end; repeat (case_match; try done); simplify_eq; first [by eapply Hread | by eexists [_]].
Qed.


(** The world as it was at an earlier time. *)
Record grows (w w1 : shared) : Prop := {
  grows_order l : order_of w l `prefix_of` order_of w1 l;
  grows_trace : trace w `prefix_of` trace w1 }.

#[export] Instance grows_preorder : PreOrder grows.
Proof.
  split; [by split|]. intros w1 w2 w3 [H1 T1] [H2 T2]. split; [intros l; etrans; [apply H1|apply H2]|by etrans].
Qed.

Lemma ext_grows w w1 : ext w w1 -> grows w w1.
Proof. intros He. split; [apply He|by apply ext_prefix]. Qed.

Abbreviation wp_alone := (wp act (fun _ : shared => True) eq grows).

(** The trace is its own. *)
Record solo (w : shared) (t : local) : Prop := {
  solo_inv : Inv w;
  solo_views : views w t;
  solo_trace : trace w = log_of t }.

(** ... and the mark is no more than any of [marks]. *)
Definition alone (w : shared) (t : local) : Prop := solo w t /\ forall v, v ∈ marks (trace w) -> low_le w v.

(** What holds whatever others do holds when there are none. *)
Lemma wp_mem_alone {A : Set} (p : prog answer A) w t Q :
  Inv w -> trace w = log_of t -> wp_mem p w t Q ->
  wp_alone p w t (fun a w1 t1 => Inv w1 /\ trace w1 = log_of t1 /\ Q a w1 t1).
Proof.
  revert w t Q. induction p as [A a|A|A e k IH|A S B body_ IHb s k IH]; intros w t Q Hi Ht; simpl.
  - intros H w1 <- _. split; [done|]. split; [done|]. by apply H.
  - done.
  - intros H w1 <- _ c r w2 t2 Hact. destruct (H w (reflexivity w) Hi c r w2 t2 Hact) as (Hi2 & He & Hk).
    split; [done|]. split; [by apply ext_grows|]. apply IH; [done| |done].
    apply act_grew in Hact as (es & -> & Hp & Hev). unfold log_of in *. by rewrite Hp, Hev, Ht, app_assoc.
  - intros (I & Hst & HI & Hb). exists (fun s w t => Inv w /\ trace w = log_of t /\ I s w t).
    split; [by intros s' w' w1 t' <- _|]. split; [done|]. intros s' w' t' _ (Hi' & Ht' & HI').
    eapply wp_mono; [|by apply (IHb s' w' t' _ Hi' Ht' (Hb s' w' t' Hi' HI'))].
    intros [s2|b] w2 t2 _ (Hi2 & Ht2 & H2); [done|]. by apply IH.
Qed.

Lemma alone_does {A : Set} (p : prog answer A) Φ w t :
  does p Φ -> alone w t ->
  wp_alone p w t (fun a w1 t1 => alone w1 t1 /\ exists es, after w t w1 t1 es /\ Φ a es w1 t1).
Proof.
  intros Hp [[Hi Hv Ht] Hm]. eapply wp_mono; [|apply wp_mem_alone; [done|done|by apply Hp]].
  intros a w1 t1 _ (Hi1 & Ht1 & es & H1 & Hphi). split; [|by exists es].
  split; [split; [done|apply H1|done]|]. destruct H1 as [H1 Hs]. pose proof (went_ext _ _ _ _ _ H1) as He.
  destruct (ext_trace _ _ He) as (es' & Htr & Hc). assert (es' = es) as ->.
  { apply (app_inv_head (trace w)). rewrite <- Htr, Ht1, Ht. unfold log_of.
    by rewrite (went_past _ _ _ _ _ H1), (went_events _ _ _ _ _ H1), app_assoc. }
  intros v. rewrite Htr, marks_calm by done. intros [Hv'|Hv']%elem_of_app; [by eapply low_le_ext, Hm|].
  apply Hs. apply list_elem_of_omap in Hv' as (ev & Hev & Hv'). destruct ev; try done.
  destruct rc; try done. by injection Hv' as ->.
Qed.

Lemma alone_do e w t (Q : answer e -> shared -> local -> Prop) :
  (forall c r w2 t2, act e c w t = Some (r, w2, t2) -> grows w w2 /\ Q r w2 t2) -> wp_alone (do answer e) w t Q.
Proof.
  intros H. apply wp_do. intros w1 <- _ c r w2 t2 Hact. destruct (H c r w2 t2 Hact) as [Hg HQ].
  split; [done|]. split; [done|]. by intros w3 <- _.
Qed.

Lemma solo_emit w t ev : solo w t -> adds [ev] = [] -> no_baseline ev -> solo (emit w t ev).1 (emit w t ev).2.
Proof.
  intros [Hi Hv Ht] Ha Hb. split; [by apply Inv_emit|by apply views_emit|].
  simpl. unfold log_of in *. simpl. by rewrite Ht, app_assoc.
Qed.

(** The figure the process started with is recorded. *)
Lemma solo_boot w t v : solo w t -> 0 <= v < 2 ^ 63 ->
  let w1 := (write_to w t flexBoot v).1 in let t1 := (write_to w t flexBoot v).2 in
  let ev := EvStore flexBoot (length (order_of w flexBoot)) v in
  solo (emit w1 t1 ev).1 (emit w1 t1 ev).2.
Proof.
  intros [[N B L F Bt S R C A] [V1 V2 V3] Ht] Hv w1 t1 ev0.
  pose (k := length (order_of w flexBoot)). assert (exists ev, ev = EvStore flexBoot k v) as [ev Hev] by eauto.
  change ev0 with (EvStore flexBoot k v). rewrite <- Hev. subst w1 t1 ev0.
  assert (base (trace w ++ [ev]) = base (trace w)) as Hbase by (unfold base, stored; by rewrite foldl_snoc, Hev).
  assert (baseline (trace w ++ [ev]) = v) as Hline by (unfold baseline, stored; by rewrite foldl_snoc, Hev).
  assert (marks (trace w ++ [ev]) = marks (trace w)) as Hmarks by (unfold marks; by rewrite foldl_snoc, Hev).
  split; [split|split|]; simpl; rewrite ?Hbase, ?Hline, ?Hmarks; try done.
  - intros l. apply set_loc_ne, N.
  - unfold set_loc. simpl. by rewrite last_snoc.
  - intros i x Hi Hx. destruct (R i x Hi Hx) as (u & Hu). exists u. apply elem_of_app. by left.
  - unfold adds in *. rewrite omap_app, A, Hev. apply app_nil_r.
  - intros l. specialize (V1 l). unfold set_loc. case_decide; [subst; rewrite length_app; simpl; lia|done].
  - unfold set_loc. simpl. rewrite length_app. simpl. lia.
  - unfold log_of in *. simpl. by rewrite Ht, app_assoc.
Qed.

(** The mark is stored: from here on it counts anew. *)
Lemma solo_low w t v : solo w t -> 0 <= v < 2 ^ 63 ->
  let w1 := (write_to w t flexLow v).1 in let t1 := (write_to w t flexLow v).2 in
  let ev := EvStore flexLow (length (order_of w flexLow)) v in
  alone (emit w1 t1 ev).1 (emit w1 t1 ev).2.
Proof.
  intros [[N B L F Bt S R C A] [V1 V2 V3] Ht] Hv w1 t1 ev0. set (o := order_of w flexLow) in *.
  assert (exists ev, ev = EvStore flexLow (length o) v) as [ev Hev] by eauto.
  change ev0 with (EvStore flexLow (length o) v). rewrite <- Hev. subst w1 t1 ev0.
  assert (base (trace w ++ [ev]) = length o) as Hbase by (unfold base, stored; by rewrite foldl_snoc, Hev).
  assert (baseline (trace w ++ [ev]) = baseline (trace w)) as Hline by (unfold baseline, stored; by rewrite foldl_snoc, Hev).
  assert (marks (trace w ++ [ev]) = [v]) as Hmarks by (unfold marks; by rewrite foldl_snoc, Hev).
  assert (forall i x, (length o <= i)%nat -> (o ++ [v]) !! i = Some x -> i = length o /\ x = v) as Hlast.
  { intros i x Hi Hx. pose proof (lookup_lt_Some _ _ _ Hx) as Hlt. rewrite length_app in Hlt. simpl in Hlt.
    assert (i = length o) as -> by lia. rewrite list_lookup_middle in Hx by done. by injection Hx as ->. }
  split; [split; [split|split|]|]; simpl; rewrite ?Hbase, ?Hline, ?Hmarks; unfold set_loc; simpl; fold o; try done.
  - intros l. case_decide; [by destruct o|apply N].
  - rewrite length_app. simpl. lia.
  - intros i j x y Hi Hx Hy Hij. apply Hlast in Hx as [-> _]; [|done]. apply Hlast in Hy as [-> _]; lia.
  - intros i x Hi Hx. apply Hlast in Hx as [_ ->]; [by left|done].
  - intros i x Hi Hx. destruct (R i x Hi Hx) as (u & Hu). exists u. apply elem_of_app. by left.
  - unfold adds in *. rewrite omap_app, A, Hev. apply app_nil_r.
  - intros l. specialize (V1 l). case_decide; [subst; rewrite length_app; simpl; lia|done].
  - unfold log_of in *. simpl. by rewrite Ht, app_assoc.
  - intros x ->%list_elem_of_singleton. exists (length o), v. simpl. rewrite Hbase. split; [done|]. split; [|done].
    unfold set_loc. simpl. fold o. by apply list_lookup_middle.
Qed.

Lemma grows_store w t l v ev : grows w (emit (write_to w t l v).1 (write_to w t l v).2 ev).1.
Proof.
  split; simpl; [|by apply prefix_app_r]. intros l'. unfold set_loc. case_decide; [subst; by apply prefix_app_r|done].
Qed.

(** The stores of a baseline whose query answered [rc], [v]. *)
Lemma baseline_stores rc v w t : solo w t -> 0 <= v < 2 ^ 63 -> (rc <> 0 -> alone w t) ->
  wp_alone (if rc =? 0 then bind (do answer (Store flexBoot v)) (fun _ => do answer (Store flexLow v)) else Ret tt)%prog w t
    (fun _ w1 t1 => alone w1 t1 /\ past t1 = past t /\ exists i j,
       events t1 = events t ++ (if rc =? 0 then [EvStore flexBoot i v; EvStore flexLow j v] else [])).
Proof.
  intros Hs Hv Hrc. destruct (rc =? 0) eqn:E.
  2: { intros w1 <- _. split; [apply Hrc; lia|]. split; [done|]. exists O, O. by rewrite app_nil_r. }
  apply wp_bind; [apply _|done|]. apply alone_do. intros c [] w1 t1 [= <- <-].
  split; [exact (grows_store w t flexBoot v _)|]. pose proof (solo_boot w t v Hs Hv) as H1. simpl in H1.
  apply alone_do. intros c2 [] w2 t2 [= <- <-].
  split; [match goal with |- grows ?w1 _ => exact (grows_store w1 t flexLow v _) end|].
  split; [exact (solo_low _ _ v H1 Hv)|]. split; [done|]. simpl. do 2 eexists. by rewrite <- app_assoc.
Qed.

Definition after_stores : prog answer unit :=
  (report "boot" ;;; do answer ThreadStackProbe ;;; do answer TimerProbe ;;; internalMemoryProbe)%prog.

Lemma does_after_stores : does after_stores (fun _ es w _ => exists es1 es2,
  es = es1 ++ EvStackProbe :: EvTimerProbe :: es2 /\ census_spec w "boot" es1 /\ probe_spec es2).
Proof.
  apply (does_ends _ (fun _ es w => exists es1 es2,
    es = es1 ++ EvStackProbe :: EvTimerProbe :: es2 /\ census_spec w "boot" es1 /\ probe_spec es2)).
  intros w t Hg. unfold after_stores.
  run does_report. intros [] es1 w1 t1 H1 Hc.
  run (does_host ThreadStackProbe). intros [] es w2 t2 H2 ->.
  run (does_host TimerProbe). intros [] es w3 t3 H3 ->.
  run_tail does_probe. intros [] es2 w4 t4 H4 Hp.
  assert (ext w1 w4) as He by ext_all.
  eexists. split; [after_all|]. exists es1, es2. split; [by rewrite <- !app_assoc|]. split; [by eapply census_spec_ext|done].
Qed.

Lemma baseline_alone w t : alone w t -> events t = [] ->
  wp_alone memCensusBaseline w t (fun _ w1 t1 => alone w1 t1 /\ baseline_spec w1 (events t1)).
Proof.
  intros [Hs Hm] Het. unfold memCensusBaseline. apply wp_bind; [apply _|done|]. apply alone_do.
  intros c [rc v] w1 t1 Hact. simpl in Hact.
  destruct (ch_nums c) as [|rc' [|v' [|]]]; try done.
  destruct (s32_ok rc' && size_ok v') eqn:Hok; [|done]. injection Hact as <- <- <- <-.
  apply andb_prop in Hok as [_ Hv%size_ok_iff]. split; [apply ext_grows, (ext_emit w t (EvFlex rc' v')); done|].
  pose proof (solo_emit w t (EvFlex rc' v') Hs eq_refl Logic.I) as H1.
  set (w1 := (emit w t (EvFlex rc' v')).1) in *. set (t1 := (emit w t (EvFlex rc' v')).2) in *.
  apply wp_bind; [apply _|done|]. apply alone_do. intros c2 [] w2 t2 [= <- <-].
  assert (EvFlex rc' v' ∈ trace w1) as Hin by (apply elem_of_app; right; by left).
  destruct (after_store w1 t1 flexQueryErr rc') as [Ha _]; [by destruct H1|right; eauto|].
  match type of Ha with after _ _ ?a ?b _ => set (w2 := a) in *; set (t2 := b) in * end.
  pose proof (went_ext _ _ _ _ _ (proj1 Ha)) as He2. split; [by apply ext_grows|].
  assert (solo w2 t2) as H2.
  { split; [apply Ha|apply Ha|]. set (ev := EvStore flexQueryErr (length (order_of w1 flexQueryErr)) rc').
    change (trace w2) with (trace w1 ++ [ev]). change (log_of t2) with (past t1 ++ events t1 ++ [ev]).
    by rewrite app_assoc, (solo_trace _ _ H1). }
  apply wp_bind; [apply _|done|]. eapply wp_mono; [|apply baseline_stores; [exact H2|exact Hv|]].
  2: { intros Hrc. split; [done|]. intros x Hx. change (x ∈ marks (trace w2)) in Hx. change (low_le w2 x).
       assert (ext w w2) as He by (etrans; [by apply (ext_emit w t (EvFlex rc' v'))|done]).
       eapply low_le_ext, Hm; [done|]. destruct (ext_trace _ _ He) as (es & Htr & Hc). rewrite Htr, marks_calm in Hx by done.
       assert (es = [EvFlex rc' v'; EvStore flexQueryErr (length (order_of w1 flexQueryErr)) rc']) as ->.
       { apply (app_inv_head (trace w)). rewrite <- Htr.
         exact (eq_sym (app_assoc (trace w) [_] [_])). }
       apply elem_of_app in Hx as [Hx|Hx]; [done|]. destruct rc'; [done|by apply not_elem_of_nil in Hx..]. }
  intros [] w3 t3 _ (Ha3 & Hp3 & i & j & He3). eapply wp_mono; [|apply (alone_does after_stores _ w3 t3 does_after_stores Ha3)].
  intros [] w4 t4 _ (Ha4 & es & H4 & es1 & es2 & -> & Hc & Hp). split; [done|].
  exists rc', v', (length (order_of w1 flexQueryErr)), i, j, es1, es2. split; [done|]. split; [done|].
  rewrite (went_events _ _ _ _ _ (proj1 H4)), He3. unfold t2, t1. simpl. by rewrite Het.
Qed.

(** A finished call of a thread that is alone: what it did, in the world as it
    was when the trace was the thread's up to the end of the call. *)
Definition did_alone (w : shared) (d : call * local * outcome_new) : Prop :=
  exists w1, grows w1 w /\ trace w1 = log_of d.1.2 /\ did w1 d.

Lemma did_alone_grows w w1 d : grows w w1 -> did_alone w d -> did_alone w1 d.
Proof. intros Hg (w0 & H1 & H2). exists w0. split; [by etrans|done]. Qed.

Lemma alone_begin w t : alone w t -> alone w (begin t).
Proof.
  intros [[Hi Hv Ht] Hm]. split; [|done]. split; [done|by apply views_begin|].
  unfold log_of in *. simpl. by rewrite app_nil_r.
Qed.

Lemma calls_alone c w t : boot c = true -> alone w t ->
  wp_alone (body c) w (begin t) (fun r w t => alone w t /\ did_alone w (c, t, r)).
Proof.
  intros _ Ha%alone_begin. destruct (ordinary c) eqn:Hc.
  - eapply wp_mono; [|apply (alone_does _ _ _ _ (body_does c Hc) Ha)].
    intros r w1 t1 _ (Ha1 & es & H1 & Hs). split; [done|]. exists w1. split; [done|]. split; [apply Ha1|].
    apply Hs. by rewrite (went_events _ _ _ _ _ (proj1 H1)).
  - destruct c; try done. cbn [body]. apply wp_bind; [apply _|done|]. eapply wp_mono; [|by apply baseline_alone].
    intros [] w1 t1 _ [Ha1 Hb]. intros w2 <- _. split; [done|]. exists w1. split; [done|]. split; [apply Ha1|done].
Qed.

(** ** Runs *)

Abbreviation boot_step := (step act body begin boot).
Abbreviation mem_step := (step act body begin ordinary).
Abbreviation mem_thread := (@thread eff answer local call outcome_new).
Abbreviation mem_config := (@config eff answer shared local call outcome_new).

(** The first thread has made the calls it makes while it is alone. *)
Definition booted (w : shared) (th : mem_thread) : Prop :=
  rtc boot_step (initial, [parked fresh]) (w, [th]) /\ th_running th = None.

(** [n] threads start from there. *)
Definition start (n : nat) (w : shared) (th : mem_thread) : mem_config := (w, replicate n (parked (spawned (th_local th)))).

Abbreviation mem_ok := (@config_ok eff answer shared local choice call outcome_new act Inv ext resting did).

Lemma alone_initial : alone initial fresh.
Proof.
  split; [split; [split| |]|]; simpl; try done.
  - exact Nat.lt_0_1.
  - intros [|i] [|j] x y; simpl; try done; lia.
  - intros [|i] x _; simpl; [|done]. intros [= <-]. by left.
  - intros [|i] x; simpl; [lia|done].
  - intros [|i] x [= <-]. done.
  - split; simpl; [lia|exact (Nat.le_0_l O)|done].
  - intros v ->%list_elem_of_singleton. by exists O, (2 ^ 64 - 1).
Qed.

Lemma booted_alone w th : booted w th -> alone w (th_local th) /\ Forall (did_alone w) (th_done th).
Proof.
  intros [Hr Hn]. apply (alone_ok_run act body begin boot alone grows did_alone did_alone_grows calls_alone) in Hr.
  - destruct Hr as (w' & th' & [= <- <-] & Hd & Hi). by rewrite Hn in Hi.
  - exists initial, (parked fresh). split; [done|]. split; [constructor|]. apply alone_initial.
Qed.

Lemma start_mem_ok n w th : booted w th -> mem_ok (start n w th).
Proof.
  intros [[Hs _] _]%booted_alone. split; [apply Hs|]. apply Forall_replicate. split; [constructor|].
  split; [|apply settled_nil]. destruct (solo_views _ _ Hs) as [V1 V2 V3]. by split.
Qed.

Lemma reachable_ok n w0 th0 cf : booted w0 th0 -> rtc mem_step (start n w0 th0) cf -> mem_ok cf /\ ext w0 cf.1.
Proof.
  intros Hb H. apply (config_ok_run act body begin ordinary Inv ext resting did resting_ext did_ext calls_keep _ _ (start_mem_ok n _ _ Hb) H).
Qed.

(** ** The trace is what the threads did *)

Definition done_events (th : mem_thread) : list event := concat (map (fun '(_, t, _) => events t) (th_done th)).

Definition thread_log_ok (th : mem_thread) : Prop :=
  match th_running th with
  | None => log_of (th_local th) = done_events th
  | Some _ => past (th_local th) = done_events th
  end.

Definition logs_ok (tr0 : list event) (cf : mem_config) : Prop :=
  (exists rest, trace cf.1 = tr0 ++ rest /\ rest ≡ₚ concat (map (fun th => log_of (th_local th)) cf.2)) /\
  Forall thread_log_ok cf.2.

Lemma pstep_grew {A : Set} ch w t (p : prog answer A) w2 t2 p2 :
  pstep act ch w t p = Some (w2, t2, p2) -> grew w t w2 t2.
Proof.
  destruct p as [a| |e k|S B body_ s k]; simpl; [done|done|..].
  - intros H. destruct (act e ch w t) as [[[r w'] t']|] eqn:Ha; simpl in H; [|done].
    injection H as <- <- <-. by eapply act_grew.
  - intros [= <- <- <-]. by apply grew_same.
Qed.

Lemma concat_insert (ts : list mem_thread) i th th' es :
  ts !! i = Some th -> log_of (th_local th') ≡ₚ log_of (th_local th) ++ es ->
  concat (map (fun th => log_of (th_local th)) (<[i := th']> ts)) ≡ₚ
  concat (map (fun th => log_of (th_local th)) ts) ++ es.
Proof.
  revert i. induction ts as [|x ts IH]; intros [|i]; simpl; intros H He; try done.
  - injection H as ->. rewrite He. solve_Permutation.
  - rewrite (IH i) by done. by rewrite app_assoc.
Qed.

Lemma logs_ok_step allowed tr0 cf cf' : logs_ok tr0 cf -> step act body begin allowed cf cf' -> logs_ok tr0 cf'.
Proof.
  intros [(rest & Ht & Hrest) Hall] Hstep.
  assert (forall w ts (i : nat) th th' es, cf = (w, ts) -> ts !! i = Some th ->
    log_of (th_local th') = log_of (th_local th) ++ es ->
    rest ++ es ≡ₚ concat (map (fun th => log_of (th_local th)) (<[i := th']> ts))) as Hgrow.
  { intros w ts i th th' es -> Hth Hlog. simpl in Hrest. rewrite Hrest. symmetry.
    apply concat_insert with th; [done|by rewrite Hlog]. }
  destruct Hstep as [w ts i th c Hth Hr Ha|w ts i th c p ch w2 t2 p2 Hth Hr Hp|w ts i th c r Hth Hr]; simpl in *;
    pose proof (Forall_lookup_1 _ _ _ _ Hall Hth) as Hok; unfold thread_log_ok in Hok; rewrite Hr in Hok.
  - split; [|by apply Forall_insert]. exists rest. split; [done|]. rewrite <- (app_nil_r rest).
    eapply Hgrow; [done..|]. unfold log_of. by rewrite !app_nil_r.
  - apply pstep_grew in Hp as (es & Htr & Hpast & Hev). split.
    + exists (rest ++ es). split; [cbn [fst]; by rewrite Htr, Ht, app_assoc|]. eapply Hgrow; [done..|].
      unfold log_of. simpl. by rewrite Hpast, Hev, app_assoc.
    + apply Forall_insert; [done|]. unfold thread_log_ok. simpl. by rewrite Hpast.
  - split.
    + exists rest. split; [done|]. rewrite <- (app_nil_r rest). eapply Hgrow; [done..|]. by rewrite app_nil_r.
    + apply Forall_insert; [done|]. unfold thread_log_ok, done_events, log_of in *. simpl.
      rewrite map_app, concat_app, Hok. simpl. by rewrite app_nil_r.
Qed.

Lemma logs_ok_run allowed tr0 cf cf' : logs_ok tr0 cf -> rtc (step act body begin allowed) cf cf' -> logs_ok tr0 cf'.
Proof. intros H Hr. induction Hr; [done|]. eauto using logs_ok_step. Qed.

Definition quiescent (cf : mem_config) : Prop := Forall (fun th => th_running th = None) cf.2.

Definition finished (ts : list mem_thread) : list (call * local * outcome_new) := concat (map th_done ts).

Definition calls_events (ds : list (call * local * outcome_new)) : list event :=
  concat (map (fun '(_, t, _) => events t) ds).

Lemma done_events_finished ts : concat (map done_events ts) = calls_events (finished ts).
Proof.
  unfold calls_events, finished. induction ts as [|th ts IH]; [done|]. simpl. by rewrite map_app, concat_app, IH.
Qed.

(** When nobody is in a call the trace is what the calls did. *)
Lemma quiescent_trace tr0 cf : logs_ok tr0 cf -> quiescent cf ->
  exists rest, trace cf.1 = tr0 ++ rest /\ rest ≡ₚ calls_events (finished cf.2).
Proof.
  intros [(rest & Ht & Hrest) Hall] Hq. exists rest. split; [done|]. rewrite Hrest, <- done_events_finished.
  clear Ht Hrest. destruct cf as [w ts]. unfold quiescent in Hq. simpl in *.
  induction Hq as [|th ts2 Hr Hq IH]; [done|]. apply Forall_cons in Hall as [Hth Hall]. simpl.
  unfold thread_log_ok in Hth. rewrite Hr in Hth. rewrite Hth. by rewrite IH.
Qed.

Lemma start_logs n w th : logs_ok (trace w) (start n w th).
Proof.
  split.
  - exists []. split; [by rewrite app_nil_r|]. simpl. induction n as [|n IH]; simpl; [done|exact IH].
  - by apply Forall_replicate.
Qed.

Lemma booted_trace w th : booted w th -> trace w ≡ₚ calls_events (th_done th).
Proof.
  intros [Hr Hn]. apply (logs_ok_run boot []) in Hr.
  - destruct (quiescent_trace [] _ Hr) as (rest & Ht & Hrest); [by constructor|].
    simpl in Ht. rewrite Ht, Hrest. unfold finished. simpl. by rewrite app_nil_r.
  - split; [by exists []|]. by constructor.
Qed.

Lemma reachable_logs n w0 th0 cf : rtc mem_step (start n w0 th0) cf -> logs_ok (trace w0) cf.
Proof. intros H. eapply logs_ok_run; [apply start_logs|exact H]. Qed.

(** ** Every call *)

(** C22: Whatever the other threads do at the same time, a finished call did
    what it is to do, down to the numbers it printed.  An [operator new] made
    one request of the allocator, of at least one byte and for the aligned
    forms at least pointer alignment, and gives the pointer it got; a refused
    request is announced, after which the throwing forms throw and the others
    return null.  An announcement allocates nothing and prints four lines, the
    first eight times and never again.  A census prints two lines from queries
    that succeeded or says which failed; the code it prints is that of its own
    query or one that another stored since, the baseline is the one recorded,
    and the low-water mark is one since then, at most the availability beside
    it.  The census of the threads prints the answers of the thread layer and
    the products made of them.  The probe asks nothing of the host unless it is
    enabled and configured, runs every primitive exactly as often as it says
    between two readings, prints their difference, and gives back every block,
    mapping and lock where it got it.  A baseline records what its query
    answered and then does the census and the probes.  (Baselines and what was
    called before them: by a thread that is alone, in the world as it was when
    the call ended.) *)
Theorem mem_calls_correct n w0 th0 w ts :
  booted w0 th0 -> rtc mem_step (start n w0 th0) (w, ts) ->
  (forall d, d ∈ th_done th0 -> did_alone w d) /\
  (forall i th d, ts !! i = Some th -> d ∈ th_done th -> did w d).
Proof.
  intros Hb Hr. destruct (reachable_ok _ _ _ _ Hb Hr) as [[_ Hts] He]. split.
  - intros d Hd. destruct (booted_alone _ _ Hb) as [_ Hdone]. rewrite Forall_forall in Hdone.
    eapply did_alone_grows; [by apply ext_grows|by apply Hdone].
  - intros i th d Hth Hd. pose proof (Forall_lookup_1 _ _ _ _ Hts Hth) as [Hdone _].
    rewrite Forall_forall in Hdone. by apply Hdone.
Qed.

(** ** The low-water mark *)

Lemma last_is_least w low i x :
  Inv w -> last (order_of w flexLow) = Some low -> (base (trace w) <= i)%nat -> order_of w flexLow !! i = Some x -> low <= x.
Proof.
  intros Hi Hl Hb Hx. rewrite last_lookup in Hl.
  pose proof (lookup_lt_Some _ _ _ Hx). destruct (decide (i = pred (length (order_of w flexLow)))) as [->|].
  - rewrite Hl in Hx. injection Hx as ->. lia.
  - pose proof (inv_low w Hi i _ x low Hb Hx Hl ltac:(lia)). lia.
Qed.

(** Every answer since the last baseline is settled. *)
Lemma quiescent_settled n w0 th0 w ts v :
  booted w0 th0 -> rtc mem_step (start n w0 th0) (w, ts) -> quiescent (w, ts) -> v ∈ marks (trace w) -> low_le w v.
Proof.
  intros Hb Hr Hq Hv. destruct (reachable_ok _ _ _ _ Hb Hr) as [[_ Hts] He]. simpl in Hts, He.
  destruct (booted_alone _ _ Hb) as [[_ Hm] _]. destruct (ext_trace _ _ He) as (es & Htr & Hc).
  rewrite Htr, marks_calm in Hv by done. apply elem_of_app in Hv as [Hv|Hv]; [by eapply low_le_ext, Hm|].
  destruct (reachable_logs _ _ _ _ Hr) as [(rest & Ht & Hperm) _]. simpl in Ht, Hperm.
  assert (es = rest) as -> by (apply (app_inv_head (trace w0)); by rewrite <- Htr, <- Ht).
  apply list_elem_of_omap in Hv as (ev & Hev & Hv). assert (ev = EvFlex 0 v) as ->.
  { destruct ev; try done. destruct rc; try done. by injection Hv as ->. }
  rewrite Hperm in Hev. apply list_elem_of_In, in_concat in Hev as (log & Hlog & Hev).
  apply in_map_iff in Hlog as (th & <- & Hth). apply list_elem_of_In in Hth, Hev.
  unfold quiescent in Hq. simpl in Hq. rewrite Forall_forall in Hts, Hq.
  destruct (Hts th Hth) as [_ Hrest]. rewrite (Hq th Hth) in Hrest. by apply Hrest.
Qed.

(** C23: The low-water mark never rises but by a baseline, in any interleaving
    of any threads: from the last baseline on each value of the atomic is
    below the ones before it.  When nobody is in a call the mark is the least
    of [marks]: the figure of the last baseline, or the initial value when
    there was none, and the answers of all the successful queries since,
    although the loop that lowers it reads it relaxed and may see old values.
    (A baseline is recorded as its header says, before other threads run; a
    later one can raise the mark, as in [baseline_raises].) *)
Theorem mem_low_water n w0 th0 w ts :
  booted w0 th0 -> rtc mem_step (start n w0 th0) (w, ts) ->
  (forall i j x y, (base (trace w) <= i)%nat ->
     order_of w flexLow !! i = Some x -> order_of w flexLow !! j = Some y -> (i < j)%nat -> y < x) /\
  (quiescent (w, ts) -> exists low, last (order_of w flexLow) = Some low /\
     low ∈ marks (trace w) /\ (forall v, v ∈ marks (trace w) -> low <= v)).
Proof.
  intros Hb Hr. destruct (reachable_ok _ _ _ _ Hb Hr) as [[Hi _] _]. simpl in Hi. split; [apply Hi|]. intros Hq.
  destruct (last (order_of w flexLow)) as [low|] eqn:Hl.
  2: { apply last_None in Hl. by destruct (inv_ne w Hi flexLow). }
  exists low. split; [done|]. split.
  - rewrite last_lookup in Hl. eapply (inv_from w Hi), Hl. pose proof (inv_base w Hi). lia.
  - intros v Hv. destruct (quiescent_settled _ _ _ _ _ _ Hb Hr Hq Hv) as (i & x & Hx & Ho & Hle).
    pose proof (last_is_least w low i x Hi Hl Hx Ho). lia.
Qed.

(** ** Announcements *)

Definition refused (d : call * local * outcome_new) : bool :=
  match d with
  | (New _ _ _, _, Thrown) => true
  | (New _ _ _, _, Returned p) => p =? 0
  | _ => false
  end.

Definition is_want (l : line) : bool := match l with OomWant _ _ => true | _ => false end.

Definition wants (es : list event) : nat := length (filter is_want (lines es)).
Definition early (es : list event) : nat := length (filter (fun x => x < kMaxAnnounced) (adds es)).

(** Events that neither count nor announce. *)
Definition mute (es : list event) : Prop := adds es = [] /\ wants es = O.

Lemma mute_app es1 es2 : mute es1 -> mute es2 -> mute (es1 ++ es2).
Proof.
  intros [A1 W1] [A2 W2]. unfold mute, wants in *. by rewrite adds_app, lines_app, filter_app, length_app, A1, A2, W1, W2.
Qed.

Lemma mute_cons ev es : mute [ev] -> mute es -> mute (ev :: es).
Proof. apply (mute_app [ev]). Qed.

Lemma mute_concat ess : Forall mute ess -> mute (concat ess).
Proof. induction 1; [done|]. by apply mute_app. Qed.

Lemma reading_mute v es : reading v es -> mute es.
Proof. by intros [[-> _]|(out & ret & -> & _)]. Qed.

Lemma measured_mute what n Φ es : (forall es, Φ es -> mute es) -> measured what n Φ es -> mute es.
Proof.
  intros HΦ (before & es1 & ess & after_ & es2 & R1 & _ & Hess & R2 & ->).
  apply mute_app; [by eapply reading_mute|]. apply mute_app; [apply mute_concat; by eapply Forall_impl|].
  apply mute_app; [by eapply reading_mute|done].
Qed.

Lemma candidates_mute : Forall (fun '(_, Φ) => forall es, Φ es -> mute es) candidates.
Proof.
  unfold candidates. rewrite !Forall_cons. split_and!; try (by intros es ->); [..|by constructor]; intros es.
  - intros (p & ->). by destruct (p =? 0).
  - intros (p & ->). by destruct ((p =? MAP_FAILED) || (p =? 0)).
Qed.

Lemma measured_all_mute ms es :
  Forall (fun '(_, Φ) => forall es, Φ es -> mute es) ms -> measured_all ms es -> mute es.
Proof.
  intros Hms (ess & c & Hess & ->). apply mute_app; [|done]. apply mute_concat.
  induction Hess as [|[[what n] Φ] es ms ess Hm _ IH]; [done|]. apply Forall_cons in Hms as [HΦ Hms].
  constructor; [by eapply measured_mute|by apply IH].
Qed.

Lemma probe_mute es : probe_spec es -> mute es.
Proof.
  intros [->|(e & rest & -> & He)]; [done|]. do 2 (apply mute_cons; [done|]).
  destruct e as [[|x e]|]; [by subst|destruct He as [[_ ->]|[_ [->|(free & es0 & es1 & R & Hm & ->)]]]; [done..|]|by subst].
  apply mute_cons; [done|]. apply mute_app; [by eapply reading_mute|]. apply mute_cons; [done|].
  exact (measured_all_mute _ _ candidates_mute Hm).
Qed.

Lemma census_mute w where_ es : census_spec w where_ es -> mute es.
Proof.
  intros (rc & v & k & total & rc2 & size & total2 & flexRc & low & _ & _ & ->).
  by destruct (flexRc =? 0), (rc2 =? 0).
Qed.

Lemma announce_counts w kb want align es :
  announce_spec w kb want align es -> exists old, adds es = [old] /\ wants es = if decide (old < kMaxAnnounced) then 1%nat else O.
Proof.
  intros (old & [[H ->]|(H & rc & v & k & total & rc2 & size & flexRc & low & total2 & biggest & _ & _ & _ & ->)]);
    exists old; split; try done; case_decide; try lia; done.
Qed.

Lemma alloc_mute w n kb a noted p ev : noted_at w n kb noted -> alloc_event a n p ev -> mute (noted ++ [ev]).
Proof.
  intros (b & _ & _ & [->|[_ ->]]) He; (destruct a; [destruct He as (rc & q & -> & _)|simpl in He; subst]); done.
Qed.

(** A refused request, and nothing else, counts one announcement; it prints if
    the count was early. *)
Lemma call_counts w c t r :
  call_spec w c t r ->
  length (adds (events t)) = (if refused (c, t, r) then 1%nat else O) /\ wants (events t) = early (events t).
Proof.
  assert (mute (events t) -> refused (c, t, r) = false ->
    length (adds (events t)) = (if refused (c, t, r) then 1%nat else O) /\ wants (events t) = early (events t)) as Hmute.
  { intros [Ha Hw] ->. unfold early. by rewrite Ha, Hw. }
  destruct c as [throws a n|where_|where_| |]; simpl.
  - intros (p & ev & kb & noted & Hn & Hev & Hcase). pose proof (alloc_mute _ _ _ _ _ _ _ Hn Hev) as Hm.
    destruct Hcase as [(Hp & He & ->)|(-> & -> & es' & He & Hann)].
    + apply Hmute; [by rewrite He|]. simpl. lia.
    + destruct (announce_counts _ _ _ _ _ Hann) as (old & Hold & Hw). destruct Hm as [Ha Hl].
      assert (events t = (noted ++ [ev]) ++ es') as -> by (by rewrite <- app_assoc).
      unfold early, wants in *.
      rewrite adds_app, lines_app, !filter_app, !length_app, Ha, Hl, Hold, Hw. simpl.
      split; [by destruct throws|]. rewrite filter_cons, filter_nil. by case_decide.
  - intros H%census_mute. by apply Hmute.
  - intros (a & b & c & d & e & f & g & h & i & He). apply Hmute; [|done]. rewrite He. by destruct (65536 <? g).
  - intros H%probe_mute. by apply Hmute.
  - intros (rc & v & k & i & j & es1 & es2 & Hc%census_mute & Hp%probe_mute & He). apply Hmute; [|done]. rewrite He.
    do 2 (apply mute_cons; [done|]). apply mute_app; [by destruct (rc =? 0)|]. apply mute_app; [done|].
    by do 2 (apply mute_cons; [done|]).
Qed.

Lemma finished_counts ds :
  Forall (fun d => exists w, did w d) ds ->
  length (adds (calls_events ds)) = length (filter refused ds) /\ wants (calls_events ds) = early (calls_events ds).
Proof.
  induction 1 as [|[[c t] r] ds [w Hd] _ [IH1 IH2]]; [done|]. destruct (call_counts _ _ _ _ Hd) as [Ha Hw].
  assert (calls_events ((c, t, r) :: ds) = events t ++ calls_events ds) as -> by done.
  unfold early, wants in *. rewrite adds_app, lines_app, !filter_app, !length_app, Ha, Hw, IH1, IH2, filter_cons. split; [|done].
  by case_decide as Hd2; destruct (refused (c, t, r)).
Qed.

Lemma adds_numbers w k :
  Inv w -> length (adds (trace w)) = k -> Z.of_nat k <= 2 ^ 31 -> adds (trace w) = map Z.of_nat (seq 0 k).
Proof.
  intros Hi Hk Hmax. rewrite (inv_adds w Hi) in *. apply list_eq_same_length with k; [|done|].
  { by rewrite length_map, length_seq. }
  intros i x y Hlt Hx Hy. rewrite list_lookup_fmap, lookup_seq_lt in Hy by done. injection Hy as <-.
  assert (order_of w oomAnnounced !! i = Some x) as Hx'.
  { destruct (last (order_of w oomAnnounced)) as [l|] eqn:Hl; [|apply last_None in Hl; by rewrite Hl in Hx].
    rewrite (last_removelast _ _ Hl). by apply lookup_app_l_Some. }
  rewrite (inv_count w Hi _ _ Hx'). unfold s32. rewrite Z.mod_small; lia.
Qed.

Lemma early_numbers k : length (filter (fun x => x < kMaxAnnounced) (map Z.of_nat (seq 0 k))) = (k `min` 8)%nat.
Proof.
  induction k as [|k IH]; [done|]. rewrite seq_S, map_app, filter_app, length_app, IH. simpl.
  rewrite filter_cons, filter_nil. unfold kMaxAnnounced. case_decide; simpl; lia.
Qed.

Lemma calls_events_app ds1 ds2 : calls_events (ds1 ++ ds2) = calls_events ds1 ++ calls_events ds2.
Proof. unfold calls_events. by rewrite map_app, concat_app. Qed.

(** C25: When nobody is in a call, the requests that were announced number
    exactly the refused requests of all threads, or eight if there were more:
    the counter is one atomic increment, so no interleaving announces a ninth
    or skips one of the first eight.  (The counter is an [int]: the bound is
    for up to [2^31] refusals.) *)
Theorem mem_oom_announced n w0 th0 w ts :
  booted w0 th0 -> rtc mem_step (start n w0 th0) (w, ts) -> quiescent (w, ts) ->
  let k := length (filter refused (th_done th0 ++ finished ts)) in
  Z.of_nat k <= 2 ^ 31 -> wants (trace w) = (k `min` 8)%nat.
Proof.
  intros Hb Hr Hq k Hk. destruct (reachable_ok _ _ _ _ Hb Hr) as [[Hi Hts] _]. simpl in Hi, Hts.
  destruct (quiescent_trace _ _ (reachable_logs _ _ _ _ Hr) Hq) as (rest & Htr & Hrest). simpl in Htr, Hrest.
  assert (trace w ≡ₚ calls_events (th_done th0 ++ finished ts)) as Hperm.
  { rewrite Htr, calls_events_app. apply Permutation_app; [by apply booted_trace|done]. }
  assert (Forall (fun d => exists w, did w d) (th_done th0 ++ finished ts)) as Hall.
  { apply Forall_app. split.
    - eapply Forall_impl; [apply (booted_alone _ _ Hb)|]. intros d (w1 & _ & _ & Hd). by exists w1.
    - apply Forall_concat, Forall_map. eapply Forall_impl; [exact Hts|]. intros th [Hd _].
      eapply Forall_impl; [exact Hd|]. intros d. by exists w. }
  destruct (finished_counts _ Hall) as [Ha Hw].
  assert (adds (trace w) ≡ₚ adds (calls_events (th_done th0 ++ finished ts))) as Hadds by (unfold adds; by rewrite Hperm).
  assert (wants (trace w) = wants (calls_events (th_done th0 ++ finished ts))) as -> by (unfold wants, lines; by rewrite Hperm).
  rewrite Hw. unfold early. rewrite <- Hadds.
  rewrite (adds_numbers w k Hi); [apply early_numbers| |done]. by rewrite Hadds.
Qed.

(** ** A run: a census, a baseline; then a request is refused while another
    thread takes a census *)

Definition any : choice := mk_choice 0 true [].
Definition no : choice := mk_choice 0 false [].
Definition at_pos (k : nat) : choice := mk_choice k true [].
Definition host (l : list Z) : choice := mk_choice 0 true l.
Definition direct : list choice := [host [8000000000]; host [0; 7000000000]; host [8000000000]].

Definition early_boot : list (@order choice call) :=
  Begin 0 (Census "early")
  :: map (Run 0) ([host [0; 3000000]; any; at_pos 0; any; any; at_pos 1; at_pos 0; at_pos 1] ++ direct ++ [any; any; any])
  ++ Finish 0 :: Begin 0 Baseline
  :: map (Run 0) ([host [0; 6000000]; any; any; any; host [0; 6000000]; any; at_pos 2; any; at_pos 3; at_pos 1; at_pos 2]
                  ++ direct ++ [any; any; any; any; any; no])
  ++ [Finish 0].

Definition refused_request : list (@order choice call) :=
  Begin 0 (New true None 100)
  :: map (Run 0) [at_pos 0; any; host [0]; any; host [0; 5000000]; any; at_pos 2; any]
  ++ Begin 1 (Census "level")
  :: map (Run 1) [host [0; 4000000]; any; at_pos 2; any; any]
  ++ map (Run 0) [at_pos 3; any; at_pos 4; host [8000000000]; host [0; 7000000000]; any; at_pos 1; at_pos 3; any;
                  host [8000000000]; any; at_pos 1; any]
  ++ [Finish 0]
  ++ map (Run 1) ([at_pos 5; at_pos 1; at_pos 3] ++ direct ++ [any; any; any])
  ++ [Finish 1].

Definition boot_start : mem_config := (initial, [parked fresh]).
Definition ran (allowed : call -> bool) (os : list (@order choice call)) (cf : mem_config) : mem_config :=
  default cf (schedule act body begin allowed os cf).
Definition first_of (cf : mem_config) : mem_thread := default (parked fresh) (cf.2 !! O).

Definition boot_end : mem_config := ran boot early_boot boot_start.
Definition main_start : mem_config := start 2 boot_end.1 (first_of boot_end).
Definition main_end : mem_config := ran ordinary refused_request main_start.

Definition completes (allowed : call -> bool) (os : list (@order choice call)) (cf : mem_config) : bool :=
  match schedule act body begin allowed os cf with Some _ => true | None => false end.
Definition all_idle (cf : mem_config) : bool :=
  forallb (fun th : mem_thread => match th_running th with None => true | Some _ => false end) cf.2.

Lemma completes_steps allowed os cf : completes allowed os cf = true ->
  rtc (step act body begin allowed) cf (ran allowed os cf).
Proof.
  unfold completes, ran. destruct (schedule act body begin allowed os cf) as [cf'|] eqn:Hs; [|done].
  intros _. by apply (schedule_steps act body begin allowed os).
Qed.

Lemma all_idle_quiescent cf : all_idle cf = true -> quiescent (cf.1, cf.2).
Proof.
  intros H. apply Forall_forall. intros th Hth. simpl in Hth. unfold all_idle in H. rewrite forallb_forall in H.
  specialize (H th). rewrite <- list_elem_of_In in H. specialize (H Hth). by destruct (th_running th).
Qed.

Lemma ran_booted os : completes boot os boot_start = true -> all_idle (ran boot os boot_start) = true ->
  length (ran boot os boot_start).2 = 1%nat -> booted (ran boot os boot_start).1 (first_of (ran boot os boot_start)).
Proof.
  intros Hr%completes_steps Hi%all_idle_quiescent Hl.
  destruct (ran boot os boot_start) as [w [|th [|]]]; [done| |done]. split; [exact Hr|]. by inversion Hi.
Qed.

Lemma ran_reached n w th os : completes ordinary os (start n w th) = true ->
  rtc mem_step (start n w th) ((ran ordinary os (start n w th)).1, (ran ordinary os (start n w th)).2).
Proof. rewrite <- surjective_pairing. apply completes_steps. Qed.

Lemma main_booted : booted boot_end.1 (first_of boot_end).
Proof. apply ran_booted; vm_compute; reflexivity. Qed.

Lemma main_reached : rtc mem_step (start 2 boot_end.1 (first_of boot_end)) (main_end.1, main_end.2).
Proof. apply ran_reached. vm_compute. reflexivity. Qed.

Lemma main_quiescent : quiescent (main_end.1, main_end.2).
Proof. apply all_idle_quiescent. vm_compute. reflexivity. Qed.

(** The baseline raises the mark that an earlier census had lowered. *)
Example baseline_raises : order_of boot_end.1 flexLow = [2 ^ 64 - 1; 3000000; 6000000] /\ marks (trace boot_end.1) = [6000000; 6000000].
Proof. vm_compute. split; reflexivity. Qed.

Example refused_request_lines :
  lines (drop (length (trace boot_end.1)) (trace main_end.1)) =
  [OomWant 100 0; OomFlex 4882 0 5859 3906; OomDirect 7812500 6835937 0; OomLargest 100;
   CensusFlex "level" 3906 5859 3906 1953; CensusDirect "level" 7812500 6835937].
Proof. vm_compute. reflexivity. Qed.

Lemma mem_low_water_witness :
  marks (trace main_end.1) = [6000000; 6000000; 5000000; 4000000] /\
  exists low, last (order_of main_end.1 flexLow) = Some low /\ low ∈ marks (trace main_end.1) /\
    (forall v, v ∈ marks (trace main_end.1) -> low <= v).
Proof.
  split; [vm_compute; reflexivity|].
  apply (mem_low_water 2 boot_end.1 (first_of boot_end) main_end.1 main_end.2);
    [exact main_booted|exact main_reached|exact main_quiescent].
Defined.

Lemma mem_oom_announced_witness : wants (trace main_end.1) = 1%nat.
Proof.
  apply (mem_oom_announced 2 boot_end.1 (first_of boot_end) main_end.1 main_end.2);
    [exact main_booted|exact main_reached|exact main_quiescent|vm_compute; discriminate].
Defined.

Definition first_call : call * local * outcome_new := default (Probe, fresh, Thrown) (head (th_done (first_of main_end))).
Definition baseline_call : call * local * outcome_new := default (Probe, fresh, Thrown) (th_done (first_of boot_end) !! 1%nat).

Lemma head_in {A} (d : A) (l : list A) : (if l is [] then false else true) = true -> default d (head l) ∈ l.
Proof. destruct l; [done|]. intros _. by left. Qed.

Lemma lookup_in {A} (d : A) (l : list A) k : (if l !! k is Some _ then true else false) = true -> default d (l !! k) ∈ l.
Proof. destruct (l !! k) eqn:E; [|done]. intros _. by eapply list_elem_of_lookup_2. Qed.

Lemma first_some (cf : mem_config) : (if cf.2 is [] then false else true) = true -> cf.2 !! O = Some (first_of cf).
Proof. destruct cf as [w [|th ts]]; done. Qed.

(** The refused request, and the baseline. *)
Lemma mem_calls_witness :
  first_call.1.1 = New true None 100 /\ first_call.2 = Thrown /\ did main_end.1 first_call /\
  baseline_call.1.1 = Baseline /\ did_alone main_end.1 baseline_call.
Proof.
  split; [vm_compute; reflexivity|]. split; [vm_compute; reflexivity|]. split.
  - apply (mem_calls_correct 2 boot_end.1 (first_of boot_end) main_end.1 main_end.2 main_booted main_reached) with O (first_of main_end).
    + apply first_some. vm_compute. reflexivity.
    + apply head_in. vm_compute. reflexivity.
  - split; [vm_compute; reflexivity|].
    apply (mem_calls_correct 2 boot_end.1 (first_of boot_end) main_end.1 main_end.2 main_booted main_reached).
    apply lookup_in. vm_compute. reflexivity.
Defined.
