(* ===== verification/App.v ===== *)
(** The console's log and its run configuration: [optional/orbis_netlog.cpp]
    and [optional/ps4_app.cpp].  Buffers are memories of their own at
    address 16; a formatted text is an argument, [None] when the formatting
    fails. *)
From Stdlib Require Import String.
From stdpp Require Import prelude gmap list numbers strings.
From S2P Require Import Prelude Memory Report.
Open Scope Z_scope.

Module App.

(** The calls of the system, oldest first. *)
Inductive event :=
  | NetInit
  | NetSocket (r : Z)
  | SocketClose (s : Z)
  | SendTo (s : Z) (data : list Z)
  | DebugOut (text : list Z)
  | Open (path : string) (fd : Z)
  | Read (fd n got : Z)
  | Close (fd : Z)
  | Usleep (us : Z).

(** [NetlogSin] *)
Record sin := mk_sin { sin_len : Z; sin_family : Z; sin_port : Z; sin_addr : Z }.

Record app := mk_app {
  s_app : list Z; s_autoexit : Z; s_frameKlog : Z; s_runCfgNote : list Z;
  s_sock : Z; s_dst : sin; channels_ : channels; hist : list event }.

(** What the system answers, given what was asked so far; [AF_INET] is the
    SDK's number. *)
Record host := mk_host {
  ORBIS_NET_AF_INET : Z;
  socket_of : list event -> Z;
  pton_of : list event -> Z * Z;
  htons : Z -> Z;
  open_of : list event -> Z;
  read_of : list event -> Z * list Z }.

Definition log (s : app) (e : event) : app :=
  mk_app (s_app s) (s_autoexit s) (s_frameKlog s) (s_runCfgNote s) (s_sock s) (s_dst s) (channels_ s) (hist s ++ [e]).
Definition set_tag (s : app) a : app :=
  mk_app a (s_autoexit s) (s_frameKlog s) (s_runCfgNote s) (s_sock s) (s_dst s) (channels_ s) (hist s).
Definition set_options (s : app) (o : Z * Z) : app :=
  mk_app (s_app s) o.1 o.2 (s_runCfgNote s) (s_sock s) (s_dst s) (channels_ s) (hist s).
Definition set_note (s : app) n : app :=
  mk_app (s_app s) (s_autoexit s) (s_frameKlog s) n (s_sock s) (s_dst s) (channels_ s) (hist s).
Definition set_sock (s : app) k d : app :=
  mk_app (s_app s) (s_autoexit s) (s_frameKlog s) (s_runCfgNote s) k d (channels_ s) (hist s).
Definition set_channels (s : app) c : app :=
  mk_app (s_app s) (s_autoexit s) (s_frameKlog s) (s_runCfgNote s) (s_sock s) (s_dst s) c (hist s).

Definition sin_zero : sin := mk_sin 0 0 0 0.
Definition initial : app :=
  mk_app (bytes "ps4") 0 0 (bytes "run-cfg: not read yet") (-1) sin_zero (mk_channels 0 0 0) [].

(** ** The network log *)

Definition NETLOG_PORT : Z := 18194.
Definition netbuf_len : Z := 512.

(** The bytes [p .. p + n - 1]. *)
Fixpoint read_bytes (m : mem) (p : Z) (n : nat) : outcome (list Z) :=
  match n with O => Ok [] | S n => x ← ld m p; xs ← read_bytes m (p + 1) n; Ok (x :: xs) end.

(** A local array that is not initialised, and one that is. *)
Definition array_of (n v : Z) : mem := write ∅ 16 (replicate (Z.to_nat n) v).

Definition orbis_netlog (s : app) (text : option (list Z)) : outcome app :=
  if s_sock s <? 0 then Ok s else
  match text with
  | None => Ok s
  | Some t =>
      '(m, n) ← snprintf (array_of netbuf_len 255) 16 netbuf_len t;
      let n := if netbuf_len <? n then netbuf_len else n in
      data ← read_bytes m 16 (Z.to_nat n);
      Ok (log s (SendTo (s_sock s) data))
  end.

Definition orbis_netlog_ready (s : app) : bool := 0 <=? s_sock s.

Definition orbis_netlog_close (s : app) : app :=
  if s_sock s <? 0 then s else set_sock (log s (SocketClose (s_sock s))) (-1) (s_dst s).

Section init.
Context (H : host).

Definition orbis_netlog_init (s : app) : outcome app :=
  if 0 <=? s_sock s then Ok s else
  let s := log s NetInit in
  let r := socket_of H (hist s) in
  let s := log s (NetSocket r) in
  if r <? 0 then Ok (set_sock s (-1) (s_dst s)) else
  let '(rc, addr) := pton_of H (hist s) in
  let dst := mk_sin 16 (ORBIS_NET_AF_INET H) (htons H NETLOG_PORT) addr in
  if negb (rc =? 1) then Ok (set_sock (log s (SocketClose r)) (-1) dst) else
  orbis_netlog (set_sock s r dst) (Some (bytes "[tempest] netlog up -> 192.168.100.1:18194" ++ [10])).

(** ** The run configuration *)

Definition RunCfgPath : string := "/app0/ps4-run.cfg".

Fixpoint strchr (fuel : nat) (m : mem) (p c : Z) : outcome Z :=
  match fuel with
  | O => OutOfFuel
  | S f => x ← ld m p; if x =? c then Ok p else if x =? 0 then Ok 0 else strchr f m (p + 1) c
  end.

(** [strcmp(p, lit) == 0] *)
Definition strcmp_is (fuel : nat) (m : mem) (p : Z) (lit : string) : outcome bool :=
  xs ← read_str fuel m p; Ok (bool_decide (xs = bytes lit)).

Definition is_tail (x : Z) : bool := (x =? 32) || (x =? 9) || (x =? 13).

Definition trim (fuel : nat) (m : mem) (s : Z) : outcome mem :=
  hash ← while fuel (fun h => x ← ld m h; Ok (negb (x =? 0) && negb (x =? 35))) (fun h => Ok (h + 1)) s;
  m ← st m hash 0;
  n ← strlen fuel m s;
  n ← while fuel (fun n => if 0 <? n then (x ← ld m (s + n - 1); Ok (is_tail x)) else Ok false)
        (fun n => Ok (n - 1)) n;
  st m (s + n) 0.

(** The options are [s_autoexit] and [s_frameKlog]. *)
Definition applyOption (fuel : nat) (m : mem) (o : Z * Z) (line : Z) : outcome (mem * (Z * Z)) :=
  line ← while fuel (fun l => x ← ld m l; Ok ((x =? 32) || (x =? 9))) (fun l => Ok (l + 1)) line;
  m ← trim fuel m line;
  c ← ld m line;
  if c =? 0 then Ok (m, o) else
  eq ← strchr fuel m line 61;
  if eq =? 0 then Ok (m, o) else
  m ← st m eq 0;
  one ← strcmp_is fuel m (eq + 1) "1";
  let on := if one : bool then 1 else 0 in
  k1 ← strcmp_is fuel m line "autoexit";
  if k1 : bool then Ok (m, (on, o.2)) else
  k2 ← strcmp_is fuel m line "frame-klog";
  if k2 : bool then Ok (m, (o.1, on)) else Ok (m, o).

(** The loop over the lines of the file. *)
Definition apply_lines (fuel : nat) : mem * (Z * Z) * Z -> outcome (mem * (Z * Z)) :=
  loop fuel (fun '(m, o, p) =>
    x ← ld m p;
    if x =? 0 then Ok (inr (m, o)) else
    nl ← strchr fuel m p 10;
    m ← (if negb (nl =? 0) then st m nl 0 else Ok m);
    '(m, o) ← applyOption fuel m o p;
    if nl =? 0 then Ok (inr (m, o)) else Ok (inl (m, o, nl + 1))).

Definition cfg_len : Z := 512.

Definition hex_digit (d : Z) : Z := if d <? 10 then 48 + d else 87 + d.
(** [%08x] of an [int], [%d] of 0 or 1, [%zu] and [%u]. *)
Definition hex8 (v : Z) : list Z := map (fun k => hex_digit (Z.land (Z.shiftr (u32 v) (4 * k)) 15)) [7; 6; 5; 4; 3; 2; 1; 0].
Fixpoint dec_go (fuel : nat) (v : Z) : list Z :=
  match fuel with O => [] | S f => (if v <? 10 then [] else dec_go f (v / 10)) ++ [48 + v mod 10] end.
Definition dec (v : Z) : list Z := dec_go 20 v.

Definition readRunConfig (fuel : nat) (s : app) : outcome app :=
  let fd := open_of H (hist s) in
  let s := log s (Open RunCfgPath fd) in
  if fd <? 0 then
    Ok (set_note s (truncate 128 (bytes "run-cfg: no " ++ bytes RunCfgPath ++ bytes " (0x" ++ hex8 fd ++
          bytes ") - console defaults, autoexit=0 frame-klog=0")))
  else
    let '(got, data) := read_of H (hist s) in
    let s := log s (Read fd (cfg_len - 1) got) in
    let buf := write (array_of cfg_len 0) 16 data in
    let s := log s (Close fd) in
    let len := if got <? cfg_len then got else 0 in
    buf ← st buf (16 + len) 0;
    '(_, o) ← apply_lines fuel (buf, (s_autoexit s, s_frameKlog s), 16);
    Ok (set_note (set_options s o)
          (truncate 128 (bytes "run-cfg: " ++ bytes RunCfgPath ++ bytes " read (" ++ dec len ++
             bytes " B) - autoexit=" ++ dec o.1 ++ bytes " frame-klog=" ++ dec o.2))).

(** ** Lines *)

Definition netLine (s : app) (line : list Z) : outcome app := orbis_netlog s (Some line).

Definition klogWanted (s : app) : bool := negb (s_frameKlog s =? 0) || negb (orbis_netlog_ready s).

Definition formatLine (m : mem) (buf sz : Z) (text : option (list Z)) : outcome mem :=
  '(m, n) ← match text with
            | Some t => snprintf m buf (sz - 2) t
            | None => Ok (m, -1)
            end;
  let len := if n <? 0 then 0 else n in
  let len := if sz - 2 <? len then sz - 2 else len in
  newline ← (if len =? 0 then Ok true else x ← ld m (buf + len - 1); Ok (negb (x =? 10)));
  '(m, len) ← (if newline : bool then (m ← st m (buf + len) 10; Ok (m, len + 1)) else Ok (m, len));
  st m (buf + len) 0.

Definition tagLine (s : app) (m : mem) (buf sz : Z) (text : option (list Z)) : outcome mem :=
  '(m, head) ← snprintf m buf sz (bytes "[" ++ s_app s ++ bytes "] ");
  let off := if (head <? 0) || (sz - 2 <=? head) then 0 else head in
  formatLine m (buf + off) (sz - off) text.

Definition line_len : Z := 512.

(** [char buf[512] = {}; tagLine(buf, sizeof(buf), fmt, ap);] and what a
    reader of the buffer sees. *)
Definition tagged (s : app) (text : option (list Z)) : outcome (list Z) :=
  m ← tagLine s (array_of line_len 0) 16 line_len text;
  read_str 513 m 16.

Definition ps4_vlog (s : app) (text : option (list Z)) : outcome app :=
  line ← tagged s text;
  s ← netLine s line;
  Ok (if klogWanted s then log s (DebugOut line) else s).

Definition ps4_log := ps4_vlog.

Definition ps4_log_frame (s : app) (text : option (list Z)) : outcome app :=
  line ← tagged s text;
  s ← netLine s line;
  Ok (if klogWanted s then log s (DebugOut line) else s).

Definition ps4_log_net_line (s : app) (line : list Z) : outcome app :=
  s ← netLine s line;
  Ok (if klogWanted s then log s (DebugOut line) else s).

Definition ps4_vlog_fatal (s : app) (text : option (list Z)) : outcome app :=
  line ← tagged s text;
  netLine (log s (DebugOut line)) line.

Definition ps4_log_fatal := ps4_vlog_fatal.

Definition ps4_run_autoexit (s : app) : Z := s_autoexit s.
Definition ps4_run_frame_klog (s : app) : Z := s_frameKlog s.

(** The numbers of the three functions that are registered. *)
Definition fn_vlog : Z := 1.
Definition fn_vlog_fatal : Z := 2.
Definition fn_idle_forever : Z := 3.

Definition ps4_app_init (fuel : nat) (s : app) (name stamp : list Z) : outcome app :=
  let c := orbis_set_log (channels_ s) fn_vlog in
  let c := orbis_set_log_fatal c fn_vlog_fatal in
  let c := orbis_set_fatal_action c fn_idle_forever in
  let s := set_tag (set_channels s c) name in
  let buf := truncate 256 (bytes "[" ++ name ++ bytes "] alive - main() entered, built " ++ stamp ++ [10]) in
  let s := log s (DebugOut buf) in
  s ← readRunConfig fuel s;
  s ← orbis_netlog_init s;
  s ← netLine s buf;
  ps4_log s (Some (s_runCfgNote s)).

Definition ps4_app_set_tag (s : app) (name : option (list Z)) : app :=
  match name with Some a => set_tag s a | None => s end.

(** One round of the heartbeat, which has no end. *)
Definition idle_round (s : app) (sec : Z) : outcome (app * Z) :=
  s ← ps4_log_frame (log s (Usleep (5 * 1000 * 1000))) (Some (bytes "idle " ++ dec sec ++ bytes "s"));
  Ok (s, u32 (sec + 5)).

Definition ps4_idle_forever (fuel : nat) (s : app) (what : list Z) : outcome app :=
  if negb (s_autoexit s =? 0) then ps4_log s (Some (what ++ bytes " - returning from main (run-cfg autoexit=1)"))
  else
    s ← ps4_log s (Some (what ++ bytes " - idle, close the title with the PS button"));
    loop fuel (fun '(s, sec) => '(s, sec) ← idle_round s sec; Ok (inl (s, sec))) (s, 5).

End init.
End App.
Export App.

(** ** Lines *)

(** A log line from a formatted text, in a buffer of [sz] bytes: with a newline
    when it fits, cut off without one when it does not. *)
Definition line_text (sz : Z) (t : list Z) : list Z :=
  if zlen t <? sz - 2 then (if bool_decide (last t = Some 10) then t else t ++ [10])
  else take (Z.to_nat (sz - 3)) t.

Definition same_outside (m m' : mem) (p n : Z) : Prop := forall a, a < p \/ p + n <= a -> m' !! a = m !! a.

Lemma array_of_mapped n v : 0 <= n -> mapped (array_of n v) 16 n.
Proof.
  intros Hn. unfold array_of. replace n with (zlen (replicate (Z.to_nat n) v)) at 2 by (rewrite length_replicate; lia).
  apply array_mapped, array_write.
Qed.

Lemma nonzero_take (t : list Z) k : Forall (fun x => x <> 0) t -> Forall (fun x => x <> 0) (take k t).
Proof. apply Forall_take. Qed.

(** [snprintf] of a whole text or of what fits. *)
Lemma snprintf_ok m p size t :
  0 < size -> mapped m p size ->
  snprintf m p size t = Ok (write m p (take (Z.to_nat (size - 1)) t ++ [0]), zlen t).
Proof.
  intros Hs Hm. unfold snprintf. rewrite (proj2 (Z.eqb_neq size 0)) by lia.
  rewrite puts_ok; [done|]. eapply mapped_sub; [exact Hm|lia|]. rewrite length_app, length_take. simpl. lia.
Qed.

(** The two stores at the end of a line. *)
Lemma line_stores m p xs :
  zstr m p xs -> is_Some (m !! (p + zlen xs + 1)) ->
  ('(m1, len) ← (m1 ← st m (p + zlen xs) 10; Ok (m1, zlen xs + 1)); st m1 (p + len) 0) =
  Ok (write m p (xs ++ [10; 0])).
Proof.
  intros Hz H1. pose proof (zstr_end _ _ _ Hz) as He.
  rewrite st_ok by (by rewrite He). rewrite !bind_ok, Z.add_assoc, st_ok.
  2: { rewrite lookup_insert_ne by lia. done. }
  f_equal. rewrite write_app. cbn [write]. by rewrite (write_same m p xs) by (by apply zstr_array).
Qed.

Lemma last_cell m p t x : zstr m p t -> t <> [] -> last t = Some x -> m !! (p + zlen t - 1) = Some x.
Proof.
  intros Hz Hne Hl. destruct t as [|y t] using rev_ind; [done|]. rewrite last_snoc in Hl. injection Hl as ->.
  rewrite length_app. simpl.
  replace (p + Z.of_nat (length t + 1) - 1) with (p + zlen t) by lia.
  rewrite (zstr_cell m p (t ++ [x]) (length t)); [|rewrite length_app; simpl; lia|done].
  rewrite nth_lookup, lookup_app_r, Nat.sub_diag by lia. done.
Qed.

Lemma formatLine_ok m p sz t :
  3 <= sz -> mapped m p sz -> Forall (fun x => x <> 0) t ->
  exists m', formatLine m p sz (Some t) = Ok m' /\ zstr m' p (line_text sz t) /\ same_outside m m' p sz.
Proof.
  intros Hsz Hm Hnz. unfold formatLine, line_text.
  rewrite snprintf_ok; [|lia|by eapply mapped_sub; [exact Hm|lia|lia]]. rewrite bind_ok.
  replace (sz - 2 - 1) with (sz - 3) by lia. rewrite (proj2 (Z.ltb_ge (zlen t) 0)) by lia.
  set (xs := take (Z.to_nat (sz - 3)) t). set (m1 := write m p (xs ++ [0])).
  assert (zstr m1 p xs) as Hz by (apply write_zstr, nonzero_take, Hnz).
  assert (zlen xs <= sz - 3) as Hxl by (unfold xs; rewrite length_take; lia).
  assert (mapped m1 p sz) as Hm1 by (by apply mapped_write).
  assert (forall ys, zlen ys <= sz -> same_outside m (write m1 p ys) p sz) as Hout.
  { intros ys Hy a Ha. unfold m1. rewrite !lookup_write_out; [done|rewrite ?length_app; simpl; lia..]. }
  destruct (zlen t <? sz - 2) eqn:Hfit.
  - assert (xs = t) as Hxt by (unfold xs; apply take_ge; lia).
    rewrite Hxt in *. rewrite (proj2 (Z.ltb_ge (sz - 2) (zlen t))) by lia.
    pose proof (line_stores m1 p t Hz ltac:(apply Hm1; lia)) as Hst.
    assert (zstr (write m1 p (t ++ [10; 0])) p (t ++ [10])) as Hz2.
    { change [10; 0] with ([10] ++ [0]). rewrite app_assoc. apply write_zstr, Forall_app. split; [done|].
      constructor; [lia|constructor]. }
    assert (zlen (t ++ [10; 0]) <= sz) as Hlen by (rewrite length_app; simpl; lia).
    destruct (decide (t = [])) as [->|Hne]; [eexists; split; [exact Hst|auto]|].
    destruct (last t) as [x|] eqn:Hl; [|by apply last_None in Hl].
    rewrite (proj2 (Z.eqb_neq (zlen t) 0)) by (destruct t; simpl; [done|lia]).
    rewrite (ld_ok _ _ x) by (by apply last_cell). rewrite bind_ok, bind_ok.
    destruct (x =? 10) eqn:Hx; cbn [negb].
    + assert (x = 10) as -> by lia. rewrite bool_decide_true by done. rewrite bind_ok.
      rewrite st_ok by (apply Hm1; lia). eexists. split; [done|].
      assert (<[p + zlen t := 0]> m1 = m1) as ->.
      { apply map_eq. intros a. destruct (decide (a = p + zlen t)) as [->|]; [|by rewrite lookup_insert_ne].
        rewrite lookup_insert_eq. symmetry. by apply zstr_end. }
      split; [done|]. rewrite <- (write_same m1 p []); [|apply array_nil]. apply Hout. simpl. lia.
    + rewrite bool_decide_false by (intros [= ->]; lia). eexists. split; [exact Hst|auto].
  - assert (zlen xs = sz - 3) as Hxe by (unfold xs; rewrite length_take; lia).
    replace (if sz - 2 <? zlen t then sz - 2 else zlen t) with (sz - 2) by (destruct (sz - 2 <? zlen t) eqn:?; lia).
    rewrite (proj2 (Z.eqb_neq (sz - 2) 0)) by lia.
    rewrite (ld_ok _ _ 0).
    2: { rewrite <- (zstr_end _ _ _ Hz). f_equal. lia. }
    rewrite !bind_ok. cbn [negb Z.eqb]. rewrite st_ok by (apply Hm1; lia). rewrite bind_ok.
    rewrite bind_ok. rewrite st_ok by (rewrite lookup_insert_ne by lia; apply Hm1; lia). eexists. split; [done|].
    split.
    + apply zstr_insert_out; [lia|]. by apply zstr_insert_out; [lia|].
    + intros a Ha. rewrite !lookup_insert_ne by lia. unfold m1. rewrite lookup_write_out; [done|rewrite length_app; simpl; lia].
Qed.

Definition tag_of (s : app) : list Z := bytes "[" ++ s_app s ++ bytes "] ".

(** What [ps4_log] and the others make of a text. *)
Definition tagged_text (s : app) (t : list Z) : list Z :=
  let tag := tag_of s in
  if zlen tag <? 510 then tag ++ line_text (512 - zlen tag) t else line_text 512 t.

Definition text_ok (t : list Z) : Prop := Forall (fun x => x <> 0) t.

Lemma line_text_ok sz t : text_ok t -> text_ok (line_text sz t).
Proof.
  intros H. unfold line_text. repeat case_match; [done|apply Forall_app; split; [done|by repeat constructor]|by apply Forall_take].
Qed.

Lemma line_text_length sz t : 3 <= sz -> zlen (line_text sz t) <= sz - 2.
Proof.
  intros H. unfold line_text. destruct (zlen t <? sz - 2) eqn:Hf; [|rewrite length_take; lia].
  case_bool_decide; [lia|]. rewrite length_app. simpl. lia.
Qed.

Lemma zstr_app m p xs ys : array m p xs -> text_ok xs -> zstr m (p + zlen xs) ys -> zstr m p (xs ++ ys).
Proof.
  intros Ha Hx [Hy Hn]. split; [|by apply Forall_app]. rewrite <- app_assoc. apply array_app. by split.
Qed.

Lemma array_outside m m' p xs q n :
  same_outside m m' q n -> p + zlen xs <= q -> array m p xs -> array m' p xs.
Proof.
  intros Ho Hle Ha i x Hx. rewrite Ho; [by apply Ha|]. apply lookup_lt_Some in Hx. lia.
Qed.

Lemma tagged_ok s t :
  text_ok (s_app s) -> text_ok t -> tagged s (Some t) = Ok (tagged_text s t).
Proof.
  intros Ha Ht. unfold tagged, tagLine, tagged_text. fold (tag_of s). set (tag := tag_of s).
  assert (text_ok tag) as Htag.
  { apply Forall_app; split; [by repeat constructor|]. apply Forall_app; split; [done|by repeat constructor]. }
  assert (mapped (array_of line_len 0) 16 512) as Hm by (by apply array_of_mapped).
  rewrite snprintf_ok by done. rewrite bind_ok. rewrite (proj2 (Z.ltb_ge (zlen tag) 0)) by lia. rewrite orb_false_l.
  assert ((line_len - 2 <=? zlen tag) = negb (zlen tag <? 510)) as ->.
  { change (line_len - 2) with 510. destruct (zlen tag <? 510) eqn:E; cbn [negb]; lia. }
  set (m1 := write _ _ _). assert (mapped m1 16 512) as Hm1 by (by apply mapped_write).
  destruct (zlen tag <? 510) eqn:Hfit; simpl negb; cbv iota.
  - destruct (formatLine_ok m1 (16 + zlen tag) (line_len - zlen tag) t) as (m' & -> & Hz & Ho);
      [unfold line_len; lia|eapply mapped_sub; [exact Hm1|lia|unfold line_len; lia]|done|].
    rewrite bind_ok. apply read_str_ok.
    + apply zstr_app; [|done|done]. eapply array_outside; [exact Ho|lia|].
      assert (array m1 16 (tag ++ [0])) as Harr.
      { unfold m1. rewrite take_ge by (unfold line_len; lia). apply array_write. }
      by apply array_app in Harr as [? _].
    + pose proof (line_text_length (line_len - zlen tag) t ltac:(unfold line_len; lia)) as Hl.
      unfold line_len in Hl |- *. rewrite length_app. lia.
  - replace (16 + 0) with 16 by lia. replace (line_len - 0) with line_len by lia.
    destruct (formatLine_ok m1 16 line_len t) as (m' & -> & Hz & Ho); [done..|].
    rewrite bind_ok. apply read_str_ok; [done|]. pose proof (line_text_length line_len t ltac:(done)). unfold line_len in *. lia.
Qed.

Lemma tagged_text_ok s t : text_ok (s_app s) -> text_ok t -> text_ok (tagged_text s t).
Proof.
  intros Ha Ht. unfold tagged_text. destruct (zlen (tag_of s) <? 510); [|by apply line_text_ok].
  apply Forall_app. split; [|by apply line_text_ok].
  apply Forall_app; split; [by repeat constructor|]. apply Forall_app; split; [done|by repeat constructor].
Qed.

Lemma tagged_text_length s t : zlen (tagged_text s t) <= 510.
Proof.
  unfold tagged_text. destruct (zlen (tag_of s) <? 510) eqn:Hf.
  - rewrite length_app. pose proof (line_text_length (512 - zlen (tag_of s)) t ltac:(lia)). lia.
  - by apply line_text_length.
Qed.

(** ** The network log *)

Lemma read_bytes_ok m p xs : array m p xs -> read_bytes m p (length xs) = Ok xs.
Proof.
  revert p. induction xs as [|x xs IH]; intros p H; [done|]. apply array_cons in H as [Hx H]. simpl.
  rewrite (ld_ok _ _ _ Hx), bind_ok, (IH _ H), bind_ok. done.
Qed.

(** The datagram of a text: a text of 512 bytes or more is cut at 511 and sent
    with its terminator. *)
Definition datagram (t : list Z) : list Z := if zlen t <? 512 then t else take 511 t ++ [0].

Lemma orbis_netlog_ok s t :
  orbis_netlog s (Some t) = Ok (if s_sock s <? 0 then s else log s (SendTo (s_sock s) (datagram t))).
Proof.
  unfold orbis_netlog, datagram. destruct (s_sock s <? 0); [done|].
  rewrite snprintf_ok by (done || by apply array_of_mapped). rewrite bind_ok. unfold netbuf_len.
  pose proof (array_write (array_of 512 255) 16 (take (Z.to_nat (512 - 1)) t ++ [0])) as Ha.
  destruct (zlen t <? 512) eqn:Hl.
  - rewrite (proj2 (Z.ltb_ge 512 (zlen t))) by lia. rewrite take_ge in Ha |- * by lia.
    rewrite Nat2Z.id, read_bytes_ok by (by apply array_app in Ha as [? _]). done.
  - replace (Z.to_nat (if 512 <? zlen t then 512 else zlen t)) with (length (take 511 t ++ [0])).
    2: { rewrite length_app, length_take. cbn [length]. destruct (512 <? zlen t) eqn:?; lia. }
    change (Z.to_nat (512 - 1)) with 511%nat in *. by rewrite (read_bytes_ok _ _ _ Ha).
Qed.

(** ** The channels *)

(** What a line leaves on the channels. *)
Definition carried (s : app) (line : list Z) : list event :=
  (if s_sock s <? 0 then [] else [SendTo (s_sock s) line]) ++ (if klogWanted s then [DebugOut line] else []).

Definition logged (s : app) (es : list event) : app := foldl log s es.

Lemma logged_app s es : logged s es =
  mk_app (s_app s) (s_autoexit s) (s_frameKlog s) (s_runCfgNote s) (s_sock s) (s_dst s) (channels_ s) (hist s ++ es).
Proof.
  revert s. induction es as [|e es IH]; intros s; simpl; [rewrite app_nil_r; by destruct s|].
  rewrite IH. simpl. by rewrite <- app_assoc.
Qed.

Lemma netLine_short s line : zlen line < 512 -> netLine s line = Ok (if s_sock s <? 0 then s else log s (SendTo (s_sock s) line)).
Proof. intros H. unfold netLine. rewrite orbis_netlog_ok. unfold datagram. by rewrite (proj2 (Z.ltb_lt (zlen line) 512)). Qed.

Lemma ps4_vlog_ok s t :
  text_ok (s_app s) -> text_ok t -> ps4_vlog s (Some t) = Ok (logged s (carried s (tagged_text s t))).
Proof.
  intros Ha Ht. unfold ps4_vlog, carried. rewrite tagged_ok by done. rewrite bind_ok.
  pose proof (tagged_text_length s t). rewrite netLine_short by lia. rewrite bind_ok.
  unfold klogWanted, orbis_netlog_ready. by destruct (s_sock s <? 0) eqn:Hs; simpl; case_match.
Qed.

Lemma carried_some s line : carried s line <> [].
Proof.
  unfold carried, klogWanted, orbis_netlog_ready. destruct (s_sock s <? 0) eqn:Hs; simpl; [|done].
  rewrite (proj2 (Z.leb_gt 0 (s_sock s))) by lia. simpl. by rewrite orb_true_r.
Qed.

(** The two questions the header's rule for the channels depends on. *)
Definition host_asked (s : app) : bool := negb (s_frameKlog s =? 0).
Definition sent (s : app) (line : list Z) : list event := if orbis_netlog_ready s then [SendTo (s_sock s) line] else [].

Lemma carried_sent s line : carried s line = sent s line ++ (if host_asked s || negb (orbis_netlog_ready s) then [DebugOut line] else []).
Proof.
  unfold carried, sent, klogWanted, host_asked, orbis_netlog_ready.
  by destruct (s_sock s <? 0) eqn:?, (0 <=? s_sock s) eqn:?; try lia.
Qed.

(** C27: The lines of the application's log go to the channels its header
    names: one of [ps4_log] to both, that is to the network log when that is
    up and to the kernel's log, when the host asked for it or the network log
    is down; one of [ps4_log_frame] to the network log, and to the kernel's
    exactly when the host asked, when it asked or the network log is up; a
    fatal line to the kernel's log always and first, then to the network log.
    Whatever the host asked and the network does, no line of [ps4_log] is
    lost.  The line is the tag, the text and a newline if that fits the
    512-byte buffer, the same and whole in every channel.  (In the two states
    left out the header and the code differ: see the findings.) *)
Theorem ps4_log_carried s t :
  text_ok (s_app s) -> text_ok t ->
  let line := tagged_text s t in
  (host_asked s || negb (orbis_netlog_ready s) = true ->
     ps4_log s (Some t) = Ok (logged s (sent s line ++ [DebugOut line]))) /\
  (host_asked s || orbis_netlog_ready s = true ->
     ps4_log_frame s (Some t) = Ok (logged s (sent s line ++ if host_asked s then [DebugOut line] else []))) /\
  ps4_log_fatal s (Some t) = Ok (logged s (DebugOut line :: sent s line)) /\
  exists es, ps4_log s (Some t) = Ok (logged s es) /\ es <> [] /\
    forall e, e ∈ es -> e = SendTo (s_sock s) line \/ e = DebugOut line.
Proof.
  intros Ha Ht line. unfold ps4_log, ps4_log_frame.
  pose proof (ps4_vlog_ok s t Ha Ht) as Hlog. fold line in Hlog. split; [|split; [|split]].
  - intros H. by rewrite Hlog, carried_sent, H.
  - intros H. unfold ps4_vlog in Hlog. rewrite Hlog, carried_sent. by destruct (host_asked s), (orbis_netlog_ready s).
  - unfold ps4_log_fatal, ps4_vlog_fatal. rewrite tagged_ok by done. rewrite bind_ok. fold line.
    assert (zlen line < 512) by (pose proof (tagged_text_length s t); unfold line; lia).
    rewrite netLine_short by done. unfold sent, orbis_netlog_ready. simpl.
    by destruct (s_sock s <? 0) eqn:?, (0 <=? s_sock s) eqn:?; try lia.
  - exists (carried s line). split; [done|]. split; [apply carried_some|]. intros e He.
    unfold carried in He. clear Hlog. clearbody line.
    destruct (s_sock s <? 0), (klogWanted s); simpl in He; rewrite ?elem_of_cons, ?elem_of_nil in He; tauto.
Qed.

(** The tag and a long text: the newline is stored behind the terminator. *)
Theorem truncated_line_has_no_newline s t :
  text_ok (s_app s) -> text_ok t -> zlen (tag_of s) < 510 -> 510 - zlen (tag_of s) <= zlen t ->
  tagged s (Some t) = Ok (tag_of s ++ take (Z.to_nat (509 - zlen (tag_of s))) t).
Proof.
  intros Ha Ht Htag Hlen. rewrite tagged_ok by done. unfold tagged_text, line_text.
  rewrite (proj2 (Z.ltb_lt (zlen (tag_of s)) 510)) by done. rewrite (proj2 (Z.ltb_ge (zlen t) _)) by lia.
  do 4 f_equal. lia.
Qed.

(** ** The run configuration *)

Fixpoint split_at (c : Z) (xs : list Z) : option (list Z * list Z) :=
  match xs with
  | [] => None
  | x :: xs => if x =? c then Some ([], xs)
               else match split_at c xs with Some (a, b) => Some (x :: a, b) | None => None end
  end.

Fixpoint split_lines (xs : list Z) : list (list Z) :=
  match xs with
  | [] => [[]]
  | x :: xs => if x =? 10 then [] :: split_lines xs
               else match split_lines xs with l :: ls => (x :: l) :: ls | [] => [[x]] end
  end.

Fixpoint skip_blanks (xs : list Z) : list Z :=
  match xs with [] => [] | x :: r => if (x =? 32) || (x =? 9) then skip_blanks r else xs end.

Fixpoint drop_tail (xs : list Z) : list Z :=
  match xs with
  | [] => []
  | x :: r => match drop_tail r with [] => if is_tail x then [] else [x] | r' => x :: r' end
  end.

(** What is before the comment. *)
Fixpoint uncommented (xs : list Z) : list Z :=
  match xs with [] => [] | x :: r => if x =? 35 then [] else x :: uncommented r end.

(** What one line does to the two options. *)
Definition option_of (o : Z * Z) (line : list Z) : Z * Z :=
  match split_at 61 (drop_tail (uncommented (skip_blanks line))) with
  | None => o
  | Some (k, v) =>
      let on := if bool_decide (v = bytes "1") then 1 else 0 in
      if bool_decide (k = bytes "autoexit") then (on, o.2)
      else if bool_decide (k = bytes "frame-klog") then (o.1, on)
      else o
  end.

Definition options_of (o : Z * Z) (text : list Z) : Z * Z := foldl option_of o (split_lines text).

Lemma strchr_ok fuel m p c xs :
  zstr m p xs -> c <> 0 -> (length xs < fuel)%nat ->
  strchr fuel m p c = Ok (match split_at c xs with Some (a, _) => p + zlen a | None => 0 end).
Proof.
  revert p xs. induction fuel as [|fuel IH]; intros p xs Hz Hc Hf; [lia|]. cbn [strchr].
  destruct xs as [|x xs].
  - apply zstr_nil in Hz. rewrite (ld_ok _ _ _ Hz), bind_ok. by rewrite (proj2 (Z.eqb_neq 0 c)).
  - apply zstr_cons in Hz as (Hx & Hnz & Hz). rewrite (ld_ok _ _ _ Hx), bind_ok. cbn [split_at].
    destruct (x =? c); [by rewrite Z.add_0_r|]. rewrite (proj2 (Z.eqb_neq x 0) Hnz).
    rewrite (IH _ xs) by (done || (simpl in Hf; lia)). destruct (split_at c xs) as [[a b]|]; [|done].
    f_equal. cbn [length]. lia.
Qed.

Lemma split_at_app c xs a b : split_at c xs = Some (a, b) -> xs = a ++ c :: b.
Proof.
  revert a b. induction xs as [|x xs IH]; intros a b; simpl; [done|]. destruct (x =? c) eqn:Hx.
  - intros [= <- <-]. simpl. f_equal. lia.
  - destruct (split_at c xs) as [[a' b']|]; [|done]. intros [= <- <-]. simpl. f_equal. by apply IH.
Qed.

Lemma split_lines_at xs :
  split_lines xs = match split_at 10 xs with Some (a, b) => a :: split_lines b | None => [xs] end.
Proof.
  induction xs as [|x xs IH]; [done|]. simpl. destruct (x =? 10); [done|].
  rewrite IH. by destruct (split_at 10 xs) as [[a b]|].
Qed.

Lemma strcmp_is_ok fuel m p xs lit :
  zstr m p xs -> (length xs < fuel)%nat -> strcmp_is fuel m p lit = Ok (bool_decide (xs = bytes lit)).
Proof. intros Hz Hf. unfold strcmp_is. by rewrite (read_str_ok _ _ _ _ Hz Hf). Qed.

(** Putting a terminator inside a string splits it. *)
Lemma zstr_cut_at m p a x b :
  zstr m p (a ++ x :: b) ->
  zstr (<[p + zlen a := 0]> m) p a /\ zstr (<[p + zlen a := 0]> m) (p + zlen a + 1) b.
Proof.
  intros [Ha Hn]. rewrite <- app_assoc in Ha. simpl in Ha. apply array_app in Ha as [Ha Hb].
  apply array_cons in Hb as [Hx Hb]. apply Forall_app in Hn as [Hna Hnb]. apply Forall_cons in Hnb as [_ Hnb].
  split; (split; [|done]).
  - apply array_app. split; [apply array_insert_out; [lia|done]|].
    apply array_cons. split; [by rewrite lookup_insert_eq|apply array_nil].
  - apply array_insert_out; [lia|done].
Qed.

Lemma skip_ok fuel m p xs :
  zstr m p xs -> (length xs < fuel)%nat ->
  while fuel (fun l => x ← ld m l; Ok ((x =? 32) || (x =? 9))) (fun l => Ok (l + 1)) p =
    Ok (p + (zlen xs - zlen (skip_blanks xs))) /\
  zstr m (p + (zlen xs - zlen (skip_blanks xs))) (skip_blanks xs) /\ (length (skip_blanks xs) <= length xs)%nat.
Proof.
  revert fuel p. induction xs as [|x xs IH]; intros fuel p Hz Hf; fuel_succ fuel; simpl skip_blanks.
  - pose proof (proj1 (zstr_nil _ _) Hz) as H0. rewrite Z.sub_diag, Z.add_0_r.
    rewrite while_stop; [done|]. by rewrite (ld_ok _ _ _ H0).
  - pose proof (proj1 (zstr_cons _ _ _ _) Hz) as (Hx & _ & Hz').
    destruct ((x =? 32) || (x =? 9)) eqn:Hb.
    + rewrite (while_go _ _ _ _ (p + 1)); [|by rewrite (ld_ok _ _ _ Hx), bind_ok, Hb|done].
      destruct (IH fuel (p + 1) Hz' ltac:(simpl in Hf; lia)) as (H1 & H2 & H3). rewrite H1. cbn [length].
      replace (p + (Z.of_nat (S (length xs)) - zlen (skip_blanks xs)))
        with (p + 1 + (zlen xs - zlen (skip_blanks xs))) by lia. split_and!; [done|done|lia].
    + rewrite Z.sub_diag, Z.add_0_r. rewrite while_stop; [done|]. by rewrite (ld_ok _ _ _ Hx), bind_ok, Hb.
Qed.

Lemma hash_ok fuel m p xs :
  zstr m p xs -> (length xs < fuel)%nat ->
  while fuel (fun h => x ← ld m h; Ok (negb (x =? 0) && negb (x =? 35))) (fun h => Ok (h + 1)) p =
    Ok (p + zlen (uncommented xs)).
Proof.
  revert fuel p. induction xs as [|x xs IH]; intros fuel p Hz Hf; fuel_succ fuel; simpl uncommented.
  - apply zstr_nil in Hz. rewrite Z.add_0_r. rewrite while_stop; [done|]. by rewrite (ld_ok _ _ _ Hz).
  - apply zstr_cons in Hz as (Hx & Hnz & Hz'). destruct (x =? 35) eqn:Hb.
    + rewrite Z.add_0_r. rewrite while_stop; [done|]. rewrite (ld_ok _ _ _ Hx), bind_ok, Hb. by rewrite andb_false_r.
    + rewrite (while_go _ _ _ _ (p + 1)); [|by rewrite (ld_ok _ _ _ Hx), bind_ok, Hb, (proj2 (Z.eqb_neq x 0) Hnz)|done].
      rewrite (IH fuel (p + 1) Hz') by (simpl in Hf; lia). f_equal. cbn [length]. lia.
Qed.

Lemma uncommented_prefix xs : exists r, xs = uncommented xs ++ r.
Proof.
  induction xs as [|x xs (r & IH)]; [by exists []|]. simpl. destruct (x =? 35); [by exists (x :: xs)|].
  exists r. simpl. by f_equal.
Qed.

Lemma drop_tail_snoc xs x : drop_tail (xs ++ [x]) = if is_tail x then drop_tail xs else xs ++ [x].
Proof.
  induction xs as [|y xs IH]; simpl; [by destruct (is_tail x)|]. rewrite IH.
  destruct (is_tail x); [done|]. by destruct xs.
Qed.

Lemma drop_tail_prefix xs : exists r, xs = drop_tail xs ++ r.
Proof.
  induction xs as [|x xs IH] using rev_ind; [by exists []|]. rewrite drop_tail_snoc. destruct (is_tail x); [|by exists []; rewrite app_nil_r].
  destruct IH as (r & IH). exists (r ++ [x]). rewrite app_assoc. by f_equal.
Qed.

Lemma tail_ok fuel m p xs :
  zstr m p xs -> (length xs < fuel)%nat ->
  while fuel (fun n => if 0 <? n then (x ← ld m (p + n - 1); Ok (is_tail x)) else Ok false) (fun n => Ok (n - 1)) (zlen xs) =
    Ok (zlen (drop_tail xs)).
Proof.
  intros Hz. assert (array m p xs) as Ha by (by apply zstr_array). clear Hz. revert fuel.
  induction xs as [|x xs IH] using rev_ind; intros fuel Hf; (destruct fuel as [|fuel]; [lia|]); [by rewrite while_stop|].
  apply array_app in Ha as [Ha Hx]. apply array_cons in Hx as [Hx _]. rewrite drop_tail_snoc, length_app in *. cbn [length] in *.
  assert (ld m (p + Z.of_nat (length xs + 1) - 1) = Ok x) as Hld.
  { apply ld_ok. by replace (p + Z.of_nat (length xs + 1) - 1) with (p + zlen xs) by lia. }
  destruct (is_tail x) eqn:Ht.
  - rewrite (while_go _ _ _ _ (zlen xs)); [apply IH; [done|lia]| |f_equal; lia].
    rewrite (proj2 (Z.ltb_lt 0 _)) by lia. by rewrite Hld, bind_ok, Ht.
  - rewrite while_stop; [rewrite length_app; done|]. rewrite (proj2 (Z.ltb_lt 0 _)) by lia. by rewrite Hld, bind_ok, Ht.
Qed.

(** A store of a terminator at the end of a prefix. *)
Lemma zstr_prefix m p a r : zstr m p (a ++ r) -> zstr (<[p + zlen a := 0]> m) p a.
Proof.
  destruct r as [|x r].
  - rewrite app_nil_r. intros Hz. rewrite insert_id by (by apply zstr_end). done.
  - intros Hz. by apply zstr_cut_at in Hz as [? _].
Qed.

Lemma zstr_prefix_cell m p a r : zstr m p (a ++ r) -> is_Some (m !! (p + zlen a)).
Proof.
  intros Hz. rewrite (zstr_cell m p (a ++ r) (length a)); [by eexists|rewrite length_app; lia|done].
Qed.

Definition trimmed (xs : list Z) : list Z := drop_tail (uncommented xs).

Lemma trimmed_length xs : (length (trimmed xs) <= length (uncommented xs) <= length xs)%nat.
Proof.
  unfold trimmed. destruct (uncommented_prefix xs) as (r & Hr), (drop_tail_prefix (uncommented xs)) as (r2 & Hr2).
  apply (f_equal length) in Hr, Hr2. rewrite length_app in Hr, Hr2. lia.
Qed.

Lemma trim_ok fuel m p xs :
  zstr m p xs -> (length xs < fuel)%nat ->
  exists m', trim fuel m p = Ok m' /\ zstr m' p (trimmed xs) /\ same_outside m m' p (zlen xs + 1).
Proof.
  intros Hz Hf. unfold trim. rewrite (hash_ok fuel m p xs) by done. rewrite bind_ok.
  destruct (uncommented_prefix xs) as (r & Hr). pose proof (trimmed_length xs) as Hlen.
  assert (zstr m p (uncommented xs ++ r)) as Hz0 by (by rewrite <- Hr).
  rewrite st_ok by (by eapply zstr_prefix_cell). rewrite bind_ok. apply zstr_prefix in Hz0.
  set (m1 := <[p + zlen (uncommented xs) := 0]> m) in *.
  rewrite (strlen_ok fuel m1 p (uncommented xs)) by (done || lia). rewrite bind_ok.
  rewrite (tail_ok fuel m1 p (uncommented xs)) by (done || lia). rewrite bind_ok.
  destruct (drop_tail_prefix (uncommented xs)) as (r2 & Hr2).
  assert (zstr m1 p (drop_tail (uncommented xs) ++ r2)) as Hz1 by (by rewrite <- Hr2).
  rewrite st_ok by (by eapply zstr_prefix_cell). eexists. split; [done|]. split; [by eapply zstr_prefix|].
  intros a Ha. unfold trimmed in Hlen. rewrite lookup_insert_ne by lia. unfold m1. by rewrite lookup_insert_ne by lia.
Qed.

Lemma zstr_head m p xs : zstr m p xs -> ld m p = Ok (match xs with x :: _ => x | [] => 0 end).
Proof.
  destruct xs as [|x xs]; intros Hz; apply ld_ok; [by apply zstr_nil|by apply zstr_cons in Hz as (? & _)].
Qed.

Lemma applyOption_ok fuel m o p xs :
  zstr m p xs -> 0 < p -> (length xs < fuel)%nat ->
  exists m', applyOption fuel m o p = Ok (m', option_of o xs) /\ same_outside m m' p (zlen xs + 1).
Proof.
  intros Hz Hp Hf. unfold applyOption, option_of. fold (trimmed (skip_blanks xs)).
  destruct (skip_ok fuel m p xs Hz Hf) as (-> & Hz1 & Hl1). rewrite bind_ok.
  set (q := p + (zlen xs - zlen (skip_blanks xs))) in *.
  destruct (trim_ok fuel m q (skip_blanks xs)) as (m1 & -> & Hz2 & Ho1); [done|lia|]. rewrite bind_ok.
  pose proof (trimmed_length (skip_blanks xs)) as Hl2. set (ys := trimmed (skip_blanks xs)) in *.
  assert (same_outside m m1 p (zlen xs + 1)) as Ho by (intros a Ha; apply Ho1; lia).
  rewrite (zstr_head _ _ _ Hz2), bind_ok.
  destruct ys as [|y ys'] eqn:Hys; [by eexists|]. rewrite <- Hys in *.
  assert (y <> 0) as Hy by (rewrite Hys in Hz2; by apply zstr_cons in Hz2 as (_ & ? & _)).
  rewrite (proj2 (Z.eqb_neq y 0) Hy). rewrite (strchr_ok fuel m1 q 61 ys) by (done || lia). rewrite bind_ok.
  destruct (split_at 61 ys) as [[k v]|] eqn:Hs; [|by eexists].
  apply split_at_app in Hs. pose proof Hz2 as Hz3. rewrite Hs in Hz3.
  rewrite (proj2 (Z.eqb_neq (q + zlen k) 0)) by lia. rewrite st_ok by (by eapply zstr_prefix_cell). rewrite bind_ok.
  apply zstr_cut_at in Hz3 as [Hk Hv]. set (m2 := <[q + zlen k := 0]> m1) in *.
  assert (length ys = length k + S (length v))%nat as Hlen by (rewrite Hs, length_app; done).
  rewrite (strcmp_is_ok fuel m2 (q + zlen k + 1) v) by (done || lia). rewrite bind_ok.
  rewrite (strcmp_is_ok fuel m2 q k "autoexit") by (done || lia). rewrite bind_ok.
  assert (same_outside m m2 p (zlen xs + 1)) as Ho2.
  { intros a Ha. unfold m2. rewrite lookup_insert_ne by lia. by apply Ho. }
  case_bool_decide; [by eexists|]. rewrite (strcmp_is_ok fuel m2 q k "frame-klog") by (done || lia). rewrite bind_ok.
  case_bool_decide; by eexists.
Qed.

Lemma apply_lines_ok fuel n m o p xs :
  zstr m p xs -> 0 < p -> (length xs < fuel)%nat -> (length xs < n)%nat ->
  exists m', loop n (fun '(m, o, p) =>
    x ← ld m p;
    if x =? 0 then Ok (inr (m, o)) else
    nl ← strchr fuel m p 10;
    m ← (if negb (nl =? 0) then st m nl 0 else Ok m);
    '(m, o) ← applyOption fuel m o p;
    if nl =? 0 then Ok (inr (m, o)) else Ok (inl (m, o, nl + 1))) (m, o, p) = Ok (m', options_of o xs).
Proof.
  unfold options_of. revert m o p xs. induction n as [|n IH]; intros m o p xs Hz Hp Hf Hn; [lia|].
  rewrite loop_step. rewrite (zstr_head _ _ _ Hz), bind_ok. destruct xs as [|x xs0] eqn:Hxs; [by eexists|].
  rewrite <- Hxs in *. assert (x <> 0) as Hx by (rewrite Hxs in Hz; by apply zstr_cons in Hz as (_ & ? & _)).
  rewrite (proj2 (Z.eqb_neq x 0) Hx). rewrite (strchr_ok fuel m p 10 xs) by done. rewrite bind_ok, split_lines_at.
  destruct (split_at 10 xs) as [[a b]|] eqn:Hs.
  - apply split_at_app in Hs. assert (length xs = length a + S (length b))%nat as Hlen by (rewrite Hs, length_app; done).
    rewrite (proj2 (Z.eqb_neq (p + zlen a) 0)) by lia. cbn [negb]. pose proof Hz as Hz2. rewrite Hs in Hz2.
    rewrite st_ok by (by eapply zstr_prefix_cell). rewrite bind_ok. apply zstr_cut_at in Hz2 as [Ha Hb].
    set (m1 := <[p + zlen a := 0]> m) in *.
    destruct (applyOption_ok fuel m1 o p a) as (m2 & -> & Ho); [done|done|lia|]. rewrite !bind_ok. cbn [foldl].
    apply IH; [|lia..]. destruct Hb as [Hb Hbn]. split; [|done]. intros i y Hy. rewrite Ho; [by apply Hb|]. lia.
  - cbn [negb Z.eqb]. rewrite bind_ok. destruct (applyOption_ok fuel m o p xs) as (m2 & -> & Ho); [done|done|lia|].
    rewrite !bind_ok. by eexists.
Qed.

(** What the file says: its bytes up to a NUL byte. *)
Fixpoint text_of (data : list Z) : list Z :=
  match data with [] => [] | x :: r => if x =? 0 then [] else x :: text_of r end.

Lemma zstr_text_of m p data : array m p data -> m !! (p + zlen data) = Some 0 -> zstr m p (text_of data).
Proof.
  revert p. induction data as [|x data IH]; intros p Ha H0; simpl.
  - apply zstr_nil. by rewrite Z.add_0_r in H0.
  - apply array_cons in Ha as [Hx Ha]. destruct (x =? 0) eqn:Hx0; [apply zstr_nil; by replace 0 with x by lia|].
    apply zstr_cons. split; [done|]. split; [lia|]. apply IH; [done|]. rewrite <- H0. f_equal. cbn [length]. lia.
Qed.

Lemma text_of_length data : (length (text_of data) <= length data)%nat.
Proof. induction data as [|x data IH]; simpl; [lia|]. destruct (x =? 0); simpl; lia. Qed.

(** What the comment says of a line: the option its key names is turned on by
    the value 1 and off by the value 0, and left alone by any other. *)
Definition documented (o : Z * Z) (line : list Z) : Z * Z :=
  match split_at 61 (drop_tail (uncommented (skip_blanks line))) with
  | None => o
  | Some (k, v) =>
      let new old := if bool_decide (v = bytes "1") then 1 else if bool_decide (v = bytes "0") then 0 else old in
      if bool_decide (k = bytes "autoexit") then (new o.1, o.2)
      else if bool_decide (k = bytes "frame-klog") then (o.1, new o.2)
      else o
  end.

(** A line whose value, if its key is one of the two, is 1 or 0. *)
Definition one_or_zero (line : list Z) : bool :=
  match split_at 61 (drop_tail (uncommented (skip_blanks line))) with
  | None => true
  | Some (k, v) =>
      negb (bool_decide (k = bytes "autoexit") || bool_decide (k = bytes "frame-klog")) ||
      bool_decide (v = bytes "1") || bool_decide (v = bytes "0")
  end.

Lemma option_of_documented o line : one_or_zero line = true -> option_of o line = documented o line.
Proof.
  unfold one_or_zero, option_of, documented. destruct (split_at 61 _) as [[k v]|]; [|done].
  destruct (bool_decide (k = bytes "autoexit")), (bool_decide (k = bytes "frame-klog")),
    (bool_decide (v = bytes "1")), (bool_decide (v = bytes "0")); simpl; done.
Qed.

Lemma options_of_documented o text :
  Forall (fun l => one_or_zero l = true) (split_lines text) -> options_of o text = foldl documented o (split_lines text).
Proof.
  unfold options_of. intros H. revert o. induction H as [|l ls Hl _ IH]; intros o; [done|]. simpl.
  by rewrite (option_of_documented _ _ Hl).
Qed.

(** C28: The run configuration is read in full, in bounds and as documented:
    for a file whose first 511 bytes the system delivers, the two options
    afterwards are what its lines say one after the other.  Blanks in front, a
    comment and blanks or a carriage return behind are dropped, only a whole
    key counts, and the value 1 turns its option on and 0 turns it off.  (For
    files that give the two options no other value; the code does not leave
    an option alone for another value, see the findings.) *)
Theorem readRunConfig_correct H fuel s data :
  (512 < fuel)%nat ->
  let fd := open_of H (hist s) in
  let s1 := log s (Open RunCfgPath fd) in
  0 <= fd -> read_of H (hist s1) = (zlen data, data) -> zlen data <= 511 ->
  Forall (fun l => one_or_zero l = true) (split_lines (text_of data)) ->
  exists s', readRunConfig H fuel s = Ok s' /\
    (s_autoexit s', s_frameKlog s') = foldl documented (s_autoexit s, s_frameKlog s) (split_lines (text_of data)) /\
    hist s' = hist s ++ [Open RunCfgPath fd; Read fd 511 (zlen data); Close fd].
Proof.
  intros Hfuel fd s1 Hfd Hrd Hlen Hdoc. rewrite <- options_of_documented by done. unfold readRunConfig. fold fd s1. rewrite (proj2 (Z.ltb_ge fd 0)) by done.
  rewrite Hrd. unfold cfg_len. rewrite (proj2 (Z.ltb_lt (zlen data) 512)) by lia.
  set (b := write (array_of 512 0) 16 data).
  assert (array b 16 data) as Ha by apply array_write.
  assert (mapped b 16 512) as Hm by (by apply mapped_write, array_of_mapped).
  rewrite st_ok by (apply Hm; lia). rewrite bind_ok.
  assert (zstr (<[16 + zlen data := 0]> b) 16 (text_of data)) as Hz.
  { apply zstr_text_of; [apply array_insert_out; [lia|done]|by rewrite lookup_insert_eq]. }
  pose proof (text_of_length data) as Htl.
  destruct (apply_lines_ok fuel fuel _ (s_autoexit s, s_frameKlog s) 16 _ Hz) as (m' & Hl); [lia..|].
  unfold apply_lines. simpl s_autoexit. simpl s_frameKlog. rewrite Hl, bind_ok.
  eexists. split; [done|]. cbn. split; [by destruct (options_of _ _)|]. by rewrite <- !app_assoc.
Qed.

(** Without a file, or when the read fails (a negative code is a huge
    [size_t]), the options stay. *)
Theorem readRunConfig_absent H fuel s :
  (512 < fuel)%nat ->
  let fd := open_of H (hist s) in
  fd < 0 \/ (exists got, read_of H (hist (log s (Open RunCfgPath fd))) = (got, []) /\ 512 <= got) ->
  exists s', readRunConfig H fuel s = Ok s' /\ (s_autoexit s', s_frameKlog s') = (s_autoexit s, s_frameKlog s).
Proof.
  intros Hfuel fd Hcase. unfold readRunConfig. fold fd. destruct (fd <? 0) eqn:Hfd; [by eexists|].
  destruct Hcase as [|(got & Hrd & Hgot)]; [lia|]. rewrite Hrd. unfold cfg_len.
  rewrite (proj2 (Z.ltb_ge got 512)) by done. cbn [write].
  assert (mapped (array_of 512 0) 16 512) as Hm by (by apply array_of_mapped).
  rewrite st_ok by (apply Hm; lia). rewrite bind_ok. destruct fuel as [|fuel]; [lia|].
  unfold apply_lines. rewrite loop_step. rewrite (ld_ok _ _ 0) by apply lookup_insert_eq.
  rewrite !bind_ok. by eexists.
Qed.

(** "Anything else leaves the option alone" is not so: a value that is not 1
    turns the option off. *)
Example other_value_turns_off : options_of (1, 0) (bytes "autoexit=yes") = (0, 0).
Proof. reflexivity. Qed.

Example spaces_around_equals : options_of (0, 0) (bytes "autoexit = 1") = (0, 0).
Proof. reflexivity. Qed.

(** ** Termination policy *)

Lemma dec_ok v : 0 <= v -> text_ok (dec v).
Proof.
  unfold dec. generalize 20%nat as f. intros f. revert v. induction f as [|f IH]; intros v Hv; [constructor|]. cbn [dec_go].
  apply Forall_app. split.
  - destruct (v <? 10); [constructor|]. apply IH. apply Z.div_pos; lia.
  - constructor; [|constructor]. pose proof (Z.mod_pos_bound v 10). lia.
Qed.

Lemma bytes_ok_app a b : text_ok a -> text_ok b -> text_ok (a ++ b).
Proof. intros. by apply Forall_app. Qed.

Lemma idle_round_ok s sec :
  text_ok (s_app s) -> 0 <= sec ->
  exists es, idle_round s sec = Ok (logged s (Usleep 5000000 :: es), u32 (sec + 5)) /\ es <> [].
Proof.
  intros Ha Hs. unfold idle_round.
  assert (text_ok (bytes "idle " ++ dec sec ++ bytes "s")) as Ht.
  { apply bytes_ok_app; [by repeat constructor|]. apply bytes_ok_app; [by apply dec_ok|by repeat constructor]. }
  change (ps4_log_frame (log s (Usleep (5 * 1000 * 1000)))) with (ps4_vlog (log s (Usleep (5 * 1000 * 1000)))).
  rewrite (ps4_vlog_ok (log s (Usleep (5 * 1000 * 1000))) _ Ha Ht).
  rewrite bind_ok. eexists. split; [done|apply carried_some].
Qed.

(** [ps4_idle_forever] returns exactly when the run configuration asks for
    it.  Otherwise it never does: every five seconds one more line goes out,
    however long it runs. *)
Theorem ps4_idle_forever_correct fuel s what :
  text_ok (s_app s) -> text_ok what ->
  (s_autoexit s <> 0 -> exists s', ps4_idle_forever fuel s what = Ok s') /\
  (s_autoexit s = 0 -> ps4_idle_forever fuel s what = OutOfFuel).
Proof.
  intros Ha Hw. unfold ps4_idle_forever. split; intros Hx.
  - rewrite (proj2 (Z.eqb_neq _ 0) Hx). cbn [negb].
    assert (text_ok (what ++ bytes " - returning from main (run-cfg autoexit=1)")) as Ht
      by (apply bytes_ok_app; [done|by repeat constructor]).
    unfold ps4_log. rewrite (ps4_vlog_ok s _ Ha Ht). by eexists.
  - rewrite (proj2 (Z.eqb_eq _ 0) Hx). cbn [negb].
    assert (text_ok (what ++ bytes " - idle, close the title with the PS button")) as Ht
      by (apply bytes_ok_app; [done|by repeat constructor]).
    unfold ps4_log. rewrite (ps4_vlog_ok s _ Ha Ht), bind_ok.
    set (s0 := logged s _). assert (text_ok (s_app s0)) as Ha0 by (unfold s0; by rewrite logged_app). clearbody s0.
    assert (0 <= 5) as H5 by lia. revert H5. generalize 5. clear - Ha0. revert s0 Ha0.
    induction fuel as [|fuel IH]; intros s0 Ha0 sec Hsec; [done|]. rewrite loop_step.
    destruct (idle_round_ok s0 sec Ha0 Hsec) as (es & -> & _). rewrite !bind_ok. apply IH.
    + by rewrite logged_app.
    + apply Z.mod_pos_bound. lia.
Qed.

(** ** Sockets *)

Definition open_sockets (es : list event) : list Z :=
  foldl (fun open e => match e with
                       | NetSocket r => if r <? 0 then open else r :: open
                       | SocketClose k => match open with x :: open' => if x =? k then open' else open | [] => [] end
                       | _ => open
                       end) [] es.

Inductive net_op := NInit | NLog (text : option (list Z)) | NClose.

Definition net_step (H : host) (s : app) (op : net_op) : outcome app :=
  match op with
  | NInit => orbis_netlog_init H s
  | NLog t => orbis_netlog s t
  | NClose => Ok (orbis_netlog_close s)
  end.

Fixpoint net_run (H : host) (s : app) (ops : list net_op) : outcome app :=
  match ops with [] => Ok s | op :: ops => s ← net_step H s op; net_run H s ops end.

Definition sockets_ok (s : app) : Prop :=
  open_sockets (hist s) = (if s_sock s <? 0 then [] else [s_sock s]).

Lemma open_sockets_snoc es e : open_sockets (es ++ [e]) =
  match e with
  | NetSocket r => if r <? 0 then open_sockets es else r :: open_sockets es
  | SocketClose k => match open_sockets es with x :: o => if x =? k then o else open_sockets es | [] => [] end
  | _ => open_sockets es
  end.
Proof. unfold open_sockets. by rewrite foldl_app. Qed.

Lemma net_step_ok H s op : sockets_ok s -> exists s', net_step H s op = Ok s' /\ sockets_ok s'.
Proof.
  unfold sockets_ok. intros Hs. destruct op as [|t|]; simpl.
  - unfold orbis_netlog_init. destruct (0 <=? s_sock s) eqn:Hk; [by eexists|].
    rewrite (proj2 (Z.ltb_lt (s_sock s) 0)) in Hs by lia.
    set (r := socket_of H (hist (log s NetInit))).
    assert (open_sockets ((hist s ++ [NetInit]) ++ [NetSocket r]) = if r <? 0 then [] else [r]) as Ho.
    { rewrite !open_sockets_snoc, Hs. done. }
    destruct (r <? 0) eqn:Hr; [eexists; split; [done|exact Ho]|].
    destruct (pton_of H _) as [rc addr]. destruct (negb (rc =? 1)).
    + eexists. split; [done|]. simpl. rewrite open_sockets_snoc, Ho. by rewrite Z.eqb_refl.
    + rewrite orbis_netlog_ok. simpl. rewrite Hr. eexists. split; [done|]. simpl.
      rewrite Hr, open_sockets_snoc. exact Ho.
  - destruct t as [t|].
    2: { assert (orbis_netlog s None = Ok s) as -> by (unfold orbis_netlog; by destruct (s_sock s <? 0)). by exists s. }
    rewrite orbis_netlog_ok. destruct (s_sock s <? 0) eqn:Hk; eexists; (split; [done|]); simpl;
      rewrite Hk; [done|]. by rewrite open_sockets_snoc.
  - unfold orbis_netlog_close. destruct (s_sock s <? 0) eqn:Hk; eexists; (split; [done|]); simpl; [by rewrite Hk|].
    rewrite open_sockets_snoc, Hs. by rewrite Z.eqb_refl.
Qed.

(** Whatever is called in whatever order, and whatever the system refuses, the
    socket that is open is the one the log holds, and there is none when the
    log is down: a failed initialization closes what it opened, a repeated
    one opens nothing. *)
Theorem netlog_sockets H ops :
  exists s, net_run H initial ops = Ok s /\
    open_sockets (hist s) = (if orbis_netlog_ready s then [s_sock s] else []).
Proof.
  enough (forall s, sockets_ok s -> exists s', net_run H s ops = Ok s' /\ sockets_ok s') as Hrun.
  { destruct (Hrun initial eq_refl) as (s & Hs & Hok). exists s. split; [done|]. rewrite Hok.
    unfold orbis_netlog_ready. destruct (s_sock s <? 0) eqn:?, (0 <=? s_sock s) eqn:?; done || lia. }
  induction ops as [|op ops IH]; intros s Hs; [by eexists|]. simpl.
  destruct (net_step_ok H s op Hs) as (s1 & -> & Hs1). rewrite bind_ok. by apply IH.
Qed.

(** ** Concrete runs *)

(** A system that delivers a configuration file and has a network. *)
Definition demo_host : host :=
  mk_host 2 (fun _ => 7) (fun _ => (1, 23)) (fun p => p) (fun _ => 3)
    (fun _ => let cfg := bytes "# a comment" ++ [10] ++ bytes "  autoexit=1  # on" ++ [13; 10] ++ bytes "frame-klog=0" in (zlen cfg, cfg)).

Definition demo_tag : app := set_tag initial (bytes "runner").

(** The network log up, and the kernel's log asked for. *)
Definition demo_asked : app := set_sock (set_options demo_tag (0, 1)) 7 sin_zero.

Lemma ps4_log_carried_witness :
  tagged_text demo_asked (bytes "hello") = bytes "[runner] hello" ++ [10] /\
  ps4_log demo_asked (Some (bytes "hello")) =
    Ok (logged demo_asked [SendTo 7 (bytes "[runner] hello" ++ [10]); DebugOut (bytes "[runner] hello" ++ [10])]).
Proof.
  split; [reflexivity|].
  destruct (ps4_log_carried demo_asked (bytes "hello")) as [H _]; [by repeat constructor..|].
  exact (H eq_refl).
Defined.

Lemma readRunConfig_witness :
  exists s', readRunConfig demo_host 600 demo_tag = Ok s' /\ (s_autoexit s', s_frameKlog s') = (1, 0).
Proof.
  destruct (readRunConfig_correct demo_host 600 demo_tag (read_of demo_host []).2) as (s' & H1 & H2 & _);
    [lia|simpl; lia|reflexivity|vm_compute; discriminate|by vm_compute; repeat constructor|].
  exists s'. split; [exact H1|]. rewrite H2. reflexivity.
Defined.

Lemma ps4_idle_forever_witness : ps4_idle_forever 100 demo_tag (bytes "terminate") = OutOfFuel.
Proof. apply (ps4_idle_forever_correct 100 demo_tag (bytes "terminate")); [by repeat constructor..|reflexivity]. Defined.

(** [main]'s first statement: the kernel's log before anything can fail, the
    configuration before the network, then both lines. *)
Example app_init_events :
  (s ← ps4_app_init demo_host 600 initial (bytes "doom") (bytes "today"); Ok (hist s)) =
  Ok [DebugOut (bytes "[doom] alive - main() entered, built today" ++ [10]);
      Open RunCfgPath 3; Read 3 511 44; Close 3; NetInit; NetSocket 7;
      SendTo 7 (bytes "[tempest] netlog up -> 192.168.100.1:18194" ++ [10]);
      SendTo 7 (bytes "[doom] alive - main() entered, built today" ++ [10]);
      SendTo 7 (bytes "[doom] run-cfg: /app0/ps4-run.cfg read (44 B) - autoexit=1 frame-klog=0" ++ [10])].
Proof. vm_compute. reflexivity. Qed.
