(* ===== verification/Boot.v ===== *)
(** Death reports of signals and exceptions, and the probes at boot:
    [src/orbis_boot.cpp].  A line is its figures; what the kernel says of an
    address, the carve-outs of [Mmap], the readable memory and the unwinder's
    frames are parameters.  The signal handler is what it stores and reports, in
    order ([instr]); a [process] runs the handlers of the signals that arrive, a
    step at a time, each may be cut off by the next. *)
From Stdlib Require Import String.
From stdpp Require Import prelude gmap list numbers strings.
From S2P Require Import Prelude Memory Report Backtrace Mmap MmapBlocks MmapRun Shims.
Open Scope Z_scope.

Module Boot.

(** What [sceKernelVirtualQuery] writes. *)
Record vquery := mk_vq {
  vq_start : Z; vq_end : Z; vq_prot : Z;
  vq_direct : bool; vq_flexible : bool; vq_pooled : bool; vq_stack : bool; vq_committed : bool;
  vq_name : list Z }.

Inductive event :=
  | Unhandled (msg : list Z)
  | Signal (sig : Z) (name : string) (code addr : Z)
  | SignalNoInfo (sig : Z) (name : string) (info : Z)
  | Frames (first last : Z) (words : list Z)
  | NoFrames (n : Z)
  | Registers (rip rsp addr : Z)
  | Trap (trapno err rflags mc : Z)
  | NoPair (words : Z)
  | Mismatch (mc mc_addr si_addr : Z)
  | Raw (base : Z) (words : list Z)
  | NotMapped (what : string) (p : Z)
  | Mapping (what : string) (p lo hi prot : Z) (rwx : list Z) (pool : string) (committed : bool) (name : list Z)
  | CarveBlock (what : string) (index base offset : Z) (used : bool) (kib at_ : Z)
  | CarveNoBlock (what : string) (index base offset : Z)
  | CodeRow (row : Z) (here : bool) (text : list Z)
  | Action (what : string)
  | Exit (code : Z).

(** ** Exceptions *)

Inductive exn_class := system_error | runtime_error | logic_error | bad_alloc | std_exception.
#[global] Instance exn_class_eq_dec : EqDecision exn_class.
Proof. solve_decision. Defined.

(** An exception is of several classes; [what] is its text. *)
Record exn := mk_exn { classes : list exn_class; what : list Z }.

Definition msg_len : Z := 512.

Definition says (name : string) (e : exn) : list Z := truncate msg_len (bytes name ++ bytes "(" ++ what e ++ bytes ")").

(** The last clause prints in two steps. *)
Definition says_exception (e : exn) : list Z :=
  let msg := truncate msg_len (bytes "std::exception(") in
  msg ++ truncate (msg_len - zlen msg) (what e ++ bytes ")").

Definition is_a (e : exn) (c : exn_class) : bool := bool_decide (c ∈ classes e).

(** [None]: no active exception. *)
Definition terminate_message (e : option exn) : list Z :=
  match e with
  | None => bytes "std::terminate with no active exception"
  | Some e =>
      if is_a e system_error then says "std::system_error" e
      else if is_a e runtime_error then says "std::runtime_error" e
      else if is_a e logic_error then says "std::logic_error" e
      else if is_a e bad_alloc then says "std::bad_alloc" e
      else if is_a e std_exception then says_exception e
      else bytes "a non-std exception"
  end.

Definition ps4TerminateHandler (e : option exn) : list event :=
  [Unhandled (terminate_message e); Action "terminate"; Exit 1].

(** ** Signals *)

(** The SDK's numbers of the five signals. *)
Record signals := mk_signals { SIGSEGV : Z; SIGBUS : Z; SIGFPE : Z; SIGILL : Z; SIGABRT : Z }.

Definition signalName (S : signals) (sig : Z) : string :=
  if sig =? SIGSEGV S then "SIGSEGV (bad address)"
  else if sig =? SIGBUS S then "SIGBUS (unaligned or unmapped)"
  else if sig =? SIGFPE S then "SIGFPE"
  else if sig =? SIGILL S then "SIGILL (illegal instruction)"
  else if sig =? SIGABRT S then "SIGABRT"
  else "?".

Fixpoint cstr (s : list Z) : list Z := match s with [] => [] | x :: r => if x =? 0 then [] else x :: cstr r end.

Section handler.
Context (S : signals) (query : Z -> option vquery) (heap : mm) (code : mem) (frames_of : list Z).

Definition flag (prot bit c : Z) : Z := if negb (Z.land prot bit =? 0) then c else 45.

Definition describeAddress (what : string) (p : Z) : list event :=
  match query p with
  | None => [NotMapped what p]
  | Some vq =>
      let prot := vq_prot vq in
      let rwx := [flag prot 1 114; flag prot 2 119; flag prot 4 120] in
      let pool := if vq_direct vq then "direct" else if vq_flexible vq then "flexible"
                  else if vq_pooled vq then "pooled" else if vq_stack vq then "stack" else "other" in
      Mapping what p (vq_start vq) (vq_end vq) (u32 prot) rwx pool (vq_committed vq) (cstr (vq_name vq))
      :: match mmapDirectDescribe heap p with
         | None => []
         | Some d =>
             if ms_found d then
               [CarveBlock what (ms_index d) (ms_base d) (ms_offset d) (ms_used d) (ms_bsize d / 1024) (ms_off d)]
             else [CarveNoBlock what (ms_index d) (ms_base d) (ms_offset d)]
         end
  end%string.

(** [%02x ] *)
Definition hex2 (x : Z) : list Z := [digit (Z.land (Z.shiftr x 4) 15); digit (Z.land x 15); 32].
Definition row_len : Z := 3 * 16 + 1.

Definition row_text (fuel : nat) (row to : Z) : outcome (list Z) :=
  '(_, line, k) ← while fuel
    (fun '(b, line, k) => Ok ((b <? to) && (b <? row + 16)))
    (fun '(b, line, k) => x ← ld code b; Ok (b + 1, line ++ truncate (row_len - k) (hex2 x), k + 3))
    (row, [], 0);
  Ok (if 0 <? k then take (Z.to_nat (k - 1)) line else line).

Definition dumpCodeAt (fuel : nat) (p : Z) : outcome (list event) :=
  match query p with
  | None => Ok []
  | Some vq =>
      if negb (vq_committed vq) || (Z.land (vq_prot vq) 1 =? 0) then Ok [] else
      let lo := vq_start vq in
      let hi := vq_end vq in
      if (p <? lo) || (hi <=? p) then Ok [] else
      let from := if 16 <=? p - lo then p - 16 else lo in
      let to := if 16 <? hi - p then p + 16 else hi in
      loop fuel (fun '(row, es) =>
        if row <? to then
          text ← row_text fuel row to;
          Ok (inl (row + 16, es ++ [CodeRow row ((row <=? p) && (p <? row + 16)) text]))
        else Ok (inr es)) (from, [])
  end.

(** The array of frames, and its lines of four. *)
Definition kFrames : Z := 24.
Definition frames_buf : mem := write ∅ 16 (replicate 24 0).

Definition frame_lines (fuel : nat) (m : mem) (n : Z) : outcome (list event) :=
  loop fuel (fun '(i, es) =>
    if i <? n then
      let r := if n - i <? 4 then n - i else 4 in
      let word j := if j <? r then ld m (16 + i + j) else Ok 0 in
      a ← word 0; b ← word 1; c ← word 2; d ← word 3;
      Ok (inl (i + 4, es ++ [Frames i (i + r - 1) [a; b; c; d]]))
    else Ok (inr es)) (0, []).

Definition frames_report (fuel : nat) : outcome (list event) :=
  '(m, n) ← backtrace frames_buf frames_of 16 kFrames;
  if 0 <? n then frame_lines fuel m n else Ok [NoFrames n].

Definition MC_TRAPNO : Z := 16.
Definition MC_ADDR : Z := 17.
Definition MC_ERR : Z := 19.
Definition MC_RIP : Z := 20.
Definition MC_CS : Z := 21.
Definition MC_RFLAGS : Z := 22.
Definition MC_RSP : Z := 23.
Definition MC_SS : Z := 24.
Definition ctx_words : Z := 96.

(** The words of the context. *)
Definition word (w : list Z) (i : Z) : outcome Z :=
  if i <? 0 then Fault else match w !! Z.to_nat i with Some x => Ok x | None => Fault end.

Definition find_mc (fuel : nat) (w : list Z) : outcome Z :=
  loop fuel (fun i =>
    if i + (MC_SS - MC_CS) <? ctx_words then
      a ← word w i;
      found ← (if a =? 0x43 then (b ← word w (i + (MC_SS - MC_CS)); Ok (b =? 0x3b)) else Ok false);
      Ok (if found : bool then inr (i - MC_CS) else inl (i + 1))
    else Ok (inr (-1))) MC_CS.

Definition raw_words (fuel : nat) (w : list Z) : outcome (list event) :=
  loop fuel (fun '(base, es) =>
    if base <? 64 then
      a ← word w (base + 0); b ← word w (base + 1); c ← word w (base + 2); d ← word w (base + 3);
      Ok (inl (base + 4, es ++ [Raw base [a; b; c; d]]))
    else Ok (inr es)) (0, []).

(** [si]: the faulting address when [info] is a pointer. *)
Definition context_report (fuel : nat) (si : option Z) (w : list Z) : outcome (list event) :=
  mc ← find_mc fuel w;
  agrees ← (if 0 <=? mc then
              match si with
              | Some addr => x ← word w (mc + MC_ADDR); Ok (x =? addr)
              | None => Ok false
              end
            else Ok false);
  if (0 <=? mc) && ((agrees : bool) || bool_decide (si = None)) then
    rip ← word w (mc + MC_RIP); rsp ← word w (mc + MC_RSP); addr ← word w (mc + MC_ADDR);
    trapno ← word w (mc + MC_TRAPNO); err ← word w (mc + MC_ERR); rflags ← word w (mc + MC_RFLAGS);
    let about := describeAddress "rip" rip ++ (if negb (addr =? 0) then describeAddress "addr" addr else []) in
    bytes_at ← dumpCodeAt fuel rip;
    Ok ([Registers rip rsp addr; Trap (Z.land trapno 0xffffffff) err rflags mc] ++ about ++ bytes_at)
  else
    why ← (if mc <? 0 then Ok (NoPair ctx_words)
           else (x ← word w (mc + MC_ADDR); Ok (Mismatch mc x (default 0 si))));
    raw ← raw_words fuel w;
    Ok (why :: raw).

(** [info_at]: [si_code] and [si_addr] behind a pointer; the context is [None]
    for a null pointer; [reentered] is the handler's static.  What the handler
    stores and reports, in order. *)
Inductive instr := SetReentered (v : Z) | Report (e : event).

Definition ps4SignalAction (fuel : nat) (reentered sig info : Z) (info_at : Z -> option (Z * Z)) (uctx : option (list Z))
    : outcome (list instr) :=
  if negb (reentered =? 0) then Ok [Report (Exit 2)] else
  let info_is_pointer := 0x4000 <=? info in
  si ← (if info_is_pointer then match info_at info with Some x => Ok (Some x) | None => Fault end else Ok None);
  let first := match si with
               | Some (c, a) => Signal sig (signalName S sig) c a
               | None => SignalNoInfo sig (signalName S sig) info
               end in
  fr ← frames_report fuel;
  ctx ← match uctx with Some w => context_report fuel (snd <$> si) w | None => Ok [] end;
  Ok (SetReentered 1 :: map Report (first :: fr ++ ctx ++ [Action "signal"; Exit 2])).

End handler.

(** ** Signals that arrive while a handler runs *)

(** A signal, with what the kernel, the carve-outs, the memory and the
    unwinder say when it arrives. *)
Record arrival := mk_arrival {
  ar_query : Z -> option vquery; ar_heap : mm; ar_code : mem; ar_frames : list Z;
  ar_sig : Z; ar_info : Z; ar_info_at : Z -> option (Z * Z); ar_uctx : option (list Z) }.

Definition handler_of (S : signals) (fuel : nat) (reentered : Z) (a : arrival) : outcome (list instr) :=
  ps4SignalAction S (ar_query a) (ar_heap a) (ar_code a) (ar_frames a) fuel reentered (ar_sig a) (ar_info a) (ar_info_at a) (ar_uctx a).

(** The process: the static, the handlers that have been entered with what is
    left of each, what was reported, and whether the process has ended. *)
Record process := mk_process { p_reentered : Z; p_handlers : list (list instr); p_out : list event; p_ended : bool }.

Definition alive : process := mk_process 0 [] [] false.

Definition is_exit (e : event) : bool := match e with Exit _ => true | _ => false end.

Definition exec (p : process) (i : nat) (ins : instr) (rest : list instr) : process :=
  match ins with
  | SetReentered v => mk_process v (<[i := rest]> (p_handlers p)) (p_out p) (p_ended p)
  | Report e => mk_process (p_reentered p) (<[i := rest]> (p_handlers p)) (p_out p ++ [e]) (is_exit e)
  end.

(** A signal arrives, on any thread, or some handler goes on. *)
Inductive signal_act := Arrive (a : arrival) | Go (i : nat).

Definition signal_step (S : signals) (fuel : nat) (p : process) (act : signal_act) : option process :=
  if p_ended p then None else
  match act with
  | Arrive a =>
      match handler_of S fuel (p_reentered p) a with
      | Ok h => Some (mk_process (p_reentered p) (p_handlers p ++ [h]) (p_out p) false)
      | _ => None
      end
  | Go i =>
      match p_handlers p !! i with
      | Some (ins :: rest) => Some (exec p i ins rest)
      | _ => None
      end
  end.

Fixpoint signal_run (S : signals) (fuel : nat) (p : process) (acts : list signal_act) : option process :=
  match acts with [] => Some p | a :: r => p ← signal_step S fuel p a; signal_run S fuel p r end.

(** ** Probes at boot *)

(** [tolower] and [toupper] are the C library's. *)
Definition folds (tolower toupper : Z -> Z) : bool :=
  (tolower 65 =? 97) && (tolower 90 =? 122) && (toupper 97 =? 65) && (toupper 122 =? 90).

Definition shown (c : Z) : Z := if (32 <=? c) && (c <? 127) then c else 63.

Record ctype_report := mk_ctype {
  ct_results : list (Z * Z); ct_isspace : Z; ct_locale : list Z; ct_folds : bool }.

Definition probeCtype (tolower toupper isspace : Z -> Z) (loc : option (list Z)) : ctype_report :=
  let la := tolower 65 in let lz := tolower 90 in let ua := toupper 97 in let uz := toupper 122 in
  mk_ctype [(la, shown la); (lz, shown lz); (ua, shown ua); (uz, shown uz)]
    (if negb (isspace 32 =? 0) then 1 else 0) (default (bytes "(null)") loc) (folds tolower toupper).

Definition bsdErrnoName (e : Z) : string :=
  if e =? 0 then "no error"
  else if e =? 1 then "EPERM - already running on the alternate stack"
  else if e =? 12 then "ENOMEM - ss_size below MINSIGSTKSZ"
  else if e =? 14 then "EFAULT - the kernel could not read the stack_t we passed"
  else if e =? 22 then "EINVAL - a bit set in ss_flags that is not SS_DISABLE"
  else if e =? 78 then "ENOSYS - the kernel does not implement this call at all"
  else "not in this file's table - decode against FreeBSD's errno.h, NOT Linux's".

Inductive order := AllZero | FreeBSDOrder | LinuxOrder | NeitherFits.

Definition alt_size : Z := 64 * 1024.

Definition field_order (w0 w1 w2 : Z) : order :=
  let bsdOrder := (w2 <=? 7) && ((w1 =? 0) || (w1 =? alt_size)) in
  let linOrder := (w1 <=? 7) && ((w2 =? 0) || (w2 =? alt_size)) in
  if (w0 =? 0) && (w1 =? 0) && (w2 =? 0) then AllZero
  else if bsdOrder && negb linOrder then FreeBSDOrder
  else if linOrder && negb bsdOrder then LinuxOrder
  else NeitherFits.

Inductive boot_event :=
  | SetTerminate
  | AltStack (given : list Z)
  | AltQuery
  | SetHandler (sig : Z)
  | Installed (segvRc altRc altErr : Z) (covered : bool)
  | Readback (rc err w0 w1 w2 : Z) (what : order)
  | Legacy (rc err : Z).

(** The kernel's [sigaltstack] by the number of the call: its code, [errno]
    and, for the query, the three words it writes; [sp]: what [new] returns. *)
Definition installCrashHandlers (S : signals) (kernel : nat -> option (list Z) -> Z * Z * (Z * Z * Z)) (sp segvRc : Z)
    : list boot_event :=
  let alt := bsd_bytes (mk_bsd sp alt_size 0 0) in
  let '(altRc, altErr, _) := kernel 0%nat (Some alt) in
  let legacy := sdk_bytes (mk_stack sp 0 alt_size) in
  let '(legacyRc, legacyErr, _) := if negb (altRc =? 0) then kernel 1%nat (Some legacy) else (0, 0, (0, 0, 0)) in
  let '(backRc, backErr, (w0, w1, w2)) := kernel 2%nat None in
  [SetTerminate; AltStack alt] ++ (if negb (altRc =? 0) then [AltStack legacy] else []) ++
  [AltQuery; SetHandler (SIGSEGV S); SetHandler (SIGBUS S); SetHandler (SIGFPE S); SetHandler (SIGILL S);
   SetHandler (SIGABRT S); Installed segvRc altRc altErr (altRc =? 0);
   Readback backRc backErr w0 w1 w2 (field_order w0 w1 w2)] ++
  (if negb (altRc =? 0) then [Legacy legacyRc legacyErr] else []).

End Boot.
Export Boot.

(** ** Code bytes *)

(** The bytes of a row as it is printed: two digits each, single spaces. *)
Fixpoint hex_row (xs : list Z) : list Z :=
  match xs with
  | [] => []
  | x :: xs => take 2 (hex2 x) ++ (match xs with [] => [] | _ => 32 :: hex_row xs end)
  end.

Definition hex_all (xs : list Z) : list Z := concat (map hex2 xs).

Lemma hex_all_length xs : length (hex_all xs) = (3 * length xs)%nat.
Proof. induction xs as [|x xs IH]; [done|]. unfold hex_all in *. cbn [map concat]. rewrite length_app, IH. simpl. lia. Qed.

Lemma hex_all_snoc xs x : hex_all (xs ++ [x]) = hex_all xs ++ hex2 x.
Proof. unfold hex_all. rewrite map_app, concat_app. cbn [map concat]. by rewrite app_nil_r. Qed.

Lemma hex_row_all xs : take (length (hex_all xs) - 1) (hex_all xs) = hex_row xs.
Proof.
  induction xs as [|x [|y xs] IH]; [done|done|].
  change (hex_all (x :: y :: xs)) with (hex2 x ++ hex_all (y :: xs)).
  rewrite length_app. assert (length (hex_all (y :: xs)) = 3 * S (length xs))%nat as Hl by apply hex_all_length.
  rewrite take_app_ge by (simpl; lia). change (hex_row (x :: y :: xs)) with (take 2 (hex2 x) ++ 32 :: hex_row (y :: xs)).
  rewrite <- IH. replace (length (hex2 x) + length (hex_all (y :: xs)) - 1 - length (hex2 x))%nat
    with (length (hex_all (y :: xs)) - 1)%nat by (simpl; lia). done.
Qed.

Lemma row_text_ok code fuel row to ys :
  (16 < fuel)%nat -> array code row ys -> 0 < zlen ys -> zlen ys = Z.min 16 (to - row) ->
  row_text code fuel row to = Ok (hex_row ys).
Proof.
  intros Hf Ha Hpos Hlen. unfold row_text.
  assert (forall n done_ rest, ys = done_ ++ rest -> (length rest < n)%nat ->
    while n (fun '(b, line, k) => Ok ((b <? to) && (b <? row + 16)))
      (fun '(b, line, k) => x ← ld code b; Ok (b + 1, line ++ truncate (row_len - k) (hex2 x), k + 3))
      (row + zlen done_, hex_all done_, 3 * zlen done_) = Ok (row + zlen ys, hex_all ys, 3 * zlen ys)) as Hloop.
  { intros n. induction n as [|n IH]; intros done_ rest Hys Hn; [lia|].
    pose proof (f_equal length Hys) as Hl. rewrite length_app in Hl.
    destruct rest as [|x rest].
    - rewrite app_nil_r in Hys. subst done_. rewrite while_stop; [done|]. f_equal. lia.
    - assert (ld code (row + zlen done_) = Ok x) as Hld.
      { apply ld_ok. rewrite Hys in Ha. apply array_app in Ha as [_ Ha]. by apply array_cons in Ha as [? _]. }
      cbn [length] in Hl. rewrite (while_go _ _ _ _ (row + zlen (done_ ++ [x]), hex_all (done_ ++ [x]), 3 * zlen (done_ ++ [x]))).
      + apply (IH (done_ ++ [x]) rest); [by rewrite <- app_assoc|simpl in Hn; lia].
      + f_equal. lia.
      + rewrite Hld, bind_ok, hex_all_snoc, length_app. cbn [length]. unfold truncate, row_len.
        rewrite take_ge by (simpl; lia). do 3 f_equal; lia. }
  specialize (Hloop fuel [] ys eq_refl ltac:(lia)). rewrite Z.add_0_r, Z.mul_0_r in Hloop.
  change (hex_all []) with (@nil Z) in Hloop. rewrite Hloop, bind_ok.
  rewrite (proj2 (Z.ltb_lt 0 _)) by lia. f_equal. rewrite <- hex_row_all, hex_all_length. f_equal. lia.
Qed.

(** The bytes of memory from [a] up to [b]. *)
Definition cells (code : mem) (a b : Z) : list Z := map (fun i => default 0 (code !! (a + Z.of_nat i))) (seq 0 (Z.to_nat (b - a))).

Lemma cells_length code a b : length (cells code a b) = Z.to_nat (b - a).
Proof. unfold cells. by rewrite length_map, length_seq. Qed.

Lemma cells_array code a b lo n : mapped code lo n -> lo <= a -> b <= lo + n -> array code a (cells code a b).
Proof.
  intros Hm Ha Hb i x Hx. unfold cells in Hx. rewrite list_lookup_fmap in Hx.
  destruct (seq 0 (Z.to_nat (b - a)) !! i) as [j|] eqn:Hj; [|done]. apply lookup_seq in Hj as [-> Hj].
  injection Hx as <-. destruct (Hm (a + Z.of_nat i) ltac:(lia)) as [v Hv]. by rewrite Hv.
Qed.

(** The mapping an address is in, when the kernel says it can be read. *)
Definition readable (query : Z -> option vquery) (p : Z) : option (Z * Z) :=
  match query p with
  | Some vq => if vq_committed vq && negb (Z.land (vq_prot vq) 1 =? 0) && (vq_start vq <=? p) && (p <? vq_end vq)
               then Some (vq_start vq, vq_end vq) else None
  | None => None
  end.

(** The kernel's answers are true of the memory. *)
Definition truthful (query : Z -> option vquery) (code : mem) : Prop :=
  forall p lo hi, readable query p = Some (lo, hi) -> mapped code lo (hi - lo).

Definition code_row (code : mem) (p row to : Z) : event :=
  CodeRow row ((row <=? p) && (p <? row + 16)) (hex_row (cells code row (Z.min to (row + 16)))).

(** The rows of the window around an address. *)
Definition code_rows (code : mem) (p lo hi : Z) : list event :=
  let from := Z.max lo (p - 16) in
  let to := Z.min hi (p + 16) in
  code_row code p from to :: if from + 16 <? to then [code_row code p (from + 16) to] else [].

Lemma dumpCodeAt_rows query code fuel p :
  (16 < fuel)%nat -> truthful query code ->
  dumpCodeAt query code fuel p =
  Ok (match readable query p with Some (lo, hi) => code_rows code p lo hi | None => [] end).
Proof.
  intros Hf Htrue. pose proof (Htrue p) as Hm. unfold dumpCodeAt, readable in *. destruct (query p) as [vq|]; [|done].
  destruct (vq_committed vq); [|done]. destruct (Z.land (vq_prot vq) 1 =? 0); [done|].
  set (lo := vq_start vq) in *. set (hi := vq_end vq) in *. cbn [negb andb orb] in *.
  destruct (lo <=? p) eqn:Hlo; [|by rewrite (proj2 (Z.ltb_lt p lo)) by lia].
  rewrite (proj2 (Z.ltb_ge p lo)) by lia. cbn [orb].
  destruct (p <? hi) eqn:Hhi; [|by rewrite (proj2 (Z.leb_le hi p)) by lia].
  rewrite (proj2 (Z.leb_gt hi p)) by lia. specialize (Hm lo hi eq_refl).
  assert ((if 16 <=? p - lo then p - 16 else lo) = Z.max lo (p - 16)) as -> by (destruct (16 <=? p - lo) eqn:?; lia).
  assert ((if 16 <? hi - p then p + 16 else hi) = Z.min hi (p + 16)) as -> by (destruct (16 <? hi - p) eqn:?; lia).
  cbn [andb]. cbv iota. unfold code_rows. set (from := Z.max lo (p - 16)). set (to := Z.min hi (p + 16)).
  assert (forall row, lo <= row -> row < to -> row_text code fuel row to = Ok (hex_row (cells code row (Z.min to (row + 16))))) as Hrow.
  { intros row Hr1 Hr2. apply row_text_ok; [done| |rewrite cells_length; lia|rewrite cells_length; lia].
    eapply cells_array; [exact Hm|lia|lia]. }
  destruct fuel as [|[|[|fuel]]]; try lia. rewrite loop_step, (proj2 (Z.ltb_lt from to)) by lia.
  rewrite Hrow by lia. rewrite !bind_ok. rewrite loop_step.
  destruct (from + 16 <? to) eqn:Hsecond; [|by rewrite bind_ok].
  rewrite Hrow by lia. rewrite !bind_ok, loop_step. by rewrite (proj2 (Z.ltb_ge (from + 16 + 16) to)) by lia.
Qed.

Definition is_here (e : event) : bool := match e with CodeRow _ here _ => here | _ => false end.

(** C30: The dump of the code at an address reads memory only inside a mapping
    the kernel calls committed and readable, so it cannot fault, and prints
    nothing otherwise.  What it prints are the bytes from 16 before to 16
    behind the address, cut to the mapping, in one or two rows; the row that
    holds the address, and no other, is marked. *)
Theorem dumpCodeAt_correct query code fuel p :
  (16 < fuel)%nat -> truthful query code ->
  dumpCodeAt query code fuel p =
    Ok (match readable query p with Some (lo, hi) => code_rows code p lo hi | None => [] end) /\
  (forall lo hi, readable query p = Some (lo, hi) ->
     exists row text, filter is_here (code_rows code p lo hi) =
       [CodeRow row true text] /\ row <= p < row + 16 /\ lo <= row).
Proof.
  intros Hf Htrue. split; [by apply dumpCodeAt_rows|]. intros lo hi Hr.
  assert (lo <= p < hi) as Hp.
  { unfold readable in Hr. destruct (query p) as [vq|]; [|done].
    destruct (vq_committed vq && negb (Z.land (vq_prot vq) 1 =? 0) && (vq_start vq <=? p) && (p <? vq_end vq)) eqn:E; [|done].
    injection Hr as <- <-. lia. }
  unfold code_rows, code_row. set (from := Z.max lo (p - 16)). set (to := Z.min hi (p + 16)).
  assert (from <= p) by lia. rewrite (proj2 (Z.leb_le from p)) by lia. cbn [andb].
  destruct (p <? from + 16) eqn:Hin.
  - eexists from, _. rewrite filter_cons_True by done. split; [|lia].
    destruct (from + 16 <? to); [|by rewrite filter_nil].
    rewrite filter_cons_False; [by rewrite filter_nil|]. rewrite (proj2 (Z.leb_gt (from + 16) p)) by lia. cbn [andb]. simpl. tauto.
  - rewrite filter_cons_False by (simpl; tauto). rewrite (proj2 (Z.ltb_lt (from + 16) to)) by lia.
    eexists (from + 16), _. rewrite (proj2 (Z.leb_le (from + 16) p)), (proj2 (Z.ltb_lt p (from + 16 + 16))) by lia.
    rewrite filter_cons_True by done. rewrite filter_nil. split; [done|lia].
Qed.

(** ** Frames *)

(** Lines of four addresses, the last one padded with zeros. *)
Fixpoint frame_rows (i : Z) (fs : list Z) : list event :=
  match fs with
  | [] => []
  | [a] => [Frames i i [a; 0; 0; 0]]
  | [a; b] => [Frames i (i + 1) [a; b; 0; 0]]
  | [a; b; c] => [Frames i (i + 2) [a; b; c; 0]]
  | a :: b :: c :: d :: fs => Frames i (i + 3) [a; b; c; d] :: frame_rows (i + 4) fs
  end.

Definition frame_body (m : mem) (n : Z) : Z * list event -> outcome (Z * list event + list event) :=
  fun '(i, es) =>
    if i <? n then
      let r := if n - i <? 4 then n - i else 4 in
      let word j := if j <? r then ld m (16 + i + j) else Ok 0 in
      a ← word 0; b ← word 1; c ← word 2; d ← word 3;
      Ok (inl (i + 4, es ++ [Frames i (i + r - 1) [a; b; c; d]]))
    else Ok (inr es).

(** One line, from the addresses that are left. *)
Lemma frame_body_ok m i fs es :
  array m (16 + i) fs -> fs <> [] ->
  exists ws, frame_body m (i + zlen fs) (i, es) = Ok (inl (i + 4, es ++ ws)) /\
    frame_rows i fs = ws ++ frame_rows (i + 4) (drop 4 fs).
Proof.
  intros Ha Hne. unfold frame_body. assert (0 < zlen fs) by (destruct fs; simpl; [done|lia]).
  rewrite (proj2 (Z.ltb_lt i (i + zlen fs))) by lia. replace (i + zlen fs - i) with (zlen fs) by lia.
  assert (forall j x, 0 <= j -> fs !! Z.to_nat j = Some x -> ld m (16 + i + j) = Ok x) as Hld.
  { intros j x Hj Hx. apply ld_ok. apply Ha in Hx. by rewrite Z2Nat.id in Hx. }
  destruct fs as [|a [|b [|c [|d fs]]]]; [done| | | |]; cbn [length] in *.
  - rewrite (Hld 0 a ltac:(done) eq_refl). eexists [_]. split; [|done]. simpl. by replace (i + Z.of_nat 1 - 1) with i by lia.
  - rewrite (Hld 0 a ltac:(done) eq_refl). rewrite (Hld 1 b ltac:(done) eq_refl). eexists [_]. split; [|done]. simpl. by replace (i + Z.of_nat 2 - 1) with (i + 1) by lia.
  - rewrite (Hld 0 a ltac:(done) eq_refl). rewrite (Hld 1 b ltac:(done) eq_refl). rewrite (Hld 2 c ltac:(done) eq_refl).
    eexists [_]. split; [|done]. simpl. by replace (i + Z.of_nat 3 - 1) with (i + 2) by lia.
  - assert ((if Z.of_nat (S (S (S (S (length fs))))) <? 4 then Z.of_nat (S (S (S (S (length fs))))) else 4) = 4) as ->.
    { rewrite (proj2 (Z.ltb_ge (Z.of_nat (S (S (S (S (length fs)))))) 4)); [done|]. clear. lia. }
    rewrite (Hld 0 a ltac:(done) eq_refl). rewrite (Hld 1 b ltac:(done) eq_refl).
    rewrite (Hld 2 c ltac:(done) eq_refl). rewrite (Hld 3 d ltac:(done) eq_refl).
    eexists [_]. split; [|done]. simpl. by replace (i + 4 - 1) with (i + 3) by lia.
Qed.

Lemma frame_lines_ok fuel m fs :
  array m 16 fs -> (length fs < fuel)%nat -> frame_lines fuel m (zlen fs) = Ok (frame_rows 0 fs).
Proof.
  intros Ha Hf. unfold frame_lines. fold (frame_body m (zlen fs)).
  enough (forall n i rest es, array m (16 + i) rest -> i + zlen rest = zlen fs \/ (rest = [] /\ zlen fs <= i) ->
    (length rest < n)%nat -> loop n (frame_body m (zlen fs)) (i, es) = Ok (es ++ frame_rows i rest)) as Hloop.
  { by apply (Hloop fuel 0 fs []); [|left|]. }
  intros n. induction n as [|n IH]; intros i rest es Hr Hlen Hn; [lia|]. rewrite loop_step.
  destruct (decide (rest = [])) as [->|Hne].
  - unfold frame_body. rewrite (proj2 (Z.ltb_ge i (zlen fs))) by (cbn [length] in Hlen; lia). simpl. by rewrite app_nil_r.
  - destruct Hlen as [Hlen|[]]; [|done]. destruct (frame_body_ok m i rest es Hr Hne) as (ws & Hb & Hrows).
    rewrite Hlen in Hb. rewrite Hb, bind_ok, Hrows, app_assoc. apply IH.
    + destruct (decide (4 <= length rest)%nat) as [Hge|Hlt].
      * rewrite <- (take_drop 4 rest) in Hr. apply array_app in Hr as [_ Hr]. rewrite length_take_le in Hr by lia.
        by replace (16 + (i + 4)) with (16 + i + Z.of_nat 4) by lia.
      * rewrite drop_ge by lia. apply array_nil.
    + rewrite length_drop. destruct (decide (4 <= length rest)%nat); [left; lia|right]. rewrite drop_ge by lia. split; [done|lia].
    + rewrite length_drop. destruct rest; [done|]. simpl in *. lia.
Qed.

(** What the unwinder gives [backtrace]. *)
Definition frames_kept (ips : list Z) : list Z := take 24 (until_zero (drop 1 ips)).

Lemma frames_report_ok ips fuel :
  (24 < fuel)%nat ->
  frames_report ips fuel = Ok (match frames_kept ips with [] => [NoFrames 0] | fs => frame_rows 0 fs end).
Proof.
  intros Hf. unfold frames_report, backtrace.
  assert (mapped frames_buf 16 24) as Hm by exact (array_mapped _ _ _ (array_write ∅ 16 (replicate 24 0))).
  destruct (orbis_unwind_collect_correct frames_buf ips 16 24 1 ltac:(done) Hm) as [Hc _].
  change (Z.to_nat 24) with 24%nat in Hc. change (Z.to_nat 1) with 1%nat in Hc. fold (frames_kept ips) in Hc.
  unfold kFrames. rewrite Hc, bind_ok. assert (length (frames_kept ips) <= 24)%nat by (unfold frames_kept; rewrite length_take; lia).
  destruct (frames_kept ips) as [|x fs] eqn:Hfs; [done|]. rewrite <- Hfs in *.
  rewrite (proj2 (Z.ltb_lt 0 _)) by (rewrite Hfs; simpl; lia).
  rewrite frame_lines_ok; [|apply array_write|lia]. by rewrite Hfs.
Qed.

(** ** The machine context *)

Definition at_word (w : list Z) (i : Z) : Z := nth (Z.to_nat i) w 0.

(** A pair of user selectors at [i]. *)
Definition selectors (w : list Z) (i : Z) : bool := (at_word w i =? 0x43) && (at_word w (i + 3) =? 0x3b).

Definition first_mc (w : list Z) (mc : Z) : Prop :=
  0 <= mc < 72 /\ selectors w (mc + MC_CS) = true /\ forall j, 0 <= j < mc -> selectors w (j + MC_CS) = false.

Definition no_mc (w : list Z) : Prop := forall j, 0 <= j < 72 -> selectors w (j + MC_CS) = false.

Lemma word_ok w i : 0 <= i < zlen w -> word w i = Ok (at_word w i).
Proof.
  intros Hi. unfold word, at_word. rewrite (proj2 (Z.ltb_ge i 0)) by lia.
  destruct (lookup_lt_is_Some_2 w (Z.to_nat i)) as [x Hx]; [lia|]. rewrite Hx, nth_lookup, Hx. done.
Qed.

Lemma find_mc_ok fuel w :
  (72 < fuel)%nat -> 96 <= zlen w ->
  exists mc, find_mc fuel w = Ok mc /\ (first_mc w mc \/ (mc = -1 /\ no_mc w)).
Proof.
  intros Hf Hw. unfold find_mc, ctx_words. change (MC_SS - MC_CS) with 3.
  match goal with |- context [loop _ ?b _] => set (body := b) end.
  enough (forall n i, 0 <= i <= 72 -> (Z.to_nat (72 - i) < n)%nat -> (forall j, 0 <= j < i -> selectors w (j + MC_CS) = false) ->
    exists mc, loop n body (i + MC_CS) = Ok mc /\ (first_mc w mc \/ (mc = -1 /\ no_mc w))) as H.
  { apply (H fuel 0); [lia|lia|]. intros j Hj. lia. }
  intros n. induction n as [|n IH]; intros i Hi Hn Hno; [lia|]. rewrite loop_step. unfold body at 2. unfold MC_CS in *.
  destruct (i + 21 + 3 <? 96) eqn:Hb.
  2: { exists (-1). split; [done|]. right. split; [done|]. intros j Hj. apply Hno. lia. }
  rewrite (word_ok w (i + 21)) by lia. rewrite bind_ok.
  assert ((found ← (if at_word w (i + 21) =? 67 then b ← word w (i + 21 + 3); Ok (b =? 59) else Ok false);
           Ok (if found : bool then inr (i + 21 - 21) else inl (i + 21 + 1))) =
          Ok (if selectors w (i + 21) then inr (i + 21 - 21) else inl (i + 21 + 1) : Z + Z)) as ->.
  { unfold selectors. destruct (at_word w (i + 21) =? 67); [|done]. rewrite (word_ok w (i + 21 + 3)) by lia. done. }
  rewrite bind_ok. destruct (selectors w (i + 21)) eqn:Hs.
  - exists (i + 21 - 21). split; [done|]. left. replace (i + 21 - 21) with i by lia. split; [lia|]. by split.
  - replace (i + 21 + 1) with (i + 1 + 21) by lia. apply IH; [lia|lia|].
    intros j Hj. destruct (decide (j = i)) as [->|]; [done|]. apply Hno. lia.
Qed.

(** The first 64 words in lines of four. *)
Definition raw_rows (w : list Z) : list event :=
  map (fun k => let b := 4 * Z.of_nat k in Raw b (map (at_word w) [b; b + 1; b + 2; b + 3])) (seq 0 16).

Lemma raw_words_ok fuel w : (16 < fuel)%nat -> 96 <= zlen w -> raw_words fuel w = Ok (raw_rows w).
Proof.
  intros Hf Hw. unfold raw_words. match goal with |- context [loop _ ?b _] => set (body := b) end.
  enough (forall n k es, (k <= 16)%nat -> (16 - k < n)%nat ->
    loop n body (4 * Z.of_nat k, es) = Ok (es ++ map (fun k => let b := 4 * Z.of_nat k in Raw b (map (at_word w) [b; b + 1; b + 2; b + 3])) (seq k (16 - k)))) as H.
  { apply (H fuel 0%nat []); lia. }
  intros n. induction n as [|n IH]; intros k es Hk Hn; [lia|]. rewrite loop_step. unfold body at 2.
  destruct (4 * Z.of_nat k <? 64) eqn:Hb.
  - rewrite !word_ok by lia. rewrite !bind_ok. rewrite Z.add_0_r.
    replace (4 * Z.of_nat k + 4) with (4 * Z.of_nat (S k)) by lia. rewrite IH by lia.
    replace (16 - k)%nat with (S (16 - S k)) by lia. cbn [seq map]. rewrite <- app_assoc. done.
  - replace (16 - k)%nat with 0%nat by lia. simpl. by rewrite app_nil_r.
Qed.

(** ** The handler *)

(** The context is believed when the fault address is where the layout puts
    it, or when there is no fault address to compare. *)
Definition believed (si : option Z) (w : list Z) (mc : Z) : Prop :=
  first_mc w mc /\ match si with Some a => at_word w (mc + MC_ADDR) = a | None => True end.

Definition context_spec (query : Z -> option vquery) (heap : mm) (code : mem) (si : option Z) (w : list Z) (es : list event) : Prop :=
  (exists mc, believed si w mc /\
     let f k := at_word w (mc + k) in
     es = [Registers (f MC_RIP) (f MC_RSP) (f MC_ADDR);
           Trap (Z.land (f MC_TRAPNO) 0xffffffff) (f MC_ERR) (f MC_RFLAGS) mc] ++
          (describeAddress query heap "rip" (f MC_RIP) ++
           (if negb (f MC_ADDR =? 0) then describeAddress query heap "addr" (f MC_ADDR) else [])) ++
          match readable query (f MC_RIP) with
          | Some (lo, hi) => code_rows code (f MC_RIP) lo hi
          | None => []
          end) \/
  (no_mc w /\ es = NoPair 96 :: raw_rows w) \/
  (exists mc a, first_mc w mc /\ si = Some a /\ at_word w (mc + MC_ADDR) <> a /\
     es = Mismatch mc (at_word w (mc + MC_ADDR)) a :: raw_rows w).

Lemma context_report_ok query heap code fuel si w :
  (72 < fuel)%nat -> truthful query code -> 96 <= zlen w ->
  exists es, context_report query heap code fuel si w = Ok es /\ context_spec query heap code si w es.
Proof.
  intros Hf Htrue Hw. unfold context_report.
  destruct (find_mc_ok fuel w Hf Hw) as (mc & -> & [Hmc|[-> Hno]]); rewrite bind_ok.
  - destruct Hmc as (Hr & Hsel & Hfirst).
    assert (forall k, 0 <= k <= 24 -> word w (mc + k) = Ok (at_word w (mc + k))) as Hword by (intros k Hk; apply word_ok; lia).
    rewrite (proj2 (Z.leb_le 0 mc)) by lia. cbn [andb].
    assert (match si with Some addr => x ← word w (mc + MC_ADDR); Ok (x =? addr) | None => Ok false end =
      Ok (match si with Some addr => at_word w (mc + MC_ADDR) =? addr | None => false end)) as ->.
    { destruct si; [|done]. by rewrite Hword. }
    rewrite bind_ok.
    assert (((match si with Some addr => at_word w (mc + MC_ADDR) =? addr | None => false end) || bool_decide (si = None)) =
      match si with Some addr => at_word w (mc + MC_ADDR) =? addr | None => true end) as ->.
    { destruct si; [by rewrite orb_false_r|done]. }
    rewrite !Hword by done. rewrite !bind_ok. rewrite (proj2 (Z.ltb_ge mc 0)) by lia.
    destruct (match si with Some addr => at_word w (mc + MC_ADDR) =? addr | None => true end) eqn:Hb.
    + rewrite dumpCodeAt_rows by (done || lia). rewrite bind_ok. eexists. split; [done|]. left. exists mc.
      split; [|done]. split; [done|]. destruct si; [lia|done].
    + rewrite bind_ok. rewrite raw_words_ok by lia. rewrite bind_ok. eexists. split; [done|]. right. right.
      destruct si as [a|]; [|done]. exists mc, a. split; [by split|]. split; [done|]. split; [lia|done].
  - cbn [Z.leb Z.compare andb Z.ltb]. rewrite bind_ok. cbv iota. rewrite bind_ok.
    rewrite raw_words_ok by lia. rewrite bind_ok. eexists. split; [done|]. right. by left.
Qed.

(** What a handler that was entered first reports. *)
Definition report_spec (S : signals) (query : Z -> option vquery) (heap : mm) (code : mem) (ips : list Z)
    (sig info : Z) (info_at : Z -> option (Z * Z)) (uctx : option (list Z)) (es : list event) : Prop :=
  let si := if 0x4000 <=? info then snd <$> info_at info else None in
  exists first ctx,
    es = first :: match frames_kept ips with [] => [NoFrames 0] | fs => frame_rows 0 fs end
           ++ ctx ++ [Action "signal"; Exit 2] /\
    match uctx with Some w => context_spec query heap code si w ctx | None => ctx = [] end /\
    match (if 0x4000 <=? info then info_at info else None) with
    | Some (c, a) => first = Signal sig (signalName S sig) c a
    | None => first = SignalNoInfo sig (signalName S sig) info
    end.

Lemma signal_report S query heap code ips fuel sig info info_at uctx :
  (72 < fuel)%nat -> truthful query code ->
  (0x4000 <= info -> is_Some (info_at info)) ->
  (forall w, uctx = Some w -> 96 <= zlen w) ->
  exists es, ps4SignalAction S query heap code ips fuel 0 sig info info_at uctx = Ok (SetReentered 1 :: map Report es) /\
    report_spec S query heap code ips sig info info_at uctx es.
Proof.
  intros Hf Htrue Hinfo Hctx. unfold ps4SignalAction, report_spec. cbn [Z.eqb negb]. cbv zeta.
  set (si := if 0x4000 <=? info then snd <$> info_at info else None).
  assert (exists ctx, match uctx with Some w => context_report query heap code fuel si w | None => Ok [] end = Ok ctx /\
    match uctx with Some w => context_spec query heap code si w ctx | None => ctx = [] end) as (ctx & Hc & Hspec).
  { destruct uctx as [w|]; [|by eexists]. apply context_report_ok; [done|done|by apply Hctx]. }
  unfold si in *. destruct (0x4000 <=? info) eqn:Hp.
  - destruct (Hinfo ltac:(lia)) as [[c a] Hi]. rewrite Hi in *. rewrite bind_ok, frames_report_ok, bind_ok by lia.
    cbn [fmap option_fmap option_map snd] in *. rewrite Hc, bind_ok. eexists. split; [done|]. by eexists _, ctx.
  - rewrite bind_ok, frames_report_ok, bind_ok by lia. cbn [fmap option_fmap option_map] in *. rewrite Hc, bind_ok.
    eexists. split; [done|]. by eexists _, ctx.
Qed.

Lemma handler_reentered S fuel r a : r <> 0 -> handler_of S fuel r a = Ok [Report (Exit 2)].
Proof. intros Hr. unfold handler_of, ps4SignalAction. by rewrite (proj2 (Z.eqb_neq r 0) Hr). Qed.

(** From the moment the first handler has stored the flag: it is the only one
    that reports, in its order; every other can only end the process. *)
Definition one_report (es : list event) (p : process) : Prop :=
  p_reentered p = 1 /\
  (forall i h, p_handlers p !! S i = Some h -> h = [Report (Exit 2)] \/ h = []) /\
  if p_ended p then exists pre, pre `prefix_of` es /\ (p_out p = pre \/ p_out p = pre ++ [Exit 2])
  else exists left, p_handlers p !! 0%nat = Some (map Report left) /\ p_out p ++ left = es.

Lemma one_report_step S fuel es p act p' :
  one_report es p -> signal_step S fuel p act = Some p' -> one_report es p'.
Proof.
  intros (Hr & Ho & Hc) Hs. unfold signal_step in Hs. destruct (p_ended p) eqn:Hend; [done|].
  destruct Hc as (left & Hl & Hout). destruct act as [a|i].
  - rewrite (handler_reentered S fuel _ a) in Hs by (rewrite Hr; done). injection Hs as <-. split; [done|]. cbn. split.
    + intros i h Hi. apply lookup_app_Some in Hi as [Hi|[_ Hi]]; [by eapply Ho|].
      apply list_lookup_singleton_Some in Hi as [_ <-]. by left.
    + exists left. split; [by apply lookup_app_l_Some|done].
  - destruct (p_handlers p !! i) as [[|ins rest]|] eqn:Hi; try done. injection Hs as <-. destruct i as [|i].
    + rewrite Hl in Hi. destruct left as [|e left]; [done|]. injection Hi as <- <-.
      destruct (p_handlers p) as [|h0 hs] eqn:Hh; [done|]. unfold exec, one_report. rewrite Hh. cbn.
      split; [done|]. split; [exact Ho|]. destruct (is_exit e).
      * exists (p_out p ++ [e]). split; [|by left]. exists left. by rewrite <- app_assoc.
      * exists left. split; [done|]. by rewrite <- app_assoc.
    + destruct (Ho _ _ Hi) as [[= -> ->]|]; [|done]. split; [done|]. split.
      { intros j h Hj. cbn in Hj. destruct (decide (i = j)) as [->|Hne].
        - rewrite list_lookup_insert_eq in Hj by (by eapply lookup_lt_Some). right. congruence.
        - rewrite list_lookup_insert_ne in Hj by congruence. by eapply Ho. }
      cbn. exists (p_out p). split; [by exists left|by right].
Qed.

Lemma one_report_run S fuel es acts p p' :
  one_report es p -> signal_run S fuel p acts = Some p' -> one_report es p'.
Proof.
  revert p. induction acts as [|act acts IH]; intros p Hp Hrun; [by injection Hrun as <-|]. simpl in Hrun.
  destruct (signal_step S fuel p act) as [p1|] eqn:Hs; [|done]. apply (IH p1); [by eapply one_report_step|done].
Qed.

(** C26: The signal handler does not fault and reports the signal once.  It
    reads the siginfo only through something that can be a pointer, the frames
    only as far as the unwinder wrote them, 96 words of the context, and code
    only where the kernel says it can be read.  Registers are printed under
    their names only if the selector pair was found and, when the fault
    address is known, the context has it at that place; otherwise the raw
    words are printed and a line says why.  It ends in the fatal action and
    [_Exit].  Once it has stored its flag, whatever signals arrive and on
    whatever threads, the process prints a prefix of that one report and
    nothing else, and the next handler to run ends it at once. *)
Theorem ps4SignalAction_correct S fuel a :
  (72 < fuel)%nat -> truthful (ar_query a) (ar_code a) ->
  (0x4000 <= ar_info a -> is_Some (ar_info_at a (ar_info a))) ->
  (forall w, ar_uctx a = Some w -> 96 <= zlen w) ->
  exists es p0,
    report_spec S (ar_query a) (ar_heap a) (ar_code a) (ar_frames a) (ar_sig a) (ar_info a) (ar_info_at a) (ar_uctx a) es /\
    handler_of S fuel 0 a = Ok (SetReentered 1 :: map Report es) /\
    signal_run S fuel alive [Arrive a; Go 0] = Some p0 /\
    forall acts p, signal_run S fuel p0 acts = Some p ->
      (exists pre, pre `prefix_of` es /\ (p_out p = pre \/ (p_ended p = true /\ p_out p = pre ++ [Exit 2]))) /\
      (p_ended p = false -> forall b, exists p', signal_run S fuel p [Arrive b; Go (length (p_handlers p))] = Some p' /\
         p_out p' = p_out p ++ [Exit 2] /\ p_ended p' = true).
Proof.
  intros Hf Htrue Hinfo Hctx.
  destruct (signal_report S _ (ar_heap a) _ (ar_frames a) fuel (ar_sig a) _ _ _ Hf Htrue Hinfo Hctx) as (es & He & Hes).
  exists es, (mk_process 1 [map Report es] [] false). split; [done|]. split; [exact He|]. split.
  { assert (handler_of S fuel (p_reentered alive) a = Ok (SetReentered 1 :: map Report es)) as Hh by exact He.
    unfold signal_run, signal_step. cbn [p_ended alive]. by rewrite Hh. }
  intros acts p Hrun. apply (one_report_run S fuel es) in Hrun as (Hr & Ho & Hc).
  2: { split; [done|]. cbn. split; [done|]. by exists es. }
  split.
  - destruct (p_ended p).
    + destruct Hc as (pre & Hpre & Hout). exists pre. split; [done|]. destruct Hout; [by left|by right].
    + destruct Hc as (left & _ & <-). exists (p_out p). split; [by exists left|by left].
  - intros Hend b. assert (signal_step S fuel p (Arrive b) =
      Some (mk_process 1 (p_handlers p ++ [[Report (Exit 2)]]) (p_out p) false)) as Ha.
    { unfold signal_step. rewrite Hend, handler_reentered by (rewrite Hr; done). by rewrite Hr. }
    exists (mk_process 1 (<[length (p_handlers p) := []]> (p_handlers p ++ [[Report (Exit 2)]])) (p_out p ++ [Exit 2]) true).
    split; [|done]. cbn [signal_run mbind option_bind]. rewrite Ha.
    cbn [mbind option_bind]. unfold signal_step. cbn [p_ended p_handlers].
    by rewrite lookup_app_r, Nat.sub_diag by done.
Qed.

(** The lines of frames print exactly the addresses. *)
Lemma frame_rows_words i fs :
  exists pad, concat (map (fun e => match e with Frames _ _ ws => ws | _ => [] end) (frame_rows i fs)) = fs ++ replicate pad 0 /\ (pad < 4)%nat.
Proof.
  revert i. induction fs as [fs IH] using (well_founded_induction (Wf_nat.well_founded_ltof _ (@length Z))). intros i.
  destruct fs as [|a [|b [|c [|d fs]]]]; [by exists 0%nat; split; [|lia]|by exists 3%nat; split; [|lia]|by exists 2%nat; split; [|lia]|by exists 1%nat; split; [|lia]|].
  destruct (IH fs ltac:(unfold Wf_nat.ltof; simpl; lia) (i + 4)) as (pad & Hp & Hlt). exists pad. split; [|done].
  simpl. by rewrite Hp.
Qed.

(** ** Addresses in the heap *)

(** The letters of the mapping's rights, and the pool the kernel names. *)
Definition rights (prot : Z) : list Z :=
  [if Z.testbit prot 0 then 114 else 45; if Z.testbit prot 1 then 119 else 45; if Z.testbit prot 2 then 120 else 45].
Definition pool_of (vq : vquery) (pool : string) : Prop :=
  (vq_direct vq = true /\ pool = "direct") \/
  (vq_direct vq = false /\ vq_flexible vq = true /\ pool = "flexible") \/
  (vq_direct vq = false /\ vq_flexible vq = false /\ vq_pooled vq = true /\ pool = "pooled") \/
  (vq_direct vq = false /\ vq_flexible vq = false /\ vq_pooled vq = false /\ vq_stack vq = true /\ pool = "stack") \/
  (vq_direct vq = false /\ vq_flexible vq = false /\ vq_pooled vq = false /\ vq_stack vq = false /\ pool = "other").

Lemma flag_testbit prot k c : 0 <= k -> flag prot (2 ^ k) c = if Z.testbit prot k then c else 45.
Proof.
  intros Hk. unfold flag. replace (Z.land prot (2 ^ k) =? 0) with (negb (Z.testbit prot k)); [by destruct (Z.testbit prot k)|].
  symmetry. destruct (Z.testbit prot k) eqn:Hb; cbn [negb].
  - apply Z.eqb_neq. intros H0. apply (f_equal (fun x => Z.testbit x k)) in H0.
    by rewrite Z.land_spec, Z.pow2_bits_true, Hb, Z.bits_0 in H0 by done.
  - apply Z.eqb_eq, Z.bits_inj_iff'. intros n Hn. rewrite Z.land_spec, Z.bits_0, Z.pow2_bits_eqb by done.
    destruct (Z.eqb_spec k n) as [<-|]; [by rewrite Hb|apply andb_false_r].
Qed.

(** C29: An address the kernel does not describe is reported as not mapped;
    any other with the kernel's bounds, rights, pool, commitment and name of
    its mapping.  If it is inside a carve-out a second line follows, and only
    then: with the carve-out's number and base, the address's offset in it,
    and the one block that holds the address, its size in KiB and its offset
    being that block's; the block is called live exactly when a live mapping
    holds the address, and otherwise a use after free. *)
Theorem describeAddress_correct query heap what p :
  mm_ok heap ->
  match query p with
  | None => describeAddress query heap what p = [NotMapped what p]
  | Some vq =>
      exists pool rest, pool_of vq pool /\
        describeAddress query heap what p =
          Mapping what p (vq_start vq) (vq_end vq) (u32 (vq_prot vq)) (rights (vq_prot vq)) pool (vq_committed vq) (cstr (vq_name vq))
          :: rest /\
        ((rest = [] /\ forall c, c ∈ carve heap -> ~ (c_va c <= p < c_va c + c_size c)) \/
         exists j c b, carve heap !! j = Some c /\ c_va c <= p < c_va c + c_size c /\
           b ∈ c_blk c /\ b_off b <= p - c_va c < b_off b + Mmap.b_size b /\
           rest = [CarveBlock what (Z.of_nat j + 1) (c_va c) (p - c_va c) (negb (b_used b =? 0)) (Mmap.b_size b / 1024) (b_off b)] /\
           (b_used b <> 0 <-> exists a l, live (carve heap) a l /\ a <= p < a + l))
  end.
Proof.
  intros Hok. unfold describeAddress. destruct (query p) as [vq|]; [|done].
  set (pool := if vq_direct vq then _ else _).
  exists pool, (match mmapDirectDescribe heap p with
    | None => []
    | Some d => if ms_found d
        then [CarveBlock what (ms_index d) (ms_base d) (ms_offset d) (ms_used d) (ms_bsize d / 1024) (ms_off d)]
        else [CarveNoBlock what (ms_index d) (ms_base d) (ms_offset d)]
    end). split.
  { unfold pool, pool_of. destruct (vq_direct vq), (vq_flexible vq), (vq_pooled vq), (vq_stack vq); tauto. }
  split.
  { unfold rights. by rewrite <- (flag_testbit _ 0 114), <- (flag_testbit _ 1 119), <- (flag_testbit _ 2 120) by done. }
  pose proof (describe_block heap p Hok) as Hd.
  destruct (mmapDirectDescribe heap p) as [d|]; [right|by left].
  destruct Hd as (j & c & b & Hj & Hin & Hb & Hoff & -> & Hlive). cbn. by exists j, c, b.
Qed.

(** ** Verdicts *)

(** The verdict about the layout of [stack_t] never names the wrong one.
    Words the kernel wrote in FreeBSD's order (the stack, its size, flags) are
    not called Linux's and the other way round, for a stack of 64 KiB or none
    and any flags; and whenever the size or the flags are set the right one is
    named. *)
Theorem field_order_sound sp size flags :
  0 <= sp -> size = 0 \/ size = alt_size -> 0 <= flags <= 7 ->
  field_order sp size flags <> LinuxOrder /\ field_order sp flags size <> FreeBSDOrder /\
  (size <> 0 \/ flags <> 0 -> field_order sp size flags = FreeBSDOrder /\ field_order sp flags size = LinuxOrder).
Proof.
  intros Hsp Hsize Hflags. unfold field_order, alt_size in *.
  assert ((flags <=? 7) = true) as -> by lia. assert ((flags =? 64 * 1024) = false) as -> by lia.
  rewrite orb_false_r.
  assert (((size =? 0) || (size =? 64 * 1024)) = true) as -> by (destruct Hsize; subst; done).
  cbn [andb]. destruct (sp =? 0), (size =? 0) eqn:Hs0, (flags =? 0) eqn:Hf0, (size <=? 7) eqn:Hs7; cbn; split_and!; try done; try lia;
    intros [|]; try lia; done.
Qed.

(** The bytes of the second attempt are those of the SDK's struct, and as the
    kernel's struct they ask for no size and flags of 65536. *)
Lemma legacy_bytes sp : bsd_bytes (mk_bsd sp 0 alt_size 0) = sdk_bytes (mk_stack sp 0 alt_size).
Proof. unfold bsd_bytes, sdk_bytes. f_equal. Qed.

(** The last clause of the terminate handler is the one format. *)
Lemma says_exception_says e : says_exception e = says "std::exception" e.
Proof.
  unfold says_exception, says, truncate, msg_len. rewrite (take_ge (bytes "std::exception(")) by (cbn; lia).
  rewrite (app_assoc (bytes "std::exception")). change (bytes "std::exception" ++ bytes "(") with (bytes "std::exception(").
  rewrite (take_app_ge (bytes "std::exception(")) by (cbn; lia). f_equal.
Qed.

(** ** A concrete fault *)

Definition demo_query (p : Z) : option vquery :=
  if (4096 <=? p) && (p <? 4160) then Some (mk_vq 4096 4160 5 true false false false true (bytes "core")) else None.
Definition demo_code : mem := write ∅ 4096 (replicate 64 144).

Lemma demo_truthful : truthful demo_query demo_code.
Proof.
  intros p lo hi H. unfold readable, demo_query in H. destruct ((4096 <=? p) && (p <? 4160)) eqn:Hp; [|done].
  assert (lo = 4096 /\ hi = 4160) as [-> ->].
  { cbn in H. destruct (4096 <=? p), (p <? 4160); try done. cbn in H. by injection H as <- <-. }
  exact (array_mapped _ _ _ (array_write ∅ 4096 (replicate 64 144))).
Qed.

Definition demo_signals : signals := mk_signals 11 10 8 4 6.

(** [mcontext] at word 8: the fault address 16 and the instruction at 4100. *)
Definition demo_context : list Z :=
  <[25%nat := 16]> (<[28%nat := 4100]> (<[29%nat := 0x43]> (<[31%nat := 8192]> (<[32%nat := 0x3b]> (replicate 96 0))))).

Lemma dumpCodeAt_witness :
  dumpCodeAt demo_query demo_code 100 4100 =
    Ok [CodeRow 4096 true (bytes "90 90 90 90 90 90 90 90 90 90 90 90 90 90 90 90"); CodeRow 4112 false (bytes "90 90 90 90")] /\
  exists row text, filter is_here (code_rows demo_code 4100 4096 4160) = [CodeRow row true text] /\ row <= 4100 < row + 16 /\ 4096 <= row.
Proof.
  destruct (dumpCodeAt_correct demo_query demo_code 100 4100 ltac:(lia) demo_truthful) as [H1 H2].
  split; [rewrite H1; vm_compute; reflexivity|]. apply H2. vm_compute. reflexivity.
Defined.

Definition demo_arrival : arrival :=
  mk_arrival demo_query (initial (fun _ => 5)) demo_code [1; 2; 3; 4; 5; 6] 11 0x8000 (fun _ => Some (1, 16)) (Some demo_context).

(** The handler reports the signal and the first frames; another signal arrives
    and ends the process. *)
Lemma ps4SignalAction_witness :
  exists p p0, signal_run demo_signals 100 alive ([Arrive demo_arrival; Go 0] ++ [Go 0; Go 0; Arrive demo_arrival; Go 1]) = Some p /\
    p_out p = [Signal 11 "SIGSEGV (bad address)" 1 16; Frames 0 3 [2; 3; 4; 5]; Exit 2] /\
    signal_run demo_signals 100 alive [Arrive demo_arrival; Go 0] = Some p0 /\
    exists es, context_spec demo_query (initial (fun _ => 5)) demo_code (Some 16) demo_context es.
Proof.
  destruct (ps4SignalAction_correct demo_signals 100 demo_arrival ltac:(lia) demo_truthful ltac:(by eexists)
    ltac:(intros w [= <-]; vm_compute; discriminate)) as (es & p0 & (first & ctx & _ & Hctx & _) & _ & Hrun & _).
  eexists _, p0. split; [vm_compute; reflexivity|]. split; [vm_compute; reflexivity|]. split; [exact Hrun|].
  exists ctx. exact Hctx.
Defined.

Lemma describeAddress_witness :
  exists j c b, carve demo_state !! j = Some c /\ b ∈ c_blk c /\
    describeAddress (fun _ => Some (mk_vq 0 (2 ^ 40) 3 true false false false true [])) demo_state "addr" (2 ^ 32 + 5) =
      [Mapping "addr" (2 ^ 32 + 5) 0 (2 ^ 40) 3 (bytes "rw-") "direct" true [];
       CarveBlock "addr" (Z.of_nat j + 1) (c_va c) (2 ^ 32 + 5 - c_va c) (negb (b_used b =? 0)) (Mmap.b_size b / 1024) (b_off b)].
Proof.
  destruct (describeAddress_correct (fun _ => Some (mk_vq 0 (2 ^ 40) 3 true false false false true [])) demo_state "addr" (2 ^ 32 + 5) demo_state_ok)
    as (pool & rest & Hpool & -> & [[_ Hno]|(j & c & b & Hj & _ & Hb & _ & -> & _)]).
  - exfalso. assert (exists c, c ∈ carve demo_state /\ c_va c <= 2 ^ 32 + 5 < c_va c + c_size c) as (c & Hc & Hin).
    { eexists. split; [left|vm_compute; split; [discriminate|reflexivity]]. }
    by apply (Hno c).
  - exists j, c, b. split; [exact Hj|]. split; [exact Hb|].
    destruct Hpool as [[_ ->]|[[Hd _]|[[Hd _]|[[Hd _]|[Hd _]]]]]; done || discriminate Hd.
Defined.

Lemma field_order_witness : field_order 4096 alt_size 0 = FreeBSDOrder /\ field_order 4096 0 alt_size = LinuxOrder.
Proof. apply (field_order_sound 4096 alt_size 0); [lia|by right|lia|by left]. Defined.
