(* ===== verification/Crt.v ===== *)
(** What every executable and module starts with: [crt/orbis_crt1.c],
    [crt/orbis_crtlib.c], [crt/orbis_sce_params.h] and
    [optional/orbis_bigheap.c].  A parameter block is the list of fields of its
    struct, laid out by the rules of the ABI, and the bytes its initialiser
    puts into them; [at_] is where the linker and the loader place a symbol. *)
From Stdlib Require Import String.
From stdpp Require Import prelude gmap list numbers strings.
From S2P Require Import Prelude Memory Utf8Spec Endian.
Open Scope Z_scope.

Module Crt.

(** ** Structs *)

Inductive ctype := U32 | U64 | Pointer | Pointers (n : nat).

(** Size and alignment of an element; an array has several. *)
Definition elem (t : ctype) : nat := match t with U32 => 4%nat | _ => 8%nat end.
Definition count (t : ctype) : nat := match t with Pointers n => n | _ => 1%nat end.
Definition sizeof (t : ctype) : nat := (elem t * count t)%nat.

Definition struct : Type := list (string * ctype).

Definition padding (off : nat) (t : ctype) : nat := ((elem t - off mod elem t) mod elem t)%nat.

Fixpoint end_of (off : nat) (fs : struct) : nat :=
  match fs with
  | [] => off
  | (_, t) :: fs => end_of (off + padding off t + sizeof t) fs
  end.

(** All structs here have a field of eight bytes. *)
Definition struct_size (fs : struct) : nat := let e := end_of 0 fs in (e + padding e U64)%nat.

Fixpoint offset_from (off : nat) (fs : struct) (f : string) : option nat :=
  match fs with
  | [] => None
  | (g, t) :: fs =>
      let o := (off + padding off t)%nat in
      if String.eqb g f then Some o else offset_from (o + sizeof t) fs f
  end.
Definition offsetof (fs : struct) (f : string) : option nat := offset_from 0 fs f.

(** An initialiser names some fields; the others are zero. *)
Definition init : Type := list (string * Z).

Fixpoint value_of (i : init) (f : string) : Z :=
  match i with [] => 0 | (g, v) :: i => if String.eqb g f then v else value_of i f end.

Definition field_bytes (i : init) (f : string) (t : ctype) : list Z :=
  match t with Pointers n => replicate (8 * n) 0 | _ => le_bytes (elem t) (value_of i f) end.

Fixpoint image (off : nat) (fs : struct) (i : init) : list Z :=
  match fs with
  | [] => replicate (padding off U64) 0
  | (f, t) :: fs =>
      replicate (padding off t) 0 ++ field_bytes i f t ++ image (off + padding off t + sizeof t) fs i
  end.
Definition block (fs : struct) (i : init) : list Z := image 0 fs i.

(** ** The parameter blocks *)

Open Scope string_scope.

Definition orbis_libc_param : struct :=
  [("size", U64); ("unknown_08", U32); ("unknown_0c", U32); ("heap_size", Pointer); ("unknown_18", Pointer);
   ("heap_extended_alloc", Pointer); ("unknown_28", Pointer); ("malloc_replace", Pointer); ("new_replace", Pointer);
   ("unknown_40", Pointers 4); ("malloc_replace_for_tls", Pointer); ("unknown_68", Pointers 5)].
Definition orbis_malloc_replace : struct := [("size", U64); ("version", U64); ("entry", Pointers 12)].
Definition orbis_new_replace : struct := [("size", U64); ("version", U64); ("entry", Pointers 12)].
Definition orbis_malloc_replace_for_tls : struct := [("size", U64); ("version", U64); ("entry", Pointers 5)].
Definition orbis_kernel_mem_param : struct := [("size", U64); ("unknown_08", Pointers 5)].
Definition orbis_kernel_fs_param : struct := [("size", U64); ("unknown_08", Pointer)].
Definition ORBIS_PROCESS_PARAM_MAGIC : Z := 0x4942524f.
Definition orbis_process_param : struct :=
  [("size", U64); ("magic", U32); ("entry_count", U32); ("sdk_version", U32); ("unknown_14", U32);
   ("unknown_18", Pointers 4); ("libc_param", Pointer); ("kernel_mem_param", Pointer); ("kernel_fs_param", Pointer)].
Definition orbis_module_param : struct := [("size", U64); ("magic", U64); ("sdk_version", U64)].
Definition ORBIS_MODULE_PARAM_MAGIC : Z := 0x13c13f4bf.

Definition size_of (fs : struct) : Z := Z.of_nat (struct_size fs).

Section linked.
Context (at_ : string -> Z).

Definition sceLibcMallocReplace : list Z := block orbis_malloc_replace [("size", size_of orbis_malloc_replace); ("version", 1)].
Definition sceLibcNewReplace : list Z := block orbis_new_replace [("size", size_of orbis_new_replace); ("version", 2)].
Definition sceLibcMallocReplaceForTls : list Z :=
  block orbis_malloc_replace_for_tls [("size", size_of orbis_malloc_replace_for_tls); ("version", 1)].
Definition sceKernelMemParam : list Z := block orbis_kernel_mem_param [("size", size_of orbis_kernel_mem_param)].
Definition sceKernelFsParam : list Z := block orbis_kernel_fs_param [("size", size_of orbis_kernel_fs_param)].
Definition sceLibcParam_init : init :=
  [("size", size_of orbis_libc_param); ("unknown_08", 0xc); ("unknown_0c", 1); ("heap_size", at_ "sceLibcHeapSize");
   ("heap_extended_alloc", at_ "sceLibcHeapExtendedAlloc"); ("malloc_replace", at_ "sceLibcMallocReplace");
   ("new_replace", at_ "sceLibcNewReplace"); ("malloc_replace_for_tls", at_ "sceLibcMallocReplaceForTls")].
Definition sceLibcParam : list Z := block orbis_libc_param sceLibcParam_init.
Definition sceProcessParam_init : init :=
  [("size", size_of orbis_process_param); ("magic", ORBIS_PROCESS_PARAM_MAGIC); ("entry_count", 3);
   ("sdk_version", 0x04508101); ("libc_param", at_ "_sceLibcParam"); ("kernel_mem_param", at_ "_sceKernelMemParam");
   ("kernel_fs_param", at_ "_sceKernelFsParam")].
Definition sceProcessParam : list Z := block orbis_process_param sceProcessParam_init.

End linked.

(** The parameter block of a module. *)
Definition sceModuleParam : list Z :=
  block orbis_module_param [("size", size_of orbis_module_param); ("magic", ORBIS_MODULE_PARAM_MAGIC); ("sdk_version", 0x1000051)].

(** [.data] of an executable, in the order of definition. *)
Definition crt_data : struct :=
  [("sceLibcHeapExtendedAlloc", U32); ("sceLibcHeapSize", U64); ("sce_libc_heap_delayed_alloc", U32);
   ("sce_libc_heap_extended_alloc", U32); ("__dso_handle", Pointer); ("_sceLibc", Pointer)].
Definition crt_data_init : init := [("sceLibcHeapExtendedAlloc", 1); ("sceLibcHeapSize", SIZE_MAX)].

(** The exported pair of a large heap. *)
Definition bigheap : init := [("sceLibcHeapSize", SIZE_MAX); ("sceLibcHeapExtendedAlloc", 1)].

Close Scope string_scope.

(** ** Entry *)

(** A call of [__libc_start_main]. *)
Record start_call := mk_start { sc_main : Z; sc_argc : Z; sc_argv : Z; sc_init : Z; sc_fini : Z; sc_last : Z }.

(** [main_], and the weak [_init] and [_fini]: addresses, 0 if undefined. *)
Definition _start_ps4_c (main_ init_ fini_ : Z) (m : mem) (entry : Z) : outcome start_call :=
  argc ← le64dec m entry;
  Ok (mk_start main_ (s32 argc) (entry + 8) init_ fini_ 0).

(** The walk over [__init_array_start .. __init_array_end); a cell of [m] is a
    pointer of eight bytes.  The calls made and the result. *)
Definition module_start (fuel : nat) (m : mem) (start_ end_ : Z) : outcome (list Z * Z) :=
  calls ← loop fuel (fun '(fn, calls) =>
    if negb (fn =? end_) then f ← ld m fn; Ok (inl (fn + 8, calls ++ [f])) else Ok (inr calls)) (start_, []);
  Ok (calls, 0).

Definition module_stop : Z := 0.
Definition _init : Z := 0.
Definition _fini : Z := 0.

End Crt.
Export Crt.

(** ** Layout *)

(** The value of bytes, least significant first; a field of a block. *)
Definition le_value (bs : list Z) : Z := be_value (rev bs).
Definition field_at (bs : list Z) (off n : nat) : Z := le_value (take n (drop off bs)).

Lemma le_value_bytes n v : 0 <= v < 256 ^ Z.of_nat n -> le_value (le_bytes n v) = v.
Proof. apply be_value_bytes. Qed.

Lemma padding_aligns off t : ((off + padding off t) mod elem t = 0)%nat.
Proof.
  assert (elem t <> 0)%nat by by destruct t. unfold padding.
  pose proof (Nat.mod_upper_bound off (elem t) ltac:(done)).
  destruct (decide (off mod elem t = 0)%nat) as [E|E].
  - rewrite E, Nat.sub_0_r, Nat.Div0.mod_same, Nat.add_0_r. done.
  - rewrite (Nat.mod_small (elem t - off mod elem t)) by lia.
    rewrite (Nat.div_mod_eq off (elem t)) at 1.
    replace (elem t * (off / elem t) + off mod elem t + (elem t - off mod elem t))%nat with ((off / elem t + 1) * elem t)%nat by nia.
    apply Nat.Div0.mod_mul.
Qed.

Lemma field_bytes_length i f t : length (field_bytes i f t) = sizeof t.
Proof. destruct t; cbn [field_bytes]; rewrite ?le_bytes_length, ?length_replicate; unfold sizeof; cbn; lia. Qed.

Lemma image_length off fs i :
  (off + length (image off fs i) = end_of off fs + padding (end_of off fs) U64)%nat.
Proof.
  revert off. induction fs as [|[f t] fs IH]; intros off; cbn [image end_of].
  - by rewrite length_replicate.
  - rewrite !length_app, length_replicate, field_bytes_length. specialize (IH (off + padding off t + sizeof t)%nat). lia.
Qed.

(** Where a field is, there are its bytes. *)
Lemma image_field off fs i f t :
  NoDup (map fst fs) -> (f, t) ∈ fs ->
  exists o pre post, offset_from off fs f = Some o /\ (o mod elem t = 0)%nat /\ (off <= o)%nat /\
    image off fs i = pre ++ field_bytes i f t ++ post /\ (off + length pre = o)%nat.
Proof.
  revert off. induction fs as [|[g u] fs IH]; intros off Hnd Hin; [by apply not_elem_of_nil in Hin|].
  cbn [map fst] in Hnd. apply NoDup_cons in Hnd as [Hg Hnd]. cbn [offset_from image].
  apply elem_of_cons in Hin as [[= <- <-]|Hin].
  - rewrite String.eqb_refl. exists (off + padding off t)%nat, (replicate (padding off t) 0). eexists.
    split; [done|]. split; [apply padding_aligns|]. split; [lia|]. split; [done|]. by rewrite length_replicate.
  - assert (String.eqb g f = false) as ->.
    { apply String.eqb_neq. intros ->. apply Hg, list_elem_of_fmap. by exists (f, t). }
    destruct (IH (off + padding off u + sizeof u)%nat Hnd Hin) as (o & pre & post & -> & Ha & Hle & -> & Ho).
    exists o, (replicate (padding off u) 0 ++ field_bytes i g u ++ pre), post.
    split; [done|]. split; [done|]. split; [lia|]. split; [by rewrite <- !app_assoc|].
    rewrite !length_app, length_replicate, field_bytes_length. lia.
Qed.

Definition scalar (t : ctype) : Prop := match t with Pointers _ => False | _ => True end.

(** A block is as long as its struct, and every field of it, at its aligned
    offset, reads as what the initialiser says, 0 where it says nothing. *)
Lemma block_reads fs i f t :
  NoDup (map fst fs) -> (f, t) ∈ fs -> scalar t -> 0 <= value_of i f < 256 ^ Z.of_nat (elem t) ->
  exists o, offsetof fs f = Some o /\ (o mod elem t = 0)%nat /\ (o + elem t <= length (block fs i))%nat /\
    field_at (block fs i) o (elem t) = value_of i f.
Proof.
  intros Hnd Hin Hs Hv. destruct (image_field 0 fs i f t Hnd Hin) as (o & pre & post & Ho & Ha & _ & Hi & Hl).
  exists o. split; [done|]. split; [done|].
  assert (field_bytes i f t = le_bytes (elem t) (value_of i f)) as Hb by by destruct t.
  unfold block. rewrite Hi, Hb. split; [rewrite !length_app, le_bytes_length; lia|].
  unfold field_at. rewrite drop_app_ge by lia. replace (o - length pre)%nat with 0%nat by lia. rewrite drop_0.
  rewrite take_app_le by (rewrite le_bytes_length; lia). rewrite take_ge by (rewrite le_bytes_length; lia).
  by apply le_value_bytes.
Qed.

Lemma block_length fs i : length (block fs i) = struct_size fs.
Proof. pose proof (image_length 0 fs i). done. Qed.

Lemma block_field fs i f t o v :
  NoDup (map fst fs) -> (f, t) ∈ fs -> scalar t -> offsetof fs f = Some o -> value_of i f = v ->
  0 <= v < 256 ^ Z.of_nat (elem t) -> field_at (block fs i) o (elem t) = v.
Proof.
  intros Hnd Hin Hs Ho Hv Hr. destruct (block_reads fs i f t Hnd Hin Hs) as (o' & Ho' & _ & _ & H); [by rewrite Hv|].
  rewrite Ho in Ho'. injection Ho' as <-. by rewrite H.
Qed.

(** Reads a field of a block by its name and type. *)
Ltac field_of f t :=
  match goal with |- field_at (block ?fs ?i) ?o ?n = _ =>
    apply (block_field fs i f t);
      [apply (bool_decide_unpack _); vm_compute; reflexivity|apply (bool_decide_unpack _); vm_compute; reflexivity
      |exact I|vm_compute; reflexivity|reflexivity|]
  end.

#[export] Instance ctype_eq_dec : EqDecision ctype.
Proof. solve_decision. Defined.

(** The blocks with the sizes measured in the SDK's objects. *)
Definition blocks (at_ : string -> Z) : list (Z * list Z) :=
  [(0x90, sceLibcParam at_); (0x70, sceLibcMallocReplace); (0x70, sceLibcNewReplace);
   (0x38, sceLibcMallocReplaceForTls); (0x30, sceKernelMemParam); (0x10, sceKernelFsParam);
   (0x50, sceProcessParam at_); (0x18, sceModuleParam)].

(** Wherever the linker places the symbols, the loader reads what was
    measured: every parameter block is as long as the SDK's and starts with
    its own length; the process block carries ORBI, three entries and the
    SDK version, and points at the libc, memory and file system blocks; the
    libc block points at the heap size, which is unlimited, at the extended
    allocation, which is on, and at three replacement tables without an entry;
    and the module's block is the measured bytes. *)
Theorem crt_blocks_correct (at_ : string -> Z) (Hat : forall s, 0 <= at_ s < 2 ^ 64) :
  Forall (fun '(n, b) => zlen b = n /\ field_at b 0 8 = n) (blocks at_) /\
  (take 4 (drop 8 (sceProcessParam at_)) = [79; 82; 66; 73] /\ field_at (sceProcessParam at_) 0xc 4 = 3 /\
   field_at (sceProcessParam at_) 0x10 4 = 0x04508101 /\
   field_at (sceProcessParam at_) 0x38 8 = at_ "_sceLibcParam"%string /\
   field_at (sceProcessParam at_) 0x40 8 = at_ "_sceKernelMemParam"%string /\
   field_at (sceProcessParam at_) 0x48 8 = at_ "_sceKernelFsParam"%string) /\
  (field_at (sceLibcParam at_) 0x10 8 = at_ "sceLibcHeapSize"%string /\
   field_at (sceLibcParam at_) 0x20 8 = at_ "sceLibcHeapExtendedAlloc"%string /\
   field_at (sceLibcParam at_) 0x30 8 = at_ "sceLibcMallocReplace"%string /\
   field_at (sceLibcParam at_) 0x38 8 = at_ "sceLibcNewReplace"%string /\
   field_at (sceLibcParam at_) 0x60 8 = at_ "sceLibcMallocReplaceForTls"%string) /\
  Forall (fun b => Forall (eq 0) (drop 16 b)) [sceLibcMallocReplace; sceLibcNewReplace; sceLibcMallocReplaceForTls] /\
  field_at (block crt_data crt_data_init) 0 4 = 1 /\ field_at (block crt_data crt_data_init) 8 8 = SIZE_MAX /\
  sceModuleParam = [0x18;0;0;0; 0;0;0;0; 0xbf;0xf4;0x13;0x3c; 1;0;0;0; 0x51;0;0;1; 0;0;0;0].
Proof.
  split; [|split; [|split; [|split; [|split; [|split]]]]].
  - repeat (apply List.Forall_cons; [split; [unfold sceLibcParam, sceProcessParam; rewrite ?block_length; vm_compute; reflexivity|]|]); [..|done].
    1, 7: (unfold sceLibcParam, sceProcessParam; field_of "size"%string U64; vm_compute; by split).
    all: vm_compute; reflexivity.
  - unfold sceProcessParam. split; [vm_compute; reflexivity|]. split_and!.
    + field_of "entry_count"%string U32. vm_compute; by split.
    + field_of "sdk_version"%string U32. vm_compute; by split.
    + field_of "libc_param"%string Pointer. apply Hat.
    + field_of "kernel_mem_param"%string Pointer. apply Hat.
    + field_of "kernel_fs_param"%string Pointer. apply Hat.
  - unfold sceLibcParam. split_and!.
    + field_of "heap_size"%string Pointer. apply Hat.
    + field_of "heap_extended_alloc"%string Pointer. apply Hat.
    + field_of "malloc_replace"%string Pointer. apply Hat.
    + field_of "new_replace"%string Pointer. apply Hat.
    + field_of "malloc_replace_for_tls"%string Pointer. apply Hat.
  - repeat (apply List.Forall_cons; [vm_compute; repeat constructor|]). done.
  - vm_compute. reflexivity.
  - vm_compute. reflexivity.
  - vm_compute. reflexivity.
Qed.

(** Fields of one struct do not overlap and are in order, and the offsets are
    those the assertions of the header name. *)
Example libc_param_offsets :
  map (offsetof orbis_libc_param) ["heap_size"; "heap_extended_alloc"; "malloc_replace"; "new_replace"; "malloc_replace_for_tls"]%string =
    [Some 0x10; Some 0x20; Some 0x30; Some 0x38; Some 0x60]%nat.
Proof. reflexivity. Qed.

Example process_param_offsets :
  map (offsetof orbis_process_param) ["magic"; "sdk_version"; "libc_param"; "kernel_mem_param"; "kernel_fs_param"]%string =
    [Some 0x8; Some 0x10; Some 0x38; Some 0x40; Some 0x48]%nat.
Proof. reflexivity. Qed.

Example crt_data_offsets :
  map (offsetof crt_data) (map fst crt_data) = [Some 0; Some 8; Some 0x10; Some 0x14; Some 0x18; Some 0x20]%nat.
Proof. reflexivity. Qed.

(** ** Entry points *)

(** [argc] is the low half of its slot, whatever the upper half holds. *)
Lemma start_correct main_ init_ fini_ m entry argc upper :
  0 <= argc < 2 ^ 31 -> length upper = 4%nat -> Forall byte upper -> array m entry (le_bytes 4 argc ++ upper) ->
  _start_ps4_c main_ init_ fini_ m entry = Ok (mk_start main_ argc (entry + 8) init_ fini_ 0).
Proof.
  intros Hr Hl Hb Ha. unfold _start_ps4_c.
  destruct (codec_dec (mk_codec 8 be64dec le64dec be64enc le64enc) m entry (le_bytes 4 argc ++ upper)) as [_ H].
  { right. right. by left. }
  { by rewrite length_app, le_bytes_length, Hl. }
  { apply Forall_app. split; [apply le_bytes_byte|done]. }
  { done. }
  cbn [le_dec] in H. rewrite H, bind_ok. do 2 f_equal.
  rewrite rev_app_distr, be_value_app, length_rev, le_bytes_length. fold (be_bytes 4 argc).
  rewrite be_value_bytes by (change (256 ^ Z.of_nat 4) with (2 ^ 32); lia).
  change (256 ^ Z.of_nat 4) with (2 ^ 32). unfold s32. rewrite <- Z.add_assoc, (Z.add_comm (_ * _)), Z_mod_plus_full, Z.mod_small; lia.
Qed.

(** A module's start calls every initialiser of the array once, in order
    of addresses, and nothing else, for any array the linker delimits, the
    empty one included. *)
Theorem module_start_correct fuel m start_ (fns : list Z) :
  (length fns < fuel)%nat -> (forall k f, fns !! k = Some f -> m !! (start_ + 8 * Z.of_nat k) = Some f) ->
  module_start fuel m start_ (start_ + 8 * zlen fns) = Ok (fns, 0).
Proof.
  intros Hf Hm. unfold module_start. match goal with |- context [loop _ ?b _] => set (body := b) end.
  enough (forall n k, (k <= length fns)%nat -> (length fns - k < n)%nat ->
    loop n body (start_ + 8 * Z.of_nat k, take k fns) = Ok fns) as H.
  { specialize (H fuel 0%nat). rewrite Z.mul_0_r, Z.add_0_r, take_0 in H. rewrite H by lia. done. }
  intros n. induction n as [|n IH]; intros k Hk Hn; [lia|]. rewrite loop_step. unfold body at 2.
  destruct (Z.eqb_spec (start_ + 8 * Z.of_nat k) (start_ + 8 * zlen fns)) as [E|E]; cbn [negb].
  - rewrite take_ge by lia. done.
  - destruct (lookup_lt_is_Some_2 fns k) as [f Hk2]; [lia|]. rewrite (ld_ok _ _ _ (Hm k f Hk2)), !bind_ok.
    rewrite <- (take_S_r _ _ f Hk2). replace (start_ + 8 * Z.of_nat k + 8) with (start_ + 8 * Z.of_nat (S k)) by lia.
    apply IH; lia.
Qed.

(** With the array's bounds defined as two zero words, as in the SDK's object,
    the walk calls one null pointer and none of the initialisers. *)
Example tentative_bounds : module_start 5 (<[16 := 0]> (<[24 := 0]> ∅)) 16 24 = Ok ([0], 0).
Proof. reflexivity. Qed.

Definition demo_at (s : string) : Z := 16 * Z.of_nat (Nat.modulo (String.length s) 64).

Lemma crt_blocks_witness :
  field_at (sceProcessParam demo_at) 0x38 8 = demo_at "_sceLibcParam"%string /\ demo_at "_sceLibcParam"%string = 208.
Proof.
  destruct (crt_blocks_correct demo_at) as (_ & (_ & _ & _ & H & _) & _).
  { intros s. unfold demo_at. pose proof (Nat.mod_upper_bound (String.length s) 64). lia. }
  split; [exact H|reflexivity].
Defined.

Lemma module_start_witness : module_start 5 (<[16 := 7]> (<[24 := 9]> ∅)) 16 32 = Ok ([7; 9], 0).
Proof.
  apply (module_start_correct 5 (<[16 := 7]> (<[24 := 9]> ∅)) 16 [7; 9]); [cbn; lia|].
  intros [|[|k]] f; cbn; intros E; try discriminate; injection E as <-; reflexivity.
Defined.
