(* ===== verification/TimerProbe.v ===== *)
(** [src/orbis_timer.cpp]: the probe of the timers at boot.  It creates timers,
    sleeps, and says what it saw; what the timer calls answer and how many
    notifications have arrived are functions of what was done so far. *)
From stdpp Require Import prelude list numbers.
From S2P Require Import Prelude.
Open Scope Z_scope.

Module TimerProbe.

(** What is done and said, newest first in a history.  [Create] keeps the clock
    that was asked, whether the notification is on a thread, and the timer if
    there is one. *)
Inductive event :=
  | Create (monotonic on_thread : bool) (t : option Z)
  | Settime (t value interval : Z)
  | Gettime (t : Z)
  | Getoverrun (t : Z)
  | Delete (t : Z)
  | Nanosleep (sec nsec : Z)
  | ZeroFired
  | CreateFailed (on_thread : bool) (err : Z)
  | IntervalFailed
  | Countdown (monotonic : bool) (rcSet rcGet sec nsec over : Z)
  | Runs (yes : bool)
  | Notified (monotonic : bool) (rcSet fired waited : Z)
  | Delivers (yes : bool)
  | Interval (rcSet fired over : Z)
  | Repeats (yes : bool)
  | Carried (live fired : Z).

Record host := mk_host {
  timer_create : list event -> bool -> bool -> Z + Z;      (* [errno], or the timer *)
  timer_settime : list event -> Z;
  timer_gettime : list event -> Z * (Z * Z);
  timer_getoverrun : list event -> Z;
  g_fired : list event -> Z;
  timerCounts : list event -> Z * Z;
  orbis_log_enabled : bool }.

Section probe.
Context (H : host).

Definition sleepMs (h : list event) (ms : Z) : list event := Nanosleep (ms / 1000) ((ms mod 1000) * 1000000) :: h.

(** The first [errno], or the timer and whether it is on the monotonic clock. *)
Definition createOn (h : list event) (on_thread : bool) : list event * (Z + Z * bool) :=
  match timer_create H h true on_thread with
  | inr t => (Create true on_thread (Some t) :: h, inr (t, true))
  | inl e1 =>
      let h := Create true on_thread None :: h in
      match timer_create H h false on_thread with
      | inr t => (Create false on_thread (Some t) :: h, inr (t, false))
      | inl _ => (Create false on_thread None :: h, inl e1)
      end
  end.

Definition settime (h : list event) (t value interval : Z) : list event * Z :=
  (Settime t value interval :: h, timer_settime H h).

Definition probeCountdown (h : list event) : list event :=
  match createOn h false with
  | (h, inl rc) => CreateFailed false rc :: h
  | (h, inr (t, clock)) =>
      let '(h, rcSet) := settime h t (100 * 1000000) 0 in
      let h := sleepMs h 250 in
      let '(rcGet, (sec, nsec)) := timer_gettime H h in
      let h := Gettime t :: h in
      let over := timer_getoverrun H h in
      let h := Countdown clock rcSet rcGet sec nsec over :: Getoverrun t :: h in
      Delete t :: Runs ((rcGet =? 0) && (sec =? 0) && (nsec =? 0)) :: h
  end.

Definition probeThreadNotify (fuel : nat) (h : list event) : outcome (list event) :=
  match createOn (ZeroFired :: h) true with
  | (h, inl rc) => Ok (CreateFailed true rc :: h)
  | (h, inr (t, clock)) =>
      let '(h, rcSet) := settime h t (100 * 1000000) 0 in
      '(h, waited) ← while fuel
        (fun '(h, waited) => Ok ((g_fired H h =? 0) && (waited <? 1000)))
        (fun '(h, waited) => Ok (sleepMs h 50, waited + 50)) (h, 0);
      let fired := g_fired H h in
      Ok (Delete t :: Delivers (0 <? fired) :: Notified clock rcSet fired waited :: h)
  end.

Definition probeInterval (h : list event) : list event :=
  match createOn (ZeroFired :: h) true with
  | (h, inl _) => IntervalFailed :: h
  | (h, inr (t, _)) =>
      let '(h, rcSet) := settime h t (50 * 1000000) (50 * 1000000) in
      let h := sleepMs h 300 in
      let fired := g_fired H h in
      let '(h, _) := settime h t 0 0 in
      let over := timer_getoverrun H h in
      let h := Delete t :: Getoverrun t :: h in
      Repeats (2 <=? fired) :: Interval rcSet fired over :: h
  end.

Definition timerProbe (fuel : nat) (h : list event) : outcome (list event) :=
  if negb (orbis_log_enabled H) then Ok h else
  let h := probeCountdown h in
  h ← probeThreadNotify fuel h;
  let h := probeInterval h in
  let '(live, fired) := timerCounts H h in
  Ok (Carried live fired :: h).

End probe.
End TimerProbe.

Section safety.
Import TimerProbe.
Context (H : host).

(** ** What a probe leaves *)

(** The timers that exist after a history; [None] if a call named a timer that
    did not exist. *)
Fixpoint timers (h : list event) : option (list Z) :=
  match h with
  | [] => Some []
  | e :: h =>
      l ← timers h;
      match e with
      | Create _ _ (Some t) => Some (t :: l)
      | Settime t _ _ | Gettime t | Getoverrun t => if bool_decide (t ∈ l) then Some l else None
      | Delete t => if bool_decide (t ∈ l) then Some (filter (fun u => u <> t) l) else None
      | _ => Some l
      end
  end.

Fixpoint slept (h : list event) : Z :=
  match h with
  | [] => 0
  | Nanosleep sec nsec :: h => sec * 1000000000 + nsec + slept h
  | _ :: h => slept h
  end.

(** [h'] comes after [h] with the same timers and at most [ms] of sleep. *)
Definition after (h h' : list event) (ms : Z) : Prop :=
  timers h = Some [] -> timers h' = Some [] /\ slept h' <= slept h + ms * 1000000.

Lemma createOn_spec h on_thread h' r :
  createOn H h on_thread = (h', r) -> timers h = Some [] ->
  slept h' = slept h /\ timers h' = match r with inr (t, _) => Some [t] | inl _ => Some [] end.
Proof.
  unfold createOn. intros E Ht.
  destruct (timer_create H h true on_thread) as [e|t]; [destruct (timer_create H _ false on_thread) as [e2|t]|];
    injection E as <- <-; cbn; rewrite Ht; done.
Qed.

(** A history in which the one timer is [t]. *)
Lemma timers_use t h e :
  timers h = Some [t] -> match e with Settime u _ _ | Gettime u | Getoverrun u => u = t | Create _ _ _ | Delete _ => False | _ => True end ->
  timers (e :: h) = Some [t].
Proof.
  intros Hh He. cbn [timers]. rewrite Hh. cbn [mbind option_bind].
  destruct e; try done; subst; by rewrite bool_decide_eq_true_2 by by left.
Qed.

Lemma timers_delete t h : timers h = Some [t] -> timers (Delete t :: h) = Some [].
Proof.
  intros Hh. cbn [timers]. rewrite Hh. cbn [mbind option_bind]. rewrite bool_decide_eq_true_2 by by left.
  rewrite filter_cons_False by tauto. done.
Qed.

Ltac used := first [done | apply timers_delete; used | apply timers_use; [used|done]].

Lemma slept_sleepMs h ms : 0 <= ms -> slept (sleepMs h ms) = slept h + ms * 1000000.
Proof. intros. cbn. pose proof (Z.div_mod ms 1000). lia. Qed.

Lemma countdown_after h : after h (probeCountdown H h) 250.
Proof.
  intros Ht. unfold probeCountdown. destruct (createOn H h false) as [h1 r] eqn:E.
  destruct (createOn_spec _ _ _ _ E Ht) as [Hs Hl]. destruct r as [rc|[t clock]].
  - split; [cbn; by rewrite Hl|]. cbn. lia.
  - unfold settime, sleepMs. destruct (timer_gettime H _) as [rcGet [sec nsec]]. cbv beta iota zeta. split; [used|].
    cbn [slept]. dlia.
Qed.

(** The loop naps at most twenty times. *)
Lemma notify_after fuel h : (20 < fuel)%nat -> runs (probeThreadNotify H fuel h) (fun h' => after h h' 1000).
Proof.
  intros Hf. unfold probeThreadNotify. destruct (createOn H (ZeroFired :: h) true) as [h1 r] eqn:E.
  destruct r as [rc|[t clock]].
  { cbn [runs]. intros Ht. destruct (createOn_spec _ _ _ _ E) as [Hs Hl]; [cbn; by rewrite Ht|]. cbn in *. rewrite Hl. split; [done|]. lia. }
  unfold settime. rewrite runs_bind. set (h2 := Settime t (100 * 1000000) 0 :: h1).
  eapply runs_mono; [apply (while_total
    (fun '(h', waited) => 0 <= waited <= 1000 /\ (50 | waited) /\ slept h' = slept h2 + waited * 1000000 /\
       (timers h2 = Some [t] -> timers h' = Some [t])) (fun '(_, waited) => Z.to_nat ((1000 - waited) / 50))
    (fun '(h', waited) => slept h' <= slept h2 + 1000 * 1000000 /\ (timers h2 = Some [t] -> timers h' = Some [t])))|].
  - intros [h' waited] (Hw & [k ->] & Hs & Hl). cbn [runs].
    destruct ((g_fired H h' =? 0) && (k * 50 <? 1000)) eqn:Hc; cbn [runs]; [|split; [lia|done]].
    split; [split; [lia|]; split; [exists (k + 1); lia|]; split|].
    + rewrite slept_sleepMs by lia. lia.
    + intros H2. unfold sleepMs. apply timers_use; [by apply Hl|done].
    + replace (1000 - k * 50) with ((20 - k) * 50) by lia. replace (1000 - (k * 50 + 50)) with ((19 - k) * 50) by lia.
      rewrite !Z.div_mul by lia. lia.
  - split; [lia|]. split; [by exists 0|]. split; [lia|done].
  - change (20 < fuel)%nat. lia.
  - intros [h' waited] [Hs Hl]. cbn [runs]. intros Ht.
    destruct (createOn_spec _ _ _ _ E) as [Hs1 Hl1]; [cbn; by rewrite Ht|]. cbn [slept] in *.
    assert (timers h' = Some [t]) as Ht' by (apply Hl; unfold h2; used). split; [used|].
    unfold h2 in Hs. cbn [slept] in Hs. lia.
Qed.

Lemma interval_after h : after h (probeInterval H h) 300.
Proof.
  intros Ht. unfold probeInterval. destruct (createOn H (ZeroFired :: h) true) as [h1 r] eqn:E.
  destruct (createOn_spec _ _ _ _ E) as [Hs Hl]; [cbn; by rewrite Ht|]. cbn [slept] in Hs. destruct r as [rc|[t clock]].
  - split; [cbn; by rewrite Hl|]. cbn. lia.
  - unfold settime, sleepMs. cbv beta iota zeta. split.
    + set (h2 := Delete t :: _). assert (timers h2 = Some []) as H2 by (unfold h2; used). cbn [timers]. by rewrite H2.
    + cbn [slept] in *. dlia.
Qed.

(** Whatever the timers do, the probe comes to an end after at most 1.55
    seconds of sleep, deletes every timer it made, and makes no call on a
    timer that does not exist, on every path of failing calls. *)
Theorem timerProbe_correct fuel : (20 < fuel)%nat ->
  runs (timerProbe H fuel []) (fun h => timers h = Some [] /\ slept h <= 1550 * 1000000).
Proof.
  intros Hf. unfold timerProbe. destruct (orbis_log_enabled H); cbn [negb]; [|by cbn].
  destruct (countdown_after [] eq_refl) as [T1 S1]. rewrite runs_bind.
  eapply runs_mono; [by apply notify_after|]. intros h2 H2. destruct (H2 T1) as [T2 S2].
  destruct (interval_after h2 T2) as [T3 S3]. destruct (timerCounts H _) as [live fired]. cbn [runs timers slept].
  rewrite T3. split; [done|]. cbn [slept] in S1. lia.
Qed.

End safety.

(** A platform without timers on the monotonic clock, that notifies after the
    third nap. *)
Definition probe_demo : TimerProbe.host :=
  TimerProbe.mk_host (fun h mono _ => if mono : bool then inl 22 else inr (Z.of_nat (length h))) (fun _ => 0)
    (fun _ => (0, (0, 0))) (fun _ => 0)
    (fun h => if 3 <=? slept h / 50000000 - 5 then 1 else 0)
    (fun _ => (0, 1)) true.

Lemma timerProbe_witness :
  exists h, TimerProbe.timerProbe probe_demo 30 [] = Ok h /\ timers h = Some [] /\ slept h = 700 * 1000000.
Proof.
  destruct (runs_elim _ _ (timerProbe_correct probe_demo 30 ltac:(lia))) as (h & E & H1 & _).
  exists h. split; [exact E|]. split; [exact H1|]. vm_compute in E. injection E as <-. vm_compute. reflexivity.
Defined.
