(* ===== verification/ClockProbe.v ===== *)
(** The probe of [src/orbis_clock.cpp]: it measures the clocks against the
    kernel's counter, once busy and once asleep, and says whether
    [clock_gettime] of [Clock] is in the binary.  Its ratios are doubles, those
    of the Standard Library's [SpecFloat]. *)
From Stdlib Require Import SpecFloat.
From stdpp Require Import prelude list numbers.
From S2P Require Import Prelude UmtxTime Clock.
Open Scope Z_scope.

Module ClockProbe.

(** A 64-bit integer converted to a double, and the quotient of two. *)
Definition double (z : Z) : spec_float := binary_normalize 53 1024 z 0 false.
Definition quotient : spec_float -> spec_float -> spec_float := SFdiv 53 1024.
Definition point_nine : spec_float := quotient (double 9) (double 10).
Definition point_one : spec_float := quotient (double 1) (double 10).
Definition above (x y : spec_float) : bool := SFltb y x.

Inductive verdict := NotInBinary | WallTime | InconclusiveRatio.

(** The figures of a window, in microseconds. *)
Record window := mk_window { realUs : Z; procUs : Z; steadyUs : Z; hiresUs : Z }.

Definition ratio (us real : Z) : spec_float :=
  if 0 <? real then quotient (double us) (double real) else S754_zero false.

Definition verdict_of (busy asleep : window) : verdict :=
  let s0 := ratio (steadyUs busy) (realUs busy) in
  let s1 := ratio (steadyUs asleep) (realUs asleep) in
  if above s0 point_nine && above point_one s1 then NotInBinary
  else if above s0 point_nine && above s1 point_nine then WallTime
  else InconclusiveRatio.

Section probe.
Context (K : clocks) (I : ids).

Definition counter (s : state) : state * Z := (ask s, sceKernelGetProcessTimeCounter K (asked s)).
Definition process_time (s : state) : state * Z := (ask s, sceKernelGetProcessTime K (asked s)).

(** [steady_clock::now()] of the C++ library, in nanoseconds;
    [high_resolution_clock] is the same clock. *)
Definition now (s : state) : state * Z :=
  match clock_gettime K I s (CLOCK_MONOTONIC I) true with
  | (s, _, Some t) => (s, ns t)
  | (s, _, None) => (s, 0)
  end.

Record reading := mk_reading { at_counter : Z; at_process : Z; at_steady : Z; at_hires : Z }.

Definition read (s : state) : state * reading :=
  let '(s, c) := counter s in let '(s, p) := process_time s in
  let '(s, st) := now s in let '(s, h) := now s in
  (s, mk_reading c p st h).

(** [while(sceKernelGetProcessTimeCounter()-c0 < want) {}] *)
Definition spin (fuel : nat) (s : state) (c0 want : Z) : outcome state :=
  loop fuel (fun s => let '(s, c) := counter s in Ok (if u64 (c - c0) <? want then inl s else inr s)) s.

Definition busy_wait (fuel : nat) (s : state) (c0 : Z) : outcome state :=
  let freq := sceKernelGetProcessTimeCounterFrequency K in
  let want := if negb (freq =? 0) then freq / 50 else 0 in
  if negb (want =? 0) then spin fuel s c0 want else Ok s.

Definition figures (a b : reading) : window :=
  let freq := sceKernelGetProcessTimeCounterFrequency K in
  mk_window
    (if negb (freq =? 0) then s64 (u64 (u64 (at_counter b - at_counter a) * 1000000) / freq) else 0)
    (s64 (u64 (at_process b - at_process a)))
    (Z.quot (at_steady b - at_steady a) 1000) (Z.quot (at_hires b - at_hires a) 1000).

(** A window: [k = 0] is the busy one, in the other the thread sleeps. *)
Definition measure (fuel : nat) (s : state) (k : nat) : outcome (state * window) :=
  let '(s, a) := read s in
  s ← (if (k =? 0)%nat then busy_wait fuel s (at_counter a) else Ok s);
  let '(s, b) := read s in
  Ok (s, figures a b).

Record report := mk_report {
  frequency : Z; busy : window; asleep : window; the_verdict : verdict; unknown : option Z }.

(** [done]: the static flag. *)
Definition clockProbe (fuel : nat) (log_enabled : bool) (s : state) (done : bool) : outcome (state * bool * option report) :=
  if done || negb log_enabled then Ok (s, done, None) else
  let '(s, b) := clockBase K s in
  '(s, w0) ← measure fuel s 0;
  '(s, w1) ← measure fuel s 1;
  Ok (s, true, Some (mk_report (freq b) w0 w1 (verdict_of w0 w1) (if unknownIdSeen s then Some (unknownId s) else None))).

End probe.
End ClockProbe.

Section probe_runs.
Import ClockProbe.
Context (K : clocks) (I : ids) (St : steady K).

(** The readings of a moment: the base does not move, and the clock's reading
    is the counter's advance since the base at a question of this moment. *)
Lemma now_spec s o : based K s o ->
  exists s' i, now K I s = (s', elapsed K o i) /\ based K s' o /\ (asked s <= i < asked s')%nat.
Proof.
  intros Hb. unfold now, clock_gettime. cbn [negb].
  assert (is_mono I (CLOCK_MONOTONIC I) = true) as -> by (unfold is_mono; rewrite Z.eqb_refl; done).
  pose proof (monotonicNow_spec K (count_mono s) o St (or_intror Hb)) as M.
  destruct (monotonicNow K (count_mono s)) as [s' t]. destruct M as (B & L & E & _). cbn [asked count_mono] in L.
  exists s', (asked s' - 1)%nat. split; [by rewrite E|]. split; [done|]. lia.
Qed.

Lemma based_ask s o : based K s o -> based K (ask s) o.
Proof. intros [H1 H2]. split; [done|cbn; lia]. Qed.

Lemma read_spec s o : based K s o ->
  exists s' i j, read K I s =
      (s', mk_reading (sceKernelGetProcessTimeCounter K (asked s)) (sceKernelGetProcessTime K (S (asked s))) (elapsed K o i) (elapsed K o j)) /\
    based K s' o /\ (asked s < i < j)%nat /\ (j < asked s')%nat.
Proof.
  intros Hb. unfold read, counter, process_time.
  destruct (now_spec (ask (ask s)) o) as (s1 & i & -> & B1 & L1); [by do 2 apply based_ask|].
  destruct (now_spec s1 o B1) as (s2 & j & -> & B2 & L2).
  exists s2, i, j. split; [done|]. split; [done|]. cbn [asked ask] in L1. lia.
Qed.

(** The counter gets on: [n] questions after question [i] it has gained a
    fiftieth of a second. *)
Definition gains (n i : nat) : Prop :=
  sceKernelGetProcessTimeCounter K (i + n) - sceKernelGetProcessTimeCounter K i >= sceKernelGetProcessTimeCounterFrequency K / 50.

Lemma busy_wait_ok n fuel s o i : gains n i -> (n + 2 < fuel)%nat -> based K s o -> (i < asked s)%nat ->
  exists s', busy_wait K fuel s (sceKernelGetProcessTimeCounter K i) = Ok s' /\ based K s' o /\ (asked s <= asked s')%nat.
Proof.
  intros Hg Hf Hb Hi. unfold busy_wait. set (want := if negb (sceKernelGetProcessTimeCounterFrequency K =? 0) then _ else 0).
  destruct (want =? 0) eqn:Hw; cbn [negb]; [by exists s|]. unfold spin.
  assert (want = sceKernelGetProcessTimeCounterFrequency K / 50) as Hwant.
  { unfold want in *. by destruct (sceKernelGetProcessTimeCounterFrequency K =? 0). }
  destruct (runs_elim (loop fuel (fun s => let '(s, c) := counter K s in
      Ok (if u64 (c - sceKernelGetProcessTimeCounter K i) <? want then inl s else inr s)) s)
    (fun s' => based K s' o /\ (asked s <= asked s')%nat)) as (s' & E & B & L); [|by exists s'].
  apply (loop_total (fun s' => based K s' o /\ (asked s <= asked s' <= i + n + 1 + (asked s - i))%nat)
    (fun s' => (i + n + 1 + (asked s - i) - asked s')%nat)).
  - intros s' [B L]. unfold counter. cbn [runs].
    destruct (u64 (sceKernelGetProcessTimeCounter K (asked s') - sceKernelGetProcessTimeCounter K i) <? want) eqn:E.
    + assert (asked s' < i + n)%nat as Hlt.
      { apply Nat.nle_gt. intros Hle. pose proof Hg as G. unfold gains in G.
        pose proof (st_counter K St (i + n) (asked s') Hle). pose proof (st_counter K St i (asked s') ltac:(lia)).
        pose proof (st_counter_64 K St (asked s')). rewrite u64_small in E by lia. lia. }
      split; [split; [by apply based_ask|]|]; cbn; lia.
    + split; [by apply based_ask|cbn; lia].
  - split; [done|lia].
  - lia.
Qed.

(** The clocks under test do not run backwards in a window. *)
Definition forwards (w : window) : Prop := 0 <= steadyUs w /\ 0 <= hiresUs w.

Lemma measure_ok n fuel s o k : (k = 0%nat -> gains n (asked s)) -> (n + 2 < fuel)%nat -> based K s o ->
  exists s' w, measure K I fuel s k = Ok (s', w) /\ based K s' o /\ forwards w.
Proof.
  intros Hg Hf Hb. unfold measure. destruct (read_spec s o Hb) as (s1 & i1 & j1 & -> & B1 & L1). cbn [at_counter].
  assert (exists s2, (if (k =? 0)%nat then busy_wait K fuel s1 (sceKernelGetProcessTimeCounter K (asked s)) else Ok s1) = Ok s2 /\
    based K s2 o /\ (asked s1 <= asked s2)%nat) as (s2 & -> & B2 & L2).
  { destruct (Nat.eqb_spec k 0); [|by exists s1]. apply (busy_wait_ok n); [by apply Hg|done|done|lia]. }
  rewrite bind_ok. destruct (read_spec s2 o B2) as (s3 & i3 & j3 & -> & B3 & L3).
  eexists s3, _. split; [done|]. split; [done|]. unfold forwards, figures. cbn.
  pose proof (elapsed_mono K o i1 i3 St ltac:(lia)). pose proof (elapsed_mono K o j1 j3 St ltac:(lia)).
  split; apply Z.quot_pos; lia.
Qed.

(** On a console whose counter gets on, the probe ends, sees neither clock go
    backwards, and is made once: later calls do nothing. *)
Theorem clockProbe_correct n fuel s :
  (forall i, (i <= S (asked s))%nat -> gains n i) -> (n + 2 < fuel)%nat -> base s = None \/ (exists o, based K s o) ->
  exists s' r, clockProbe K I fuel true s false = Ok (s', true, Some r) /\
    forwards (busy r) /\ forwards (asleep r) /\ the_verdict r = verdict_of (busy r) (asleep r) /\
    clockProbe K I fuel true s' true = Ok (s', true, None).
Proof.
  intros Hg Hf Hb. unfold clockProbe at 1. cbn [orb negb].
  assert (exists s1 b o, clockBase K s = (s1, b) /\ based K s1 o /\ (asked s1 <= S (asked s))%nat) as (s1 & b & o & -> & B1 & L1).
  { unfold clockBase. destruct Hb as [Hb|[o [Hb Ho]]]; rewrite Hb.
    - eexists _, _, (asked s). split; [done|]. split; [split; [done|cbn; lia]|cbn; lia].
    - eexists s, _, o. split; [done|]. split; [done|lia]. }
  destruct (measure_ok n fuel s1 o 0 ltac:(auto) Hf B1) as (s2 & w0 & -> & B2 & F0). rewrite bind_ok.
  destruct (measure_ok n fuel s2 o 1 ltac:(done) Hf B2) as (s3 & w1 & -> & B3 & F1). rewrite bind_ok.
  eexists s3, _. split; [done|]. done.
Qed.
End probe_runs.

(** A clock that keeps up in both windows, one that stops while the thread
    sleeps, and one that runs at half speed; an empty window says nothing. *)
Example keeps_up : ClockProbe.verdict_of (ClockProbe.mk_window 20000 19998 19999 20001) (ClockProbe.mk_window 20133 20131 20130 20130) = ClockProbe.WallTime.
Proof. vm_compute. reflexivity. Qed.
Example stops : ClockProbe.verdict_of (ClockProbe.mk_window 20000 19998 19999 20001) (ClockProbe.mk_window 20133 20131 12 12) = ClockProbe.NotInBinary.
Proof. vm_compute. reflexivity. Qed.
Example halves : ClockProbe.verdict_of (ClockProbe.mk_window 20000 19998 10000 10000) (ClockProbe.mk_window 20133 20131 10066 10066) = ClockProbe.InconclusiveRatio.
Proof. vm_compute. reflexivity. Qed.
Example empty_window : ClockProbe.verdict_of (ClockProbe.mk_window 0 0 20000 0) (ClockProbe.mk_window 0 0 20000 0) = ClockProbe.InconclusiveRatio.
Proof. vm_compute. reflexivity. Qed.

(** A console whose counter advances a million ticks per question. *)
Definition probe_console : clocks :=
  mk_clocks 1600000000 (fun n => Z.min (2 ^ 63) (5000 + 1000000 * Z.of_nat n)) (fun n => Z.of_nat n) (fun _ => None).

Lemma clockProbe_witness :
  exists s r, ClockProbe.clockProbe probe_console ps4_ids 100 true initial false = Ok (s, true, Some r) /\
    forwards (ClockProbe.busy r) /\ ClockProbe.the_verdict r = ClockProbe.WallTime.
Proof.
  destruct (clockProbe_correct probe_console ps4_ids) with (n := 32%nat) (fuel := 100%nat) (s := initial) as (s & r & E & F & _).
  - split; cbn [sceKernelGetProcessTimeCounterFrequency sceKernelGetProcessTimeCounter sceKernelGetProcessTime probe_console]; unfold giga; lia.
  - unfold gains. cbn [sceKernelGetProcessTimeCounterFrequency sceKernelGetProcessTimeCounter probe_console asked initial].
    intros i Hi. destruct i as [|[|i]]; [vm_compute; discriminate|vm_compute; discriminate|lia].
  - lia.
  - by left.
  - exists s, r. split; [exact E|]. split; [exact F|].
    vm_compute in E. injection E as <- <-. vm_compute. reflexivity.
Defined.
